(* ===== verification/_CoqProject ===== *)
-Q . S2P
Prelude.v
Events.v
FoldTypes.v
FoldTasks.v
FoldDispatch.v
FoldAutomation.v
Fold.v
FoldIdempotence.v
FoldMachine.v
FoldPropagate.v
FoldInvariant.v
FoldReach.v
Sample.v
FoldProps.v
FoldAutoProps.v
FoldDispatchProps.v
Merge.v
FoldVersions.v
Compactor.v
CompactorProps.v
Manifest.v
ManifestProps.v
ReadyDispatch.v
ReadyDispatchProps.v
Storage.v
Interleave.v
Lock.v
LockProps.v
Scoped.v
Delta.v
DeltaInvariant.v
DeltaProps.v
PublishProps.v
Quota.v
QuotaProps.v
Dag.v
DagProps.v
DagCycle.v
Canonical.v
CanonicalProps.v
Plan.v
PlanProps.v
PlanDeterminism.v
TaskExec.v
Run.v
TaskQueue.v
Scheduler.v
SchedulerMachine.v
SchedulerSteps.v
SchedulerInvariant.v
SchedulerProgress.v
SchedulerProps.v
TaskTokens.v
Callbacks.v
CallbacksProps.v
Timers.v
AntiEntropy.v
BackfillControl.v
BackfillProps.v
AutomationControl.v
ScheduleProps.v
Selection.v
SelectionProps.v
RunRequests.v
RunBridge.v
RunRequestProps.v
Envelope.v
Services.v
DispatcherProps.v
SweepProps.v
IcebergTypes.v
IcebergMeta.v
IcebergStore.v
IcebergCommit.v
IcebergTx.v
IcebergMetaProps.v
IcebergInvariant.v
IcebergSafety.v
IcebergTxSafety.v
IcebergProps.v
