(* ===== verification/Prelude.v ===== *)
(** * Arco, verified

    Arco is a serverless data platform that keeps all of its state in an object
    store.  Its orchestrator ([crates/arco-flow]) is event-sourced: API handlers,
    workers and controllers append events to a ledger; one compactor folds them, in
    event-id order, into tables (runs, tasks, dependency edges, dispatch outbox,
    timers, schedules, sensors, backfills, partition status, run keys, idempotency
    keys, a catalog-facing run index); the tables are persisted as a base snapshot
    and L0 deltas under a manifest; and the controllers read the tables back and emit
    the next events.  What is below it ([crates/arco-core], [crates/arco-delta]) are
    protocols over the store's conditional writes: a fencing lock, publication of
    snapshots by swapping a pointer, Delta commits, each reaching the store through
    tenant scopes; and on the same store [crates/arco-iceberg] is an Iceberg catalog whose
    tables are pointers to metadata files, changed by single-table commits and by
    multi-table transactions.  This library models the fold with its round trip through the
    artifacts, the controllers, services and worker callbacks around it, these protocols
    under every interleaving, and the planner, the quota scheduler and the in-process
    scheduler beside them.

    ** Files

    Shared:
    - [Prelude]: record update, tactics and the hint database [arco], machine
      integers ([u32] as [N] with wrap-around), byte strings and their order,
      decimal printing and parsing, counting in finite maps.
    - [Sample]: concrete parameters and a short ledger, on which the witness lemmas
      evaluate.

    Orchestration ([crates/arco-flow/src/orchestration]):
    - [Events]: every event kind with its payload, event type, idempotency key and
      run id; the worker contract's payload types ([arco-worker-contract]); the
      backfill transition table.
    - [FoldTypes]: row types, enums and [FoldState] of [compactor/fold.rs], timer
      and dispatch identifiers ([orchestration/ids.rs]), ledger paths.
    - [FoldTasks], [FoldDispatch], [FoldAutomation], [Fold]: the handlers of
      [FoldState], one definition per handler with every branch, each returning
      the new state and whether the event was applied; [Fold.fold_event] is the
      dispatcher with the idempotency gate and the catalog run index.
    - [Merge]: the [merge_*_rows] functions.  [Compactor]: the pure functions of
      [compactor/service.rs]: [merge_states], [delta_from_states], retention, loading,
      sorting, one cycle.  [Manifest]: [compactor/manifest.rs] and the manifest part
      of a cycle, [update_watermarks] included.
    - [ReadyDispatch]: the controllers that turn ready tasks into dispatch events
      and outbox rows into Cloud Tasks ([controllers/ready_dispatch.rs],
      [controllers/dispatcher.rs]).
    - [Timers], [AntiEntropy], [BackfillControl], [AutomationControl] (schedules, sensors,
      staleness), [Selection], [RunRequests] and [RunBridge]: the other controllers of
      [controllers/] and [orchestration/selection.rs], pure functions of the tables to the
      events of a pass.
    - [TaskTokens], [Callbacks]: callback ids and task tokens ([arco-worker-contract],
      [arco-core/src/task_tokens.rs]) and the worker callbacks from the API's middleware to
      the events ([callbacks/], [arco-api/src/routes/tasks.rs]), with [CallbacksProps].
    - [Envelope], [Services]: what is sent through Cloud Tasks, and the run handlers of the
      services in [bin/], as functions of a world that holds the queue and the ledger.
    - Proofs about these: [BackfillProps], [ScheduleProps], [SelectionProps],
      [RunRequestProps], [DispatcherProps], [SweepProps].
    - Proofs about the fold: [FoldIdempotence] (what handlers leave alone, duplicates),
      [FoldMachine] (handlers as sequences of micro-steps of a state machine),
      [FoldPropagate] (the failure-propagation loop without fuel), [FoldInvariant]
      and [FoldReach] (the invariant and its preservation), [FoldProps],
      [FoldAutoProps], [FoldDispatchProps], [FoldVersions] (row versions only grow
      when events come in id order), [CompactorProps], [ManifestProps],
      [ReadyDispatchProps].

    Object storage and its protocols:
    - [Storage]: errors, the storage contract and the in-memory backend
      ([arco-core/src/storage.rs]); [async] code as [io] programs, finite trees of
      the calls they await; a JSON codec for the witnesses.  [Interleave]: any number of
      programs on one store, and the same with tokens ([Ownership]), for processes that
      rely on what they created.
    - [Lock]: the distributed lock and the publication protocol ([lock.rs],
      [publish.rs]), with [LockProps] and [PublishProps].
    - [Scoped]: tenant scopes ([scoped_storage.rs], [control_plane_scope.rs]).
    - [Delta]: the commit coordinator of [arco-delta], with [DeltaInvariant] and
      [DeltaProps].

    The Iceberg catalog ([crates/arco-iceberg/src]):
    - [IcebergTypes]: errors, table metadata, requirements and updates, pointers, markers,
      transaction records, receipts, paths ([error.rs], [types/], [pointer.rs],
      [idempotency.rs], [transactions.rs], [events.rs], [paths.rs]).
    - [IcebergMeta]: requirements, updates, bookkeeping and guardrails, pure ([commit.rs],
      [types/commit.rs]; the coordinator's copies are the same definitions).
    - [IcebergStore]: the three stores, reading a table, and the first metadata of a new
      one ([routes/tables.rs], [pointer_store.rs]); [IcebergCommit]:
      [CommitService::commit_table]; [IcebergTx]: the transaction coordinator
      ([coordinator.rs]).
    - [IcebergMetaProps]: metadata stays well formed.  [IcebergInvariant]: which paths can
      coincide, the writes that are legal, and what each does to what readers see.
      [IcebergSafety], [IcebergTxSafety]: commits and transactions make only such writes.
      [IcebergProps]: the theorems over all schedules, a concrete catalog, and runs of it
      that show its limits.

    Planning and fairness:
    - [Dag]: dependency graphs ([arco-flow/src/dag.rs]), with [DagProps] (Kahn's
      algorithm) and [DagCycle] (the search for a cycle, and what the sorts promise of a
      graph).
    - [Canonical]: partition keys and canonical JSON ([arco-core/src/partition.rs],
      [canonical_json.rs]), with [CanonicalProps].
    - [Plan]: plans, task keys and fingerprints ([arco-flow/src/plan.rs],
      [task_key.rs]), with [PlanProps] and [PlanDeterminism].
    - [Quota]: deficit round robin and the quota manager ([arco-flow/src/quota/]),
      with [QuotaProps].

    The in-process scheduler:
    - [TaskExec] ([task.rs]), [Run] ([run.rs], [events.rs]), [TaskQueue]
      ([dispatch/mod.rs], [dispatch/memory.rs]) and [Scheduler] ([scheduler.rs], the
      results of [runner.rs]): task and run machines, events, queues, and every
      operation of the scheduler in a state-and-error monad in which an error keeps
      the changes made before it.
    - [SchedulerMachine]: the small steps every operation is made of and the rules to
      show it; [SchedulerSteps]: every operation takes such steps;
      [SchedulerInvariant]: what the steps preserve, and the traversal of the tasks
      downstream; [SchedulerProgress]: no task waits for one that failed;
      [SchedulerProps]: the theorems.

    ** How the code is modelled

    A [HashMap] is a [gmap]; a loop over its entries runs over [map_to_list] and the
    theorems hold whatever order that is.  [&mut self] handlers are state-passing
    functions; [get_mut] is [alter] or a lookup and an insert.  A [BTreeMap] or
    [BTreeSet] that is iterated is a sorted list.  A [String] is its bytes, compared
    lexicographically; [DateTime<Utc>] is nanoseconds; [u32] counters wrap
    ([u32_add]), as in a release build.

    Concurrency: an [io] program awaits one storage call or reads its clock at a
    time.  [Interleave.run_schedule] runs programs on one store along a list of
    turns; a turn lets time pass, and its call may be lost before or after it took
    effect, in which case the program sees an error.  Each process has a clock of
    its own, skewed at will; a process that gets no more turns has crashed.  The
    world keeps the history of writes.  Safety is proved with [Interleave.wp]: each
    call keeps an invariant from every state the other processes may reach from the
    last one, and [run_schedule_sound] lifts this to all schedules.  In [Ownership.wpo] a
    process can also hold tokens: the creator of a transaction record holds the
    transaction's, others may abort it but place none of its updates and clear none while
    it is being prepared ([IcebergSafety.others_may]), and [run_owned] lifts this.

    Parameters, with what is assumed of them: SHA-256, HMAC, base-32 and hex
    ([Hashes]), the clock and chrono ([Chrono]) and [serde_json::to_string]
    ([SerdeJson], [JsonString]) without laws; a JSON codec of a stored type ([Json])
    that reads back what it wrote ([JsonLaws]); canonical JSON of requests and the
    UUID parser ([Jcs], [UuidParse]) without laws; URL-safe base64 ([Base64Laws]:
    decoding inverts encoding, no comma); petgraph's [DiGraph] ([DiGraphLaws]: adding
    nodes and edges adds them and nothing else, neighbours are the ends of edges; the
    order of neighbours is left open).  The theorems on Delta commits take as
    hypotheses that a client sends one request per idempotency key and that SHA-256 has
    no collisions.  The ULIDs of
    the scheduler are printed one to one without a colon ([DisplayLaws]); its clock and
    fresh ids ([Supply]) have no laws.  JWT signing ([JwtLaws]: a token in force decodes to what was
    signed), partition resolvers ([PartitionResolverLaws]: chunks tile the range), the cron
    crate ([CronLaws]: the times after an instant, in order), chrono's text of an instant
    ([Rfc3339Laws]: it reads back), the Cloud Tasks queue and the ledger ([CloudLaws]: a name
    is accepted once, a batch is appended, a call that fails may have taken effect); sensor
    evaluators and the callbacks' ledger writer have no laws.  The UUID crate ([UuidCrate]),
    [to_value] and date formats have none either; that a UUID prints in canonical form is
    part of its type.  The Iceberg theorems take as a hypothesis that a digest in
    hexadecimal has no dot, so that a metadata file is never a marker, and start from any
    store whose history is legal ([IcebergInvariant.iceberg_inv]), such as one with tables
    just created.  Every class has an instance.

    Fuel: loops that are not structural carry fuel, with a theorem that it is
    enough.  Failure propagation has one turn per task plus one (C8); the scan for
    the first missing chunk one per chunk plus one (C17); Kahn's algorithm one turn
    per node plus one and the search for a cycle one per node and edge plus two
    ([DagProps.kahn_sorts], [DagCycle.find_cycle_sound_complete]).  Skipping
    has one turn per task plus two ([SchedulerInvariant.skip_downstream_exact]).  A backfill pass
    has one turn per chunk (C18) and a closure one per root and edge
    ([SelectionProps.close_selection_exact]).  The retries of the lock and of the Delta coordinator are the code's own bounds.

    ** What is proved

    - The idempotency gate: folding an event twice is folding it once (C1), and a
      claimed key makes redelivery a no-op for ever ([FoldIdempotence]).
    - The task and run machines: tasks move along their lifecycle and never leave a
      terminal state (C3), run counters are exact (C4), a run's verdict follows its
      tasks and readiness is sound (C6) and complete ([FoldProps]), failure propagation
      terminates and ends exactly the cone below a failure (C8, C9), settled outputs
      stay settled ([FoldProps.output_settled_forever]).
    - Dispatch and timers: consumed attempts are not dispatched again (C20); timer
      identifiers round-trip, requests and acknowledgements commute
      ([FoldDispatchProps]).
    - Automation: planned chunks are a prefix (C17); one sensor poll wins, run keys
      are bound once, backfills follow their transitions and ticks commute
      ([FoldAutoProps]).
    - Compaction: merges compose ([Merge.merges_staged]); a cycle loses nothing when batches come in id
      order (C26); the fold's guarantees hold of every loaded state (C29), whose
      graph is the folded one ([CompactorProps]); manifests succeed one another and keep L0
      bounded ([ManifestProps]); a rebuild replays each event once, in order (C34).
    - Controllers, each pass folded back into the state it read: the ready-dispatch
      controller emits exactly the dispatches that are due ([ReadyDispatchProps]), and
      folding them dispatches the tasks (C36); the sweeper heals exactly what is stuck (C2);
      requested runs come to life once (C16); a backfill pass plans the next chunks within
      its limit (C18); each time of a schedule is ticked once over any sequence of passes
      (C24); a selection is closed and planned as its options say ([SelectionProps]).
    - Services and workers: a dispatcher run delivers each dispatch once and acknowledges
      only what the queue has, wherever it breaks off (C35); a worker reads back the attempt
      it was sent, with a token for it ([DispatcherProps]); a callback is heard and applied
      for the current attempt (C27) and for no other (C30).
    - The lock: fencing tokens identify acquisitions and grow (C38), a record follows
      the one before it as a release or as a take-over after expiry (C39), and what
      acquiring returns in every case (C13).
    - Publication: the pointer never dangles, and of two publishers that expected the
      same pointer at most one is visible (C25).
    - Scopes do not reach each other's objects (C14).
    - Delta commits: the log has no holes and is never rewritten (C40), and a commit
      that returns is durable and alone at its version (C10).
    - The Iceberg catalog, for any number of commits, transactions and readers under any
      schedule: readers see a linear history in which every commit replaces the metadata
      it was computed and validated from, and the tables of a transaction change at one
      write (C5); whoever was told of a commit or a transaction, it was visible, all of
      it at one moment (C7); a read returns what was current while it ran (C12); files,
      settled transactions and finalized markers stay, and no location dangles (C32).  A
      commit that fits its table and runs alone succeeds, so that there are commits to
      speak of (C15).  A commit keeps metadata well formed and its counters growing (C28); guarded requests
      leave reserved properties alone, and removing snapshots cuts the log right (C33).
    - Quotas: deficit round robin idles only when nothing is ready, keeps queues in
      order and shares in proportion to weights (C23); the quota is never exceeded
      ([QuotaProps.quota_never_exceeded]).
    - Planning: a plan is in dependency order with tight stages and a refusal names
      what is wrong, cycles included (C37); plans and fingerprints do not depend on
      the order or the ids of the tasks (C21); partition keys round-trip (C31).
    - The in-process scheduler, over every sequence of its operations on a run of a
      plan [build] returned: no task runs before its dependencies succeeded and no
      task has more than three attempts (C11), the run is never stuck (C19), a failure
      skips exactly what is downstream (C22), events are numbered and told once
      ([SchedulerProps]).
    - Where the code and its documentation part: an event below the version of the row
      it rewrites is lost on reload although it is claimed ([CompactorProps]); and, beside the
      theorems, a plan resurrects a cancelled run ([FoldProps]), a consumed dispatch
      comes back on reload ([CompactorProps]), a late start undoes a failure
      ([FoldProps]), a rejected success erases the error of a task and a cancelled
      task keeps its run from completing ([SchedulerProps]), extending or breaking a lock reissues a token ([LockProps]), a
      key used for two requests leaves a hole in the Delta log ([DeltaProps]), the
      partition-key parser accepts more than its grammar ([CanonicalProps]), no code starts
      the retry timer of a task, so that retries never come ([SweepProps]), timer payloads
      are refused by the service they are sent to ([Envelope]), a redispatch is never
      acknowledged ([SweepProps]), a backfill stops after its first chunks
      ([BackfillProps]), a tick one second after the last is lost ([ScheduleProps]), a
      selection with both options stops short ([SelectionProps]); in the Iceberg catalog
      ([IcebergProps]) taking over a marker can apply a request twice or report an applied
      one as failed, a transaction id can answer with another request's result, a
      conditional read can miss a committed transaction, and a new partitioned table
      starts with a wrong partition counter.

    Plans are assumed to name each task once and to list each dependency once, with
    fewer than 2^32 tasks ([FoldMachine.plan_wf]); event ids are assumed to have no
    colon where conflict keys are built from them (ULIDs have none).

    ** What is not modelled

    The adapter to the object_store crate, Parquet encoding (timestamps lose precision
    below a millisecond there), the back-off between retries, metrics and tracing;
    the compactor service as a process, that is its cycle over the lock and the
    publication protocol; the services' configuration and HTTP routing; of Iceberg, table
    creation and removal (they go through the catalog writer and delete objects, which the
    invariant of the catalog excludes), garbage collection, the reconciler, credentials and
    the remaining routes; and the other crates (catalog, API, CLI).  A transaction accepts
    a metadata file that is already at its location, so that C5 says of a transaction's new
    locations that they are there, and only of a commit's that they are computed from the
    old.  What would come next: the catalog's writer and state store, Iceberg's garbage
    collection and table creation, the Parquet row codecs, and the compactor's publication
    as an [io] program. *)


From stdpp Require Export base tactics option list gmap strings pretty numbers fin_maps.
From Stdlib Require Export Ascii.
From stdpp Require Import options.

(** ** Record update

    [r <| proj := v |>] replaces one field of a record.  A record type opts in
    with an [Eta] instance, its constructor applied to all its projections; the
    setter of a projection is then derived by abstracting that projection out of
    the eta-expansion. *)

Class Eta (R : Type) := eta_expand : R -> R.

Class Setter {R E : Type} (proj : R -> E) := put_field : E -> R -> R.
Arguments put_field {R E} proj {_} _ _ /.

Ltac derive_setter proj :=
  let v := fresh "v" in
  let r := fresh "r" in
  intros v r;
  let R := type of r in
  let inst := constr:(_ : Eta R) in
  let body := eval hnf in (@eta_expand R inst r) in
  let abstracted := eval pattern (proj r) in body in
  lazymatch abstracted with
  | ?f _ => let res := eval cbv beta in (f v) in exact res
  end.

#[export] Hint Extern 1 (Setter ?proj) =>
  (red; derive_setter proj) : typeclass_instances.

Declare Scope arco_scope.
Delimit Scope arco_scope with arco.
Notation "r <| proj := v |>" := (put_field proj v r)
  (at level 1, left associativity) : arco_scope.
Open Scope arco_scope.

(** ** Tactics and hint databases *)

Create HintDb arco.

(** Case analysis on the scrutinee of a [match] or [if] in the goal or in a
    hypothesis, keeping the equation. *)
Ltac split_match :=
  match goal with
  | |- context [match ?x with _ => _ end] => destruct x eqn:?
  | H : context [match ?x with _ => _ end] |- _ => destruct x eqn:?
  end.

(** The usual way through a handler: unfold it by hand, then open every
    branch and discharge the ones that contradict the hypotheses. *)
Ltac branches := repeat (split_match; simplify_eq/=; try done).

(** Split a boolean conjunction, disjunction or negation hypothesis. *)
Ltac bool_hyps :=
  repeat match goal with
  | H : _ && _ = true |- _ => apply andb_true_iff in H; destruct H
  | H : _ || _ = false |- _ => apply orb_false_iff in H; destruct H
  | H : negb _ = true |- _ => apply negb_true_iff in H
  | H : negb _ = false |- _ => apply negb_false_iff in H
  | H : bool_decide _ = true |- _ => apply bool_decide_eq_true in H
  | H : bool_decide _ = false |- _ => apply bool_decide_eq_false in H
  end.

(** ** Machine integers

    [u32] and [u64] values are [N], [i64] values and instants are [Z].  A
    release build wraps on overflow (the workspace's release profile leaves
    overflow checks off), so [+= 1] on a [u32] counter is [u32_add]. *)

Abbreviation u32 := N (only parsing).
Abbreviation u64 := N (only parsing).
Abbreviation i64 := Z (only parsing).
(** [DateTime<Utc>] as nanoseconds since the Unix epoch. *)
Abbreviation DateTime := Z (only parsing).

Definition u32_modulus : N := 4294967296.
Definition u32_max : u32 := 4294967295.
Definition u64_max : u64 := 18446744073709551615.
Definition i64_max : i64 := 9223372036854775807.
Definition i64_min : i64 := -9223372036854775808.

Definition u32_add (a b : u32) : u32 := ((a + b) mod u32_modulus)%N.
Definition u32_saturating_add (a b : u32) : u32 := N.min (a + b) u32_max.
(** [u32::try_from(len).unwrap_or(u32::MAX)]. *)
Definition u32_of_len (n : nat) : u32 :=
  if (N.of_nat n <=? u32_max)%N then N.of_nat n else u32_max.

Lemma u32_add_small a b : (a + b < u32_modulus)%N -> u32_add a b = (a + b)%N.
Proof. intros. unfold u32_add. by apply N.mod_small. Qed.

Lemma u32_saturating_add_small a b :
  (a + b < u32_modulus)%N -> u32_saturating_add a b = (a + b)%N.
Proof. unfold u32_saturating_add, u32_modulus, u32_max. lia. Qed.

Lemma u32_of_len_small n :
  (N.of_nat n < u32_modulus)%N -> u32_of_len n = N.of_nat n.
Proof.
  unfold u32_of_len, u32_modulus, u32_max. intros.
  destruct (N.leb_spec (N.of_nat n) 4294967295); lia.
Qed.

(** ** Strings

    A Rust [String] is its UTF-8 bytes, compared lexicographically: the order
    of [String.leb] on lists of bytes. *)

Definition str_leb (a b : string) : bool := String.leb a b.
(** [a < b] *)
Definition str_ltb (a b : string) : bool := negb (String.leb b a).

Lemma str_leb_refl a : str_leb a a = true.
Proof. apply Is_true_true, (reflexivity (R := String.le) a). Qed.

Lemma str_leb_trans a b c :
  str_leb a b = true -> str_leb b c = true -> str_leb a c = true.
Proof.
  unfold str_leb. rewrite <- !Is_true_true.
  intros. by apply (transitivity (R := String.le) (y := b)).
Qed.

Lemma str_leb_antisym a b :
  str_leb a b = true -> str_leb b a = true -> a = b.
Proof. apply String.leb_antisym. Qed.

Lemma str_leb_false a b : str_leb a b = false -> str_leb b a = true.
Proof. intros H. destruct (String.leb_total a b); unfold str_leb in *; congruence. Qed.

Lemma str_leb_compare_gt a b : String.compare a b = Gt <-> str_leb a b = false.
Proof. unfold str_leb, String.leb. by destruct (String.compare a b). Qed.

Lemma str_leb_empty a : str_leb a "" = true -> a = "".
Proof. by destruct a. Qed.

#[export] Hint Resolve str_leb_refl str_leb_trans str_leb_false : arco.

(** [s.split(c)]: never empty, one piece more than there are separators. *)
Fixpoint split_on (c : ascii) (s : string) : list string :=
  match s with
  | EmptyString => [EmptyString]
  | String a s' =>
      if decide (a = c) then EmptyString :: split_on c s'
      else match split_on c s' with
           | h :: t => String a h :: t
           | [] => [String a EmptyString]
           end
  end.

(** [s.split_once(c)] *)
Fixpoint split_once (c : ascii) (s : string) : option (string * string) :=
  match s with
  | EmptyString => None
  | String a s' =>
      if decide (a = c) then Some (EmptyString, s')
      else match split_once c s' with
           | Some (l, r) => Some (String a l, r)
           | None => None
           end
  end.

(** [s.strip_suffix(suf)] *)
Fixpoint strip_suffix (suf s : string) : option string :=
  if decide (s = suf) then Some EmptyString
  else match s with
       | EmptyString => None
       | String a s' => String a <$> strip_suffix suf s'
       end.

Fixpoint str_contains (c : ascii) (s : string) : bool :=
  match s with
  | EmptyString => false
  | String a s' => bool_decide (a = c) || str_contains c s'
  end.

Definition str_is_empty (s : string) : bool :=
  match s with EmptyString => true | _ => false end.

Lemma str_app_nil (s : string) : "" +:+ s = s.
Proof. reflexivity. Qed.

Lemma str_app_cons a (s r : string) : String a s +:+ r = String a (s +:+ r).
Proof. reflexivity. Qed.

Create Rewrite HintDb str_app.
#[export] Hint Rewrite str_app_nil str_app_cons : str_app.

(** Push constructors through [+:+], which [simpl] leaves folded. *)
Ltac str_simpl := autorewrite with str_app; simpl.

Lemma str_contains_app c a b : str_contains c (a +:+ b) = str_contains c a || str_contains c b.
Proof. induction a as [|x a IH]; [done|]. str_simpl. by rewrite IH, orb_assoc. Qed.

Lemma split_on_no_sep c s : str_contains c s = false -> split_on c s = [s].
Proof.
  induction s as [|a s IH]; [done|]; simpl. intros H; bool_hyps.
  rewrite decide_False by done. by rewrite IH.
Qed.

Lemma split_on_app c s r :
  str_contains c s = false ->
  split_on c (s +:+ String c r) = s :: split_on c r.
Proof.
  induction s as [|a s IH]; str_simpl.
  - intros _. by rewrite decide_True.
  - intros H; bool_hyps. rewrite decide_False by done. by rewrite IH.
Qed.

Lemma str_app_assoc (a b c : string) : (a +:+ b) +:+ c = a +:+ (b +:+ c).
Proof. induction a as [|x a IH]; [done|]. str_simpl. by rewrite IH. Qed.

Lemma str_length_app (u v : string) :
  String.length (u +:+ v) = String.length u + String.length v.
Proof. induction u as [|x u IH]; [done|]. str_simpl. by rewrite IH. Qed.

Lemma strip_suffix_app suf s : strip_suffix suf (s +:+ suf) = Some s.
Proof.
  induction s as [|a s IH]; str_simpl.
  - by destruct suf; simpl; [|rewrite decide_True].
  - rewrite IH. case_decide as Heq; [|done]. exfalso.
    apply (f_equal String.length) in Heq. simpl in Heq.
    rewrite str_length_app in Heq. lia.
Qed.

Lemma strip_suffix_Some suf s p : strip_suffix suf s = Some p -> s = p +:+ suf.
Proof.
  revert p. induction s as [|a s IH]; intros p; simpl; case_decide; try done.
  - by intros [= <-].
  - by intros [= <-].
  - destruct (strip_suffix suf s) as [q|]; [|done]. simpl. intros [= <-].
    str_simpl. f_equal. by apply IH.
Qed.

(** ** Decimal numbers

    [format!("{n}")] is stdpp's [pretty]; the parsers follow [str::parse]:
    an optional sign, at least one digit, an error on overflow. *)

Definition digit_value (c : ascii) : option N :=
  let n := N_of_ascii c in
  if (48 <=? n)%N && (n <=? 57)%N then Some (n - 48)%N else None.

Fixpoint parse_digits_go (s : string) (acc : N) : option N :=
  match s with
  | EmptyString => Some acc
  | String c s' =>
      match digit_value c with
      | Some d => parse_digits_go s' (acc * 10 + d)
      | None => None
      end
  end.

Definition parse_digits (s : string) : option N :=
  if str_is_empty s then None else parse_digits_go s 0.

Definition parse_u32 (s : string) : option u32 :=
  let body := match s with String "+" r => r | _ => s end in
  n ← parse_digits body; if (n <=? u32_max)%N then Some n else None.

Definition parse_i64 (s : string) : option i64 :=
  match s with
  | String "-" r =>
      n ← parse_digits r;
      if (i64_min <=? - Z.of_N n)%Z then Some (- Z.of_N n)%Z else None
  | String "+" r =>
      n ← parse_digits r; if (Z.of_N n <=? i64_max)%Z then Some (Z.of_N n) else None
  | _ =>
      n ← parse_digits s; if (Z.of_N n <=? i64_max)%Z then Some (Z.of_N n) else None
  end.

Lemma digit_value_pretty x :
  (x < 10)%N -> digit_value (pretty_N_char x) = Some x.
Proof.
  intros. assert (x = 0 \/ x = 1 \/ x = 2 \/ x = 3 \/ x = 4 \/ x = 5 \/ x = 6
    \/ x = 7 \/ x = 8 \/ x = 9)%N as Hx by lia.
  by destruct_or! Hx; subst.
Qed.

Lemma parse_digits_go_pretty x s :
  parse_digits_go (pretty_N_go x s) 0 = parse_digits_go s x.
Proof.
  revert s. induction (N.lt_wf_0 x) as [x _ IH]; intros s.
  destruct (decide (x = 0)%N) as [->|]; [by rewrite pretty_N_go_0|].
  rewrite pretty_N_go_step by lia. rewrite IH by (apply N.div_lt; lia). simpl.
  rewrite digit_value_pretty by (apply N.mod_lt; lia). f_equal.
  rewrite (N.div_mod x 10) at 3 by lia. lia.
Qed.

Lemma pretty_N_go_nonempty x s : s <> "" -> pretty_N_go x s <> "".
Proof.
  revert s. induction (N.lt_wf_0 x) as [x _ IH]; intros s Hs.
  destruct (decide (x = 0)%N) as [->|]; [by rewrite pretty_N_go_0|].
  rewrite pretty_N_go_step by lia. apply IH; [by apply N.div_lt; lia|done].
Qed.

Lemma parse_digits_pretty (n : N) : parse_digits (pretty n) = Some n.
Proof.
  unfold parse_digits, pretty, pretty_N. case_decide as Hn; [by subst|].
  destruct (pretty_N_go n "") as [|c r] eqn:E.
  - rewrite pretty_N_go_step in E by lia. by apply pretty_N_go_nonempty in E.
  - simpl str_is_empty. cbv iota. rewrite <- E. by rewrite parse_digits_go_pretty.
Qed.

(** The first character of a printed number is a digit, never a sign or a
    separator. *)
Definition all_digits (s : string) : Prop :=
  forall c, str_contains c s = true -> is_Some (digit_value c).

Lemma all_digits_pretty_go x s : all_digits s -> all_digits (pretty_N_go x s).
Proof.
  revert s. induction (N.lt_wf_0 x) as [x _ IH]; intros s Hs.
  destruct (decide (x = 0)%N) as [->|]; [by rewrite pretty_N_go_0|].
  rewrite pretty_N_go_step by lia. apply IH; [by apply N.div_lt; lia|].
  intros c. simpl. rewrite orb_true_iff, bool_decide_eq_true. intros [<-|]; [|by auto].
  rewrite digit_value_pretty; [done|]. apply N.mod_lt; lia.
Qed.

Lemma all_digits_pretty (n : N) : all_digits (pretty n).
Proof.
  unfold pretty, pretty_N. case_decide.
  - intros c. simpl. rewrite orb_false_r, bool_decide_eq_true. by intros <-.
  - apply all_digits_pretty_go. intros c. done.
Qed.

Lemma pretty_N_no_char (n : N) c :
  digit_value c = None -> str_contains c (pretty n) = false.
Proof.
  intros Hc. destruct (str_contains c (pretty n)) eqn:E; [|done].
  apply all_digits_pretty in E. rewrite Hc in E. by destruct E.
Qed.

Lemma parse_u32_pretty (n : u32) : (n <= u32_max)%N -> parse_u32 (pretty n) = Some n.
Proof.
  intros Hn. unfold parse_u32.
  assert ((match pretty n with String "+" r => r | _ => pretty n end) = pretty n) as ->.
  { pose proof (pretty_N_no_char n "+"%char eq_refl) as H.
    destruct (pretty n) as [|a r]; [done|]. simpl in H. bool_hyps.
    destruct a as [[] [] [] [] [] [] [] []]; done. }
  rewrite parse_digits_pretty. simpl. by rewrite (proj2 (N.leb_le _ _) Hn).
Qed.

Lemma parse_i64_digits s :
  all_digits s ->
  parse_i64 s =
    (n ← parse_digits s; if (Z.of_N n <=? i64_max)%Z then Some (Z.of_N n) else None).
Proof.
  intros Hs. destruct s as [|a r]; [done|].
  assert (is_Some (digit_value a)) as Ha.
  { apply Hs. simpl. by rewrite bool_decide_true. }
  destruct a as [[] [] [] [] [] [] [] []]; try done; by destruct Ha.
Qed.

Lemma parse_i64_pretty (z : i64) :
  (i64_min <= z <= i64_max)%Z -> parse_i64 (pretty z) = Some z.
Proof.
  intros Hz. unfold pretty, pretty_Z. destruct z as [|p|p].
  - done.
  - change (pretty p) with (pretty (N.pos p)).
    rewrite parse_i64_digits by apply all_digits_pretty.
    rewrite parse_digits_pretty. simpl.
    by rewrite (proj2 (Z.leb_le _ _)) by lia.
  - change (pretty p) with (pretty (N.pos p)). rewrite str_app_cons, str_app_nil.
    unfold parse_i64. rewrite parse_digits_pretty. simpl.
    by rewrite (proj2 (Z.leb_le _ _)) by lia.
Qed.

Lemma pretty_Z_no_char (z : Z) c :
  digit_value c = None -> c <> "-"%char -> str_contains c (pretty z) = false.
Proof.
  intros Hc Hd. unfold pretty, pretty_Z. destruct z.
  - by apply (pretty_N_no_char 0).
  - by apply pretty_N_no_char.
  - str_simpl. rewrite bool_decide_false by done. by apply pretty_N_no_char.
Qed.

(** [format!("{n:0width$}")]: padded with zeros on the left. *)
Fixpoint zeros (n : nat) : string :=
  match n with O => "" | S n => String "0" (zeros n) end.

Definition zero_pad (width : nat) (n : N) : string :=
  zeros (width - String.length (pretty n)) +:+ pretty n.

Lemma parse_digits_go_zeros n s : parse_digits_go (zeros n +:+ s) 0 = parse_digits_go s 0.
Proof. induction n as [|n IH]; str_simpl; done. Qed.

Lemma zero_pad_inj width n m : zero_pad width n = zero_pad width m -> n = m.
Proof.
  intros E. pose proof (parse_digits_pretty n) as Hn. pose proof (parse_digits_pretty m) as Hm.
  unfold parse_digits in *.
  assert (parse_digits_go (pretty n) 0 = Some n) as Hn' by (by destruct (str_is_empty (pretty n))).
  assert (parse_digits_go (pretty m) 0 = Some m) as Hm' by (by destruct (str_is_empty (pretty m))).
  apply (f_equal (fun s => parse_digits_go s 0)) in E. unfold zero_pad in E.
  rewrite !parse_digits_go_zeros, Hn', Hm' in E. by simplify_eq.
Qed.

Create Rewrite HintDb decimal.
#[export] Hint Rewrite parse_digits_pretty : decimal.
#[export] Hint Rewrite parse_u32_pretty parse_i64_pretty using (done || lia) : decimal.

Lemma str_sep_inj (c : ascii) (a b p q : string) :
  str_contains c p = false -> str_contains c q = false ->
  a +:+ String c p = b +:+ String c q -> a = b /\ p = q.
Proof.
  intros Hp Hq. revert b. induction a as [|x a IH]; intros [|y b]; str_simpl.
  - by intros [= ->].
  - intros [= _ E]. subst. exfalso. clear -Hp. induction b as [|z b IH]; simpl in Hp;
      autorewrite with str_app in Hp; simpl in Hp; bool_hyps; auto.
  - intros [= _ E]. subst. exfalso. clear -Hq. induction a as [|z a IH]; simpl in Hq;
      autorewrite with str_app in Hq; simpl in Hq; bool_hyps; auto.
  - intros [= -> E]. apply IH in E as [-> ->]. done.
Qed.

Lemma str_app_inj_l (p a b : string) : p +:+ a = p +:+ b -> a = b.
Proof. induction p as [|x p IH]; str_simpl; [done|]. intros [= ?]. auto. Qed.

Lemma str_app_inj_r (a b x : string) : a +:+ x = b +:+ x -> a = b.
Proof.
  intros E. apply (f_equal (strip_suffix x)) in E. rewrite !strip_suffix_app in E. congruence.
Qed.

(** ** Counting in finite maps *)

Section mcount.
Context `{Countable K} {V : Type}.
Implicit Types (P Q : K -> V -> bool) (m : gmap K V).

(** The number of bindings of [m] that satisfy [P]. *)
Definition mcount (P : K -> V -> bool) (m : gmap K V) : nat :=
  length (List.filter (fun kv => P kv.1 kv.2) (map_to_list m)).

Lemma mcount_empty P : mcount P ∅ = 0.
Proof. unfold mcount. by rewrite map_to_list_empty. Qed.

Lemma filter_length_Permutation {A} (f : A -> bool) (l1 l2 : list A) :
  l1 ≡ₚ l2 -> length (List.filter f l1) = length (List.filter f l2).
Proof. induction 1; simpl; repeat case_match; simpl; lia. Qed.

Lemma mcount_insert_new P m k v :
  m !! k = None ->
  mcount P (<[k:=v]> m) = Nat.b2n (P k v) + mcount P m.
Proof.
  intros Hk. unfold mcount.
  rewrite (filter_length_Permutation _ _ _ (map_to_list_insert m k v Hk)).
  simpl. by destruct (P k v).
Qed.

Lemma mcount_delete P m k v :
  m !! k = Some v -> mcount P m = Nat.b2n (P k v) + mcount P (delete k m).
Proof.
  intros Hk. rewrite <- (insert_delete_id m k v Hk) at 1.
  apply mcount_insert_new. apply lookup_delete_eq.
Qed.

Lemma mcount_insert_old P m k v v' :
  m !! k = Some v ->
  mcount P (<[k:=v']> m) + Nat.b2n (P k v) = mcount P m + Nat.b2n (P k v').
Proof.
  intros Hk. rewrite <- insert_delete_eq.
  rewrite mcount_insert_new by apply lookup_delete_eq.
  rewrite (mcount_delete P m k v Hk). lia.
Qed.

Lemma mcount_insert_same P m k v v' :
  m !! k = Some v -> P k v = P k v' -> mcount P (<[k:=v']> m) = mcount P m.
Proof. intros Hk HP. pose proof (mcount_insert_old P m k v v' Hk). rewrite HP in *. lia. Qed.

Lemma mcount_le_size P m : mcount P m <= size m.
Proof.
  unfold mcount. rewrite <- length_map_to_list. apply List.filter_length_le.
Qed.

Lemma mcount_mono P Q m :
  (forall k v, m !! k = Some v -> P k v = true -> Q k v = true) ->
  mcount P m <= mcount Q m.
Proof.
  intros HPQ. unfold mcount.
  assert (forall kv, kv ∈ map_to_list m -> P kv.1 kv.2 = true -> Q kv.1 kv.2 = true) as H'.
  { intros [k v] Hin%elem_of_map_to_list. eauto. }
  revert H'. generalize (map_to_list m). induction l as [|kv l IH]; intros H'; [done|].
  simpl. destruct (P kv.1 kv.2) eqn:EP.
  - rewrite (H' kv) by (auto; set_solver). simpl. apply le_n_S, IH. set_solver.
  - case_match; simpl; [apply le_S|]; apply IH; set_solver.
Qed.

Lemma mcount_ext P Q m :
  (forall k v, m !! k = Some v -> P k v = Q k v) -> mcount P m = mcount Q m.
Proof.
  intros HPQ. apply Nat.le_antisymm; apply mcount_mono; intros k v Hk;
    by rewrite (HPQ k v Hk).
Qed.

Lemma mcount_zero P m :
  (forall k v, m !! k = Some v -> P k v = false) -> mcount P m = 0.
Proof.
  intros HP. rewrite (mcount_ext P (fun _ _ => false) m) by done.
  unfold mcount. induction (map_to_list m); [done|]. auto.
Qed.

Lemma mcount_pos P m k v : m !! k = Some v -> P k v = true -> 0 < mcount P m.
Proof. intros Hk HP. rewrite (mcount_delete P m k v Hk), HP. simpl. lia. Qed.

(** If [P] implies [Q] and both count the same, they agree on every binding. *)
Lemma mcount_eq_all P Q m k v :
  (forall k v, m !! k = Some v -> P k v = true -> Q k v = true) ->
  mcount P m = mcount Q m ->
  m !! k = Some v -> Q k v = true -> P k v = true.
Proof.
  intros HPQ Heq Hk HQ. destruct (P k v) eqn:HP; [done|].
  rewrite (mcount_delete P m k v Hk), (mcount_delete Q m k v Hk), HP, HQ in Heq.
  simpl in Heq. assert (mcount P (delete k m) <= mcount Q (delete k m)); [|lia].
  apply mcount_mono. intros k' v' [_ Hk']%lookup_delete_Some. eauto.
Qed.
End mcount.

(** ** Inserting a list of bindings

    [for (k, v) in l { m.insert(k, v); }], the shape of the loops that add rows. *)

Section insert_all.
Context `{Countable K} {V : Type}.
Implicit Types (m : gmap K V) (l : list (K * V)).

Definition insert_all (l : list (K * V)) (m : gmap K V) : gmap K V :=
  fold_left (fun m kv => <[kv.1 := kv.2]> m) l m.

Lemma insert_all_app l1 l2 m : insert_all (l1 ++ l2) m = insert_all l2 (insert_all l1 m).
Proof. apply fold_left_app. Qed.

Lemma insert_all_not_in l m k : k ∉ l.*1 -> insert_all l m !! k = m !! k.
Proof.
  revert m. induction l as [|[k' v] l IH]; intros m Hk; [done|].
  apply not_elem_of_cons in Hk as [Hne Hk]. simpl in Hne.
  change (insert_all l (<[k':=v]> m) !! k = m !! k). rewrite IH by done.
  by rewrite lookup_insert_ne.
Qed.

Lemma insert_all_in l m k v : NoDup l.*1 -> (k, v) ∈ l -> insert_all l m !! k = Some v.
Proof.
  revert m. induction l as [|[k' v'] l IH]; intros m Hnd Hin; [by apply elem_of_nil in Hin|].
  apply NoDup_cons in Hnd as [Hk' Hnd].
  change (insert_all l (<[k':=v']> m) !! k = Some v).
  apply elem_of_cons in Hin as [[= <- <-]|Hin]; [|by apply IH].
  rewrite insert_all_not_in by done. apply lookup_insert_eq.
Qed.

Lemma insert_all_Some l m k v :
  NoDup l.*1 ->
  insert_all l m !! k = Some v <-> ((k, v) ∈ l) \/ ((k ∉ l.*1) /\ m !! k = Some v).
Proof.
  intros Hnd. destruct (decide (k ∈ l.*1)) as [Hk|Hk].
  - apply list_elem_of_fmap in Hk as Hk'. destruct Hk' as ([k' v'] & -> & Hin). simpl in *.
    rewrite (insert_all_in l m k' v') by done. split.
    + intros [= <-]. by left.
    + intros [Hin'|[]]; [|done].
      pose proof (insert_all_in l m _ _ Hnd Hin') as E1.
      pose proof (insert_all_in l m _ _ Hnd Hin) as E2. congruence.
  - rewrite insert_all_not_in by done. split; [by right|].
    intros [Hin|[_ ?]]; [|done]. destruct Hk. apply list_elem_of_fmap. by exists (k, v).
Qed.

Lemma mcount_insert_all P l m :
  NoDup l.*1 -> (forall k, k ∈ l.*1 -> m !! k = None) ->
  mcount P (insert_all l m) = length (List.filter (fun kv => P kv.1 kv.2) l) + mcount P m.
Proof.
  revert m. induction l as [|[k v] l IH]; intros m Hnd Hnew; [done|].
  apply NoDup_cons in Hnd as [Hk Hnd].
  change (insert_all ((k, v) :: l) m) with (insert_all l (<[k:=v]> m)).
  rewrite IH; [|done|].
  - rewrite mcount_insert_new by (apply Hnew; by left). simpl.
    destruct (P k v); simpl; lia.
  - intros k' Hk'. rewrite lookup_insert_ne by (intros ->; done). apply Hnew. by right.
Qed.
End insert_all.

(** ** Options *)

Definition option_bool {A} (f : A -> bool) (o : option A) : bool :=
  match o with Some a => f a | None => false end.

(** [a.or(b)] *)
Definition option_or {A} (a b : option A) : option A :=
  match a with Some _ => a | None => b end.

(** ** Ordered sets

    A [BTreeSet<String>] is the increasing list of its elements. *)

Fixpoint btree_insert (x : string) (l : list string) : list string :=
  match l with
  | [] => [x]
  | y :: r =>
      if String.eqb x y then l
      else if str_leb x y then x :: l else y :: btree_insert x r
  end.

Lemma btree_insert_elem x l y : y ∈ btree_insert x l <-> y = x \/ y ∈ l.
Proof.
  induction l as [|z l IH]; simpl; [by rewrite list_elem_of_singleton, elem_of_nil; naive_solver|].
  destruct (String.eqb_spec x z) as [->|]; [rewrite elem_of_cons; naive_solver|].
  destruct (str_leb x z); rewrite !elem_of_cons, ?IH; naive_solver.
Qed.

(** The order of the elements: each below the ones after it. *)
Fixpoint increasing (l : list string) : Prop :=
  match l with
  | [] => True
  | x :: r => (forall y, y ∈ r -> str_leb x y = true /\ x <> y) /\ increasing r
  end.

Lemma btree_insert_increasing x l : increasing l -> increasing (btree_insert x l).
Proof.
  induction l as [|z l IH]; simpl; [split; [|done]; intros y []%elem_of_nil|].
  intros [Hz Hl]. destruct (String.eqb_spec x z) as [->|Hne]; [done|].
  destruct (str_leb x z) eqn:E; simpl; (split; [|by auto]).
  - intros y [->|Hy]%elem_of_cons; [done|]. destruct (Hz y Hy) as [Hzy Hn]. split; [eauto with arco|].
    intros ->. apply Hne. by apply str_leb_antisym.
  - intros y [->|Hy]%btree_insert_elem; [|by apply Hz]. split; [by apply str_leb_false|done].
Qed.

Lemma increasing_NoDup l : increasing l -> NoDup l.
Proof.
  induction l as [|x l IH]; simpl; [constructor|]. intros [Hx Hl]. constructor; [|by auto].
  intros Hin. by destruct (Hx x Hin).
Qed.

Lemma increasing_ext l l' : increasing l -> increasing l' -> (forall x, x ∈ l <-> x ∈ l') -> l = l'.
Proof.
  revert l'. induction l as [|x l IH]; intros [|y l'] Hl Hl' He; simpl in *; [done| | |].
  - exfalso. by eapply elem_of_nil, He, list_elem_of_here.
  - exfalso. by eapply elem_of_nil, He, list_elem_of_here.
  - destruct Hl as [Hx Hl], Hl' as [Hy Hl'].
    assert (x = y) as <-.
    { pose proof (proj1 (He x) (list_elem_of_here _ _)) as [?|H1]%elem_of_cons; [done|].
      pose proof (proj2 (He y) (list_elem_of_here _ _)) as [?|H2]%elem_of_cons; [done|].
      destruct (Hy x H1), (Hx y H2). by apply str_leb_antisym. }
    f_equal. apply IH; [done|done|]. intros z. specialize (He z). rewrite !elem_of_cons in He.
    split; intros Hz.
    + destruct (proj1 He (or_intror Hz)) as [->|?]; [|done]. by destruct (Hx x Hz).
    + destruct (proj2 He (or_intror Hz)) as [->|?]; [|done]. by destruct (Hy x Hz).
Qed.

Definition btree_of (l : list string) : list string := fold_left (fun s x => btree_insert x s) l [].

Lemma btree_of_gen l s :
  increasing s ->
  increasing (fold_left (fun s x => btree_insert x s) l s) /\
  forall y, y ∈ fold_left (fun s x => btree_insert x s) l s <-> y ∈ s \/ y ∈ l.
Proof.
  revert s. induction l as [|x l IH]; intros s Hs; simpl.
  - split; [done|]. intros y. rewrite elem_of_nil. naive_solver.
  - destruct (IH (btree_insert x s) (btree_insert_increasing x s Hs)) as [Hi He]. split; [done|].
    intros y. rewrite He, btree_insert_elem, elem_of_cons. naive_solver.
Qed.

Lemma btree_of_elem l y : y ∈ btree_of l <-> y ∈ l.
Proof. unfold btree_of. rewrite (proj2 (btree_of_gen l [] I)), elem_of_nil. naive_solver. Qed.

Lemma btree_of_increasing l : increasing (btree_of l).
Proof. by apply (btree_of_gen l [] I). Qed.
