(* ===== verification/Events.v ===== *)
(** Orchestration events.

    The payload types of [arco-flow/src/orchestration/events] and of the worker
    contract they carry, the event envelope, and the functions every consumer
    of the ledger relies on: the event type name, the idempotency key and the
    run an event belongs to.  The digests ([Hashes]) and the calendar ([Chrono])
    come from crates outside the repository and are parameters. *)

From S2P Require Import Prelude.
From stdpp Require Import options.

(** The digest functions of the [sha2], [hmac], [hex] and [base32] crates, on
    byte strings. *)
Class Hashes := {
  sha256 : string -> string;
  hmac_sha256 : string -> string -> string;
  hex_encode : string -> string;
  base32_encode : string -> string
}.

(** What the code uses of the [chrono] crate: the conversions between instants
    and Unix time, and the clock. *)
Class Chrono := {
  timestamp_millis : DateTime -> i64;
  from_timestamp : i64 -> option DateTime;
  utc_now : DateTime
}.

(** ** Supporting types *)

Inductive TaskOutcome :=
  | OutSucceeded
  | OutFailed
  | OutSkipped
  | OutCancelled.

Inductive OutputVisibilityState :=
  | VisPending
  | VisVisible
  | VisFailed.

Inductive TaskOutputVisibilityState :=
  | TovPending
  | TovVisible
  | TovFailed.

Inductive EventTimerType :=
  | EvRetry
  | EvHeartbeatCheck
  | EvCron
  | EvSlaCheck.

Inductive TickStatus :=
  | TickTriggered
  | TickSkipped (reason : string)
  | TickFailed (error : string).

Inductive TriggerSource :=
  | SrcPush (message_id : string)
  | SrcPoll (poll_epoch : i64).

Inductive SensorEvalStatus :=
  | EvalTriggered
  | EvalNoNewData
  | EvalError (message : string)
  | EvalSkippedStaleCursor.

Inductive SensorStatus :=
  | SensorActive
  | SensorPaused
  | SensorError.

Inductive SourceRef :=
  | RefSchedule (schedule_id tick_id : string)
  | RefSensor (sensor_id eval_id : string)
  | RefBackfill (backfill_id chunk_id : string)
  | RefManual (user_id request_id : string).

Inductive BackfillState :=
  | BfPending
  | BfRunning
  | BfPaused
  | BfSucceeded
  | BfFailed
  | BfCancelled.

Inductive ChunkState :=
  | ChunkPending
  | ChunkPlanned
  | ChunkRunning
  | ChunkSucceeded
  | ChunkFailed.

Inductive PartitionSelector :=
  | SelRange (start end_ : string)
  | SelExplicit (partition_keys : list string)
  | SelFilter (filters : gmap string string).

Inductive TriggerInfo :=
  | TrigCron (schedule_id : string)
  | TrigManual (user_id : string)
  | TrigMaterialization (upstream_materialization_id : string)
  | TrigWebhook (webhook_id : string)
  | TrigSensor (sensor_id cursor : string).

Inductive ErrorCategory :=
  | CatUserCode
  | CatDataQuality
  | CatInfrastructure
  | CatConfiguration
  | CatTimeout
  | CatCancelled.

#[export] Instance TaskOutcome_eq_dec : EqDecision TaskOutcome.
Proof. solve_decision. Defined.
#[export] Instance OutputVisibilityState_eq_dec : EqDecision OutputVisibilityState.
Proof. solve_decision. Defined.
#[export] Instance BackfillState_eq_dec : EqDecision BackfillState.
Proof. solve_decision. Defined.
#[export] Instance SensorEvalStatus_eq_dec : EqDecision SensorEvalStatus.
Proof. solve_decision. Defined.

(** [BackfillState::is_terminal] *)
Definition backfill_is_terminal (s : BackfillState) : bool :=
  match s with
  | BfSucceeded | BfFailed | BfCancelled => true
  | _ => false
  end.

(** [BackfillState::is_valid_transition] *)
Definition is_valid_transition (from to : BackfillState) : bool :=
  match from, to with
  | (BfPending | BfPaused), BfRunning => true
  | (BfPending | BfRunning | BfPaused), BfCancelled => true
  | BfRunning, (BfPaused | BfSucceeded | BfFailed) => true
  | _, _ => false
  end.

Record RunRequest := mkRunRequest {
  rr_run_key : string;
  rr_request_fingerprint : string;
  rr_asset_selection : list string;
  rr_partition_selection : option (list string);
  rr_code_version : option string
}.

Record TaskDef := mkTaskDef {
  td_key : string;
  td_depends_on : list string;
  td_asset_key : option string;
  td_partition_key : option string;
  td_max_attempts : u32;
  td_heartbeat_timeout_sec : u32;
  td_requires_visible_output : bool
}.

Record OutputVisibilityUpdate := mkOutputVisibilityUpdate {
  ovu_visibility_state : OutputVisibilityState;
  ovu_published_at : option DateTime;
  ovu_publish_error : option string
}.

(** The worker contract's payloads carried by completion events. *)
Record TaskOutput := mkTaskOutput {
  to_materialization_id : option string;
  to_row_count : option u64;
  to_byte_size : option u64;
  to_output_path : option string;
  to_delta_table : option string;
  to_delta_version : option i64;
  to_delta_partition : option string;
  to_output_visibility_state : option TaskOutputVisibilityState;
  to_published_at : option DateTime;
  to_publish_error : option string
}.

Record TaskError := mkTaskError {
  te_category : ErrorCategory;
  te_message : string;
  te_stack_trace : option string;
  te_retryable : option bool
}.

Record TaskMetrics := mkTaskMetrics {
  tm_cpu_time_ms : option u64;
  tm_peak_memory_bytes : option u64;
  tm_io_read_bytes : option u64;
  tm_io_write_bytes : option u64
}.

(** What [TaskFinished] and [TaskCompletionRecorded] have in common. *)
Record TaskFinishedData := mkTaskFinishedData {
  tf_run_id : string;
  tf_task_key : string;
  tf_attempt : u32;
  tf_attempt_id : string;
  tf_worker_id : string;
  tf_outcome : TaskOutcome;
  tf_materialization_id : option string;
  tf_error_message : option string;
  tf_output : option TaskOutput;
  tf_error : option TaskError;
  tf_metrics : option TaskMetrics;
  tf_cancelled_during_phase : option string;
  tf_partial_progress_json : option string;
  tf_asset_key : option string;
  tf_partition_key : option string;
  tf_code_version : option string
}.

(** ** Payloads and the envelope *)

Inductive OrchestrationEventData :=
  | RunTriggered (run_id plan_id : string) (trigger : TriggerInfo)
      (root_assets : list string) (run_key : option string)
      (labels : gmap string string) (code_version : option string)
  | PlanCreated (run_id plan_id : string) (tasks : list TaskDef)
  | RunCancelRequested (run_id : string) (reason : option string)
      (requested_by : string)
  | TaskStarted (run_id task_key : string) (attempt : u32)
      (attempt_id worker_id : string)
  | TaskHeartbeat (run_id task_key : string) (attempt : u32)
      (attempt_id worker_id : string) (heartbeat_at : option DateTime)
      (progress_pct : option N) (message : option string)
  | TaskFinished (data : TaskFinishedData)
  | TaskCompletionRecorded (data : TaskFinishedData)
      (output_visibility : option OutputVisibilityUpdate)
  | TaskOutputVisibilityChanged (run_id task_key : string) (attempt : u32)
      (attempt_id : string) (visibility_state : OutputVisibilityState)
      (published_at : option DateTime) (publish_error : option string)
  | DispatchRequested (run_id task_key : string) (attempt : u32)
      (attempt_id worker_queue dispatch_id : string)
  | TimerRequested (timer_id : string) (timer_type : EventTimerType)
      (run_id task_key : option string) (attempt : option u32)
      (fire_at : DateTime)
  | DispatchEnqueued (dispatch_id : string) (run_id task_key : option string)
      (attempt : option u32) (cloud_task_id : string)
  | TimerEnqueued (timer_id : string) (run_id task_key : option string)
      (attempt : option u32) (cloud_task_id : string)
  | TimerFired (timer_id : string) (timer_type : EventTimerType)
      (run_id task_key : option string) (attempt : option u32)
  | ScheduleDefinitionUpserted (schedule_id cron_expression timezone : string)
      (catchup_window_minutes : u32) (asset_selection : list string)
      (code_version : option string) (max_catchup_ticks : u32) (enabled : bool)
  | ScheduleTicked (schedule_id : string) (scheduled_for : DateTime)
      (tick_id definition_version : string) (asset_selection : list string)
      (partition_selection : option (list string)) (status : TickStatus)
      (run_key request_fingerprint : option string)
  | SensorEvaluated (sensor_id eval_id : string)
      (cursor_before cursor_after : option string)
      (expected_state_version : option u32) (trigger_source : TriggerSource)
      (run_requests : list RunRequest) (status : SensorEvalStatus)
  | RunRequested (run_key request_fingerprint : string)
      (asset_selection : list string) (partition_selection : option (list string))
      (trigger_source_ref : SourceRef) (labels : gmap string string)
      (code_version : option string)
  | BackfillCreated (backfill_id client_request_id : string)
      (asset_selection : list string) (code_version : option string)
      (partition_selector : PartitionSelector)
      (total_partitions chunk_size max_concurrent_runs : u32)
      (parent_backfill_id : option string)
  | BackfillChunkPlanned (backfill_id chunk_id : string) (chunk_index : u32)
      (partition_keys : list string) (run_key request_fingerprint : string)
  | BackfillStateChanged (backfill_id : string) (from_state to_state : BackfillState)
      (state_version : u32) (changed_by : option string)
  | UnknownEvent.

Record OrchestrationEvent := mkOrchestrationEvent {
  ev_event_id : string;
  ev_event_type : string;
  ev_event_version : u32;
  ev_timestamp : DateTime;
  ev_source : string;
  ev_tenant_id : string;
  ev_workspace_id : string;
  ev_idempotency_key : string;
  ev_correlation_id : option string;
  ev_causation_id : option string;
  ev_data : OrchestrationEventData
}.

(** [OrchestrationEventData::event_type] *)
Definition event_type (d : OrchestrationEventData) : string :=
  match d with
  | RunTriggered _ _ _ _ _ _ _ => "RunTriggered"
  | PlanCreated _ _ _ => "PlanCreated"
  | RunCancelRequested _ _ _ => "RunCancelRequested"
  | TaskStarted _ _ _ _ _ => "TaskStarted"
  | TaskHeartbeat _ _ _ _ _ _ _ _ => "TaskHeartbeat"
  | TaskFinished _ => "TaskFinished"
  | TaskCompletionRecorded _ _ => "TaskCompletionRecorded"
  | TaskOutputVisibilityChanged _ _ _ _ _ _ _ => "TaskOutputVisibilityChanged"
  | DispatchRequested _ _ _ _ _ _ => "DispatchRequested"
  | TimerRequested _ _ _ _ _ _ => "TimerRequested"
  | DispatchEnqueued _ _ _ _ _ => "DispatchEnqueued"
  | TimerEnqueued _ _ _ _ _ => "TimerEnqueued"
  | TimerFired _ _ _ _ _ => "TimerFired"
  | ScheduleDefinitionUpserted _ _ _ _ _ _ _ _ => "ScheduleDefinitionUpserted"
  | ScheduleTicked _ _ _ _ _ _ _ _ _ => "ScheduleTicked"
  | SensorEvaluated _ _ _ _ _ _ _ _ => "SensorEvaluated"
  | RunRequested _ _ _ _ _ _ _ => "RunRequested"
  | BackfillCreated _ _ _ _ _ _ _ _ _ => "BackfillCreated"
  | BackfillChunkPlanned _ _ _ _ _ _ => "BackfillChunkPlanned"
  | BackfillStateChanged _ _ _ _ _ => "BackfillStateChanged"
  | UnknownEvent => "Unknown"
  end.

(** [OutputVisibilityState::as_idempotency_segment] *)
Definition as_idempotency_segment (v : OutputVisibilityState) : string :=
  match v with
  | VisPending => "pending"
  | VisVisible => "visible"
  | VisFailed => "failed"
  end.

(** [asset_selection.join(",")] *)
Fixpoint join (sep : string) (l : list string) : string :=
  match l with
  | [] => ""
  | [x] => x
  | x :: r => x +:+ sep +:+ join sep r
  end.

(** [Vec<String>::sort], by insertion. *)
Fixpoint insert_sorted (x : string) (l : list string) : list string :=
  match l with
  | [] => [x]
  | y :: r => if str_leb x y then x :: y :: r else y :: insert_sorted x r
  end.

Fixpoint sort_strings (l : list string) : list string :=
  match l with
  | [] => []
  | x :: r => insert_sorted x (sort_strings r)
  end.

Definition backfill_state_changed_idempotency_key (backfill_id : string)
    (state_version : u32) (to_state : BackfillState) : string :=
  let to_state :=
    match to_state with
    | BfPending => "PENDING"
    | BfRunning => "RUNNING"
    | BfPaused => "PAUSED"
    | BfSucceeded => "SUCCEEDED"
    | BfFailed => "FAILED"
    | BfCancelled => "CANCELLED"
    end in
  "backfill_state:" +:+ backfill_id +:+ ":" +:+ pretty state_version +:+ ":" +:+ to_state.

Section Keys.
Context `{Hashes} `{Chrono}.

Definition task_heartbeat_idempotency_key (run_id task_key : string)
    (attempt : u32) (attempt_id : string) (heartbeat_at : option DateTime) : string :=
  let base := "heartbeat:" +:+ run_id +:+ ":" +:+ task_key +:+ ":" +:+
              pretty attempt +:+ ":" +:+ attempt_id in
  match heartbeat_at with
  | None => base
  | Some ts => base +:+ ":" +:+ pretty (timestamp_millis ts)
  end.

(** [sha256_hex] *)
Definition sha256_hex (input : string) : string := hex_encode (sha256 input).

Definition schedule_definition_idempotency_key (schedule_id cron_expression
    timezone : string) (catchup_window_minutes : u32)
    (asset_selection : list string) (max_catchup_ticks : u32)
    (enabled : bool) : string :=
  let asset_selection := sort_strings asset_selection in
  let input :=
    cron_expression +:+ "|" +:+ timezone +:+ "|" +:+
    pretty catchup_window_minutes +:+ "|" +:+ pretty max_catchup_ticks +:+ "|" +:+
    (if enabled then "true" else "false") +:+ "|" +:+ join "," asset_selection in
  let fp := sha256_hex input in
  "sched_def:" +:+ schedule_id +:+ ":" +:+ fp.

Definition sensor_evaluated_idempotency_key (sensor_id : string)
    (trigger_source : TriggerSource) (cursor_before : option string) : string :=
  match trigger_source with
  | SrcPush message_id => "sensor_eval:" +:+ sensor_id +:+ ":msg:" +:+ message_id
  | SrcPoll poll_epoch =>
      let cursor_hash :=
        match cursor_before with None => "none" | Some c => sha256_hex c end in
      "sensor_eval:" +:+ sensor_id +:+ ":poll:" +:+ pretty poll_epoch +:+ ":" +:+
      cursor_hash
  end.

Definition run_requested_idempotency_key (run_key request_fingerprint : string) : string :=
  "runreq:" +:+ run_key +:+ ":" +:+ sha256_hex request_fingerprint.

(** [OrchestrationEventData::idempotency_key] *)
Definition idempotency_key (d : OrchestrationEventData) : string :=
  match d with
  | RunTriggered run_id _ _ _ run_key _ _ =>
      match run_key with
      | None => "run:" +:+ run_id
      | Some key => "run:" +:+ key
      end
  | PlanCreated run_id _ _ => "plan:" +:+ run_id
  | RunCancelRequested run_id _ _ => "cancel_req:" +:+ run_id
  | TaskStarted run_id task_key attempt _ _ =>
      "started:" +:+ run_id +:+ ":" +:+ task_key +:+ ":" +:+ pretty attempt
  | TaskHeartbeat run_id task_key attempt attempt_id _ heartbeat_at _ _ =>
      task_heartbeat_idempotency_key run_id task_key attempt attempt_id heartbeat_at
  | TaskFinished d | TaskCompletionRecorded d _ =>
      "finished:" +:+ tf_run_id d +:+ ":" +:+ tf_task_key d +:+ ":" +:+
      pretty (tf_attempt d)
  | TaskOutputVisibilityChanged run_id task_key attempt _ visibility_state _ _ =>
      "output_visibility:" +:+ run_id +:+ ":" +:+ task_key +:+ ":" +:+
      pretty attempt +:+ ":" +:+ as_idempotency_segment visibility_state
  | DispatchRequested _ _ _ _ _ dispatch_id => "dispatch_req:" +:+ dispatch_id
  | TimerRequested timer_id _ _ _ _ _ => "timer_req:" +:+ timer_id
  | DispatchEnqueued dispatch_id _ _ _ _ => "dispatch_ack:" +:+ dispatch_id
  | TimerEnqueued timer_id _ _ _ _ => "timer_ack:" +:+ timer_id
  | TimerFired timer_id _ _ _ _ => "timer_fired:" +:+ timer_id
  | ScheduleDefinitionUpserted schedule_id cron_expression timezone
      catchup_window_minutes asset_selection _ max_catchup_ticks enabled =>
      schedule_definition_idempotency_key schedule_id cron_expression timezone
        catchup_window_minutes asset_selection max_catchup_ticks enabled
  | ScheduleTicked _ _ tick_id _ _ _ _ _ _ => "sched_tick:" +:+ tick_id
  | SensorEvaluated sensor_id _ cursor_before _ _ trigger_source _ _ =>
      sensor_evaluated_idempotency_key sensor_id trigger_source cursor_before
  | RunRequested run_key request_fingerprint _ _ _ _ _ =>
      run_requested_idempotency_key run_key request_fingerprint
  | BackfillCreated _ client_request_id _ _ _ _ _ _ _ =>
      "backfill_create:" +:+ client_request_id
  | BackfillChunkPlanned backfill_id _ chunk_index _ _ _ =>
      "backfill_chunk:" +:+ backfill_id +:+ ":" +:+ pretty chunk_index
  | BackfillStateChanged backfill_id _ to_state state_version _ =>
      backfill_state_changed_idempotency_key backfill_id state_version to_state
  | UnknownEvent => "unknown"
  end.
End Keys.

(** [OrchestrationEventData::run_id] *)
Definition data_run_id (d : OrchestrationEventData) : option string :=
  match d with
  | RunTriggered run_id _ _ _ _ _ _
  | PlanCreated run_id _ _
  | RunCancelRequested run_id _ _
  | TaskStarted run_id _ _ _ _
  | TaskHeartbeat run_id _ _ _ _ _ _ _
  | TaskOutputVisibilityChanged run_id _ _ _ _ _ _
  | DispatchRequested run_id _ _ _ _ _ => Some run_id
  | TaskFinished d | TaskCompletionRecorded d _ => Some (tf_run_id d)
  | TimerRequested _ _ run_id _ _ _
  | DispatchEnqueued _ run_id _ _ _
  | TimerEnqueued _ run_id _ _ _
  | TimerFired _ _ run_id _ _ => run_id
  | ScheduleDefinitionUpserted _ _ _ _ _ _ _ _
  | ScheduleTicked _ _ _ _ _ _ _ _ _
  | SensorEvaluated _ _ _ _ _ _ _ _
  | RunRequested _ _ _ _ _ _ _
  | BackfillCreated _ _ _ _ _ _ _ _ _
  | BackfillChunkPlanned _ _ _ _ _ _
  | BackfillStateChanged _ _ _ _ _
  | UnknownEvent => None
  end.

(** [OrchestrationEvent::new_with_timestamp]; [event_id] is the ULID that
    [next_event_id] draws. *)
Definition new_with_timestamp `{Hashes} `{Chrono} (event_id tenant workspace : string)
    (data : OrchestrationEventData) (timestamp : DateTime) : OrchestrationEvent :=
  mkOrchestrationEvent event_id (event_type data) 1 timestamp
    ("arco-flow/" +:+ tenant +:+ "/" +:+ workspace) tenant workspace
    (idempotency_key data) (data_run_id data) None data.

(** [OrchestrationEvent::new_with_timestamp_and_idempotency_key] *)
Definition new_with_timestamp_and_idempotency_key (event_id tenant workspace : string)
    (data : OrchestrationEventData) (key : string) (timestamp : DateTime) :
    OrchestrationEvent :=
  mkOrchestrationEvent event_id (event_type data) 1 timestamp
    ("arco-flow/" +:+ tenant +:+ "/" +:+ workspace) tenant workspace
    key (data_run_id data) None data.

(** [OrchestrationEvent::with_causation_id] *)
Definition with_causation_id (e : OrchestrationEvent) (causation_id : string) :
    OrchestrationEvent :=
  mkOrchestrationEvent (ev_event_id e) (ev_event_type e) (ev_event_version e)
    (ev_timestamp e) (ev_source e) (ev_tenant_id e) (ev_workspace_id e)
    (ev_idempotency_key e) (ev_correlation_id e) (Some causation_id) (ev_data e).
