(* ===== verification/FoldTypes.v ===== *)
(** The state of the orchestration fold.

    The row types and enumerations of
    [arco-flow/src/orchestration/compactor/fold.rs], the fold state itself
    ([FoldState], one finite map per [HashMap]), and the identifiers of
    [orchestration/ids.rs].  Field names are the source's with a prefix per row
    type ([tk_] for task rows, [rn_] for runs, [fs_] for the state, ...). *)

From S2P Require Import Prelude Events.
From stdpp Require Import options.

(** ** Task and run states *)

Inductive TaskState :=
  | TsPlanned
  | TsBlocked
  | TsReady
  | TsDispatched
  | TsRunning
  | TsRetryWait
  | TsSkipped
  | TsCancelled
  | TsFailed
  | TsSucceeded.

#[export] Instance TaskState_eq_dec : EqDecision TaskState.
Proof. solve_decision. Defined.

(** [TaskState::rank] *)
Definition rank (s : TaskState) : N :=
  match s with
  | TsPlanned => 0
  | TsBlocked => 1
  | TsReady => 2
  | TsDispatched => 3
  | TsRunning => 4
  | TsRetryWait => 5
  | TsSkipped => 10
  | TsCancelled => 11
  | TsFailed => 12
  | TsSucceeded => 13
  end.

(** [TaskState::is_terminal] *)
Definition task_is_terminal (s : TaskState) : bool :=
  match s with
  | TsSucceeded | TsFailed | TsSkipped | TsCancelled => true
  | _ => false
  end.

Inductive RunState :=
  | RsTriggered
  | RsRunning
  | RsSucceeded
  | RsFailed
  | RsCancelled.

#[export] Instance RunState_eq_dec : EqDecision RunState.
Proof. solve_decision. Defined.

(** [RunState::is_terminal] *)
Definition run_is_terminal (s : RunState) : bool :=
  match s with
  | RsSucceeded | RsFailed | RsCancelled => true
  | _ => false
  end.

Inductive DepResolution :=
  | DepSuccess
  | DepFailed
  | DepSkipped
  | DepCancelled.

Inductive DispatchStatus :=
  | DispPending
  | DispCreated.

Inductive TimerType :=
  | TtRetry
  | TtHeartbeatCheck
  | TtCron
  | TtSlaCheck.

#[export] Instance TimerType_eq_dec : EqDecision TimerType.
Proof. solve_decision. Defined.

Inductive TimerState :=
  | TimScheduled
  | TimFired
  | TimCancelled.

Definition map_timer_type (t : EventTimerType) : TimerType :=
  match t with
  | EvRetry => TtRetry
  | EvHeartbeatCheck => TtHeartbeatCheck
  | EvCron => TtCron
  | EvSlaCheck => TtSlaCheck
  end.

Inductive PartitionMaterializationStatus :=
  | PmNeverMaterialized
  | PmMaterialized
  | PmStale
  | PmMaterializedButLastAttemptFailed.

(** [PartitionMaterializationStatus::is_materialized] *)
Definition is_materialized (s : PartitionMaterializationStatus) : bool :=
  match s with PmNeverMaterialized => false | _ => true end.

(** ** Rows *)

Record ExecutionMetadata := mkExecutionMetadata {
  em_materialization_id : option string;
  em_delta_table : option string;
  em_delta_version : option i64;
  em_delta_partition : option string
}.
#[export] Instance ExecutionMetadata_eta : Eta ExecutionMetadata := fun r =>
  mkExecutionMetadata (em_materialization_id r) (em_delta_table r) (em_delta_version
    r) (em_delta_partition r).

Record DispatchOutboxRow := mkDispatchOutboxRow {
  ob_run_id : string;
  ob_task_key : string;
  ob_attempt : u32;
  ob_dispatch_id : string;
  ob_cloud_task_id : option string;
  ob_status : DispatchStatus;
  ob_attempt_id : string;
  ob_worker_queue : string;
  ob_created_at : DateTime;
  ob_row_version : string
}.
#[export] Instance DispatchOutboxRow_eta : Eta DispatchOutboxRow := fun r =>
  mkDispatchOutboxRow (ob_run_id r) (ob_task_key r) (ob_attempt r) (ob_dispatch_id
    r) (ob_cloud_task_id r) (ob_status r) (ob_attempt_id r) (ob_worker_queue r)
    (ob_created_at r) (ob_row_version r).

Record TimerRow := mkTimerRow {
  ti_timer_id : string;
  ti_cloud_task_id : option string;
  ti_timer_type : TimerType;
  ti_run_id : option string;
  ti_task_key : option string;
  ti_attempt : option u32;
  ti_fire_at : DateTime;
  ti_state : TimerState;
  ti_payload : option string;
  ti_row_version : string
}.
#[export] Instance TimerRow_eta : Eta TimerRow := fun r =>
  mkTimerRow (ti_timer_id r) (ti_cloud_task_id r) (ti_timer_type r) (ti_run_id r)
    (ti_task_key r) (ti_attempt r) (ti_fire_at r) (ti_state r) (ti_payload r)
    (ti_row_version r).

Record ParsedTimerId := mkParsedTimerId {
  pt_timer_type : TimerType;
  pt_fire_epoch : i64;
  pt_run_id : option string;
  pt_task_key : option string;
  pt_attempt : option u32
}.
#[export] Instance ParsedTimerId_eta : Eta ParsedTimerId := fun r =>
  mkParsedTimerId (pt_timer_type r) (pt_fire_epoch r) (pt_run_id r) (pt_task_key r)
    (pt_attempt r).

Record TaskRow := mkTaskRow {
  tk_run_id : string;
  tk_task_key : string;
  tk_state : TaskState;
  tk_attempt : u32;
  tk_attempt_id : option string;
  tk_started_at : option DateTime;
  tk_completed_at : option DateTime;
  tk_error_message : option string;
  tk_deps_total : u32;
  tk_deps_satisfied_count : u32;
  tk_max_attempts : u32;
  tk_heartbeat_timeout_sec : u32;
  tk_last_heartbeat_at : option DateTime;
  tk_ready_at : option DateTime;
  tk_asset_key : option string;
  tk_partition_key : option string;
  tk_requires_visible_output : bool;
  tk_materialization_id : option string;
  tk_output_visibility_state : option OutputVisibilityState;
  tk_published_at : option DateTime;
  tk_publish_error : option string;
  tk_retry_not_before : option DateTime;
  tk_delta_table : option string;
  tk_delta_version : option i64;
  tk_delta_partition : option string;
  tk_execution_lineage_ref : option string;
  tk_row_version : string
}.
#[export] Instance TaskRow_eta : Eta TaskRow := fun r =>
  mkTaskRow (tk_run_id r) (tk_task_key r) (tk_state r) (tk_attempt r) (tk_attempt_id
    r) (tk_started_at r) (tk_completed_at r) (tk_error_message r) (tk_deps_total r)
    (tk_deps_satisfied_count r) (tk_max_attempts r) (tk_heartbeat_timeout_sec r)
    (tk_last_heartbeat_at r) (tk_ready_at r) (tk_asset_key r) (tk_partition_key r)
    (tk_requires_visible_output r) (tk_materialization_id r)
    (tk_output_visibility_state r) (tk_published_at r) (tk_publish_error r)
    (tk_retry_not_before r) (tk_delta_table r) (tk_delta_version r)
    (tk_delta_partition r) (tk_execution_lineage_ref r) (tk_row_version r).

#[export] Instance TaskRow_eq_dec : EqDecision TaskRow.
Proof. solve_decision. Defined.

Record DepSatisfactionRow := mkDepSatisfactionRow {
  dp_run_id : string;
  dp_upstream_task_key : string;
  dp_downstream_task_key : string;
  dp_satisfied : bool;
  dp_resolution : option DepResolution;
  dp_satisfied_at : option DateTime;
  dp_satisfying_attempt : option u32;
  dp_row_version : string
}.
#[export] Instance DepSatisfactionRow_eta : Eta DepSatisfactionRow := fun r =>
  mkDepSatisfactionRow (dp_run_id r) (dp_upstream_task_key r)
    (dp_downstream_task_key r) (dp_satisfied r) (dp_resolution r) (dp_satisfied_at
    r) (dp_satisfying_attempt r) (dp_row_version r).

Record RunRow := mkRunRow {
  rn_run_id : string;
  rn_plan_id : string;
  rn_state : RunState;
  rn_run_key : option string;
  rn_labels : gmap string string;
  rn_code_version : option string;
  rn_cancel_requested : bool;
  rn_tasks_total : u32;
  rn_tasks_completed : u32;
  rn_tasks_succeeded : u32;
  rn_tasks_failed : u32;
  rn_tasks_skipped : u32;
  rn_tasks_cancelled : u32;
  rn_triggered_at : DateTime;
  rn_completed_at : option DateTime;
  rn_row_version : string
}.
#[export] Instance RunRow_eta : Eta RunRow := fun r =>
  mkRunRow (rn_run_id r) (rn_plan_id r) (rn_state r) (rn_run_key r) (rn_labels r)
    (rn_code_version r) (rn_cancel_requested r) (rn_tasks_total r)
    (rn_tasks_completed r) (rn_tasks_succeeded r) (rn_tasks_failed r)
    (rn_tasks_skipped r) (rn_tasks_cancelled r) (rn_triggered_at r) (rn_completed_at
    r) (rn_row_version r).

Record ScheduleDefinitionRow := mkScheduleDefinitionRow {
  sd_tenant_id : string;
  sd_workspace_id : string;
  sd_schedule_id : string;
  sd_cron_expression : string;
  sd_timezone : string;
  sd_catchup_window_minutes : u32;
  sd_asset_selection : list string;
  sd_code_version : option string;
  sd_max_catchup_ticks : u32;
  sd_enabled : bool;
  sd_created_at : DateTime;
  sd_row_version : string
}.
#[export] Instance ScheduleDefinitionRow_eta : Eta ScheduleDefinitionRow := fun r =>
  mkScheduleDefinitionRow (sd_tenant_id r) (sd_workspace_id r) (sd_schedule_id r)
    (sd_cron_expression r) (sd_timezone r) (sd_catchup_window_minutes r)
    (sd_asset_selection r) (sd_code_version r) (sd_max_catchup_ticks r) (sd_enabled
    r) (sd_created_at r) (sd_row_version r).

Record ScheduleStateRow := mkScheduleStateRow {
  ss_tenant_id : string;
  ss_workspace_id : string;
  ss_schedule_id : string;
  ss_last_scheduled_for : option DateTime;
  ss_last_tick_id : option string;
  ss_last_run_key : option string;
  ss_row_version : string
}.
#[export] Instance ScheduleStateRow_eta : Eta ScheduleStateRow := fun r =>
  mkScheduleStateRow (ss_tenant_id r) (ss_workspace_id r) (ss_schedule_id r)
    (ss_last_scheduled_for r) (ss_last_tick_id r) (ss_last_run_key r)
    (ss_row_version r).

Record ScheduleTickRow := mkScheduleTickRow {
  st_tenant_id : string;
  st_workspace_id : string;
  st_tick_id : string;
  st_schedule_id : string;
  st_scheduled_for : DateTime;
  st_definition_version : string;
  st_asset_selection : list string;
  st_partition_selection : option (list string);
  st_status : TickStatus;
  st_run_key : option string;
  st_run_id : option string;
  st_request_fingerprint : option string;
  st_row_version : string
}.
#[export] Instance ScheduleTickRow_eta : Eta ScheduleTickRow := fun r =>
  mkScheduleTickRow (st_tenant_id r) (st_workspace_id r) (st_tick_id r)
    (st_schedule_id r) (st_scheduled_for r) (st_definition_version r)
    (st_asset_selection r) (st_partition_selection r) (st_status r) (st_run_key r)
    (st_run_id r) (st_request_fingerprint r) (st_row_version r).

Record SensorStateRow := mkSensorStateRow {
  se_tenant_id : string;
  se_workspace_id : string;
  se_sensor_id : string;
  se_cursor : option string;
  se_last_evaluation_at : option DateTime;
  se_last_eval_id : option string;
  se_status : SensorStatus;
  se_state_version : u32;
  se_row_version : string
}.
#[export] Instance SensorStateRow_eta : Eta SensorStateRow := fun r =>
  mkSensorStateRow (se_tenant_id r) (se_workspace_id r) (se_sensor_id r) (se_cursor
    r) (se_last_evaluation_at r) (se_last_eval_id r) (se_status r) (se_state_version
    r) (se_row_version r).

Record SensorEvalRow := mkSensorEvalRow {
  sv_tenant_id : string;
  sv_workspace_id : string;
  sv_eval_id : string;
  sv_sensor_id : string;
  sv_cursor_before : option string;
  sv_cursor_after : option string;
  sv_expected_state_version : option u32;
  sv_trigger_source : TriggerSource;
  sv_run_requests : list RunRequest;
  sv_status : SensorEvalStatus;
  sv_evaluated_at : DateTime;
  sv_row_version : string
}.
#[export] Instance SensorEvalRow_eta : Eta SensorEvalRow := fun r =>
  mkSensorEvalRow (sv_tenant_id r) (sv_workspace_id r) (sv_eval_id r) (sv_sensor_id
    r) (sv_cursor_before r) (sv_cursor_after r) (sv_expected_state_version r)
    (sv_trigger_source r) (sv_run_requests r) (sv_status r) (sv_evaluated_at r)
    (sv_row_version r).

Record BackfillRow := mkBackfillRow {
  bf_tenant_id : string;
  bf_workspace_id : string;
  bf_backfill_id : string;
  bf_asset_selection : list string;
  bf_code_version : option string;
  bf_partition_selector : PartitionSelector;
  bf_chunk_size : u32;
  bf_max_concurrent_runs : u32;
  bf_state : BackfillState;
  bf_state_version : u32;
  bf_total_partitions : u32;
  bf_planned_chunks : u32;
  bf_completed_chunks : u32;
  bf_failed_chunks : u32;
  bf_parent_backfill_id : option string;
  bf_created_at : DateTime;
  bf_row_version : string
}.
#[export] Instance BackfillRow_eta : Eta BackfillRow := fun r =>
  mkBackfillRow (bf_tenant_id r) (bf_workspace_id r) (bf_backfill_id r)
    (bf_asset_selection r) (bf_code_version r) (bf_partition_selector r)
    (bf_chunk_size r) (bf_max_concurrent_runs r) (bf_state r) (bf_state_version r)
    (bf_total_partitions r) (bf_planned_chunks r) (bf_completed_chunks r)
    (bf_failed_chunks r) (bf_parent_backfill_id r) (bf_created_at r) (bf_row_version
    r).

Record BackfillChunkRow := mkBackfillChunkRow {
  bc_tenant_id : string;
  bc_workspace_id : string;
  bc_chunk_id : string;
  bc_backfill_id : string;
  bc_chunk_index : u32;
  bc_partition_keys : list string;
  bc_run_key : string;
  bc_run_id : option string;
  bc_state : ChunkState;
  bc_row_version : string
}.
#[export] Instance BackfillChunkRow_eta : Eta BackfillChunkRow := fun r =>
  mkBackfillChunkRow (bc_tenant_id r) (bc_workspace_id r) (bc_chunk_id r)
    (bc_backfill_id r) (bc_chunk_index r) (bc_partition_keys r) (bc_run_key r)
    (bc_run_id r) (bc_state r) (bc_row_version r).

Record PartitionStatusRow := mkPartitionStatusRow {
  ps_tenant_id : string;
  ps_workspace_id : string;
  ps_asset_key : string;
  ps_partition_key : string;
  ps_last_materialization_run_id : option string;
  ps_last_materialization_at : option DateTime;
  ps_last_materialization_code_version : option string;
  ps_last_attempt_run_id : option string;
  ps_last_attempt_at : option DateTime;
  ps_last_attempt_outcome : option TaskOutcome;
  ps_stale_since : option DateTime;
  ps_stale_reason_code : option string;
  ps_partition_values : gmap string string;
  ps_delta_table : option string;
  ps_delta_version : option i64;
  ps_delta_partition : option string;
  ps_execution_lineage_ref : option string;
  ps_row_version : string
}.
#[export] Instance PartitionStatusRow_eta : Eta PartitionStatusRow := fun r =>
  mkPartitionStatusRow (ps_tenant_id r) (ps_workspace_id r) (ps_asset_key r)
    (ps_partition_key r) (ps_last_materialization_run_id r)
    (ps_last_materialization_at r) (ps_last_materialization_code_version r)
    (ps_last_attempt_run_id r) (ps_last_attempt_at r) (ps_last_attempt_outcome r)
    (ps_stale_since r) (ps_stale_reason_code r) (ps_partition_values r)
    (ps_delta_table r) (ps_delta_version r) (ps_delta_partition r)
    (ps_execution_lineage_ref r) (ps_row_version r).

Record RunKeyIndexRow := mkRunKeyIndexRow {
  rk_tenant_id : string;
  rk_workspace_id : string;
  rk_run_key : string;
  rk_run_id : string;
  rk_request_fingerprint : string;
  rk_code_version : option string;
  rk_created_at : DateTime;
  rk_row_version : string
}.
#[export] Instance RunKeyIndexRow_eta : Eta RunKeyIndexRow := fun r =>
  mkRunKeyIndexRow (rk_tenant_id r) (rk_workspace_id r) (rk_run_key r) (rk_run_id r)
    (rk_request_fingerprint r) (rk_code_version r) (rk_created_at r) (rk_row_version
    r).

Record RunKeyConflictRow := mkRunKeyConflictRow {
  rc_tenant_id : string;
  rc_workspace_id : string;
  rc_run_key : string;
  rc_existing_fingerprint : string;
  rc_conflicting_fingerprint : string;
  rc_conflicting_event_id : string;
  rc_detected_at : DateTime
}.
#[export] Instance RunKeyConflictRow_eta : Eta RunKeyConflictRow := fun r =>
  mkRunKeyConflictRow (rc_tenant_id r) (rc_workspace_id r) (rc_run_key r)
    (rc_existing_fingerprint r) (rc_conflicting_fingerprint r)
    (rc_conflicting_event_id r) (rc_detected_at r).

Record CatalogRunIndexRow := mkCatalogRunIndexRow {
  ci_schema_version : u32;
  ci_org_id : string;
  ci_workspace_id : string;
  ci_run_id : string;
  ci_task_key : string;
  ci_plan_id : string;
  ci_run_key : option string;
  ci_kind : option string;
  ci_reference_id : option string;
  ci_source_type : option string;
  ci_run_status : RunState;
  ci_cancel_requested : bool;
  ci_task_status : TaskState;
  ci_asset_key : option string;
  ci_target_namespace : option string;
  ci_target_table : option string;
  ci_partition_key : option string;
  ci_attempt : u32;
  ci_attempt_id : option string;
  ci_requires_visible_output : bool;
  ci_materialization_id : option string;
  ci_output_visibility_state : option OutputVisibilityState;
  ci_published_at : option DateTime;
  ci_publish_error : option string;
  ci_delta_table : option string;
  ci_delta_version : option i64;
  ci_delta_partition : option string;
  ci_execution_lineage_ref : option string;
  ci_started_at : option DateTime;
  ci_last_heartbeat_at : option DateTime;
  ci_triggered_at : DateTime;
  ci_completed_at : option DateTime;
  ci_updated_at : DateTime;
  ci_code_version : option string;
  ci_error_message : option string;
  ci_row_version : string
}.
#[export] Instance CatalogRunIndexRow_eta : Eta CatalogRunIndexRow := fun r =>
  mkCatalogRunIndexRow (ci_schema_version r) (ci_org_id r) (ci_workspace_id r)
    (ci_run_id r) (ci_task_key r) (ci_plan_id r) (ci_run_key r) (ci_kind r)
    (ci_reference_id r) (ci_source_type r) (ci_run_status r) (ci_cancel_requested r)
    (ci_task_status r) (ci_asset_key r) (ci_target_namespace r) (ci_target_table r)
    (ci_partition_key r) (ci_attempt r) (ci_attempt_id r)
    (ci_requires_visible_output r) (ci_materialization_id r)
    (ci_output_visibility_state r) (ci_published_at r) (ci_publish_error r)
    (ci_delta_table r) (ci_delta_version r) (ci_delta_partition r)
    (ci_execution_lineage_ref r) (ci_started_at r) (ci_last_heartbeat_at r)
    (ci_triggered_at r) (ci_completed_at r) (ci_updated_at r) (ci_code_version r)
    (ci_error_message r) (ci_row_version r).

Record IdempotencyKeyRow := mkIdempotencyKeyRow {
  ik_tenant_id : string;
  ik_workspace_id : string;
  ik_idempotency_key : string;
  ik_event_id : string;
  ik_event_type : string;
  ik_recorded_at : DateTime;
  ik_row_version : string
}.
#[export] Instance IdempotencyKeyRow_eta : Eta IdempotencyKeyRow := fun r =>
  mkIdempotencyKeyRow (ik_tenant_id r) (ik_workspace_id r) (ik_idempotency_key r)
    (ik_event_id r) (ik_event_type r) (ik_recorded_at r) (ik_row_version r).

(** ** The fold state *)

Record FoldState := mkFoldState {
  fs_runs : gmap string RunRow;
  fs_tasks : gmap (string * string) TaskRow;
  fs_catalog_run_index : gmap (string * string * string * string) CatalogRunIndexRow;
  fs_dep_satisfaction : gmap (string * string * string) DepSatisfactionRow;
  fs_timers : gmap string TimerRow;
  fs_dispatch_outbox : gmap string DispatchOutboxRow;
  fs_task_dependencies : gmap (string * string) (list string);
  fs_task_dependents : gmap (string * string) (list string);
  fs_schedule_definitions : gmap string ScheduleDefinitionRow;
  fs_schedule_state : gmap string ScheduleStateRow;
  fs_schedule_ticks : gmap string ScheduleTickRow;
  fs_sensor_state : gmap string SensorStateRow;
  fs_sensor_evals : gmap string SensorEvalRow;
  fs_backfills : gmap string BackfillRow;
  fs_backfill_chunks : gmap string BackfillChunkRow;
  fs_partition_status : gmap (string * string) PartitionStatusRow;
  fs_run_key_index : gmap string RunKeyIndexRow;
  fs_run_key_conflicts : gmap string RunKeyConflictRow;
  fs_idempotency_keys : gmap string IdempotencyKeyRow;
  fs_tenant_secret : string
}.
#[export] Instance FoldState_eta : Eta FoldState := fun r =>
  mkFoldState (fs_runs r) (fs_tasks r) (fs_catalog_run_index r) (fs_dep_satisfaction
    r) (fs_timers r) (fs_dispatch_outbox r) (fs_task_dependencies r)
    (fs_task_dependents r) (fs_schedule_definitions r) (fs_schedule_state r)
    (fs_schedule_ticks r) (fs_sensor_state r) (fs_sensor_evals r) (fs_backfills r)
    (fs_backfill_chunks r) (fs_partition_status r) (fs_run_key_index r)
    (fs_run_key_conflicts r) (fs_idempotency_keys r) (fs_tenant_secret r).

(** [FoldState::new] with a tenant secret. *)
Definition fold_state_new (tenant_secret : string) : FoldState :=
  mkFoldState ∅ ∅ ∅ ∅ ∅ ∅ ∅ ∅ ∅ ∅ ∅ ∅ ∅ ∅ ∅ ∅ ∅ ∅ ∅ tenant_secret.

(** ** Identifiers *)

(** [DispatchOutboxRow::dispatch_id], [ids::dispatch_internal_id] *)
Definition dispatch_id (run_id task_key : string) (attempt : u32) : string :=
  "dispatch:" +:+ run_id +:+ ":" +:+ task_key +:+ ":" +:+ pretty attempt.

(** [TimerRow::retry_timer_id] *)
Definition retry_timer_id (run_id task_key : string) (attempt : u32) (fire_epoch : i64) : string :=
  "timer:retry:" +:+ run_id +:+ ":" +:+ task_key +:+ ":" +:+ pretty attempt +:+ ":" +:+
  pretty fire_epoch.

(** [TimerRow::heartbeat_timer_id] *)
Definition heartbeat_timer_id (run_id task_key : string) (attempt : u32) (fire_epoch : i64) : string :=
  "timer:heartbeat:" +:+ run_id +:+ ":" +:+ task_key +:+ ":" +:+ pretty attempt +:+ ":" +:+
  pretty fire_epoch.

(** [TimerRow::cron_timer_id] *)
Definition cron_timer_id (schedule_id : string) (fire_epoch : i64) : string :=
  "timer:cron:" +:+ schedule_id +:+ ":" +:+ pretty fire_epoch.

Definition timer_type_of_segment (seg : string) : option TimerType :=
  if String.eqb seg "retry" then Some TtRetry
  else if String.eqb seg "heartbeat" then Some TtHeartbeatCheck
  else if String.eqb seg "cron" then Some TtCron
  else if String.eqb seg "sla" then Some TtSlaCheck
  else None.

(** [TimerRow::parse_timer_id] *)
Definition parse_timer_id (timer_id : string) : option ParsedTimerId :=
  let parts := split_on ":" timer_id in
  prefix ← head parts;
  if negb (String.eqb prefix "timer") then None
  else
    seg ← parts !! 1;
    timer_type ← timer_type_of_segment seg;
    last_part ← last parts;
    fire_epoch ← parse_i64 last_part;
    match timer_type with
    | TtCron => Some (mkParsedTimerId timer_type fire_epoch None None None)
    | TtRetry | TtHeartbeatCheck | TtSlaCheck =>
        run_id ← parts !! 2;
        task_key ← parts !! 3;
        attempt_part ← parts !! 4;
        attempt ← parse_u32 attempt_part;
        Some (mkParsedTimerId timer_type fire_epoch (Some run_id) (Some task_key)
                (Some attempt))
    end.

(** The bytes of [s] at positions below [n], [None] past the end:
    [s.get(..n)]. *)
Fixpoint str_get_to (n : nat) (s : string) : option string :=
  match n, s with
  | O, _ => Some EmptyString
  | S n', String a s' => String a <$> str_get_to n' s'
  | S _, EmptyString => None
  end.

Definition ascii_lower (c : ascii) : ascii :=
  let n := N_of_ascii c in
  if (65 <=? n)%N && (n <=? 90)%N then ascii_of_N (n + 32) else c.

(** [to_lowercase] on the ASCII output of the base-32 encoder. *)
Fixpoint to_lowercase (s : string) : string :=
  match s with
  | EmptyString => EmptyString
  | String a s' => String (ascii_lower a) (to_lowercase s')
  end.

Section Ids.
Context `{Hashes}.

(** [ids::cloud_task_id] *)
Definition cloud_task_id (prefix internal_id : string) : string :=
  let hash := sha256 internal_id in
  let encoded := base32_encode hash in
  let short := to_lowercase (default encoded (str_get_to 26 encoded)) in
  prefix +:+ "_" +:+ short.

Definition dispatch_cloud_task_id (run_id task_key : string) (attempt : u32) : string :=
  let internal_id := dispatch_id run_id task_key attempt in
  cloud_task_id "d" internal_id.

Definition timer_cloud_task_id (timer_id : string) : string := cloud_task_id "t" timer_id.

(** [ids::run_id_from_run_key] *)
Definition run_id_from_run_key (tenant_id workspace_id run_key tenant_secret : string) : string :=
  let input := tenant_id +:+ ":" +:+ workspace_id +:+ ":" +:+ run_key in
  let hash := hmac_sha256 tenant_secret input in
  let hash_prefix := default hash (str_get_to 16 hash) in
  let encoded := base32_encode hash_prefix in
  let short := to_lowercase (default encoded (str_get_to 26 encoded)) in
  "run_" +:+ short.
End Ids.

(** ** Ledger paths *)

Fixpoint all_bytes_at (f : nat -> ascii -> bool) (idx : nat) (s : string) : bool :=
  match s with
  | EmptyString => true
  | String c s' => f idx c && all_bytes_at f (S idx) s'
  end.

Definition is_ascii_digit (c : ascii) : bool :=
  let n := N_of_ascii c in (48 <=? n)%N && (n <=? 57)%N.

Definition is_iso8601_date_segment (segment : string) : bool :=
  if negb (Nat.eqb (String.length segment) 10) then false
  else all_bytes_at (fun idx byte =>
         match idx with
         | 4 | 7 => bool_decide (byte = "-"%char)
         | _ => is_ascii_digit byte
         end) 0 segment.

Definition event_id_from_ledger_path (path : string) : option string :=
  match split_on "/" path with
  | p0 :: p1 :: rest =>
      if negb (String.eqb p0 "ledger") || negb (String.eqb p1 "orchestration") then None
      else match rest with
           | date_segment :: rest' =>
               if negb (is_iso8601_date_segment date_segment) then None
               else match rest' with
                    | [filename] =>
                        event_id ← strip_suffix ".json" filename;
                        if str_is_empty event_id then None else Some event_id
                    | _ => None
                    end
           | [] => None
           end
  | _ => None
  end.

(** ** Timer identifiers round-trip *)

Lemma split_timer_id (kind run_id task_key : string) (attempt : u32) (fire_epoch : i64) :
  str_contains ":" kind = false ->
  str_contains ":" run_id = false -> str_contains ":" task_key = false ->
  split_on ":" ("timer:" +:+ kind +:+ ":" +:+ run_id +:+ ":" +:+ task_key +:+ ":" +:+
                pretty attempt +:+ ":" +:+ pretty fire_epoch) =
  ["timer"; kind; run_id; task_key; pretty attempt; pretty fire_epoch].
Proof.
  intros Hk Hr Ht.
  change ("timer:" +:+ ?x) with ("timer" +:+ String ":" x).
  rewrite (split_on_app ":" "timer") by done.
  rewrite !(str_app_cons ":"), !str_app_nil.
  rewrite (split_on_app ":" kind), (split_on_app ":" run_id), (split_on_app ":" task_key),
    (split_on_app ":" (pretty attempt)) by (done || by apply pretty_N_no_char).
  by rewrite split_on_no_sep by (by apply pretty_Z_no_char).
Qed.
