(* ===== verification/FoldTasks.v ===== *)
(** Runs, plans, tasks and dependencies.

    The handlers of [compactor/fold.rs] that own the [runs], [tasks],
    [dep_satisfaction] and [partition_status] tables: a handler takes the state
    and returns the new state and whether the event was applied.  A loop over a
    [HashMap] runs over [map_to_list]; the theorems show that its order does not
    matter.  [serde_json::to_string] is a parameter ([SerdeJson]). *)

From S2P Require Import Prelude Events FoldTypes.
From stdpp Require Import options.

(** ** Row access *)

(** [if let Some(run) = self.runs.get_mut(run_id) { .. }] *)
Definition modify_run (run_id : string) (f : RunRow -> RunRow) (s : FoldState) : FoldState :=
  s <| fs_runs := alter f run_id (fs_runs s) |>.

(** [if let Some(task) = self.tasks.get_mut(key) { .. }] *)
Definition modify_task (key : string * string) (f : TaskRow -> TaskRow) (s : FoldState) : FoldState :=
  s <| fs_tasks := alter f key (fs_tasks s) |>.

(** [self.prune_dispatch_outbox_row] *)
Definition prune_dispatch_outbox_row (s : FoldState) (run_id task_key : string) (attempt : u32) :
    FoldState :=
  s <| fs_dispatch_outbox := delete (dispatch_id run_id task_key attempt) (fs_dispatch_outbox s) |>.

(** ** Run lifecycle *)

(** The accumulators of [fold_run_triggered]. *)
Record RunTally := mkRunTally {
  ty_total : u32;
  ty_completed : u32;
  ty_succeeded : u32;
  ty_failed : u32;
  ty_skipped : u32;
  ty_cancelled : u32;
  ty_completed_at : option DateTime
}.
#[export] Instance RunTally_eta : Eta RunTally := fun r =>
  mkRunTally (ty_total r) (ty_completed r) (ty_succeeded r) (ty_failed r)
    (ty_skipped r) (ty_cancelled r) (ty_completed_at r).

Definition tally_zero : RunTally := mkRunTally 0 0 0 0 0 0 None.

Definition latest (current candidate : option DateTime) : option DateTime :=
  match current, candidate with
  | Some current, Some candidate => Some (Z.max current candidate)
  | None, Some candidate => Some candidate
  | current, None => current
  end.

Definition tally_task (acc : RunTally) (task : TaskRow) : RunTally :=
  let acc := acc <| ty_total := u32_saturating_add (ty_total acc) 1 |> in
  if task_is_terminal (tk_state task) then
    let acc := acc <| ty_completed := u32_saturating_add (ty_completed acc) 1 |> in
    let acc :=
      match tk_state task with
      | TsSucceeded => acc <| ty_succeeded := u32_saturating_add (ty_succeeded acc) 1 |>
      | TsFailed => acc <| ty_failed := u32_saturating_add (ty_failed acc) 1 |>
      | TsSkipped => acc <| ty_skipped := u32_saturating_add (ty_skipped acc) 1 |>
      | TsCancelled => acc <| ty_cancelled := u32_saturating_add (ty_cancelled acc) 1 |>
      | _ => acc
      end in
    acc <| ty_completed_at := latest (ty_completed_at acc) (tk_completed_at task) |>
  else acc.

(** [self.tasks.values().filter(|task| task.run_id == run_id)] *)
Definition run_task_rows (s : FoldState) (run_id : string) : list TaskRow :=
  List.filter (fun task => bool_decide (tk_run_id task = run_id))
    (snd <$> map_to_list (fs_tasks s)).

Definition tally_run (s : FoldState) (run_id : string) : RunTally :=
  fold_left tally_task (run_task_rows s run_id) tally_zero.

(** The verdict of a run all of whose tasks are terminal. *)
Definition run_verdict (cancelled failed : u32) : RunState :=
  if (0 <? cancelled)%N then RsCancelled
  else if (0 <? failed)%N then RsFailed
  else RsSucceeded.

Definition fold_run_triggered (s : FoldState) (run_id plan_id : string)
    (run_key : option string) (labels : gmap string string)
    (code_version : option string) (event_id : string) (timestamp : DateTime) :
    FoldState * bool :=
  match fs_runs s !! run_id with
  | Some _ => (s, false)
  | None =>
      let y := tally_run s run_id in
      let state :=
        if (ty_total y =? 0)%N then RsTriggered
        else if (ty_completed y =? ty_total y)%N then
          run_verdict (ty_cancelled y) (ty_failed y)
        else RsRunning in
      let row :=
        mkRunRow run_id plan_id state run_key labels code_version false
          (ty_total y) (ty_completed y) (ty_succeeded y) (ty_failed y)
          (ty_skipped y) (ty_cancelled y) timestamp
          (if run_is_terminal state then ty_completed_at y else None) event_id in
      (s <| fs_runs := <[run_id := row]> (fs_runs s) |>, true)
  end.

(** The tasks a cancellation reaches: neither terminal nor running. *)
Definition tasks_to_cancel (s : FoldState) (run_id : string) : list (string * string) :=
  fst <$> List.filter (fun kt =>
    bool_decide (kt.1.1 = run_id) && negb (task_is_terminal (tk_state kt.2)) &&
    negb (bool_decide (tk_state kt.2 = TsRunning))) (map_to_list (fs_tasks s)).

Definition cancel_task_row (event_id : string) (task : TaskRow) : TaskRow :=
  task <| tk_state := TsCancelled |> <| tk_row_version := event_id |>.

Definition cancel_run_counters (event_id : string) (run : RunRow) : RunRow :=
  run <| rn_tasks_cancelled := u32_add (rn_tasks_cancelled run) 1 |>
      <| rn_tasks_completed := u32_add (rn_tasks_completed run) 1 |>
      <| rn_row_version := event_id |>.

Definition cancel_one (run_id event_id : string) (s : FoldState) (key : string * string) : FoldState :=
  modify_run run_id (cancel_run_counters event_id)
    (modify_task key (cancel_task_row event_id) s).

Definition request_cancel (event_id : string) (run : RunRow) : RunRow :=
  run <| rn_cancel_requested := true |> <| rn_row_version := event_id |>.

Definition cancel_complete (event_id : string) (timestamp : DateTime) (run : RunRow) : RunRow :=
  if (rn_tasks_completed run =? rn_tasks_total run)%N then
    run <| rn_state := RsCancelled |> <| rn_completed_at := Some timestamp |>
        <| rn_row_version := event_id |>
  else run.

Definition fold_run_cancel_requested (s : FoldState) (run_id event_id : string)
    (timestamp : DateTime) : FoldState * bool :=
  let run_is_terminal :=
    option_bool (fun r => run_is_terminal (rn_state r)) (fs_runs s !! run_id) in
  if run_is_terminal then (s, false)
  else
    let changed := bool_decide (is_Some (fs_runs s !! run_id)) in
    let s1 := modify_run run_id (request_cancel event_id) s in
    let keys := tasks_to_cancel s1 run_id in
    let s2 := fold_left (cancel_one run_id event_id) keys s1 in
    let changed := changed || negb (bool_decide (keys = [])) in
    let completes :=
      option_bool (fun r => (rn_tasks_completed r =? rn_tasks_total r)%N) (fs_runs s2 !! run_id) in
    (modify_run run_id (cancel_complete event_id timestamp) s2, changed || completes).

(** ** Plans *)

Definition plan_run_row (n : nat) (event_id : string) (run : RunRow) : RunRow :=
  run <| rn_tasks_total := u32_of_len n |> <| rn_state := RsRunning |>
      <| rn_row_version := event_id |>.

(** [entry(key).or_default().push(x)] *)
Definition push_entry (key : string * string) (x : string)
    (m : gmap (string * string) (list string)) : gmap (string * string) (list string) :=
  <[key := default [] (m !! key) ++ [x]]> m.

Definition add_plan_edges (run_id : string) (s : FoldState) (d : TaskDef) : FoldState :=
  let s := s <| fs_task_dependencies :=
                  <[(run_id, td_key d) := td_depends_on d]> (fs_task_dependencies s) |> in
  s <| fs_task_dependents :=
         fold_left (fun m upstream => push_entry (run_id, upstream) (td_key d) m)
           (td_depends_on d) (fs_task_dependents s) |>.

Definition plan_task_row (run_id event_id : string) (timestamp : DateTime) (d : TaskDef) : TaskRow :=
  let deps_total := u32_of_len (length (td_depends_on d)) in
  let initial_state := if (deps_total =? 0)%N then TsReady else TsBlocked in
  mkTaskRow run_id (td_key d) initial_state 0 None None None None deps_total 0
    (td_max_attempts d) (td_heartbeat_timeout_sec d) None
    (if decide (initial_state = TsReady) then Some timestamp else None)
    (td_asset_key d) (td_partition_key d) (td_requires_visible_output d)
    None None None None None None None None None event_id.

Definition plan_edge_row (run_id upstream downstream event_id : string) : DepSatisfactionRow :=
  mkDepSatisfactionRow run_id upstream downstream false None None None event_id.

Definition add_plan_task (run_id event_id : string) (timestamp : DateTime) (s : FoldState)
    (d : TaskDef) : FoldState :=
  let s := s <| fs_tasks :=
                  <[(run_id, td_key d) := plan_task_row run_id event_id timestamp d]>
                    (fs_tasks s) |> in
  s <| fs_dep_satisfaction :=
         fold_left (fun m upstream =>
             <[(run_id, upstream, td_key d) := plan_edge_row run_id upstream (td_key d) event_id]> m)
           (td_depends_on d) (fs_dep_satisfaction s) |>.

(** [self.tasks.keys().any(|(r, _)| r == run_id)] *)
Definition run_has_tasks (s : FoldState) (run_id : string) : bool :=
  existsb (fun kt => bool_decide (kt.1.1 = run_id)) (map_to_list (fs_tasks s)).

Definition fold_plan_created (s : FoldState) (run_id : string) (task_defs : list TaskDef)
    (event_id : string) (timestamp : DateTime) : FoldState * bool :=
  if run_has_tasks s run_id then (s, false)
  else
    let changed := bool_decide (is_Some (fs_runs s !! run_id)) in
    let s := modify_run run_id (plan_run_row (length task_defs) event_id) s in
    let s := fold_left (add_plan_edges run_id) task_defs s in
    let s := fold_left (add_plan_task run_id event_id timestamp) task_defs s in
    (s, changed || negb (bool_decide (task_defs = []))).

(** ** Task execution *)

Definition start_task_row (attempt : u32) (attempt_id event_id : string) (timestamp : DateTime)
    (task : TaskRow) : TaskRow :=
  task <| tk_state := TsRunning |> <| tk_attempt := attempt |>
       <| tk_attempt_id := Some attempt_id |> <| tk_started_at := Some timestamp |>
       <| tk_row_version := event_id |>.

Definition fold_task_started (s : FoldState) (run_id task_key : string) (attempt : u32)
    (attempt_id : string) (timestamp : DateTime) (event_id : string) : FoldState * bool :=
  let key := (run_id, task_key) in
  match fs_tasks s !! key with
  | None => (s, false)
  | Some task =>
      if task_is_terminal (tk_state task) then (s, false)
      else if (tk_attempt task <=? attempt)%N then
        let other_attempt_id :=
          match tk_attempt_id task with
          | Some current => negb (bool_decide (current = attempt_id))
          | None => false
          end in
        if (attempt =? tk_attempt task)%N && other_attempt_id then (s, false)
        else
          let s := s <| fs_tasks :=
                          <[key := start_task_row attempt attempt_id event_id timestamp task]>
                            (fs_tasks s) |> in
          (prune_dispatch_outbox_row s run_id task_key attempt, true)
      else (s, false)
  end.

Definition fold_task_heartbeat (s : FoldState) (run_id task_key : string) (attempt : u32)
    (attempt_id : string) (heartbeat_at : DateTime) (event_id : string) : FoldState * bool :=
  let key := (run_id, task_key) in
  match fs_tasks s !! key with
  | None => (s, false)
  | Some task =>
      if task_is_terminal (tk_state task) then (s, false)
      else if bool_decide (tk_attempt_id task = Some attempt_id) && (tk_attempt task =? attempt)%N
      then
        (s <| fs_tasks := <[key := task <| tk_last_heartbeat_at := Some heartbeat_at |>
                                        <| tk_row_version := event_id |>]> (fs_tasks s) |>, true)
      else (s, false)
  end.

(** ** Dependency edges *)

Definition dependents (s : FoldState) (run_id task_key : string) : list string :=
  default [] (fs_task_dependents s !! (run_id, task_key)).

Definition satisfied_edge_row (run_id upstream downstream : string) (resolution : DepResolution)
    (attempt : u32) (event_id : string) (timestamp : DateTime) : DepSatisfactionRow :=
  mkDepSatisfactionRow run_id upstream downstream true (Some resolution) (Some timestamp)
    (Some attempt) event_id.

(** One more dependency of [task] is satisfied. *)
Definition satisfy_task_row (event_id : string) (timestamp : DateTime) (task : TaskRow) : TaskRow :=
  let task := task <| tk_deps_satisfied_count := u32_add (tk_deps_satisfied_count task) 1 |> in
  if (tk_deps_satisfied_count task =? tk_deps_total task)%N &&
     bool_decide (tk_state task = TsBlocked)
  then task <| tk_state := TsReady |> <| tk_ready_at := Some timestamp |>
            <| tk_row_version := event_id |>
  else task.

Definition satisfy_edge (run_id upstream : string) (resolution : DepResolution) (attempt : u32)
    (event_id : string) (timestamp : DateTime) (s : FoldState) (downstream : string) : FoldState :=
  let edge_key := (run_id, upstream, downstream) in
  let was_satisfied := option_bool dp_satisfied (fs_dep_satisfaction s !! edge_key) in
  let s := s <| fs_dep_satisfaction :=
                  <[edge_key := satisfied_edge_row run_id upstream downstream resolution attempt
                                  event_id timestamp]> (fs_dep_satisfaction s) |> in
  if was_satisfied then s
  else modify_task (run_id, downstream) (satisfy_task_row event_id timestamp) s.

Definition satisfy_downstream_edges (s : FoldState) (run_id upstream : string)
    (resolution : DepResolution) (attempt : u32) (event_id : string) (timestamp : DateTime) :
    FoldState :=
  fold_left (satisfy_edge run_id upstream resolution attempt event_id timestamp)
    (dependents s run_id upstream) s.

Definition unsatisfied_edge_row (run_id upstream downstream : string) (resolution : DepResolution)
    (event_id : string) (timestamp : DateTime) : DepSatisfactionRow :=
  mkDepSatisfactionRow run_id upstream downstream false (Some resolution) (Some timestamp) None
    event_id.

(** The state of a skipped or cancelled downstream task, and the resolution its
    own dependents see. *)
Definition propagated (edge_resolution : DepResolution) : TaskState * DepResolution :=
  match edge_resolution with
  | DepCancelled => (TsCancelled, DepCancelled)
  | _ => (TsSkipped, DepSkipped)
  end.

Definition propagated_run_row (new_state : TaskState) (event_id : string) (timestamp : DateTime)
    (run : RunRow) : RunRow :=
  let run := run <| rn_tasks_completed := u32_add (rn_tasks_completed run) 1 |> in
  let run :=
    match new_state with
    | TsSkipped => run <| rn_tasks_skipped := u32_add (rn_tasks_skipped run) 1 |>
    | TsCancelled => run <| rn_tasks_cancelled := u32_add (rn_tasks_cancelled run) 1 |>
    | _ => run
    end in
  let run := run <| rn_row_version := event_id |> in
  if (rn_tasks_completed run =? rn_tasks_total run)%N then
    run <| rn_state := run_verdict (rn_tasks_cancelled run) (rn_tasks_failed run) |>
        <| rn_completed_at := Some timestamp |>
  else run.

(** One dependent of [upstream]: the body of the inner loop.  The queue holds
    the tasks whose dependents are still to be visited. *)
Definition propagate_edge (run_id upstream : string) (edge_resolution : DepResolution)
    (event_id : string) (timestamp : DateTime)
    (sq : FoldState * list (string * DepResolution)) (downstream : string) :
    FoldState * list (string * DepResolution) :=
  let '(s, to_propagate) := sq in
  let s := s <| fs_dep_satisfaction :=
                  <[(run_id, upstream, downstream) :=
                      unsatisfied_edge_row run_id upstream downstream edge_resolution event_id
                        timestamp]> (fs_dep_satisfaction s) |> in
  match fs_tasks s !! (run_id, downstream) with
  | Some task =>
      if task_is_terminal (tk_state task) then (s, to_propagate)
      else
        let '(new_state, next_resolution) := propagated edge_resolution in
        let s := s <| fs_tasks :=
                        <[(run_id, downstream) :=
                            task <| tk_state := new_state |> <| tk_row_version := event_id |>]>
                          (fs_tasks s) |> in
        (modify_run run_id (propagated_run_row new_state event_id timestamp) s,
         to_propagate ++ [(downstream, next_resolution)])
  | None => (s, to_propagate)
  end.

(** One turn of the outer loop, on the task popped from the queue. *)
Definition propagate_node (run_id event_id : string) (timestamp : DateTime) (s : FoldState)
    (upstream : string) (edge_resolution : DepResolution)
    (to_propagate : list (string * DepResolution)) : FoldState * list (string * DepResolution) :=
  fold_left (propagate_edge run_id upstream edge_resolution event_id timestamp)
    (dependents s run_id upstream) (s, to_propagate).

Fixpoint propagate_loop (fuel : nat) (run_id event_id : string) (timestamp : DateTime)
    (s : FoldState) (to_propagate : list (string * DepResolution)) : FoldState :=
  match to_propagate, fuel with
  | [], _ => s
  | _ :: _, O => s
  | (upstream, edge_resolution) :: rest, S fuel =>
      let '(s, q) := propagate_node run_id event_id timestamp s upstream edge_resolution rest in
      propagate_loop fuel run_id event_id timestamp s q
  end.

(** Every turn pops one task, and a task is pushed only when it becomes
    terminal: one turn per task plus the initial one is enough. *)
Definition propagate_failure (s : FoldState) (run_id failed_task_key : string)
    (initial_resolution : DepResolution) (event_id : string) (timestamp : DateTime) : FoldState :=
  propagate_loop (S (size (fs_tasks s))) run_id event_id timestamp s
    [(failed_task_key, initial_resolution)].

(** ** Output metadata and partition status *)

Definition extract_execution_metadata (materialization_id : option string)
    (output : option TaskOutput) (partition_key : option string) : ExecutionMetadata :=
  let metadata := mkExecutionMetadata materialization_id None None None in
  let metadata :=
    match output with
    | Some output =>
        let metadata :=
          match em_materialization_id metadata with
          | None => metadata <| em_materialization_id := to_materialization_id output |>
          | Some _ => metadata
          end in
        metadata <| em_delta_table := to_delta_table output |>
                 <| em_delta_version := to_delta_version output |>
                 <| em_delta_partition := to_delta_partition output |>
    | None => metadata
    end in
  match em_delta_partition metadata with
  | None => metadata <| em_delta_partition := partition_key |>
  | Some _ => metadata
  end.

Record ExecutionLineageRef := mkExecutionLineageRef {
  lr_run_id : string;
  lr_task_key : string;
  lr_attempt : u32;
  lr_materialization_id : option string;
  lr_delta_table : option string;
  lr_delta_version : option i64;
  lr_delta_partition : option string
}.

(** [serde_json::to_string], [None] on an error. *)
Class SerdeJson := lineage_to_string : ExecutionLineageRef -> option string.

Definition build_execution_lineage_ref `{SerdeJson} (run_id task_key : string) (attempt : u32)
    (metadata : ExecutionMetadata) : string :=
  let ref_payload :=
    mkExecutionLineageRef run_id task_key attempt (em_materialization_id metadata)
      (em_delta_table metadata) (em_delta_version metadata) (em_delta_partition metadata) in
  match lineage_to_string ref_payload with
  | Some text => text
  | None =>
      "run=" +:+ run_id +:+ ";task=" +:+ task_key +:+ ";attempt=" +:+ pretty attempt +:+
      ";delta_version=" +:+
      match em_delta_version metadata with None => "null" | Some v => pretty v end +:+
      ";delta_partition=" +:+ default "null" (em_delta_partition metadata)
  end.

Definition new_partition_status (tenant_id workspace_id asset_key partition_key : string) :
    PartitionStatusRow :=
  mkPartitionStatusRow tenant_id workspace_id asset_key partition_key
    None None None None None None None None ∅ None None None None "".

Definition update_partition_materialization (s : FoldState)
    (tenant_id workspace_id asset_key partition_key run_id : string)
    (code_version delta_table : option string) (delta_version : option i64)
    (delta_partition execution_lineage_ref : option string) (materialized_at : DateTime)
    (event_id : string) : FoldState :=
  let key := (asset_key, partition_key) in
  let row := default (new_partition_status tenant_id workspace_id asset_key partition_key)
               (fs_partition_status s !! key) in
  if str_ltb event_id (ps_row_version row) then
    s <| fs_partition_status := <[key := row]> (fs_partition_status s) |>
  else
    let row :=
      row <| ps_last_materialization_run_id := Some run_id |>
          <| ps_last_materialization_at := Some materialized_at |>
          <| ps_last_materialization_code_version := code_version |>
          <| ps_delta_table := delta_table |>
          <| ps_delta_version := delta_version |>
          <| ps_delta_partition := delta_partition |>
          <| ps_execution_lineage_ref := execution_lineage_ref |>
          <| ps_stale_since := None |>
          <| ps_stale_reason_code := None |>
          <| ps_row_version := event_id |> in
    s <| fs_partition_status := <[key := row]> (fs_partition_status s) |>.

Definition update_partition_attempt (s : FoldState)
    (tenant_id workspace_id asset_key partition_key run_id : string) (outcome : TaskOutcome)
    (attempted_at : DateTime) (event_id : string) : FoldState :=
  let key := (asset_key, partition_key) in
  let row := default (new_partition_status tenant_id workspace_id asset_key partition_key)
               (fs_partition_status s !! key) in
  if str_ltb event_id (ps_row_version row) then
    s <| fs_partition_status := <[key := row]> (fs_partition_status s) |>
  else
    let row :=
      row <| ps_last_attempt_run_id := Some run_id |>
          <| ps_last_attempt_at := Some attempted_at |>
          <| ps_last_attempt_outcome := Some outcome |>
          <| ps_row_version := event_id |> in
    s <| fs_partition_status := <[key := row]> (fs_partition_status s) |>.

(** ** Task completion *)

(** The state an outcome leads to: a failure with attempts left waits for a
    retry. *)
Definition finished_state (outcome : TaskOutcome) (task : TaskRow) : TaskState :=
  match outcome with
  | OutSucceeded => TsSucceeded
  | OutFailed => if (tk_attempt task <? tk_max_attempts task)%N then TsRetryWait else TsFailed
  | OutSkipped => TsSkipped
  | OutCancelled => TsCancelled
  end.

Section Finished.
Context `{SerdeJson}.

Definition finished_task_row (d : TaskFinishedData) (metadata : ExecutionMetadata)
    (effective_partition_key : option string) (event_id : string) (timestamp : DateTime)
    (task : TaskRow) : TaskRow :=
  let outcome := tf_outcome d in
  let new_state := finished_state outcome task in
  let task := task <| tk_state := new_state |> <| tk_row_version := event_id |> in
  let task := task <| tk_asset_key := option_or (tk_asset_key task) (tf_asset_key d) |> in
  let task := task <| tk_partition_key :=
                        option_or (tk_partition_key task) effective_partition_key |> in
  let task := if task_is_terminal new_state
              then task <| tk_completed_at := Some timestamp |> else task in
  let task :=
    match outcome with
    | OutSucceeded => task <| tk_error_message := None |> <| tk_retry_not_before := None |>
    | OutFailed | OutSkipped | OutCancelled =>
        let task := task <| tk_error_message := tf_error_message d |> in
        if bool_decide (new_state = TsRetryWait) then task
        else task <| tk_retry_not_before := None |>
    end in
  match outcome with
  | OutSucceeded =>
      let lineage_ref :=
        build_execution_lineage_ref (tf_run_id d) (tf_task_key d) (tf_attempt d) metadata in
      let task := task <| tk_materialization_id := em_materialization_id metadata |> in
      let task :=
        match tk_output_visibility_state task with
        | None => task <| tk_published_at := None |> <| tk_publish_error := None |>
        | Some _ => task
        end in
      task <| tk_delta_table := em_delta_table metadata |>
           <| tk_delta_version := em_delta_version metadata |>
           <| tk_delta_partition := em_delta_partition metadata |>
           <| tk_execution_lineage_ref := Some lineage_ref |>
  | _ =>
      task <| tk_output_visibility_state := None |> <| tk_published_at := None |>
           <| tk_publish_error := None |>
  end.

(** The run's counters after one of its tasks became terminal. *)
Definition finished_run_row (new_state : TaskState) (event_id : string) (timestamp : DateTime)
    (run : RunRow) : RunRow :=
  let run := run <| rn_tasks_completed := u32_add (rn_tasks_completed run) 1 |> in
  let run :=
    match new_state with
    | TsSucceeded => run <| rn_tasks_succeeded := u32_add (rn_tasks_succeeded run) 1 |>
    | TsFailed => run <| rn_tasks_failed := u32_add (rn_tasks_failed run) 1 |>
    | TsSkipped => run <| rn_tasks_skipped := u32_add (rn_tasks_skipped run) 1 |>
    | TsCancelled => run <| rn_tasks_cancelled := u32_add (rn_tasks_cancelled run) 1 |>
    | _ => run
    end in
  let run := run <| rn_row_version := event_id |> in
  if (rn_tasks_completed run =? rn_tasks_total run)%N then
    run <| rn_state := run_verdict (rn_tasks_cancelled run) (rn_tasks_failed run) |>
        <| rn_completed_at := Some timestamp |>
  else run.

(** What a completion does beyond its own task and run: edges and, on success,
    the partition's materialization. *)
Definition finish_downstream (s : FoldState) (d : TaskFinishedData)
    (metadata : ExecutionMetadata) (effective_partition_key : option string)
    (new_state : TaskState) (event_id : string) (timestamp : DateTime)
    (tenant_id workspace_id : string) : FoldState :=
  let run_id := tf_run_id d in
  let task_key := tf_task_key d in
  match tf_outcome d with
  | OutSucceeded =>
      let s := satisfy_downstream_edges s run_id task_key DepSuccess (tf_attempt d) event_id
                 timestamp in
      match tf_asset_key d, effective_partition_key with
      | Some asset_key, Some partition_key =>
          let lineage_ref := build_execution_lineage_ref run_id task_key (tf_attempt d) metadata in
          update_partition_materialization s tenant_id workspace_id asset_key partition_key run_id
            (tf_code_version d) (em_delta_table metadata) (em_delta_version metadata)
            (em_delta_partition metadata) (Some lineage_ref) timestamp event_id
      | _, _ => s
      end
  | OutFailed =>
      if bool_decide (new_state = TsFailed)
      then propagate_failure s run_id task_key DepFailed event_id timestamp else s
  | OutSkipped => propagate_failure s run_id task_key DepSkipped event_id timestamp
  | OutCancelled => propagate_failure s run_id task_key DepCancelled event_id timestamp
  end.

(** [is_current_attempt]: the task's attempt number and id are the event's. *)
Definition is_current_attempt (task : TaskRow) (attempt : u32) (attempt_id : string) : bool :=
  bool_decide (tk_attempt_id task = Some attempt_id) && (tk_attempt task =? attempt)%N.

Definition fold_task_finished (s : FoldState) (d : TaskFinishedData) (event_id : string)
    (timestamp : DateTime) (tenant_id workspace_id : string) : FoldState * bool :=
  let key := (tf_run_id d, tf_task_key d) in
  match fs_tasks s !! key with
  | None => (s, false)
  | Some task =>
      if task_is_terminal (tk_state task) && is_current_attempt task (tf_attempt d) (tf_attempt_id d)
      then (s, false)
      else if negb (is_current_attempt task (tf_attempt d) (tf_attempt_id d)) then (s, false)
      else
        let metadata :=
          extract_execution_metadata (tf_materialization_id d) (tf_output d) (tf_partition_key d) in
        let effective_partition_key :=
          option_or (tf_partition_key d) (em_delta_partition metadata) in
        let new_state := finished_state (tf_outcome d) task in
        let s := s <| fs_tasks :=
                        <[key := finished_task_row d metadata effective_partition_key event_id
                                   timestamp task]> (fs_tasks s) |> in
        let s := if task_is_terminal new_state
                 then modify_run (tf_run_id d) (finished_run_row new_state event_id timestamp) s
                 else s in
        let s := finish_downstream s d metadata effective_partition_key new_state event_id
                   timestamp tenant_id workspace_id in
        let s :=
          match tf_asset_key d, effective_partition_key with
          | Some asset_key, Some partition_key =>
              update_partition_attempt s tenant_id workspace_id asset_key partition_key
                (tf_run_id d) (tf_outcome d) timestamp event_id
          | _, _ => s
          end in
        (s, true)
  end.
End Finished.

(** Once output is visible or has failed, only the same verdict is accepted
    again. *)
Definition visibility_settled (task : TaskRow) (visibility_state : OutputVisibilityState) : bool :=
  match tk_output_visibility_state task with
  | Some VisVisible | Some VisFailed =>
      negb (bool_decide (tk_output_visibility_state task = Some visibility_state))
  | _ => false
  end.

Definition visibility_task_row (visibility_state : OutputVisibilityState)
    (published_at : option DateTime) (publish_error : option string) (event_id : string)
    (timestamp : DateTime) (task : TaskRow) : TaskRow :=
  let task := task <| tk_output_visibility_state := Some visibility_state |>
                   <| tk_row_version := event_id |> in
  match visibility_state with
  | VisPending => task <| tk_published_at := None |> <| tk_publish_error := None |>
  | VisVisible =>
      task <| tk_published_at := Some (default timestamp published_at) |>
           <| tk_publish_error := None |>
  | VisFailed => task <| tk_published_at := None |> <| tk_publish_error := publish_error |>
  end.

Definition fold_task_output_visibility_changed (s : FoldState) (run_id task_key : string)
    (attempt : u32) (attempt_id : string) (visibility_state : OutputVisibilityState)
    (published_at : option DateTime) (publish_error : option string) (event_id : string)
    (timestamp : DateTime) : FoldState * bool :=
  let key := (run_id, task_key) in
  match fs_tasks s !! key with
  | None => (s, false)
  | Some task =>
      if negb (is_current_attempt task attempt attempt_id) ||
         negb (bool_decide (tk_state task = TsSucceeded))
      then (s, false)
      else if visibility_settled task visibility_state then (s, false)
      else
        (s <| fs_tasks :=
                <[key := visibility_task_row visibility_state published_at publish_error event_id
                           timestamp task]> (fs_tasks s) |>, true)
  end.

(** ** Row access lemmas *)

Lemma modify_run_None run_id f s : fs_runs s !! run_id = None -> modify_run run_id f s = s.
Proof.
  intros Hr. unfold modify_run. destruct s; simpl in *. f_equal.
  apply alter_id. congruence.
Qed.

Lemma modify_task_None key f s : fs_tasks s !! key = None -> modify_task key f s = s.
Proof.
  intros Hr. unfold modify_task. destruct s; simpl in *. f_equal.
  apply alter_id. congruence.
Qed.

Lemma tasks_to_cancel_spec s run_id key :
  key ∈ tasks_to_cancel s run_id <->
  exists task, fs_tasks s !! key = Some task /\ key.1 = run_id /\
    task_is_terminal (tk_state task) = false /\ tk_state task <> TsRunning.
Proof.
  unfold tasks_to_cancel. rewrite list_elem_of_fmap. split.
  - intros ([k t] & -> & Hin). apply list_elem_of_In, filter_In in Hin as [Hin Hp].
    apply list_elem_of_In, elem_of_map_to_list in Hin. bool_hyps. eauto.
  - intros (task & Hk & Hr & Ht & Hn). exists (key, task). split; [done|].
    apply list_elem_of_In, filter_In. split.
    + by apply list_elem_of_In, elem_of_map_to_list.
    + simpl. by rewrite bool_decide_true, Ht, bool_decide_false.
Qed.
