(* ===== verification/FoldDispatch.v ===== *)
(** Dispatch outbox and durable timers.

    The handlers of [compactor/fold.rs] that own the [dispatch_outbox] and
    [timers] tables, including the out-of-order cases: an acknowledgement that
    arrives before its request creates the row that the request later
    completes. *)

From S2P Require Import Prelude Events FoldTypes FoldTasks.
From stdpp Require Import options.

(** ** Dispatch outbox *)

Definition attempt_consumed (task : TaskRow) (attempt : u32) : bool :=
  (attempt <? tk_attempt task)%N ||
  ((tk_attempt task =? attempt)%N &&
   (match tk_state task with TsRunning | TsRetryWait => true | _ => false end ||
    task_is_terminal (tk_state task))).

Definition dispatch_attempt_consumed (s : FoldState) (run_id task_key : string) (attempt : u32) :
    bool :=
  option_bool (fun task => attempt_consumed task attempt) (fs_tasks s !! (run_id, task_key)).

(** Fill in what an early [DispatchEnqueued] could not know. *)
Definition complete_outbox_row (attempt_id worker_queue : string) (existing : DispatchOutboxRow) :
    DispatchOutboxRow * bool :=
  let '(existing, changed1) :=
    if str_is_empty (ob_attempt_id existing)
    then (existing <| ob_attempt_id := attempt_id |>, true) else (existing, false) in
  let '(existing, changed2) :=
    if str_is_empty (ob_worker_queue existing) ||
       (String.eqb (ob_worker_queue existing) "default-queue" &&
        negb (String.eqb worker_queue "default-queue"))
    then (existing <| ob_worker_queue := worker_queue |>, true) else (existing, false) in
  (existing, changed1 || changed2).

Definition may_dispatch (task : TaskRow) (attempt : u32) : bool :=
  negb (task_is_terminal (tk_state task)) &&
  match tk_state task with TsReady | TsRetryWait | TsDispatched => true | _ => false end &&
  (tk_attempt task <=? attempt)%N.

Definition dispatch_task_row (attempt : u32) (attempt_id event_id : string) (task : TaskRow) :
    TaskRow :=
  task <| tk_state := TsDispatched |> <| tk_attempt := attempt |>
       <| tk_attempt_id := Some attempt_id |> <| tk_retry_not_before := None |>
       <| tk_row_version := event_id |>.

(** The task part of [fold_dispatch_requested]. *)
Definition dispatch_task (s : FoldState) (run_id task_key : string) (attempt : u32)
    (desired_attempt_id event_id : string) : FoldState * bool :=
  let key := (run_id, task_key) in
  match fs_tasks s !! key with
  | None => (s, false)
  | Some task =>
      if may_dispatch task attempt then
        let should_update :=
          negb (bool_decide (tk_state task = TsDispatched)) ||
          negb (tk_attempt task =? attempt)%N ||
          negb (bool_decide (tk_attempt_id task = Some desired_attempt_id)) in
        if should_update then
          (s <| fs_tasks := <[key := dispatch_task_row attempt desired_attempt_id event_id task]>
                              (fs_tasks s) |>, true)
        else (s, false)
      else (s, false)
  end.

Definition fold_dispatch_requested (s : FoldState) (run_id task_key : string) (attempt : u32)
    (attempt_id worker_queue dispatch_id event_id : string) (timestamp : DateTime) :
    FoldState * bool :=
  if dispatch_attempt_consumed s run_id task_key attempt then
    (prune_dispatch_outbox_row s run_id task_key attempt, false)
  else
    match fs_dispatch_outbox s !! dispatch_id with
    | Some existing =>
        let '(existing, outbox_changed) := complete_outbox_row attempt_id worker_queue existing in
        let s := s <| fs_dispatch_outbox := <[dispatch_id := existing]> (fs_dispatch_outbox s) |> in
        let '(s, task_changed) :=
          dispatch_task s run_id task_key attempt (ob_attempt_id existing) event_id in
        (s, task_changed || outbox_changed)
    | None =>
        let '(s, _) := dispatch_task s run_id task_key attempt attempt_id event_id in
        let row :=
          mkDispatchOutboxRow run_id task_key attempt dispatch_id None DispPending attempt_id
            worker_queue timestamp event_id in
        (s <| fs_dispatch_outbox := <[dispatch_id := row]> (fs_dispatch_outbox s) |>, true)
    end.

Definition enqueue_outbox_row (cloud_task_id event_id : string) (timestamp : DateTime)
    (existing : DispatchOutboxRow) : DispatchOutboxRow :=
  existing <| ob_status := DispCreated |> <| ob_cloud_task_id := Some cloud_task_id |>
           <| ob_created_at := timestamp |> <| ob_row_version := event_id |>.

(** The part of [fold_dispatch_enqueued] after the consumed-attempt check. *)
Definition upsert_enqueued (s : FoldState) (dispatch_id : string)
    (run_id task_key : option string) (attempt : option u32)
    (cloud_task_id event_id : string) (timestamp : DateTime) : FoldState * bool :=
  match fs_dispatch_outbox s !! dispatch_id with
  | Some existing =>
      if str_leb event_id (ob_row_version existing) then (s, false)
      else
        (s <| fs_dispatch_outbox :=
                <[dispatch_id := enqueue_outbox_row cloud_task_id event_id timestamp existing]>
                  (fs_dispatch_outbox s) |>, true)
  | None =>
      match run_id, task_key, attempt with
      | Some run_id, Some task_key, Some attempt =>
          let row :=
            mkDispatchOutboxRow run_id task_key attempt dispatch_id (Some cloud_task_id)
              DispCreated "" "default-queue" timestamp event_id in
          (s <| fs_dispatch_outbox := <[dispatch_id := row]> (fs_dispatch_outbox s) |>, true)
      | _, _, _ => (s, false)
      end
  end.

Definition fold_dispatch_enqueued (s : FoldState) (dispatch_id : string)
    (run_id task_key : option string) (attempt : option u32)
    (cloud_task_id event_id : string) (timestamp : DateTime) : FoldState * bool :=
  match run_id, task_key, attempt with
  | Some r, Some k, Some a =>
      if dispatch_attempt_consumed s r k a then (prune_dispatch_outbox_row s r k a, false)
      else upsert_enqueued s dispatch_id run_id task_key attempt cloud_task_id event_id timestamp
  | _, _, _ =>
      upsert_enqueued s dispatch_id run_id task_key attempt cloud_task_id event_id timestamp
  end.

(** ** Timers *)

Definition set_retry_not_before (s : FoldState) (run_id task_key : option string)
    (attempt : option u32) (fire_at : DateTime) (event_id : string) : FoldState * bool :=
  match run_id, task_key, attempt with
  | Some run_id, Some task_key, Some attempt =>
      let key := (run_id, task_key) in
      match fs_tasks s !! key with
      | None => (s, false)
      | Some task =>
          if bool_decide (tk_state task = TsRetryWait) && (tk_attempt task =? attempt)%N then
            (s <| fs_tasks := <[key := task <| tk_retry_not_before := Some fire_at |>
                                            <| tk_row_version := event_id |>]> (fs_tasks s) |>,
             true)
          else (s, false)
      end
  | _, _, _ => (s, false)
  end.

(** [if x.is_none() { x = y; changed |= x.is_some(); }] *)
Definition fill {A} (x y : option A) : option A * bool :=
  match x with
  | Some _ => (x, false)
  | None => (y, bool_decide (is_Some y))
  end.

Definition complete_timer_row (run_id task_key : option string) (attempt : option u32)
    (fire_at : DateTime) (existing : TimerRow) : TimerRow * bool :=
  let changed := negb (ti_fire_at existing =? fire_at)%Z in
  let existing := existing <| ti_fire_at := fire_at |> in
  let '(v1, c1) := fill (ti_run_id existing) run_id in
  let existing := existing <| ti_run_id := v1 |> in
  let '(v2, c2) := fill (ti_task_key existing) task_key in
  let existing := existing <| ti_task_key := v2 |> in
  let '(v3, c3) := fill (ti_attempt existing) attempt in
  let existing := existing <| ti_attempt := v3 |> in
  (existing, changed || c1 || c2 || c3).

Definition fold_timer_requested (s : FoldState) (timer_id : string) (timer_type : EventTimerType)
    (run_id task_key : option string) (attempt : option u32) (fire_at : DateTime)
    (event_id : string) : FoldState * bool :=
  let retry s changed :=
    if bool_decide (map_timer_type timer_type = TtRetry) then
      let '(s, set) := set_retry_not_before s run_id task_key attempt fire_at event_id in
      (s, changed || set)
    else (s, changed) in
  match fs_timers s !! timer_id with
  | Some existing =>
      let '(existing, changed) := complete_timer_row run_id task_key attempt fire_at existing in
      retry (s <| fs_timers := <[timer_id := existing]> (fs_timers s) |>) changed
  | None =>
      let row :=
        mkTimerRow timer_id None (map_timer_type timer_type) run_id task_key attempt fire_at
          TimScheduled None event_id in
      retry (s <| fs_timers := <[timer_id := row]> (fs_timers s) |>) true
  end.

Section Timers.
Context `{Chrono}.

(** The row an acknowledgement or a firing creates when no request was seen:
    what the event does not say is read off the timer's identifier. *)
Definition timer_row_of_id (timer_id : string) (cloud_task_id : option string)
    (run_id task_key : option string) (attempt : option u32) (state : TimerState)
    (event_id : string) : option TimerRow :=
  parsed ← parse_timer_id timer_id;
  Some (mkTimerRow timer_id cloud_task_id (pt_timer_type parsed)
          (option_or run_id (pt_run_id parsed)) (option_or task_key (pt_task_key parsed))
          (option_or attempt (pt_attempt parsed))
          (default utc_now (from_timestamp (pt_fire_epoch parsed))) state None event_id).

Definition fold_timer_enqueued (s : FoldState) (timer_id : string)
    (run_id task_key : option string) (attempt : option u32) (cloud_task_id event_id : string) :
    FoldState * bool :=
  match fs_timers s !! timer_id with
  | Some existing =>
      if str_leb event_id (ti_row_version existing) then (s, false)
      else
        (s <| fs_timers := <[timer_id := existing <| ti_cloud_task_id := Some cloud_task_id |>
                                                  <| ti_row_version := event_id |>]>
                             (fs_timers s) |>, true)
  | None =>
      match timer_row_of_id timer_id (Some cloud_task_id) run_id task_key attempt TimScheduled
              event_id with
      | Some row => (s <| fs_timers := <[timer_id := row]> (fs_timers s) |>, true)
      | None => (s, false)
      end
  end.

Definition fold_timer_fired (s : FoldState) (timer_id : string) (_timer_type : EventTimerType)
    (run_id task_key : option string) (attempt : option u32) (event_id : string) :
    FoldState * bool :=
  match fs_timers s !! timer_id with
  | Some existing =>
      if str_leb event_id (ti_row_version existing) then (s, false)
      else
        (s <| fs_timers := <[timer_id := existing <| ti_state := TimFired |>
                                                  <| ti_row_version := event_id |>]>
                             (fs_timers s) |>, true)
  | None =>
      match timer_row_of_id timer_id None run_id task_key attempt TimFired event_id with
      | Some row => (s <| fs_timers := <[timer_id := row]> (fs_timers s) |>, true)
      | None => (s, false)
      end
  end.
End Timers.
