(* ===== verification/FoldAutomation.v ===== *)
(** Schedules, sensors, run requests and backfills.

    The layer-2 handlers of [compactor/fold.rs].  Rows of these tables are
    last-writer-wins by event id ([row_version]); sensors add a compare-and-swap
    on [state_version], and backfills a state machine. *)

From S2P Require Import Prelude Events FoldTypes.
From stdpp Require Import options.

(** ** Schedules *)

Definition fold_schedule_definition_upserted (s : FoldState)
    (tenant_id workspace_id schedule_id cron_expression timezone : string)
    (catchup_window_minutes : u32) (asset_selection : list string)
    (code_version : option string) (max_catchup_ticks : u32) (enabled : bool)
    (timestamp : DateTime) (event_id : string) : FoldState * bool :=
  let existing := fs_schedule_definitions s !! schedule_id in
  let created_at := match existing with Some row => sd_created_at row | None => timestamp end in
  let stale :=
    option_bool (fun existing => str_leb event_id (sd_row_version existing)) existing in
  if stale then (s, false)
  else
    let row :=
      mkScheduleDefinitionRow tenant_id workspace_id schedule_id cron_expression timezone
        catchup_window_minutes asset_selection code_version max_catchup_ticks enabled created_at
        event_id in
    (s <| fs_schedule_definitions := <[schedule_id := row]> (fs_schedule_definitions s) |>, true).

Definition new_schedule_state (tenant_id workspace_id schedule_id : string) : ScheduleStateRow :=
  mkScheduleStateRow tenant_id workspace_id schedule_id None None None "".

Definition tick_schedule_state (scheduled_for : DateTime) (tick_id : string)
    (run_key : option string) (event_id : string) (state : ScheduleStateRow) : ScheduleStateRow :=
  state <| ss_last_scheduled_for := Some scheduled_for |> <| ss_last_tick_id := Some tick_id |>
        <| ss_last_run_key := run_key |> <| ss_row_version := event_id |>.

Section Automation.
Context `{Hashes}.

Definition fold_schedule_ticked (s : FoldState) (tenant_id workspace_id schedule_id : string)
    (scheduled_for : DateTime) (tick_id definition_version : string)
    (asset_selection : list string) (partition_selection : option (list string))
    (status : TickStatus) (run_key request_fingerprint : option string) (event_id : string) :
    FoldState * bool :=
  let state := default (new_schedule_state tenant_id workspace_id schedule_id)
                 (fs_schedule_state s !! schedule_id) in
  let newer := str_ltb (ss_row_version state) event_id in
  let state := if newer then tick_schedule_state scheduled_for tick_id run_key event_id state
               else state in
  let s := s <| fs_schedule_state := <[schedule_id := state]> (fs_schedule_state s) |> in
  let duplicate :=
    option_bool (fun existing => str_leb event_id (st_row_version existing))
      (fs_schedule_ticks s !! tick_id) in
  if duplicate then (s, newer)
  else
    let run_id :=
      (fun run_key => run_id_from_run_key tenant_id workspace_id run_key (fs_tenant_secret s))
        <$> run_key in
    let row :=
      mkScheduleTickRow tenant_id workspace_id tick_id schedule_id scheduled_for
        definition_version asset_selection partition_selection status run_key run_id
        request_fingerprint event_id in
    (s <| fs_schedule_ticks := <[tick_id := row]> (fs_schedule_ticks s) |>, true).

(** ** Sensors *)

Definition new_sensor_state (tenant_id workspace_id sensor_id : string) : SensorStateRow :=
  mkSensorStateRow tenant_id workspace_id sensor_id None None None SensorActive 0 "".

Definition upsert_sensor_eval (s : FoldState) (row : SensorEvalRow) : FoldState * bool :=
  let stale :=
    option_bool (fun existing => str_leb (sv_row_version row) (sv_row_version existing))
      (fs_sensor_evals s !! sv_eval_id row) in
  if stale then (s, false)
  else (s <| fs_sensor_evals := <[sv_eval_id row := row]> (fs_sensor_evals s) |>, true).

Definition advance_sensor_state (cursor_after : option string) (timestamp : DateTime)
    (eval_id event_id : string) (state : SensorStateRow) : SensorStateRow :=
  state <| se_cursor := cursor_after |> <| se_last_evaluation_at := Some timestamp |>
        <| se_last_eval_id := Some eval_id |> <| se_row_version := event_id |>
        <| se_state_version := u32_add (se_state_version state) 1 |>.

(** The compare-and-swap of poll sensors: an expected version that is not the
    sensor's current one. *)
Definition eval_is_stale (expected_state_version : option u32) (state_version : u32) : bool :=
  option_bool (fun expected => negb (state_version =? expected)%N) expected_state_version.

Definition fold_sensor_evaluated (s : FoldState) (tenant_id workspace_id sensor_id eval_id : string)
    (cursor_before cursor_after : option string) (expected_state_version : option u32)
    (trigger_source : TriggerSource) (run_requests : list RunRequest) (status : SensorEvalStatus)
    (timestamp : DateTime) (event_id : string) : FoldState * bool :=
  let state := default (new_sensor_state tenant_id workspace_id sensor_id)
                 (fs_sensor_state s !! sensor_id) in
  let s := s <| fs_sensor_state := <[sensor_id := state]> (fs_sensor_state s) |> in
  let is_stale := eval_is_stale expected_state_version (se_state_version state) in
  let eval_status := if is_stale then EvalSkippedStaleCursor else status in
  let '(s, changed) :=
    upsert_sensor_eval s
      (mkSensorEvalRow tenant_id workspace_id eval_id sensor_id cursor_before cursor_after
         expected_state_version trigger_source run_requests eval_status timestamp event_id) in
  if is_stale then (s, changed)
  else if str_leb event_id (se_row_version state) then (s, changed)
  else
    (s <| fs_sensor_state :=
            <[sensor_id := advance_sensor_state cursor_after timestamp eval_id event_id state]>
              (fs_sensor_state s) |>, true).

(** ** Run requests *)

Definition should_drop_run_requested_for_stale_sensor_eval (s : FoldState)
    (trigger_source_ref : SourceRef) : bool :=
  match trigger_source_ref with
  | RefSensor _ eval_id =>
      option_bool (fun e => bool_decide (sv_status e = EvalSkippedStaleCursor))
        (fs_sensor_evals s !! eval_id)
  | _ => false
  end.

Definition correlate_run_to_source (s : FoldState) (run_id : string) (source : SourceRef) :
    FoldState :=
  match source with
  | RefSchedule _ tick_id =>
      s <| fs_schedule_ticks :=
             alter (fun tick => tick <| st_run_id := Some run_id |>) tick_id (fs_schedule_ticks s) |>
  | RefBackfill _ chunk_id =>
      s <| fs_backfill_chunks :=
             alter (fun chunk => chunk <| bc_run_id := Some run_id |>) chunk_id
               (fs_backfill_chunks s) |>
  | RefSensor _ _ => s
  | RefManual _ _ => s
  end.

Definition fold_run_requested (s : FoldState) (tenant_id workspace_id run_key
    request_fingerprint : string) (trigger_source_ref : SourceRef) (code_version : option string)
    (timestamp : DateTime) (event_id : string) : FoldState * bool :=
  match fs_run_key_index s !! run_key with
  | Some existing =>
      if bool_decide (rk_request_fingerprint existing = request_fingerprint) then (s, true)
      else
        let conflict_id := "conflict:" +:+ run_key +:+ ":" +:+ event_id in
        let row :=
          mkRunKeyConflictRow tenant_id workspace_id run_key (rk_request_fingerprint existing)
            request_fingerprint event_id timestamp in
        (s <| fs_run_key_conflicts := <[conflict_id := row]> (fs_run_key_conflicts s) |>, true)
  | None =>
      let run_id := run_id_from_run_key tenant_id workspace_id run_key (fs_tenant_secret s) in
      let row :=
        mkRunKeyIndexRow tenant_id workspace_id run_key run_id request_fingerprint code_version
          timestamp event_id in
      let s := s <| fs_run_key_index := <[run_key := row]> (fs_run_key_index s) |> in
      (correlate_run_to_source s run_id trigger_source_ref, true)
  end.
End Automation.

(** ** Backfills *)

(** [format!("{backfill_id}:{index}")] *)
Definition chunk_id_of (backfill_id : string) (index : u32) : string :=
  backfill_id +:+ ":" +:+ pretty index.

(** The loop that skips the chunks already planned, starting at [index]. *)
Fixpoint next_missing_chunk (fuel : nat) (chunks : gmap string BackfillChunkRow)
    (backfill_id : string) (index : u32) : u32 :=
  match fuel with
  | O => index
  | S fuel =>
      match chunks !! chunk_id_of backfill_id index with
      | Some _ => next_missing_chunk fuel chunks backfill_id (u32_add index 1)
      | None => index
      end
  end.

(** A loop over distinct keys of [chunks] turns at most [size chunks] times. *)
Definition first_missing_chunk (chunks : gmap string BackfillChunkRow) (backfill_id : string)
    (index : u32) : u32 :=
  next_missing_chunk (S (size chunks)) chunks backfill_id index.

Definition fold_backfill_created (s : FoldState) (tenant_id workspace_id backfill_id : string)
    (asset_selection : list string) (code_version : option string)
    (partition_selector : PartitionSelector)
    (total_partitions chunk_size max_concurrent_runs : u32) (parent_backfill_id : option string)
    (timestamp : DateTime) (event_id : string) : FoldState * bool :=
  match fs_backfills s !! backfill_id with
  | Some _ => (s, false)
  | None =>
      let planned_chunks :=
        if (0 <? chunk_size)%N then first_missing_chunk (fs_backfill_chunks s) backfill_id 0
        else 0%N in
      let row :=
        mkBackfillRow tenant_id workspace_id backfill_id asset_selection code_version
          partition_selector chunk_size max_concurrent_runs BfRunning 1 total_partitions
          planned_chunks 0 0 parent_backfill_id timestamp event_id in
      (s <| fs_backfills := <[backfill_id := row]> (fs_backfills s) |>, true)
  end.

Definition advance_planned_chunks (chunks : gmap string BackfillChunkRow)
    (backfill_id event_id : string) (backfill : BackfillRow) : BackfillRow :=
  let next_index := first_missing_chunk chunks backfill_id (bf_planned_chunks backfill) in
  if negb (next_index =? bf_planned_chunks backfill)%N then
    backfill <| bf_planned_chunks := next_index |> <| bf_row_version := event_id |>
  else backfill.

Definition fold_backfill_chunk_planned (s : FoldState)
    (tenant_id workspace_id backfill_id chunk_id : string) (chunk_index : u32)
    (partition_keys : list string) (run_key event_id : string) : FoldState * bool :=
  let existing := fs_backfill_chunks s !! chunk_id in
  let existing_run_id := row ← existing; bc_run_id row in
  let stale :=
    option_bool (fun existing => str_leb event_id (bc_row_version existing)) existing in
  if stale then (s, false)
  else
    let row :=
      mkBackfillChunkRow tenant_id workspace_id chunk_id backfill_id chunk_index partition_keys
        run_key existing_run_id ChunkPlanned event_id in
    let s := s <| fs_backfill_chunks := <[chunk_id := row]> (fs_backfill_chunks s) |> in
    (s <| fs_backfills :=
            alter (advance_planned_chunks (fs_backfill_chunks s) backfill_id event_id) backfill_id
              (fs_backfills s) |>, true).

Definition fold_backfill_state_changed (s : FoldState) (backfill_id : string)
    (from_state to_state : BackfillState) (state_version : u32) (event_id : string) :
    FoldState * bool :=
  match fs_backfills s !! backfill_id with
  | None => (s, false)
  | Some backfill =>
      if str_leb event_id (bf_row_version backfill) then (s, false)
      else if negb (bool_decide (bf_state backfill = from_state)) then (s, false)
      else if negb (is_valid_transition (bf_state backfill) to_state) then (s, false)
      else
        let expected_version := u32_saturating_add (bf_state_version backfill) 1 in
        if negb (state_version =? expected_version)%N then (s, false)
        else
          (s <| fs_backfills :=
                  <[backfill_id := backfill <| bf_state := to_state |>
                                            <| bf_state_version := state_version |>
                                            <| bf_row_version := event_id |>]>
                    (fs_backfills s) |>, true)
  end.
