(* ===== verification/Fold.v ===== *)
(** The fold.

    [fold_event] of [compactor/fold.rs]: drop an event whose idempotency key was
    already claimed, run its handler, refresh the catalog-facing run index of the
    run it touched, and claim the key when the handler applied it.  Also the
    rebuilding of the dependency graphs after a snapshot is loaded. *)

From S2P Require Import Prelude Events FoldTypes FoldTasks FoldDispatch FoldAutomation.
From stdpp Require Import options.

(** ** Catalog run index *)

Fixpoint label_value (labels : gmap string string) (keys : list string) : option string :=
  match keys with
  | [] => None
  | key :: rest =>
      match labels !! key with Some v => Some v | None => label_value labels rest end
  end.

Definition non_empty (s : string) : option string :=
  if str_is_empty s then None else Some s.

Definition parse_catalog_asset_key (asset_key : string) : option string * option string :=
  match split_once "/" asset_key with
  | Some (namespace, table) => (non_empty namespace, non_empty table)
  | None =>
      match split_once "." asset_key with
      | Some (namespace, table) => (non_empty namespace, non_empty table)
      | None => (None, Some asset_key)
      end
  end.

Definition catalog_row (index : gmap (string * string * string * string) CatalogRunIndexRow)
    (org_id workspace_id : string) (run : RunRow) (updated_at : DateTime) (task : TaskRow)
    (asset_key : string) : CatalogRunIndexRow :=
  let '(target_namespace, target_table) := parse_catalog_asset_key asset_key in
  let row_version :=
    if str_leb (rn_row_version run) (tk_row_version task) then tk_row_version task
    else rn_row_version run in
  let primary_key := (org_id, workspace_id, rn_run_id run, tk_task_key task) in
  let row_updated_at :=
    match index !! primary_key with
    | Some existing =>
        if bool_decide (ci_row_version existing = row_version) then ci_updated_at existing
        else updated_at
    | None => updated_at
    end in
  {| ci_schema_version := 1;
     ci_org_id := org_id;
     ci_workspace_id := workspace_id;
     ci_run_id := rn_run_id run;
     ci_task_key := tk_task_key task;
     ci_plan_id := rn_plan_id run;
     ci_run_key := rn_run_key run;
     ci_kind := label_value (rn_labels run) ["kind"; "run_kind"];
     ci_reference_id := label_value (rn_labels run) ["reference_id"; "referenceId"];
     ci_source_type := label_value (rn_labels run) ["source_type"; "sourceType"];
     ci_run_status := rn_state run;
     ci_cancel_requested := rn_cancel_requested run;
     ci_task_status := tk_state task;
     ci_asset_key := Some asset_key;
     ci_target_namespace := target_namespace;
     ci_target_table := target_table;
     ci_partition_key := tk_partition_key task;
     ci_attempt := tk_attempt task;
     ci_attempt_id := tk_attempt_id task;
     ci_requires_visible_output := tk_requires_visible_output task;
     ci_materialization_id := tk_materialization_id task;
     ci_output_visibility_state := tk_output_visibility_state task;
     ci_published_at := tk_published_at task;
     ci_publish_error := tk_publish_error task;
     ci_delta_table := tk_delta_table task;
     ci_delta_version := tk_delta_version task;
     ci_delta_partition := tk_delta_partition task;
     ci_execution_lineage_ref := tk_execution_lineage_ref task;
     ci_started_at := tk_started_at task;
     ci_last_heartbeat_at := tk_last_heartbeat_at task;
     ci_triggered_at := rn_triggered_at run;
     ci_completed_at := rn_completed_at run;
     ci_updated_at := row_updated_at;
     ci_code_version := rn_code_version run;
     ci_error_message := tk_error_message task;
     ci_row_version := row_version |}.

Definition refresh_task (org_id workspace_id : string) (run : RunRow) (updated_at : DateTime)
    (index : gmap (string * string * string * string) CatalogRunIndexRow) (task : TaskRow) :
    gmap (string * string * string * string) CatalogRunIndexRow :=
  match tk_asset_key task with
  | None => index
  | Some asset_key =>
      <[(org_id, workspace_id, rn_run_id run, tk_task_key task) :=
          catalog_row index org_id workspace_id run updated_at task asset_key]> index
  end.

(** The tasks of a run that materialize an asset. *)
Definition asset_tasks (s : FoldState) (run_id : string) : list TaskRow :=
  snd <$> List.filter (fun kt => bool_decide (kt.1.1 = run_id) &&
                                 bool_decide (is_Some (tk_asset_key kt.2)))
            (map_to_list (fs_tasks s)).

Definition refresh_catalog_run_index_for_run (s : FoldState) (org_id workspace_id run_id : string)
    (updated_at : DateTime) : FoldState :=
  match fs_runs s !! run_id with
  | None => s
  | Some run =>
      s <| fs_catalog_run_index :=
             fold_left (refresh_task org_id workspace_id run updated_at) (asset_tasks s run_id)
               (fs_catalog_run_index s) |>
  end.

(** ** Idempotency keys *)

Definition idempotency_key_row (e : OrchestrationEvent) : IdempotencyKeyRow :=
  mkIdempotencyKeyRow (ev_tenant_id e) (ev_workspace_id e) (ev_idempotency_key e) (ev_event_id e)
    (ev_event_type e) (ev_timestamp e) (ev_event_id e).

(** [entry(key).or_insert_with(..)] *)
Definition record_idempotency_key (s : FoldState) (e : OrchestrationEvent) : FoldState :=
  match fs_idempotency_keys s !! ev_idempotency_key e with
  | Some _ => s
  | None =>
      s <| fs_idempotency_keys :=
             <[ev_idempotency_key e := idempotency_key_row e]> (fs_idempotency_keys s) |>
  end.

(** ** Events *)

Section Fold.
Context `{Hashes} `{Chrono} `{SerdeJson}.

(** [if changed { self.refresh_catalog_run_index_for_run(..) }] *)
Definition refresh_if_changed (e : OrchestrationEvent) (run_id : string) (r : FoldState * bool) :
    FoldState * bool :=
  let '(s, changed) := r in
  if changed then
    (refresh_catalog_run_index_for_run s (ev_tenant_id e) (ev_workspace_id e) run_id
       (ev_timestamp e), true)
  else (s, false).

(** The [TaskCompletionRecorded] arm: a completion, then the visibility update
    it carries when the task succeeded. *)
Definition fold_task_completion (s : FoldState) (d : TaskFinishedData)
    (output_visibility : option OutputVisibilityUpdate) (event_id : string)
    (timestamp : DateTime) (tenant_id workspace_id : string) : FoldState * bool :=
  let '(s, completion_applied) :=
    fold_task_finished s d event_id timestamp tenant_id workspace_id in
  let '(s, visibility_applied) :=
    if completion_applied && bool_decide (tf_outcome d = OutSucceeded) then
      match output_visibility with
      | Some update =>
          fold_task_output_visibility_changed s (tf_run_id d) (tf_task_key d) (tf_attempt d)
            (tf_attempt_id d) (ovu_visibility_state update) (ovu_published_at update)
            (ovu_publish_error update) event_id timestamp
      | None => (s, false)
      end
    else (s, false) in
  (s, completion_applied || visibility_applied).

(** The [match &event.data] of [fold_event]. *)
Definition apply_event (s : FoldState) (e : OrchestrationEvent) : FoldState * bool :=
  let id := ev_event_id e in
  let ts := ev_timestamp e in
  let tenant := ev_tenant_id e in
  let ws := ev_workspace_id e in
  match ev_data e with
  | RunTriggered run_id plan_id _ _ run_key labels code_version =>
      refresh_if_changed e run_id
        (fold_run_triggered s run_id plan_id run_key labels code_version id ts)
  | PlanCreated run_id _ tasks =>
      refresh_if_changed e run_id (fold_plan_created s run_id tasks id ts)
  | TaskStarted run_id task_key attempt attempt_id _ =>
      refresh_if_changed e run_id
        (fold_task_started s run_id task_key attempt attempt_id ts id)
  | TaskHeartbeat run_id task_key attempt attempt_id _ heartbeat_at _ _ =>
      refresh_if_changed e run_id
        (fold_task_heartbeat s run_id task_key attempt attempt_id (default ts heartbeat_at) id)
  | TaskFinished d =>
      refresh_if_changed e (tf_run_id d) (fold_task_finished s d id ts tenant ws)
  | TaskCompletionRecorded d output_visibility =>
      refresh_if_changed e (tf_run_id d)
        (fold_task_completion s d output_visibility id ts tenant ws)
  | TaskOutputVisibilityChanged run_id task_key attempt attempt_id visibility_state published_at
      publish_error =>
      refresh_if_changed e run_id
        (fold_task_output_visibility_changed s run_id task_key attempt attempt_id visibility_state
           published_at publish_error id ts)
  | DispatchRequested run_id task_key attempt attempt_id worker_queue dispatch_id =>
      refresh_if_changed e run_id
        (fold_dispatch_requested s run_id task_key attempt attempt_id worker_queue dispatch_id id ts)
  | DispatchEnqueued dispatch_id run_id task_key attempt cloud_task_id =>
      fold_dispatch_enqueued s dispatch_id run_id task_key attempt cloud_task_id id ts
  | TimerRequested timer_id timer_type run_id task_key attempt fire_at =>
      fold_timer_requested s timer_id timer_type run_id task_key attempt fire_at id
  | TimerEnqueued timer_id run_id task_key attempt cloud_task_id =>
      fold_timer_enqueued s timer_id run_id task_key attempt cloud_task_id id
  | TimerFired timer_id timer_type run_id task_key attempt =>
      fold_timer_fired s timer_id timer_type run_id task_key attempt id
  | RunCancelRequested run_id _ _ =>
      refresh_if_changed e run_id (fold_run_cancel_requested s run_id id ts)
  | ScheduleDefinitionUpserted schedule_id cron_expression timezone catchup_window_minutes
      asset_selection code_version max_catchup_ticks enabled =>
      fold_schedule_definition_upserted s tenant ws schedule_id cron_expression timezone
        catchup_window_minutes asset_selection code_version max_catchup_ticks enabled ts id
  | ScheduleTicked schedule_id scheduled_for tick_id definition_version asset_selection
      partition_selection status run_key request_fingerprint =>
      fold_schedule_ticked s tenant ws schedule_id scheduled_for tick_id definition_version
        asset_selection partition_selection status run_key request_fingerprint id
  | SensorEvaluated sensor_id eval_id cursor_before cursor_after expected_state_version
      trigger_source run_requests status =>
      fold_sensor_evaluated s tenant ws sensor_id eval_id cursor_before cursor_after
        expected_state_version trigger_source run_requests status ts id
  | RunRequested run_key request_fingerprint _ _ trigger_source_ref _ code_version =>
      if should_drop_run_requested_for_stale_sensor_eval s trigger_source_ref then (s, false)
      else
        fold_run_requested s tenant ws run_key request_fingerprint trigger_source_ref code_version
          ts id
  | BackfillCreated backfill_id _ asset_selection code_version partition_selector total_partitions
      chunk_size max_concurrent_runs parent_backfill_id =>
      fold_backfill_created s tenant ws backfill_id asset_selection code_version
        partition_selector total_partitions chunk_size max_concurrent_runs parent_backfill_id ts id
  | BackfillChunkPlanned backfill_id chunk_id chunk_index partition_keys run_key _ =>
      fold_backfill_chunk_planned s tenant ws backfill_id chunk_id chunk_index partition_keys
        run_key id
  | BackfillStateChanged backfill_id from_state to_state state_version _ =>
      fold_backfill_state_changed s backfill_id from_state to_state state_version id
  | UnknownEvent => (s, false)
  end.

Definition fold_event (s : FoldState) (e : OrchestrationEvent) : FoldState :=
  match fs_idempotency_keys s !! ev_idempotency_key e with
  | Some _ => s
  | None =>
      let '(s, applied) := apply_event s e in
      if applied then record_idempotency_key s e else s
  end.

(** A batch of events, in ledger order. *)
Definition fold_events (s : FoldState) (es : list OrchestrationEvent) : FoldState :=
  fold_left fold_event es s.
End Fold.

(** ** Queries and graph rebuilding *)

Definition ready_tasks (s : FoldState) : list TaskRow :=
  List.filter (fun t => bool_decide (tk_state t = TsReady)) (snd <$> map_to_list (fs_tasks s)).

Definition get_dependents (s : FoldState) (run_id task_key : string) : list string :=
  default [] (fs_task_dependents s !! (run_id, task_key)).

(** [if !v.contains(x) { v.push(x) }] on the entry of [key]. *)
Definition push_entry_unique (key : string * string) (x : string)
    (m : gmap (string * string) (list string)) : gmap (string * string) (list string) :=
  let v := default [] (m !! key) in
  <[key := if decide (x ∈ v) then v else v ++ [x]]> m.

Definition rebuild_edge (s : FoldState) (edge : DepSatisfactionRow) : FoldState :=
  let upstream_key := (dp_run_id edge, dp_upstream_task_key edge) in
  let downstream_key := (dp_run_id edge, dp_downstream_task_key edge) in
  let s := s <| fs_task_dependencies :=
                  push_entry_unique downstream_key (dp_upstream_task_key edge)
                    (fs_task_dependencies s) |> in
  s <| fs_task_dependents :=
         push_entry_unique upstream_key (dp_downstream_task_key edge) (fs_task_dependents s) |>.

Definition rebuild_dependency_graph (s : FoldState) : FoldState :=
  let s := s <| fs_task_dependencies := ∅ |> <| fs_task_dependents := ∅ |> in
  let s := s <| fs_task_dependencies :=
                  fold_left (fun m key => <[key := default [] (m !! key)]> m)
                    (fst <$> map_to_list (fs_tasks s)) (fs_task_dependencies s) |> in
  fold_left rebuild_edge (snd <$> map_to_list (fs_dep_satisfaction s)) s.
