(* ===== verification/FoldIdempotence.v ===== *)
(** What handlers leave alone, and that duplicate events are no-ops.

    The handlers of runs, tasks, dispatches and timers touch none of the tables of
    schedules, sensors, backfills, run keys and idempotency keys ([rest]).  A handler
    that refuses an event leaves a state it refuses again, and a handler that applies one
    has its key claimed: folding the same event twice is folding it once, and a claimed
    key stays claimed whatever is folded afterwards. *)

From S2P Require Import Prelude Events FoldTypes FoldTasks FoldDispatch FoldAutomation Fold.
From stdpp Require Import options.

(** The tables the run and task handlers do not own. *)
Definition rest (s : FoldState) :=
  (fs_schedule_definitions s, fs_schedule_state s, fs_schedule_ticks s, fs_sensor_state s,
   fs_sensor_evals s, fs_backfills s, fs_backfill_chunks s, fs_run_key_index s,
   fs_run_key_conflicts s, fs_idempotency_keys s, fs_tenant_secret s).

(** ** Frames *)

Lemma fold_left_preserves {S A X} (f : S -> A -> S) (g : S -> X) (l : list A) (s : S) :
  (forall s a, g (f s a) = g s) -> g (fold_left f l s) = g s.
Proof. intros Hf. revert s. induction l as [|a l IH]; intros s; simpl; [done|]. by rewrite IH. Qed.

Section Frame.
Context `{Hashes} `{Chrono} `{SerdeJson}.

Lemma rest_propagate_edge run_id up res id ts sq d :
  rest (propagate_edge run_id up res id ts sq d).1 = rest sq.1.
Proof.
  destruct sq as [s q]. unfold propagate_edge, modify_run.
  destruct (propagated res). simpl. by repeat case_match.
Qed.

Lemma rest_propagate_loop n run_id id ts s q :
  rest (propagate_loop n run_id id ts s q) = rest s.
Proof.
  revert s q. induction n as [|n IH]; intros s [|[u r] q]; try done. simpl.
  destruct (propagate_node _ _ _ _ _ _ _) as [s' q'] eqn:E. rewrite IH.
  change s' with ((s', q').1). rewrite <- E. unfold propagate_node.
  rewrite (fold_left_preserves _ (fun sq => rest sq.1)); [done|].
  intros. apply rest_propagate_edge.
Qed.

Lemma rest_satisfy s run_id up res att id ts :
  rest (satisfy_downstream_edges s run_id up res att id ts) = rest s.
Proof.
  apply (fold_left_preserves _ rest). intros s' d. unfold satisfy_edge, modify_task.
  by case_match.
Qed.

Lemma rest_propagate_failure s run_id k res id ts :
  rest (propagate_failure s run_id k res id ts) = rest s.
Proof. apply rest_propagate_loop. Qed.

Lemma rest_partition_materialization s t w ak pk r cv dt dv dpa lr ts id :
  rest (update_partition_materialization s t w ak pk r cv dt dv dpa lr ts id) = rest s.
Proof. unfold update_partition_materialization. by case_match. Qed.

Lemma rest_partition_attempt s t w ak pk r out ts id :
  rest (update_partition_attempt s t w ak pk r out ts id) = rest s.
Proof. unfold update_partition_attempt. by case_match. Qed.

Lemma rest_finish_downstream s d md pk ns id ts t w :
  rest (finish_downstream s d md pk ns id ts t w) = rest s.
Proof.
  unfold finish_downstream.
  repeat case_match; by rewrite ?rest_propagate_failure, ?rest_partition_materialization, ?rest_satisfy.
Qed.

Lemma rest_fold_task_finished s d id ts t w :
  rest (fold_task_finished s d id ts t w).1 = rest s.
Proof.
  unfold fold_task_finished.
  repeat case_match; cbn [fst]; by rewrite ?rest_partition_attempt, ?rest_finish_downstream.
Qed.

Lemma rest_fold_visibility s r k a aid v p pe id ts :
  rest (fold_task_output_visibility_changed s r k a aid v p pe id ts).1 = rest s.
Proof. unfold fold_task_output_visibility_changed. by repeat case_match. Qed.

Lemma rest_fold_task_completion s d ov id ts t w :
  rest (fold_task_completion s d ov id ts t w).1 = rest s.
Proof.
  unfold fold_task_completion.
  destruct (fold_task_finished s d id ts t w) as [s1 b] eqn:E.
  assert (rest s1 = rest s) as Hs1.
  { change s1 with ((s1, b).1). rewrite <- E. apply rest_fold_task_finished. }
  destruct (b && _); [|by simpl]. destruct ov; [|by simpl].
  destruct (fold_task_output_visibility_changed s1 _ _ _ _ _ _ _ _ _) as [s2 b2] eqn:E2. simpl.
  rewrite <- Hs1. change s2 with ((s2, b2).1). rewrite <- E2. apply rest_fold_visibility.
Qed.

Lemma rest_modify_run r f s : rest (modify_run r f s) = rest s.
Proof. done. Qed.

Lemma rest_fold_run_cancel_requested s run_id id ts :
  rest (fold_run_cancel_requested s run_id id ts).1 = rest s.
Proof.
  unfold fold_run_cancel_requested. case_match; cbn [fst]; [done|].
  by rewrite rest_modify_run, (fold_left_preserves _ rest).
Qed.

Lemma rest_fold_plan_created s run_id tasks id ts :
  rest (fold_plan_created s run_id tasks id ts).1 = rest s.
Proof.
  unfold fold_plan_created. case_match; cbn [fst]; [done|].
  by rewrite !(fold_left_preserves _ rest).
Qed.

Lemma rest_dispatch_task s run_id k a aid id :
  rest (dispatch_task s run_id k a aid id).1 = rest s.
Proof. unfold dispatch_task. by repeat case_match. Qed.

Lemma rest_fold_dispatch_requested s r k a aid wq did id ts :
  rest (fold_dispatch_requested s r k a aid wq did id ts).1 = rest s.
Proof.
  unfold fold_dispatch_requested. case_match; [done|].
  destruct (fs_dispatch_outbox s !! did) as [x|].
  - destruct (complete_outbox_row aid wq x) as [x' c].
    match goal with |- context [dispatch_task ?st ?a ?b ?c ?d ?e] =>
      pose proof (rest_dispatch_task st a b c d e) as HK;
      destruct (dispatch_task st a b c d e) as [s1 b1] end. simpl in *. done.
  - pose proof (rest_dispatch_task s r k a aid id) as HK.
    destruct (dispatch_task s r k a aid id) as [s1 b1]. by simpl in *.
Qed.

Lemma rest_fold_timer_requested s tid ty r k a fa id :
  rest (fold_timer_requested s tid ty r k a fa id).1 = rest s.
Proof.
  unfold fold_timer_requested, set_retry_not_before. case_match.
  all: try destruct (complete_timer_row _ _ _ _ _); repeat case_match; simplify_eq/=; done.
Qed.

Lemma rest_refresh s o w r ts : rest (refresh_catalog_run_index_for_run s o w r ts) = rest s.
Proof. unfold refresh_catalog_run_index_for_run. by case_match. Qed.

Lemma rest_refresh_if_changed e r x : rest (refresh_if_changed e r x).1 = rest x.1.
Proof. destruct x as [s [|]]; simpl; [apply rest_refresh|done]. Qed.

(** The events of the automation layer. *)
Definition automation_event (d : OrchestrationEventData) : bool :=
  match d with
  | ScheduleDefinitionUpserted _ _ _ _ _ _ _ _ | ScheduleTicked _ _ _ _ _ _ _ _ _
  | SensorEvaluated _ _ _ _ _ _ _ _ | RunRequested _ _ _ _ _ _ _
  | BackfillCreated _ _ _ _ _ _ _ _ _ | BackfillChunkPlanned _ _ _ _ _ _
  | BackfillStateChanged _ _ _ _ _ => true
  | _ => false
  end.

Lemma rest_apply_event s e :
  automation_event (ev_data e) = false -> rest (apply_event s e).1 = rest s.
Proof.
  unfold apply_event. destruct (ev_data e); try done; intros _.
  all: rewrite ?rest_refresh_if_changed, ?rest_fold_plan_created, ?rest_fold_run_cancel_requested,
    ?rest_fold_task_finished, ?rest_fold_task_completion, ?rest_fold_visibility,
    ?rest_fold_dispatch_requested, ?rest_fold_timer_requested; try done.
  - unfold fold_run_triggered. by case_match.
  - unfold fold_task_started, prune_dispatch_outbox_row. by repeat case_match.
  - unfold fold_task_heartbeat. by repeat case_match.
  - unfold fold_dispatch_enqueued, upsert_enqueued. by repeat case_match.
  - unfold fold_timer_enqueued. by repeat case_match.
  - unfold fold_timer_fired. by repeat case_match.
Qed.
End Frame.

(** ** Duplicates *)

Section Idempotence.
Context `{Hashes} `{Chrono} `{SerdeJson}.

Abbreviation keys := fs_idempotency_keys.

Lemma keys_fold_sensor_evaluated s t w sid eid cb ca esv src rrs st ts id :
  keys (fold_sensor_evaluated s t w sid eid cb ca esv src rrs st ts id).1 = keys s.
Proof.
  unfold fold_sensor_evaluated, upsert_sensor_eval. simpl.
  repeat (case_match; simplify_eq/=; try done).
Qed.

(** No handler touches the idempotency index: only [fold_event] itself does. *)
Lemma keys_apply_event s e : keys (apply_event s e).1 = keys s.
Proof.
  destruct (automation_event (ev_data e)) eqn:Ea.
  2:{ by injection (rest_apply_event s e Ea). }
  unfold apply_event. destruct (ev_data e); try done.
  - unfold fold_schedule_definition_upserted. by repeat case_match.
  - unfold fold_schedule_ticked. by repeat case_match.
  - apply keys_fold_sensor_evaluated.
  - unfold fold_run_requested, correlate_run_to_source. by repeat case_match.
  - unfold fold_backfill_created. by repeat case_match.
  - unfold fold_backfill_chunk_planned. by repeat case_match.
  - unfold fold_backfill_state_changed. by repeat case_match.
Qed.

(** ** A refusing handler refuses again *)

Lemma refresh_refused e r x s' :
  refresh_if_changed e r x = (s', false) -> x = (s', false).
Proof. destruct x as [s [|]]; simpl; congruence. Qed.

Lemma finished_refused s d id ts t w s' :
  fold_task_finished s d id ts t w = (s', false) -> s' = s.
Proof. unfold fold_task_finished. repeat case_match; congruence. Qed.

Lemma completion_refused s d ov id ts t w s' :
  fold_task_completion s d ov id ts t w = (s', false) ->
  fold_task_finished s d id ts t w = (s', false).
Proof.
  unfold fold_task_completion.
  destruct (fold_task_finished s d id ts t w) as [s1 [|]]; simpl.
  - destruct (bool_decide _); [destruct ov|]; try done. by case_match.
  - by intros [= ->].
Qed.

Lemma plan_refused s run_id tasks id ts s' :
  fold_plan_created s run_id tasks id ts = (s', false) -> s' = s.
Proof.
  unfold fold_plan_created. case_match; [congruence|]. intros [= <- Hc]. bool_hyps.
  subst. simpl. apply modify_run_None. by apply eq_None_not_Some.
Qed.

Lemma cancel_refused s run_id id ts s' :
  fold_run_cancel_requested s run_id id ts = (s', false) -> s' = s.
Proof.
  unfold fold_run_cancel_requested. case_match; [congruence|]. intros [= <- Hc]. bool_hyps.
  assert (fs_runs s !! run_id = None) as Hr by (by apply eq_None_not_Some).
  rewrite (modify_run_None _ (request_cancel id)) in * by done.
  match goal with H : tasks_to_cancel _ _ = [] |- _ => rewrite H end. simpl.
  by apply modify_run_None.
Qed.

Lemma dispatch_task_refused s r k a aid id s' :
  dispatch_task s r k a aid id = (s', false) -> s' = s.
Proof. unfold dispatch_task. repeat case_match; congruence. Qed.

Lemma complete_outbox_unchanged aid wq x x' :
  complete_outbox_row aid wq x = (x', false) -> x' = x.
Proof. unfold complete_outbox_row. repeat case_match; simplify_eq/=; congruence. Qed.

Lemma set_outbox_id s did x :
  fs_dispatch_outbox s !! did = Some x ->
  s <| fs_dispatch_outbox := <[did := x]> (fs_dispatch_outbox s) |> = s.
Proof. intros Hx. destruct s; simpl in *. by rewrite insert_id. Qed.

Lemma dispatch_requested_refused s r k a aid wq did id ts s' :
  fold_dispatch_requested s r k a aid wq did id ts = (s', false) ->
  s' = s \/ (dispatch_attempt_consumed s r k a = true /\
             s' = prune_dispatch_outbox_row s r k a).
Proof.
  unfold fold_dispatch_requested. case_match; [intros [= <-]; by right|].
  destruct (fs_dispatch_outbox s !! did) as [x|] eqn:Hx; [|by case_match].
  destruct (complete_outbox_row aid wq x) as [x' c] eqn:Ec.
  destruct (dispatch_task _ _ _ _ _ _) as [s1 b1] eqn:Ed. intros [= <- Hc]. bool_hyps. subst.
  apply dispatch_task_refused in Ed as ->. apply complete_outbox_unchanged in Ec as ->.
  left. by apply set_outbox_id.
Qed.

Lemma upsert_enqueued_refused s did r k a c id ts s' :
  upsert_enqueued s did r k a c id ts = (s', false) -> s' = s.
Proof. unfold upsert_enqueued. repeat case_match; congruence. Qed.

Lemma fill_unchanged {A} (x y v : option A) : fill x y = (v, false) -> v = x.
Proof.
  destruct x; simpl; [congruence|]. intros [= <- Hy]. bool_hyps. by apply eq_None_not_Some.
Qed.

Lemma complete_timer_unchanged r k a fa x x' :
  complete_timer_row r k a fa x = (x', false) -> x' = x.
Proof.
  unfold complete_timer_row. simpl.
  destruct (fill (ti_run_id x) r) as [v1 c1] eqn:E1, (fill (ti_task_key x) k) as [v2 c2] eqn:E2,
    (fill (ti_attempt x) a) as [v3 c3] eqn:E3. intros [= <- Hc]. bool_hyps. subst.
  apply fill_unchanged in E1 as ->, E2 as ->, E3 as ->.
  match goal with H : (_ =? _)%Z = true |- _ => apply Z.eqb_eq in H as <- end.
  by destruct x.
Qed.

Lemma set_timer_id s tid x :
  fs_timers s !! tid = Some x -> s <| fs_timers := <[tid := x]> (fs_timers s) |> = s.
Proof. intros Hx. destruct s; simpl in *. by rewrite insert_id. Qed.

Lemma set_retry_refused s r k a fa id s' :
  set_retry_not_before s r k a fa id = (s', false) -> s' = s.
Proof. unfold set_retry_not_before. repeat case_match; congruence. Qed.

Lemma timer_requested_refused s tid ty r k a fa id s' :
  fold_timer_requested s tid ty r k a fa id = (s', false) -> s' = s.
Proof.
  unfold fold_timer_requested. destruct (fs_timers s !! tid) as [x|] eqn:Hx.
  - destruct (complete_timer_row r k a fa x) as [x' c] eqn:Ec.
    case_match; [destruct (set_retry_not_before _ _ _ _ _ _) as [s1 b] eqn:Er|];
      intros [= <- Hc]; bool_hyps; subst; apply complete_timer_unchanged in Ec as ->;
      rewrite ?(set_timer_id _ _ _ Hx) in *.
    + by apply set_retry_refused in Er.
    + apply (set_timer_id _ _ _ Hx).
  - case_match; [destruct (set_retry_not_before _ _ _ _ _ _) as [s1 b]|]; by simpl.
Qed.

(** The schedule's state row may be created by a tick it then ignores, so the
    refused state is a fixed point rather than the original. *)
Lemma schedule_ticked_refused s t w sid sf tid dv asel psel st rk fp id s' :
  fold_schedule_ticked s t w sid sf tid dv asel psel st rk fp id = (s', false) ->
  fold_schedule_ticked s' t w sid sf tid dv asel psel st rk fp id = (s', false).
Proof.
  unfold fold_schedule_ticked. simpl.
  destruct (str_ltb _ id) eqn:Hlt.
  - case_match; congruence.
  - destruct (option_bool _ (fs_schedule_ticks s !! tid)) eqn:Hdup; [|congruence].
    intros [= <-]. simpl. rewrite lookup_insert_eq. simpl. rewrite Hlt, Hdup.
    by rewrite insert_insert_eq.
Qed.

Lemma sensor_evaluated_refused s t w sid eid cb ca esv src rrs st ts id s' :
  fold_sensor_evaluated s t w sid eid cb ca esv src rrs st ts id = (s', false) ->
  fold_sensor_evaluated s' t w sid eid cb ca esv src rrs st ts id = (s', false).
Proof.
  unfold fold_sensor_evaluated, upsert_sensor_eval. simpl.
  set (row := default _ (fs_sensor_state s !! sid)).
  destruct (option_bool _ (fs_sensor_evals s !! eid)) eqn:Hev; simpl.
  - destruct (eval_is_stale esv (se_state_version row)) eqn:Hst.
    + intros [= <-]. simpl. rewrite lookup_insert_eq. simpl. rewrite Hst, Hev.
      by rewrite insert_insert_eq.
    + destruct (str_leb id (se_row_version row)) eqn:Hle; [|congruence].
      intros [= <-]. simpl. rewrite lookup_insert_eq. simpl. rewrite Hst, Hev, Hle.
      by rewrite insert_insert_eq.
  - repeat case_match; congruence.
Qed.

(** A state that refuses an event is a fixed point of it. *)
Lemma apply_event_refused s e s' :
  apply_event s e = (s', false) -> apply_event s' e = (s', false).
Proof.
  unfold apply_event. destruct (ev_data e); intros Hs.
  all: try apply refresh_refused in Hs.
  - rewrite <- (eq_refl : refresh_if_changed e run_id (s', false) = (s', false)). f_equal.
    unfold fold_run_triggered in *. repeat case_match; congruence.
  - pose proof Hs as Hs'. apply plan_refused in Hs as ->. by rewrite Hs'.
  - pose proof Hs as Hs'. apply cancel_refused in Hs as ->. by rewrite Hs'.
  - assert (s' = s) as -> by (unfold fold_task_started in Hs; repeat case_match; congruence).
    by rewrite Hs.
  - assert (s' = s) as -> by (unfold fold_task_heartbeat in Hs; repeat case_match; congruence).
    by rewrite Hs.
  - pose proof Hs as Hs'. apply finished_refused in Hs as ->. by rewrite Hs'.
  - pose proof Hs as Hs'. apply completion_refused, finished_refused in Hs as ->. by rewrite Hs'.
  - assert (s' = s) as -> by
      (unfold fold_task_output_visibility_changed in Hs; repeat case_match; congruence).
    by rewrite Hs.
  - pose proof Hs as Hs'. apply dispatch_requested_refused in Hs as [->|[Hc ->]];
      [by rewrite Hs'|].
    unfold fold_dispatch_requested, dispatch_attempt_consumed, prune_dispatch_outbox_row in *.
    simpl. rewrite Hc. by rewrite delete_delete_eq.
  - pose proof Hs as Hs'. apply timer_requested_refused in Hs as ->. done.
  - unfold fold_dispatch_enqueued in *.
    destruct run_id as [r|], task_key as [k|], attempt as [a|];
      try (by pose proof Hs as Hs'; apply upsert_enqueued_refused in Hs as ->).
    destruct (dispatch_attempt_consumed s r k a) eqn:Hc.
    + injection Hs as <-. unfold dispatch_attempt_consumed, prune_dispatch_outbox_row in *.
      simpl. rewrite Hc. by rewrite delete_delete_eq.
    + pose proof Hs as Hs'. apply upsert_enqueued_refused in Hs as ->. by rewrite Hc.
  - assert (s' = s) as -> by (unfold fold_timer_enqueued in Hs; repeat case_match; congruence).
    done.
  - assert (s' = s) as -> by (unfold fold_timer_fired in Hs; repeat case_match; congruence).
    done.
  - assert (s' = s) as -> by
      (unfold fold_schedule_definition_upserted in Hs; repeat case_match; congruence).
    done.
  - by apply schedule_ticked_refused in Hs.
  - by apply sensor_evaluated_refused in Hs.
  - destruct (should_drop_run_requested_for_stale_sensor_eval s _) eqn:Hd.
    + injection Hs as <-. by rewrite Hd.
    + unfold fold_run_requested in Hs. repeat case_match; congruence.
  - assert (s' = s) as -> by (unfold fold_backfill_created in Hs; repeat case_match; congruence).
    done.
  - assert (s' = s) as -> by
      (unfold fold_backfill_chunk_planned in Hs; repeat case_match; congruence).
    done.
  - assert (s' = s) as -> by
      (unfold fold_backfill_state_changed in Hs; repeat case_match; congruence).
    done.
  - by injection Hs as <-.
Qed.

(** ** Folding twice *)

Lemma record_claims s e : is_Some (keys (record_idempotency_key s e) !! ev_idempotency_key e).
Proof.
  unfold record_idempotency_key. case_match eqn:Hk; simpl; [by rewrite Hk|].
  rewrite lookup_insert_eq. eauto.
Qed.

Lemma fold_event_claimed s e :
  is_Some (keys s !! ev_idempotency_key e) -> fold_event s e = s.
Proof. intros [r Hr]. unfold fold_event. by rewrite Hr. Qed.

(** An event is claimed once its handler has applied it. *)
Definition claimed (s : FoldState) (e : OrchestrationEvent) : Prop :=
  is_Some (keys s !! ev_idempotency_key e).

(** Folding an event claims its own key at most. *)
Lemma fold_event_key_other s e k :
  ev_idempotency_key e <> k -> fs_idempotency_keys (fold_event s e) !! k = fs_idempotency_keys s !! k.
Proof.
  intros Hne. unfold fold_event. case_match; [done|].
  assert (fs_idempotency_keys (apply_event s e).1 = fs_idempotency_keys s) as Hk by apply keys_apply_event.
  destruct (apply_event s e) as [s1 [|]]; simpl in Hk; [|by rewrite Hk].
  unfold record_idempotency_key. rewrite Hk. case_match; [by rewrite Hk|]. simpl.
  by rewrite lookup_insert_ne.
Qed.

Lemma fold_events_key_other s es k :
  (forall e, e ∈ es -> ev_idempotency_key e <> k) ->
  fs_idempotency_keys (fold_events s es) !! k = fs_idempotency_keys s !! k.
Proof.
  revert s. induction es as [|e es IH]; intros s Hes; [done|]. simpl.
  rewrite IH by (intros e' He'; apply Hes; by apply list_elem_of_further).
  apply fold_event_key_other, Hes, list_elem_of_here.
Qed.

Lemma fold_event_keys_mono s e k r :
  keys s !! k = Some r -> keys (fold_event s e) !! k = Some r.
Proof.
  intros Hk. unfold fold_event. case_match eqn:He; [done|].
  pose proof (keys_apply_event s e) as Ha. destruct (apply_event s e) as [s1 b]. simpl in Ha.
  destruct b; [|by rewrite Ha]. unfold record_idempotency_key. rewrite Ha, He. simpl.
  rewrite ?Ha, lookup_insert_ne by congruence. done.
Qed.

Lemma fold_events_keys_mono s es k r :
  keys s !! k = Some r -> keys (fold_events s es) !! k = Some r.
Proof.
  revert s. induction es as [|e es IH]; intros s Hk; [done|]. simpl.
  by apply IH, fold_event_keys_mono.
Qed.

(** C1: folding an event twice in a row is folding it once, for every event and
    every state, whether the handler applied the event or refused it. *)
Theorem fold_event_idempotent s e : fold_event (fold_event s e) e = fold_event s e.
Proof.
  unfold fold_event at 2 3. destruct (keys s !! ev_idempotency_key e) eqn:Hk.
  { apply fold_event_claimed. eauto. }
  pose proof (keys_apply_event s e) as Ha.
  destruct (apply_event s e) as [s1 [|]] eqn:Es; simpl in Ha.
  - apply fold_event_claimed, record_claims.
  - unfold fold_event. rewrite Ha, Hk. by rewrite (apply_event_refused _ _ _ Es).
Qed.

(** At-most-once application.  Once an event's key is claimed, folding that
    event (or any event carrying the same key) again is a no-op, after any number
    of other events: redelivery at any later point changes nothing. *)
Theorem fold_event_at_most_once s e es e' :
  claimed s e -> ev_idempotency_key e' = ev_idempotency_key e ->
  fold_event (fold_events s es) e' = fold_events s es.
Proof.
  intros [r Hr] Hkey. apply fold_event_claimed. rewrite Hkey. exists r.
  by apply fold_events_keys_mono.
Qed.
End Idempotence.
