(* ===== verification/FoldMachine.v ===== *)
(** The abstract machine behind the fold.

    [micro] is the list of things an event can do to runs, tasks and dependency
    edges, each with the guard the code checks; every handler is a sequence of
    such steps ([apply_event_micro]).  Invariants are then proved once per step
    and hold for every event.  [task_step] is the state machine of one task. *)

From stdpp Require Import relations.
From S2P Require Import Prelude Events FoldTypes FoldTasks FoldDispatch FoldAutomation Fold.
From stdpp Require Import options.

(** ** The parts of the state the machine is about *)

Record same_core (s s' : FoldState) : Prop := {
  sc_runs : fs_runs s' = fs_runs s;
  sc_tasks : fs_tasks s' = fs_tasks s;
  sc_deps : fs_dep_satisfaction s' = fs_dep_satisfaction s;
  sc_dependents : fs_task_dependents s' = fs_task_dependents s
}.

Lemma same_core_refl s : same_core s s.
Proof. by split. Qed.

#[export] Hint Resolve same_core_refl : arco.

(** What an update of a task row may not touch: its identity and its
    dependency counters. *)
Record same_identity (t t' : TaskRow) : Prop := {
  si_run_id : tk_run_id t' = tk_run_id t;
  si_task_key : tk_task_key t' = tk_task_key t;
  si_deps_total : tk_deps_total t' = tk_deps_total t;
  si_deps_satisfied : tk_deps_satisfied_count t' = tk_deps_satisfied_count t
}.

(** The states an attempt moves through while the task is alive. *)
Definition attempt_state (st : TaskState) : bool :=
  match st with TsDispatched | TsRunning | TsRetryWait => true | _ => false end.

(** A task's state and attempt number, as an event may move them. *)
Inductive task_step : TaskState * u32 -> TaskState * u32 -> Prop :=
  (** the last dependency is satisfied *)
  | step_ready a : task_step (TsBlocked, a) (TsReady, a)
  (** dispatch of a ready task, of a later attempt after a failure, or again *)
  | step_dispatch st a a' :
      st = TsReady \/ st = TsRetryWait \/ st = TsDispatched -> (a <= a')%N ->
      (st = TsRetryWait -> (a < a')%N) ->
      task_step (st, a) (TsDispatched, a')
  (** a worker starts the same attempt or a later one *)
  | step_start st a a' :
      task_is_terminal st = false -> (a <= a')%N -> task_step (st, a) (TsRunning, a')
  (** the attempt fails and another one is left *)
  | step_retry st a : task_is_terminal st = false -> task_step (st, a) (TsRetryWait, a)
  (** success, failure, skip or cancellation of the current attempt *)
  | step_end st a st' :
      task_is_terminal st = false -> task_is_terminal st' = true -> task_step (st, a) (st', a).

Definition lifecycle (t : TaskRow) : TaskState * u32 := (tk_state t, tk_attempt t).

(** The output of a succeeded task is visible, or its publication failed. *)
Definition output_settled (t : TaskRow) : bool :=
  bool_decide (tk_state t = TsSucceeded) &&
  match tk_output_visibility_state t with Some VisVisible | Some VisFailed => true | _ => false end.

(** An update that keeps the task's state, or moves a live task between attempt
    states; a settled output stays as it is. *)
Definition task_update (t t' : TaskRow) : Prop :=
  same_identity t t' /\
  (lifecycle t' = lifecycle t \/
   (task_step (lifecycle t) (lifecycle t') /\ attempt_state (tk_state t') = true)) /\
  (output_settled t = true -> tk_output_visibility_state t' = tk_output_visibility_state t).

Lemma output_settled_terminal t : output_settled t = true -> task_is_terminal (tk_state t) = true.
Proof. unfold output_settled. intros H. bool_hyps. by rewrite H. Qed.

Lemma task_step_spec x y :
  task_step x y -> task_is_terminal x.1 = false /\ (x.2 <= y.2)%N.
Proof.
  destruct 1 as [a|st a a' Hst Hle Hr|st a a' Hl Hle|st a Hl|st a st' Hl Ht]; simpl;
    (split; [try done|lia]). by destruct Hst as [-> | [-> | ->]].
Qed.

Lemma task_update_spec t t' :
  task_update t t' ->
  (tk_state t' = tk_state t /\ tk_attempt t' = tk_attempt t) \/
  (task_is_terminal (tk_state t) = false /\ attempt_state (tk_state t') = true /\
   (tk_attempt t <= tk_attempt t')%N).
Proof.
  intros (_ & [E|[Hs Ha]] & _); [left; by injection E|right].
  by destruct (task_step_spec _ _ Hs).
Qed.

(** A live task becomes terminal, within its attempt. *)
Record finishes (t t' : TaskRow) : Prop := {
  fin_identity : same_identity t t';
  fin_live : task_is_terminal (tk_state t) = false;
  fin_terminal : task_is_terminal (tk_state t') = true;
  fin_attempt : tk_attempt t' = tk_attempt t
}.

(** The two ways a run's counters follow a task that became terminal. *)
Definition run_bump (new_state : TaskState) (f : RunRow -> RunRow) : Prop :=
  (exists id ts, f = finished_run_row new_state id ts) \/
  ((new_state = TsSkipped \/ new_state = TsCancelled) /\
   exists id ts, f = propagated_run_row new_state id ts).

(** Plans the planner emits: distinct task keys, distinct dependencies, sizes
    that fit a [u32]. *)
Definition plan_wf (defs : list TaskDef) : Prop :=
  NoDup (td_key <$> defs) /\ (N.of_nat (length defs) < u32_modulus)%N /\
  Forall (fun d => NoDup (td_depends_on d) /\
                   (N.of_nat (length (td_depends_on d)) < u32_modulus)%N) defs.

Definition event_wf (e : OrchestrationEvent) : Prop :=
  match ev_data e with
  | PlanCreated _ _ defs => plan_wf defs
  | _ => True
  end.

#[export] Instance plan_wf_dec defs : Decision (plan_wf defs).
Proof. unfold plan_wf. apply _. Defined.

#[export] Instance event_wf_dec e : Decision (event_wf e).
Proof. unfold event_wf. destruct (ev_data e); apply _. Defined.

Definition set_task (s : FoldState) (key : string * string) (t : TaskRow) : FoldState :=
  s <| fs_tasks := <[key := t]> (fs_tasks s) |>.

Definition set_edge (s : FoldState) (key : string * string * string) (e : DepSatisfactionRow) :
    FoldState :=
  s <| fs_dep_satisfaction := <[key := e]> (fs_dep_satisfaction s) |>.

(** ** Steps *)

Inductive micro : FoldState -> FoldState -> Prop :=
  (** tables outside the machine *)
  | micro_frame s s' : same_core s s' -> micro s s'
  (** a task row changes without becoming terminal *)
  | micro_task s key t t' :
      fs_tasks s !! key = Some t -> task_update t t' -> micro s (set_task s key t')
  (** a live task ends without success and its run counts it *)
  | micro_finish s key t t' f :
      fs_tasks s !! key = Some t -> finishes t t' -> tk_state t' <> TsSucceeded ->
      run_bump (tk_state t') f ->
      micro s (modify_run key.1 f (set_task s key t'))
  (** a live task succeeds, its run counts it and the edges out of it are
      satisfied *)
  | micro_succeed s run_id up t t' f att id ts :
      fs_tasks s !! (run_id, up) = Some t -> finishes t t' -> tk_state t' = TsSucceeded ->
      run_bump (tk_state t') f ->
      micro s (satisfy_downstream_edges (modify_run run_id f (set_task s (run_id, up) t'))
                 run_id up DepSuccess att id ts)
  (** an edge out of a task that did not succeed is resolved *)
  | micro_unsatisfy s run_id up t d res id ts :
      fs_tasks s !! (run_id, up) = Some t -> tk_state t <> TsSucceeded ->
      d ∈ dependents s run_id up ->
      micro s (set_edge s (run_id, up, d) (unsatisfied_edge_row run_id up d res id ts))
  (** whole handlers *)
  | micro_trigger s run_id plan_id run_key labels cv id ts :
      micro s (fold_run_triggered s run_id plan_id run_key labels cv id ts).1
  | micro_plan s run_id defs id ts :
      plan_wf defs -> micro s (fold_plan_created s run_id defs id ts).1
  | micro_cancel s run_id id ts :
      micro s (fold_run_cancel_requested s run_id id ts).1.

#[export] Hint Constructors micro : arco.

Abbreviation steps := (rtc micro).

Lemma steps_frame s s' : same_core s s' -> steps s s'.
Proof. intros. by apply rtc_once, micro_frame. Qed.

Lemma steps_task s key t t' :
  fs_tasks s !! key = Some t -> task_update t t' -> steps s (set_task s key t').
Proof. intros. eapply rtc_once, micro_task; eauto. Qed.

#[export] Hint Resolve steps_frame steps_task rtc_refl : arco.

(** ** Failure propagation as steps *)

(** What the queue of [propagate_failure] holds: tasks that did not succeed. *)
Definition queue_ok (s : FoldState) (run_id : string) (q : list (string * DepResolution)) : Prop :=
  Forall (fun kr => exists t, fs_tasks s !! (run_id, kr.1) = Some t /\
                    task_is_terminal (tk_state t) = true /\ tk_state t <> TsSucceeded) q.

Lemma queue_ok_mono s s' run_id q :
  (forall k t, fs_tasks s !! k = Some t -> task_is_terminal (tk_state t) = true ->
               fs_tasks s' !! k = Some t) ->
  queue_ok s run_id q -> queue_ok s' run_id q.
Proof.
  intros Hmono Hq. eapply Forall_impl; [exact Hq|].
  intros [k r] (t & Ht & Hterm & Hns). eauto.
Qed.

Lemma propagated_not_succeeded res :
  task_is_terminal (propagated res).1 = true /\ (propagated res).1 <> TsSucceeded /\
  ((propagated res).1 = TsSkipped \/ (propagated res).1 = TsCancelled).
Proof. by destruct res; simpl; auto. Qed.

(** One visited edge: two steps at most, the queue stays sound, terminal tasks
    and the graph are untouched. *)
Lemma propagate_edge_steps run_id up res id ts s q d s' q' :
  d ∈ dependents s run_id up ->
  queue_ok s run_id ((up, res) :: q) ->
  propagate_edge run_id up res id ts (s, q) d = (s', q') ->
  steps s s' /\ queue_ok s' run_id ((up, res) :: q') /\
  fs_task_dependents s' = fs_task_dependents s.
Proof.
  intros Hd Hq. pose proof (Forall_inv Hq) as (tu & Hu & Htu & Hns). simpl in Hu.
  unfold propagate_edge. simpl.
  assert (steps s (set_edge s (run_id, up, d) (unsatisfied_edge_row run_id up d res id ts))) as Hs1.
  { by eapply rtc_once, micro_unsatisfy. }
  destruct (fs_tasks s !! (run_id, d)) as [t|] eqn:Ht; [|by intros [= <- <-]].
  destruct (task_is_terminal (tk_state t)) eqn:Hterm; [by intros [= <- <-]|].
  pose proof (propagated_not_succeeded res) as (Hp1 & Hp2 & Hp3).
  destruct (propagated res) as [new_state next]. simpl in Hp1, Hp2, Hp3. intros [= <- <-].
  set (t' := t <| tk_state := new_state |> <| tk_row_version := id |>). split_and!.
  - eapply rtc_r; [exact Hs1|].
    refine (micro_finish (set_edge s _ _) (run_id, d) t t' (propagated_run_row new_state id ts)
              _ _ _ _); try done.
    right. eauto.
  - change ((up, res) :: q ++ [(d, next)]) with (((up, res) :: q) ++ [(d, next)]).
    apply Forall_app. split.
    + revert Hq. apply queue_ok_mono. intros k tk Hk Hkt. simpl.
      rewrite lookup_insert_ne; [done|]. intros <-. congruence.
    + apply Forall_singleton. exists t'. simpl. by rewrite lookup_insert_eq.
  - done.
Qed.

Lemma propagate_edges_steps run_id up res id ts ds s q s' q' :
  (forall d, d ∈ ds -> d ∈ dependents s run_id up) ->
  queue_ok s run_id ((up, res) :: q) ->
  fold_left (propagate_edge run_id up res id ts) ds (s, q) = (s', q') ->
  steps s s' /\ queue_ok s' run_id ((up, res) :: q') /\
  fs_task_dependents s' = fs_task_dependents s.
Proof.
  revert s q. induction ds as [|d ds IH]; intros s q Hds Hq; cbn [fold_left].
  { intros [= <- <-]. auto with arco. }
  destruct (propagate_edge run_id up res id ts (s, q) d) as [s1 q1] eqn:E1. intros E.
  assert (forall d', d' ∈ ds -> d' ∈ dependents s run_id up) as Hds' by (intros; apply Hds; by right).
  apply propagate_edge_steps in E1 as (Hs1 & Hq1 & Hg1); [|apply Hds; by left|done].
  apply IH in E as (Hs & Hq' & Hg); [|unfold dependents in *; by rewrite Hg1|done].
  split_and!; [by etrans|done|congruence].
Qed.

Lemma propagate_loop_steps fuel run_id id ts s q :
  queue_ok s run_id q -> steps s (propagate_loop fuel run_id id ts s q).
Proof.
  revert s q. induction fuel as [|fuel IH]; intros s [|[u r] q] Hq; simpl; auto with arco.
  destruct (propagate_node run_id id ts s u r q) as [s1 q1] eqn:E.
  apply propagate_edges_steps in E as (Hs & Hq1 & _); [|done|done].
  etrans; [exact Hs|]. apply IH. by apply Forall_inv_tail in Hq1.
Qed.

Lemma propagate_failure_steps s run_id key t res id ts :
  fs_tasks s !! (run_id, key) = Some t -> task_is_terminal (tk_state t) = true ->
  tk_state t <> TsSucceeded -> steps s (propagate_failure s run_id key res id ts).
Proof.
  intros. apply propagate_loop_steps. apply Forall_singleton. eauto.
Qed.

(** ** Handlers as steps *)

Lemma steps_then_frame s s' s'' : steps s s' -> same_core s' s'' -> steps s s''.
Proof. intros ? ?. etrans; [done|]. by apply steps_frame. Qed.

Lemma started_steps s r k a aid ts id : steps s (fold_task_started s r k a aid ts id).1.
Proof.
  unfold fold_task_started. destruct (fs_tasks s !! (r, k)) as [t|] eqn:Ht; [|apply rtc_refl].
  destruct (task_is_terminal (tk_state t)) eqn:Hterm; [apply rtc_refl|].
  destruct (N.leb_spec (tk_attempt t) a); [|apply rtc_refl].
  case_match; [apply rtc_refl|]. simpl.
  apply (steps_then_frame _ (set_task s (r, k) (start_task_row a aid id ts t))); [|by split].
  eapply steps_task; [exact Ht|]. split; [by split|]. split; [|done].
  right. split; [by constructor|done].
Qed.

Lemma heartbeat_steps s r k a aid hb id : steps s (fold_task_heartbeat s r k a aid hb id).1.
Proof.
  unfold fold_task_heartbeat. destruct (fs_tasks s !! (r, k)) as [t|] eqn:Ht; [|apply rtc_refl].
  repeat case_match; try apply rtc_refl.
  eapply steps_task; [exact Ht|]. split; [by split|]. split; [by left|done].
Qed.

Lemma visibility_steps s r k a aid v p pe id ts :
  steps s (fold_task_output_visibility_changed s r k a aid v p pe id ts).1.
Proof.
  unfold fold_task_output_visibility_changed.
  destruct (fs_tasks s !! (r, k)) as [t|] eqn:Ht; [|apply rtc_refl].
  case_match; [apply rtc_refl|]. destruct (visibility_settled t v) eqn:Hv; [apply rtc_refl|].
  eapply steps_task; [exact Ht|].
  split; [destruct v; by split|]. split; [left; by destruct v|].
  unfold output_settled. intros Hs. apply andb_true_iff in Hs as [_ Hs].
  assert (tk_output_visibility_state (visibility_task_row v p pe id ts t) = Some v) as ->
    by by destruct v.
  unfold visibility_settled in Hv. destruct (tk_output_visibility_state t) as [[]|]; try done;
    bool_hyps; congruence.
Qed.

Lemma dispatch_task_steps s r k a aid id :
  dispatch_attempt_consumed s r k a = false -> steps s (dispatch_task s r k a aid id).1.
Proof.
  unfold dispatch_attempt_consumed, dispatch_task.
  destruct (fs_tasks s !! (r, k)) as [t|] eqn:Ht; [|intros; apply rtc_refl].
  simpl. intros Hc.
  destruct (may_dispatch t a) eqn:Hm; [|apply rtc_refl]. case_match; [|apply rtc_refl].
  unfold may_dispatch in Hm. bool_hyps.
  eapply steps_task; [exact Ht|]. split; [by split|]. split; [|done]. right. split; [|done].
  match goal with H : (tk_attempt t <=? a)%N = true |- _ => apply N.leb_le in H end.
  unfold lifecycle. simpl. constructor; [|done|].
  - destruct (tk_state t); try done; auto.
  - intros E. unfold attempt_consumed in Hc. rewrite E in Hc.
    destruct (N.eqb_spec (tk_attempt t) a); simpl in Hc; [by rewrite orb_true_r in Hc|lia].
Qed.

Lemma dispatch_requested_steps s r k a aid wq did id ts :
  steps s (fold_dispatch_requested s r k a aid wq did id ts).1.
Proof.
  unfold fold_dispatch_requested. destruct (dispatch_attempt_consumed s r k a) eqn:Hc;
    [by apply steps_frame|].
  destruct (fs_dispatch_outbox s !! did) as [x|].
  - destruct (complete_outbox_row aid wq x) as [x' c].
    match goal with |- context [dispatch_task ?st ?a ?b ?c ?d ?e] =>
      pose proof (dispatch_task_steps st a b c d e Hc) as HK;
      destruct (dispatch_task st a b c d e) as [s1 b1] end.
    simpl in *. etrans; [|exact HK]. by apply steps_frame.
  - pose proof (dispatch_task_steps s r k a aid id Hc) as HK.
    destruct (dispatch_task s r k a aid id) as [s1 b1]. simpl in *.
    by eapply steps_then_frame.
Qed.

Lemma set_retry_steps s r k a fa id : steps s (set_retry_not_before s r k a fa id).1.
Proof.
  unfold set_retry_not_before. destruct r as [r|], k as [k|], a as [a|]; try apply rtc_refl.
  destruct (fs_tasks s !! (r, k)) as [t|] eqn:Ht; [|apply rtc_refl].
  case_match; [|apply rtc_refl]. eapply steps_task; [exact Ht|]. split; [by split|].
  split; [by left|done].
Qed.

Lemma timer_requested_steps s tid ty r k a fa id :
  steps s (fold_timer_requested s tid ty r k a fa id).1.
Proof.
  unfold fold_timer_requested.
  assert (forall s1 (c : bool), same_core s s1 ->
    steps s (if bool_decide (map_timer_type ty = TtRetry) then
       let '(s', set) := set_retry_not_before s1 r k a fa id in (s', c || set) else (s1, c)).1) as Hr.
  { intros s1 c Hs1. case_match; [|by apply steps_frame].
    pose proof (set_retry_steps s1 r k a fa id) as HK.
    destruct (set_retry_not_before s1 r k a fa id) as [s2 b]. simpl in *.
    etrans; [|exact HK]. by apply steps_frame. }
  destruct (fs_timers s !! tid) as [x|]; [destruct (complete_timer_row r k a fa x)|];
    by apply Hr.
Qed.

Section Handlers.
Context `{Hashes} `{Chrono} `{SerdeJson}.

Lemma finished_task_row_identity d md pk id ts t :
  same_identity t (finished_task_row d md pk id ts t) /\
  tk_state (finished_task_row d md pk id ts t) = finished_state (tf_outcome d) t /\
  tk_attempt (finished_task_row d md pk id ts t) = tk_attempt t.
Proof.
  unfold finished_task_row. destruct (tf_outcome d); simpl; repeat case_match; by repeat split.
Qed.

(** What follows the task and run updates of a failed, skipped or cancelled
    task. *)
Lemma finish_downstream_steps s d md pk ns id ts tn w t :
  fs_tasks s !! (tf_run_id d, tf_task_key d) = Some t -> tk_state t = ns ->
  tf_outcome d <> OutSucceeded ->
  (tf_outcome d = OutSkipped -> ns = TsSkipped) ->
  (tf_outcome d = OutCancelled -> ns = TsCancelled) ->
  steps s (finish_downstream s d md pk ns id ts tn w).
Proof.
  intros Ht Hns Hsu Hsk Hca. unfold finish_downstream. destruct (tf_outcome d); [done|..].
  - case_bool_decide as Hf; [|apply rtc_refl].
    eapply propagate_failure_steps; [done|..]; by rewrite Hns, Hf.
  - eapply propagate_failure_steps; [done|..]; by rewrite Hns, Hsk.
  - eapply propagate_failure_steps; [done|..]; by rewrite Hns, Hca.
Qed.

Lemma partition_attempt_frame s tn w (ak pk : option string) r out ts id :
  same_core s match ak, pk with
              | Some ak, Some pk => update_partition_attempt s tn w ak pk r out ts id
              | _, _ => s
              end.
Proof.
  destruct ak, pk; try by split. unfold update_partition_attempt. case_match; by split.
Qed.

(** The task and run updates and everything downstream of them. *)
Lemma finish_core_steps s d md pk id ts tn w t :
  fs_tasks s !! (tf_run_id d, tf_task_key d) = Some t ->
  task_is_terminal (tk_state t) = false ->
  let t' := finished_task_row d md pk id ts t in
  let ns := finished_state (tf_outcome d) t in
  let s1 := set_task s (tf_run_id d, tf_task_key d) t' in
  let s2 := if task_is_terminal ns then modify_run (tf_run_id d) (finished_run_row ns id ts) s1
            else s1 in
  steps s (finish_downstream s2 d md pk ns id ts tn w).
Proof.
  intros Ht Hterm t' ns s1 s2.
  destruct (finished_task_row_identity d md pk id ts t) as (Hid & Hst & Hat).
  fold t' ns in Hid, Hst, Hat.
  assert (fs_tasks s2 !! (tf_run_id d, tf_task_key d) = Some t') as Ht2.
  { unfold s2. case_match; apply lookup_insert_eq. }
  destruct (decide (tf_outcome d = OutSucceeded)) as [Ho|Ho].
  - assert (ns = TsSucceeded) as Hns by (unfold ns; by rewrite Ho).
    assert (steps s (satisfy_downstream_edges s2 (tf_run_id d) (tf_task_key d) DepSuccess
                       (tf_attempt d) id ts)) as Hsat.
    { apply rtc_once. unfold s2. rewrite Hns. simpl.
      refine (micro_succeed s _ _ t t' _ _ _ _ Ht _ _ _); [|congruence|].
      - split; [done|done| |done]. by rewrite Hst, Hns.
      - rewrite Hst, Hns. left; eauto. }
    unfold finish_downstream. rewrite Ho. repeat case_match; try done.
    eapply steps_then_frame; [exact Hsat|].
    unfold update_partition_materialization. case_match; by split.
  - transitivity s2; [|eapply finish_downstream_steps; [exact Ht2|exact Hst|done|..];
                       unfold ns; by intros ->].
    unfold s2. destruct (task_is_terminal ns) eqn:Hns.
    + apply rtc_once. refine (micro_finish s (tf_run_id d, tf_task_key d) t t' _ Ht _ _ _).
      * split; [done|done| |done]. by rewrite Hst.
      * rewrite Hst. unfold ns. destruct (tf_outcome d); try done. simpl. by case_match.
      * rewrite Hst. left; eauto.
    + assert (ns = TsRetryWait) as Hrw.
      { revert Hns. unfold ns. destruct (tf_outcome d); try done. simpl. by case_match. }
      apply (steps_task s _ t); [done|]. split; [done|]. unfold lifecycle.
      rewrite Hst, Hat, Hrw. split; [right; split; [by constructor|done]|].
      intros Hs%output_settled_terminal. congruence.
Qed.

Lemma finished_steps s d id ts tn w : steps s (fold_task_finished s d id ts tn w).1.
Proof.
  unfold fold_task_finished.
  destruct (fs_tasks s !! _) as [t|] eqn:Ht; [|apply rtc_refl].
  destruct (is_current_attempt t (tf_attempt d) (tf_attempt_id d)) eqn:Hc; simpl;
    [|rewrite andb_false_r; apply rtc_refl].
  destruct (task_is_terminal (tk_state t)) eqn:Hterm; [apply rtc_refl|].
  set (md := extract_execution_metadata _ _ _). set (pk := option_or _ _).
  eapply steps_then_frame; [exact (finish_core_steps s d md pk id ts tn w t Ht Hterm)|].
  apply (partition_attempt_frame _ tn w (tf_asset_key d) pk).
Qed.

Lemma completion_steps s d ov id ts tn w : steps s (fold_task_completion s d ov id ts tn w).1.
Proof.
  unfold fold_task_completion. pose proof (finished_steps s d id ts tn w) as Hs.
  destruct (fold_task_finished s d id ts tn w) as [s1 b]. simpl in Hs.
  destruct (b && _); [|done]. destruct ov as [u|]; [|done].
  pose proof (visibility_steps s1 (tf_run_id d) (tf_task_key d) (tf_attempt d) (tf_attempt_id d)
    (ovu_visibility_state u) (ovu_published_at u) (ovu_publish_error u) id ts) as Hv.
  destruct (fold_task_output_visibility_changed _ _ _ _ _ _ _ _ _ _) as [s2 b2]. simpl in *.
  by etrans.
Qed.

Lemma refresh_steps s e r x : steps s x.1 -> steps s (refresh_if_changed e r x).1.
Proof.
  destruct x as [s1 [|]]; simpl; [|done]. intros Hs. eapply steps_then_frame; [exact Hs|].
  unfold refresh_catalog_run_index_for_run. case_match; by split.
Qed.

(** The automation handlers only touch their own tables. *)
Lemma sensor_frame s t w sid eid cb ca esv src rrs st ts id :
  same_core s (fold_sensor_evaluated s t w sid eid cb ca esv src rrs st ts id).1.
Proof.
  unfold fold_sensor_evaluated, upsert_sensor_eval. simpl.
  repeat (case_match; simplify_eq/=; try by split).
Qed.

Lemma apply_event_micro s e : event_wf e -> steps s (apply_event s e).1.
Proof.
  unfold event_wf, apply_event. destruct (ev_data e); intros Hwf;
    try apply refresh_steps; try (apply rtc_once; constructor; exact Hwf).
  all: try first [ apply started_steps | apply heartbeat_steps | apply finished_steps
    | apply completion_steps | apply visibility_steps | apply dispatch_requested_steps
    | apply timer_requested_steps | apply steps_frame, sensor_frame ].
  - unfold fold_dispatch_enqueued, upsert_enqueued. repeat case_match; apply steps_frame; by split.
  - unfold fold_timer_enqueued. repeat case_match; apply steps_frame; by split.
  - unfold fold_timer_fired. repeat case_match; apply steps_frame; by split.
  - unfold fold_schedule_definition_upserted. repeat case_match; apply steps_frame; by split.
  - unfold fold_schedule_ticked. repeat case_match; apply steps_frame; by split.
  - unfold fold_run_requested, correlate_run_to_source.
    repeat case_match; apply steps_frame; by split.
  - unfold fold_backfill_created. repeat case_match; apply steps_frame; by split.
  - unfold fold_backfill_chunk_planned. repeat case_match; apply steps_frame; by split.
  - unfold fold_backfill_state_changed. repeat case_match; apply steps_frame; by split.
  - apply rtc_refl.
Qed.

Lemma fold_event_micro s e : event_wf e -> steps s (fold_event s e).
Proof.
  intros Hwf. unfold fold_event. case_match; [apply rtc_refl|].
  pose proof (apply_event_micro s e Hwf) as Hs. destruct (apply_event s e) as [s1 [|]]; simpl in *;
    [|done]. eapply steps_then_frame; [exact Hs|].
  unfold record_idempotency_key. case_match; by split.
Qed.

Lemma fold_events_micro s es : Forall event_wf es -> steps s (fold_events s es).
Proof.
  revert s. induction es as [|e es IH]; intros s Hes; [apply rtc_refl|].
  apply Forall_cons in Hes as [He Hes].
  etrans; [apply fold_event_micro, He|]. by apply IH.
Qed.
End Handlers.
