(* ===== verification/FoldPropagate.v ===== *)
(** Failure propagation.

    The breadth-first loop of [propagate_failure] run to the end of its queue
    ([drains], without fuel), the measure that bounds it, and what it leaves
    behind: the whole live cone below the failed task is terminal, with the
    verdict of the root, and nothing else changed. *)

From stdpp Require Import relations.
From S2P Require Import Prelude Events FoldTypes FoldTasks.
From stdpp Require Import options.

(** ** The loop without fuel *)

Section Propagate.
Context (r id : string) (ts : DateTime).

(** [while let Some(..) = to_propagate.pop_front() { .. }] *)
Inductive drains : FoldState -> list (string * DepResolution) -> FoldState -> Prop :=
  | drains_nil s : drains s [] s
  | drains_cons s u res q s1 q1 s' :
      propagate_node r id ts s u res q = (s1, q1) -> drains s1 q1 s' ->
      drains s ((u, res) :: q) s'.

(** The tasks that are not terminal. *)
Definition live_tasks (s : FoldState) : nat :=
  mcount (fun _ t => negb (task_is_terminal (tk_state t))) (fs_tasks s).

(** ** One edge *)

(** What visiting the edges to [ds] with resolution [res] does. *)
Record visit (res : DepResolution) (ds : list string) (s : FoldState)
    (q : list (string * DepResolution)) (s' : FoldState) (q' : list (string * DepResolution)) :
    Prop := {
  es_measure : length q' + live_tasks s' = length q + live_tasks s;
  es_graph : fs_task_dependents s' = fs_task_dependents s;
  es_dom : forall k, is_Some (fs_tasks s' !! k) <-> is_Some (fs_tasks s !! k);
  es_terminal : forall k t, fs_tasks s !! k = Some t -> task_is_terminal (tk_state t) = true ->
      fs_tasks s' !! k = Some t;
  es_changed : forall k t', fs_tasks s' !! k = Some t' -> fs_tasks s !! k <> Some t' ->
      k.1 = r /\ (k.2 ∈ ds) /\ tk_state t' = (propagated res).1 /\ (k.2, (propagated res).2) ∈ q';
  es_queue : forall x, x ∈ q' -> (x ∈ q) \/
      ((x.1 ∈ ds) /\ x.2 = (propagated res).2 /\
       exists t, fs_tasks s !! (r, x.1) = Some t /\ task_is_terminal (tk_state t) = false);
  es_queue_mono : forall x, x ∈ q -> x ∈ q';
  es_target : forall d t, d ∈ ds -> fs_tasks s' !! (r, d) = Some t ->
      task_is_terminal (tk_state t) = true
}.

Lemma propagated_terminal res : task_is_terminal (propagated res).1 = true.
Proof. by destruct res. Qed.

(** A visit that changes no task and queues nothing. *)
Lemma visit_idle res d s s' q :
  fs_tasks s' = fs_tasks s -> fs_task_dependents s' = fs_task_dependents s ->
  (forall t, fs_tasks s !! (r, d) = Some t -> task_is_terminal (tk_state t) = true) ->
  visit res [d] s q s' q.
Proof.
  intros Ht Hg Hd. split; unfold live_tasks; rewrite ?Ht; try done; [by left|].
  intros d' t Hd'%list_elem_of_singleton. subst d'. apply Hd.
Qed.

Lemma propagate_edge_visit u res d s q s' q' :
  propagate_edge r u res id ts (s, q) d = (s', q') -> visit res [d] s q s' q'.
Proof.
  unfold propagate_edge. simpl.
  destruct (fs_tasks s !! (r, d)) as [t|] eqn:Ht; [destruct (task_is_terminal (tk_state t)) eqn:Hterm|].
  - intros [= <- <-]. apply visit_idle; [done|done|]. rewrite Ht. by intros ? [= <-].
  - pose proof (propagated_terminal res) as Hp.
    destruct (propagated res) as [ns nx] eqn:Hpr. simpl in Hp. intros [= <- <-].
    set (t' := mkTaskRow _ _ _ _ _ _ _ _ _ _ _ _ _ _ _ _ _ _ _ _ _ _ _ _ _ _ _).
    split; simpl; rewrite ?Hpr; simpl.
    + unfold live_tasks. simpl.
      pose proof (mcount_insert_old (fun _ t => negb (task_is_terminal (tk_state t))) (fs_tasks s)
        (r, d) t t' Ht) as Hc. simpl in Hc. rewrite Hterm, Hp in Hc. simpl in Hc.
      rewrite length_app. simpl. lia.
    + done.
    + intros k. rewrite lookup_insert. case_decide; [|done]. subst. rewrite Ht. split; by eexists.
    + intros k t0 Hk Ht0. rewrite lookup_insert_ne; [done|]. intros <-. congruence.
    + intros k t0. rewrite lookup_insert. case_decide as E; [|done]. intros [= <-] _. subst k.
      split_and!; [done|by left|done|]. apply elem_of_app. right. by left.
    + intros x [?|Hx%list_elem_of_singleton]%elem_of_app; [by left|]. subst x.
      right. split_and!; [by left|done|by exists t].
    + intros x Hx. apply elem_of_app. by left.
    + intros d' t0 Hd'%list_elem_of_singleton. subst d'. rewrite lookup_insert_eq. by intros [= <-].
  - intros [= <- <-]. apply visit_idle; [done|done|]. by rewrite Ht.
Qed.

Lemma visit_nil res s q : visit res [] s q s q.
Proof.
  split; try done; [by left|]. intros d t Hd. by apply elem_of_nil in Hd.
Qed.

Lemma visit_app res ds1 ds2 s q s1 q1 s2 q2 :
  visit res ds1 s q s1 q1 -> visit res ds2 s1 q1 s2 q2 -> visit res (ds1 ++ ds2) s q s2 q2.
Proof.
  intros [M1 G1 D1 T1 C1 Q1 N1 X1] [M2 G2 D2 T2 C2 Q2 N2 X2]. split.
  - lia.
  - congruence.
  - intros k. by rewrite D2.
  - auto.
  - intros k t' Hk' Hk. destruct (fs_tasks s1 !! k) as [t1|] eqn:E1.
    2:{ destruct (proj1 (D2 k) (mk_is_Some _ _ Hk')) as [t1 Et1]. congruence. }
    setoid_rewrite elem_of_app.
    destruct (task_is_terminal (tk_state t1)) eqn:Hterm.
    + pose proof (T2 _ _ E1 Hterm) as E2. assert (t' = t1) as -> by congruence.
      destruct (C1 k t1 E1 Hk) as (? & ? & ? & ?). split_and!; auto.
    + destruct (C2 k t' Hk') as (? & ? & ? & ?); [|by split_and!; auto].
      rewrite E1. intros [= ->]. destruct (C1 k t' E1 Hk) as (_ & _ & Hst & _).
      by rewrite Hst, propagated_terminal in Hterm.
  - intros x Hx. setoid_rewrite elem_of_app.
    apply Q2 in Hx as [Hx|(? & ? & t1 & Ht1 & Hl1)].
    + apply Q1 in Hx as [?|(? & ? & ?)]; auto.
    + right. split_and!; [by right|done|].
      destruct (proj1 (D1 _) (mk_is_Some _ _ Ht1)) as [t Ht]. exists t. split; [done|].
      destruct (task_is_terminal (tk_state t)) eqn:E; [|done].
      pose proof (T1 _ _ Ht E). congruence.
  - auto.
  - intros d t [Hd|Hd]%elem_of_app Ht; [|by eapply X2].
    destruct (proj1 (D2 _) (mk_is_Some _ _ Ht)) as [t1 Ht1].
    pose proof (X1 d t1 Hd Ht1) as Hterm. pose proof (T2 _ _ Ht1 Hterm) as E. congruence.
Qed.

Lemma propagate_edges_visit u res ds s q s' q' :
  fold_left (propagate_edge r u res id ts) ds (s, q) = (s', q') -> visit res ds s q s' q'.
Proof.
  revert s q. induction ds as [|d ds IH]; intros s q; cbn [fold_left].
  { intros [= <- <-]. apply visit_nil. }
  destruct (propagate_edge r u res id ts (s, q) d) as [s1 q1] eqn:E1. intros E.
  apply (visit_app res [d] ds s q s1 q1); [by eapply propagate_edge_visit|by apply IH].
Qed.

Lemma propagate_node_visit s u res q s' q' :
  propagate_node r id ts s u res q = (s', q') -> visit res (dependents s r u) s q s' q'.
Proof. apply propagate_edges_visit. Qed.

(** ** Termination *)

(** A turn pops one task, and queues a task only when it ends it. *)
Lemma propagate_loop_drains fuel s q :
  length q + live_tasks s <= fuel -> drains s q (propagate_loop fuel r id ts s q).
Proof.
  revert s q. induction fuel as [|fuel IH]; intros s [|[u res] q] Hle; simpl in *.
  - constructor.
  - lia.
  - constructor.
  - destruct (propagate_node r id ts s u res q) as [s1 q1] eqn:E.
    econstructor; [exact E|]. apply IH.
    pose proof (es_measure _ _ _ _ _ _ (propagate_node_visit _ _ _ _ _ _ E)). lia.
Qed.

Lemma drains_det s q s1 s2 : drains s q s1 -> drains s q s2 -> s1 = s2.
Proof.
  intros H1. revert s2. induction H1 as [s|s u res q s1 q1 s' E H1 IH]; intros s2 H2;
    inversion H2 as [|? ? ? ? ? ? ? E' ?]; subst; [done|].
  rewrite E in E'. injection E' as <- <-. auto.
Qed.

Lemma propagate_failure_drains s k res :
  drains s [(k, res)] (propagate_failure s r k res id ts).
Proof.
  apply propagate_loop_drains. simpl. pose proof (mcount_le_size
    (fun _ t => negb (task_is_terminal (tk_state t))) (fs_tasks s)). unfold live_tasks. lia.
Qed.

(** ** What it leaves behind *)

(** Every dependent of [u] that is a task is terminal. *)
Definition settled (s : FoldState) (u : string) : Prop :=
  forall d t, d ∈ dependents s r u -> fs_tasks s !! (r, d) = Some t ->
    task_is_terminal (tk_state t) = true.

Lemma drains_frame s q s' :
  drains s q s' ->
  fs_task_dependents s' = fs_task_dependents s /\
  (forall k, is_Some (fs_tasks s' !! k) <-> is_Some (fs_tasks s !! k)) /\
  (forall k t, fs_tasks s !! k = Some t -> task_is_terminal (tk_state t) = true ->
     fs_tasks s' !! k = Some t).
Proof.
  induction 1 as [s|s u res q s1 q1 s' E H (IH1 & IH2 & IH3)]; [done|].
  destruct (propagate_node_visit _ _ _ _ _ _ E) as [_ G D T _ _ _ _].
  split_and!; [congruence| |by auto]. intros k. by rewrite IH2.
Qed.

Lemma settled_mono s q s' u : drains s q s' -> settled s u -> settled s' u.
Proof.
  intros (G & D & T)%drains_frame Hs d t Hd Ht. unfold dependents in Hd. rewrite G in Hd.
  destruct (proj1 (D _) (mk_is_Some _ _ Ht)) as [t0 Ht0].
  pose proof (Hs d t0 Hd Ht0) as Hterm. pose proof (T _ _ Ht0 Hterm). congruence.
Qed.

(** The queued tasks are settled at the end, and so is every task ended on the
    way. *)
Lemma drains_settles s q s' :
  drains s q s' ->
  (forall x, x ∈ q -> settled s' x.1) /\
  (forall k t t', fs_tasks s !! k = Some t -> task_is_terminal (tk_state t) = false ->
     fs_tasks s' !! k = Some t' -> task_is_terminal (tk_state t') = true -> settled s' k.2).
Proof.
  induction 1 as [s|s u res q s1 q1 s' E H [IH1 IH2]].
  { split; [intros x Hx; by apply elem_of_nil in Hx|]. intros. congruence. }
  destruct (propagate_node_visit _ _ _ _ _ _ E) as [_ G D T C Q N X]. split.
  - intros x [->|Hx]%elem_of_cons; [|by apply IH1, N]. simpl. apply (settled_mono s1 q1); [done|].
    intros d t Hd Ht. apply (X d t); [|done]. unfold dependents in *. by rewrite G in Hd.
  - intros k t t' Hk Hlive Hk' Hterm. destruct (fs_tasks s1 !! k) as [t1|] eqn:E1.
    2:{ destruct (proj2 (D k) (mk_is_Some _ _ Hk)). congruence. }
    destruct (task_is_terminal (tk_state t1)) eqn:Ht1; [|by eapply IH2].
    destruct (C k t1 E1) as (_ & _ & _ & Hin); [congruence|].
    exact (IH1 _ Hin).
Qed.

(** The cone below [root]: what is reached along dependents, through tasks that
    were live beforehand. *)
Inductive cone (s : FoldState) (root : string) : string -> Prop :=
  | cone_root d : d ∈ dependents s r root -> cone s root d
  | cone_step u d t : cone s root u -> fs_tasks s !! (r, u) = Some t ->
      task_is_terminal (tk_state t) = false -> d ∈ dependents s r u -> cone s root d.

Lemma drains_complete s root res s' d t' :
  drains s [(root, res)] s' -> cone s root d -> fs_tasks s' !! (r, d) = Some t' ->
  task_is_terminal (tk_state t') = true.
Proof.
  intros Hd Hc. destruct (drains_settles _ _ _ Hd) as [H1 H2].
  destruct (drains_frame _ _ _ Hd) as (G & D & T).
  assert (forall u x, x ∈ dependents s r u -> x ∈ dependents s' r u) as Hdep.
  { intros u x. unfold dependents. by rewrite G. }
  revert t'. induction Hc as [d Hin|u d t Hc IH Hu Hlive Hin]; intros t' Ht'.
  - apply (H1 (root, res) ltac:(by left) d t'); auto.
  - destruct (proj2 (D _) (mk_is_Some _ _ Hu)) as [tu Htu].
    apply (H2 (r, u) t tu Hu Hlive Htu (IH _ Htu) d t'); auto.
Qed.

(** *** Nothing else changes *)

Lemma propagated_next res : (propagated (propagated res).2).1 = (propagated res).1.
Proof. by destruct res. Qed.

Section Sound.
Context (s0 : FoldState) (root : string) (st : TaskState) (Hst : task_is_terminal st = true).

(** What a visited task owes its visit to. *)
Definition source (u : string) : Prop :=
  u = root \/ (cone s0 root u /\ exists t, fs_tasks s0 !! (r, u) = Some t /\
                task_is_terminal (tk_state t) = false).

Definition explained (s : FoldState) : Prop :=
  forall k t', fs_tasks s !! k = Some t' -> fs_tasks s0 !! k <> Some t' ->
    k.1 = r /\ cone s0 root k.2 /\ tk_state t' = st.

Lemma source_cone u d : source u -> d ∈ dependents s0 r u -> cone s0 root d.
Proof. intros [->|[Hc (t & Ht & Hl)]] Hd; [by constructor|by eapply cone_step]. Qed.

Lemma explained_live s k t :
  explained s -> fs_tasks s !! k = Some t -> task_is_terminal (tk_state t) = false ->
  (forall k, is_Some (fs_tasks s !! k) <-> is_Some (fs_tasks s0 !! k)) ->
  exists t0, fs_tasks s0 !! k = Some t0 /\ task_is_terminal (tk_state t0) = false.
Proof using Hst.
  intros He Hk Hl D. destruct (proj1 (D k) (mk_is_Some _ _ Hk)) as [t0 Ht0].
  exists t0. split; [done|]. destruct (task_is_terminal (tk_state t0)) eqn:E; [|done].
  destruct (He k t Hk) as (_ & _ & Hs); [congruence|]. congruence.
Qed.

Lemma drains_explained s q s' :
  drains s q s' -> explained s -> fs_task_dependents s = fs_task_dependents s0 ->
  (forall k, is_Some (fs_tasks s !! k) <-> is_Some (fs_tasks s0 !! k)) ->
  (forall x, x ∈ q -> source x.1 /\ (propagated x.2).1 = st) -> explained s'.
Proof using Hst.
  induction 1 as [s|s u res q s1 q1 s' E H IH]; intros He Hg HD Hq; [done|].
  destruct (propagate_node_visit _ _ _ _ _ _ E) as [_ G D T C Q N X].
  destruct (Hq (u, res) ltac:(by left)) as [Hsrc Hres]. simpl in Hsrc, Hres.
  assert (dependents s r u = dependents s0 r u) as Hdep by (unfold dependents; by rewrite Hg).
  rewrite Hdep in C, Q. apply IH; [|congruence|intros k; by rewrite D|].
  - intros k t' Hk' Hne. destruct (fs_tasks s !! k) as [t|] eqn:Hk.
    2:{ destruct (proj1 (D k) (mk_is_Some _ _ Hk')). congruence. }
    destruct (task_is_terminal (tk_state t)) eqn:Hterm.
    + pose proof (T _ _ Hk Hterm). assert (t' = t) as -> by congruence. by apply He.
    + destruct (explained_live s k t He Hk Hterm HD) as (t0 & Ht0 & Hl0).
      assert (fs_tasks s !! k <> Some t') as Hch.
      { rewrite Hk. intros [= ->]. destruct (He k t' Hk Hne) as (_ & _ & Hs). congruence. }
      destruct (C k t' Hk' ltac:(congruence)) as (? & Hin & Hs & _).
      split_and!; [done|by eapply source_cone|congruence].
  - intros x [Hx|(Hin & Hx2 & t & Ht & Hl)]%Q; [apply Hq; by right|].
    rewrite Hx2, propagated_next. split; [|done]. right.
    split; [by eapply source_cone|]. by eapply explained_live.
Qed.
End Sound.

Lemma propagate_failure_explained s k res :
  explained s k (propagated res).1 (propagate_failure s r k res id ts).
Proof.
  eapply drains_explained; [apply propagated_terminal|apply propagate_failure_drains|..]; try done.
  intros x Hx%list_elem_of_singleton. subst x. split; [by left|done].
Qed.
End Propagate.
