(* ===== verification/FoldInvariant.v ===== *)
(** The invariant of the orchestration state.

    [Inv] says that the denormalised columns of the state are what they stand
    for: a run's counters count its tasks, a run is terminal exactly when its
    tasks are, a task's dependency counters count its edges, a task is ready only
    when every upstream task succeeded, and a succeeded task has woken every
    dependent.  It is proved once per step of [FoldMachine.micro] and holds in
    every state the fold reaches. *)

From stdpp Require Import relations.
From S2P Require Import Prelude Events FoldTypes FoldTasks FoldDispatch FoldAutomation Fold FoldMachine.
From stdpp Require Import options.

(** ** What the columns count *)

Definition in_run (r : string) (P : TaskState -> bool) (k : string * string) (t : TaskRow) : bool :=
  bool_decide (k.1 = r) && P (tk_state t).

(** The number of tasks of run [r] whose state satisfies [P]. *)
Definition run_count (s : FoldState) (r : string) (P : TaskState -> bool) : N :=
  N.of_nat (mcount (in_run r P) (fs_tasks s)).

Definition any_state (_ : TaskState) : bool := true.
Definition is_state (st st' : TaskState) : bool := bool_decide (st' = st).

Definition into (r d : string) (Q : DepSatisfactionRow -> bool) (k : string * string * string)
    (e : DepSatisfactionRow) : bool :=
  bool_decide (k.1.1 = r) && bool_decide (k.2 = d) && Q e.

(** The number of edges into task [d] of run [r] that satisfy [Q]. *)
Definition edge_count (s : FoldState) (r d : string) (Q : DepSatisfactionRow -> bool) : N :=
  N.of_nat (mcount (into r d Q) (fs_dep_satisfaction s)).

Definition any_edge (_ : DepSatisfactionRow) : bool := true.

Record counters_ok (s : FoldState) (r : string) (rn : RunRow) : Prop := {
  co_total : rn_tasks_total rn = run_count s r any_state;
  co_completed : rn_tasks_completed rn = run_count s r task_is_terminal;
  co_succeeded : rn_tasks_succeeded rn = run_count s r (is_state TsSucceeded);
  co_failed : rn_tasks_failed rn = run_count s r (is_state TsFailed);
  co_skipped : rn_tasks_skipped rn = run_count s r (is_state TsSkipped);
  co_cancelled : rn_tasks_cancelled rn = run_count s r (is_state TsCancelled)
}.

(** A run's state follows its counters. *)
Record status_ok (rn : RunRow) : Prop := {
  so_terminal : run_is_terminal (rn_state rn) = true -> rn_tasks_completed rn = rn_tasks_total rn;
  so_complete : (0 < rn_tasks_total rn)%N -> rn_tasks_completed rn = rn_tasks_total rn ->
                rn_state rn = run_verdict (rn_tasks_cancelled rn) (rn_tasks_failed rn)
}.

Record deps_ok (s : FoldState) (r d : string) (t : TaskRow) : Prop := {
  do_total : tk_deps_total t = edge_count s r d any_edge;
  do_satisfied : tk_deps_satisfied_count t = edge_count s r d dp_satisfied;
  do_bound : (edge_count s r d any_edge < u32_modulus)%N;
  do_ready : tk_state t = TsReady -> tk_deps_satisfied_count t = tk_deps_total t;
  do_blocked : tk_state t = TsBlocked -> tk_deps_satisfied_count t <> tk_deps_total t
}.

(** ** The invariant *)

(** The tasks, their edges and the run counters. *)
Record Base (s : FoldState) : Prop := {
  inv_task_key : forall k t, fs_tasks s !! k = Some t -> tk_run_id t = k.1 /\ tk_task_key t = k.2;
  inv_run_key : forall r rn, fs_runs s !! r = Some rn -> rn_run_id rn = r;
  inv_run_size : forall r, (run_count s r any_state < u32_modulus)%N;
  inv_counters : forall r rn, fs_runs s !! r = Some rn -> counters_ok s r rn;
  inv_graph : forall r u d, d ∈ dependents s r u <-> is_Some (fs_dep_satisfaction s !! (r, u, d));
  inv_edge_key : forall r u d e, fs_dep_satisfaction s !! (r, u, d) = Some e ->
      dp_run_id e = r /\ dp_upstream_task_key e = u /\ dp_downstream_task_key e = d;
  inv_edge_task : forall r u d e, fs_dep_satisfaction s !! (r, u, d) = Some e ->
      is_Some (fs_tasks s !! (r, d));
  inv_deps : forall r d t, fs_tasks s !! (r, d) = Some t -> deps_ok s r d t;
  inv_satisfied : forall r u d e, fs_dep_satisfaction s !! (r, u, d) = Some e ->
      dp_satisfied e = true -> exists t, fs_tasks s !! (r, u) = Some t /\ tk_state t = TsSucceeded
}.

Definition runs_ok (s : FoldState) : Prop :=
  forall r rn, fs_runs s !! r = Some rn -> status_ok rn.

(** Every edge out of a succeeded task, [X] excepted, is satisfied. *)
Definition woken (X : string * string -> Prop) (s : FoldState) : Prop :=
  forall r u t d e, fs_tasks s !! (r, u) = Some t -> tk_state t = TsSucceeded -> ~ X (r, u) ->
    fs_dep_satisfaction s !! (r, u, d) = Some e -> dp_satisfied e = true.

Record Inv (s : FoldState) : Prop := {
  inv_base : Base s;
  inv_status : runs_ok s;
  inv_woken : woken (fun _ => False) s
}.

(** ** Counting lemmas *)

Lemma run_count_set_same s key t t' r P :
  fs_tasks s !! key = Some t ->
  (key.1 = r -> P (tk_state t') = P (tk_state t)) ->
  run_count (set_task s key t') r P = run_count s r P.
Proof.
  intros Ht HP. unfold run_count, set_task. simpl. f_equal.
  apply (mcount_insert_same _ _ _ t); [done|]. unfold in_run. case_bool_decide; [|done].
  simpl. by rewrite HP.
Qed.

Lemma run_count_set_new s key t t' r P :
  fs_tasks s !! key = Some t -> key.1 = r ->
  P (tk_state t) = false -> P (tk_state t') = true ->
  run_count (set_task s key t') r P = (run_count s r P + 1)%N.
Proof.
  intros Ht Hr HP HP'. unfold run_count, set_task. simpl.
  pose proof (mcount_insert_old (in_run r P) (fs_tasks s) key t t' Ht) as Hc.
  unfold in_run at 2 4 in Hc. rewrite bool_decide_true, HP, HP' in Hc by done. simpl in Hc. lia.
Qed.

Lemma run_count_le s r P : (run_count s r P <= run_count s r any_state)%N.
Proof.
  unfold run_count. enough (mcount (in_run r P) (fs_tasks s) <= mcount (in_run r any_state) (fs_tasks s))
    by lia.
  apply mcount_mono. unfold in_run. intros k v _. intros H; bool_hyps. by rewrite bool_decide_true.
Qed.

Lemma run_count_disjoint s r P Q :
  (forall st, P st = true -> Q st = false) ->
  (run_count s r P + run_count s r Q <= run_count s r any_state)%N.
Proof.
  intros HPQ. unfold run_count.
  enough (mcount (in_run r P) (fs_tasks s) + mcount (in_run r Q) (fs_tasks s)
          <= mcount (in_run r any_state) (fs_tasks s)) by lia.
  unfold mcount. induction (map_to_list (fs_tasks s)) as [|[k t] l IH]; [done|]. simpl.
  assert (forall R, in_run r R k t = bool_decide (k.1 = r) && R (tk_state t)) as Hin by done.
  rewrite !Hin. case_bool_decide; simpl; [|exact IH].
  pose proof (HPQ (tk_state t)). destruct (P (tk_state t)), (Q (tk_state t)); simpl; try lia.
Qed.

Lemma edge_count_set_same s key e e' r d Q :
  fs_dep_satisfaction s !! key = Some e -> Q e' = Q e ->
  edge_count (set_edge s key e') r d Q = edge_count s r d Q.
Proof.
  intros He HQ. unfold edge_count, set_edge. simpl. f_equal.
  apply (mcount_insert_same _ _ _ e); [done|]. unfold into. by rewrite HQ.
Qed.

Lemma edge_count_set_other s key e e' r d Q :
  fs_dep_satisfaction s !! key = Some e -> (key.1.1, key.2) <> (r, d) ->
  edge_count (set_edge s key e') r d Q = edge_count s r d Q.
Proof.
  intros He Hne. unfold edge_count, set_edge. simpl. f_equal.
  apply (mcount_insert_same _ _ _ e); [done|]. unfold into.
  repeat case_bool_decide; try done. subst. done.
Qed.

Lemma edge_count_set_new s u e e' r d Q :
  fs_dep_satisfaction s !! (r, u, d) = Some e -> Q e = false -> Q e' = true ->
  edge_count (set_edge s (r, u, d) e') r d Q = (edge_count s r d Q + 1)%N.
Proof.
  intros He HQ HQ'. unfold edge_count, set_edge. simpl.
  pose proof (mcount_insert_old (into r d Q) (fs_dep_satisfaction s) (r, u, d) e e' He) as Hc.
  unfold into at 2 4 in Hc. simpl in Hc. rewrite !bool_decide_true, HQ, HQ' in Hc by done.
  simpl in Hc. lia.
Qed.

Lemma edge_count_le s r d Q : (edge_count s r d Q <= edge_count s r d any_edge)%N.
Proof.
  unfold edge_count.
  enough (mcount (into r d Q) (fs_dep_satisfaction s)
          <= mcount (into r d any_edge) (fs_dep_satisfaction s)) by lia.
  apply mcount_mono. unfold into. intros k v _ H. bool_hyps. by rewrite !bool_decide_true.
Qed.

(** All the edges into a task are satisfied when the counters agree. *)
Lemma edge_count_all s r u d e :
  edge_count s r d dp_satisfied = edge_count s r d any_edge ->
  fs_dep_satisfaction s !! (r, u, d) = Some e -> dp_satisfied e = true.
Proof.
  unfold edge_count. intros Hc%Nat2N.inj He.
  assert (into r d dp_satisfied (r, u, d) e = true) as Hi.
  { eapply mcount_eq_all; [|exact Hc|exact He|].
    - unfold into. intros k v _ Hk. bool_hyps. by rewrite !bool_decide_true.
    - unfold into. simpl. by rewrite !bool_decide_true. }
  unfold into in Hi. by bool_hyps.
Qed.

(** Some edge into a task is not satisfied when they do not. *)
Lemma edge_count_unsatisfied s r d :
  edge_count s r d dp_satisfied <> edge_count s r d any_edge ->
  exists u e, fs_dep_satisfaction s !! (r, u, d) = Some e /\ dp_satisfied e = false.
Proof.
  intros Hne.
  destruct (List.filter (fun kv => into r d (fun e => negb (dp_satisfied e)) kv.1 kv.2)
              (map_to_list (fs_dep_satisfaction s))) as [|[[[r' u] d'] e] l] eqn:El.
  - exfalso. apply Hne. unfold edge_count. f_equal. apply mcount_ext. intros k e He.
    unfold into. do 2 (case_bool_decide; [|done]). simpl.
    destruct (dp_satisfied e) eqn:Hs; [done|]. exfalso.
    assert (In (k, e) []) as []. rewrite <- El. apply filter_In.
    split; [by apply list_elem_of_In, elem_of_map_to_list|]. unfold into. simpl.
    by rewrite !bool_decide_true, Hs.
  - assert (In ((r', u, d'), e) (List.filter (fun kv => into r d (fun e => negb (dp_satisfied e))
      kv.1 kv.2) (map_to_list (fs_dep_satisfaction s)))) as Hin by (rewrite El; by left).
    apply filter_In in Hin as [Hin Hi]. apply list_elem_of_In, elem_of_map_to_list in Hin.
    unfold into in Hi. simpl in Hi. bool_hyps. subst. eauto.
Qed.

(** ** Frames *)

Section SameCore.
Context (s s' : FoldState) (Hc : same_core s s').

Lemma base_same_core : Base s -> Base s'.
Proof using Hc.
  destruct Hc as [Hr Ht Hd Hg]. intros [B1 B2 B3 B4 B5 B6 B7 B8 B9].
  split; unfold run_count, dependents in *; rewrite ?Hr, ?Ht, ?Hd, ?Hg; try done.
  - intros r rn Hrn. destruct (B4 r rn Hrn). split; unfold run_count in *; by rewrite Ht.
  - intros r d t Htk. destruct (B8 r d t Htk). split; unfold edge_count in *; by rewrite ?Hd.
Qed.

Lemma runs_ok_same_core : runs_ok s -> runs_ok s'.
Proof using Hc. unfold runs_ok. destruct Hc as [Hr _ _ _]. by rewrite Hr. Qed.

Lemma woken_same_core X : woken X s -> woken X s'.
Proof using Hc. unfold woken. destruct Hc as [_ Ht Hd _]. by rewrite Ht, Hd. Qed.
End SameCore.

(** ** Updates of one task row *)

Lemma lookup_set_task s key t k t1 :
  fs_tasks (set_task s key t) !! k = Some t1 ->
  (k = key /\ t1 = t) \/ (k <> key /\ fs_tasks s !! k = Some t1).
Proof.
  unfold set_task. simpl. rewrite lookup_insert. case_decide as E; [|by right].
  intros [= <-]. by left.
Qed.

(** A row with the same identity whose new state respects the dependency
    counters, up to the run counters. *)
Lemma base_set_task s key t t' (runs' : gmap string RunRow) :
  Base s -> fs_tasks s !! key = Some t -> same_identity t t' ->
  (tk_state t' = TsReady -> tk_state t = TsReady) ->
  (tk_state t' = TsBlocked -> tk_state t = TsBlocked) ->
  (tk_state t = TsSucceeded -> tk_state t' = TsSucceeded) ->
  (forall r rn, runs' !! r = Some rn -> rn_run_id rn = r /\ counters_ok (set_task s key t') r rn) ->
  Base ((set_task s key t') <| fs_runs := runs' |>).
Proof.
  intros B Ht [I1 I2 I3 I4] Hrdy Hblk Hsucc Hruns.
  assert (forall r, run_count (set_task s key t') r any_state = run_count s r any_state) as Hsz.
  { intros r. by apply (run_count_set_same s key t). }
  split; simpl.
  - intros k t1 [[-> ->]|[_ Hk]]%lookup_set_task; [|by apply (inv_task_key s B)].
    rewrite I1, I2. by apply (inv_task_key s B).
  - intros r rn Hr. by apply Hruns.
  - intros r. pose proof (inv_run_size s B r) as Hlt. rewrite <- Hsz in Hlt. exact Hlt.
  - intros r rn Hr. by destruct (proj2 (Hruns r rn Hr)).
  - apply (inv_graph s B).
  - apply (inv_edge_key s B).
  - intros r u d e He. apply (inv_edge_task s B) in He as [td Htd].
    rewrite lookup_insert. case_decide; eauto.
  - intros r d t1 [[<- ->]|[_ Hk]]%lookup_set_task; [|by destruct (inv_deps s B _ _ _ Hk)].
    destruct (inv_deps s B _ _ _ Ht) as [D1 D2 D3 D4 D5]. split; rewrite ?I3, ?I4; auto.
  - intros r u d e He Hs. destruct (inv_satisfied s B _ _ _ _ He Hs) as (tu & Htu & Hst).
    rewrite lookup_insert. case_decide; simplify_eq; eauto.
Qed.

(** *** Updates that keep a task alive *)

(** The predicates the run counters count. *)
Definition counted (P : TaskState -> bool) : Prop :=
  P = any_state \/ P = task_is_terminal \/
  exists st, task_is_terminal st = true /\ P = is_state st.

Lemma counted_any : counted any_state.
Proof. by left. Qed.

Lemma counted_terminal : counted task_is_terminal.
Proof. right. by left. Qed.

Lemma counted_state st : task_is_terminal st = true -> counted (is_state st).
Proof. right. right. by exists st. Qed.

Lemma counted_update t t' P :
  counted P -> task_update t t' -> P (tk_state t') = P (tk_state t).
Proof.
  intros HP [[-> _]|(H1 & H2 & _)]%task_update_spec; [done|]. destruct HP as [->|[->|(st & Hst & ->)]].
  - done.
  - rewrite H1. by destruct (tk_state t').
  - unfold is_state. rewrite !bool_decide_false; [done| |]; intros E;
      rewrite <- E in Hst; [congruence|]. by destruct (tk_state t').
Qed.

Lemma counters_ok_ext s s' r rn :
  (forall P, counted P -> run_count s' r P = run_count s r P) ->
  counters_ok s r rn -> counters_ok s' r rn.
Proof.
  intros HP [C1 C2 C3 C4 C5 C6].
  split; rewrite HP; auto using counted_any, counted_terminal, counted_state.
Qed.

Lemma base_task_update s key t t' :
  Base s -> fs_tasks s !! key = Some t -> task_update t t' -> Base (set_task s key t').
Proof.
  intros B Ht Hu.
  assert (set_task s key t' = (set_task s key t') <| fs_runs := fs_runs s |>) as -> by done.
  apply (base_set_task s key t); try done; [apply Hu|..].
  1-3: destruct (task_update_spec _ _ Hu) as [[Hs _]|(H1 & H2 & _)]; [congruence|];
       intros E; rewrite E in *; done.
  intros r rn Hr. split; [by apply (inv_run_key s B)|].
  apply (counters_ok_ext s); [|by apply (inv_counters s B)].
  intros P HP. apply (run_count_set_same s key t); [done|]. intros _. by apply counted_update.
Qed.

(** *** Tasks that become terminal *)

(** What the run row of a task that became terminal counts. *)
Record counts_end (st : TaskState) (rn rn' : RunRow) : Prop := {
  ce_id : rn_run_id rn' = rn_run_id rn;
  ce_total : rn_tasks_total rn' = rn_tasks_total rn;
  ce_completed : rn_tasks_completed rn' = u32_add (rn_tasks_completed rn) 1;
  ce_succeeded : rn_tasks_succeeded rn' =
    if is_state TsSucceeded st then u32_add (rn_tasks_succeeded rn) 1 else rn_tasks_succeeded rn;
  ce_failed : rn_tasks_failed rn' =
    if is_state TsFailed st then u32_add (rn_tasks_failed rn) 1 else rn_tasks_failed rn;
  ce_skipped : rn_tasks_skipped rn' =
    if is_state TsSkipped st then u32_add (rn_tasks_skipped rn) 1 else rn_tasks_skipped rn;
  ce_cancelled : rn_tasks_cancelled rn' =
    if is_state TsCancelled st then u32_add (rn_tasks_cancelled rn) 1 else rn_tasks_cancelled rn
}.

Lemma run_bump_counts st f rn : run_bump st f -> counts_end st rn (f rn).
Proof.
  intros [(id & ts & ->)|([-> | ->] & id & ts & ->)].
  - unfold finished_run_row. destruct st; simpl; case_match; by split.
  - unfold propagated_run_row. simpl; case_match; by split.
  - unfold propagated_run_row. simpl; case_match; by split.
Qed.

Lemma run_bump_state st f rn :
  run_bump st f ->
  rn_state (f rn) =
    if (rn_tasks_completed (f rn) =? rn_tasks_total (f rn))%N
    then run_verdict (rn_tasks_cancelled (f rn)) (rn_tasks_failed (f rn)) else rn_state rn.
Proof.
  intros [(id & ts & ->)|([-> | ->] & id & ts & ->)].
  - unfold finished_run_row. destruct st; simpl; case_match eqn:E; simpl; by rewrite ?E.
  - unfold propagated_run_row. simpl; case_match eqn:E; simpl; by rewrite ?E.
  - unfold propagated_run_row. simpl; case_match eqn:E; simpl; by rewrite ?E.
Qed.

Lemma cancel_counters_counts id rn : counts_end TsCancelled rn (cancel_run_counters id rn).
Proof. by split. Qed.

Lemma run_count_bump s key t t' P :
  Base s -> fs_tasks s !! key = Some t ->
  P (tk_state t) = false -> P (tk_state t') = true ->
  u32_add (run_count s key.1 P) 1 = run_count (set_task s key t') key.1 P.
Proof.
  intros B Ht HP HP'. pose proof (run_count_set_new s key t t' key.1 P Ht eq_refl HP HP') as Hn.
  rewrite Hn. apply u32_add_small. rewrite <- Hn.
  eapply N.le_lt_trans; [apply run_count_le|].
  rewrite (run_count_set_same s key t) by done. apply (inv_run_size s B).
Qed.

(** The counter of one terminal state, after [t] became [t']. *)
Lemma run_count_bump_state s key t t' st :
  Base s -> fs_tasks s !! key = Some t -> finishes t t' -> task_is_terminal st = true ->
  (if is_state st (tk_state t') then u32_add (run_count s key.1 (is_state st)) 1
   else run_count s key.1 (is_state st)) = run_count (set_task s key t') key.1 (is_state st).
Proof.
  intros B Ht F Hst. assert (is_state st (tk_state t) = false) as Hf.
  { unfold is_state. case_bool_decide as E; [|done]. pose proof (fin_live _ _ F). congruence. }
  case_match eqn:E.
  - by apply (run_count_bump s key t).
  - symmetry. apply (run_count_set_same s key t); [done|]. congruence.
Qed.

Lemma counters_finish s key t t' rn rn' :
  Base s -> fs_tasks s !! key = Some t -> finishes t t' -> counts_end (tk_state t') rn rn' ->
  counters_ok s key.1 rn -> counters_ok (set_task s key t') key.1 rn'.
Proof.
  intros B Ht F [E1 E2 E3 E4 E5 E6 E7] [C1 C2 C3 C4 C5 C6].
  split; rewrite ?E2, ?E3, ?E4, ?E5, ?E6, ?E7, ?C1, ?C2, ?C3, ?C4, ?C5, ?C6.
  - symmetry. by apply (run_count_set_same s key t).
  - apply (run_count_bump s key t); [done|done|apply F|apply F].
  - by apply (run_count_bump_state s key t).
  - by apply (run_count_bump_state s key t).
  - by apply (run_count_bump_state s key t).
  - by apply (run_count_bump_state s key t).
Qed.

Lemma base_finish s key t t' f :
  Base s -> fs_tasks s !! key = Some t -> finishes t t' ->
  (forall rn, counts_end (tk_state t') rn (f rn)) ->
  Base (modify_run key.1 f (set_task s key t')).
Proof.
  intros B Ht F Hf.
  apply (base_set_task s key t t' (alter f key.1 (fs_runs s))); try done; [apply F|..].
  1-3: destruct F as [_ F1 F2 _]; intros E; rewrite E in *; done.
  intros r rn. rewrite lookup_alter. case_decide as E; subst.
  - destruct (fs_runs s !! key.1) as [rn0|] eqn:Hr; [|done]. intros [= <-].
    rewrite (ce_id _ _ _ (Hf rn0)). split; [by apply (inv_run_key s B)|].
    apply (counters_finish s key t t' rn0); [done..|]. by apply (inv_counters s B).
  - intros Hr. split; [by apply (inv_run_key s B)|].
    apply (counters_ok_ext s); [|by apply (inv_counters s B)].
    intros P _. by apply (run_count_set_same s key t).
Qed.

(** The run's counters are below its total while it has a live task. *)
Lemma live_task_incomplete s key t rn :
  Base s -> fs_tasks s !! key = Some t -> task_is_terminal (tk_state t) = false ->
  fs_runs s !! key.1 = Some rn -> (rn_tasks_completed rn < rn_tasks_total rn)%N.
Proof.
  intros B Ht Hlive Hr. destruct (inv_counters s B _ _ Hr) as [C1 C2 _ _ _ _].
  rewrite C1, C2.
  assert (0 < run_count s key.1 (fun st => negb (task_is_terminal st)))%N as Hpos.
  { unfold run_count. enough (0 < mcount (in_run key.1 (fun st => negb (task_is_terminal st)))
      (fs_tasks s)) by lia. apply (mcount_pos _ _ key t); [done|]. unfold in_run.
    by rewrite bool_decide_true, Hlive. }
  pose proof (run_count_disjoint s key.1 task_is_terminal (fun st => negb (task_is_terminal st))) as Hd.
  specialize (Hd ltac:(by intros st Hst; simpl; rewrite Hst)). lia.
Qed.

Lemma runs_ok_finish s key t t' f :
  Base s -> runs_ok s -> fs_tasks s !! key = Some t -> finishes t t' ->
  run_bump (tk_state t') f -> runs_ok (modify_run key.1 f (set_task s key t')).
Proof.
  intros B HR Ht F Hf r rn. simpl. rewrite lookup_alter. case_decide; [|by apply HR]. subst r.
  destruct (fs_runs s !! key.1) as [rn0|] eqn:Hr; [|done]. intros [= <-].
  pose proof (live_task_incomplete s key t rn0 B Ht (fin_live _ _ F) Hr) as Hlt.
  pose proof (run_bump_state _ f rn0 Hf) as Hst.
  destruct (N.eqb_spec (rn_tasks_completed (f rn0)) (rn_tasks_total (f rn0))); split; try done.
  rewrite Hst. intros Hterm%(so_terminal rn0 (HR _ _ Hr)). lia.
Qed.

Lemma woken_set_task X s key t' (runs' : gmap string RunRow) :
  woken X s -> (tk_state t' = TsSucceeded -> X key \/
    exists t, fs_tasks s !! key = Some t /\ tk_state t = TsSucceeded) ->
  woken X ((set_task s key t') <| fs_runs := runs' |>).
Proof.
  intros Hw Hs r u t d e Ht Hst Hx He. apply lookup_set_task in Ht as [[<- ->]|[_ Ht]].
  - destruct (Hs Hst) as [?|(t0 & ? & ?)]; [done|]. by eapply Hw.
  - by eapply (Hw r u t).
Qed.

(** ** Edges *)

Lemma lookup_set_edge s key e' k e :
  fs_dep_satisfaction (set_edge s key e') !! k = Some e ->
  (k = key /\ e = e') \/ (k <> key /\ fs_dep_satisfaction s !! k = Some e).
Proof.
  unfold set_edge. simpl. rewrite lookup_insert. case_decide as E; [|by right].
  intros [= <-]. by left.
Qed.

Definition edge_fields (r u d : string) (e : DepSatisfactionRow) : Prop :=
  dp_run_id e = r /\ dp_upstream_task_key e = u /\ dp_downstream_task_key e = d.

Lemma graph_set_edge s r u d e e' r1 u1 d1 :
  Base s -> fs_dep_satisfaction s !! (r, u, d) = Some e ->
  d1 ∈ dependents (set_edge s (r, u, d) e') r1 u1 <->
  is_Some (fs_dep_satisfaction (set_edge s (r, u, d) e') !! (r1, u1, d1)).
Proof.
  intros B He. unfold set_edge at 2. simpl. rewrite lookup_insert.
  etrans; [apply (inv_graph s B)|]. case_decide; simplify_eq; [|done]. rewrite He. by split.
Qed.

Lemma base_set_edge s r u d e e' :
  Base s -> fs_dep_satisfaction s !! (r, u, d) = Some e -> edge_fields r u d e' ->
  dp_satisfied e' = dp_satisfied e -> Base (set_edge s (r, u, d) e').
Proof.
  intros B He Hf Hs.
  split; [apply (inv_task_key s B)|apply (inv_run_key s B)|apply (inv_run_size s B)|..].
  - intros r1 rn Hr. by destruct (inv_counters s B r1 rn Hr).
  - intros r1 u1 d1. by apply (graph_set_edge s r u d e).
  - intros r1 u1 d1 e1 [[[= -> -> ->] ->]|[_ H]]%lookup_set_edge; [done|]. by apply (inv_edge_key s B).
  - intros r1 u1 d1 e1 [[[= -> -> ->] ->]|[_ H]]%lookup_set_edge; by eapply (inv_edge_task s B).
  - intros r1 d1 t Ht. destruct (inv_deps s B _ _ _ Ht).
    split; rewrite ?(edge_count_set_same s _ e) by done; done.
  - intros r1 u1 d1 e1 [[[= -> -> ->] ->]|[_ H]]%lookup_set_edge Hs1;
      (eapply (inv_satisfied s B); [eassumption|congruence]).
Qed.

Lemma woken_set_edge X s r u d e' :
  woken X s -> (forall t, fs_tasks s !! (r, u) = Some t -> tk_state t = TsSucceeded ->
                dp_satisfied e' = true) ->
  woken X (set_edge s (r, u, d) e').
Proof.
  intros Hw Hs r1 u1 t d1 e1 Ht Hst Hx [[[= -> -> ->] ->]|[_ He]]%lookup_set_edge; [by eapply Hs|].
  by eapply (Hw r1 u1 t).
Qed.

Lemma satisfy_task_row_spec id ts t :
  tk_run_id (satisfy_task_row id ts t) = tk_run_id t /\
  tk_task_key (satisfy_task_row id ts t) = tk_task_key t /\
  tk_deps_total (satisfy_task_row id ts t) = tk_deps_total t /\
  tk_deps_satisfied_count (satisfy_task_row id ts t) = u32_add (tk_deps_satisfied_count t) 1 /\
  tk_attempt (satisfy_task_row id ts t) = tk_attempt t /\
  tk_state (satisfy_task_row id ts t) =
    if (u32_add (tk_deps_satisfied_count t) 1 =? tk_deps_total t)%N &&
       bool_decide (tk_state t = TsBlocked) then TsReady else tk_state t.
Proof. unfold satisfy_task_row. simpl. by case_match. Qed.

Lemma satisfy_task_row_counted id ts t P :
  counted P -> P (tk_state (satisfy_task_row id ts t)) = P (tk_state t).
Proof.
  intros HP. destruct (satisfy_task_row_spec id ts t) as (_ & _ & _ & _ & _ & ->).
  destruct (_ && _) eqn:E; [|done]. bool_hyps. rewrite H0.
  destruct HP as [->|[->|(st & Hst & ->)]]; try done.
  unfold is_state. by rewrite !bool_decide_false by (intros <-; done).
Qed.

Section Satisfy.
Context (s : FoldState) (r u d : string) (e e' : DepSatisfactionRow) (tu td : TaskRow)
  (id : string) (ts : DateTime).
Context (B : Base s) (Hu : fs_tasks s !! (r, u) = Some tu) (Hsu : tk_state tu = TsSucceeded).
Context (Hd : fs_tasks s !! (r, d) = Some td).
Context (He : fs_dep_satisfaction s !! (r, u, d) = Some e) (Hold : dp_satisfied e = false).
Context (Hf : edge_fields r u d e') (Hnew : dp_satisfied e' = true).

Let s' := set_task (set_edge s (r, u, d) e') (r, d) (satisfy_task_row id ts td).

Lemma satisfied_count_grows :
  edge_count s' r d dp_satisfied = (edge_count s r d dp_satisfied + 1)%N /\
  edge_count s' r d any_edge = edge_count s r d any_edge /\
  u32_add (tk_deps_satisfied_count td) 1 = edge_count s' r d dp_satisfied.
Proof using All.
  pose proof (edge_count_set_new s u e e' r d dp_satisfied He Hold Hnew) as H1.
  pose proof (edge_count_set_same s _ e e' r d any_edge He eq_refl) as H2.
  destruct (inv_deps s B _ _ _ Hd) as [_ D2 D3 _ _].
  pose proof (edge_count_le (set_edge s (r, u, d) e') r d dp_satisfied) as Hle.
  split_and!; [exact H1|exact H2|]. rewrite D2, u32_add_small by lia. symmetry. exact H1.
Qed.

Lemma satisfied_deps_ok : deps_ok s' r d (satisfy_task_row id ts td).
Proof using All.
  destruct satisfied_count_grows as (G1 & G2 & G3).
  destruct (satisfy_task_row_spec id ts td) as (_ & _ & E3 & E4 & _ & E5).
  destruct (inv_deps s B _ _ _ Hd) as [D1 D2 D3 D4 D5].
  split; rewrite ?E3, ?E4, ?E5, ?G2; try done.
  - destruct (N.eqb_spec (u32_add (tk_deps_satisfied_count td) 1) (tk_deps_total td)); [done|].
    simpl. intros Hrdy. pose proof (D4 Hrdy) as Heq. rewrite D1, D2 in Heq.
    pose proof (edge_count_all s r u d e Heq He). congruence.
  - destruct (N.eqb_spec (u32_add (tk_deps_satisfied_count td) 1) (tk_deps_total td)); [|done].
    simpl. case_bool_decide; done.
Qed.

Lemma satisfy_lookup_task k t :
  fs_tasks s' !! k = Some t ->
  (k = (r, d) /\ t = satisfy_task_row id ts td) \/ (k <> (r, d) /\ fs_tasks s !! k = Some t).
Proof using All. intros H. by apply (lookup_set_task _ _ _ _ _ H). Qed.

Lemma satisfy_run_count r1 P : counted P -> run_count s' r1 P = run_count s r1 P.
Proof using All.
  intros HP. apply (run_count_set_same (set_edge s (r, u, d) e') (r, d) td); [done|].
  intros _. by apply satisfy_task_row_counted.
Qed.

Lemma satisfy_succeeded k t :
  fs_tasks s !! k = Some t -> tk_state t = TsSucceeded ->
  exists t', fs_tasks s' !! k = Some t' /\ tk_state t' = TsSucceeded.
Proof using All.
  intros Hk Hst. unfold s', set_task. simpl. rewrite lookup_insert. case_decide; [|eauto].
  assert (t = td) as -> by congruence. eexists. split; [done|].
  destruct (satisfy_task_row_spec id ts td) as (_ & _ & _ & _ & _ & ->).
  by rewrite Hst, andb_false_r.
Qed.

Lemma base_satisfy_new : Base s'.
Proof using All.
  destruct (satisfy_task_row_spec id ts td) as (E1 & E2 & _ & _ & _ & _).
  split.
  - intros k t [[-> ->]|[_ Hk]]%satisfy_lookup_task; [|by apply (inv_task_key s B)].
    rewrite E1, E2. by apply (inv_task_key s B).
  - apply (inv_run_key s B).
  - intros r1. rewrite satisfy_run_count by apply counted_any. apply (inv_run_size s B).
  - intros r1 rn Hr. apply (counters_ok_ext s); [|by apply (inv_counters s B)].
    intros P HP. by apply satisfy_run_count.
  - intros r1 u1 d1. by apply (graph_set_edge s r u d e).
  - intros r1 u1 d1 e1 [[[= -> -> ->] ->]|[_ H]]%lookup_set_edge; [done|]. by apply (inv_edge_key s B).
  - intros r1 u1 d1 e1 [[[= -> -> ->] ->]|[_ H]]%lookup_set_edge; simpl; rewrite lookup_insert;
      (case_decide; [eauto|]); [done|]. by eapply (inv_edge_task s B).
  - intros r1 d1 t [[[= -> ->] ->]|[Hne Hk]]%satisfy_lookup_task; [apply satisfied_deps_ok|].
    destruct (inv_deps s B _ _ _ Hk).
    assert (forall Q, edge_count s' r1 d1 Q = edge_count s r1 d1 Q) as Hec.
    { intros Q. apply (edge_count_set_other s (r, u, d) e e'); [done|]. simpl. congruence. }
    split; rewrite ?Hec; done.
  - intros r1 u1 d1 e1 [[[= -> -> ->] ->]|[_ H]]%lookup_set_edge Hs1.
    + by eapply satisfy_succeeded.
    + destruct (inv_satisfied s B _ _ _ _ H Hs1) as (t1 & ? & ?). by eapply satisfy_succeeded.
Qed.
End Satisfy.

Lemma modify_task_Some s key f t :
  fs_tasks s !! key = Some t -> modify_task key f s = set_task s key (f t).
Proof.
  intros Ht. unfold modify_task, set_task. f_equal. apply map_eq. intros k.
  rewrite lookup_alter, lookup_insert. case_decide; [|done]. subst. by rewrite Ht.
Qed.

Definition sat_edge (s : FoldState) (k : string * string * string) : Prop :=
  exists e, fs_dep_satisfaction s !! k = Some e /\ dp_satisfied e = true.

(** One dependent of a task that succeeded. *)
Record satisfied_step (r u d : string) (s s' : FoldState) : Prop := {
  ss_base : Base s';
  ss_woken : forall X, woken X s -> woken X s';
  ss_runs : fs_runs s' = fs_runs s;
  ss_graph : fs_task_dependents s' = fs_task_dependents s;
  ss_upstream : exists t, fs_tasks s' !! (r, u) = Some t /\ tk_state t = TsSucceeded;
  ss_edge : sat_edge s' (r, u, d);
  ss_mono : forall k, sat_edge s k -> sat_edge s' k
}.

Lemma sat_edge_set s key e' k :
  dp_satisfied e' = true -> sat_edge s k -> sat_edge (set_edge s key e') k.
Proof.
  intros He' (e & He & Hs). unfold sat_edge, set_edge. simpl. rewrite lookup_insert.
  case_decide; eauto.
Qed.

Lemma satisfy_edge_step s r u tu d att id ts :
  Base s -> fs_tasks s !! (r, u) = Some tu -> tk_state tu = TsSucceeded ->
  d ∈ dependents s r u -> satisfied_step r u d s (satisfy_edge r u DepSuccess att id ts s d).
Proof.
  intros B Hu Hsu Hd. apply (inv_graph s B) in Hd as [e He].
  destruct (inv_edge_task s B _ _ _ _ He) as [td Htd].
  set (e' := satisfied_edge_row r u d DepSuccess att id ts).
  assert (sat_edge (set_edge s (r, u, d) e') (r, u, d)) as Hse.
  { exists e'. split; [apply lookup_insert_eq|done]. }
  unfold satisfy_edge. rewrite He. simpl option_bool. fold e'.
  destruct (dp_satisfied e) eqn:Hold.
  - split; try done; [by apply (base_set_edge s r u d e)| |by eauto|].
    + intros X Hw. by apply woken_set_edge.
    + intros k. by apply sat_edge_set.
  - rewrite (modify_task_Some _ _ _ td) by done.
    split; try done.
    + by apply (base_satisfy_new s r u d e e' tu td).
    + intros X Hw. apply (woken_set_task X (set_edge s (r, u, d) e') (r, d) (satisfy_task_row id ts td) (fs_runs s));
        [by apply woken_set_edge|].
      destruct (satisfy_task_row_spec id ts td) as (_ & _ & _ & _ & _ & ->).
      case_match; [done|]. right. eauto.
    + by eapply (satisfy_succeeded s r u d e e' tu td).
    + intros k Hk. by apply sat_edge_set.
Qed.

Lemma satisfy_fold_steps r u att id ts ds s tu :
  Base s -> fs_tasks s !! (r, u) = Some tu -> tk_state tu = TsSucceeded ->
  (forall d, d ∈ ds -> d ∈ dependents s r u) ->
  let s' := fold_left (satisfy_edge r u DepSuccess att id ts) ds s in
  Base s' /\ (forall X, woken X s -> woken X s') /\ fs_runs s' = fs_runs s /\
  fs_task_dependents s' = fs_task_dependents s /\
  (forall d, d ∈ ds -> sat_edge s' (r, u, d)) /\ (forall k, sat_edge s k -> sat_edge s' k).
Proof.
  revert s tu. induction ds as [|d ds IH]; intros s tu B Hu Hsu Hds; simpl.
  { split_and!; try done. intros d Hd. by apply elem_of_nil in Hd. }
  destruct (satisfy_edge_step s r u tu d att id ts B Hu Hsu) as [B1 W1 R1 G1 (t1 & U1 & V1) E1 M1];
    [apply Hds; by left|].
  destruct (IH _ t1 B1 U1 V1) as (B2 & W2 & R2 & G2 & E2 & M2).
  { intros d' Hd'. unfold dependents. rewrite G1. apply Hds. by right. }
  split_and!; [done|by auto|congruence|congruence| |by auto].
  intros d' [->|Hd']%elem_of_cons; [by apply M2|by apply E2].
Qed.

Lemma inv_succeed s r u t t' f att id ts :
  Inv s -> fs_tasks s !! (r, u) = Some t -> finishes t t' -> tk_state t' = TsSucceeded ->
  run_bump (tk_state t') f ->
  Inv (satisfy_downstream_edges (modify_run r f (set_task s (r, u) t')) r u DepSuccess att id ts).
Proof.
  intros [B HR HW] Ht F Hst Hf. set (s1 := modify_run r f (set_task s (r, u) t')).
  assert (Base s1) as B1.
  { apply (base_finish s (r, u) t t' f B Ht F). intros rn. by apply run_bump_counts. }
  assert (fs_tasks s1 !! (r, u) = Some t') as Hu by apply lookup_insert_eq.
  destruct (satisfy_fold_steps r u att id ts (dependents s1 r u) s1 t' B1 Hu Hst)
    as (B2 & W2 & R2 & G2 & E2 & M2); [done|].
  split; [done| |].
  - intros r1 rn Hrn. unfold satisfy_downstream_edges in Hrn. rewrite R2 in Hrn.
    by apply (runs_ok_finish s (r, u) t t' f B HR Ht F Hf r1).
  - assert (woken (eq (r, u)) s1) as W1.
    { apply (woken_set_task (eq (r, u)) s (r, u) t' (alter f r (fs_runs s))); [|by left].
      intros r1 u1 t1 d1 e1 ? ? _. by eapply (HW r1 u1 t1); eauto. }
    apply W2 in W1. intros r1 u1 t1 d1 e1 Ht1 Hs1 _ He1.
    destruct (decide ((r, u) = (r1, u1))) as [[= <- <-]|Hne]; [|by eapply (W1 r1 u1 t1)].
    assert (d1 ∈ dependents s1 r u) as Hd1.
    { unfold dependents. rewrite <- G2. apply (inv_graph _ B2). eauto. }
    apply E2 in Hd1 as (e2 & He2 & ?). unfold satisfy_downstream_edges in He1. congruence.
Qed.

(** ** Runs that are triggered *)

Lemma base_set_runs s (runs' : gmap string RunRow) :
  Base s -> (forall r rn, runs' !! r = Some rn -> rn_run_id rn = r /\ counters_ok s r rn) ->
  Base (s <| fs_runs := runs' |>).
Proof.
  intros [B1 B2 B3 B4 B5 B6 B7 B8 B9] Hr. split; try done.
  - intros r rn H. by apply Hr.
  - intros r rn H. by destruct (proj2 (Hr r rn H)).
  - intros r d t H. by destruct (B8 r d t H).
Qed.

Definition count_rows (P : TaskState -> bool) (l : list TaskRow) : N :=
  N.of_nat (length (List.filter (fun t => P (tk_state t)) l)).

Lemma count_rows_snoc P l t :
  count_rows P (l ++ [t]) = (count_rows P l + if P (tk_state t) then 1 else 0)%N.
Proof.
  unfold count_rows. rewrite List.filter_app, length_app. simpl.
  destruct (P (tk_state t)); simpl; lia.
Qed.

Lemma count_rows_le P l : (count_rows P l <= N.of_nat (length l))%N.
Proof.
  unfold count_rows. pose proof (List.filter_length_le (fun t => P (tk_state t)) l). lia.
Qed.

Record tally_ok (y : RunTally) (l : list TaskRow) : Prop := {
  ta_total : ty_total y = count_rows any_state l;
  ta_completed : ty_completed y = count_rows task_is_terminal l;
  ta_succeeded : ty_succeeded y = count_rows (is_state TsSucceeded) l;
  ta_failed : ty_failed y = count_rows (is_state TsFailed) l;
  ta_skipped : ty_skipped y = count_rows (is_state TsSkipped) l;
  ta_cancelled : ty_cancelled y = count_rows (is_state TsCancelled) l
}.

Lemma tally_task_ok y l t :
  (N.of_nat (length (l ++ [t])) < u32_modulus)%N -> tally_ok y l -> tally_ok (tally_task y t) (l ++ [t]).
Proof.
  intros Hlen [T1 T2 T3 T4 T5 T6].
  assert (forall P, u32_saturating_add (count_rows P l) 1 = (count_rows P l + 1)%N) as Hadd.
  { intros P. apply u32_saturating_add_small. pose proof (count_rows_le P l).
    rewrite length_app in Hlen. simpl in Hlen. lia. }
  unfold tally_task.
  destruct (tk_state t) eqn:E; simpl; split; simpl; rewrite count_rows_snoc, E; simpl;
    rewrite ?T1, ?T2, ?T3, ?T4, ?T5, ?T6, ?Hadd; unfold any_state, is_state; simpl; lia.
Qed.

Lemma tally_list_ok l :
  (N.of_nat (length l) < u32_modulus)%N -> tally_ok (fold_left tally_task l tally_zero) l.
Proof.
  induction l as [|t l IH] using rev_ind; intros Hlen; [by split|].
  rewrite fold_left_app. apply tally_task_ok; [done|]. apply IH.
  rewrite length_app in Hlen. lia.
Qed.

(** A run's rows found by their [run_id] column are those found by their key. *)
Lemma count_run_task_rows s r P :
  Base s -> count_rows P (run_task_rows s r) = run_count s r P.
Proof.
  intros B. unfold count_rows, run_task_rows, run_count, mcount. f_equal.
  assert (forall kt, kt ∈ map_to_list (fs_tasks s) -> tk_run_id kt.2 = kt.1.1) as Hid.
  { intros [k t] Hk%elem_of_map_to_list. by apply (inv_task_key s B). }
  induction (map_to_list (fs_tasks s)) as [|[k t] l IH]; [done|]. simpl.
  pose proof (Hid (k, t) ltac:(by left)) as Hk. simpl in Hk. rewrite Hk. unfold in_run at 1. simpl.
  specialize (IH ltac:(intros; apply Hid; by right)).
  case_bool_decide; simpl; [|exact IH]. case_match; simpl; [f_equal|]; exact IH.
Qed.

Lemma length_run_task_rows s r :
  Base s -> N.of_nat (length (run_task_rows s r)) = run_count s r any_state.
Proof.
  intros B. rewrite <- count_run_task_rows by done. unfold count_rows, any_state.
  f_equal. induction (run_task_rows s r); simpl; [done|]. by f_equal.
Qed.

Lemma tally_run_ok s r : Base s -> tally_ok (tally_run s r) (run_task_rows s r).
Proof.
  intros B. apply tally_list_ok. rewrite length_run_task_rows by done. apply (inv_run_size s B).
Qed.

Lemma run_verdict_terminal c f : run_is_terminal (run_verdict c f) = true.
Proof. unfold run_verdict. by repeat case_match. Qed.

Lemma inv_trigger s r plan run_key labels cv id ts :
  Inv s -> Inv (fold_run_triggered s r plan run_key labels cv id ts).1.
Proof.
  intros [B HR HW]. unfold fold_run_triggered.
  destruct (fs_runs s !! r) as [rn|] eqn:Hr; [done|]. simpl.
  pose proof (tally_run_ok s r B) as Ty. set (y := tally_run s r) in *.
  destruct Ty as [T1 T2 T3 T4 T5 T6]. rewrite count_run_task_rows in T1, T2, T3, T4, T5, T6 by done.
  split; [apply (base_set_runs s); [done|]| |done].
  - intros r1 rn1. rewrite lookup_insert. case_decide; [subst; intros [= <-]; by split|].
    intros Hr1. split; [by apply (inv_run_key s B)|by apply (inv_counters s B)].
  - intros r1 rn1. simpl. rewrite lookup_insert. case_decide; [subst|by apply HR].
    intros [= <-]. split; simpl.
    + destruct (N.eqb_spec (ty_total y) 0); [done|].
      destruct (N.eqb_spec (ty_completed y) (ty_total y)); done.
    + intros Hpos ->. by rewrite (proj2 (N.eqb_neq _ _)), N.eqb_refl by lia.
Qed.
