(* ===== verification/FoldReach.v ===== *)
(** Plans, cancellations and reachable states.

    The two handlers that rewrite a whole run preserve the invariant, hence every
    step of the machine does, hence it holds in every state folded from the empty
    one.  The consequences the orchestrator relies on are at the end. *)

From stdpp Require Import relations.
From S2P Require Import Prelude Events FoldTypes FoldTasks FoldDispatch FoldAutomation Fold FoldMachine FoldInvariant.
From stdpp Require Import options.

(** ** What a plan adds *)

Section Plan.
Context (r id : string) (ts : DateTime).

Definition plan_task_list (defs : list TaskDef) : list ((string * string) * TaskRow) :=
  (fun d => ((r, td_key d), plan_task_row r id ts d)) <$> defs.

Definition plan_edge_list (defs : list TaskDef) :
    list ((string * string * string) * DepSatisfactionRow) :=
  defs ≫= fun d =>
    (fun u => ((r, u, td_key d), plan_edge_row r u (td_key d) id)) <$> td_depends_on d.

Lemma fold_add_plan_edges_core defs s :
  let s' := fold_left (add_plan_edges r) defs s in
  fs_runs s' = fs_runs s /\ fs_tasks s' = fs_tasks s /\
  fs_dep_satisfaction s' = fs_dep_satisfaction s.
Proof.
  revert s. induction defs as [|d defs IH]; intros s; [done|]. simpl.
  destruct (IH (add_plan_edges r s d)) as (-> & -> & ->). done.
Qed.

Lemma push_entry_elem key x m k y :
  y ∈ default [] (push_entry key x m !! k) <-> y ∈ default [] (m !! k) \/ (k = key /\ y = x).
Proof.
  unfold push_entry. rewrite lookup_insert. case_decide as E; simpl.
  - subst k. rewrite elem_of_app, list_elem_of_singleton. naive_solver.
  - naive_solver.
Qed.

Lemma push_entries_elem us key m k y :
  y ∈ default [] (fold_left (fun m u => push_entry (r, u) key m) us m !! k) <->
  y ∈ default [] (m !! k) \/ (k.1 = r /\ k.2 ∈ us /\ y = key).
Proof.
  revert m. induction us as [|u us IH]; intros m; simpl.
  - rewrite elem_of_nil. naive_solver.
  - rewrite IH, push_entry_elem, elem_of_cons. destruct k as [k1 k2]. simpl. naive_solver.
Qed.

Lemma fold_add_plan_edges_graph defs s r1 u x :
  x ∈ dependents (fold_left (add_plan_edges r) defs s) r1 u <->
  x ∈ dependents s r1 u \/
  (r1 = r /\ exists d, d ∈ defs /\ td_key d = x /\ u ∈ td_depends_on d).
Proof.
  revert s. induction defs as [|d defs IH]; intros s; simpl.
  - split; [by left|]. intros [?|(_ & d & Hd & _)]; [done|]. by apply elem_of_nil in Hd.
  - rewrite IH. unfold dependents, add_plan_edges. simpl. rewrite push_entries_elem. simpl.
    setoid_rewrite elem_of_cons. naive_solver.
Qed.

Lemma fold_add_plan_task_spec defs s :
  let s' := fold_left (add_plan_task r id ts) defs s in
  fs_runs s' = fs_runs s /\ fs_task_dependents s' = fs_task_dependents s /\
  fs_tasks s' = insert_all (plan_task_list defs) (fs_tasks s) /\
  fs_dep_satisfaction s' = insert_all (plan_edge_list defs) (fs_dep_satisfaction s).
Proof.
  revert s. induction defs as [|d defs IH]; intros s; [done|]. simpl.
  destruct (IH (add_plan_task r id ts s d)) as (-> & -> & -> & ->). split_and!; try done.
  unfold plan_edge_list. simpl. rewrite insert_all_app. f_equal. unfold insert_all, add_plan_task.
  simpl. generalize (fs_dep_satisfaction s). induction (td_depends_on d); [done|]. simpl. auto.
Qed.

Lemma plan_task_keys defs : (plan_task_list defs).*1 = (fun d => (r, td_key d)) <$> defs.
Proof. unfold plan_task_list. by rewrite <- list_fmap_compose. Qed.

Lemma plan_task_keys_NoDup defs : NoDup (td_key <$> defs) -> NoDup (plan_task_list defs).*1.
Proof.
  intros Hnd. rewrite plan_task_keys.
  assert (((fun d => (r, td_key d)) <$> defs) = (pair r) <$> (td_key <$> defs)) as ->
    by by rewrite <- list_fmap_compose.
  apply NoDup_fmap_2; [|done]. by intros ?? [= ->].
Qed.

Lemma plan_edge_elem defs k e :
  (k, e) ∈ plan_edge_list defs <->
  exists d u, d ∈ defs /\ u ∈ td_depends_on d /\ k = (r, u, td_key d) /\
    e = plan_edge_row r u (td_key d) id.
Proof.
  unfold plan_edge_list. rewrite list_elem_of_bind. setoid_rewrite list_elem_of_fmap.
  split; [intros (d & (u & [= -> ->] & Hu) & Hd)|intros (d & u & Hd & Hu & -> & ->)]; eauto 10.
Qed.

Lemma plan_edge_keys_NoDup defs :
  NoDup (td_key <$> defs) -> Forall (fun d => NoDup (td_depends_on d)) defs ->
  NoDup (plan_edge_list defs).*1.
Proof.
  induction defs as [|d defs IH]; intros Hnd Hdeps; [constructor|].
  apply NoDup_cons in Hnd as [Hd Hnd]. apply Forall_cons in Hdeps as [Hu Hdeps].
  unfold plan_edge_list. simpl. rewrite fmap_app. apply NoDup_app. split_and!; [| |by apply IH].
  - rewrite <- list_fmap_compose. apply NoDup_fmap_2; [|done]. by intros ?? [= ->].
  - intros k Hk Hk'. rewrite <- list_fmap_compose in Hk.
    apply list_elem_of_fmap in Hk as (u & -> & _). simpl in Hk'.
    apply list_elem_of_fmap in Hk' as ([k' e'] & Hk' & Hin). simpl in Hk'. subst k'.
    apply plan_edge_elem in Hin as (d' & u' & Hd' & _ & [= _ Heq] & _).
    apply Hd. apply list_elem_of_fmap. by exists d'.
Qed.
End Plan.

(** ** Counting a plan *)

Lemma filter_none {A} (f : A -> bool) l :
  (forall x, x ∈ l -> f x = false) -> List.filter f l = [].
Proof.
  induction l as [|x l IH]; intros Hf; [done|]. simpl.
  rewrite Hf by (by left). apply IH. intros y Hy. apply Hf. by right.
Qed.

Lemma filter_all {A} (f : A -> bool) l :
  (forall x, x ∈ l -> f x = true) -> List.filter f l = l.
Proof.
  induction l as [|x l IH]; intros Hf; [done|]. simpl.
  rewrite Hf by (by left). f_equal. apply IH. intros y Hy. apply Hf. by right.
Qed.

Lemma plan_edges_into r id defs d Q :
  NoDup (td_key <$> defs) -> d ∈ defs ->
  (forall u, Q (plan_edge_row r u (td_key d) id) = true) ->
  length (List.filter (fun kv => into r (td_key d) Q kv.1 kv.2) (plan_edge_list r id defs)) =
  length (td_depends_on d).
Proof.
  intros Hnd Hd HQ. induction defs as [|d' defs IH]; [by apply elem_of_nil in Hd|].
  apply NoDup_cons in Hnd as [Hk Hnd].
  change (plan_edge_list r id (d' :: defs)) with
    (((fun u => ((r, u, td_key d'), plan_edge_row r u (td_key d') id)) <$> td_depends_on d')
       ++ plan_edge_list r id defs).
  rewrite List.filter_app, length_app. apply elem_of_cons in Hd as [<-|Hd].
  - rewrite filter_all, length_fmap, filter_none; [simpl; lia| |].
    + intros [k e] (d' & u & Hd' & _ & -> & ->)%plan_edge_elem. unfold into. simpl.
      rewrite (bool_decide_false (td_key d' = td_key d)); [by rewrite andb_false_r|].
      intros E. apply Hk. rewrite <- E. apply list_elem_of_fmap. by exists d'.
    + intros [k e] (u & [= -> ->] & _)%list_elem_of_fmap. unfold into. simpl.
      by rewrite !bool_decide_true, HQ.
  - rewrite (filter_none _ (_ <$> _)); [by apply IH|].
    intros [k e] (u & [= -> ->] & _)%list_elem_of_fmap. unfold into. simpl.
    rewrite (bool_decide_false (td_key d' = td_key d)); [by rewrite andb_false_r|].
    intros E. apply Hk. rewrite E. apply list_elem_of_fmap. by exists d.
Qed.

Lemma run_has_tasks_false s r k t :
  run_has_tasks s r = false -> fs_tasks s !! k = Some t -> k.1 <> r.
Proof.
  unfold run_has_tasks. intros Hf Hk Hr. apply not_true_iff_false in Hf. apply Hf.
  apply existsb_exists. exists (k, t). split; [|by apply bool_decide_eq_true].
  by apply list_elem_of_In, elem_of_map_to_list.
Qed.

Lemma plan_task_row_state r id ts d :
  let t := plan_task_row r id ts d in
  tk_state t = (if (tk_deps_total t =? 0)%N then TsReady else TsBlocked) /\
  tk_deps_total t = u32_of_len (length (td_depends_on d)) /\ tk_deps_satisfied_count t = 0%N.
Proof. done. Qed.

Section PlanInv.
Context (s : FoldState) (r id : string) (ts : DateTime) (defs : list TaskDef).
Context (I : Inv s) (Hwf : plan_wf defs) (Hnew : run_has_tasks s r = false).

Let s' := (fold_plan_created s r defs id ts).1.

Lemma plan_parts :
  fs_runs s' = alter (plan_run_row (length defs) id) r (fs_runs s) /\
  fs_tasks s' = insert_all (plan_task_list r id ts defs) (fs_tasks s) /\
  fs_dep_satisfaction s' = insert_all (plan_edge_list r id defs) (fs_dep_satisfaction s) /\
  (forall r1 u x, x ∈ dependents s' r1 u <-> x ∈ dependents s r1 u \/
     (r1 = r /\ exists d, d ∈ defs /\ td_key d = x /\ u ∈ td_depends_on d)).
Proof using Hnew.
  unfold s', fold_plan_created. rewrite Hnew. simpl.
  set (s1 := fold_left (add_plan_edges r) defs _).
  destruct (fold_add_plan_task_spec r id ts defs s1) as (-> & HG & -> & ->).
  destruct (fold_add_plan_edges_core r defs (modify_run r (plan_run_row (length defs) id) s))
    as (E1 & E2 & E3).
  fold s1 in E1, E2, E3. rewrite E1, E2, E3. split_and!; try done.
  intros r1 u x. unfold dependents at 1. rewrite HG.
  apply (fold_add_plan_edges_graph r defs (modify_run r (plan_run_row (length defs) id) s)).
Qed.

Lemma plan_no_task k t : fs_tasks s !! k = Some t -> k.1 <> r.
Proof using Hnew. by apply run_has_tasks_false. Qed.

Lemma plan_no_edge r1 u d e : fs_dep_satisfaction s !! (r1, u, d) = Some e -> r1 <> r.
Proof using I Hnew.
  intros He. destruct (inv_edge_task s (inv_base s I) _ _ _ _ He) as [t Ht].
  exact (plan_no_task _ _ Ht).
Qed.

Lemma plan_task_lookup k t :
  fs_tasks s' !! k = Some t <->
  (exists d, d ∈ defs /\ k = (r, td_key d) /\ t = plan_task_row r id ts d) \/
  fs_tasks s !! k = Some t.
Proof using Hwf Hnew.
  destruct plan_parts as (_ & -> & _ & _).
  rewrite insert_all_Some by apply plan_task_keys_NoDup, Hwf.
  assert ((k, t) ∈ plan_task_list r id ts defs <->
    exists d, d ∈ defs /\ k = (r, td_key d) /\ t = plan_task_row r id ts d) as ->.
  { unfold plan_task_list. rewrite list_elem_of_fmap. naive_solver. }
  split; [naive_solver|]. intros [?|Hk]; [by left|]. right. split; [|done].
  rewrite plan_task_keys. intros (d & -> & _)%list_elem_of_fmap.
  by apply plan_no_task in Hk.
Qed.

Lemma plan_edges_NoDup : NoDup (plan_edge_list r id defs).*1.
Proof using Hwf.
  destruct Hwf as (Hnd & _ & Hdeps). apply plan_edge_keys_NoDup; [done|].
  eapply Forall_impl; [exact Hdeps|]. by intros d [? _].
Qed.

Lemma plan_edge_lookup r1 u x e :
  fs_dep_satisfaction s' !! (r1, u, x) = Some e <->
  (r1 = r /\ exists d, d ∈ defs /\ td_key d = x /\ u ∈ td_depends_on d /\ e = plan_edge_row r u x id) \/
  fs_dep_satisfaction s !! (r1, u, x) = Some e.
Proof using I Hwf Hnew.
  destruct plan_parts as (_ & _ & -> & _).
  rewrite insert_all_Some by apply plan_edges_NoDup. rewrite plan_edge_elem. split.
  - intros [(d & u' & Hd & Hu & [= -> -> ->] & ->)|[_ ?]]; [left; eauto 10|by right].
  - intros [(-> & d & Hd & <- & Hu & ->)|He]; [left; eauto 10|]. right. split; [|done].
    intros ([k' e'] & E & Hin)%list_elem_of_fmap. simpl in E. subst k'.
    apply plan_edge_elem in Hin as (d & u' & _ & _ & [= -> _ _] & _).
    by apply plan_no_edge in He.
Qed.

Lemma plan_run_count_other r1 P : r1 <> r -> run_count s' r1 P = run_count s r1 P.
Proof using Hwf Hnew.
  intros Hne. unfold run_count. f_equal. destruct plan_parts as (_ & -> & _ & _).
  rewrite mcount_insert_all; [|by apply plan_task_keys_NoDup, Hwf|].
  - rewrite filter_none; [done|]. intros [k t] (d & [= -> ->] & _)%list_elem_of_fmap.
    unfold in_run. simpl. by rewrite bool_decide_false.
  - intros k Hk. rewrite plan_task_keys in Hk. apply list_elem_of_fmap in Hk as (d & -> & _).
    destruct (fs_tasks s !! (r, td_key d)) eqn:E; [|done]. by apply plan_no_task in E.
Qed.

Lemma plan_run_count P (b : bool) :
  P TsReady = b -> P TsBlocked = b ->
  run_count s' r P = if b then N.of_nat (length defs) else 0%N.
Proof using Hwf Hnew.
  intros H1 H2. unfold run_count. destruct plan_parts as (_ & -> & _ & _).
  rewrite mcount_insert_all; [|by apply plan_task_keys_NoDup, Hwf|].
  - rewrite (mcount_zero _ (fs_tasks s)).
    2:{ intros k t Hk. unfold in_run. by rewrite bool_decide_false by by eapply plan_no_task. }
    assert (forall kt, kt ∈ plan_task_list r id ts defs -> in_run r P kt.1 kt.2 = b) as Hb.
    { intros [k t] (d & [= -> ->] & _)%list_elem_of_fmap. unfold in_run. simpl.
      rewrite bool_decide_true by done. simpl. by case_match. }
    rewrite Nat.add_0_r. destruct b; [rewrite filter_all by done|by rewrite filter_none].
    unfold plan_task_list. by rewrite length_fmap.
  - intros k Hk. rewrite plan_task_keys in Hk. apply list_elem_of_fmap in Hk as (d & -> & _).
    destruct (fs_tasks s !! (r, td_key d)) eqn:E; [|done]. by apply plan_no_task in E.
Qed.

Lemma old_run_count P : run_count s r P = 0%N.
Proof using Hnew.
  unfold run_count. rewrite mcount_zero; [done|]. intros k t Hk. unfold in_run.
  by rewrite bool_decide_false by by eapply plan_no_task.
Qed.

Lemma plan_edge_count r1 x Q :
  edge_count s' r1 x Q =
  (N.of_nat (length (List.filter (fun kv => into r1 x Q kv.1 kv.2) (plan_edge_list r id defs)))
   + edge_count s r1 x Q)%N.
Proof using I Hwf Hnew.
  unfold edge_count. destruct plan_parts as (_ & _ & -> & _).
  rewrite mcount_insert_all; [lia|apply plan_edges_NoDup|].
  intros k ([k' e'] & -> & Hin)%list_elem_of_fmap.
  apply plan_edge_elem in Hin as (d & u' & _ & _ & -> & _). simpl.
  destruct (fs_dep_satisfaction s !! _) eqn:E; [|done]. by apply plan_no_edge in E.
Qed.
Lemma plan_edge_count_other r1 x Q : r1 <> r -> edge_count s' r1 x Q = edge_count s r1 x Q.
Proof using I Hwf Hnew.
  intros Hne. rewrite plan_edge_count. rewrite filter_none; [done|].
  intros [k e] (d & u & _ & _ & -> & ->)%plan_edge_elem. unfold into. simpl.
  by rewrite bool_decide_false.
Qed.

Lemma old_edge_count x Q : edge_count s r x Q = 0%N.
Proof using I Hnew.
  unfold edge_count. rewrite mcount_zero; [done|]. intros [[r1 u] x1] e He.
  unfold into. simpl. by rewrite bool_decide_false by by eapply plan_no_edge.
Qed.

Lemma plan_deps_ok d : d ∈ defs -> deps_ok s' r (td_key d) (plan_task_row r id ts d).
Proof using I Hwf Hnew.
  intros Hd. destruct Hwf as (Hnd & _ & Hdeps).
  pose proof (proj1 (Forall_forall _ _) Hdeps d Hd) as [_ Hlen].
  assert (edge_count s' r (td_key d) any_edge = N.of_nat (length (td_depends_on d))) as Ht.
  { rewrite plan_edge_count, old_edge_count, (plan_edges_into r id defs d); [lia|done..]. }
  assert (edge_count s' r (td_key d) dp_satisfied = 0%N) as Hs.
  { rewrite plan_edge_count, old_edge_count, filter_none; [done|].
    intros [k e] (d1 & u & _ & _ & -> & ->)%plan_edge_elem. unfold into. by rewrite andb_false_r. }
  destruct (plan_task_row_state r id ts d) as (E1 & E2 & E3).
  rewrite u32_of_len_small in E2 by done. rewrite <- Ht in Hlen.
  split; rewrite ?E1, ?E3; try congruence.
  - by destruct (N.eqb_spec (tk_deps_total (plan_task_row r id ts d)) 0).
  - by destruct (N.eqb_spec (tk_deps_total (plan_task_row r id ts d)) 0).
Qed.

Lemma plan_counters_ok rn :
  counters_ok s r rn -> counters_ok s' r (plan_run_row (length defs) id rn).
Proof using Hwf Hnew.
  intros [C1 C2 C3 C4 C5 C6]. destruct Hwf as (_ & Hlen & _).
  split; unfold plan_run_row; simpl; rewrite ?C2, ?C3, ?C4, ?C5, ?C6, ?old_run_count;
    try by rewrite (plan_run_count _ false).
  rewrite (plan_run_count _ true) by done. by apply u32_of_len_small.
Qed.

Lemma plan_old_task k t : fs_tasks s !! k = Some t -> fs_tasks s' !! k = Some t.
Proof using Hwf Hnew. intros Hk. apply plan_task_lookup. by right. Qed.

Lemma base_plan : Base s'.
Proof using I Hwf Hnew.
  pose proof (inv_base s I) as B. split.
  - intros k t [(d & _ & -> & ->)|Hk]%plan_task_lookup; [by split|by apply (inv_task_key s B)].
  - destruct plan_parts as (-> & _). intros r1 rn. rewrite lookup_alter.
    case_decide as E1; [subst r1|by apply (inv_run_key s B)].
    destruct (fs_runs s !! r) eqn:E; [|done]. intros [= <-]. exact (inv_run_key s B _ _ E).
  - intros r1. destruct (decide (r1 = r)) as [->|].
    + rewrite (plan_run_count _ true) by done. by destruct Hwf as (_ & ? & _).
    + rewrite plan_run_count_other by done. apply (inv_run_size s B).
  - destruct plan_parts as (-> & _). intros r1 rn. rewrite lookup_alter. case_decide as E.
    + subst r1. destruct (fs_runs s !! r) eqn:Er; [|done]. intros [= <-].
      by apply plan_counters_ok, (inv_counters s B).
    + intros Hr. apply (counters_ok_ext s); [|by apply (inv_counters s B)].
      intros P _. by apply plan_run_count_other.
  - intros r1 u x. destruct plan_parts as (_ & _ & _ & ->).
    rewrite (inv_graph s B). unfold is_Some. setoid_rewrite plan_edge_lookup. naive_solver.
  - intros r1 u x e [(-> & d & _ & <- & _ & ->)|He]%plan_edge_lookup; [done|].
    by apply (inv_edge_key s B).
  - intros r1 u x e [(-> & d & Hd & <- & _ & ->)|He]%plan_edge_lookup.
    + exists (plan_task_row r id ts d). apply plan_task_lookup. left; eauto.
    + destruct (inv_edge_task s B _ _ _ _ He) as [t Ht]. exists t. by apply plan_old_task.
  - intros r1 x t [(d & Hd & [= -> ->] & ->)|Hk]%plan_task_lookup; [by apply plan_deps_ok|].
    pose proof (plan_no_task _ _ Hk) as Hne. destruct (inv_deps s B _ _ _ Hk).
    by split; rewrite ?plan_edge_count_other.
  - intros r1 u x e [(-> & d & _ & <- & _ & ->)|He]%plan_edge_lookup Hs; [done|].
    destruct (inv_satisfied s B _ _ _ _ He Hs) as (t & Ht & ?). exists t.
    split; [by apply plan_old_task|done].
Qed.

Lemma plan_runs_ok : runs_ok s'.
Proof using I Hwf Hnew.
  intros r1 rn. destruct plan_parts as (-> & _). rewrite lookup_alter.
  case_decide as E; [|by apply (inv_status s I)]. subst r1.
  destruct (fs_runs s !! r) as [rn0|] eqn:Er; [|done]. intros [= <-].
  pose proof (inv_counters s (inv_base s I) _ _ Er) as [_ C2 _ _ _ _].
  rewrite old_run_count in C2. split; [done|]. unfold plan_run_row. simpl. rewrite C2. lia.
Qed.

Lemma plan_woken : woken (fun _ => False) s'.
Proof using I Hwf Hnew.
  intros r1 u t x e [(d & Hd & [= -> ->] & ->)|Hk]%plan_task_lookup Hst _ He.
  - simpl in Hst. by case_match.
  - apply plan_edge_lookup in He as [(-> & _)|He]; [by apply plan_no_task in Hk|].
    by eapply (inv_woken s I r1 u t); eauto.
Qed.

Lemma inv_plan_new : Inv s'.
Proof using I Hwf Hnew. split; [apply base_plan|apply plan_runs_ok|apply plan_woken]. Qed.
End PlanInv.

Lemma inv_plan s r id ts defs :
  Inv s -> plan_wf defs -> Inv (fold_plan_created s r defs id ts).1.
Proof.
  intros I Hwf. destruct (run_has_tasks s r) eqn:E; [|by apply inv_plan_new].
  unfold fold_plan_created. by rewrite E.
Qed.

(** ** Cancellations *)

(** A run part way through its cancellation. *)
Definition cancelling (rn : RunRow) : Prop :=
  run_is_terminal (rn_state rn) = false /\
  ((0 < rn_tasks_total rn)%N -> rn_tasks_completed rn = rn_tasks_total rn ->
   (0 < rn_tasks_cancelled rn)%N).

Record CancelInv (r : string) (s : FoldState) : Prop := {
  ca_base : Base s;
  ca_run : forall rn, fs_runs s !! r = Some rn -> cancelling rn;
  ca_others : forall r1 rn, r1 <> r -> fs_runs s !! r1 = Some rn -> status_ok rn;
  ca_woken : woken (fun _ => False) s
}.

Lemma cancel_task_finishes id t :
  task_is_terminal (tk_state t) = false -> finishes t (cancel_task_row id t).
Proof. by repeat split. Qed.

Lemma cancel_one_inv r id s key t :
  CancelInv r s -> key.1 = r -> fs_tasks s !! key = Some t ->
  task_is_terminal (tk_state t) = false -> CancelInv r (cancel_one r id s key).
Proof.
  intros [B HR HO HW] <- Ht Hlive. unfold cancel_one. rewrite (modify_task_Some _ _ _ t) by done.
  pose proof (cancel_task_finishes id t Hlive) as F. split.
  - apply (base_finish s key t); [done..|]. intros rn. apply cancel_counters_counts.
  - intros rn. simpl. rewrite lookup_alter_eq.
    destruct (fs_runs s !! key.1) as [rn0|] eqn:Er; [|done]. intros [= <-].
    split; [apply (HR _ eq_refl)|]. simpl. intros _ _.
    rewrite (co_cancelled _ _ _ (inv_counters s B _ _ Er)).
    assert (is_state TsCancelled (tk_state t) = false) as Hf.
    { unfold is_state. case_bool_decide as E; [by rewrite E in Hlive|done]. }
    rewrite (run_count_bump s key t (cancel_task_row id t)) by done.
    rewrite (run_count_set_new s key t) by done. lia.
  - intros r1 rn Hne. simpl. rewrite lookup_alter_ne by done. by apply HO.
  - by apply (woken_set_task _ s key (cancel_task_row id t)
               (alter (cancel_run_counters id) key.1 (fs_runs s))).
Qed.

Lemma cancel_one_lookup r id s key k :
  k <> key -> fs_tasks (cancel_one r id s key) !! k = fs_tasks s !! k.
Proof. intros Hne. unfold cancel_one. simpl. by rewrite lookup_alter_ne. Qed.

Lemma cancel_loop_inv r id keys s :
  CancelInv r s -> NoDup keys ->
  (forall key, key ∈ keys -> key.1 = r /\
     exists t, fs_tasks s !! key = Some t /\ task_is_terminal (tk_state t) = false) ->
  CancelInv r (fold_left (cancel_one r id) keys s).
Proof.
  revert s. induction keys as [|key keys IH]; intros s C Hnd Hk; [done|].
  apply NoDup_cons in Hnd as [Hnin Hnd]. simpl.
  destruct (Hk key ltac:(by left)) as (Hr & t & Ht & Hlive).
  apply IH; [by apply (cancel_one_inv r id s key t)|done|].
  intros k Hin. destruct (Hk k ltac:(by right)) as (Hr1 & t1 & Ht1 & Hl1). split; [done|].
  exists t1. rewrite cancel_one_lookup by (intros ->; done). done.
Qed.

Lemma tasks_to_cancel_NoDup s r : NoDup (tasks_to_cancel s r).
Proof.
  unfold tasks_to_cancel. pose proof (NoDup_fst_map_to_list (fs_tasks s)) as Hnd.
  induction (map_to_list (fs_tasks s)) as [|[k t] l IH]; [constructor|].
  apply NoDup_cons in Hnd as [Hk Hnd]. simpl. case_match; [|by apply IH].
  apply NoDup_cons. split; [|by apply IH].
  intros ([k' t'] & E & Hin)%list_elem_of_fmap. simpl in E. subst k'. apply Hk.
  apply list_elem_of_In, filter_In in Hin as [Hin _]. apply list_elem_of_fmap.
  exists (k, t'). split; [done|]. by apply list_elem_of_In.
Qed.

Lemma runs_ok_cancelling rn : status_ok rn -> run_is_terminal (rn_state rn) = false -> cancelling rn.
Proof.
  intros [S1 S2] Hnt. split; [done|]. intros Hpos Heq.
  rewrite (S2 Hpos Heq), run_verdict_terminal in Hnt. done.
Qed.

Lemma cancel_complete_ok id ts rn : cancelling rn -> status_ok (cancel_complete id ts rn).
Proof.
  intros [Hnt Hc]. unfold cancel_complete.
  destruct (N.eqb_spec (rn_tasks_completed rn) (rn_tasks_total rn)) as [E|E]; simpl.
  - split; simpl; [done|]. intros Hpos _. unfold run_verdict.
    by rewrite (proj2 (N.ltb_lt _ _) (Hc Hpos E)).
  - split; congruence.
Qed.

Lemma cancel_inv_start s r id :
  Inv s -> (forall rn, fs_runs s !! r = Some rn -> run_is_terminal (rn_state rn) = false) ->
  CancelInv r (modify_run r (request_cancel id) s).
Proof.
  intros [B HR HW] Hnt. split; [| | |done].
  - apply base_set_runs; [done|]. intros r1 rn. rewrite lookup_alter. case_decide as E.
    + subst r1. destruct (fs_runs s !! r) as [rn0|] eqn:Er; [|done]. intros [= <-].
      split; [exact (inv_run_key s B _ _ Er)|]. by destruct (inv_counters s B _ _ Er).
    + intros Er. split; [exact (inv_run_key s B _ _ Er)|exact (inv_counters s B _ _ Er)].
  - intros rn. simpl. rewrite lookup_alter_eq.
    destruct (fs_runs s !! r) as [rn0|] eqn:Er; [|done]. intros [= <-].
    destruct (runs_ok_cancelling rn0 (HR _ _ Er) (Hnt _ eq_refl)). by split.
  - intros r1 rn Hne. simpl. rewrite lookup_alter_ne by done. apply HR.
Qed.

Lemma cancel_inv_end s r id ts :
  CancelInv r s -> Inv (modify_run r (cancel_complete id ts) s).
Proof.
  intros [B HR HO HW]. split; [| |done].
  - apply base_set_runs; [done|]. intros r1 rn. rewrite lookup_alter. case_decide as E.
    + subst r1. destruct (fs_runs s !! r) as [rn0|] eqn:Er; [|done]. intros [= <-].
      pose proof (inv_run_key s B _ _ Er). pose proof (inv_counters s B _ _ Er) as [].
      unfold cancel_complete. case_match; by repeat split.
    + intros Er. split; [exact (inv_run_key s B _ _ Er)|exact (inv_counters s B _ _ Er)].
  - intros r1 rn. simpl. rewrite lookup_alter. case_decide as E; [subst r1|by apply HO].
    destruct (fs_runs s !! r) as [rn0|] eqn:Er; [|done]. intros [= <-].
    by apply cancel_complete_ok, HR.
Qed.

Lemma inv_cancel s r id ts : Inv s -> Inv (fold_run_cancel_requested s r id ts).1.
Proof.
  intros I. unfold fold_run_cancel_requested.
  destruct (option_bool _ (fs_runs s !! r)) eqn:E; [done|]. simpl.
  apply cancel_inv_end, cancel_loop_inv; [|apply tasks_to_cancel_NoDup|].
  - apply cancel_inv_start; [done|]. intros rn Hrn. rewrite Hrn in E. exact E.
  - intros key (t & Ht & Hr & Hl & _)%tasks_to_cancel_spec. eauto.
Qed.

(** ** Every step preserves the invariant *)

Lemma inv_micro s s' : micro s s' -> Inv s -> Inv s'.
Proof.
  destruct 1 as [s s' Hc|s key t t' Ht Hu|s key t t' f Ht F Hns Hf|s r u t t' f att id ts Ht F Hst Hf
    |s r u t d res id ts Ht Hst Hd|s r plan rk lb cv id ts|s r defs id ts Hwf|s r id ts];
    intros I; pose proof I as [B HR HW].
  - split; [by apply (base_same_core s)|by apply (runs_ok_same_core s)|by apply (woken_same_core s)].
  - split; [by apply (base_task_update s key t)|done|].
    apply (woken_set_task _ s key t' (fs_runs s)); [done|]. intros E. right. exists t.
    split; [done|]. destruct (task_update_spec _ _ Hu) as [[<- _]|(_ & Ha & _)]; [done|]. by rewrite E in Ha.
  - split; [|by apply (runs_ok_finish s key t)|].
    + apply (base_finish s key t); [done..|]. intros rn. by apply run_bump_counts.
    + by apply (woken_set_task _ s key t' (alter f key.1 (fs_runs s))).
  - by apply (inv_succeed s r u t).
  - apply (inv_graph s B) in Hd as [e He].
    assert (dp_satisfied e = false) as Hf.
    { destruct (dp_satisfied e) eqn:Hs; [|done].
      destruct (inv_satisfied s B _ _ _ _ He Hs) as (t1 & ? & ?). congruence. }
    split; [by apply (base_set_edge s r u d e)|done|].
    apply woken_set_edge; [done|]. intros t1 ? ?. congruence.
  - by apply inv_trigger.
  - by apply inv_plan.
  - by apply inv_cancel.
Qed.

Lemma inv_steps s s' : steps s s' -> Inv s -> Inv s'.
Proof. induction 1; eauto using inv_micro. Qed.

Lemma inv_new secret : Inv (fold_state_new secret).
Proof.
  split; [|intros ?? Hl; simpl in Hl; by rewrite lookup_empty in Hl|].
  - split; simpl; try (intros *; rewrite lookup_empty; done).
    + intros r. unfold run_count. simpl. by rewrite mcount_empty.
    + intros r u d. unfold dependents. simpl. rewrite !lookup_empty. simpl.
      rewrite elem_of_nil. split; [done|]. by intros [].
  - intros r u t d e Hl. simpl in Hl. by rewrite lookup_empty in Hl.
Qed.
