(* ===== verification/Sample.v ===== *)
(** A sample ledger.

    Concrete values for the parameters of the model (toy digests, a toy clock and
    serializer) and a short ledger on a three-task plan, on which the definitions
    run.  The witness lemmas of the development evaluate on it. *)

From S2P Require Import Prelude Events FoldTypes FoldTasks Fold.
From stdpp Require Import options.

#[export] Instance sample_hashes : Hashes := {|
  sha256 := fun x => x;
  hmac_sha256 := fun k x => k +:+ x;
  hex_encode := fun x => x;
  base32_encode := fun x => x
|}.

#[export] Instance sample_chrono : Chrono := {|
  timestamp_millis := fun t => (t / 1000000)%Z;
  from_timestamp := fun t => Some (t * 1000000000)%Z;
  utc_now := 0%Z
|}.

#[export] Instance sample_json : SerdeJson := fun _ => None.

Definition sample_event (id : string) (data : OrchestrationEventData) : OrchestrationEvent :=
  new_with_timestamp id "t" "w" data 1000.

Definition sample_def (key : string) (deps : list string) : TaskDef :=
  mkTaskDef key deps (Some ("ns/" +:+ key)) None 2 60 false.

(** [b] depends on [a], [c] on [a] and [b]. *)
Definition sample_plan : list TaskDef :=
  [sample_def "a" []; sample_def "b" ["a"]; sample_def "c" ["a"; "b"]].

Definition sample_trigger : OrchestrationEvent :=
  sample_event "01" (RunTriggered "r" "p" (TrigManual "u") [] None ∅ None).

Definition sample_planned : OrchestrationEvent :=
  sample_event "02" (PlanCreated "r" "p" sample_plan).

Definition sample_dispatch (id key : string) (attempt : u32) : OrchestrationEvent :=
  sample_event id (DispatchRequested "r" key attempt (key +:+ pretty attempt) "q"
                     (dispatch_id "r" key attempt)).

Definition sample_start (id key : string) (attempt : u32) : OrchestrationEvent :=
  sample_event id (TaskStarted "r" key attempt (key +:+ pretty attempt) "worker").

Definition sample_finished_data (key : string) (attempt : u32) (outcome : TaskOutcome) :
    TaskFinishedData :=
  mkTaskFinishedData "r" key attempt (key +:+ pretty attempt) "worker" outcome None None None None
    None None None None None None.

Definition sample_finish (id key : string) (attempt : u32) (outcome : TaskOutcome) :
    OrchestrationEvent :=
  sample_event id (TaskFinished (sample_finished_data key attempt outcome)).

Definition sample_cancel (id : string) : OrchestrationEvent :=
  sample_event id (RunCancelRequested "r" None "u").

Definition sample_new : FoldState := fold_state_new "secret".

(** [a] has succeeded: [b] is ready, [c] is blocked. *)
Definition sample_ledger : list OrchestrationEvent :=
  [sample_trigger; sample_planned; sample_dispatch "03" "a" 1; sample_start "04" "a" 1;
   sample_finish "05" "a" 1 OutSucceeded].

Definition sample_state : FoldState := fold_events sample_new sample_ledger.

(** ** Evaluation *)

(** Decide the goal by evaluating it. *)
Ltac by_computation := apply (bool_decide_unpack _); vm_compute; exact I.

Lemma sample_lookup {A} (o : option A) :
  bool_decide (is_Some o) = true -> { a : A | o = Some a }.
Proof. destruct o as [a|]; [by exists a|]. done. Defined.

(** Name the row a lookup finds in a concrete state. *)
Tactic Notation "take" constr(o) "as" ident(x) "with" ident(H) :=
  let Hs := fresh in
  assert (bool_decide (is_Some o) = true) as Hs by (vm_compute; reflexivity);
  destruct (sample_lookup o Hs) as [x H]; clear Hs.
