(* ===== verification/FoldProps.v ===== *)
(** Runs and tasks: what the fold guarantees.

    The lifecycle of a task under any event, the consequences of the invariant in
    every state folded from the empty one, and two ledgers on which a state
    moves backwards. *)

From stdpp Require Import relations.
From S2P Require Import Prelude Events FoldTypes FoldTasks FoldDispatch FoldAutomation Fold FoldIdempotence FoldMachine FoldPropagate FoldInvariant FoldReach Sample.
From stdpp Require Import options.

(** ** The lifecycle of one task *)

(** How an event may move a task row. *)
Record moves (t t' : TaskRow) : Prop := {
  mv_steps : rtc task_step (lifecycle t) (lifecycle t');
  mv_output : output_settled t = true -> tk_output_visibility_state t' = tk_output_visibility_state t
}.

(** Task [key] survives and moves. *)
Definition task_moves (key : string * string) (s s' : FoldState) : Prop :=
  forall t, fs_tasks s !! key = Some t -> exists t', fs_tasks s' !! key = Some t' /\ moves t t'.

Lemma task_step_frozen x y :
  rtc task_step x y -> task_is_terminal x.1 = true -> y = x.
Proof.
  intros H Hx. induction H as [x|x y z Hs H IH]; [done|].
  destruct (task_step_spec _ _ Hs). congruence.
Qed.

Lemma task_step_attempt x y : rtc task_step x y -> (x.2 <= y.2)%N.
Proof.
  induction 1 as [x|x y z Hs H IH]; [lia|]. etrans; [|exact IH]. by apply task_step_spec.
Qed.

Lemma moves_refl t : moves t t.
Proof. split; [apply rtc_refl|done]. Qed.

Lemma moves_settled t t' :
  moves t t' -> output_settled t = true ->
  output_settled t' = true /\ tk_output_visibility_state t' = tk_output_visibility_state t.
Proof.
  intros [Hs Ho] Ht. pose proof (Ho Ht) as Hv. split; [|done].
  pose proof (task_step_frozen _ _ Hs (output_settled_terminal t Ht)) as E.
  unfold lifecycle in E. injection E as E _. unfold output_settled in *. by rewrite E, Hv.
Qed.

Lemma moves_trans t1 t2 t3 : moves t1 t2 -> moves t2 t3 -> moves t1 t3.
Proof.
  intros H12 H23. split; [by etrans; [apply H12|apply H23]|]. intros Ho.
  destruct (moves_settled _ _ H12 Ho) as [Ho2 <-]. by apply H23.
Qed.

Lemma task_moves_same key s s' : fs_tasks s' !! key = fs_tasks s !! key -> task_moves key s s'.
Proof. intros E t Ht. exists t. rewrite E. split; [done|apply moves_refl]. Qed.

Lemma task_moves_trans key s1 s2 s3 :
  task_moves key s1 s2 -> task_moves key s2 s3 -> task_moves key s1 s3.
Proof.
  intros H12 H23 t Ht. destruct (H12 t Ht) as (t2 & Ht2 & Hs2).
  destruct (H23 t2 Ht2) as (t3 & Ht3 & Hs3). exists t3. split; [done|by eapply moves_trans].
Qed.

Lemma task_moves_set key s k t t' :
  fs_tasks s !! k = Some t -> moves t t' -> task_moves key s (set_task s k t').
Proof.
  intros Hk Hs t0 Ht0. unfold set_task. simpl. rewrite lookup_insert.
  case_decide; [subst|by exists t0; split; [|apply moves_refl]].
  assert (t0 = t) as -> by congruence. eauto.
Qed.

Lemma task_update_step t t' : task_update t t' -> moves t t'.
Proof.
  intros (_ & Hl & Ho). split; [|done].
  destruct Hl as [-> | [Hs _]]; [apply rtc_refl|by apply rtc_once].
Qed.

Lemma finishes_step t t' : finishes t t' -> moves t t'.
Proof.
  unfold lifecycle. intros [_ H1 H2 H3]. split.
  - unfold lifecycle. rewrite H3. by apply rtc_once, step_end.
  - intros Ho%output_settled_terminal. congruence.
Qed.

Lemma satisfy_edge_moves key r u att id ts s d :
  task_moves key s (satisfy_edge r u DepSuccess att id ts s d).
Proof.
  unfold satisfy_edge. case_match; [by apply task_moves_same|].
  destruct (fs_tasks s !! (r, d)) as [t|] eqn:Ht.
  - rewrite (modify_task_Some _ _ _ t) by done.
    apply (task_moves_set key (set_edge s (r, u, d) (satisfied_edge_row r u d DepSuccess att id ts))
             (r, d) t); [done|].
    split; [|intros _; unfold satisfy_task_row; simpl; by case_match]. unfold lifecycle.
    destruct (satisfy_task_row_spec id ts t) as (_ & _ & _ & _ & -> & ->).
    destruct (_ && _) eqn:E; [|apply rtc_refl]. bool_hyps. rewrite H1. apply rtc_once, step_ready.
  - rewrite modify_task_None by done. by apply task_moves_same.
Qed.

Lemma cancel_loop_moves key r id keys s :
  NoDup keys -> (forall k, k ∈ keys -> exists t, fs_tasks s !! k = Some t /\
                  task_is_terminal (tk_state t) = false) ->
  task_moves key s (fold_left (cancel_one r id) keys s).
Proof.
  revert s. induction keys as [|k keys IH]; intros s Hnd Hk; [by apply task_moves_same|].
  apply NoDup_cons in Hnd as [Hnin Hnd]. simpl.
  destruct (Hk k ltac:(by left)) as (t & Ht & Hl).
  apply (task_moves_trans _ _ (cancel_one r id s k)).
  - unfold cancel_one. rewrite (modify_task_Some _ _ _ t) by done.
    apply (task_moves_set key s k t _ Ht), finishes_step, cancel_task_finishes, Hl.
  - apply IH; [done|]. intros k' Hk'. rewrite cancel_one_lookup by (intros ->; done).
    apply Hk. by right.
Qed.

Lemma plan_moves key s r defs id ts : task_moves key s (fold_plan_created s r defs id ts).1.
Proof.
  intros t Ht. exists t. split; [|apply moves_refl]. unfold fold_plan_created.
  destruct (run_has_tasks s r) eqn:E; [done|]. simpl.
  pose proof (run_has_tasks_false _ _ _ _ E Ht) as Hne.
  destruct (fold_add_plan_task_spec r id ts defs (fold_left (add_plan_edges r) defs
    (modify_run r (plan_run_row (length defs) id) s))) as (_ & _ & -> & _).
  destruct (fold_add_plan_edges_core r defs (modify_run r (plan_run_row (length defs) id) s))
    as (_ & -> & _).
  rewrite insert_all_not_in; [done|]. rewrite plan_task_keys.
  by intros (d & -> & _)%list_elem_of_fmap.
Qed.

Lemma micro_moves key s s' : micro s s' -> task_moves key s s'.
Proof.
  destruct 1 as [s s' Hc|s k t t' Ht Hu|s k t t' f Ht F Hns Hf|s r u t t' f att id ts Ht F Hst Hf
    |s r u t d res id ts Ht Hst Hd|s r plan rk lb cv id ts|s r defs id ts Hwf|s r id ts].
  - apply task_moves_same. by rewrite (sc_tasks _ _ Hc).
  - by apply (task_moves_set key s k t), task_update_step.
  - by apply (task_moves_set key s k t), finishes_step.
  - apply (task_moves_trans _ _ (set_task s (r, u) t'));
      [by apply (task_moves_set key s (r, u) t), finishes_step|].
    unfold satisfy_downstream_edges. generalize (dependents (modify_run r f (set_task s (r, u) t')) r u).
    assert (task_moves key (set_task s (r, u) t') (modify_run r f (set_task s (r, u) t'))) as H0
      by by apply task_moves_same.
    revert H0. generalize (modify_run r f (set_task s (r, u) t')). intros s1 H0 ds. revert s1 H0.
    induction ds as [|d ds IH]; intros s1 H0; [done|]. simpl. apply IH.
    eapply task_moves_trans; [exact H0|]. apply satisfy_edge_moves.
  - by apply task_moves_same.
  - unfold fold_run_triggered. case_match; by apply task_moves_same.
  - apply plan_moves.
  - unfold fold_run_cancel_requested. case_match; [by apply task_moves_same|]. simpl.
    match goal with |- task_moves _ _ (modify_run _ _ ?s2) => apply (task_moves_trans _ _ s2) end;
      [|by apply task_moves_same].
    apply (cancel_loop_moves key r id _ (modify_run r (request_cancel id) s));
      [apply tasks_to_cancel_NoDup|].
    intros k (t & Ht & _ & Hl & _)%tasks_to_cancel_spec. eauto.
Qed.

Lemma steps_moves key s s' : steps s s' -> task_moves key s s'.
Proof.
  induction 1; [by apply task_moves_same|]. eapply task_moves_trans; [by apply micro_moves|done].
Qed.

Section Lifecycle.
Context `{Hashes} `{Chrono} `{SerdeJson}.

Lemma fold_event_moves key s e : task_moves key s (fold_event s e).
Proof.
  destruct (decide (event_wf e)) as [Hwf|Hwf]; [by apply steps_moves, fold_event_micro|].
  unfold event_wf in Hwf. destruct (ev_data e) as [| r p defs | | | | | | | | | | | | | | | | | | |] eqn:E;
    try (exfalso; by apply Hwf).
  unfold fold_event. case_match; [by apply task_moves_same|].
  unfold apply_event. rewrite E. pose proof (plan_moves key s r defs (ev_event_id e) (ev_timestamp e)) as Hp.
  destruct (fold_plan_created s r defs (ev_event_id e) (ev_timestamp e)) as [s1 [|]]; simpl in *; [|done].
  apply (task_moves_trans _ _ s1); [done|]. apply task_moves_same.
  unfold record_idempotency_key, refresh_catalog_run_index_for_run. by repeat case_match.
Qed.

(** C3: the lifecycle of a task.  Whatever event is folded, in whatever state, a
    task row never disappears; its state and attempt number move along
    [task_step] only: blocked to ready; ready, retrying or dispatched to
    dispatched; a live task to running; a live attempt to waiting for its retry; a
    live task to a terminal state.  In particular its attempt number
    never decreases, and a terminal task keeps its state and attempt for ever. *)
Theorem fold_event_lifecycle s e key t :
  fs_tasks s !! key = Some t ->
  exists t', fs_tasks (fold_event s e) !! key = Some t' /\
    rtc task_step (lifecycle t) (lifecycle t') /\
    (tk_attempt t <= tk_attempt t')%N /\
    (task_is_terminal (tk_state t) = true ->
     tk_state t' = tk_state t /\ tk_attempt t' = tk_attempt t).
Proof.
  intros Ht. destruct (fold_event_moves key s e t Ht) as (t' & Ht' & [Hs _]).
  exists t'. split_and!; [done|done|by apply (task_step_attempt _ _ Hs)|].
  intros E. pose proof (task_step_frozen _ _ Hs E) as Heq. unfold lifecycle in Heq.
  by injection Heq as -> ->.
Qed.

Lemma fold_events_moves key s es : task_moves key s (fold_events s es).
Proof.
  revert s. induction es as [|e es IH]; intros s; [by apply task_moves_same|]. simpl.
  eapply task_moves_trans; [apply fold_event_moves|apply IH].
Qed.

(** A settled output stays settled.  Once the output of a succeeded task is
    visible, or its publication has failed, that verdict is final: no sequence of
    events changes it. *)
Theorem output_settled_forever s es key t :
  fs_tasks s !! key = Some t -> output_settled t = true ->
  exists t', fs_tasks (fold_events s es) !! key = Some t' /\ output_settled t' = true /\
    tk_output_visibility_state t' = tk_output_visibility_state t.
Proof.
  intros Ht Ho. destruct (fold_events_moves key s es t Ht) as (t' & Ht' & Hm).
  exists t'. split; [done|]. by apply (moves_settled t).
Qed.

(** ** Reachable states *)

(** The states folded from the empty one by ledgers whose plans are well formed. *)
Definition reachable (s : FoldState) : Prop :=
  exists secret es, Forall event_wf es /\ s = fold_events (fold_state_new secret) es.

Lemma reachable_inv s : reachable s -> Inv s.
Proof.
  intros (secret & es & Hwf & ->).
  apply (inv_steps (fold_state_new secret)); [by apply fold_events_micro|apply inv_new].
Qed.

(** All the tasks of run [r] are terminal. *)
Definition all_terminal (s : FoldState) (r : string) : Prop :=
  forall k t, fs_tasks s !! (r, k) = Some t -> task_is_terminal (tk_state t) = true.

(** Some task of run [r] is in state [st]. *)
Definition some_task (s : FoldState) (r : string) (st : TaskState) : Prop :=
  exists k t, fs_tasks s !! (r, k) = Some t /\ tk_state t = st.

Lemma run_count_pos s r P :
  (0 < run_count s r P)%N <->
  exists k t, fs_tasks s !! (r, k) = Some t /\ P (tk_state t) = true.
Proof.
  unfold run_count. split.
  - intros Hpos. destruct (mcount (in_run r P) (fs_tasks s)) as [|n] eqn:E; [lia|].
    unfold mcount in E.
    destruct (List.filter _ (map_to_list (fs_tasks s))) as [|[[r' k] t] l] eqn:El; [done|].
    assert (In ((r', k), t) (List.filter (fun kv => in_run r P kv.1 kv.2) (map_to_list (fs_tasks s))))
      as Hin by (rewrite El; by left).
    apply filter_In in Hin as [Hin HP]. apply list_elem_of_In, elem_of_map_to_list in Hin.
    unfold in_run in HP. simpl in HP. bool_hyps. subst. eauto.
  - intros (k & t & Ht & HP).
    enough (0 < mcount (in_run r P) (fs_tasks s)) by lia.
    apply (mcount_pos _ _ (r, k) t); [done|]. unfold in_run. by rewrite bool_decide_true.
Qed.

Lemma run_count_all s r :
  run_count s r task_is_terminal = run_count s r any_state <-> all_terminal s r.
Proof.
  split.
  - intros Hc k t Ht. unfold run_count in Hc. apply Nat2N.inj in Hc.
    assert (in_run r task_is_terminal (r, k) t = true) as Hi.
    { eapply mcount_eq_all; [|exact Hc|exact Ht|unfold in_run; by rewrite bool_decide_true].
      unfold in_run. intros k' v _ Hk. bool_hyps. by rewrite bool_decide_true. }
    unfold in_run in Hi. by bool_hyps.
  - intros Hall. unfold run_count. f_equal. apply mcount_ext. intros [r' k] t Ht.
    unfold in_run. simpl. case_bool_decide; [subst; simpl; by eapply Hall|done].
Qed.

Lemma is_state_pos s r st : (0 < run_count s r (is_state st))%N <-> some_task s r st.
Proof.
  rewrite run_count_pos. unfold some_task, is_state. by setoid_rewrite bool_decide_eq_true.
Qed.

Lemma inv_counters_exact s r rn :
  Inv s -> fs_runs s !! r = Some rn ->
  rn_tasks_total rn = run_count s r any_state /\
  rn_tasks_completed rn = run_count s r task_is_terminal /\
  rn_tasks_succeeded rn = run_count s r (is_state TsSucceeded) /\
  rn_tasks_failed rn = run_count s r (is_state TsFailed) /\
  rn_tasks_skipped rn = run_count s r (is_state TsSkipped) /\
  rn_tasks_cancelled rn = run_count s r (is_state TsCancelled).
Proof.
  intros I Hr. by destruct (inv_counters s (inv_base s I) r rn Hr).
Qed.

(** C4: the run counters are exact.  In every reachable state the counters of a
    run row are the numbers of its tasks: in total, terminal, succeeded, failed,
    skipped and cancelled, whatever mixture of completions, propagated skips and
    cancellations produced them, and even when the run was triggered after its
    tasks were planned or finished.  No counter wraps around. *)
Theorem reachable_counters s r rn :
  reachable s -> fs_runs s !! r = Some rn ->
  rn_tasks_total rn = run_count s r any_state /\
  rn_tasks_completed rn = run_count s r task_is_terminal /\
  rn_tasks_succeeded rn = run_count s r (is_state TsSucceeded) /\
  rn_tasks_failed rn = run_count s r (is_state TsFailed) /\
  rn_tasks_skipped rn = run_count s r (is_state TsSkipped) /\
  rn_tasks_cancelled rn = run_count s r (is_state TsCancelled).
Proof. intros Hre. by apply inv_counters_exact, reachable_inv. Qed.

Lemma inv_run_verdict s r rn :
  Inv s -> fs_runs s !! r = Some rn -> (exists k, is_Some (fs_tasks s !! (r, k))) ->
  (run_is_terminal (rn_state rn) = true <-> all_terminal s r) /\
  (all_terminal s r ->
     (rn_state rn = RsCancelled <-> some_task s r TsCancelled) /\
     (rn_state rn = RsFailed <-> ~ some_task s r TsCancelled /\ some_task s r TsFailed) /\
     (rn_state rn = RsSucceeded <-> ~ some_task s r TsCancelled /\ ~ some_task s r TsFailed)).
Proof.
  intros I Hr [k [t Ht]].
  destruct (inv_counters s (inv_base s I) r rn Hr) as [C1 C2 _ C4 _ C6].
  destruct (inv_status s I r rn Hr) as [S1 S2]. rewrite C1, C2 in S1, S2. rewrite C4, C6 in S2.
  assert (0 < run_count s r any_state)%N as Hpos by (apply run_count_pos; eauto).
  rewrite run_count_all in S1, S2. split.
  - split; [done|]. intros Ha. rewrite (S2 Hpos Ha). apply run_verdict_terminal.
  - intros Ha. rewrite (S2 Hpos Ha). rewrite <- !is_state_pos. unfold run_verdict.
    destruct (N.ltb_spec 0 (run_count s r (is_state TsCancelled))),
      (N.ltb_spec 0 (run_count s r (is_state TsFailed))); split_and!; split; intros; destruct_and?;
      try done; try lia; split; lia.
Qed.

(** a run ends with its tasks.  In every reachable state, a run that has
    tasks is terminal exactly when all of them are, and its verdict is then
    cancelled if some task was cancelled, else failed if some task failed, else
    succeeded. *)
Theorem reachable_run_verdict s r rn :
  reachable s -> fs_runs s !! r = Some rn -> (exists k, is_Some (fs_tasks s !! (r, k))) ->
  (run_is_terminal (rn_state rn) = true <-> all_terminal s r) /\
  (all_terminal s r ->
     (rn_state rn = RsCancelled <-> some_task s r TsCancelled) /\
     (rn_state rn = RsFailed <-> ~ some_task s r TsCancelled /\ some_task s r TsFailed) /\
     (rn_state rn = RsSucceeded <-> ~ some_task s r TsCancelled /\ ~ some_task s r TsFailed)).
Proof. intros Hre. by apply inv_run_verdict, reachable_inv. Qed.

Lemma inv_ready s r d t :
  Inv s -> fs_tasks s !! (r, d) = Some t -> tk_state t = TsReady ->
  forall u, d ∈ get_dependents s r u ->
    (exists e, fs_dep_satisfaction s !! (r, u, d) = Some e /\ dp_satisfied e = true) /\
    (exists tu, fs_tasks s !! (r, u) = Some tu /\ tk_state tu = TsSucceeded).
Proof.
  intros I Ht Hst u Hu. pose proof (inv_base s I) as B.
  apply (inv_graph s B) in Hu as [e He]. destruct (inv_deps s B r d t Ht) as [D1 D2 _ D4 _].
  pose proof (D4 Hst) as Heq. rewrite D1, D2 in Heq.
  pose proof (edge_count_all s r u d e Heq He) as Hs.
  split; [eauto|]. by apply (inv_satisfied s B r u d e).
Qed.

(** C6: readiness is sound.  In every reachable state, a ready task has every
    dependency satisfied, and every upstream task of its plan has succeeded. *)
Theorem reachable_ready s r d t :
  reachable s -> fs_tasks s !! (r, d) = Some t -> tk_state t = TsReady ->
  forall u, d ∈ get_dependents s r u ->
    (exists e, fs_dep_satisfaction s !! (r, u, d) = Some e /\ dp_satisfied e = true) /\
    (exists tu, fs_tasks s !! (r, u) = Some tu /\ tk_state tu = TsSucceeded).
Proof. intros Hre. by apply inv_ready, reachable_inv. Qed.

Lemma inv_blocked s r d t :
  Inv s -> fs_tasks s !! (r, d) = Some t -> tk_state t = TsBlocked ->
  exists u, d ∈ get_dependents s r u /\
    forall tu, fs_tasks s !! (r, u) = Some tu -> tk_state tu <> TsSucceeded.
Proof.
  intros I Ht Hst. pose proof (inv_base s I) as B.
  destruct (inv_deps s B r d t Ht) as [D1 D2 _ _ D5]. pose proof (D5 Hst) as Hne.
  rewrite D1, D2 in Hne.
  assert (exists u e, fs_dep_satisfaction s !! (r, u, d) = Some e /\ dp_satisfied e = false)
    as (u & e & He & Hf) by by apply edge_count_unsatisfied.
  exists u. split; [apply (inv_graph s B); eauto|]. intros tu Htu Hsu.
  by rewrite (inv_woken s I r u tu d e Htu Hsu ltac:(tauto) He) in Hf.
Qed.

(** no lost wake-up.  In every reachable state, a blocked task waits for some
    upstream task of its plan that has not succeeded: once the last dependency
    succeeds the task cannot stay blocked. *)
Theorem reachable_blocked s r d t :
  reachable s -> fs_tasks s !! (r, d) = Some t -> tk_state t = TsBlocked ->
  exists u, d ∈ get_dependents s r u /\
    forall tu, fs_tasks s !! (r, u) = Some tu -> tk_state tu <> TsSucceeded.
Proof. intros Hre. by apply inv_blocked, reachable_inv. Qed.
End Lifecycle.

(** ** Failure propagation *)

(** C8: failure propagation terminates.  The breadth-first loop of
    [propagate_failure] empties its queue: its result is the one of the loop
    without a bound on its turns, and allowing more turns never changes it. *)
Theorem propagate_failure_terminates s r k res id ts :
  drains r id ts s [(k, res)] (propagate_failure s r k res id ts) /\
  forall n, propagate_loop (S (size (fs_tasks s)) + n) r id ts s [(k, res)] =
            propagate_failure s r k res id ts.
Proof.
  split; [apply propagate_failure_drains|]. intros n. eapply drains_det;
    [|apply propagate_failure_drains]. apply propagate_loop_drains. simpl.
  pose proof (mcount_le_size (fun _ t => negb (task_is_terminal (tk_state t))) (fs_tasks s)).
  unfold live_tasks. lia.
Qed.


(** ** States that move backwards *)

Section Regressions.
Context `{Hashes} `{Chrono} `{SerdeJson}.

(** A late start undoes a failure.  A [TaskStarted] of the current attempt
    that is folded after that attempt failed moves the task from [RETRY_WAIT]
    back to [RUNNING], the state of lower rank, although no worker runs it. *)
Theorem late_start_regresses s e r k t wid :
  fs_tasks s !! (r, k) = Some t -> tk_state t = TsRetryWait ->
  ev_data e = TaskStarted r k (tk_attempt t) (default "" (tk_attempt_id t)) wid ->
  is_Some (tk_attempt_id t) -> ~ claimed s e ->
  exists t', fs_tasks (fold_event s e) !! (r, k) = Some t' /\ tk_state t' = TsRunning /\
    (rank (tk_state t') < rank (tk_state t))%N.
Proof.
  intros Ht Hst He [aid Haid] Hc. unfold fold_event.
  destruct (fs_idempotency_keys s !! ev_idempotency_key e) eqn:Ek; [destruct Hc; by eexists|].
  unfold apply_event. rewrite He, Haid. simpl default. unfold fold_task_started.
  rewrite Ht, Hst, Haid. simpl. rewrite N.leb_refl, N.eqb_refl, bool_decide_true by done. simpl.
  exists (start_task_row (tk_attempt t) aid (ev_event_id e) (ev_timestamp e) t).
  split; [|by split].
  unfold record_idempotency_key, refresh_catalog_run_index_for_run.
  repeat case_match; simpl; by rewrite lookup_insert_eq.
Qed.

(** A plan resurrects a cancelled run.  A run cancelled before its plan
    arrived is terminal; folding its [PlanCreated] moves it back to [RUNNING],
    still marked as cancelled, and the run cannot be cancelled again: every
    further [RunCancelRequested] with the run's cancellation key is dropped. *)
Theorem plan_resurrects_cancelled_run s e r plan_id defs rn c :
  fs_runs s !! r = Some rn -> rn_state rn = RsCancelled -> rn_cancel_requested rn = true ->
  run_has_tasks s r = false -> ev_data e = PlanCreated r plan_id defs -> ~ claimed s e ->
  claimed s c ->
  exists rn', fs_runs (fold_event s e) !! r = Some rn' /\ rn_state rn' = RsRunning /\
    rn_cancel_requested rn' = true /\
    forall c', ev_idempotency_key c' = ev_idempotency_key c ->
      fold_event (fold_event s e) c' = fold_event s e.
Proof.
  intros Hr Hst Hcr Hnt He Hne Hc.
  assert (fs_runs (fold_event s e) !! r = Some (plan_run_row (length defs) (ev_event_id e) rn)) as Hrun.
  { unfold fold_event.
    destruct (fs_idempotency_keys s !! ev_idempotency_key e) eqn:Ek; [destruct Hne; by eexists|].
    unfold apply_event. rewrite He. pose proof (plan_parts s r (ev_event_id e) (ev_timestamp e) defs Hnt)
      as (Hruns & _).
    assert ((fold_plan_created s r defs (ev_event_id e) (ev_timestamp e)).2 = true) as Hch.
    { unfold fold_plan_created. rewrite Hnt. simpl. by rewrite Hr. }
    destruct (fold_plan_created s r defs (ev_event_id e) (ev_timestamp e)) as [s1 b]. simpl in *. subst b.
    unfold record_idempotency_key, refresh_catalog_run_index_for_run. simpl.
    repeat case_match; simpl; by rewrite Hruns, lookup_alter_eq, Hr. }
  eexists. split_and!; [exact Hrun|done|done|]. intros c' Hkey.
  apply fold_event_claimed. rewrite Hkey. destruct Hc as [row Hrow]. exists row.
  by apply fold_event_keys_mono.
Qed.
End Regressions.

(** ** The theorems on the sample ledger *)

Lemma sample_reachable : reachable sample_state.
Proof. exists "secret", sample_ledger. split; [by_computation|reflexivity]. Qed.

(** Redelivery of the first [TaskFinished], three events later. *)
Lemma at_most_once_witness :
  fold_event (fold_events sample_state [sample_dispatch "06" "b" 1; sample_start "07" "b" 1])
             (sample_finish "08" "a" 1 OutSucceeded) =
  fold_events sample_state [sample_dispatch "06" "b" 1; sample_start "07" "b" 1].
Proof.
  apply (fold_event_at_most_once sample_state (sample_finish "05" "a" 1 OutSucceeded)).
  - by_computation.
  - reflexivity.
Defined.

Lemma lifecycle_witness :
  exists t t', fs_tasks sample_state !! ("r", "a") = Some t /\
    fs_tasks (fold_event sample_state (sample_cancel "06")) !! ("r", "a") = Some t' /\
    tk_state t' = tk_state t.
Proof.
  take (fs_tasks sample_state !! ("r", "a")) as t with Ht.
  destruct (fold_event_lifecycle sample_state (sample_cancel "06") ("r", "a") t Ht)
    as (t' & Ht' & _ & _ & Hterm).
  exists t, t'. split_and!; [done|done|]. apply Hterm.
  assert (tk_state <$> fs_tasks sample_state !! ("r", "a") = Some TsSucceeded) as Hs
    by (vm_compute; reflexivity).
  rewrite Ht in Hs. injection Hs as ->. reflexivity.
Defined.

Lemma counters_witness :
  exists rn, fs_runs sample_state !! "r" = Some rn /\
    rn_tasks_completed rn = run_count sample_state "r" task_is_terminal.
Proof.
  take (fs_runs sample_state !! "r") as rn with Hr.
  exists rn. split; [done|]. by apply (reachable_counters sample_state "r" rn sample_reachable Hr).
Defined.

Lemma run_verdict_witness :
  exists rn, fs_runs sample_state !! "r" = Some rn /\
    (run_is_terminal (rn_state rn) = true <-> all_terminal sample_state "r").
Proof.
  take (fs_runs sample_state !! "r") as rn with Hr.
  exists rn. split; [done|].
  apply (reachable_run_verdict sample_state "r" rn sample_reachable Hr).
  exists "a". by_computation.
Defined.

Lemma ready_witness :
  exists tu, fs_tasks sample_state !! ("r", "a") = Some tu /\ tk_state tu = TsSucceeded.
Proof.
  take (fs_tasks sample_state !! ("r", "b")) as t with Ht.
  assert (tk_state <$> fs_tasks sample_state !! ("r", "b") = Some TsReady) as Hs
    by (vm_compute; reflexivity).
  rewrite Ht in Hs. injection Hs as Hs.
  apply (reachable_ready sample_state "r" "b" t sample_reachable Ht Hs "a"). by_computation.
Defined.

Lemma blocked_witness :
  exists u, "c" ∈ get_dependents sample_state "r" u /\
    forall tu, fs_tasks sample_state !! ("r", u) = Some tu -> tk_state tu <> TsSucceeded.
Proof.
  take (fs_tasks sample_state !! ("r", "c")) as t with Ht.
  assert (tk_state <$> fs_tasks sample_state !! ("r", "c") = Some TsBlocked) as Hs
    by (vm_compute; reflexivity).
  rewrite Ht in Hs. injection Hs as Hs.
  exact (reachable_blocked sample_state "r" "c" t sample_reachable Ht Hs).
Defined.

(** [a]'s output becomes visible; a later failure report is ignored. *)
Definition sample_visibility (id : string) (v : OutputVisibilityState) : OrchestrationEvent :=
  sample_event id (TaskOutputVisibilityChanged "r" "a" 1 "a1" v None None).

Lemma output_settled_witness :
  let s := fold_event sample_state (sample_visibility "06" VisVisible) in
  exists t t', fs_tasks s !! ("r", "a") = Some t /\
    fs_tasks (fold_events s [sample_visibility "07" VisFailed]) !! ("r", "a") = Some t' /\
    tk_output_visibility_state t' = tk_output_visibility_state t.
Proof.
  intros s. take (fs_tasks s !! ("r", "a")) as t with Ht.
  destruct (output_settled_forever s [sample_visibility "07" VisFailed] ("r", "a") t Ht)
    as (t' & Ht' & _ & Hv).
  - assert (output_settled <$> fs_tasks s !! ("r", "a") = Some true) as Ho
      by (vm_compute; reflexivity).
    rewrite Ht in Ho. by injection Ho.
  - exists t, t'. split_and!; [exact Ht|exact Ht'|exact Hv].
Defined.


(** [a] fails before its start is folded. *)
Definition sample_failed_first : FoldState :=
  fold_events sample_new
    [sample_trigger; sample_planned; sample_dispatch "03" "a" 1; sample_finish "04" "a" 1 OutFailed].

Lemma late_start_witness :
  exists t', fs_tasks (fold_event sample_failed_first (sample_start "05" "a" 1)) !! ("r", "a") = Some t' /\
    tk_state t' = TsRunning.
Proof.
  take (fs_tasks sample_failed_first !! ("r", "a")) as t with Ht.
  assert ((fun t => (tk_state t, tk_attempt t, tk_attempt_id t)) <$>
          fs_tasks sample_failed_first !! ("r", "a") = Some (TsRetryWait, 1%N, Some "a1")) as Hs
    by (vm_compute; reflexivity).
  rewrite Ht in Hs. injection Hs as Hst Hat Haid.
  destruct (late_start_regresses sample_failed_first (sample_start "05" "a" 1) "r" "a" t "worker")
    as (t' & Ht' & Hrun & _); [done|done| | | |by exists t'].
  - rewrite Hat, Haid. reflexivity.
  - by rewrite Haid.
  - by_computation.
Defined.

(** The run is triggered, cancelled, then planned. *)
Lemma resurrection_witness :
  exists rn', fs_runs (fold_event (fold_events sample_new [sample_trigger; sample_cancel "02"])
                         sample_planned) !! "r" = Some rn' /\
    rn_state rn' = RsRunning /\ rn_cancel_requested rn' = true.
Proof.
  take (fs_runs (fold_events sample_new [sample_trigger; sample_cancel "02"]) !! "r") as rn with Hr.
  assert ((fun rn => (rn_state rn, rn_cancel_requested rn)) <$>
          fs_runs (fold_events sample_new [sample_trigger; sample_cancel "02"]) !! "r" =
          Some (RsCancelled, true)) as Hs by (vm_compute; reflexivity).
  rewrite Hr in Hs. injection Hs as Hst Hcr.
  destruct (plan_resurrects_cancelled_run (fold_events sample_new [sample_trigger; sample_cancel "02"])
    sample_planned "r" "p" sample_plan rn (sample_cancel "02") Hr Hst Hcr) as (rn' & ? & ? & ? & _).
  - vm_compute. reflexivity.
  - reflexivity.
  - by_computation.
  - by_computation.
  - by exists rn'.
Defined.
