(* ===== verification/FoldAutoProps.v ===== *)
(** Sensors, run keys, schedules and backfills: what the fold guarantees.

    The compare-and-swap of poll sensors has one winner, a run key is bound once
    and for all, ticks commute, and a backfill knows the first chunk that is still
    to be planned. *)

From S2P Require Import Prelude Events FoldTypes FoldTasks FoldDispatch FoldAutomation Fold FoldIdempotence Sample.
From stdpp Require Import options.

Section AutoProps.
Context `{Hashes} `{Chrono} `{SerdeJson}.

(** The tables of an event that is not folded, or not an automation event. *)
Lemma fold_event_tables s e :
  fold_event s e = s \/
  exists s1 b, apply_event s e = (s1, b) /\
    fs_sensor_state (fold_event s e) = fs_sensor_state s1 /\
    fs_sensor_evals (fold_event s e) = fs_sensor_evals s1 /\
    fs_run_key_index (fold_event s e) = fs_run_key_index s1 /\
    fs_run_key_conflicts (fold_event s e) = fs_run_key_conflicts s1 /\
    fs_backfills (fold_event s e) = fs_backfills s1 /\
    fs_backfill_chunks (fold_event s e) = fs_backfill_chunks s1 /\
    fs_tenant_secret (fold_event s e) = fs_tenant_secret s1.
Proof.
  unfold fold_event. case_match; [by left|]. right.
  destruct (apply_event s e) as [s1 [|]]; exists s1; eexists; (split; [done|]); [|done].
  unfold record_idempotency_key. by case_match.
Qed.

Lemma rest_fields s s' :
  rest s' = rest s ->
  fs_sensor_state s' = fs_sensor_state s /\ fs_sensor_evals s' = fs_sensor_evals s /\
  fs_run_key_index s' = fs_run_key_index s /\ fs_backfills s' = fs_backfills s /\
  fs_backfill_chunks s' = fs_backfill_chunks s /\ fs_tenant_secret s' = fs_tenant_secret s.
Proof. unfold rest. intros [= ]. split_and!; done. Qed.

(** Each table is written by its own events only. *)

Lemma sensor_frame_tables s t w sid eid cb ca esv src rrs st ts id :
  let s' := (fold_sensor_evaluated s t w sid eid cb ca esv src rrs st ts id).1 in
  fs_run_key_index s' = fs_run_key_index s /\ fs_backfills s' = fs_backfills s /\
  fs_backfill_chunks s' = fs_backfill_chunks s /\ fs_tenant_secret s' = fs_tenant_secret s.
Proof.
  unfold fold_sensor_evaluated, upsert_sensor_eval. simpl.
  repeat (case_match; simplify_eq/=; try done).
Qed.

Ltac own_table s e :=
  destruct (automation_event (ev_data e)) eqn:Ea;
    [|by destruct (rest_fields _ _ (rest_apply_event s e Ea)) as (? & ? & ? & ? & ? & ?)];
  unfold apply_event; destruct (ev_data e); try done; intros _;
  try (by apply sensor_frame_tables);
  unfold fold_schedule_definition_upserted, fold_schedule_ticked, fold_run_requested,
    correlate_run_to_source, fold_backfill_created, fold_backfill_chunk_planned,
    fold_backfill_state_changed; by repeat case_match.

Lemma sensor_state_frame s e :
  match ev_data e with SensorEvaluated _ _ _ _ _ _ _ _ => False | _ => True end ->
  fs_sensor_state (apply_event s e).1 = fs_sensor_state s.
Proof. own_table s e. Qed.

Lemma run_key_index_frame s e :
  match ev_data e with RunRequested _ _ _ _ _ _ _ => False | _ => True end ->
  fs_run_key_index (apply_event s e).1 = fs_run_key_index s.
Proof. own_table s e. Qed.

Lemma backfills_frame s e :
  match ev_data e with
  | BackfillCreated _ _ _ _ _ _ _ _ _ | BackfillChunkPlanned _ _ _ _ _ _
  | BackfillStateChanged _ _ _ _ _ => False
  | _ => True
  end -> fs_backfills (apply_event s e).1 = fs_backfills s.
Proof. own_table s e. Qed.

Lemma backfill_chunks_frame s e :
  match ev_data e with
  | RunRequested _ _ _ _ _ _ _ | BackfillChunkPlanned _ _ _ _ _ _ => False
  | _ => True
  end -> fs_backfill_chunks (apply_event s e).1 = fs_backfill_chunks s.
Proof. own_table s e. Qed.

(** ** Sensors *)

(** The version a poll sensor compares with; a sensor never evaluated is at 0. *)
Definition sensor_version (s : FoldState) (sid : string) : u32 :=
  match fs_sensor_state s !! sid with Some row => se_state_version row | None => 0 end.

Lemma sensor_evaluated_state s t w sid eid cb ca esv src rrs st ts id :
  let row := default (new_sensor_state t w sid) (fs_sensor_state s !! sid) in
  fs_sensor_state (fold_sensor_evaluated s t w sid eid cb ca esv src rrs st ts id).1 =
  <[sid := if eval_is_stale esv (se_state_version row) || str_leb id (se_row_version row)
           then row else advance_sensor_state ca ts eid id row]> (fs_sensor_state s).
Proof.
  unfold fold_sensor_evaluated, upsert_sensor_eval. simpl.
  set (row := default _ (fs_sensor_state s !! sid)).
  destruct (option_bool _ (fs_sensor_evals s !! eid)), (eval_is_stale _ _),
    (str_leb id (se_row_version row)); simpl;
    by rewrite ?insert_insert_eq.
Qed.

Lemma sensor_version_default s t w sid :
  se_state_version (default (new_sensor_state t w sid) (fs_sensor_state s !! sid)) =
  sensor_version s sid.
Proof. unfold sensor_version. by destruct (fs_sensor_state s !! sid). Qed.

Lemma sensor_version_step s e sid :
  sensor_version (fold_event s e) sid = sensor_version s sid \/
  sensor_version (fold_event s e) sid = u32_add (sensor_version s sid) 1.
Proof.
  destruct (fold_event_tables s e) as [->|(s1 & b & Ha & Hss & _)]; [by left|].
  assert (fs_sensor_state s1 = fs_sensor_state (apply_event s e).1) as Hs1 by by rewrite Ha.
  unfold sensor_version at 1 3. rewrite Hss, Hs1. clear Hss Hs1 Ha.
  destruct (ev_data e) as [| | | | | | | | | | | | | | |sid' eid cb ca esv src rrs st| | | | |] eqn:He.
  16:{ unfold apply_event. rewrite He, sensor_evaluated_state, lookup_insert.
       case_decide as E; [subst|by left].
       case_match; rewrite ?sensor_version_default; [by left|]. right. simpl.
       by rewrite sensor_version_default. }
  all: rewrite sensor_state_frame by (by rewrite He); by left.
Qed.

Lemma sensor_version_range s es sid :
  (sensor_version s sid + N.of_nat (length es) < u32_modulus)%N ->
  (sensor_version s sid <= sensor_version (fold_events s es) sid
     <= sensor_version s sid + N.of_nat (length es))%N.
Proof.
  revert s. induction es as [|e es IH]; intros s Hlt; simpl in *; [lia|].
  specialize (IH (fold_event s e)).
  destruct (sensor_version_step s e sid) as [E|E]; rewrite E in IH;
    rewrite ?u32_add_small in IH by lia; lia.
Qed.

(** One poll wins.  Once a sensor's version has moved past [v], an
    evaluation that expected [v] is stale for ever: folded after any further
    events, it leaves the sensor's cursor and version alone, it is recorded as
    skipped for a stale cursor, and the run requests it makes are dropped. *)
Theorem sensor_poll_single_winner s es e v sid eid cb ca src rrs st :
  let s1 := fold_events s es in
  let s2 := fold_event s1 e in
  (v < sensor_version s sid)%N ->
  (sensor_version s sid + N.of_nat (length es) < u32_modulus)%N ->
  ev_data e = SensorEvaluated sid eid cb ca (Some v) src rrs st ->
  ~ claimed s1 e -> fs_sensor_evals s1 !! eid = None ->
  fs_sensor_state s2 !! sid = fs_sensor_state s1 !! sid /\
  (exists row, fs_sensor_evals s2 !! eid = Some row /\ sv_status row = EvalSkippedStaleCursor) /\
  (forall q rk fp asel psel sid' lb cv,
     ev_data q = RunRequested rk fp asel psel (RefSensor sid' eid) lb cv -> fold_event s2 q = s2).
Proof.
  intros s1 s2 Hv Hlt He Hc Hev.
  pose proof (sensor_version_range s es sid Hlt) as [Hge _]. fold s1 in Hge.
  assert (exists row, fs_sensor_state s1 !! sid = Some row /\ (v < se_state_version row)%N)
    as (row & Hrow & Hrv).
  { unfold sensor_version in Hge at 2. destruct (fs_sensor_state s1 !! sid) as [row|]; [|lia].
    exists row. split; [done|lia]. }
  assert (eval_is_stale (Some v) (se_state_version row) = true) as Hst.
  { simpl. apply negb_true_iff, N.eqb_neq. lia. }
  assert (fs_sensor_state s2 = <[sid := row]> (fs_sensor_state s1) /\
          exists ev, fs_sensor_evals s2 !! eid = Some ev /\ sv_status ev = EvalSkippedStaleCursor)
    as [Hs2 (ev & Hev2 & Hst2)].
  { unfold s2, fold_event.
    destruct (fs_idempotency_keys s1 !! ev_idempotency_key e) eqn:Ek; [destruct Hc; by eexists|].
    unfold apply_event. rewrite He. unfold fold_sensor_evaluated, upsert_sensor_eval.
    cbn [sv_eval_id]. rewrite Hrow. simpl default. rewrite Hst. simpl. rewrite Hev. simpl.
    unfold record_idempotency_key. case_match; simpl; (split; [done|]); eexists;
      by rewrite lookup_insert_eq. }
  split_and!; [by rewrite Hs2, lookup_insert_eq| by exists ev|].
  intros q rk fp asel psel sid' lb cv Hq. unfold fold_event. case_match; [done|].
  unfold apply_event. rewrite Hq. simpl. rewrite Hev2. simpl. by rewrite bool_decide_true.
Qed.

(** ** Run keys *)

Lemma run_key_index_stable s e k row :
  fs_run_key_index s !! k = Some row -> fs_run_key_index (fold_event s e) !! k = Some row.
Proof.
  intros Hk. destruct (fold_event_tables s e) as [->|(s1 & b & Ha & _ & _ & -> & _)]; [done|].
  assert (fs_run_key_index s1 = fs_run_key_index (apply_event s e).1) as -> by by rewrite Ha.
  destruct (ev_data e) as [| | | | | | | | | | | | | | | |rk fp asel psel src lb cv| | | |] eqn:He.
  17:{ unfold apply_event. rewrite He. case_match; [done|]. unfold fold_run_requested.
       destruct (fs_run_key_index s !! rk) eqn:Ek; [by case_match|].
       unfold correlate_run_to_source. case_match; simpl; rewrite lookup_insert_ne; congruence. }
  all: by rewrite run_key_index_frame by (by rewrite He).
Qed.

(** A run key is bound once.  The index row of a run key, and with it the
    run the key stands for, survives every event; a request for the same key with
    another fingerprint is recorded as a conflict that names both. *)
Theorem run_key_bound_once s e k row :
  fs_run_key_index s !! k = Some row ->
  fs_run_key_index (fold_event s e) !! k = Some row /\
  (forall fp asel psel src lb cv,
     ev_data e = RunRequested k fp asel psel src lb cv -> ~ claimed s e ->
     should_drop_run_requested_for_stale_sensor_eval s src = false ->
     fp <> rk_request_fingerprint row ->
     exists c, fs_run_key_conflicts (fold_event s e) !!
                 ("conflict:" +:+ k +:+ ":" +:+ ev_event_id e) = Some c /\
       rc_existing_fingerprint c = rk_request_fingerprint row /\ rc_conflicting_fingerprint c = fp).
Proof.
  intros Hk. split; [by apply run_key_index_stable|].
  intros fp asel psel src lb cv He Hc Hd Hne. unfold fold_event.
  destruct (fs_idempotency_keys s !! ev_idempotency_key e) eqn:Ek; [destruct Hc; by eexists|].
  unfold apply_event. rewrite He, Hd. unfold fold_run_requested. rewrite Hk.
  rewrite bool_decide_false by congruence. unfold record_idempotency_key.
  eexists. case_match; simpl; (split; [apply lookup_insert_eq|done]).
Qed.

(** ** Backfills: chunks *)

Lemma chunk_id_of_inj b i b' i' : chunk_id_of b i = chunk_id_of b' i' -> b = b' /\ i = i'.
Proof.
  unfold chunk_id_of. rewrite !str_app_cons, !str_app_nil. intros E.
  apply str_sep_inj in E as [-> E]; [|by apply pretty_N_no_char..].
  split; [done|]. by apply (inj pretty) in E.
Qed.

(** Chunks [0 .. n-1] of backfill [b] are planned. *)
Definition planned_below (chunks : gmap string BackfillChunkRow) (b : string) (n : u32) : Prop :=
  forall i, (i < n)%N -> is_Some (chunks !! chunk_id_of b i).

Lemma planned_below_le_size chunks b n : planned_below chunks b n -> (n <= N.of_nat (size chunks))%N.
Proof.
  intros Hn.
  set (ids := (fun i => chunk_id_of b (N.of_nat i)) <$> seq 0 (N.to_nat n)).
  assert (NoDup ids) as Hnd.
  { apply NoDup_fmap_2; [|apply NoDup_seq]. intros i j [_ E%Nat2N.inj]%chunk_id_of_inj. done. }
  assert (list_to_set ids ⊆ (dom chunks : gset string)) as Hsub.
  { intros x Hx. apply elem_of_list_to_set, list_elem_of_fmap in Hx as (i & -> & Hi).
    apply elem_of_dom, Hn. apply elem_of_seq in Hi. lia. }
  apply subseteq_size in Hsub. rewrite size_list_to_set, size_dom in Hsub by done.
  unfold ids in Hsub. rewrite length_fmap, length_seq in Hsub. lia.
Qed.

(** The scan stops at the first chunk that is missing. *)
Definition first_missing (chunks : gmap string BackfillChunkRow) (b : string) (n : u32) : Prop :=
  planned_below chunks b n /\ chunks !! chunk_id_of b n = None.

Lemma next_missing_chunk_spec fuel chunks b i :
  (N.of_nat (size chunks) < u32_modulus)%N ->
  planned_below chunks b i -> (N.of_nat (size chunks) < i + N.of_nat fuel)%N ->
  first_missing chunks b (next_missing_chunk fuel chunks b i).
Proof.
  intros Hsz. revert i. induction fuel as [|fuel IH]; intros i Hi Hf; simpl.
  - apply planned_below_le_size in Hi. lia.
  - destruct (chunks !! chunk_id_of b i) as [c|] eqn:Ec; [|done].
    assert (planned_below chunks b (i + 1)) as Hi1.
    { intros j Hj. destruct (decide (j = i)) as [->|]; [by rewrite Ec|]. apply Hi. lia. }
    pose proof (planned_below_le_size _ _ _ Hi1).
    rewrite u32_add_small by lia. apply IH; [done|lia].
Qed.

Lemma first_missing_chunk_spec chunks b i :
  (N.of_nat (size chunks) < u32_modulus)%N -> planned_below chunks b i ->
  first_missing chunks b (first_missing_chunk chunks b i).
Proof. intros Hsz Hi. apply next_missing_chunk_spec; [done..|]. lia. Qed.

(** Chunk events name their chunk by [format!("{backfill_id}:{chunk_index}")], as
    the backfill controller does. *)
Definition chunk_wf (e : OrchestrationEvent) : Prop :=
  match ev_data e with
  | BackfillChunkPlanned b chunk_id chunk_index _ _ _ => chunk_id = chunk_id_of b chunk_index
  | _ => True
  end.

#[export] Instance chunk_wf_dec e : Decision (chunk_wf e).
Proof. unfold chunk_wf. destruct (ev_data e); apply _. Defined.

Definition backfills_planned (s : FoldState) : Prop :=
  forall b row, fs_backfills s !! b = Some row -> (0 < bf_chunk_size row)%N ->
    first_missing (fs_backfill_chunks s) b (bf_planned_chunks row).

Lemma first_missing_dom chunks chunks' b n :
  (forall k, is_Some (chunks' !! k) <-> is_Some (chunks !! k)) ->
  first_missing chunks b n -> first_missing chunks' b n.
Proof.
  intros Hd [Hp Hm]. split; [intros i Hi; by apply Hd, Hp|].
  apply eq_None_not_Some. rewrite Hd. by apply eq_None_not_Some.
Qed.

Lemma correlate_chunks s run_id src k :
  is_Some (fs_backfill_chunks (correlate_run_to_source s run_id src) !! k) <->
  is_Some (fs_backfill_chunks s !! k).
Proof.
  destruct src; simpl; try done. rewrite lookup_alter. case_decide; [|done].
  subst. by rewrite fmap_is_Some.
Qed.

Lemma correlate_backfills s run_id src :
  fs_backfills (correlate_run_to_source s run_id src) = fs_backfills s.
Proof. by destruct src. Qed.

Lemma run_requested_backfills s t w rk fp src cv ts id :
  fs_backfills (fold_run_requested s t w rk fp src cv ts id).1 = fs_backfills s /\
  (forall k, is_Some (fs_backfill_chunks (fold_run_requested s t w rk fp src cv ts id).1 !! k) <->
             is_Some (fs_backfill_chunks s !! k)).
Proof.
  unfold fold_run_requested. case_match; [by case_match|]. cbn [fst].
  rewrite correlate_backfills. split; [done|]. intros k. by rewrite correlate_chunks.
Qed.

Lemma chunk_planned_backfills s t w b cid idx pks rk id :
  cid = chunk_id_of b idx ->
  (N.of_nat (size (fs_backfill_chunks s)) + 1 < u32_modulus)%N ->
  backfills_planned s -> backfills_planned (fold_backfill_chunk_planned s t w b cid idx pks rk id).1.
Proof.
  intros -> Hsz HB. unfold fold_backfill_chunk_planned. case_match; [done|]. simpl.
  set (row := mkBackfillChunkRow _ _ _ _ _ _ _ _ _ _).
  set (chunks := <[chunk_id_of b idx := row]> (fs_backfill_chunks s)).
  assert (N.of_nat (size chunks) < u32_modulus)%N as Hsz'.
  { unfold chunks. rewrite map_size_insert. case_match; cbn; lia. }
  assert (forall b' n, planned_below (fs_backfill_chunks s) b' n -> planned_below chunks b' n) as Hmono.
  { intros b' n Hn i Hi. unfold chunks. rewrite lookup_insert. case_decide; [by eexists|]. by apply Hn. }
  intros b' row'. simpl. rewrite lookup_alter. case_decide as E.
  - subst b'. destruct (fs_backfills s !! b) as [row0|] eqn:Eb; [|done]. intros [= <-] Hcs.
    assert (bf_chunk_size (advance_planned_chunks chunks b id row0) = bf_chunk_size row0 /\
            bf_planned_chunks (advance_planned_chunks chunks b id row0) =
            first_missing_chunk chunks b (bf_planned_chunks row0)) as [E1 ->].
    { unfold advance_planned_chunks.
      destruct (N.eqb_spec (first_missing_chunk chunks b (bf_planned_chunks row0))
                  (bf_planned_chunks row0)) as [->|]; done. }
    rewrite E1 in Hcs. apply first_missing_chunk_spec; [done|]. apply Hmono. by apply (HB b).
  - intros Eb Hcs. destruct (HB b' row' Eb Hcs) as [H1' H2']. split; [by apply Hmono|].
    unfold chunks. rewrite lookup_insert_ne; [done|]. by intros [? _]%chunk_id_of_inj.
Qed.

Lemma backfills_planned_event s e :
  chunk_wf e -> (N.of_nat (size (fs_backfill_chunks s)) + 1 < u32_modulus)%N ->
  backfills_planned s -> backfills_planned (fold_event s e).
Proof.
  intros Hwf Hsz HB.
  destruct (fold_event_tables s e) as [->|(s1 & b & Ha & _ & _ & _ & _ & Hb & Hc & _)]; [done|].
  assert (s1 = (apply_event s e).1) as -> by by rewrite Ha.
  enough (backfills_planned (apply_event s e).1) as HB'.
  { intros b' row. rewrite Hb, Hc. apply HB'. }
  clear Hb Hc Ha. unfold chunk_wf in Hwf.
  destruct (ev_data e) as [| | | | | | | | | | | | | | | |rk fp asel psel src lb cv
    |bid crid asel cv sel tp cs mcr pbid|bid cid idx pks rk fp|bid fs ts sv cb|] eqn:He;
    try (intros b' row; rewrite backfills_frame, backfill_chunks_frame by (by rewrite He); apply HB).
  - intros b' row. rewrite backfills_frame by (by rewrite He). intros Hr Hcs.
    eapply first_missing_dom; [|by apply (HB b')]. intros k.
    unfold apply_event. rewrite He. case_match; [done|]. apply run_requested_backfills.
  - unfold apply_event. rewrite He. unfold fold_backfill_created.
    destruct (fs_backfills s !! bid) eqn:Eb; [done|]. intros b' row. simpl. rewrite lookup_insert.
    case_decide; [subst|by apply HB]. intros [= <-]. simpl. intros Hcs.
    rewrite (proj2 (N.ltb_lt _ _) Hcs). apply first_missing_chunk_spec; [lia|]. intros i Hi. lia.
  - unfold apply_event. rewrite He. by apply chunk_planned_backfills.
  - unfold apply_event. rewrite He. unfold fold_backfill_state_changed.
    destruct (fs_backfills s !! bid) as [bf|] eqn:Eb; [|done]. repeat (case_match; [done|]).
    intros b' row. simpl. rewrite lookup_insert. destruct (decide (bid = b')); [subst|exact (HB b' row)].
    intros [= <-]. exact (HB b' bf Eb).
Qed.
Lemma chunks_size_event s e :
  size (fs_backfill_chunks (fold_event s e)) <= S (size (fs_backfill_chunks s)).
Proof.
  destruct (fold_event_tables s e) as [->|(s1 & b & Ha & _ & _ & _ & _ & _ & -> & _)]; [lia|].
  assert (s1 = (apply_event s e).1) as -> by by rewrite Ha.
  destruct (ev_data e) as [| | | | | | | | | | | | | | | |rk fp asel psel src lb cv
    |bid crid asel cv sel tp cs mcr pbid|bid cid idx pks rk fp|bid fs ts sv cb|] eqn:He;
    try (rewrite backfill_chunks_frame by (by rewrite He); lia).
  - unfold apply_event. rewrite He. case_match; [simpl; lia|].
    set (s' := (fold_run_requested _ _ _ _ _ _ _ _ _).1).
    assert (dom (fs_backfill_chunks s') = dom (fs_backfill_chunks s) :> gset string) as Hd.
    { apply set_eq. intros k. rewrite !elem_of_dom. apply run_requested_backfills. }
    rewrite <- (size_dom (D := gset string) (fs_backfill_chunks s')), Hd, size_dom. lia.
  - unfold apply_event. rewrite He. unfold fold_backfill_chunk_planned. case_match; simpl; [lia|].
    rewrite map_size_insert. case_match; cbn; lia.
Qed.

Lemma backfills_planned_fold s es :
  Forall chunk_wf es ->
  (N.of_nat (size (fs_backfill_chunks s)) + N.of_nat (length es) < u32_modulus)%N ->
  backfills_planned s -> backfills_planned (fold_events s es).
Proof.
  revert s. induction es as [|e es IH]; intros s Hwf Hlt HB; [done|].
  apply Forall_cons in Hwf as [He Hwf]. simpl in *. pose proof (chunks_size_event s e).
  apply IH; [done|lia|]. apply backfills_planned_event; [done|lia|done].
Qed.


(** ** Backfills: the state machine *)

Lemma is_valid_transition_terminal st st' :
  is_valid_transition st st' = true -> backfill_is_terminal st = false.
Proof. by destruct st, st'. Qed.

(** A backfill moves along its state machine.  Under any event a backfill
    row stays, and either keeps its state and version or takes one valid
    transition whose version is the next one; a terminal backfill is frozen. *)
Theorem backfill_transitions s e b row :
  fs_backfills s !! b = Some row ->
  exists row', fs_backfills (fold_event s e) !! b = Some row' /\
    ((bf_state row' = bf_state row /\ bf_state_version row' = bf_state_version row) \/
     (is_valid_transition (bf_state row) (bf_state row') = true /\
      bf_state_version row' = u32_saturating_add (bf_state_version row) 1)) /\
    (backfill_is_terminal (bf_state row) = true -> bf_state row' = bf_state row).
Proof.
  intros Hb.
  destruct (fold_event_tables s e) as [->|(s1 & c & Ha & _ & _ & _ & _ & -> & _)]; [eauto 10|].
  assert (s1 = (apply_event s e).1) as -> by by rewrite Ha. clear Ha.
  destruct (ev_data e) as [| | | | | | | | | | | | | | | |rk fp asel psel src lb cv
    |bid crid asel cv sel tp cs mcr pbid|bid cid idx pks rk fp|bid from to sv cb|] eqn:He;
    try (rewrite backfills_frame by (by rewrite He); by eauto 10).
  - unfold apply_event. rewrite He. unfold fold_backfill_created.
    destruct (fs_backfills s !! bid) eqn:Eb; [by eauto 10|]. simpl.
    rewrite lookup_insert_ne by congruence. eauto 10.
  - unfold apply_event. rewrite He. unfold fold_backfill_chunk_planned. case_match; [by eauto 10|].
    simpl. rewrite lookup_alter. case_decide; [subst|by eauto 10]. rewrite Hb. simpl.
    eexists. split; [done|]. unfold advance_planned_chunks. case_match; simpl; auto.
  - unfold apply_event. rewrite He. unfold fold_backfill_state_changed.
    destruct (fs_backfills s !! bid) as [bf|] eqn:Eb; [|by eauto 10].
    case_match; [by eauto 10|]. case_match; [by eauto 10|].
    destruct (negb (is_valid_transition (bf_state bf) to)) eqn:Ev; [by eauto 10|].
    destruct (N.eqb_spec sv (u32_saturating_add (bf_state_version bf) 1)) as [->|]; [|by eauto 10].
    simpl. rewrite lookup_insert. destruct (decide (bid = b)); [subst|by eauto 10].
    assert (bf = row) as -> by congruence. apply negb_false_iff in Ev.
    eexists. split; [done|]. simpl. split; [by right|].
    intros Ht. apply is_valid_transition_terminal in Ev. congruence.
Qed.

(** ** Schedules *)

(** One tick's update of its schedule's row. *)
Definition tick_state (t w sid : string) (sf : DateTime) (tid : string) (rk : option string)
    (id : string) (m : gmap string ScheduleStateRow) : gmap string ScheduleStateRow :=
  let row := default (new_schedule_state t w sid) (m !! sid) in
  <[sid := if str_ltb (ss_row_version row) id then tick_schedule_state sf tid rk id row else row]> m.

(** One tick's update of the tick table. *)
Definition tick_row (tid : string) (row : ScheduleTickRow) (m : gmap string ScheduleTickRow) :
    gmap string ScheduleTickRow :=
  if option_bool (fun existing => str_leb (st_row_version row) (st_row_version existing)) (m !! tid)
  then m else <[tid := row]> m.

Definition ticked_row (secret t w sid : string) (sf : DateTime) (tid dv : string) (asel : list string)
    (psel : option (list string)) (st : TickStatus) (rk fp : option string) (id : string) :
    ScheduleTickRow :=
  mkScheduleTickRow t w tid sid sf dv asel psel st rk
    ((fun k => run_id_from_run_key t w k secret) <$> rk) fp id.

Lemma fold_schedule_ticked_eq s t w sid sf tid dv asel psel st rk fp id :
  (fold_schedule_ticked s t w sid sf tid dv asel psel st rk fp id).1 =
  s <| fs_schedule_state := tick_state t w sid sf tid rk id (fs_schedule_state s) |>
    <| fs_schedule_ticks :=
         tick_row tid (ticked_row (fs_tenant_secret s) t w sid sf tid dv asel psel st rk fp id)
           (fs_schedule_ticks s) |>.
Proof.
  unfold fold_schedule_ticked, tick_row. simpl.
  by destruct (option_bool _ (fs_schedule_ticks s !! tid)).
Qed.

Lemma str_ltb_false a b : str_ltb a b = false -> str_leb b a = true.
Proof. unfold str_ltb, str_leb. by intros ?%negb_false_iff. Qed.

Lemma str_ltb_true a b : str_ltb a b = true -> str_leb a b = true /\ a <> b.
Proof.
  unfold str_ltb. intros E%negb_true_iff. split; [by apply str_leb_false|].
  intros ->. pose proof (str_leb_refl b). unfold str_leb in *. congruence.
Qed.

(** Last-writer-wins updates of one row commute. *)
Lemma lww_commute {A} (ver : A -> string) (f g : A -> A) (i j : string) (row : A) :
  i <> j -> (forall x, ver (f x) = i) -> (forall x, ver (g x) = j) ->
  (forall x, f (g x) = f x) -> (forall x, g (f x) = g x) ->
  let up h k x := if str_ltb (ver x) k then h x else x in
  up f i (up g j row) = up g j (up f i row).
Proof.
  intros Hne Hf Hg Hfg Hgf up. unfold up.
  destruct (str_ltb (ver row) i) eqn:E1, (str_ltb (ver row) j) eqn:E2; rewrite ?Hf, ?Hg, ?E1, ?E2; try done.
  - rewrite Hfg, Hgf. unfold str_ltb. destruct (String.leb i j) eqn:E3, (String.leb j i) eqn:E4; simpl; try done.
    + destruct Hne. by apply str_leb_antisym.
    + destruct (String.leb_total i j); congruence.
  - destruct (str_ltb i j) eqn:E3; [|done]. exfalso.
    apply str_ltb_true in E1 as [E1 _]. apply str_ltb_true in E3 as [E3 Hn].
    apply str_ltb_false in E2.
    assert (str_leb j i = true) by eauto using str_leb_trans.
    apply Hn. by apply str_leb_antisym.
  - destruct (str_ltb j i) eqn:E3; [|done]. exfalso.
    apply str_ltb_true in E2 as [E2 _]. apply str_ltb_true in E3 as [E3 Hn].
    apply str_ltb_false in E1.
    assert (str_leb i j = true) by eauto using str_leb_trans.
    apply Hn. by apply str_leb_antisym.
Qed.

Lemma tick_state_commute t w sid sf tid rk id sid' sf' tid' rk' id' m :
  id <> id' ->
  tick_state t w sid sf tid rk id (tick_state t w sid' sf' tid' rk' id' m) =
  tick_state t w sid' sf' tid' rk' id' (tick_state t w sid sf tid rk id m).
Proof.
  intros Hne. unfold tick_state. destruct (decide (sid = sid')) as [<-|Hs].
  - rewrite !lookup_insert_eq, !insert_insert_eq. simpl. f_equal.
    by apply (lww_commute ss_row_version (tick_schedule_state sf tid rk id)
             (tick_schedule_state sf' tid' rk' id')).
  - rewrite !lookup_insert_ne by done. by apply insert_insert_ne.
Qed.

Lemma tick_row_commute tid row tid' row' m :
  st_row_version row <> st_row_version row' ->
  tick_row tid row (tick_row tid' row' m) = tick_row tid' row' (tick_row tid row m).
Proof.
  intros Hne. apply map_eq. intros k.
  assert (forall t x m0, tick_row t x m0 !! k =
    if decide (t = k) then
      match m0 !! k with
      | Some y => Some (if str_ltb (st_row_version y) (st_row_version x) then x else y)
      | None => Some x
      end
    else m0 !! k) as Hl.
  { intros t x m0. unfold tick_row. case_decide as E.
    - subst t. unfold str_ltb. destruct (m0 !! k) as [y|] eqn:Ey; simpl.
      + unfold str_leb. destruct (String.leb _ _) eqn:El; simpl; rewrite ?El; simpl; [done|].
        by rewrite lookup_insert_eq.
      + by rewrite lookup_insert_eq.
    - case_match; [done|]. by rewrite lookup_insert_ne. }
  rewrite !Hl. destruct (decide (tid = k)), (decide (tid' = k)); try done. subst.
  destruct (m !! k) as [y|]; f_equal.
  - by apply (lww_commute st_row_version (fun _ => row) (fun _ => row')).
  - unfold str_ltb. destruct (String.leb (st_row_version row) (st_row_version row')) eqn:E1,
      (String.leb (st_row_version row') (st_row_version row)) eqn:E2; simpl; try done.
    + destruct Hne. by apply str_leb_antisym.
    + destruct (String.leb_total (st_row_version row) (st_row_version row')); congruence.
Qed.

(** A tick of tenant [t] and workspace [w]. *)
Definition is_tick (t w : string) (e : OrchestrationEvent) : Prop :=
  ev_tenant_id e = t /\ ev_workspace_id e = w /\
  match ev_data e with ScheduleTicked _ _ _ _ _ _ _ _ _ => True | _ => False end.

Lemma ticks_commute t w s e e' :
  is_tick t w e -> is_tick t w e' -> ev_event_id e <> ev_event_id e' ->
  (apply_event (apply_event s e).1 e').1 = (apply_event (apply_event s e').1 e).1.
Proof.
  intros (<- & <- & Hd) (Ht & Hw & Hd') Hne. unfold apply_event. rewrite Ht, Hw.
  destruct (ev_data e) eqn:E; try done. destruct (ev_data e') eqn:E'; try done.
  rewrite !fold_schedule_ticked_eq. simpl. f_equal.
  - by apply tick_state_commute.
  - by apply tick_row_commute.
Qed.

Lemma fold_left_Permutation {A B} (f : B -> A -> B) (l l' : list A) (s : B) :
  (forall s x y, x ∈ l -> y ∈ l -> f (f s x) y = f (f s y) x) ->
  l ≡ₚ l' -> fold_left f l s = fold_left f l' s.
Proof.
  intros Hc Hp. revert s Hc. induction Hp as [|x l l' Hp IH|x y l|l1 l2 l3 Hp1 IH1 Hp2 IH2];
    intros s Hc; simpl.
  - done.
  - apply IH. intros s' a b Ha Hb. apply Hc; by right.
  - f_equal. apply Hc; [by left|by right; left].
  - rewrite IH1 by done. apply IH2. intros s' a b Ha Hb. apply Hc; by rewrite Hp1.
Qed.

(** Ticks commute.  Applying the ticks of a workspace in any order leaves the
    same state: the schedule's last tick is the one with the greatest event id, and
    each tick row is the one of its latest event. *)
Theorem schedule_ticks_any_order t w s es es' :
  Forall (is_tick t w) es -> es ≡ₚ es' ->
  (forall e e', e ∈ es -> e' ∈ es -> ev_event_id e = ev_event_id e' -> e = e') ->
  fold_left (fun s e => (apply_event s e).1) es s = fold_left (fun s e => (apply_event s e).1) es' s.
Proof.
  intros Ht Hp Hid. apply fold_left_Permutation; [|done]. intros s' x y Hx Hy.
  rewrite Forall_forall in Ht. destruct (decide (ev_event_id x = ev_event_id y)) as [E|E].
  - by rewrite (Hid x y Hx Hy E).
  - apply (ticks_commute t w); auto.
Qed.
End AutoProps.

(** ** The theorems on concrete ledgers *)

Definition sample_sensor (id eid : string) (cursor : option string) (expected : u32) (epoch : i64) :
    OrchestrationEvent :=
  sample_event id
    (SensorEvaluated "sensor" eid None cursor (Some expected) (SrcPoll epoch) [] EvalNoNewData).

Definition sample_request (id key fp eid : string) : OrchestrationEvent :=
  sample_event id (RunRequested key fp [] None (RefSensor "sensor" eid) ∅ None).

(** Two polls expect version 0; the second one loses. *)
Lemma sensor_poll_witness :
  let s := fold_event sample_new (sample_sensor "01" "eval1" (Some "c1") 0 7) in
  let s1 := fold_events s [sample_trigger] in
  let s2 := fold_event s1 (sample_sensor "03" "eval2" (Some "c2") 0 8) in
  fs_sensor_state s2 !! "sensor" = fs_sensor_state s1 !! "sensor" /\
  fold_event s2 (sample_request "04" "key" "fp" "eval2") = s2.
Proof.
  intros s s1 s2.
  destruct (sensor_poll_single_winner s [sample_trigger] (sample_sensor "03" "eval2" (Some "c2") 0 8) 0
    "sensor" "eval2" None (Some "c2") (SrcPoll 8) [] EvalNoNewData) as (Hst & _ & Hq).
  - vm_compute. reflexivity.
  - vm_compute. reflexivity.
  - reflexivity.
  - by_computation.
  - vm_compute. reflexivity.
  - split; [exact Hst|]. by eapply Hq.
Defined.

Lemma run_key_witness :
  let s := fold_event sample_new (sample_request "01" "key" "fp" "eval1") in
  exists row c, fs_run_key_index s !! "key" = Some row /\
    fs_run_key_conflicts (fold_event s (sample_request "02" "key" "other" "eval2")) !!
      "conflict:key:02" = Some c /\ rc_conflicting_fingerprint c = "other".
Proof.
  intros s. take (fs_run_key_index s !! "key") as row with Hrow.
  destruct (run_key_bound_once s (sample_request "02" "key" "other" "eval2") "key" row Hrow)
    as [_ Hc].
  destruct (Hc "other" [] None (RefSensor "sensor" "eval2") ∅ None) as (c & Hc1 & _ & Hc2).
  - reflexivity.
  - by_computation.
  - vm_compute. reflexivity.
  - assert (rk_request_fingerprint <$> fs_run_key_index s !! "key" = Some "fp") as Hfp
      by (vm_compute; reflexivity).
    rewrite Hrow in Hfp. injection Hfp as ->. done.
  - by exists row, c.
Defined.

Definition sample_chunk (id : string) (index : u32) : OrchestrationEvent :=
  sample_event id (BackfillChunkPlanned "bf" (chunk_id_of "bf" index) index [] "rk" "fp").

Definition sample_backfill (id : string) : OrchestrationEvent :=
  sample_event id (BackfillCreated "bf" "req" [] None (SelExplicit []) 10 5 1 None).

(** Chunks 1 and 0 arrive out of order, the backfill in between. *)
Definition sample_backfill_ledger : list OrchestrationEvent :=
  [sample_chunk "01" 1; sample_backfill "02"; sample_chunk "03" 0].


Lemma backfill_transitions_witness :
  let s := fold_event sample_new (sample_backfill "02") in
  exists row row', fs_backfills s !! "bf" = Some row /\
    fs_backfills (fold_event s (sample_event "03" (BackfillStateChanged "bf" BfRunning BfSucceeded 2 None)))
      !! "bf" = Some row'.
Proof.
  intros s. take (fs_backfills s !! "bf") as row with Hrow.
  destruct (backfill_transitions s
    (sample_event "03" (BackfillStateChanged "bf" BfRunning BfSucceeded 2 None)) "bf" row Hrow)
    as (row' & Hrow' & _).
  exists row, row'. split; [exact Hrow|exact Hrow'].
Defined.

Definition sample_tick (id tid : string) (at_ : DateTime) : OrchestrationEvent :=
  sample_event id (ScheduleTicked "sched" at_ tid "v1" [] None TickTriggered None None).

Lemma schedule_ticks_witness :
  fold_left (fun s e => (apply_event s e).1) [sample_tick "01" "t1" 1; sample_tick "02" "t2" 2] sample_new =
  fold_left (fun s e => (apply_event s e).1) [sample_tick "02" "t2" 2; sample_tick "01" "t1" 1] sample_new.
Proof.
  apply (schedule_ticks_any_order "t" "w").
  - repeat constructor.
  - apply perm_swap.
  - intros a b Ha Hb.
    repeat (apply elem_of_cons in Ha as [->|Ha]); try (by apply elem_of_nil in Ha);
      repeat (apply elem_of_cons in Hb as [->|Hb]); try (by apply elem_of_nil in Hb); done.
Defined.
