(* ===== verification/FoldDispatchProps.v ===== *)
(** Dispatches and timers: what the fold guarantees.

    An attempt that was started or finished is never dispatched again, an
    acknowledgement and its request may arrive in either order, and timer and
    ledger identifiers say what they were made from. *)

From stdpp Require Import relations.
From S2P Require Import Prelude Events FoldTypes FoldTasks FoldDispatch FoldAutomation Fold FoldIdempotence FoldMachine FoldProps Sample.
From stdpp Require Import options.

(** ** Consumed attempts *)

(** [attempt_consumed] on a task's state and attempt number. *)
Definition consumed (n : u32) (x : TaskState * u32) : Prop :=
  (n < x.2)%N \/
  (x.2 = n /\ (x.1 = TsRunning \/ x.1 = TsRetryWait \/ task_is_terminal x.1 = true)).

Lemma attempt_consumed_spec t n : attempt_consumed t n = true <-> consumed n (lifecycle t).
Proof.
  unfold attempt_consumed, consumed, lifecycle. simpl.
  rewrite orb_true_iff, andb_true_iff, orb_true_iff, N.ltb_lt, N.eqb_eq.
  destruct (tk_state t); naive_solver.
Qed.

Lemma task_step_consumed n x y : task_step x y -> consumed n x -> consumed n y.
Proof.
  unfold consumed.
  destruct 1 as [a|st a a' Hst Hle Hr|st a a' Hl Hle|st a Hl|st a st' Hl Ht]; simpl.
  - naive_solver.
  - intros [?|[-> [E|[E|E]]]]; [left; lia|..].
    + subst. naive_solver.
    + left. by apply Hr.
    + destruct Hst as [-> | [-> | ->]]; done.
  - intros [?|[-> _]]; [left; lia|]. destruct (decide (n = a')); [subst; naive_solver|left; lia].
  - intros [?|[-> _]]; [by left|naive_solver].
  - intros [?|[-> _]]; [by left|naive_solver].
Qed.

Lemma steps_consumed n x y : rtc task_step x y -> consumed n x -> consumed n y.
Proof. induction 1; eauto using task_step_consumed. Qed.

Section Consumed.
Context `{Hashes} `{Chrono} `{SerdeJson}.


(** ** Requests and acknowledgements *)

Lemma dispatched_not_consumed t n aid id :
  attempt_consumed t n = false -> may_dispatch t n = true ->
  attempt_consumed (dispatch_task_row n aid id t) n = false.
Proof. intros _ _. unfold attempt_consumed. simpl. by rewrite N.ltb_irrefl, andb_false_r. Qed.

Lemma dispatch_task_not_consumed s r k n aid id :
  dispatch_attempt_consumed s r k n = false ->
  dispatch_attempt_consumed (dispatch_task s r k n aid id).1 r k n = false.
Proof.
  unfold dispatch_attempt_consumed, dispatch_task.
  destruct (fs_tasks s !! (r, k)) as [t|] eqn:Ht; simpl; [|by rewrite Ht].
  intros Hc. destruct (may_dispatch t n) eqn:Hm; simpl; [|by rewrite Ht].
  case_match; simpl; [|by rewrite Ht]. rewrite lookup_insert_eq. simpl.
  by apply dispatched_not_consumed.
Qed.

Lemma dispatch_task_outbox s r k n aid id (m : gmap string DispatchOutboxRow) :
  (dispatch_task (s <| fs_dispatch_outbox := m |>) r k n aid id).1 =
  (dispatch_task s r k n aid id).1 <| fs_dispatch_outbox := m |>.
Proof.
  unfold dispatch_task. simpl. destruct (fs_tasks s !! (r, k)) as [t|]; [|done].
  by repeat case_match.
Qed.

Lemma dispatch_task_keeps_outbox s r k n aid id :
  fs_dispatch_outbox (dispatch_task s r k n aid id).1 = fs_dispatch_outbox s.
Proof. unfold dispatch_task. by repeat case_match. Qed.

(** A dispatch and its acknowledgement commute.  Folding the
    [DispatchRequested] of an attempt and then the [DispatchEnqueued] that
    acknowledges it gives the same state as the other way round: the row an early
    acknowledgement creates is completed by the request, and the task is dispatched
    with the request's attempt id. *)
Theorem dispatch_ack_any_order s r k n aid wq did c id ts id' ts' :
  fs_dispatch_outbox s !! did = None -> dispatch_attempt_consumed s r k n = false ->
  str_leb id' id = false ->
  let requested s := (fold_dispatch_requested s r k n aid wq did id ts).1 in
  let enqueued s :=
    (fold_dispatch_enqueued s did (Some r) (Some k) (Some n) c id' ts').1 in
  enqueued (requested s) = requested (enqueued s).
Proof.
  intros Hn Hc Hlt requested enqueued. unfold requested, enqueued, fold_dispatch_enqueued.
  rewrite Hc. unfold upsert_enqueued at 2. rewrite Hn. cbn [fst].
  unfold fold_dispatch_requested.
  assert (forall (m : gmap string DispatchOutboxRow),
    dispatch_attempt_consumed (s <| fs_dispatch_outbox := m |>) r k n = false) as Hc' by done.
  rewrite Hc, Hc', Hn. cbn [fs_dispatch_outbox put_field]. rewrite lookup_insert_eq.
  assert (complete_outbox_row aid wq
     (mkDispatchOutboxRow r k n did (Some c) DispCreated "" "default-queue" ts' id') =
     (mkDispatchOutboxRow r k n did (Some c) DispCreated aid wq ts' id',
      true)) as Hcomp.
  { unfold complete_outbox_row. simpl. destruct (String.eqb_spec wq "default-queue"); simpl; [|done].
    by subst. }
  rewrite Hcomp. cbn [ob_attempt_id].
  pose proof (dispatch_task_not_consumed s r k n aid id Hc) as Hc1.
  pose proof (dispatch_task_keeps_outbox s r k n aid id) as Ho.
  pose proof (dispatch_task_outbox s r k n aid id) as Hcomm.
  destruct (dispatch_task s r k n aid id) as [s1 b1] eqn:E1. simpl in Hc1, Ho, Hcomm.
  cbn [fst].
  match goal with |- (if dispatch_attempt_consumed ?x r k n then _ else _).1 = _ =>
    change (dispatch_attempt_consumed x r k n) with (dispatch_attempt_consumed s1 r k n) end.
  rewrite Hc1. unfold upsert_enqueued. simpl. rewrite lookup_insert_eq. simpl. rewrite Hlt. simpl.
  rewrite !insert_insert_eq. 
  match goal with |- _ = (let '(_, _) := dispatch_task ?x r k n aid id in _).1 =>
    pose proof (Hcomm (fs_dispatch_outbox x)) as Hx; simpl in Hx;
    destruct (dispatch_task x r k n aid id) as [s2 b2] eqn:E2 end.
  simpl in Hx |- *. rewrite Hx, Ho. done.
Qed.
End Consumed.

(** ** Timer identifiers *)

Lemma split_on_not_nil c s : split_on c s <> [].
Proof. induction s as [|a s IH]; simpl; [done|]. repeat case_match; done. Qed.

Lemma split_on_length_app c a p : 2 <= length (split_on c (a +:+ String c p)).
Proof.
  induction a as [|x a IH]; str_simpl.
  - rewrite decide_True by done. simpl. pose proof (split_on_not_nil c p).
    destruct (split_on c p); simpl; [done|lia].
  - case_decide; simpl; [lia|]. destruct (split_on c (a +:+ String c p)); simpl in *; lia.
Qed.

Lemma split_on_last c a p :
  str_contains c p = false -> last (split_on c (a +:+ String c p)) = Some p.
Proof.
  intros Hp. induction a as [|x a IH]; str_simpl.
  - rewrite decide_True by done. by rewrite split_on_no_sep.
  - pose proof (split_on_length_app c a p) as Hlen.
    destruct (split_on c (a +:+ String c p)) as [|h [|h' l]]; simpl in Hlen; try lia.
    case_decide; exact IH.
Qed.

Lemma parse_timer_parts ty kind r k n ep :
  timer_type_of_segment kind = Some ty -> ty <> TtCron -> str_contains ":" kind = false ->
  str_contains ":" r = false -> str_contains ":" k = false ->
  (n <= u32_max)%N -> (i64_min <= ep <= i64_max)%Z ->
  parse_timer_id ("timer:" +:+ kind +:+ ":" +:+ r +:+ ":" +:+ k +:+ ":" +:+ pretty n +:+ ":" +:+
                  pretty ep) = Some (mkParsedTimerId ty ep (Some r) (Some k) (Some n)).
Proof.
  intros Hty Hnc Hkind Hr Hk Hn Hep. unfold parse_timer_id. rewrite split_timer_id by done.
  simpl. rewrite Hty. simpl. rewrite parse_i64_pretty by done. simpl.
  rewrite parse_u32_pretty by done. by destruct ty.
Qed.

(** Timer identifiers round-trip.  Parsing the identifier of a retry or
    heartbeat timer gives back its type, run, task, attempt and fire time, for run
    and task keys without a colon; the fire time of a cron timer is found whatever
    the schedule's name contains. *)
Theorem timer_id_roundtrip r k n ep sid :
  str_contains ":" r = false -> str_contains ":" k = false ->
  (n <= u32_max)%N -> (i64_min <= ep <= i64_max)%Z ->
  parse_timer_id (retry_timer_id r k n ep) =
    Some (mkParsedTimerId TtRetry ep (Some r) (Some k) (Some n)) /\
  parse_timer_id (heartbeat_timer_id r k n ep) =
    Some (mkParsedTimerId TtHeartbeatCheck ep (Some r) (Some k) (Some n)) /\
  parse_timer_id (cron_timer_id sid ep) = Some (mkParsedTimerId TtCron ep None None None).
Proof.
  intros Hr Hk Hn Hep. split_and!.
  - by apply (parse_timer_parts TtRetry "retry").
  - by apply (parse_timer_parts TtHeartbeatCheck "heartbeat").
  - unfold parse_timer_id, cron_timer_id.
    change ("timer:cron:" +:+ sid +:+ ":" +:+ pretty ep) with
      ("timer" +:+ String ":" ("cron" +:+ String ":" (sid +:+ String ":" (pretty ep)))).
    rewrite (split_on_app ":" "timer"), (split_on_app ":" "cron") by done. cbv zeta.
    assert (last ("timer" :: "cron" :: split_on ":" (sid +:+ String ":" (pretty ep))) =
            Some (pretty ep)) as Hl.
    { pose proof (split_on_length_app ":" sid (pretty ep)) as Hlen.
      rewrite <- (split_on_last ":" sid (pretty ep)) by by apply pretty_Z_no_char.
      destruct (split_on ":" (sid +:+ String ":" (pretty ep))); [simpl in Hlen; lia|done]. }
    rewrite Hl. simpl. by rewrite parse_i64_pretty.
Qed.

(** ** Timers and their acknowledgements *)

Section Timers.
Context `{Hashes} `{Chrono} `{SerdeJson}.

Lemma set_retry_timers s r k n fa id (m : gmap string TimerRow) :
  set_retry_not_before (s <| fs_timers := m |>) r k n fa id =
  let '(s', b) := set_retry_not_before s r k n fa id in (s' <| fs_timers := m |>, b).
Proof. unfold set_retry_not_before. simpl. by repeat case_match. Qed.

Lemma set_retry_keeps_timers s r k n fa id :
  fs_timers (set_retry_not_before s r k n fa id).1 = fs_timers s.
Proof. unfold set_retry_not_before. by repeat case_match. Qed.

#[local] Arguments set_retry_not_before : simpl never.

(** A retry timer and its acknowledgement commute.  Folding the
    [TimerRequested] of a retry and the [TimerEnqueued] that acknowledges it gives
    the same state in either order: what an early acknowledgement cannot know is
    read off the timer's identifier, and the task's retry time is set either way. *)
Theorem retry_timer_ack_any_order s r k n ep fa c id id' :
  str_contains ":" r = false -> str_contains ":" k = false ->
  (n <= u32_max)%N -> (i64_min <= ep <= i64_max)%Z ->
  let tid := retry_timer_id r k n ep in
  fs_timers s !! tid = None -> str_leb id' id = false ->
  let requested s := (fold_timer_requested s tid EvRetry (Some r) (Some k) (Some n) fa id).1 in
  let enqueued s := (fold_timer_enqueued s tid (Some r) (Some k) (Some n) c id').1 in
  enqueued (requested s) = requested (enqueued s).
Proof.
  intros Hr Hk Hn Hep tid Hnone Hlt requested enqueued.
  assert (parse_timer_id tid = Some (mkParsedTimerId TtRetry ep (Some r) (Some k) (Some n))) as Hp
    by by apply (parse_timer_parts TtRetry "retry").
  clearbody tid. unfold requested, enqueued, fold_timer_enqueued at 2. rewrite Hnone.
  unfold timer_row_of_id. rewrite Hp. simpl.
  unfold fold_timer_requested. simpl. rewrite Hnone, lookup_insert_eq.
  unfold complete_timer_row. simpl.
  pose proof (set_retry_timers s (Some r) (Some k) (Some n) fa id) as Hm. simpl in Hm.
  pose proof (set_retry_keeps_timers s (Some r) (Some k) (Some n) fa id) as Ht.
  rewrite !Hm.
  destruct (set_retry_not_before s (Some r) (Some k) (Some n) fa id) as [s1 b1]. simpl in Ht |- *.
  unfold fold_timer_enqueued. simpl. rewrite lookup_insert_eq. simpl. rewrite Hlt. simpl.
  by rewrite !insert_insert_eq.
Qed.
End Timers.

(** ** Ledger paths *)

Lemma split_on_join c s : join (String c EmptyString) (split_on c s) = s.
Proof.
  induction s as [|a s IH]; [done|]. simpl.
  pose proof (split_on_not_nil c s) as Hn.
  case_decide; subst; destruct (split_on c s) as [|h [|h' l]]; try done; simpl in *;
    str_simpl; rewrite ?IH; by subst.
Qed.

Lemma split_on_pieces c s p : p ∈ split_on c s -> str_contains c p = false.
Proof.
  revert p. induction s as [|a s IH]; intros p; simpl.
  - intros Hp%list_elem_of_singleton. by subst.
  - pose proof (split_on_not_nil c s) as Hn.
    case_decide; destruct (split_on c s) as [|h l]; try done.
    + intros [->|Hp]%elem_of_cons; [done|by apply IH].
    + intros [->|Hp]%elem_of_cons; [|apply IH; by right]. simpl.
      rewrite bool_decide_false by done. apply IH. by left.
Qed.

Lemma all_bytes_no_slash f i d :
  (forall j, f j "/"%char = false) -> all_bytes_at f i d = true -> str_contains "/" d = false.
Proof.
  intros Hf. revert i. induction d as [|c d IH]; intros i; simpl; [done|].
  rewrite andb_true_iff. intros [Hc Hd]. rewrite (IH _ Hd), orb_false_r.
  apply bool_decide_eq_false. intros ->. congruence.
Qed.

Lemma iso8601_no_slash d : is_iso8601_date_segment d = true -> str_contains "/" d = false.
Proof.
  unfold is_iso8601_date_segment. case_match; [done|]. apply all_bytes_no_slash.
  intros j. do 8 (destruct j as [|j]; [done|]). done.
Qed.

(** Ledger paths round-trip.  The event id found in a path is exactly the
    file name of a path [ledger/orchestration/{date}/{id}.json] with an ISO date
    and a non-empty id without a slash; every other path is rejected. *)
Theorem ledger_path_roundtrip path id :
  event_id_from_ledger_path path = Some id <->
  id <> "" /\ str_contains "/" id = false /\
  exists date, is_iso8601_date_segment date = true /\
    path = "ledger/orchestration/" +:+ date +:+ "/" +:+ id +:+ ".json".
Proof.
  split.
  - unfold event_id_from_ledger_path. pose proof (split_on_join "/" path) as Hj.
    pose proof (split_on_pieces "/" path) as Hp.
    destruct (split_on "/" path) as [|p0 [|p1 rest]] eqn:E; try done.
    destruct (String.eqb_spec p0 "ledger"), (String.eqb_spec p1 "orchestration"); try done. simpl.
    destruct rest as [|date rest]; [done|].
    destruct (is_iso8601_date_segment date) eqn:Hd; [|done]. simpl.
    destruct rest as [|file [|]]; try done.
    destruct (strip_suffix ".json" file) as [i|] eqn:Hs; [|done]. simpl.
    destruct (str_is_empty i) eqn:Hi; [done|]. intros [= ->].
    apply strip_suffix_Some in Hs. subst p0 p1 file.
    assert (str_contains "/" (id +:+ ".json") = false) as Hf
      by (apply Hp; do 3 right; by left).
    rewrite str_contains_app in Hf. apply orb_false_iff in Hf as [Hf _].
    split_and!; [by intros ->|done|]. exists date. split; [done|]. rewrite <- Hj. simpl. by str_simpl.
  - intros (Hne & Hs & date & Hd & ->). unfold event_id_from_ledger_path.
    change ("ledger/orchestration/" +:+ ?x) with
      ("ledger" +:+ String "/" ("orchestration" +:+ String "/" x)).
    rewrite (split_on_app "/" "ledger"), (split_on_app "/" "orchestration") by done.
    rewrite (str_app_cons "/"), str_app_nil.
    rewrite (split_on_app "/" date) by by apply iso8601_no_slash.
    rewrite split_on_no_sep by (rewrite str_contains_app, Hs; done). simpl. rewrite Hd. simpl.
    rewrite strip_suffix_app. simpl. by destruct id.
Qed.

(** ** The theorems on the sample ledger *)


Lemma dispatch_ack_witness :
  let s := fold_events sample_new [sample_trigger; sample_planned] in
  let requested s := (fold_dispatch_requested s "r" "a" 1 "a1" "q" "d1" "03" 5).1 in
  let enqueued s :=
    (fold_dispatch_enqueued s "d1" (Some "r") (Some "a") (Some 1%N) "cloud" "04" 6).1 in
  enqueued (requested s) = requested (enqueued s).
Proof.
  intros s. apply (dispatch_ack_any_order s "r" "a" 1 "a1" "q" "d1" "cloud" "03" 5 "04" 6);
    vm_compute; reflexivity.
Defined.

Lemma timer_id_witness :
  parse_timer_id (retry_timer_id "run" "task" 3 1700000000) =
  Some (mkParsedTimerId TtRetry 1700000000 (Some "run") (Some "task") (Some 3%N)).
Proof.
  apply (timer_id_roundtrip "run" "task" 3 1700000000 "sched"); try reflexivity;
    unfold u32_max, i64_min, i64_max; lia.
Defined.

Lemma retry_timer_ack_witness :
  let requested s :=
    (fold_timer_requested s (retry_timer_id "r" "a" 1 60) EvRetry (Some "r") (Some "a") (Some 1%N) 9 "06").1 in
  let enqueued s :=
    (fold_timer_enqueued s (retry_timer_id "r" "a" 1 60) (Some "r") (Some "a") (Some 1%N) "cloud" "07").1 in
  enqueued (requested sample_failed_first) = requested (enqueued sample_failed_first).
Proof.
  apply (retry_timer_ack_any_order sample_failed_first "r" "a" 1 60 9 "cloud" "06" "07");
    try reflexivity; try (unfold u32_max, i64_min, i64_max; lia); vm_compute; reflexivity.
Defined.
