(* ===== verification/Merge.v ===== *)
(** Merging base snapshots with L0 deltas.

    The [merge_*_rows] functions of [compactor/fold.rs]: a row key that occurs in
    the base snapshot and in several deltas is reduced to one row.  All of them
    keep the latest row of a total preorder ([VersionOrder]), the later one on
    ties, which is what makes compaction in stages sound. *)

From S2P Require Import Prelude Events FoldTypes.
From stdpp Require Import options.

(** [rows.into_iter().reduce(f)] *)
Definition reduce {A} (f : A -> A -> A) (rows : list A) : option A :=
  match rows with
  | [] => None
  | best :: rest => Some (fold_left f rest best)
  end.

(** Last writer wins on a [row_version] column. *)
Definition by_row_version {A} (version : A -> string) (best row : A) : A :=
  match String.compare (version row) (version best) with
  | Lt => best
  | Eq | Gt => row
  end.

Definition keep_task_row (best row : TaskRow) : TaskRow :=
  match String.compare (tk_row_version row) (tk_row_version best) with
  | Gt => row
  | Lt => best
  | Eq =>
      match N.compare (rank (tk_state row)) (rank (tk_state best)) with
      | Lt => best
      | Eq | Gt => row
      end
  end.

Definition merge_task_rows := reduce keep_task_row.

Definition merge_run_rows := reduce (by_row_version rn_row_version).
Definition merge_catalog_run_index_rows := reduce (by_row_version ci_row_version).
Definition merge_dep_satisfaction_rows := reduce (by_row_version dp_row_version).
Definition merge_dispatch_outbox_rows := reduce (by_row_version ob_row_version).
Definition merge_timer_rows := reduce (by_row_version ti_row_version).
Definition merge_sensor_state_rows := reduce (by_row_version se_row_version).
Definition merge_sensor_eval_rows := reduce (by_row_version sv_row_version).
Definition merge_idempotency_key_rows := reduce (by_row_version ik_row_version).
Definition merge_partition_status_rows := reduce (by_row_version ps_row_version).
Definition merge_schedule_definition_rows := reduce (by_row_version sd_row_version).
Definition merge_schedule_state_rows := reduce (by_row_version ss_row_version).
Definition merge_schedule_tick_rows := reduce (by_row_version st_row_version).
Definition merge_backfill_chunk_rows := reduce (by_row_version bc_row_version).

Definition keep_backfill_row (best row : BackfillRow) : BackfillRow :=
  match N.compare (bf_state_version row) (bf_state_version best) with
  | Gt => row
  | Lt => best
  | Eq =>
      match String.compare (bf_row_version row) (bf_row_version best) with
      | Lt => best
      | Eq | Gt => row
      end
  end.

Definition merge_backfill_rows := reduce keep_backfill_row.

(** ** The order behind a merge *)

(** A combiner that keeps the later of two rows for a total preorder, and the
    second one on ties. *)
Class VersionOrder {A} (f : A -> A -> A) := {
  ver_leb : A -> A -> bool;
  ver_total : forall a b, ver_leb a b = false -> ver_leb b a = true;
  ver_trans : forall a b c, ver_leb a b = true -> ver_leb b c = true -> ver_leb a c = true;
  ver_keep : forall best row, f best row = if ver_leb best row then row else best
}.

Lemma str_compare_leb (a b : string) :
  (match String.compare b a with Lt => false | _ => true end) = str_leb a b.
Proof.
  unfold str_leb, String.leb. rewrite (String.compare_antisym a b).
  by destruct (String.compare b a).
Qed.

#[export] Program Instance by_row_version_order {A} (version : A -> string) :
    VersionOrder (by_row_version version) := {|
  ver_leb := fun a b => str_leb (version a) (version b)
|}.
Next Obligation. intros. by apply str_leb_false. Qed.
Next Obligation. intros A v a b c H1 H2. exact (str_leb_trans _ _ _ H1 H2). Qed.
Next Obligation.
  intros. unfold by_row_version. rewrite <- str_compare_leb. by destruct (String.compare _ _).
Qed.

(** The lexicographic order of two total preorders. *)
Definition lex_leb {A} (p q : A -> A -> bool) (a b : A) : bool :=
  p a b && (negb (p b a) || q a b).

Lemma lex_total {A} (p q : A -> A -> bool) a b :
  (forall a b, p a b = false -> p b a = true) -> (forall a b, q a b = false -> q b a = true) ->
  lex_leb p q a b = false -> lex_leb p q b a = true.
Proof.
  unfold lex_leb. intros Hp Hq. specialize (Hp a b) as H1. specialize (Hp b a) as H2.
  specialize (Hq a b). destruct (p a b), (p b a), (q a b), (q b a); naive_solver.
Qed.

Lemma lex_trans {A} (p q : A -> A -> bool) a b c :
  (forall a b c, p a b = true -> p b c = true -> p a c = true) ->
  (forall a b c, q a b = true -> q b c = true -> q a c = true) ->
  lex_leb p q a b = true -> lex_leb p q b c = true -> lex_leb p q a c = true.
Proof.
  unfold lex_leb. rewrite !andb_true_iff, !orb_true_iff, !negb_true_iff.
  intros Hp Hq [Hab Hab'] [Hbc Hbc']. split; [by eapply Hp|].
  destruct (p c a) eqn:Hca; [|by left]. right.
  assert (p b a = true) by (eapply Hp; eauto). assert (p c b = true) by (eapply Hp; eauto).
  destruct Hab' as [|Hab']; [congruence|]. destruct Hbc' as [|Hbc']; [congruence|].
  by eapply Hq.
Qed.

#[export] Program Instance merge_task_order : VersionOrder keep_task_row := {|
  ver_leb := lex_leb (fun a b => str_leb (tk_row_version a) (tk_row_version b))
                     (fun a b => rank (tk_state a) <=? rank (tk_state b))%N
|}.
Next Obligation.
  intros a b. apply lex_total; intros; [by apply str_leb_false|].
  apply N.leb_le. apply N.leb_gt in H. lia.
Qed.
Next Obligation.
  intros a b c. apply lex_trans; intros; [by eapply str_leb_trans; eauto|].
  rewrite N.leb_le in *. lia.
Qed.
Next Obligation.
  intros best row. unfold keep_task_row, lex_leb. simpl. rewrite <- !str_compare_leb.
  rewrite (String.compare_antisym (tk_row_version best) (tk_row_version row)).
  destruct (String.compare (tk_row_version row) (tk_row_version best)); simpl; try done.
  destruct (N.compare_spec (rank (tk_state row)) (rank (tk_state best))) as [E|E|E];
    destruct (N.leb_spec (rank (tk_state best)) (rank (tk_state row))); try done; lia.
Qed.

#[export] Program Instance merge_backfill_order : VersionOrder keep_backfill_row := {|
  ver_leb := lex_leb (fun a b => bf_state_version a <=? bf_state_version b)%N
                     (fun a b => str_leb (bf_row_version a) (bf_row_version b))
|}.
Next Obligation.
  intros a b. apply lex_total; intros; [|by apply str_leb_false].
  apply N.leb_le. apply N.leb_gt in H. lia.
Qed.
Next Obligation.
  intros a b c. apply lex_trans; intros; [|by eapply str_leb_trans; eauto].
  rewrite N.leb_le in *. lia.
Qed.
Next Obligation.
  intros best row. unfold keep_backfill_row, lex_leb. simpl. rewrite <- str_compare_leb.
  destruct (N.compare_spec (bf_state_version row) (bf_state_version best)) as [E|E|E].
  - rewrite E, N.leb_refl. simpl. by destruct (String.compare _ _).
  - by rewrite (proj2 (N.leb_gt _ _) E).
  - rewrite (proj2 (N.leb_le _ _)) by lia. by rewrite (proj2 (N.leb_gt _ _) E).
Qed.

(** ** Merging keeps the last of the latest rows *)

Section Reduce.
Context {A} (f : A -> A -> A) `{!VersionOrder f}.

Lemma ver_refl a : ver_leb a a = true.
Proof. destruct (ver_leb a a) eqn:E; [done|]. pose proof (ver_total _ _ E). congruence. Qed.

Lemma keep_assoc a b c : f a (f b c) = f (f a b) c.
Proof using All.
  rewrite !ver_keep. destruct (ver_leb b c) eqn:Ebc, (ver_leb a b) eqn:Eab; simpl; rewrite ?Ebc, ?Eab.
  - by rewrite (ver_trans a b c).
  - destruct (ver_leb a c) eqn:Eac; [done|].
    apply ver_total in Eac. apply ver_total in Eab.
    done.
  - done.
  - destruct (ver_leb a c) eqn:Eac; [|done].
    apply ver_total in Ebc. rewrite (ver_trans a c b) in Eab by done. done.
Qed.

Lemma fold_left_keep l a b : fold_left f l (f a b) = f a (fold_left f l b).
Proof using All.
  revert b. induction l as [|x l IH]; intros b; [done|]. simpl. by rewrite <- keep_assoc, IH.
Qed.

Lemma fold_left_keep_app l a : fold_left f l a = match reduce f l with
                                                 | Some b => f a b
                                                 | None => a
                                                 end.
Proof using All. destruct l as [|b l]; [done|]. simpl. apply fold_left_keep. Qed.

(** The reduction of two groups of rows is the reduction of their results. *)
Lemma reduce_app l1 l2 :
  reduce f (l1 ++ l2) = reduce f (option_list (reduce f l1) ++ option_list (reduce f l2)).
Proof using All.
  destruct l1 as [|a l1].
  - simpl. destruct l2; done.
  - simpl. rewrite fold_left_app, (fold_left_keep_app l2). by destruct (reduce f l2).
Qed.

Lemma reduce_elem l a : reduce f l = Some a -> a ∈ l.
Proof using All.
  destruct l as [|b l]; [done|]. simpl. intros [= <-]. revert b.
  induction l as [|x l IH]; intros b; simpl; [by left|].
  specialize (IH (f b x)). apply elem_of_cons in IH as [->|IH]; [|by right; right].
  rewrite ver_keep. case_match; [right; by left|by left].
Qed.

Lemma reduce_max l a b : reduce f l = Some a -> b ∈ l -> ver_leb b a = true.
Proof using All.
  destruct l as [|c l]; [done|]. simpl. intros [= <-]. revert c b.
  induction l as [|x l IH]; intros c b Hb; simpl.
  - apply list_elem_of_singleton in Hb as ->. apply ver_refl.
  - assert (ver_leb (f c x) (fold_left f l (f c x)) = true) as Hm by (apply IH; by left).
    rewrite ver_keep in Hm |- *.
    apply elem_of_cons in Hb as [->|Hb]; [|apply elem_of_cons in Hb as [->|Hb]].
    + case_match eqn:E; [|done]. by eapply ver_trans.
    + case_match eqn:E; [done|]. apply ver_total in E. by eapply ver_trans.
    + case_match; (apply IH; by right).
Qed.

(** The last of the latest rows: everything after it is strictly older. *)
Lemma reduce_last l a :
  reduce f l = Some a ->
  exists l1 l2, l = l1 ++ a :: l2 /\ (forall b, b ∈ l1 -> ver_leb b a = true) /\
    (forall b, b ∈ l2 -> ver_leb a b = false).
Proof using All.
  revert a. induction l as [|x l IH] using rev_ind; intros a Ha; [done|].
  rewrite reduce_app in Ha. simpl in Ha. destruct (reduce f l) as [b|] eqn:Eb; simpl in Ha.
  - injection Ha as Ha. rewrite ver_keep in Ha. destruct (ver_leb b x) eqn:E; subst a.
    + exists l, []. split_and!; [done| |intros c Hc; by apply elem_of_nil in Hc].
      intros c Hc. eapply ver_trans; [by eapply reduce_max|done].
    + destruct (IH b eq_refl) as (l1 & l2 & -> & H1 & H2).
      exists l1, (l2 ++ [x]). split_and!; [by rewrite <- app_assoc|done|].
      intros c [Hc|Hc%list_elem_of_singleton]%elem_of_app; [by apply H2|by subst].
  - destruct l; [|done]. injection Ha as <-. exists [], [].
    split_and!; [done|..]; intros c Hc; by apply elem_of_nil in Hc.
Qed.

(** Rows that are pairwise distinguished by the order. *)
Definition distinguished (l : list A) : Prop :=
  forall a b, a ∈ l -> b ∈ l -> ver_leb a b = true -> ver_leb b a = true -> a = b.

Lemma reduce_Permutation l1 l2 :
  l1 ≡ₚ l2 -> distinguished l1 -> reduce f l1 = reduce f l2.
Proof using All.
  intros Hp Hd. destruct (reduce f l1) as [a|] eqn:E1, (reduce f l2) as [b|] eqn:E2.
  - f_equal. apply Hd.
    + by apply reduce_elem.
    + rewrite Hp. by apply reduce_elem.
    + apply (reduce_max l2); [done|]. rewrite <- Hp. by apply reduce_elem.
    + apply (reduce_max l1); [done|]. rewrite Hp. by apply reduce_elem.
  - destruct l2; [|done]. apply Permutation_nil_r in Hp; by subst.
  - destruct l1; [|done]. apply Permutation_nil_l in Hp; by subst.
  - done.
Qed.
End Reduce.

(** Each table's merge of two groups of rows is the merge of their merges. *)
Definition staged {A} (merge : list A -> option A) : Prop :=
  forall base deltas,
    merge (base ++ deltas) = merge (option_list (merge base) ++ option_list (merge deltas)).

(** compaction in stages loses nothing.  For every table, merging a base
    snapshot and its deltas at once gives the row that merging the base, merging
    the deltas and merging the two results gives, wherever the list is cut. *)
Theorem merges_staged :
  staged merge_task_rows /\ staged merge_run_rows /\ staged merge_catalog_run_index_rows /\
  staged merge_dep_satisfaction_rows /\ staged merge_dispatch_outbox_rows /\
  staged merge_timer_rows /\ staged merge_sensor_state_rows /\ staged merge_sensor_eval_rows /\
  staged merge_idempotency_key_rows /\ staged merge_partition_status_rows /\
  staged merge_schedule_definition_rows /\ staged merge_schedule_state_rows /\
  staged merge_schedule_tick_rows /\ staged merge_backfill_rows /\ staged merge_backfill_chunk_rows.
Proof. split_and!; intros base deltas; apply reduce_app, _. Qed.

(** The merged task row is the last of the latest.  The result of
    [merge_task_rows] is one of the rows; no row is newer (by [row_version], then
    by state rank), and every row after it in the list is strictly older: on a tie
    the row of the later delta wins. *)
Theorem merge_task_rows_spec rows best :
  merge_task_rows rows = Some best ->
  let leb := lex_leb (fun a b => str_leb (tk_row_version a) (tk_row_version b))
                     (fun a b => rank (tk_state a) <=? rank (tk_state b))%N in
  exists before after, rows = before ++ best :: after /\
    (forall row, row ∈ before -> leb row best = true) /\
    (forall row, row ∈ after -> leb best row = false).
Proof. exact (reduce_last keep_task_row rows best). Qed.

(** The order of the deltas does not matter for distinct versions.  When no
    two different rows carry the same [row_version], [merge_run_rows] gives the same
    row for every order in which base and deltas are read. *)
Theorem merge_run_rows_order rows rows' :
  rows ≡ₚ rows' ->
  (forall a b, a ∈ rows -> b ∈ rows -> rn_row_version a = rn_row_version b -> a = b) ->
  merge_run_rows rows = merge_run_rows rows'.
Proof.
  intros Hp Hd. apply (reduce_Permutation (by_row_version rn_row_version) _ _ Hp). intros a b Ha Hb H1 H2.
  apply Hd; [done|done|]. by apply str_leb_antisym.
Qed.

(** ** The theorems on concrete rows *)

Definition sample_task_row (state : TaskState) (version : string) : TaskRow :=
  mkTaskRow "r" "a" state 1 None None None None 0 0 1 60 None None None None false None None None
    None None None None None None version.

Lemma merge_task_rows_witness :
  exists before after,
    [sample_task_row TsReady "01"; sample_task_row TsSucceeded "02"; sample_task_row TsRunning "02"]
      = before ++ sample_task_row TsSucceeded "02" :: after /\ length after = 1.
Proof.
  destruct (merge_task_rows_spec
    [sample_task_row TsReady "01"; sample_task_row TsSucceeded "02"; sample_task_row TsRunning "02"]
    (sample_task_row TsSucceeded "02") eq_refl) as (l1 & l2 & Hl & _ & H2).
  exists l1, l2. split; [exact Hl|].
  destruct l1 as [|x l1]; [by injection Hl|]. injection Hl as _ Hl.
  destruct l1 as [|y l1]; [by injection Hl as <-|]. injection Hl as _ Hl.
  destruct l1 as [|z l1]; [by injection Hl|]. by destruct l1.
Defined.

Definition sample_run_row (version : string) : RunRow :=
  mkRunRow "r" "p" RsRunning None ∅ None false 0 0 0 0 0 0 0 None version.

Lemma merge_run_rows_order_witness :
  merge_run_rows [sample_run_row "01"; sample_run_row "02"; sample_run_row "03"] =
  merge_run_rows [sample_run_row "03"; sample_run_row "02"; sample_run_row "01"].
Proof.
  apply merge_run_rows_order.
  - apply (Permutation_rev [sample_run_row "01"; sample_run_row "02"; sample_run_row "03"]).
  - intros a b Ha Hb.
    repeat (apply elem_of_cons in Ha as [->|Ha]); try (by apply elem_of_nil in Ha);
      repeat (apply elem_of_cons in Hb as [->|Hb]); try (by apply elem_of_nil in Hb); done.
Defined.
