(* ===== verification/FoldVersions.v ===== *)
(** Row versions under the fold.

    Every row carries the id of the event that last wrote it.  One event changes
    a table by a [table_step]: a row is rewritten under the event's id, or under
    its old version without going back in the order its merge uses, and no row
    goes away (dispatch outbox rows excepted).  When events arrive in id order the
    versions of every table therefore only grow, which is what merging L0 deltas
    relies on. *)

From S2P Require Import Prelude Events FoldTypes FoldTasks FoldDispatch FoldAutomation Fold FoldIdempotence Merge.
From stdpp Require Import options.

(** ** How one event changes a table *)

(** What is to be known of a table's rows: their version, what a row under a key
    says of its key, what never goes back ([sp_aux]), what a rewrite under an
    unchanged version keeps ([sp_tie]), and the order of the table's merge. *)
Record TableSpec (K A : Type) := mkTableSpec {
  sp_ver : A -> string;
  sp_good : K -> A -> Prop;
  sp_aux : A -> A -> Prop;
  sp_tie : A -> A -> Prop;
  sp_leb : A -> A -> bool;
  sp_aux_pre : PreOrder sp_aux;
  sp_tie_pre : PreOrder sp_tie;
  sp_leb_refl : forall a, sp_leb a a = true;
  sp_leb_trans : forall a b c, sp_leb a b = true -> sp_leb b c = true -> sp_leb a c = true;
  sp_newer : forall a b, sp_aux a b -> str_leb (sp_ver b) (sp_ver a) = false -> sp_leb a b = true;
  sp_same : forall a b, sp_aux a b -> sp_ver b = sp_ver a -> sp_tie a b -> sp_leb a b = true
}.
Arguments mkTableSpec {K A}.
Arguments sp_ver {K A}. Arguments sp_good {K A}. Arguments sp_aux {K A}. Arguments sp_tie {K A}.
Arguments sp_leb {K A}. Arguments sp_newer {K A}. Arguments sp_same {K A}.
Arguments sp_aux_pre {K A}. Arguments sp_tie_pre {K A}.
Arguments sp_leb_refl {K A}. Arguments sp_leb_trans {K A}.
#[export] Existing Instance sp_aux_pre.
#[export] Existing Instance sp_tie_pre.

Section Tables.
Context {K : Type} `{Countable K} {A : Type} (sp : TableSpec K A).

Definition row_step (id : string) (k : K) (a b : A) : Prop :=
  (sp_good sp k a -> sp_good sp k b) /\ sp_aux sp a b /\
  (sp_ver sp b = id \/ (sp_ver sp b = sp_ver sp a /\ sp_tie sp a b)).

Definition row_change (id : string) (k : K) (before after : option A) : Prop :=
  match before, after with
  | None, None => True
  | None, Some b => sp_good sp k b /\ str_leb (sp_ver sp b) id = true
  | Some a, Some b => row_step id k a b
  | Some _, None => False
  end.

Definition table_step (id : string) (m m' : gmap K A) : Prop :=
  forall k, row_change id k (m !! k) (m' !! k).

(** Every version is at most [w]. *)
Definition bounded (w : string) (m : gmap K A) : Prop :=
  forall k a, m !! k = Some a -> sp_good sp k a /\ str_leb (sp_ver sp a) w = true.

(** Every row of [m] is still there, as it was or newer. *)
Definition rows_grow (m m' : gmap K A) : Prop :=
  forall k a, m !! k = Some a -> exists b, m' !! k = Some b /\ sp_leb sp a b = true.

Lemma row_step_refl id k a : row_step id k a a.
Proof. split_and!; [done|reflexivity|right; split; [done|reflexivity]]. Qed.

Lemma row_step_trans id k a b c : row_step id k a b -> row_step id k b c -> row_step id k a c.
Proof.
  intros (G1 & A1 & V1) (G2 & A2 & V2). split_and!; [by auto|by etrans|].
  destruct V2 as [V2|[V2 T2]]; [by left|].
  destruct V1 as [V1|[V1 T1]]; [left; congruence|right]. split; [congruence|by etrans].
Qed.

Lemma table_step_refl id m : table_step id m m.
Proof. intros k. unfold row_change. case_match; [apply row_step_refl|done]. Qed.

Lemma row_step_ver_le id k a b :
  row_step id k a b -> str_leb (sp_ver sp a) id = true -> str_leb (sp_ver sp b) id = true.
Proof. intros (_ & _ & [->|[-> _]]) ?; [apply str_leb_refl|done]. Qed.

Lemma table_step_trans id m1 m2 m3 :
  table_step id m1 m2 -> table_step id m2 m3 -> table_step id m1 m3.
Proof.
  intros S1 S2 k. specialize (S1 k). specialize (S2 k). unfold row_change in *.
  destruct (m1 !! k) as [a|], (m2 !! k) as [b|], (m3 !! k) as [c|]; try done.
  - by eapply row_step_trans.
  - destruct S1 as [Hg Hv]. split; [by apply S2|by eapply row_step_ver_le].
Qed.

Lemma table_step_insert id m k b :
  row_change id k (m !! k) (Some b) -> table_step id m (<[k := b]> m).
Proof.
  intros Hb k'. destruct (decide (k = k')) as [<-|Hk].
  - by rewrite lookup_insert_eq.
  - rewrite lookup_insert_ne by done. apply table_step_refl.
Qed.

(** A row written under the event's id. *)
Lemma row_change_write id k o b :
  sp_good sp k b -> sp_ver sp b = id -> (forall a, o = Some a -> sp_aux sp a b) ->
  row_change id k o (Some b).
Proof.
  intros Hg Hv Ha. destruct o as [a|]; simpl.
  - split_and!; [done|by apply Ha|by left].
  - split; [done|]. rewrite Hv. apply str_leb_refl.
Qed.

Lemma table_step_alter id m k f :
  (forall a, m !! k = Some a -> row_step id k a (f a)) -> table_step id m (alter f k m).
Proof.
  intros Hf. destruct (m !! k) as [a|] eqn:E.
  - assert (alter f k m = <[k := f a]> m) as ->.
    { apply map_eq. intros k'. destruct (decide (k = k')) as [<-|Hk].
      - by rewrite lookup_alter_eq, lookup_insert_eq, E.
      - by rewrite lookup_alter_ne, lookup_insert_ne. }
    apply table_step_insert. rewrite E. by apply Hf.
  - rewrite alter_id; [apply table_step_refl|]. by intros ? ?%(eq_trans (eq_sym E)).
Qed.

Lemma table_step_bounded w id m m' :
  bounded w m -> str_leb id w = false -> table_step id m m' -> bounded id m' /\ rows_grow m m'.
Proof.
  intros Hb Hid St. split.
  - intros k b Hk. specialize (St k). rewrite Hk in St. destruct (m !! k) as [a|] eqn:Ea; [|done].
    destruct (Hb k a Ea) as [Hg Hv]. split; [by apply St|]. eapply row_step_ver_le; [done|].
    eapply str_leb_trans; [done|by apply str_leb_false].
  - intros k a Ha. specialize (St k). rewrite Ha in St. destruct (m' !! k) as [b|]; [|done].
    exists b. split; [done|]. destruct St as (_ & Hx & [Hv|[Hv Ht]]).
    + apply sp_newer; [done|]. rewrite Hv. destruct (Hb k a Ha) as [_ Hw].
      destruct (str_leb id (sp_ver sp a)) eqn:E; [|done].
      by rewrite (str_leb_trans _ _ _ E Hw) in Hid.
    + by apply sp_same.
Qed.

Lemma rows_grow_refl m : rows_grow m m.
Proof. intros k a Ha. exists a. split; [done|]. apply sp_leb_refl. Qed.

Lemma rows_grow_trans m1 m2 m3 : rows_grow m1 m2 -> rows_grow m2 m3 -> rows_grow m1 m3.
Proof.
  intros G1 G2 k a Ha. destruct (G1 k a Ha) as (b & Hb & L1). destruct (G2 k b Hb) as (c & Hc & L2).
  exists c. split; [done|]. by eapply sp_leb_trans.
Qed.

End Tables.

(** ** The tables *)

(** A table merged by [row_version] alone. *)
Program Definition versioned {K A} (ver : A -> string) (good : K -> A -> Prop) : TableSpec K A :=
  mkTableSpec ver good (fun _ _ => True) (fun _ _ => True) (fun a b => str_leb (ver a) (ver b))
    _ _ _ _ _ _.
Next Obligation. done. Qed.
Next Obligation. done. Qed.
Next Obligation. intros. apply str_leb_refl. Qed.
Next Obligation. simpl. intros K A ver good a b c H1 H2. exact (str_leb_trans _ _ _ H1 H2). Qed.
Next Obligation. simpl. intros. by apply str_leb_false. Qed.
Next Obligation. simpl. intros K A ver good a b _ -> _. apply str_leb_refl. Qed.

Definition any_row {K A} (_ : K) (_ : A) : Prop := True.

Definition run_spec : TableSpec string RunRow :=
  versioned rn_row_version (fun k r => rn_run_id r = k).

Definition task_leb : TaskRow -> TaskRow -> bool :=
  lex_leb (fun a b => str_leb (tk_row_version a) (tk_row_version b))
          (fun a b => rank (tk_state a) <=? rank (tk_state b))%N.

Program Definition task_spec : TableSpec (string * string) TaskRow :=
  mkTableSpec tk_row_version (fun k t => tk_task_key t = k.2) (fun _ _ => True)
    (fun a b => tk_state a = tk_state b) task_leb _ _ _ _ _ _.
Next Obligation. done. Qed.
Next Obligation. split; [done|]. intros ? ? ? -> ->. done. Qed.
Next Obligation. intros a. exact (ver_refl keep_task_row a). Qed.
Next Obligation. exact (ver_trans (VersionOrder := merge_task_order)). Qed.
Next Obligation.
  intros a b _ Hn. unfold task_leb, lex_leb. simpl. by rewrite (str_leb_false _ _ Hn), Hn.
Qed.
Next Obligation.
  intros a b _ Hv Ht. unfold task_leb, lex_leb. simpl.
  by rewrite Hv, str_leb_refl, Ht, N.leb_refl.
Qed.

Definition backfill_leb : BackfillRow -> BackfillRow -> bool :=
  lex_leb (fun a b => bf_state_version a <=? bf_state_version b)%N
          (fun a b => str_leb (bf_row_version a) (bf_row_version b)).

Program Definition backfill_spec : TableSpec string BackfillRow :=
  mkTableSpec bf_row_version (fun _ row => (bf_state_version row <= u32_max)%N)
    (fun a b => (bf_state_version a <= bf_state_version b)%N) (fun _ _ => True) backfill_leb
    _ _ _ _ _ _.
Next Obligation. split; intros ?; [lia|]. intros ? ?. lia. Qed.
Next Obligation. done. Qed.
Next Obligation. intros a. exact (ver_refl keep_backfill_row a). Qed.
Next Obligation. exact (ver_trans (VersionOrder := merge_backfill_order)). Qed.
Next Obligation.
  intros a b Hx Hn. unfold backfill_leb, lex_leb. simpl.
  rewrite (proj2 (N.leb_le _ _) Hx), (str_leb_false _ _ Hn). by rewrite orb_true_r.
Qed.
Next Obligation.
  intros a b Hx Hv _. unfold backfill_leb, lex_leb. simpl.
  rewrite (proj2 (N.leb_le _ _) Hx), Hv, str_leb_refl. by rewrite orb_true_r.
Qed.

Definition dep_spec : TableSpec (string * string * string) DepSatisfactionRow :=
  versioned dp_row_version (fun k d =>
    (dp_run_id d, dp_upstream_task_key d, dp_downstream_task_key d) = k).
Definition timer_spec : TableSpec string TimerRow := versioned ti_row_version any_row.
Definition sched_def_spec : TableSpec string ScheduleDefinitionRow := versioned sd_row_version any_row.
Definition sched_state_spec : TableSpec string ScheduleStateRow := versioned ss_row_version any_row.
Definition sched_tick_spec : TableSpec string ScheduleTickRow := versioned st_row_version any_row.
Definition sensor_state_spec : TableSpec string SensorStateRow := versioned se_row_version any_row.
Definition sensor_eval_spec : TableSpec string SensorEvalRow := versioned sv_row_version any_row.
Definition chunk_spec : TableSpec string BackfillChunkRow := versioned bc_row_version any_row.
Definition partition_spec : TableSpec (string * string) PartitionStatusRow :=
  versioned ps_row_version any_row.

(** For a table whose rows may go away (the dispatch outbox by consumption, the
    evaluations by retention): what is there was written under the event's id or
    keeps its version. *)
Definition written {A} (ver : A -> string) (id : string) (m m' : gmap string A) : Prop :=
  forall k b, m' !! k = Some b ->
    ver b = id \/ exists a, m !! k = Some a /\ ver b = ver a.

(** ** How one event changes the state

    The catalog run index is refreshed separately. *)
Record grow (id : string) (s s' : FoldState) : Prop := mkGrow {
  gr_runs : table_step run_spec id (fs_runs s) (fs_runs s');
  gr_tasks : table_step task_spec id (fs_tasks s) (fs_tasks s');
  gr_deps : table_step dep_spec id (fs_dep_satisfaction s) (fs_dep_satisfaction s');
  gr_timers : table_step timer_spec id (fs_timers s) (fs_timers s');
  gr_outbox : written ob_row_version id (fs_dispatch_outbox s) (fs_dispatch_outbox s');
  gr_defs : table_step sched_def_spec id (fs_schedule_definitions s) (fs_schedule_definitions s');
  gr_sched : table_step sched_state_spec id (fs_schedule_state s) (fs_schedule_state s');
  gr_ticks : table_step sched_tick_spec id (fs_schedule_ticks s) (fs_schedule_ticks s');
  gr_sensors : table_step sensor_state_spec id (fs_sensor_state s) (fs_sensor_state s');
  gr_evals : table_step sensor_eval_spec id (fs_sensor_evals s) (fs_sensor_evals s');
  gr_new_evals : written sv_row_version id (fs_sensor_evals s) (fs_sensor_evals s');
  gr_backfills : table_step backfill_spec id (fs_backfills s) (fs_backfills s');
  gr_chunks : table_step chunk_spec id (fs_backfill_chunks s) (fs_backfill_chunks s');
  gr_partitions : table_step partition_spec id (fs_partition_status s) (fs_partition_status s');
  gr_index : fs_run_key_index s ⊆ fs_run_key_index s';
  gr_conflicts : fs_run_key_conflicts s ⊆ fs_run_key_conflicts s';
  gr_new_conflicts : forall k, fs_run_key_conflicts s !! k = None ->
    is_Some (fs_run_key_conflicts s' !! k) -> exists rk, k = "conflict:" +:+ rk +:+ ":" +:+ id;
  gr_keys : fs_idempotency_keys s' = fs_idempotency_keys s;
  gr_catalog : fs_catalog_run_index s' = fs_catalog_run_index s;
  gr_secret : fs_tenant_secret s' = fs_tenant_secret s
}.

Lemma written_refl {A} (ver : A -> string) id m : written ver id m m.
Proof. intros k b Hb. right. by exists b. Qed.

Lemma written_trans {A} (ver : A -> string) id m1 m2 m3 :
  written ver id m1 m2 -> written ver id m2 m3 -> written ver id m1 m3.
Proof.
  intros S1 S2 k c Hc. destruct (S2 k c Hc) as [|(b & Hb & Vb)]; [by left|].
  destruct (S1 k b Hb) as [|(a & Ha & Va)]; [left; congruence|right]. exists a. split; congruence.
Qed.

#[export] Hint Resolve table_step_refl written_refl : arco.

(** One table changes, the others stay. *)
Ltac grow_one := constructor; simpl; try done; try apply table_step_refl; try apply written_refl;
  try (by intros ? -> []).

Lemma grow_refl id s : grow id s s.
Proof. grow_one. Qed.

Lemma grow_trans id s1 s2 s3 : grow id s1 s2 -> grow id s2 s3 -> grow id s1 s3.
Proof.
  intros [] []. constructor; try (by eapply table_step_trans); try (by etrans);
    try (by eapply written_trans).
  intros k Hk Hs. destruct (fs_run_key_conflicts s2 !! k) eqn:E; [|by eauto].
  apply gr_new_conflicts0; [done|]. by rewrite E.
Qed.

Lemma grow_fold_left {B} id (f : FoldState -> B -> FoldState) l s :
  (forall s b, grow id s (f s b)) -> grow id s (fold_left f l s).
Proof.
  intros Hf. revert s. induction l as [|b l IH]; intros s; simpl; [apply grow_refl|].
  by eapply grow_trans.
Qed.

(** ** Single writes *)

Lemma step_run_alter id r f m :
  (forall a, rn_run_id (f a) = rn_run_id a /\
     (rn_row_version (f a) = id \/ rn_row_version (f a) = rn_row_version a)) ->
  table_step run_spec id m (alter f r m).
Proof.
  intros Hf. apply table_step_alter. intros a _. destruct (Hf a) as [Hr Hv].
  split_and!; simpl; [congruence|done|naive_solver].
Qed.

(** A task row is rewritten under the event's id, or keeps version and state. *)
Definition task_write (id : string) (t t' : TaskRow) : Prop :=
  tk_task_key t' = tk_task_key t /\
  (tk_row_version t' = id \/ tk_row_version t' = tk_row_version t /\ tk_state t = tk_state t').

Lemma step_task_insert id key t t' m :
  m !! key = Some t -> task_write id t t' -> table_step task_spec id m (<[key := t']> m).
Proof.
  intros Ht [Hk Hv]. apply table_step_insert. rewrite Ht.
  split_and!; simpl; [congruence|done|done].
Qed.

Lemma step_task_alter id key f m :
  (forall t, task_write id t (f t)) -> table_step task_spec id m (alter f key m).
Proof.
  intros Hf. apply table_step_alter. intros a _. destruct (Hf a) as [Hr Hv].
  split_and!; simpl; [congruence|done|done].
Qed.

(** A row written under the event's id, in a table merged by version alone. *)
Lemma step_write {K A} `{Countable K} ver (good : K -> A -> Prop) id k b m :
  good k b -> ver b = id -> table_step (versioned ver good) id m (<[k := b]> m).
Proof. intros. by apply table_step_insert, row_change_write. Qed.

Lemma step_touch {K A} `{Countable K} ver (good : K -> A -> Prop) id k a b m :
  m !! k = Some a -> (good k a -> good k b) -> ver b = id \/ ver b = ver a ->
  table_step (versioned ver good) id m (<[k := b]> m).
Proof.
  intros Ha Hg Hv. apply table_step_insert. rewrite Ha. split_and!; simpl; [done|done|naive_solver].
Qed.

(** The row already there, or a blank one. *)
Lemma step_default {K A} `{Countable K} ver (good : K -> A -> Prop) id k a m :
  good k a -> ver a = "" -> table_step (versioned ver good) id m (<[k := default a (m !! k)]> m).
Proof.
  intros Hg Hv. apply table_step_insert. destruct (m !! k) as [b|]; simpl.
  - apply row_step_refl.
  - split; [done|]. rewrite Hv. by destruct id.
Qed.

Lemma written_write {A} (ver : A -> string) id k b m : ver b = id -> written ver id m (<[k := b]> m).
Proof.
  intros Hb k' b' [[<- <-]|[Hk Hb']]%lookup_insert_Some; [by left|right]. by exists b'.
Qed.

Lemma written_touch {A} (ver : A -> string) id k a b m :
  m !! k = Some a -> ver b = ver a -> written ver id m (<[k := b]> m).
Proof.
  intros Ha Hb k' b' [[<- <-]|[Hk Hb']]%lookup_insert_Some; right; [by exists a|by exists b'].
Qed.

Lemma written_delete {A} (ver : A -> string) id k m : written ver id m (delete k m).
Proof. intros k' b' [_ Hb]%lookup_delete_Some. right. by exists b'. Qed.

#[export] Hint Resolve written_delete written_write : arco.

(** ** Runs and tasks *)

Lemma grow_modify_run id r f s :
  (forall a, rn_run_id (f a) = rn_run_id a /\
     (rn_row_version (f a) = id \/ rn_row_version (f a) = rn_row_version a)) ->
  grow id s (modify_run r f s).
Proof. intros Hf. grow_one. by apply step_run_alter. Qed.

Lemma grow_modify_task id key f s :
  (forall t, task_write id t (f t)) -> grow id s (modify_task key f s).
Proof. intros Hf. grow_one. by apply step_task_alter. Qed.

Lemma grow_propagate_edge id r u res ts sq d : grow id sq.1 (propagate_edge r u res id ts sq d).1.
Proof.
  destruct sq as [s q]. unfold propagate_edge. cbn [fst snd].
  destruct (fs_tasks (put_field fs_dep_satisfaction _ s) !! (r, d)) as [t|] eqn:Et;
    [case_match|]; try (cbn [fst]; grow_one; by apply step_write).
  destruct (propagated res) as [ns nr]. cbn [fst].
  grow_one; [| |by apply step_write].
  - apply step_run_alter. intros a. unfold propagated_run_row. repeat case_match; simpl; auto.
  - eapply step_task_insert; [exact Et|]. split; [done|by left].
Qed.

Lemma grow_fold_left_fst {B Q} id (f : FoldState * Q -> B -> FoldState * Q) l sq :
  (forall sq b, grow id sq.1 (f sq b).1) -> grow id sq.1 (fold_left f l sq).1.
Proof.
  intros Hf. revert sq. induction l as [|b l IH]; intros sq; simpl; [apply grow_refl|].
  by eapply grow_trans.
Qed.

Lemma grow_propagate_loop id n r ts s q : grow id s (propagate_loop n r id ts s q).
Proof.
  revert s q. induction n as [|n IH]; intros s [|[u res] q]; try apply grow_refl. simpl.
  destruct (propagate_node _ _ _ _ _ _ _) as [s' q'] eqn:E.
  eapply grow_trans; [|apply IH]. change s' with ((s', q').1). rewrite <- E. unfold propagate_node.
  apply (grow_fold_left_fst id _ _ (s, q)). intros. apply grow_propagate_edge.
Qed.

Lemma grow_satisfy id s r u res n ts : grow id s (satisfy_downstream_edges s r u res n id ts).
Proof.
  apply grow_fold_left. intros s' d. unfold satisfy_edge, modify_task.
  case_match; grow_one; try by apply step_write.
  apply step_task_alter. intros t. unfold satisfy_task_row, task_write. case_match; simpl; auto.
Qed.

Lemma grow_partition_materialization id s t w ak pk r cv dt dv dpa lr ts :
  grow id s (update_partition_materialization s t w ak pk r cv dt dv dpa lr ts id).
Proof.
  unfold update_partition_materialization.
  case_match; grow_one; [by apply step_default|by apply step_write].
Qed.

Lemma grow_partition_attempt id s t w ak pk r out ts :
  grow id s (update_partition_attempt s t w ak pk r out ts id).
Proof.
  unfold update_partition_attempt.
  case_match; grow_one; [by apply step_default|by apply step_write].
Qed.

Section Handlers.
Context `{Hashes} `{Chrono} `{SerdeJson}.

Lemma grow_finish_downstream id s d md pk ns ts t w :
  grow id s (finish_downstream s d md pk ns id ts t w).
Proof.
  unfold finish_downstream, propagate_failure.
  repeat case_match; try apply grow_propagate_loop; try apply grow_satisfy; try apply grow_refl.
  eapply grow_trans; [apply grow_satisfy|apply grow_partition_materialization].
Qed.

Lemma finished_task_write id d md pk ts t :
  task_write id t (finished_task_row d md pk id ts t).
Proof. unfold finished_task_row, task_write. repeat case_match; simpl; auto. Qed.

Lemma grow_finished id s d ts t w : grow id s (fold_task_finished s d id ts t w).1.
Proof.
  unfold fold_task_finished.
  destruct (fs_tasks s !! _) as [x|] eqn:Ex; [|apply grow_refl].
  case_match; [apply grow_refl|]. case_match; [apply grow_refl|]. cbn [fst].
  assert (forall st, grow id s st ->
    grow id s (match tf_asset_key d, option_or (tf_partition_key d)
        (em_delta_partition (extract_execution_metadata (tf_materialization_id d) (tf_output d)
           (tf_partition_key d))) with
      | Some ak, Some pk => update_partition_attempt st t w ak pk (tf_run_id d) (tf_outcome d) ts id
      | _, _ => st end)) as Hp.
  { intros st Hst. repeat case_match; try done. eapply grow_trans; [done|apply grow_partition_attempt]. }
  apply Hp. eapply grow_trans; [|apply grow_finish_downstream].
  assert (grow id s (s <| fs_tasks := <[(tf_run_id d, tf_task_key d) := finished_task_row d
    (extract_execution_metadata (tf_materialization_id d) (tf_output d) (tf_partition_key d))
    (option_or (tf_partition_key d) (em_delta_partition (extract_execution_metadata
       (tf_materialization_id d) (tf_output d) (tf_partition_key d)))) id ts x]> (fs_tasks s) |>)) as Hw.
  { grow_one. eapply step_task_insert; [exact Ex|apply finished_task_write]. }
  destruct (task_is_terminal (finished_state _ _)); [|done]. eapply grow_trans; [exact Hw|]. apply grow_modify_run.
  intros a. unfold finished_run_row. repeat case_match; simpl; auto.
Qed.

Lemma grow_visibility id s r k n aid v p pe ts :
  grow id s (fold_task_output_visibility_changed s r k n aid v p pe id ts).1.
Proof.
  unfold fold_task_output_visibility_changed.
  destruct (fs_tasks s !! _) as [x|] eqn:Ex; [|apply grow_refl].
  case_match; [apply grow_refl|]. case_match; [apply grow_refl|]. cbn [fst].
  grow_one. eapply step_task_insert; [exact Ex|]. unfold visibility_task_row, task_write.
  case_match; simpl; auto.
Qed.

Lemma grow_completion id s d ov ts t w : grow id s (fold_task_completion s d ov id ts t w).1.
Proof.
  unfold fold_task_completion. pose proof (grow_finished id s d ts t w) as Hf.
  destruct (fold_task_finished s d id ts t w) as [s1 b]. simpl in Hf.
  destruct (b && _); [|done]. destruct ov as [u|]; [|done].
  match goal with |- context [fold_task_output_visibility_changed ?a ?b ?c ?d ?e ?f ?g ?h ?i ?j] =>
    pose proof (grow_visibility i a b c d e f g h j) as Hv;
    destruct (fold_task_output_visibility_changed a b c d e f g h i j) as [s2 b2] end.
  simpl in *. by eapply grow_trans.
Qed.

Lemma grow_cancel id s r ts : grow id s (fold_run_cancel_requested s r id ts).1.
Proof.
  unfold fold_run_cancel_requested. case_match; cbn [fst]; [apply grow_refl|].
  eapply grow_trans; [|apply grow_modify_run; intros a; unfold cancel_complete; case_match; simpl; auto].
  eapply grow_trans; [apply (grow_modify_run id r (request_cancel id)); intros a; simpl; auto|].
  apply grow_fold_left. intros s' key. unfold cancel_one.
  eapply grow_trans; [|apply grow_modify_run; intros a; simpl; auto].
  apply grow_modify_task. intros t. unfold task_write. simpl. auto.
Qed.

Lemma grow_plan id s r defs ts : grow id s (fold_plan_created s r defs id ts).1.
Proof.
  unfold fold_plan_created. case_match; cbn [fst]; [apply grow_refl|].
  eapply grow_trans; [apply (grow_modify_run id r (plan_run_row (length defs) id)); intros a; simpl; auto|].
  eapply grow_trans; [apply (grow_fold_left id (add_plan_edges r) defs)|
    apply (grow_fold_left id (add_plan_task r id ts) defs)].
  - intros s' d. unfold add_plan_edges. grow_one.
  - intros s' d. unfold add_plan_task. grow_one.
    + apply table_step_insert, row_change_write; [done|done|by intros].
    + generalize (fs_dep_satisfaction s'). induction (td_depends_on d) as [|u l IH]; intros m; simpl.
      * apply table_step_refl.
      * eapply table_step_trans; [|apply IH]. by apply step_write.
Qed.

Lemma grow_triggered id s r p rk lb cv ts :
  grow id s (fold_run_triggered s r p rk lb cv id ts).1.
Proof.
  unfold fold_run_triggered. case_match; cbn [fst]; [apply grow_refl|].
  grow_one. by apply step_write.
Qed.

Lemma grow_started id s r k n aid ts : grow id s (fold_task_started s r k n aid ts id).1.
Proof.
  unfold fold_task_started. destruct (fs_tasks s !! _) as [x|] eqn:Ex; [|apply grow_refl].
  repeat (case_match; [try apply grow_refl|try apply grow_refl]); cbn [fst];
    (grow_one; [eapply step_task_insert; [exact Ex|by split; [|left]]|apply written_delete]).
Qed.

Lemma grow_heartbeat id s r k n aid ts : grow id s (fold_task_heartbeat s r k n aid ts id).1.
Proof.
  unfold fold_task_heartbeat. destruct (fs_tasks s !! _) as [x|] eqn:Ex; [|apply grow_refl].
  case_match; [apply grow_refl|]. case_match; [|apply grow_refl]. cbn [fst].
  grow_one. eapply step_task_insert; [exact Ex|by split; [|left]].
Qed.

Lemma grow_dispatch_task id s r k n aid : grow id s (dispatch_task s r k n aid id).1.
Proof.
  unfold dispatch_task. destruct (fs_tasks s !! _) as [x|] eqn:Ex; [|apply grow_refl].
  case_match; [|apply grow_refl]. case_match; [|apply grow_refl]. cbn [fst].
  grow_one. eapply step_task_insert; [exact Ex|by split; [|left]].
Qed.

Lemma grow_dispatch_requested id s r k n aid wq did ts :
  grow id s (fold_dispatch_requested s r k n aid wq did id ts).1.
Proof.
  unfold fold_dispatch_requested. case_match; cbn [fst]; [grow_one; apply written_delete|].
  destruct (fs_dispatch_outbox s !! did) as [x|] eqn:Ex.
  - destruct (complete_outbox_row aid wq x) as [x' c] eqn:Ec.
    match goal with |- context [dispatch_task ?st ?a ?b ?c ?d ?e] =>
      pose proof (grow_dispatch_task e st a b c d) as HK;
      destruct (dispatch_task st a b c d e) as [s1 b1] end. cbn [fst] in *.
    eapply grow_trans; [|exact HK]. grow_one. eapply written_touch; [exact Ex|].
    unfold complete_outbox_row in Ec. repeat case_match; simplify_eq/=; done.
  - pose proof (grow_dispatch_task id s r k n aid) as HK.
    destruct (dispatch_task s r k n aid id) as [s1 b1]. cbn [fst] in *.
    eapply grow_trans; [exact HK|]. grow_one. by apply written_write.
Qed.

Lemma grow_dispatch_enqueued id s did r k n c ts :
  grow id s (fold_dispatch_enqueued s did r k n c id ts).1.
Proof.
  unfold fold_dispatch_enqueued, upsert_enqueued.
  repeat case_match; cbn [fst]; try apply grow_refl; grow_one; auto with arco.
  all: by apply written_write.
Qed.

Lemma grow_set_retry id s r k n fa : grow id s (set_retry_not_before s r k n fa id).1.
Proof.
  unfold set_retry_not_before. destruct r as [r|], k as [k|], n as [n|]; try apply grow_refl.
  destruct (fs_tasks s !! _) as [x|] eqn:Ex; [|apply grow_refl].
  case_match; [|apply grow_refl]. cbn [fst].
  grow_one. eapply step_task_insert; [exact Ex|by split; [|left]].
Qed.

Lemma grow_timer_requested id s tid ty r k n fa :
  grow id s (fold_timer_requested s tid ty r k n fa id).1.
Proof.
  assert (forall st c, grow id s st -> grow id s
    (if bool_decide (map_timer_type ty = TtRetry) then
       let '(s', set) := set_retry_not_before st r k n fa id in (s', c || set)
     else (st, c)).1) as Hr.
  { intros st c Hst. case_match; [|done]. pose proof (grow_set_retry id st r k n fa) as HK.
    destruct (set_retry_not_before st r k n fa id) as [s' b]. cbn [fst] in *. by eapply grow_trans. }
  unfold fold_timer_requested. destruct (fs_timers s !! tid) as [x|] eqn:Ex.
  - destruct (complete_timer_row r k n fa x) as [x' c] eqn:Ec. apply Hr. grow_one.
    eapply step_touch; [exact Ex|done|right].
    unfold complete_timer_row in Ec. repeat case_match; simplify_eq/=; done.
  - apply Hr. grow_one. by apply step_write.
Qed.

Lemma timer_row_of_id_version tid c r k n st id row :
  timer_row_of_id tid c r k n st id = Some row -> ti_row_version row = id.
Proof. unfold timer_row_of_id. destruct (parse_timer_id tid); simpl; [|done]. by intros [= <-]. Qed.

Lemma grow_timer_enqueued id s tid r k n c : grow id s (fold_timer_enqueued s tid r k n c id).1.
Proof.
  unfold fold_timer_enqueued. case_match; [case_match|case_match eqn:E]; cbn [fst]; try apply grow_refl;
    grow_one; apply step_write; try done. by eapply timer_row_of_id_version.
Qed.

Lemma grow_timer_fired id s tid ty r k n : grow id s (fold_timer_fired s tid ty r k n id).1.
Proof.
  unfold fold_timer_fired. case_match; [case_match|case_match eqn:E]; cbn [fst]; try apply grow_refl;
    grow_one; apply step_write; try done. by eapply timer_row_of_id_version.
Qed.

(** ** Automation *)

Lemma not_stale_newer (id : string) {A} (ver : A -> string) (o : option A) :
  option_bool (fun a => str_leb id (ver a)) o = false -> forall a, o = Some a -> str_leb id (ver a) = false.
Proof. intros Ho a ->. exact Ho. Qed.

Lemma grow_schedule_definition id s t w sid ce tz cw sel cv mc en ts :
  grow id s (fold_schedule_definition_upserted s t w sid ce tz cw sel cv mc en ts id).1.
Proof.
  unfold fold_schedule_definition_upserted. case_match; cbn [fst]; [apply grow_refl|].
  grow_one. by apply step_write.
Qed.

Lemma grow_schedule_ticked id s t w sid sf tid dv sel ps st rk fp :
  grow id s (fold_schedule_ticked s t w sid sf tid dv sel ps st rk fp id).1.
Proof.
  unfold fold_schedule_ticked.
  assert (table_step sched_state_spec id (fs_schedule_state s)
    (<[sid := if str_ltb (ss_row_version (default (new_schedule_state t w sid)
                  (fs_schedule_state s !! sid))) id
       then tick_schedule_state sf tid rk id (default (new_schedule_state t w sid)
              (fs_schedule_state s !! sid))
       else default (new_schedule_state t w sid) (fs_schedule_state s !! sid)]> (fs_schedule_state s)))
    as Hs.
  { case_match; [by apply step_write|by apply step_default]. }
  destruct (option_bool _ _); cbn [fst]; grow_one. by apply step_write.
Qed.

Lemma grow_sensor_evaluated id s t w sid eid cb ca esv src rrs st ts :
  grow id s (fold_sensor_evaluated s t w sid eid cb ca esv src rrs st ts id).1.
Proof.
  unfold fold_sensor_evaluated, upsert_sensor_eval. simpl.
  repeat (case_match; simplify_eq/=); cbn [fst].
  all: grow_one; rewrite ?insert_insert_eq; try (by apply step_default); try (by apply step_write).
  all: by apply written_write.
Qed.

Lemma grow_run_requested id s t w rk fp src cv ts :
  fs_run_key_conflicts s !! ("conflict:" +:+ rk +:+ ":" +:+ id) = None ->
  grow id s (fold_run_requested s t w rk fp src cv ts id).1.
Proof.
  intros Hc. unfold fold_run_requested, correlate_run_to_source.
  destruct (fs_run_key_index s !! rk) eqn:E; [case_match; cbn [fst]; [apply grow_refl|]|].
  - grow_one; [by apply insert_subseteq|].
    intros k Hk [c Hk']. apply lookup_insert_Some in Hk' as [[<- _]|[_ Hk']]; [by eexists|congruence].
  - cbn [fst]. destruct src; grow_one; try (by apply insert_subseteq);
      apply table_step_alter; intros a _; split_and!; simpl; auto.
Qed.

Lemma grow_backfill_created id s t w b sel cv ps tp cs mr pb ts :
  grow id s (fold_backfill_created s t w b sel cv ps tp cs mr pb ts id).1.
Proof.
  unfold fold_backfill_created. destruct (fs_backfills s !! b) eqn:E; cbn [fst]; [apply grow_refl|].
  grow_one. apply table_step_insert, row_change_write; [simpl; unfold u32_max; lia|done|].
  by rewrite E.
Qed.

Lemma grow_chunk_planned id s t w b c i pks rk :
  grow id s (fold_backfill_chunk_planned s t w b c i pks rk id).1.
Proof.
  unfold fold_backfill_chunk_planned. case_match; cbn [fst]; [apply grow_refl|].
  grow_one; [|by apply step_write]. apply table_step_alter. intros a _.
  unfold advance_planned_chunks. case_match; split_and!; simpl; auto; reflexivity.
Qed.

Lemma u32_saturating_add_ge a b : (a <= u32_max)%N -> (a <= u32_saturating_add a b)%N.
Proof. unfold u32_saturating_add. lia. Qed.

Lemma grow_backfill_state_changed id s b f to v :
  (forall row, fs_backfills s !! b = Some row -> (bf_state_version row <= u32_max)%N) ->
  grow id s (fold_backfill_state_changed s b f to v id).1.
Proof.
  intros Hm. unfold fold_backfill_state_changed.
  destruct (fs_backfills s !! b) as [x|] eqn:E; [|apply grow_refl].
  repeat (case_match; cbn [fst]; try apply grow_refl). bool_hyps.
  match goal with He : (v =? _)%N = true |- _ => apply N.eqb_eq in He as -> end.
  grow_one. apply table_step_insert. rewrite E. split_and!; simpl; [|apply u32_saturating_add_ge, Hm; done|by left].
  intros _. apply N.le_min_r.
Qed.

(** ** Events *)

(** What an event finds: no conflict row under its id yet, and state versions
    that fit their width. *)
Record fresh_for (id : string) (s : FoldState) : Prop := mkFresh {
  fr_conflicts : forall rk, fs_run_key_conflicts s !! ("conflict:" +:+ rk +:+ ":" +:+ id) = None;
  fr_versions : forall b row, fs_backfills s !! b = Some row -> (bf_state_version row <= u32_max)%N
}.

Lemma grow_refresh e r x s :
  grow (ev_event_id e) s x.1 ->
  exists s1, grow (ev_event_id e) s s1 /\
    ((refresh_if_changed e r x).1 = s1 \/
     (refresh_if_changed e r x).1 = refresh_catalog_run_index_for_run s1 (ev_tenant_id e)
       (ev_workspace_id e) r (ev_timestamp e)).
Proof. destruct x as [s1 [|]]; simpl; intros Hg; exists s1; eauto. Qed.

(** An event changes the tables by a step, and may then refresh the catalog run
    index of one run. *)
Lemma apply_event_grow s e :
  fresh_for (ev_event_id e) s ->
  exists s1, grow (ev_event_id e) s s1 /\
    ((apply_event s e).1 = s1 \/
     exists o w r ts, (apply_event s e).1 = refresh_catalog_run_index_for_run s1 o w r ts).
Proof.
  intros [Hc Hm].
  assert (forall r x, grow (ev_event_id e) s x.1 -> exists s1, grow (ev_event_id e) s s1 /\
    ((refresh_if_changed e r x).1 = s1 \/ exists o w r' ts,
       (refresh_if_changed e r x).1 = refresh_catalog_run_index_for_run s1 o w r' ts)) as Hr.
  { intros r x Hx. destruct (grow_refresh e r x s Hx) as (s1 & G & [E|E]); eauto 10. }
  unfold apply_event. destruct (ev_data e); try apply Hr.
  all: try (eexists; split; [|by left]).
  all: first [ apply grow_triggered | apply grow_plan | apply grow_started | apply grow_heartbeat
    | apply grow_finished | apply grow_completion | apply grow_visibility
    | apply grow_dispatch_requested | apply grow_dispatch_enqueued | apply grow_timer_requested
    | apply grow_timer_enqueued | apply grow_timer_fired | apply grow_cancel
    | apply grow_schedule_definition | apply grow_schedule_ticked | apply grow_sensor_evaluated
    | apply grow_backfill_created | apply grow_chunk_planned | apply grow_refl
    | apply grow_backfill_state_changed; eauto
    | case_match; [apply grow_refl|by apply grow_run_requested] ].
Qed.
End Handlers.

(** ** Versions stay below the watermark *)

(** The version of a catalog row: the newer of its run's and its task's. *)
Definition newer_version (run : RunRow) (t : TaskRow) : string :=
  if str_leb (rn_row_version run) (tk_row_version t) then tk_row_version t else rn_row_version run.

Definition catalog_spec : TableSpec (string * string * string * string) CatalogRunIndexRow :=
  versioned ci_row_version any_row.

(** No catalog row is newer than the run and the task it shows. *)
Definition catalog_ok (runs : gmap string RunRow) (tasks : gmap (string * string) TaskRow)
    (m : gmap (string * string * string * string) CatalogRunIndexRow) : Prop :=
  forall o ws r k c, m !! (o, ws, r, k) = Some c ->
    exists run t, runs !! r = Some run /\ tasks !! (r, k) = Some t /\
      str_leb (ci_row_version c) (newer_version run t) = true.

(** Every row of the state was written by an event at or below [w]. *)
Record Versions (w : string) (s : FoldState) : Prop := mkVersions {
  vs_runs : bounded run_spec w (fs_runs s);
  vs_tasks : bounded task_spec w (fs_tasks s);
  vs_deps : bounded dep_spec w (fs_dep_satisfaction s);
  vs_timers : bounded timer_spec w (fs_timers s);
  vs_outbox : forall k b, fs_dispatch_outbox s !! k = Some b -> str_leb (ob_row_version b) w = true;
  vs_defs : bounded sched_def_spec w (fs_schedule_definitions s);
  vs_sched : bounded sched_state_spec w (fs_schedule_state s);
  vs_ticks : bounded sched_tick_spec w (fs_schedule_ticks s);
  vs_sensors : bounded sensor_state_spec w (fs_sensor_state s);
  vs_evals : bounded sensor_eval_spec w (fs_sensor_evals s);
  vs_keys : forall k b, fs_idempotency_keys s !! k = Some b -> str_leb (ik_row_version b) w = true;
  vs_backfills : bounded backfill_spec w (fs_backfills s);
  vs_chunks : bounded chunk_spec w (fs_backfill_chunks s);
  vs_partitions : bounded partition_spec w (fs_partition_status s);
  vs_conflicts : forall k c, fs_run_key_conflicts s !! k = Some c ->
    exists rk id, k = "conflict:" +:+ rk +:+ ":" +:+ id /\ str_contains ":" id = false /\
      str_leb id w = true;
  vs_catalog : catalog_ok (fs_runs s) (fs_tasks s) (fs_catalog_run_index s)
}.

(** Every row of [m'] is newer than [w], or as old as the one it was in [m]. *)
Definition written_since {A} (ver : A -> string) (w : string) (m m' : gmap string A) : Prop :=
  forall k b, m' !! k = Some b ->
    str_leb (ver b) w = false \/ exists a, m !! k = Some a /\ ver b = ver a.

(** What a state keeps of an older one: all rows, as they were or newer.  Outbox
    rows may be gone; the ones there are newer than [w] or as old as before. *)
Record Grown (w : string) (s s' : FoldState) : Prop := mkGrown {
  gw_runs : rows_grow run_spec (fs_runs s) (fs_runs s');
  gw_tasks : rows_grow task_spec (fs_tasks s) (fs_tasks s');
  gw_deps : rows_grow dep_spec (fs_dep_satisfaction s) (fs_dep_satisfaction s');
  gw_timers : rows_grow timer_spec (fs_timers s) (fs_timers s');
  gw_outbox : written_since ob_row_version w (fs_dispatch_outbox s) (fs_dispatch_outbox s');
  gw_defs : rows_grow sched_def_spec (fs_schedule_definitions s) (fs_schedule_definitions s');
  gw_sched : rows_grow sched_state_spec (fs_schedule_state s) (fs_schedule_state s');
  gw_ticks : rows_grow sched_tick_spec (fs_schedule_ticks s) (fs_schedule_ticks s');
  gw_sensors : rows_grow sensor_state_spec (fs_sensor_state s) (fs_sensor_state s');
  gw_evals : rows_grow sensor_eval_spec (fs_sensor_evals s) (fs_sensor_evals s');
  gw_new_evals : written_since sv_row_version w (fs_sensor_evals s) (fs_sensor_evals s');
  gw_backfills : rows_grow backfill_spec (fs_backfills s) (fs_backfills s');
  gw_chunks : rows_grow chunk_spec (fs_backfill_chunks s) (fs_backfill_chunks s');
  gw_partitions : rows_grow partition_spec (fs_partition_status s) (fs_partition_status s');
  gw_catalog : rows_grow catalog_spec (fs_catalog_run_index s) (fs_catalog_run_index s');
  gw_index : fs_run_key_index s ⊆ fs_run_key_index s';
  gw_conflicts : fs_run_key_conflicts s ⊆ fs_run_key_conflicts s';
  gw_keys : fs_idempotency_keys s ⊆ fs_idempotency_keys s';
  gw_new_keys : written_since ik_row_version w (fs_idempotency_keys s) (fs_idempotency_keys s');
  gw_secret : fs_tenant_secret s' = fs_tenant_secret s
}.

Lemma written_since_refl {A} (ver : A -> string) w m : written_since ver w m m.
Proof. intros k b Hb. right. by exists b. Qed.

Lemma written_since_step {A} (ver : A -> string) w id m m' :
  str_leb id w = false -> written ver id m m' -> written_since ver w m m'.
Proof.
  intros Hid Hs k b Hb. destruct (Hs k b Hb) as [->|(a & Ha & Hv)]; [by left|right; by exists a].
Qed.

Lemma written_since_trans {A} (ver : A -> string) w w' m1 m2 m3 :
  str_leb w' w = false -> written_since ver w m1 m2 -> written_since ver w' m2 m3 ->
  written_since ver w m1 m3.
Proof.
  intros Hw S1 S2 k c Hc. destruct (S2 k c Hc) as [Hn|(b & Hb & Vb)].
  - left. destruct (str_leb (ver c) w) eqn:E; [|done].
    rewrite (str_leb_trans _ _ _ E (str_leb_false _ _ Hw)) in Hn. done.
  - rewrite Vb. destruct (S1 k b Hb) as [|(a & Ha & Va)]; [by left|right; by exists a].
Qed.

Lemma versions_new secret w : Versions w (fold_state_new secret).
Proof. constructor; intros ?; intros; simplify_map_eq; done. Qed.

Lemma newer_version_le run t w :
  str_leb (rn_row_version run) w = true -> str_leb (tk_row_version t) w = true ->
  str_leb (newer_version run t) w = true.
Proof. unfold newer_version. by case_match. Qed.

Lemma newer_version_ge run t :
  str_leb (rn_row_version run) (newer_version run t) = true /\
  str_leb (tk_row_version t) (newer_version run t) = true.
Proof.
  unfold newer_version. case_match; split; auto using str_leb_refl. by apply str_leb_false.
Qed.

Lemma newer_version_mono run run' t t' :
  str_leb (rn_row_version run) (rn_row_version run') = true ->
  str_leb (tk_row_version t) (tk_row_version t') = true ->
  str_leb (newer_version run t) (newer_version run' t') = true.
Proof.
  intros Hr Ht. destruct (newer_version_ge run' t') as [H1 H2].
  apply newer_version_le; [exact (str_leb_trans _ _ _ Hr H1)|exact (str_leb_trans _ _ _ Ht H2)].
Qed.

Lemma task_leb_version a b : task_leb a b = true -> str_leb (tk_row_version a) (tk_row_version b) = true.
Proof. unfold task_leb, lex_leb. by intros [? _]%andb_true_iff. Qed.

Lemma catalog_ok_mono runs runs' tasks tasks' m :
  rows_grow run_spec runs runs' -> rows_grow task_spec tasks tasks' ->
  catalog_ok runs tasks m -> catalog_ok runs' tasks' m.
Proof.
  intros Gr Gt Ho o ws r k c Hc. destruct (Ho _ _ _ _ _ Hc) as (run & t & Hr & Ht & Hv).
  destruct (Gr _ _ Hr) as (run' & Hr' & Lr). destruct (Gt _ _ Ht) as (t' & Ht' & Lt).
  exists run', t'. split_and!; [done|done|]. eapply str_leb_trans; [exact Hv|].
  apply newer_version_mono; [exact Lr|by apply task_leb_version].
Qed.

(** Refreshing the index only moves its rows forward. *)
Lemma refresh_task_grows runs tasks o ws run ts m t :
  runs !! rn_run_id run = Some run -> tasks !! (rn_run_id run, tk_task_key t) = Some t ->
  catalog_ok runs tasks m ->
  catalog_ok runs tasks (refresh_task o ws run ts m t) /\
  rows_grow catalog_spec m (refresh_task o ws run ts m t).
Proof.
  intros Hr Ht Ho. unfold refresh_task. destruct (tk_asset_key t) as [ak|]; [|split; [done|apply rows_grow_refl]].
  assert (ci_row_version (catalog_row m o ws run ts t ak) = newer_version run t) as Hv.
  { unfold catalog_row. by destruct (parse_catalog_asset_key ak). }
  split.
  - intros o' ws' r' k' c' [[[= <- <- <- <-] <-]|[_ Hc]]%lookup_insert_Some; [|by eapply Ho].
    exists run, t. split_and!; [done|done|]. rewrite Hv. apply str_leb_refl.
  - intros [[[o' ws'] r'] k'] a Ha.
    destruct (decide ((o, ws, rn_run_id run, tk_task_key t) = (o', ws', r', k'))) as [[= <- <- <- <-]|Hk].
    + eexists. split; [by rewrite lookup_insert_eq|]. simpl. rewrite Hv.
      destruct (Ho _ _ _ _ _ Ha) as (run' & t' & Hr' & Ht' & Hle). congruence.
    + exists a. split; [by rewrite lookup_insert_ne|]. apply str_leb_refl.
Qed.

Lemma asset_tasks_elem s r t :
  (forall k t, fs_tasks s !! k = Some t -> tk_task_key t = k.2) ->
  t ∈ asset_tasks s r -> fs_tasks s !! (r, tk_task_key t) = Some t.
Proof.
  intros Hg. unfold asset_tasks. intros ([[r' k] t'] & -> & Hin)%list_elem_of_fmap.
  apply list_elem_of_In, filter_In in Hin as [Hin Hp].
  apply list_elem_of_In, elem_of_map_to_list in Hin. simpl in *. bool_hyps. subst.
  by rewrite (Hg _ _ Hin).
Qed.

Lemma refresh_catalog_grows w s o ws r ts :
  bounded run_spec w (fs_runs s) -> bounded task_spec w (fs_tasks s) ->
  catalog_ok (fs_runs s) (fs_tasks s) (fs_catalog_run_index s) ->
  exists m, refresh_catalog_run_index_for_run s o ws r ts = s <| fs_catalog_run_index := m |> /\
    catalog_ok (fs_runs s) (fs_tasks s) m /\ rows_grow catalog_spec (fs_catalog_run_index s) m.
Proof.
  intros Br Bt Ho. unfold refresh_catalog_run_index_for_run.
  destruct (fs_runs s !! r) as [run|] eqn:Er.
  2:{ exists (fs_catalog_run_index s). split_and!; [by destruct s|done|apply rows_grow_refl]. }
  eexists. split; [done|]. destruct (Br _ _ Er) as [Hrun _]. simpl in Hrun.
  assert (forall t, t ∈ asset_tasks s r -> fs_tasks s !! (rn_run_id run, tk_task_key t) = Some t) as Ht.
  { intros t Hin. rewrite Hrun. apply asset_tasks_elem; [|done]. intros k t' Hk. by apply (Bt k t'). }
  rewrite <- Hrun in Er. revert Ht Ho. generalize (fs_catalog_run_index s).
  induction (asset_tasks s r) as [|t l IH]; intros m Ht Ho; simpl; [split; [done|apply rows_grow_refl]|].
  destruct (refresh_task_grows (fs_runs s) (fs_tasks s) o ws run ts m t) as [H1' H2'];
    [done|apply Ht; by left|done|].
  destruct (IH (refresh_task o ws run ts m t)) as [H3 H4]; [intros; apply Ht; by right|done|].
  split; [done|]. by eapply rows_grow_trans.
Qed.

(** ** Folding in id order *)

Section Order.
Context `{Hashes} `{Chrono} `{SerdeJson}.

(** Events whose ids are above [w], strictly increasing, and without a colon
    (ULIDs have none). *)
Fixpoint in_order (w : string) (es : list OrchestrationEvent) : Prop :=
  match es with
  | [] => True
  | e :: es => str_leb (ev_event_id e) w = false /\ str_contains ":" (ev_event_id e) = false /\
               in_order (ev_event_id e) es
  end.

Lemma fresh_for_versions w s id :
  Versions w s -> str_leb id w = false -> str_contains ":" id = false -> fresh_for id s.
Proof.
  intros V Hid Hc. constructor.
  - intros rk. destruct (fs_run_key_conflicts s !! _) as [c|] eqn:E; [|done].
    destruct (vs_conflicts _ _ V _ _ E) as (rk' & id' & Hk & Hc' & Hle).
    apply str_app_inj_l in Hk. str_simpl. apply str_sep_inj in Hk as [_ ->]; [congruence|done|done].
  - intros b row Hb. by apply (vs_backfills _ _ V b row).
Qed.

Lemma grow_versions w id s s' :
  Versions w s -> str_leb id w = false -> str_contains ":" id = false -> grow id s s' ->
  Versions id s' /\ Grown w s s'.
Proof.
  intros [] Hid Hc [].
  assert (str_leb w id = true) as Hw by by apply str_leb_false.
  destruct (table_step_bounded _ _ _ _ _ vs_runs0 Hid gr_runs0) as [B1 G1].
  destruct (table_step_bounded _ _ _ _ _ vs_tasks0 Hid gr_tasks0) as [B2 G2].
  destruct (table_step_bounded _ _ _ _ _ vs_deps0 Hid gr_deps0) as [B3 G3].
  destruct (table_step_bounded _ _ _ _ _ vs_timers0 Hid gr_timers0) as [B4 G4].
  destruct (table_step_bounded _ _ _ _ _ vs_defs0 Hid gr_defs0) as [B5 G5].
  destruct (table_step_bounded _ _ _ _ _ vs_sched0 Hid gr_sched0) as [B6 G6].
  destruct (table_step_bounded _ _ _ _ _ vs_ticks0 Hid gr_ticks0) as [B7 G7].
  destruct (table_step_bounded _ _ _ _ _ vs_sensors0 Hid gr_sensors0) as [B8 G8].
  destruct (table_step_bounded _ _ _ _ _ vs_evals0 Hid gr_evals0) as [B9 G9].
  destruct (table_step_bounded _ _ _ _ _ vs_backfills0 Hid gr_backfills0) as [B10 G10].
  destruct (table_step_bounded _ _ _ _ _ vs_chunks0 Hid gr_chunks0) as [B11 G11].
  destruct (table_step_bounded _ _ _ _ _ vs_partitions0 Hid gr_partitions0) as [B12 G12].
  split; constructor; try done; try (by eapply written_since_step).
  - intros k b Hb. destruct (gr_outbox0 k b Hb) as [->|(a & Ha & ->)]; [apply str_leb_refl|].
    eapply str_leb_trans; [by eapply vs_outbox0|done].
  - rewrite gr_keys0. intros. eapply str_leb_trans; [by eapply vs_keys0|done].
  - intros k c Hk. destruct (fs_run_key_conflicts s !! k) as [c'|] eqn:E.
    + destruct (vs_conflicts0 k c' E) as (rk & id' & ? & ? & ?). exists rk, id'.
      split_and!; [done|done|by eapply str_leb_trans].
    + destruct (gr_new_conflicts0 k E) as [rk ->]; [by eexists|].
      exists rk, id. split_and!; [done|done|apply str_leb_refl].
  - rewrite gr_catalog0. by eapply catalog_ok_mono.
  - rewrite gr_catalog0. apply rows_grow_refl.
  - by rewrite gr_keys0.
  - rewrite gr_keys0. apply written_since_refl.
Qed.

Lemma grown_trans w w' s1 s2 s3 :
  str_leb w' w = false -> Grown w s1 s2 -> Grown w' s2 s3 -> Grown w s1 s3.
Proof.
  intros Hw [] []. constructor; try (by eapply rows_grow_trans); try (by etrans);
    by eapply written_since_trans.
Qed.

Lemma grown_refl w s : Grown w s s.
Proof.
  constructor; try apply rows_grow_refl; try apply written_since_refl; done.
Qed.

Lemma versions_weaken w w' s : Versions w s -> str_leb w w' = true -> Versions w' s.
Proof.
  intros [] Hw.
  assert (forall K A `(Countable K) (sp : TableSpec K A) m, bounded sp w m -> bounded sp w' m) as Hb.
  { intros K A ? ? sp m Hm k a Ha. destruct (Hm k a Ha). split; [done|by eapply str_leb_trans]. }
  constructor; try (by apply Hb); try done.
  - intros. eapply str_leb_trans; [by eapply vs_outbox0|done].
  - intros. eapply str_leb_trans; [by eapply vs_keys0|done].
  - intros k c Hk. destruct (vs_conflicts0 k c Hk) as (rk & id & ? & ? & ?). exists rk, id.
    split_and!; [done|done|by eapply str_leb_trans].
Qed.

Lemma fold_event_versions w s e :
  Versions w s -> str_leb (ev_event_id e) w = false -> str_contains ":" (ev_event_id e) = false ->
  Versions (ev_event_id e) (fold_event s e) /\ Grown w s (fold_event s e).
Proof.
  intros V Hid Hc.
  assert (Versions (ev_event_id e) (apply_event s e).1 /\ Grown w s (apply_event s e).1) as [V1 G1].
  { destruct (apply_event_grow s e (fresh_for_versions _ _ _ V Hid Hc)) as (s1 & Hg & He).
    destruct (grow_versions w _ s s1 V Hid Hc Hg) as [V1 G1].
    destruct He as [->|(o & ws & r & ts & ->)]; [done|].
    destruct (refresh_catalog_grows _ s1 o ws r ts (vs_runs _ _ V1) (vs_tasks _ _ V1) (vs_catalog _ _ V1))
      as (m & -> & Hm & Gm).
    split; [by destruct V1|]. destruct G1. constructor; try done. by eapply rows_grow_trans. }
  unfold fold_event. destruct (fs_idempotency_keys s !! ev_idempotency_key e).
  - split; [|apply grown_refl]. by eapply versions_weaken, str_leb_false.
  - destruct (apply_event s e) as [s1 [|]]; simpl in *; [|done].
    unfold record_idempotency_key. case_match; [done|].
    destruct V1, G1. split; constructor; try done; simpl.
    + intros k b [[_ <-]|[_ Hb]]%lookup_insert_Some; [apply str_leb_refl|by eapply vs_keys0].
    + etrans; [done|by apply insert_subseteq].
    + intros k b [[_ <-]|[_ Hb]]%lookup_insert_Some; [by left|by apply gw_new_keys0].
Qed.

Definition last_id (w : string) (es : list OrchestrationEvent) : string :=
  fold_left (fun _ e => ev_event_id e) es w.

Lemma fold_events_versions w s es :
  Versions w s -> in_order w es ->
  Versions (last_id w es) (fold_events s es) /\ Grown w s (fold_events s es).
Proof.
  revert w s. induction es as [|e es IH]; intros w s V Ho; simpl; [split; [done|apply grown_refl]|].
  destruct Ho as (Hid & Hc & Ho).
  destruct (fold_event_versions w s e V Hid Hc) as [V1 G1].
  destruct (IH _ _ V1 Ho) as [V2 G2]. split; [done|]. by eapply grown_trans.
Qed.
End Order.
