(* ===== verification/Compactor.v ===== *)
(** The pure part of a compaction cycle ([compactor/service.rs]).

    A cycle loads the current state (the base snapshot, then every L0 delta
    merged into it), folds a batch of ledger events sorted by event id, prunes
    what retention has expired, and persists the rows that changed as one more
    delta, or everything as a new base.  States stand for the artifacts as they
    are read back; the Parquet encoding and the object store are not modelled. *)

From S2P Require Import Prelude Events FoldTypes FoldTasks FoldDispatch FoldAutomation Fold Merge.
From stdpp Require Import options.

(** ** Row equality ([#[derive(PartialEq)]]) *)

#[export] Instance TickStatus_eq_dec : EqDecision TickStatus.
Proof. solve_decision. Defined.
#[export] Instance TriggerSource_eq_dec : EqDecision TriggerSource.
Proof. solve_decision. Defined.
#[export] Instance SensorStatus_eq_dec : EqDecision SensorStatus.
Proof. solve_decision. Defined.
#[export] Instance ChunkState_eq_dec : EqDecision ChunkState.
Proof. solve_decision. Defined.
#[export] Instance PartitionSelector_eq_dec : EqDecision PartitionSelector.
Proof. solve_decision. Defined.
#[export] Instance DepResolution_eq_dec : EqDecision DepResolution.
Proof. solve_decision. Defined.
#[export] Instance DispatchStatus_eq_dec : EqDecision DispatchStatus.
Proof. solve_decision. Defined.
#[export] Instance TimerState_eq_dec : EqDecision TimerState.
Proof. solve_decision. Defined.
#[export] Instance RunRequest_eq_dec : EqDecision RunRequest.
Proof. solve_decision. Defined.
#[export] Instance DispatchOutboxRow_eq_dec : EqDecision DispatchOutboxRow.
Proof. solve_decision. Defined.
#[export] Instance TimerRow_eq_dec : EqDecision TimerRow.
Proof. solve_decision. Defined.
#[export] Instance DepSatisfactionRow_eq_dec : EqDecision DepSatisfactionRow.
Proof. solve_decision. Defined.
#[export] Instance RunRow_eq_dec : EqDecision RunRow.
Proof. solve_decision. Defined.
#[export] Instance ScheduleDefinitionRow_eq_dec : EqDecision ScheduleDefinitionRow.
Proof. solve_decision. Defined.
#[export] Instance ScheduleStateRow_eq_dec : EqDecision ScheduleStateRow.
Proof. solve_decision. Defined.
#[export] Instance ScheduleTickRow_eq_dec : EqDecision ScheduleTickRow.
Proof. solve_decision. Defined.
#[export] Instance SensorStateRow_eq_dec : EqDecision SensorStateRow.
Proof. solve_decision. Defined.
#[export] Instance SensorEvalRow_eq_dec : EqDecision SensorEvalRow.
Proof. solve_decision. Defined.
#[export] Instance BackfillRow_eq_dec : EqDecision BackfillRow.
Proof. solve_decision. Defined.
#[export] Instance BackfillChunkRow_eq_dec : EqDecision BackfillChunkRow.
Proof. solve_decision. Defined.
#[export] Instance PartitionStatusRow_eq_dec : EqDecision PartitionStatusRow.
Proof. solve_decision. Defined.
#[export] Instance RunKeyIndexRow_eq_dec : EqDecision RunKeyIndexRow.
Proof. solve_decision. Defined.
#[export] Instance RunKeyConflictRow_eq_dec : EqDecision RunKeyConflictRow.
Proof. solve_decision. Defined.
#[export] Instance CatalogRunIndexRow_eq_dec : EqDecision CatalogRunIndexRow.
Proof. solve_decision. Defined.
#[export] Instance IdempotencyKeyRow_eq_dec : EqDecision IdempotencyKeyRow.
Proof. solve_decision. Defined.

(** ** Merging a delta into a state *)

Section Tables.
Context {K : Type} `{Countable K} {A : Type}.

(** The loops [for (key, row) in delta { merged.entry(key)
    .and_modify(|existing| ..).or_insert(row) }], [keep] being what the closure
    makes of the existing row. *)
Definition merge_table (keep : A -> A -> A) (base delta : gmap K A) : gmap K A :=
  union_with (fun existing row => Some (keep existing row)) base delta.

(** [if let Some(merged_row) = merge(vec![existing.clone(), row.clone()]) {
    *existing = merged_row }] *)
Definition keep_merged (merge : list A -> option A) (existing row : A) : A :=
  default existing (merge [existing; row]).

Definition insert_changed `{EqDecision A} (delta base current : gmap K A) : gmap K A :=
  filter (fun kv => base !! kv.1 <> Some kv.2) current ∪ delta.
End Tables.

(** [if row.row_version > existing.row_version { *existing = row.clone() }] *)
Definition keep_run_key_index (existing row : RunKeyIndexRow) : RunKeyIndexRow :=
  if str_ltb (rk_row_version existing) (rk_row_version row) then row else existing.

Definition merge_states (base delta : FoldState) : FoldState :=
  base
    <| fs_runs := merge_table (keep_merged merge_run_rows) (fs_runs base) (fs_runs delta) |>
    <| fs_tasks := merge_table (keep_merged merge_task_rows) (fs_tasks base) (fs_tasks delta) |>
    <| fs_catalog_run_index :=
         merge_table (keep_merged merge_catalog_run_index_rows) (fs_catalog_run_index base)
           (fs_catalog_run_index delta) |>
    <| fs_dep_satisfaction :=
         merge_table (keep_merged merge_dep_satisfaction_rows) (fs_dep_satisfaction base)
           (fs_dep_satisfaction delta) |>
    <| fs_timers := merge_table (keep_merged merge_timer_rows) (fs_timers base) (fs_timers delta) |>
    <| fs_dispatch_outbox :=
         merge_table (keep_merged merge_dispatch_outbox_rows) (fs_dispatch_outbox base)
           (fs_dispatch_outbox delta) |>
    <| fs_sensor_state :=
         merge_table (keep_merged merge_sensor_state_rows) (fs_sensor_state base)
           (fs_sensor_state delta) |>
    <| fs_sensor_evals :=
         merge_table (keep_merged merge_sensor_eval_rows) (fs_sensor_evals base)
           (fs_sensor_evals delta) |>
    <| fs_backfills :=
         merge_table (keep_merged merge_backfill_rows) (fs_backfills base) (fs_backfills delta) |>
    <| fs_backfill_chunks :=
         merge_table (keep_merged merge_backfill_chunk_rows) (fs_backfill_chunks base)
           (fs_backfill_chunks delta) |>
    <| fs_run_key_index :=
         merge_table keep_run_key_index (fs_run_key_index base) (fs_run_key_index delta) |>
    <| fs_run_key_conflicts :=
         merge_table (fun existing _ => existing) (fs_run_key_conflicts base)
           (fs_run_key_conflicts delta) |>
    <| fs_partition_status :=
         merge_table (keep_merged merge_partition_status_rows) (fs_partition_status base)
           (fs_partition_status delta) |>
    <| fs_idempotency_keys :=
         merge_table (keep_merged merge_idempotency_key_rows) (fs_idempotency_keys base)
           (fs_idempotency_keys delta) |>
    <| fs_schedule_definitions :=
         merge_table (keep_merged merge_schedule_definition_rows) (fs_schedule_definitions base)
           (fs_schedule_definitions delta) |>
    <| fs_schedule_state :=
         merge_table (keep_merged merge_schedule_state_rows) (fs_schedule_state base)
           (fs_schedule_state delta) |>
    <| fs_schedule_ticks :=
         merge_table (keep_merged merge_schedule_tick_rows) (fs_schedule_ticks base)
           (fs_schedule_ticks delta) |>.

(** ** The delta of a batch *)

(** The rows of [current] that [base] does not have as they are.  A row that
    [current] no longer has leaves no trace in the delta. *)
Definition delta_from_states (base current : FoldState) : FoldState :=
  let delta := fold_state_new "" in
  delta
    <| fs_runs := insert_changed (fs_runs delta) (fs_runs base) (fs_runs current) |>
    <| fs_tasks := insert_changed (fs_tasks delta) (fs_tasks base) (fs_tasks current) |>
    <| fs_catalog_run_index :=
         insert_changed (fs_catalog_run_index delta) (fs_catalog_run_index base)
           (fs_catalog_run_index current) |>
    <| fs_dep_satisfaction :=
         insert_changed (fs_dep_satisfaction delta) (fs_dep_satisfaction base)
           (fs_dep_satisfaction current) |>
    <| fs_timers := insert_changed (fs_timers delta) (fs_timers base) (fs_timers current) |>
    <| fs_dispatch_outbox :=
         insert_changed (fs_dispatch_outbox delta) (fs_dispatch_outbox base)
           (fs_dispatch_outbox current) |>
    <| fs_sensor_state :=
         insert_changed (fs_sensor_state delta) (fs_sensor_state base) (fs_sensor_state current) |>
    <| fs_sensor_evals :=
         insert_changed (fs_sensor_evals delta) (fs_sensor_evals base) (fs_sensor_evals current) |>
    <| fs_backfills :=
         insert_changed (fs_backfills delta) (fs_backfills base) (fs_backfills current) |>
    <| fs_backfill_chunks :=
         insert_changed (fs_backfill_chunks delta) (fs_backfill_chunks base)
           (fs_backfill_chunks current) |>
    <| fs_run_key_index :=
         insert_changed (fs_run_key_index delta) (fs_run_key_index base)
           (fs_run_key_index current) |>
    <| fs_run_key_conflicts :=
         insert_changed (fs_run_key_conflicts delta) (fs_run_key_conflicts base)
           (fs_run_key_conflicts current) |>
    <| fs_partition_status :=
         insert_changed (fs_partition_status delta) (fs_partition_status base)
           (fs_partition_status current) |>
    <| fs_idempotency_keys :=
         insert_changed (fs_idempotency_keys delta) (fs_idempotency_keys base)
           (fs_idempotency_keys current) |>
    <| fs_schedule_definitions :=
         insert_changed (fs_schedule_definitions delta) (fs_schedule_definitions base)
           (fs_schedule_definitions current) |>
    <| fs_schedule_state :=
         insert_changed (fs_schedule_state delta) (fs_schedule_state base)
           (fs_schedule_state current) |>
    <| fs_schedule_ticks :=
         insert_changed (fs_schedule_ticks delta) (fs_schedule_ticks base)
           (fs_schedule_ticks current) |>.

Definition table_is_empty {K A} `{Countable K} (m : gmap K A) : bool := bool_decide (m = ∅).

Definition delta_state_is_empty (state : FoldState) : bool :=
  table_is_empty (fs_runs state) && table_is_empty (fs_tasks state) &&
  table_is_empty (fs_catalog_run_index state) && table_is_empty (fs_dep_satisfaction state) &&
  table_is_empty (fs_timers state) && table_is_empty (fs_dispatch_outbox state) &&
  table_is_empty (fs_sensor_state state) && table_is_empty (fs_sensor_evals state) &&
  table_is_empty (fs_backfills state) && table_is_empty (fs_backfill_chunks state) &&
  table_is_empty (fs_run_key_index state) && table_is_empty (fs_run_key_conflicts state) &&
  table_is_empty (fs_partition_status state) && table_is_empty (fs_idempotency_keys state) &&
  table_is_empty (fs_schedule_definitions state) && table_is_empty (fs_schedule_state state) &&
  table_is_empty (fs_schedule_ticks state).

(** ** Retention *)

(** Thirty days, in nanoseconds. *)
Definition SENSOR_EVAL_RETENTION : Z := 30 * 86400 * 1000000000.
Definition IDEMPOTENCY_KEY_RETENTION : Z := 30 * 86400 * 1000000000.

(** [Iterator::max] *)
Definition max_time (ts : list DateTime) : option DateTime :=
  fold_left (fun acc t => latest acc (Some t)) ts None.

Definition retention_reference_time_for_events `{Chrono} (events : list OrchestrationEvent) :
    DateTime :=
  default utc_now (max_time (ev_timestamp <$> events)).

Definition retention_reference_time_for_state (state : FoldState) : option DateTime :=
  let max_sensor_eval :=
    max_time (sv_evaluated_at <$> (snd <$> map_to_list (fs_sensor_evals state))) in
  let max_idempotency :=
    max_time (ik_recorded_at <$> (snd <$> map_to_list (fs_idempotency_keys state))) in
  match max_sensor_eval, max_idempotency with
  | Some a, Some b => Some (Z.max a b)
  | Some a, None => Some a
  | None, Some b => Some b
  | None, None => None
  end.

Definition prune_sensor_evals (retention_now : DateTime) (state : FoldState) : FoldState :=
  let cutoff := (retention_now - SENSOR_EVAL_RETENTION)%Z in
  state <| fs_sensor_evals :=
             filter (fun kv => (cutoff <= sv_evaluated_at kv.2)%Z) (fs_sensor_evals state) |>.

Definition prune_idempotency_keys (retention_now : DateTime) (state : FoldState) : FoldState :=
  let cutoff := (retention_now - IDEMPOTENCY_KEY_RETENTION)%Z in
  state <| fs_idempotency_keys :=
             filter (fun kv => (cutoff <= ik_recorded_at kv.2)%Z) (fs_idempotency_keys state) |>.

(** ** A cycle *)

(** The current state: the base snapshot, the deltas in order, retention, and
    the dependency graph read off the edges. *)
Definition load_current_state (base : option FoldState) (l0_deltas : list FoldState) : FoldState :=
  let state := default (fold_state_new "") base in
  let state := fold_left merge_states l0_deltas state in
  let state :=
    match retention_reference_time_for_state state with
    | Some retention_now =>
        prune_idempotency_keys retention_now (prune_sensor_evals retention_now state)
    | None => state
    end in
  rebuild_dependency_graph state.

(** [events.sort_by(|a, b| a.1.event_id.cmp(&b.1.event_id))], a stable sort. *)
Fixpoint insert_event (e : OrchestrationEvent) (es : list OrchestrationEvent) :
    list OrchestrationEvent :=
  match es with
  | [] => [e]
  | e' :: es' =>
      if str_leb (ev_event_id e) (ev_event_id e') then e :: es else e' :: insert_event e es'
  end.
Definition sort_events (es : list OrchestrationEvent) : list OrchestrationEvent :=
  foldr insert_event [] es.

Section Cycle.
Context `{Hashes} `{Chrono} `{SerdeJson}.

(** The state a batch leads to. *)
Definition fold_batch (state : FoldState) (batch : list OrchestrationEvent) : FoldState :=
  let events := sort_events batch in
  let state := fold_events state events in
  let retention_now := retention_reference_time_for_events events in
  prune_idempotency_keys retention_now (prune_sensor_evals retention_now state).

(** What a snapshot holds: the tables, neither the dependency graph nor the
    tenant's secret. *)
Definition snapshot_of (state : FoldState) : FoldState :=
  state <| fs_task_dependencies := ∅ |> <| fs_task_dependents := ∅ |> <| fs_tenant_secret := "" |>.

(** One cycle on the artifacts of the manifest: a new base when the L0 limits
    are reached, one more delta when some row changed. *)
Definition compact_events (tenant_secret : string) (should_merge_to_base : bool)
    (base : option FoldState) (l0_deltas : list FoldState) (batch : list OrchestrationEvent) :
    option FoldState * list FoldState :=
  let base_state := (load_current_state base l0_deltas) <| fs_tenant_secret := tenant_secret |> in
  let state := fold_batch base_state batch in
  let delta_state := delta_from_states base_state state in
  if should_merge_to_base then (Some (snapshot_of state), [])
  else if negb (delta_state_is_empty delta_state) then (base, l0_deltas ++ [delta_state])
  else (base, l0_deltas).
End Cycle.
