(* ===== verification/CompactorProps.v ===== *)
(** Incremental compaction is lossless for batches in id order, and the fold's invariant
    survives it.

    The delta of a batch, merged into the state it was computed from, gives back
    the state the batch led to: in every table the merge picks the row of the
    batch.  Rows that the batch removed (consumed dispatches, expired evaluations
    and keys) leave no trace in the delta and come back.

    A load reads the tables back and rebuilds the dependency graph from the edge
    rows.  The graph has the edges the plans gave it, so that the invariant behind
    the run and task theorems holds of every state a cycle starts from, and these
    theorems hold of what the controllers read. *)

From S2P Require Import Prelude Events FoldTypes FoldTasks FoldDispatch FoldAutomation Fold FoldIdempotence Merge FoldVersions Compactor Sample FoldMachine FoldInvariant FoldReach FoldProps.
From stdpp Require Import options.

(** ** One table *)

Section Table.
Context {K : Type} `{Countable K} {A : Type} `{EqDecision A}.
Implicit Types base cur m : gmap K A.

Lemma insert_changed_lookup base cur k :
  insert_changed ∅ base cur !! k =
    match cur !! k with
    | Some b => if decide (base !! k = Some b) then None else Some b
    | None => None
    end.
Proof.
  unfold insert_changed. rewrite (right_id_L ∅ (∪)).
  destruct (cur !! k) as [b|] eqn:E.
  - case_decide as Hd.
    + apply map_lookup_filter_None. right. intros b' Hb'. simpl. naive_solver congruence.
    + by apply map_lookup_filter_Some.
  - apply map_lookup_filter_None. by left.
Qed.

(** The merge of a table and its delta: the current rows, and the rows that are
    gone as they were. *)
Lemma merge_changed (keep : A -> A -> A) base cur :
  (forall k a b, base !! k = Some a -> cur !! k = Some b -> a <> b -> keep a b = b) ->
  merge_table keep base (insert_changed ∅ base cur) = cur ∪ base.
Proof.
  intros Hk. apply map_eq. intros k. unfold merge_table.
  rewrite lookup_union_with, insert_changed_lookup, lookup_union.
  specialize (Hk k). destruct (base !! k) as [a|], (cur !! k) as [b|]; simpl; try done.
  - case_decide as Hd; [by simplify_eq|]. simpl. rewrite Hk; [done..|congruence].
Qed.

Lemma rows_grow_union (sp : TableSpec K A) base cur : rows_grow sp base cur -> cur ∪ base = cur.
Proof.
  intros Hg. apply map_eq. intros k. rewrite lookup_union.
  destruct (base !! k) as [a|] eqn:E; [|by destruct (cur !! k)].
  destruct (Hg k a E) as (b & -> & _). done.
Qed.

Lemma subseteq_union base cur : base ⊆ cur -> cur ∪ base = cur.
Proof.
  intros Hs. apply map_eq. intros k. rewrite lookup_union.
  destruct (base !! k) as [a|] eqn:E; [|by destruct (cur !! k)].
  by rewrite (lookup_weaken _ _ _ _ E Hs).
Qed.

(** A table merged by the order of its rows. *)
Lemma merge_grown (f : A -> A -> A) `{!VersionOrder f} (sp : TableSpec K A) base cur :
  (forall a b, sp_leb sp a b = ver_leb a b) -> rows_grow sp base cur ->
  merge_table (keep_merged (reduce f)) base (insert_changed ∅ base cur) = cur.
Proof.
  intros Hl Hg. rewrite merge_changed; [by eapply rows_grow_union|].
  intros k a b Ha Hb _. unfold keep_merged. simpl. rewrite ver_keep.
  destruct (Hg k a Ha) as (b' & Hb' & Hle). rewrite Hl in Hle.
  replace b with b' by congruence. by rewrite Hle.
Qed.
End Table.

(** A table whose rows may go away: the rows written since [w], whatever older
    rows the artifacts still hold. *)
Lemma merge_written {B} `{EqDecision B} (ver : B -> string) w (stored base s cur : gmap string B) :
  (forall k b, stored !! k = Some b -> str_leb (ver b) w = true) ->
  base ⊆ stored -> written_since ver w base s -> cur ⊆ s ->
  merge_table (keep_merged (reduce (by_row_version ver))) stored (insert_changed ∅ base cur) =
  cur ∪ stored.
Proof.
  intros Hw Hbase Hs Hcur. apply map_eq. intros k. unfold merge_table.
  rewrite lookup_union_with, insert_changed_lookup, lookup_union.
  destruct (cur !! k) as [b|] eqn:Eb; [|by destruct (stored !! k)].
  case_decide as Hd; [by rewrite (lookup_weaken _ _ _ _ Hd Hbase)|].
  destruct (stored !! k) as [a|] eqn:Ea; [|done].
  unfold keep_merged. simpl. rewrite ver_keep. simpl.
  destruct (Hs k b (lookup_weaken _ _ _ _ Eb Hcur)) as [Hn|(a' & Ha' & ->)].
  - rewrite (str_leb_trans _ w _); [done|by eapply Hw|by apply str_leb_false].
  - rewrite (lookup_weaken _ _ _ _ Ha' Hbase) in Ea. simplify_eq. by rewrite str_leb_refl.
Qed.

(** ** The whole state *)

(** What the artifacts hold after a batch that led to [cur], when they held
    [stored] before: the current rows, and what is gone as it was (consumed
    dispatches, expired evaluations and keys). *)
Definition reloaded (stored cur : FoldState) : FoldState :=
  cur <| fs_dispatch_outbox := fs_dispatch_outbox cur ∪ fs_dispatch_outbox stored |>
      <| fs_sensor_evals := fs_sensor_evals cur ∪ fs_sensor_evals stored |>
      <| fs_idempotency_keys := fs_idempotency_keys cur ∪ fs_idempotency_keys stored |>
      <| fs_task_dependencies := fs_task_dependencies stored |>
      <| fs_task_dependents := fs_task_dependents stored |>
      <| fs_tenant_secret := fs_tenant_secret stored |>.

(** A state without what pruning, loading and snapshots change. *)
Definition core (s : FoldState) : FoldState :=
  s <| fs_sensor_evals := ∅ |> <| fs_idempotency_keys := ∅ |> <| fs_task_dependencies := ∅ |>
    <| fs_task_dependents := ∅ |> <| fs_tenant_secret := "" |>.

(** What pruning leaves of a state. *)
Definition pruned (s s' : FoldState) : Prop :=
  fs_sensor_evals s' ⊆ fs_sensor_evals s /\ fs_idempotency_keys s' ⊆ fs_idempotency_keys s /\
  core s' = core s.

Lemma pruned_prune t s : pruned s (prune_idempotency_keys t (prune_sensor_evals t s)).
Proof. split_and!; [apply map_filter_subseteq..|done]. Qed.

(** Merging the delta of a batch into the stored state gives the rows of the
    batch. *)
Lemma merge_delta w stored base s cur :
  Versions w stored -> pruned stored base -> Grown w base s -> pruned s cur ->
  merge_states stored (delta_from_states base cur) = reloaded stored cur.
Proof.
  intros V (Be & Bk & Br) G (Pe & Pk & Pr).
  destruct stored as [t1 t2 t3 t4 t5 t6 t7 t8 t9 t10 t11 t12 t13 t14 t15 t16 t17 t18 t19 t20].
  destruct base as [b1 b2 b3 b4 b5 b6 b7 b8 b9 b10 b11 b12 b13 b14 b15 b16 b17 b18 b19 b20].
  destruct cur as [c1 c2 c3 c4 c5 c6 c7 c8 c9 c10 c11 c12 c13 c14 c15 c16 c17 c18 c19 c20].
  destruct s as [s1 s2 s3 s4 s5 s6 s7 s8 s9 s10 s11 s12 s13 s14 s15 s16 s17 s18 s19 s20].
  unfold core in *. simpl in *.
  injection Br as -> -> -> -> -> -> -> -> -> -> -> -> -> -> ->.
  injection Pr as -> -> -> -> -> -> -> -> -> -> -> -> -> -> ->.
  destruct G, V; simpl in *. unfold merge_states, delta_from_states, reloaded. simpl.
  f_equal; try done.
  - by apply (merge_grown (by_row_version rn_row_version) run_spec).
  - by apply (merge_grown keep_task_row task_spec).
  - by apply (merge_grown (by_row_version ci_row_version) catalog_spec).
  - by apply (merge_grown (by_row_version dp_row_version) dep_spec).
  - by apply (merge_grown (by_row_version ti_row_version) timer_spec).
  - by eapply merge_written.
  - by apply (merge_grown (by_row_version sd_row_version) sched_def_spec).
  - by apply (merge_grown (by_row_version ss_row_version) sched_state_spec).
  - by apply (merge_grown (by_row_version st_row_version) sched_tick_spec).
  - by apply (merge_grown (by_row_version se_row_version) sensor_state_spec).
  - eapply merge_written; [|done..]. intros k b Hb. by apply (vs_evals k b).
  - by apply (merge_grown keep_backfill_row backfill_spec).
  - by apply (merge_grown (by_row_version bc_row_version) chunk_spec).
  - by apply (merge_grown (by_row_version ps_row_version) partition_spec).
  - rewrite merge_changed; [by apply subseteq_union|]. intros k a b Ha Hb Hab.
    rewrite (lookup_weaken _ _ _ _ Ha gw_index) in Hb. congruence.
  - rewrite merge_changed; [by apply subseteq_union|]. intros k a b Ha Hb Hab.
    rewrite (lookup_weaken _ _ _ _ Ha gw_conflicts) in Hb. congruence.
  - by eapply merge_written.
Qed.

(** An empty delta changes nothing. *)
Lemma merge_empty s d : delta_state_is_empty d = true -> merge_states s d = s.
Proof.
  unfold delta_state_is_empty, table_is_empty. intros Hd. bool_hyps.
  assert (forall K A `(Countable K) (keep : A -> A -> A) (m m' : gmap K A), m' = ∅ -> merge_table keep m m' = m) as Hm.
  { intros K A ? ? keep m m' ->. apply map_eq. intros k. unfold merge_table.
    rewrite lookup_union_with, lookup_empty. by destruct (m !! k). }
  unfold merge_states. rewrite !Hm by done. by destruct s.
Qed.

(** ** Cycles *)

(** What the artifacts hold. *)
Definition stored_state (base : option FoldState) (l0_deltas : list FoldState) : FoldState :=
  fold_left merge_states l0_deltas (default (fold_state_new "") base).

Lemma rebuild_core s : pruned s (rebuild_dependency_graph s).
Proof.
  assert (forall l s', core (fold_left rebuild_edge l s') = core s' /\
    fs_sensor_evals (fold_left rebuild_edge l s') = fs_sensor_evals s' /\
    fs_idempotency_keys (fold_left rebuild_edge l s') = fs_idempotency_keys s') as Hl.
  { induction l as [|x l IH]; intros s'; simpl; [done|]. destruct (IH (rebuild_edge s' x)) as (-> & -> & ->). done. }
  unfold rebuild_dependency_graph.
  match goal with |- context [fold_left rebuild_edge ?l ?st] => destruct (Hl l st) as (Hc & He & Hk) end.
  split_and!; [by rewrite He|by rewrite Hk|by rewrite Hc].
Qed.

Lemma pruned_trans s1 s2 s3 : pruned s1 s2 -> pruned s2 s3 -> pruned s1 s3.
Proof. intros (? & ? & ?) (? & ? & ?). split_and!; [by etrans|by etrans|congruence]. Qed.

Lemma load_pruned base l0_deltas secret :
  pruned (stored_state base l0_deltas) ((load_current_state base l0_deltas) <| fs_tenant_secret := secret |>).
Proof.
  apply (pruned_trans _ (load_current_state base l0_deltas)); [|done].
  unfold load_current_state. fold (stored_state base l0_deltas).
  eapply pruned_trans; [|apply rebuild_core]. case_match; [apply pruned_prune|done].
Qed.

Lemma versions_pruned w s s' : Versions w s -> pruned s s' -> Versions w s'.
Proof.
  intros V (Pe & Pk & Pr). destruct s, s'. unfold core in Pr. simpl in *.
  injection Pr as -> -> -> -> -> -> -> -> -> -> -> -> -> -> ->.
  destruct V. constructor; simpl in *; try done.
  - intros k a Ha. apply vs_evals. by eapply lookup_weaken.
  - intros k a Ha. apply (vs_keys k a). by eapply lookup_weaken.
Qed.

Lemma versions_reloaded w s s' : Versions w s -> Versions w s' -> Versions w (reloaded s s').
Proof.
  intros V []. pose proof (FoldVersions.vs_outbox _ _ V) as Ho.
  pose proof (FoldVersions.vs_evals _ _ V) as He. pose proof (FoldVersions.vs_keys _ _ V) as Hk. constructor; simpl; try done.
  - intros k b [Hb|[_ Hb]]%lookup_union_Some_raw; by eauto.
  - intros k b [Hb|[_ Hb]]%lookup_union_Some_raw; [by apply vs_evals|by apply He].
  - intros k b [Hb|[_ Hb]]%lookup_union_Some_raw; by eauto.
Qed.

Section Cycles.
Context `{Hashes} `{Chrono} `{SerdeJson}.

(** A batch of events above the watermark, with distinct ids without a colon. *)
Definition batch_ok (w : string) (batch : list OrchestrationEvent) : Prop :=
  NoDup (ev_event_id <$> batch) /\
  Forall (fun e => str_leb (ev_event_id e) w = false /\ str_contains ":" (ev_event_id e) = false) batch.

Lemma insert_event_perm e es : insert_event e es ≡ₚ e :: es.
Proof.
  induction es as [|e' es IH]; simpl; [done|]. case_match; [done|]. rewrite IH. apply Permutation_swap.
Qed.

Lemma sort_events_perm es : sort_events es ≡ₚ es.
Proof. induction es as [|e es IH]; simpl; [done|]. by rewrite insert_event_perm, IH. Qed.

(** Sorting puts a batch in id order. *)
Lemma insert_event_in_order w e es :
  in_order w es -> str_leb (ev_event_id e) w = false -> str_contains ":" (ev_event_id e) = false ->
  ev_event_id e ∉ (ev_event_id <$> es) -> in_order w (insert_event e es).
Proof.
  revert w. induction es as [|e' es IH]; intros w Ho Hw Hc Hn; simpl in *; [done|].
  destruct Ho as (Hw' & Hc' & Ho). apply not_elem_of_cons in Hn as [Hne Hn].
  destruct (str_leb (ev_event_id e) (ev_event_id e')) eqn:E; simpl.
  - split_and!; try done. destruct (str_leb (ev_event_id e') (ev_event_id e)) eqn:E'; [|done].
    by rewrite (str_leb_antisym _ _ E E') in Hne.
  - split_and!; try done. by apply IH.
Qed.

Lemma sort_events_in_order w batch : batch_ok w batch -> in_order w (sort_events batch).
Proof.
  intros [Hn Hf]. induction batch as [|e es IH]; simpl; [done|].
  rewrite fmap_cons in Hn. apply NoDup_cons in Hn as [Hni Hn]. apply Forall_cons in Hf as [[Hw Hc] Hf].
  apply insert_event_in_order; [by apply IH|done|done|].
  by rewrite (sort_events_perm es).
Qed.

Lemma fold_batch_grown w s batch :
  Versions w s -> batch_ok w batch ->
  Versions (last_id w (sort_events batch)) (fold_batch s batch) /\
  exists s', Grown w s s' /\ pruned s' (fold_batch s batch).
Proof.
  intros V Hb. destruct (fold_events_versions w s _ V (sort_events_in_order w batch Hb)) as [V' G].
  unfold fold_batch. split; [eapply versions_pruned; [exact V'|apply pruned_prune]|].
  eexists. split; [exact G|apply pruned_prune].
Qed.

(** The artifacts that compaction cycles lead to, with the watermark: each batch
    is of [P] events above the watermark its predecessors left. *)
Inductive cycles (P : OrchestrationEvent -> Prop) (secret : string) :
    string -> option FoldState -> list FoldState -> Prop :=
  | cycles_start w : cycles P secret w None []
  | cycles_next w base deltas batch merge base' deltas' :
      cycles P secret w base deltas -> batch_ok w batch -> Forall P batch ->
      compact_events secret merge base deltas batch = (base', deltas') ->
      cycles P secret (last_id w (sort_events batch)) base' deltas'.

Lemma last_id_above w es : in_order w es -> str_leb w (last_id w es) = true.
Proof.
  revert w. induction es as [|e es IH]; intros w Ho; simpl; [apply str_leb_refl|].
  destruct Ho as (Hw & _ & Ho). eapply str_leb_trans; [by apply str_leb_false|by apply IH].
Qed.

Lemma stored_compact w secret merge base deltas batch base' deltas' :
  Versions w (stored_state base deltas) -> batch_ok w batch ->
  compact_events secret merge base deltas batch = (base', deltas') ->
  let cur := fold_batch ((load_current_state base deltas) <| fs_tenant_secret := secret |>) batch in
  stored_state base' deltas' = if merge then snapshot_of cur else reloaded (stored_state base deltas) cur.
Proof.
  intros V Hb Hc cur. unfold compact_events in Hc. fold cur in Hc.
  destruct merge; [by injection Hc as <- <-|].
  pose proof (load_pruned base deltas secret) as Hl.
  destruct (fold_batch_grown w _ batch (versions_pruned _ _ _ V Hl) Hb) as [_ (s' & G & P)].
  pose proof (merge_delta w _ _ _ _ V Hl G P) as Hm. fold cur in Hm. rewrite <- Hm.
  destruct (delta_state_is_empty _) eqn:E; injection Hc as <- <-.
  - by rewrite merge_empty.
  - unfold stored_state. by rewrite fold_left_app.
Qed.

Lemma cycles_versions P secret w base deltas :
  cycles P secret w base deltas -> Versions w (stored_state base deltas).
Proof.
  induction 1 as [w|w base deltas batch merge base' deltas' _ IH Hb _ Hc]; [apply versions_new|].
  rewrite (stored_compact w secret merge base deltas batch base' deltas' IH Hb Hc).
  destruct (fold_batch_grown w _ batch (versions_pruned _ _ _ IH (load_pruned base deltas secret)) Hb)
    as [V _].
  destruct merge; [by destruct V|]. apply versions_reloaded; [|done].
  eapply versions_weaken; [exact IH|]. by apply last_id_above, sort_events_in_order.
Qed.
End Cycles.

(** ** What a cycle preserves *)

(** The tables whose rows no operation removes. *)
Definition live_tables (s : FoldState) : FoldState := core s <| fs_dispatch_outbox := ∅ |>.

Lemma pruned_live s s' :
  pruned s s' -> live_tables s' = live_tables s /\ fs_dispatch_outbox s' = fs_dispatch_outbox s.
Proof.
  intros (_ & _ & Hc). split; [exact (f_equal (fun x => x <| fs_dispatch_outbox := ∅ |>) Hc)|].
  exact (f_equal fs_dispatch_outbox Hc).
Qed.

Lemma live_reloaded s s' : live_tables (reloaded s s') = live_tables s'.
Proof. done. Qed.

Lemma live_snapshot s : live_tables (snapshot_of s) = live_tables s.
Proof. done. Qed.

Lemma load_keeps_key base deltas now k row :
  retention_reference_time_for_state (stored_state base deltas) = Some now ->
  (now - IDEMPOTENCY_KEY_RETENTION <= ik_recorded_at row)%Z ->
  fs_idempotency_keys (stored_state base deltas) !! k = Some row ->
  fs_idempotency_keys (load_current_state base deltas) !! k = Some row.
Proof.
  intros Hn Hr Hk. unfold load_current_state. fold (stored_state base deltas). rewrite Hn.
  assert (forall s, fs_idempotency_keys (rebuild_dependency_graph s) = fs_idempotency_keys s) as ->.
  { intros s. unfold rebuild_dependency_graph. by rewrite (fold_left_preserves _ fs_idempotency_keys). }
  by apply map_lookup_filter_Some.
Qed.

Section Lossless.
Context `{Hashes} `{Chrono} `{SerdeJson}.


Lemma merged_claimed s cur e :
  claimed cur e -> claimed (merge_states s (delta_from_states s cur)) e.
Proof.
  intros [row Hr]. unfold claimed. simpl. unfold merge_table.
  rewrite lookup_union_with, insert_changed_lookup, Hr.
  destruct (fs_idempotency_keys s !! ev_idempotency_key e) as [row'|]; case_decide; simpl; eauto.
Qed.

(** A late event is lost, for good.  An event folded in a later batch whose id
    is below the version of the task row it rewrites leaves a row with a lower
    version: the delta carries it, and the merge of the next load discards it.  The
    event's key is claimed all the same, so that redelivery does not repair it. *)
Theorem late_event_lost s e key t t' :
  fs_tasks s !! key = Some t -> fs_tasks (fold_event s e) !! key = Some t' ->
  str_ltb (tk_row_version t') (tk_row_version t) = true -> claimed (fold_event s e) e ->
  let reload := merge_states s (delta_from_states s (fold_event s e)) in
  fs_tasks reload !! key = Some t /\ fold_event reload e = reload.
Proof.
  intros Ht Ht' Hlt Hc reload. split; [|by apply fold_event_claimed, merged_claimed].
  subst reload. simpl. unfold merge_table. rewrite lookup_union_with, insert_changed_lookup, Ht, Ht'.
  case_decide; simpl; [done|]. unfold keep_merged. simpl. rewrite ver_keep. simpl.
  unfold lex_leb. unfold str_ltb in Hlt. apply negb_true_iff in Hlt.
  unfold str_leb at 1. by rewrite Hlt.
Qed.

(** A consumed dispatch comes back.  When a task starts, the outbox row of its
    attempt is removed; the delta does not say so, and the next load finds the row as
    it was, pending if it was pending, although the attempt is consumed. *)
Theorem consumed_dispatch_reappears s e r k n aid wid t row :
  ev_data e = TaskStarted r k n aid wid -> ~ claimed s e ->
  fs_tasks s !! (r, k) = Some t -> tk_state t = TsDispatched -> tk_attempt t = n ->
  tk_attempt_id t = Some aid -> fs_dispatch_outbox s !! dispatch_id r k n = Some row ->
  let s' := fold_event s e in
  let reload := merge_states s (delta_from_states s s') in
  dispatch_attempt_consumed s' r k n = true /\
  fs_dispatch_outbox s' !! dispatch_id r k n = None /\
  fs_dispatch_outbox reload !! dispatch_id r k n = Some row.
Proof.
  intros Hd Hc Ht Hst Hn Haid Hrow s' reload.
  assert (fs_idempotency_keys s !! ev_idempotency_key e = None) as Hk.
  { apply eq_None_not_Some. exact Hc. }
  assert (fs_tasks s' !! (r, k) = Some (start_task_row n aid (ev_event_id e) (ev_timestamp e) t) /\
          fs_dispatch_outbox s' !! dispatch_id r k n = None) as [Ht' Ho].
  { subst s'. unfold fold_event. rewrite Hk. unfold apply_event. rewrite Hd.
    unfold fold_task_started. rewrite Ht, Hst, Haid, Hn, N.leb_refl, N.eqb_refl. simpl.
    rewrite bool_decide_true by done. simpl. unfold record_idempotency_key, refresh_catalog_run_index_for_run.
    repeat case_match; simpl; rewrite lookup_insert_eq, lookup_delete_eq; done. }
  split_and!; [|done|].
  - unfold dispatch_attempt_consumed. rewrite Ht'. simpl. unfold attempt_consumed. simpl.
    by rewrite N.eqb_refl, orb_true_r.
  - subst reload. simpl. unfold merge_table. by rewrite lookup_union_with, insert_changed_lookup, Ho, Hrow.
Qed.
End Lossless.

(** ** The theorems on concrete cycles *)

(** A first cycle whose batch arrives out of order, then one that starts a task. *)
Definition sample_batch1 : list OrchestrationEvent :=
  [sample_planned; sample_trigger; sample_dispatch "03" "a" 1].
Definition sample_cycle1 : option FoldState * list FoldState :=
  compact_events "secret" false None [] sample_batch1.
Definition sample_batch2 : list OrchestrationEvent :=
  [sample_finish "05" "a" 1 OutSucceeded; sample_start "04" "a" 1].
Definition sample_cycle2 : option FoldState * list FoldState :=
  compact_events "secret" false sample_cycle1.1 sample_cycle1.2 sample_batch2.


(** The dispatch carries a higher id than the start that follows it. *)
Definition sample_skewed : FoldState :=
  fold_events sample_new [sample_trigger; sample_planned; sample_dispatch "09" "a" 1].

Lemma late_event_lost_witness :
  exists t, fs_tasks (merge_states sample_skewed
      (delta_from_states sample_skewed (fold_event sample_skewed (sample_start "04" "a" 1)))) !!
      ("r", "a") = Some t /\ tk_state t = TsDispatched.
Proof.
  take (fs_tasks sample_skewed !! ("r", "a")) as t with Ht.
  take (fs_tasks (fold_event sample_skewed (sample_start "04" "a" 1)) !! ("r", "a")) as t' with Ht'.
  exists t. split.
  - refine (proj1 (late_event_lost sample_skewed (sample_start "04" "a" 1) ("r", "a") t t' Ht Ht' _ _)).
    + assert (tk_row_version <$> fs_tasks sample_skewed !! ("r", "a") = Some "09") as Hv by (vm_compute; reflexivity).
      assert (tk_row_version <$> fs_tasks (fold_event sample_skewed (sample_start "04" "a" 1)) !! ("r", "a")
              = Some "04") as Hv' by (vm_compute; reflexivity).
      rewrite Ht in Hv. rewrite Ht' in Hv'. injection Hv as ->. injection Hv' as ->. reflexivity.
    + by_computation.
  - assert (tk_state <$> fs_tasks sample_skewed !! ("r", "a") = Some TsDispatched) as Hs by (vm_compute; reflexivity).
    rewrite Ht in Hs. by injection Hs.
Defined.

Definition sample_dispatched : FoldState :=
  fold_events sample_new [sample_trigger; sample_planned; sample_dispatch "03" "a" 1].

Lemma consumed_dispatch_witness :
  is_Some (fs_dispatch_outbox (merge_states sample_dispatched
    (delta_from_states sample_dispatched (fold_event sample_dispatched (sample_start "04" "a" 1)))) !!
    dispatch_id "r" "a" 1).
Proof.
  take (fs_tasks sample_dispatched !! ("r", "a")) as t with Ht.
  take (fs_dispatch_outbox sample_dispatched !! dispatch_id "r" "a" 1) as row with Hrow.
  assert ((fun t => (tk_state t, tk_attempt t, tk_attempt_id t)) <$>
          fs_tasks sample_dispatched !! ("r", "a") = Some (TsDispatched, 1%N, Some "a1")) as Hs
    by (vm_compute; reflexivity).
  rewrite Ht in Hs. injection Hs as Hst Hn Haid.
  destruct (consumed_dispatch_reappears sample_dispatched (sample_start "04" "a" 1) "r" "a" 1 "a1" "worker"
    t row) as (_ & _ & Hr);
    [reflexivity|by_computation|exact Ht|exact Hst|exact Hn|exact Haid|exact Hrow|by exists row].
Defined.

(** ** The loaded state *)

(** ** The rebuilt graph *)

Lemma push_unique_elem key x m key' y :
  y ∈ default [] (push_entry_unique key x m !! key') <->
  y ∈ default [] (m !! key') \/ (key' = key /\ y = x).
Proof.
  unfold push_entry_unique. destruct (decide (key' = key)) as [->|Hk].
  - rewrite lookup_insert_eq. simpl. case_decide.
    + naive_solver.
    + rewrite elem_of_app, list_elem_of_singleton. naive_solver.
  - rewrite lookup_insert_ne by done. naive_solver.
Qed.

Lemma push_unique_NoDup key x m :
  (forall key', NoDup (default [] (m !! key'))) ->
  forall key', NoDup (default [] (push_entry_unique key x m !! key')).
Proof.
  intros Hm key'. unfold push_entry_unique. destruct (decide (key' = key)) as [->|Hk].
  - rewrite lookup_insert_eq. simpl. case_decide; [done|].
    apply NoDup_app. split_and!; [done| |apply NoDup_singleton].
    intros y Hy ->%list_elem_of_singleton. done.
  - by rewrite lookup_insert_ne.
Qed.

Lemma rebuild_edges_elem l s r u d :
  d ∈ dependents (fold_left rebuild_edge l s) r u <->
  d ∈ dependents s r u \/
  exists e, e ∈ l /\ dp_run_id e = r /\ dp_upstream_task_key e = u /\ dp_downstream_task_key e = d.
Proof.
  revert s. induction l as [|x l IH]; intros s; simpl.
  - split; [by left|]. intros [|(e & He & _)]; [done|]. by apply elem_of_nil in He.
  - rewrite IH. unfold dependents at 1. simpl. rewrite push_unique_elem.
    setoid_rewrite elem_of_cons. unfold dependents. naive_solver.
Qed.

Lemma rebuild_edges_NoDup l s :
  (forall r u, NoDup (dependents s r u)) -> forall r u, NoDup (dependents (fold_left rebuild_edge l s) r u).
Proof.
  revert s. induction l as [|x l IH]; intros s Hs r u; simpl; [done|].
  apply IH. intros r' u'. unfold dependents. simpl. apply push_unique_NoDup.
  intros [r'' u'']. apply Hs.
Qed.

Lemma rebuild_tables s :
  fs_runs (rebuild_dependency_graph s) = fs_runs s /\
  fs_tasks (rebuild_dependency_graph s) = fs_tasks s /\
  fs_dep_satisfaction (rebuild_dependency_graph s) = fs_dep_satisfaction s.
Proof.
  destruct (rebuild_core s) as (_ & _ & Hc).
  split_and!; [exact (f_equal fs_runs Hc)|exact (f_equal fs_tasks Hc)|exact (f_equal fs_dep_satisfaction Hc)].
Qed.

(** The rebuilt graph has an edge for every edge row, once. *)
Lemma rebuild_dependents s r u d :
  (forall r u d e, fs_dep_satisfaction s !! (r, u, d) = Some e ->
     dp_run_id e = r /\ dp_upstream_task_key e = u /\ dp_downstream_task_key e = d) ->
  d ∈ dependents (rebuild_dependency_graph s) r u <-> is_Some (fs_dep_satisfaction s !! (r, u, d)).
Proof.
  intros Hk. unfold rebuild_dependency_graph. rewrite rebuild_edges_elem.
  unfold dependents at 1. simpl. rewrite lookup_empty. simpl. split.
  - intros [Hd|(e & He & <- & <- & <-)]; [by apply elem_of_nil in Hd|].
    apply list_elem_of_fmap in He as ([[[r' u'] d'] e'] & -> & He). apply elem_of_map_to_list in He.
    simpl. destruct (Hk _ _ _ _ He) as (-> & -> & ->). by eexists.
  - intros [e He]. right. exists e. split; [|by apply Hk].
    apply list_elem_of_fmap. exists ((r, u, d), e). split; [done|]. by apply elem_of_map_to_list.
Qed.

(** ** The invariant of a loaded state *)

(** The invariant speaks of the runs, the tasks, the edge rows, and which edges
    the graph has. *)
Lemma inv_ext s s' :
  fs_runs s' = fs_runs s -> fs_tasks s' = fs_tasks s -> fs_dep_satisfaction s' = fs_dep_satisfaction s ->
  (forall r u d, d ∈ dependents s' r u <-> is_Some (fs_dep_satisfaction s !! (r, u, d))) ->
  Inv s -> Inv s'.
Proof.
  intros Hr Ht Hd Hg [[B1 B2 B3 B4 B5 B6 B7 B8 B9] Hs Hw]. split.
  - split; unfold run_count in *; rewrite ?Hr, ?Ht, ?Hd; try done.
    + intros r rn Hrn. destruct (B4 r rn Hrn). split; unfold run_count in *; by rewrite Ht.
    + intros r d t Htk. destruct (B8 r d t Htk). split; unfold edge_count in *; by rewrite ?Hd.
  - unfold runs_ok. by rewrite Hr.
  - unfold woken. by rewrite Ht, Hd.
Qed.

Lemma inv_rebuild s : Inv s -> Inv (rebuild_dependency_graph s).
Proof.
  intros I. destruct (rebuild_tables s) as (Hr & Ht & Hd). apply (inv_ext s); try done.
  intros r u d. apply rebuild_dependents, (inv_edge_key s (inv_base s I)).
Qed.

(** The invariant of the tables, whatever graph comes with them. *)
Lemma inv_live s s' :
  live_tables s' = live_tables s -> Inv s -> Inv (rebuild_dependency_graph s').
Proof.
  intros Hl I. destruct (rebuild_tables s') as (Hr & Ht & Hd).
  pose proof (f_equal fs_runs Hl) as Er. pose proof (f_equal fs_tasks Hl) as Et.
  pose proof (f_equal fs_dep_satisfaction Hl) as Ed. simpl in *.
  apply (inv_ext s); [congruence..| |done]. intros r u d. rewrite rebuild_dependents.
  - by rewrite Ed.
  - intros. rewrite Ed in *. by eapply (inv_edge_key s (inv_base s I)).
Qed.

Section Loaded.
Context `{Hashes} `{Chrono} `{SerdeJson}.

Lemma inv_fold_events s es : Forall event_wf es -> Inv s -> Inv (fold_events s es).
Proof. intros Hwf. apply inv_steps. by apply fold_events_micro. Qed.

Lemma inv_frame s s' : same_core s s' -> Inv s -> Inv s'.
Proof.
  intros Hc [B S W]. split; [by eapply base_same_core|by eapply runs_ok_same_core|by eapply woken_same_core].
Qed.

Lemma inv_load P secret w base deltas :
  (forall e, P e -> event_wf e) -> cycles P secret w base deltas ->
  Inv (load_current_state base deltas).
Proof.
  intros HP. induction 1 as [w|w base deltas batch merge base' deltas' Hcy IH Hb Hf Hc].
  - change (load_current_state None []) with (rebuild_dependency_graph (fold_state_new "")).
    apply inv_rebuild, inv_new.
  - pose proof (stored_compact w secret merge base deltas batch base' deltas'
      (cycles_versions _ _ _ _ _ Hcy) Hb Hc) as Hs. cbv zeta in Hs.
    set (s := (load_current_state base deltas) <| fs_tenant_secret := secret |>) in *.
    assert (Inv (fold_batch s batch)) as I.
    { eapply inv_frame; [|apply (inv_fold_events s (sort_events batch))].
      - by split.
      - rewrite sort_events_perm. eapply Forall_impl; [exact Hf|done].
      - eapply inv_frame; [|exact IH]. by split. }
    unfold load_current_state. fold (stored_state base' deltas').
    apply (inv_live (fold_batch s batch)); [|done].
    transitivity (live_tables (stored_state base' deltas')).
    + destruct (retention_reference_time_for_state (stored_state base' deltas')) as [d|]; [|reflexivity]. by destruct (pruned_live _ _ (pruned_prune d (stored_state base' deltas'))).
    + rewrite Hs. by destruct merge.
Qed.


(** The dependency graph is recovered.  Rebuilding the graph of a reachable
    state from its edge rows gives every task the dependents it had, each of them
    once, so that a completion after a reload wakes the same tasks. *)
Theorem rebuild_recovers_graph s r u :
  reachable s ->
  NoDup (get_dependents (rebuild_dependency_graph s) r u) /\
  forall d, d ∈ get_dependents (rebuild_dependency_graph s) r u <-> d ∈ get_dependents s r u.
Proof.
  intros Hre. pose proof (inv_base s (reachable_inv s Hre)) as B. split.
  - apply rebuild_edges_NoDup. intros r' u'. unfold dependents. simpl.
    rewrite lookup_empty. apply NoDup_nil_2.
  - intros d. etrans; [|symmetry; apply (inv_graph s B)].
    apply rebuild_dependents, (inv_edge_key s B).
Qed.
End Loaded.


Lemma rebuild_graph_witness :
  "c" ∈ get_dependents (rebuild_dependency_graph sample_state) "r" "b".
Proof.
  apply (rebuild_recovers_graph sample_state "r" "b" sample_reachable). by_computation.
Defined.
