(* ===== verification/Manifest.v ===== *)
(** The orchestration manifest ([compactor/manifest.rs]) and what a compaction
    cycle makes of it ([compactor/service.rs]).

    The manifest names the base snapshot and the L0 deltas, carries the watermarks
    and is published as one of a chain of immutable snapshots.  [Utc::now()] is
    [utc_now]; ULIDs are arguments. *)

From S2P Require Import Prelude Events FoldTypes FoldTasks Fold Compactor.
From stdpp Require Import options.

(** ** Results *)

(** [Result<A, String>] *)
Inductive result (A : Type) :=
  | Ok (a : A)
  | Err (message : string).
Arguments Ok {A} a.
Arguments Err {A} message.

Definition result_bind {A B} (r : result A) (f : A -> result B) : result B :=
  match r with Ok a => f a | Err message => Err message end.
Notation "x <-? r ; k" := (result_bind r (fun x => k))
  (at level 60, r at next level, right associativity) : arco_scope.

(** ** Manifest identifiers *)

Definition MANIFEST_ID_WIDTH : nat := 20.
Definition INITIAL_MANIFEST_ID : string := "00000000000000000000".

(** [format!("{value:0MANIFEST_ID_WIDTH$}")] *)
Definition format_manifest_id (value : u64) : string :=
  let digits := pretty value in
  zeros (MANIFEST_ID_WIDTH - String.length digits) +:+ digits.

Definition invalid_manifest_id (manifest_id reason : string) : string :=
  "invalid manifest_id '" +:+ manifest_id +:+ "': " +:+ reason.

Definition parse_manifest_id (manifest_id : string) : result u64 :=
  if negb (Nat.eqb (String.length manifest_id) MANIFEST_ID_WIDTH) ||
     negb (all_bytes_at (fun _ c => is_ascii_digit c) 0 manifest_id)
  then Err (invalid_manifest_id manifest_id "expected 20 decimal digits")
  else
    match parse_digits manifest_id with
    | Some n =>
        if (n <=? u64_max)%N then Ok n
        else Err (invalid_manifest_id manifest_id
                    "cannot parse as u64 (number too large to fit in target type)")
    | None => Err (invalid_manifest_id manifest_id
                     "cannot parse as u64 (invalid digit found in string)")
    end.

Definition next_manifest_id (previous : string) : result string :=
  previous <-? parse_manifest_id previous;
  if (previous + 1 <=? u64_max)%N then Ok (format_manifest_id (previous + 1))
  else Err "manifest_id overflow while generating successor".

(** ** Data *)

Inductive TableArtifact :=
  | ArtLegacy (path : string)
  | ArtMetadata (path checksum_sha256 : string) (byte_size : u64).

Definition artifact_path (a : TableArtifact) : string :=
  match a with ArtLegacy path => path | ArtMetadata path _ _ => path end.

Record TablePaths := mkTablePaths {
  tp_runs : option TableArtifact;
  tp_tasks : option TableArtifact;
  tp_catalog_run_index_by_org : gmap string TableArtifact;
  tp_dep_satisfaction : option TableArtifact;
  tp_timers : option TableArtifact;
  tp_dispatch_outbox : option TableArtifact;
  tp_sensor_state : option TableArtifact;
  tp_sensor_evals : option TableArtifact;
  tp_run_key_index : option TableArtifact;
  tp_run_key_conflicts : option TableArtifact;
  tp_partition_status : option TableArtifact;
  tp_idempotency_keys : option TableArtifact;
  tp_schedule_definitions : option TableArtifact;
  tp_schedule_state : option TableArtifact;
  tp_schedule_ticks : option TableArtifact;
  tp_backfills : option TableArtifact;
  tp_backfill_chunks : option TableArtifact
}.

Definition table_paths_default : TablePaths :=
  mkTablePaths None None ∅ None None None None None None None None None None None None None None.

Record EventRange := mkEventRange {
  er_from_event : string;
  er_to_event : string;
  er_event_count : u32
}.

Record RowCounts := mkRowCounts {
  rw_runs : u32;
  rw_tasks : u32;
  rw_catalog_run_index : u32;
  rw_dep_satisfaction : u32;
  rw_timers : u32;
  rw_dispatch_outbox : u32;
  rw_sensor_state : u32;
  rw_sensor_evals : u32;
  rw_run_key_index : u32;
  rw_run_key_conflicts : u32;
  rw_partition_status : u32;
  rw_idempotency_keys : u32;
  rw_schedule_definitions : u32;
  rw_schedule_state : u32;
  rw_schedule_ticks : u32;
  rw_backfills : u32;
  rw_backfill_chunks : u32
}.

(** [RowCounts::total] *)
Definition row_counts_total (c : RowCounts) : u32 :=
  fold_left u32_add
    [rw_tasks c; rw_catalog_run_index c; rw_dep_satisfaction c; rw_timers c; rw_dispatch_outbox c;
     rw_sensor_state c; rw_sensor_evals c; rw_run_key_index c; rw_run_key_conflicts c;
     rw_partition_status c; rw_idempotency_keys c; rw_schedule_definitions c; rw_schedule_state c;
     rw_schedule_ticks c; rw_backfills c; rw_backfill_chunks c] (rw_runs c).

(** The counts of a delta. *)
Definition row_counts_of (d : FoldState) : RowCounts :=
  mkRowCounts (u32_of_len (size (fs_runs d))) (u32_of_len (size (fs_tasks d)))
    (u32_of_len (size (fs_catalog_run_index d))) (u32_of_len (size (fs_dep_satisfaction d)))
    (u32_of_len (size (fs_timers d))) (u32_of_len (size (fs_dispatch_outbox d)))
    (u32_of_len (size (fs_sensor_state d))) (u32_of_len (size (fs_sensor_evals d)))
    (u32_of_len (size (fs_run_key_index d))) (u32_of_len (size (fs_run_key_conflicts d)))
    (u32_of_len (size (fs_partition_status d))) (u32_of_len (size (fs_idempotency_keys d)))
    (u32_of_len (size (fs_schedule_definitions d))) (u32_of_len (size (fs_schedule_state d)))
    (u32_of_len (size (fs_schedule_ticks d))) (u32_of_len (size (fs_backfills d)))
    (u32_of_len (size (fs_backfill_chunks d))).

Record L0Delta := mkL0Delta {
  ld_delta_id : string;
  ld_created_at : DateTime;
  ld_event_range : EventRange;
  ld_tables : TablePaths;
  ld_row_counts : RowCounts
}.

Record L0Limits := mkL0Limits {
  lm_max_count : u32;
  lm_max_rows : u32;
  lm_max_age_seconds : u32
}.

Definition l0_limits_default : L0Limits := mkL0Limits 10 100000 300.

Record BaseSnapshot := mkBaseSnapshot {
  bs_snapshot_id : option string;
  bs_published_at : DateTime;
  bs_tables : TablePaths
}.

Record Watermarks := mkWatermarks {
  wm_last_committed_event_id : option string;
  wm_last_visible_event_id : option string;
  wm_events_processed_through : option string;
  wm_last_processed_file : option string;
  wm_last_processed_at : DateTime
}.

Record OrchestrationManifest := mkOrchestrationManifest {
  mf_manifest_id : string;
  mf_epoch : u64;
  mf_previous_manifest_path : option string;
  mf_schema_version : u32;
  mf_revision_ulid : string;
  mf_published_at : DateTime;
  mf_watermarks : Watermarks;
  mf_base_snapshot : BaseSnapshot;
  mf_l0_deltas : list L0Delta;
  mf_l0_count : u32;
  mf_l0_limits : L0Limits
}.
#[export] Instance OrchestrationManifest_eta : Eta OrchestrationManifest := fun m =>
  mkOrchestrationManifest (mf_manifest_id m) (mf_epoch m) (mf_previous_manifest_path m)
    (mf_schema_version m) (mf_revision_ulid m) (mf_published_at m) (mf_watermarks m)
    (mf_base_snapshot m) (mf_l0_deltas m) (mf_l0_count m) (mf_l0_limits m).

Record OrchestrationManifestPointer := mkOrchestrationManifestPointer {
  mp_manifest_id : string;
  mp_manifest_path : string;
  mp_epoch : u64;
  mp_parent_pointer_hash : option string;
  mp_updated_at : DateTime
}.

Inductive DurabilityMode := DurVisible | DurPersisted.

#[export] Instance DurabilityMode_eq_dec : EqDecision DurabilityMode.
Proof. solve_decision. Defined.

(** The Unix epoch, the default of [DateTime<Utc>]. *)
Definition watermarks_default : Watermarks := mkWatermarks None None None None 0.

Definition base_snapshot_default : BaseSnapshot := mkBaseSnapshot None 0 table_paths_default.

(** ** Succession *)

Definition manifest_validate_succession (next previous : OrchestrationManifest) : result unit :=
  previous_manifest_id <-? parse_manifest_id (mf_manifest_id previous);
  next_manifest_id <-? parse_manifest_id (mf_manifest_id next);
  if (next_manifest_id <=? previous_manifest_id)%N then
    Err ("manifest_id did not advance: " +:+ mf_manifest_id previous +:+ " -> " +:+
         mf_manifest_id next)
  else if (mf_epoch next <? mf_epoch previous)%N then
    Err ("epoch regression: " +:+ pretty (mf_epoch previous) +:+ " -> " +:+
         pretty (mf_epoch next) +:+ " (stale holder)")
  else Ok tt.

Definition pointer_validate_succession (next previous : OrchestrationManifestPointer)
    (previous_raw_hash : string) : result unit :=
  previous_manifest_id <-? parse_manifest_id (mp_manifest_id previous);
  next_manifest_id <-? parse_manifest_id (mp_manifest_id next);
  if (next_manifest_id <=? previous_manifest_id)%N then
    Err ("pointer manifest_id did not advance: " +:+ mp_manifest_id previous +:+ " -> " +:+
         mp_manifest_id next)
  else if (mp_epoch next <? mp_epoch previous)%N then
    Err ("pointer epoch regression: " +:+ pretty (mp_epoch previous) +:+ " -> " +:+
         pretty (mp_epoch next) +:+ " (stale holder)")
  else
    match mp_parent_pointer_hash next with
    | Some parent_pointer_hash =>
        if String.eqb parent_pointer_hash previous_raw_hash then Ok tt
        else Err ("parent pointer hash mismatch: expected " +:+ previous_raw_hash +:+ ", got " +:+
                  parent_pointer_hash)
    | None => Err "missing parent_pointer_hash for pointer succession"
    end.

(** ** Replay paths of a rebuild *)

Definition replay_floor_event_id (w : Watermarks) : option string :=
  option_or (wm_last_visible_event_id w)
    (option_or (wm_events_processed_through w) (wm_last_committed_event_id w)).

(** [dedup.entry(id).or_insert_with(|| path)] on a [BTreeMap], its entries in key
    order. *)
Fixpoint btree_or_insert (id path : string) (m : list (string * string)) : list (string * string) :=
  match m with
  | [] => [(id, path)]
  | (id', path') :: rest =>
      match String.compare id id' with
      | Lt => (id, path) :: m
      | Eq => m
      | Gt => (id', path') :: btree_or_insert id path rest
      end
  end.

Fixpoint select_paths (floor : option string) (event_paths : list string)
    (dedup : list (string * string)) : result (list (string * string)) :=
  match event_paths with
  | [] => Ok dedup
  | path :: rest =>
      match event_id_from_ledger_path path with
      | None => Err ("invalid orchestration ledger path for rebuild: '" +:+ path +:+ "'")
      | Some event_id =>
          if option_bool (fun floor => str_leb event_id floor) floor
          then select_paths floor rest dedup
          else select_paths floor rest (btree_or_insert event_id path dedup)
      end
  end.

Definition select_rebuild_event_paths (event_paths : list string) (w : Watermarks) :
    result (list string) :=
  dedup <-? select_paths (replay_floor_event_id w) event_paths [];
  Ok (snd <$> dedup).

(** ** Watermarks and limits *)

Section Clock.
Context `{Chrono}.

(** [Watermarks::is_fresh] *)
Definition is_fresh (w : Watermarks) (max_lag : Z) : bool :=
  (utc_now - wm_last_processed_at w <=? max_lag)%Z.

Definition manifest_new (revision_ulid : string) : OrchestrationManifest :=
  mkOrchestrationManifest INITIAL_MANIFEST_ID 0 None 1 revision_ulid utc_now watermarks_default
    base_snapshot_default [] 0 l0_limits_default.

(** The rows of the L0 deltas. *)
Definition l0_total_rows (deltas : list L0Delta) : N :=
  fold_left (fun acc delta => acc + row_counts_total (ld_row_counts delta))%N deltas 0%N.

Definition should_compact_l0 (m : OrchestrationManifest) : bool :=
  if (lm_max_count (mf_l0_limits m) <=? mf_l0_count m)%N then true
  else if (lm_max_rows (mf_l0_limits m) <=? l0_total_rows (mf_l0_deltas m))%N then true
  else
    let max_age := (Z.of_N (lm_max_age_seconds (mf_l0_limits m)) * 1000000000)%Z in
    existsb (fun delta => (max_age <=? utc_now - ld_created_at delta)%Z) (mf_l0_deltas m).

(** [update_watermarks] of [service.rs]; events with their ledger paths. *)
Definition update_watermarks (m : OrchestrationManifest)
    (events : list (string * OrchestrationEvent)) (last_event_id : string)
    (durability_mode : DurabilityMode) : OrchestrationManifest * bool :=
  if bool_decide (events = []) then (m, false)
  else
    let should_advance_committed :=
      match wm_last_committed_event_id (mf_watermarks m) with
      | None => true
      | Some current => str_ltb current last_event_id
      end in
    if negb should_advance_committed then (m, false)
    else
      let last_path := fst <$> last events in
      let previous_visible := wm_last_visible_event_id (mf_watermarks m) in
      let next_visible :=
        if decide (durability_mode = DurVisible) then Some last_event_id else previous_visible in
      (m <| mf_watermarks :=
              mkWatermarks (Some last_event_id) next_visible next_visible last_path utc_now |>, true).

(** ** A cycle's new manifest *)

(** [should_merge_to_base]: would one more delta reach a limit? *)
Definition should_merge_to_base (m : OrchestrationManifest) (has_delta : bool)
    (event_range : EventRange) (row_counts : RowCounts) : bool :=
  if has_delta then
    let pending := mkL0Delta "pending" utc_now event_range table_paths_default row_counts in
    should_compact_l0
      (m <| mf_l0_deltas := mf_l0_deltas m ++ [pending] |>
         <| mf_l0_count := u32_add (mf_l0_count m) 1 |>)
  else should_compact_l0 m.

(** What the batch left in the object store. *)
Record Written := mkWritten {
  wr_snapshot_id : string;
  wr_base_tables : TablePaths;
  wr_delta_id : string;
  wr_delta_tables : TablePaths
}.

(** The storage part: a new base, one more delta, or nothing. *)
Definition advance_storage (m : OrchestrationManifest) (has_delta : bool)
    (event_range : EventRange) (row_counts : RowCounts) (wr : Written) :
    OrchestrationManifest * bool :=
  if should_merge_to_base m has_delta event_range row_counts then
    (m <| mf_base_snapshot := mkBaseSnapshot (Some (wr_snapshot_id wr)) utc_now (wr_base_tables wr) |>
       <| mf_l0_deltas := [] |> <| mf_l0_count := 0%N |>,
     negb (bool_decide (length (mf_l0_deltas m) = 0)) || has_delta)
  else if has_delta then
    (m <| mf_l0_deltas :=
            mf_l0_deltas m ++ [mkL0Delta (wr_delta_id wr) utc_now event_range (wr_delta_tables wr)
                                 row_counts] |>
       <| mf_l0_count := u32_add (mf_l0_count m) 1 |>, true)
  else (m, false).

(** The publication part: identifier, parent, epoch and revision. *)
Definition advance_identity (m : OrchestrationManifest)
    (previous_pointer : option OrchestrationManifestPointer) (fencing_token : option u64)
    (new_revision : string) : result OrchestrationManifest :=
  manifest_id <-? next_manifest_id (mf_manifest_id m);
  let pointer_epoch := match previous_pointer with Some p => mp_epoch p | None => 0%N end in
  let epoch := N.max (mf_epoch m) pointer_epoch in
  let epoch := match fencing_token with Some token => N.max epoch token | None => epoch end in
  Ok (m <| mf_manifest_id := manifest_id |>
        <| mf_previous_manifest_path := mp_manifest_path <$> previous_pointer |>
        <| mf_epoch := epoch |> <| mf_revision_ulid := new_revision |>
        <| mf_published_at := utc_now |>).

(** The manifest a cycle publishes, [None] when nothing changed. *)
Definition cycle_manifest (m : OrchestrationManifest) (delta_state : FoldState)
    (events : list (string * OrchestrationEvent)) (durability_mode : DurabilityMode)
    (previous_pointer : option OrchestrationManifestPointer) (fencing_token : option u64)
    (wr : Written) (new_revision : string) : result (option OrchestrationManifest) :=
  let has_delta := negb (delta_state_is_empty delta_state) in
  let first_event := default "" ((fun e => ev_event_id e.2) <$> head events) in
  let last_event := default "" ((fun e => ev_event_id e.2) <$> last events) in
  let event_range := mkEventRange first_event last_event (u32_of_len (length events)) in
  let '(m, storage_changed) :=
    advance_storage m has_delta event_range (row_counts_of delta_state) wr in
  let '(m, watermark_changed) := update_watermarks m events last_event durability_mode in
  if storage_changed || watermark_changed then
    m <-? advance_identity m previous_pointer fencing_token new_revision;
    Ok (Some m)
  else Ok None.
End Clock.
