(* ===== verification/ManifestProps.v ===== *)
(** Manifests: identifiers, succession, limits and replay.

    Manifest identifiers round-trip, a cycle publishes a legal successor whose
    watermarks do not go back and whose L0 stays below its limits, and a rebuild
    replays each event above the floor once, in id order. *)

From S2P Require Import Prelude Events FoldTypes FoldTasks FoldDispatch FoldAutomation Fold Merge FoldVersions Compactor Manifest Sample.
From Stdlib Require Import Sorted.
From stdpp Require Import options.

(** ** Decimal strings of a fixed width *)

Lemma digit_value_lt c d : digit_value c = Some d -> (d < 10)%N.
Proof.
  unfold digit_value. destruct ((48 <=? N_of_ascii c)%N && (N_of_ascii c <=? 57)%N) eqn:E; [|done].
  intros [= <-]. bool_hyps. rewrite N.leb_le in *. lia.
Qed.

Lemma digit_value_inj c c' d : digit_value c = Some d -> digit_value c' = Some d -> c = c'.
Proof.
  unfold digit_value.
  destruct ((48 <=? N_of_ascii c)%N && (N_of_ascii c <=? 57)%N) eqn:E; [|done].
  destruct ((48 <=? N_of_ascii c')%N && (N_of_ascii c' <=? 57)%N) eqn:E'; [|done].
  intros [= <-] [= Hd]. bool_hyps. rewrite N.leb_le in *.
  rewrite <- (ascii_N_embedding c), <- (ascii_N_embedding c'). f_equal. lia.
Qed.

Lemma parse_digits_go_inj s s' a a' n :
  String.length s = String.length s' ->
  parse_digits_go s a = Some n -> parse_digits_go s' a' = Some n -> a = a' /\ s = s'.
Proof.
  revert s' a a'. induction s as [|c s IH]; intros [|c' s'] a a' Hl; try done; simpl in *.
  - intros [= <-] [= <-]. done.
  - destruct (digit_value c) as [d|] eqn:Ed; [|done]. destruct (digit_value c') as [d'|] eqn:Ed'; [|done].
    intros H1 H2. destruct (IH s' (a * 10 + d)%N (a' * 10 + d')%N) as [Ha ->]; [lia|done|done|].
    pose proof (digit_value_lt _ _ Ed). pose proof (digit_value_lt _ _ Ed').
    assert (d = d') as -> by lia. split; [lia|]. f_equal. by eapply digit_value_inj.
Qed.

Lemma zeros_length n : String.length (zeros n) = n.
Proof. induction n; simpl; congruence. Qed.

Lemma pretty_go_length k x s :
  (x < 10 ^ N.of_nat k)%N -> String.length (pretty_N_go x s) <= k + String.length s.
Proof.
  revert x s. induction k as [|k IH]; intros x s Hx.
  - simpl in Hx. replace x with 0%N by lia. by rewrite pretty_N_go_0.
  - destruct (decide (x = 0)%N) as [->|]; [rewrite pretty_N_go_0; lia|].
    rewrite pretty_N_go_step by lia. etrans; [apply IH|simpl; lia].
    rewrite Nat2N.inj_succ, N.pow_succ_r' in Hx. apply N.Div0.div_lt_upper_bound. lia.
Qed.

Lemma pretty_length k n : 0 < k -> (n < 10 ^ N.of_nat k)%N -> String.length (pretty n) <= k.
Proof.
  intros Hk Hn. unfold pretty, pretty_N. case_decide; [simpl; lia|].
  etrans; [by apply (pretty_go_length k)|simpl; lia].
Qed.

Lemma all_bytes_digits s i : all_digits s -> all_bytes_at (fun _ c => is_ascii_digit c) i s = true.
Proof.
  revert i. induction s as [|c s IH]; intros i Hs; simpl; [done|]. apply andb_true_iff. split.
  - destruct (Hs c) as [d Hd]; [simpl; by rewrite bool_decide_true|].
    unfold is_ascii_digit. unfold digit_value in Hd. by destruct (_ && _).
  - apply IH. intros c' Hc'. apply Hs. simpl. by rewrite Hc', orb_true_r.
Qed.

Lemma all_digits_zeros n s : all_digits s -> all_digits (zeros n +:+ s).
Proof.
  induction n as [|n IH]; str_simpl; [done|]. intros Hs c. simpl.
  rewrite orb_true_iff, bool_decide_eq_true. intros [<-|Hc]; [done|by apply IH].
Qed.

Lemma format_manifest_id_length v : (v <= u64_max)%N -> String.length (format_manifest_id v) = 20.
Proof.
  intros Hv. unfold format_manifest_id. rewrite str_length_app, zeros_length.
  pose proof (pretty_length 20 v ltac:(lia)) as Hl.
  assert (v < 10 ^ N.of_nat 20)%N as Hlt by (unfold u64_max in Hv; simpl; lia).
  specialize (Hl Hlt). unfold MANIFEST_ID_WIDTH. lia.
Qed.

Lemma parse_digits_go_format v : parse_digits_go (format_manifest_id v) 0 = Some v.
Proof.
  unfold format_manifest_id. rewrite parse_digits_go_zeros.
  pose proof (parse_digits_pretty v) as Hp. unfold parse_digits in Hp.
  by destruct (str_is_empty (pretty v)).
Qed.

Lemma parse_format v : (v <= u64_max)%N -> parse_manifest_id (format_manifest_id v) = Ok v.
Proof.
  intros Hv. pose proof (format_manifest_id_length v Hv) as Hl. unfold parse_manifest_id.
  rewrite Hl, all_bytes_digits by (apply all_digits_zeros, all_digits_pretty). simpl.
  unfold parse_digits. destruct (format_manifest_id v) as [|c s] eqn:E; [done|]. simpl str_is_empty.
  cbv iota. rewrite <- E, parse_digits_go_format. by rewrite (proj2 (N.leb_le _ _) Hv).
Qed.

Lemma parse_manifest_id_Ok s v :
  parse_manifest_id s = Ok v -> (v <= u64_max)%N /\ format_manifest_id v = s.
Proof.
  unfold parse_manifest_id. destruct (negb _ || _) eqn:E; [done|]. bool_hyps.
  apply Nat.eqb_eq in H. unfold parse_digits.
  destruct (str_is_empty s) eqn:Es; [done|]. destruct (parse_digits_go s 0) as [n|] eqn:Ep; [|done].
  destruct (n <=? u64_max)%N eqn:El; [|done]. intros [= <-]. apply N.leb_le in El. split; [done|].
  apply (parse_digits_go_inj _ _ 0 0 n); [|apply parse_digits_go_format|done].
  by rewrite format_manifest_id_length.
Qed.

(** Manifest identifiers round-trip.  Every [u64] is written as exactly twenty
    digits that parse back to it, and every identifier that parses is the one its
    number is written as: the identifiers in use and the numbers correspond one to
    one. *)
Theorem manifest_id_roundtrip s v :
  parse_manifest_id s = Ok v <-> (v <= u64_max)%N /\ s = format_manifest_id v.
Proof.
  split.
  - intros Hp. by destruct (parse_manifest_id_Ok s v Hp).
  - intros [Hv ->]. by apply parse_format.
Qed.

(** ** A cycle's manifest *)

Section Cycle.
Context `{Chrono}.

(** The count is the number of deltas, and the deltas are below the limits. *)
Definition l0_ok (m : OrchestrationManifest) : Prop :=
  mf_l0_count m = N.of_nat (length (mf_l0_deltas m)) /\
  (mf_l0_deltas m = [] \/
   (mf_l0_count m < lm_max_count (mf_l0_limits m))%N /\
   (l0_total_rows (mf_l0_deltas m) < lm_max_rows (mf_l0_limits m))%N).

Lemma should_compact_l0_false m :
  should_compact_l0 m = false ->
  (mf_l0_count m < lm_max_count (mf_l0_limits m))%N /\
  (l0_total_rows (mf_l0_deltas m) < lm_max_rows (mf_l0_limits m))%N.
Proof.
  unfold should_compact_l0. do 2 (case_match; [done|]). intros _.
  by rewrite N.leb_gt in *.
Qed.

Lemma l0_total_rows_snoc l d :
  l0_total_rows (l ++ [d]) = (l0_total_rows l + row_counts_total (ld_row_counts d))%N.
Proof. unfold l0_total_rows. by rewrite fold_left_app. Qed.

Lemma advance_storage_ok m has_delta er rc wr m' b :
  (lm_max_count (mf_l0_limits m) <= u32_max)%N -> l0_ok m ->
  advance_storage m has_delta er rc wr = (m', b) -> l0_ok m' /\ mf_l0_limits m' = mf_l0_limits m.
Proof.
  intros Hmax [Hc Hl]. unfold advance_storage, should_merge_to_base.
  destruct has_delta.
  - destruct (should_compact_l0 _) eqn:E; intros [= <- <-]; [split; [split; [done|by left]|done]|].
    apply should_compact_l0_false in E as [E1 E2]. simpl in E1, E2.
    rewrite l0_total_rows_snoc in E2. simpl in E2.
    assert (mf_l0_count m + 1 < u32_modulus)%N as Hw.
    { destruct Hl as [Hnil|[Hl _]].
      - rewrite Hc, Hnil. unfold u32_modulus. simpl. lia.
      - unfold u32_max in Hmax. unfold u32_modulus. lia. }
    rewrite u32_add_small in E1 |- * by done.
    split; [|done]. split; simpl.
    + rewrite length_app, Hc. simpl. lia.
    + right. rewrite l0_total_rows_snoc. done.
  - destruct (should_compact_l0 m) eqn:E; intros [= <- <-]; [split; [split; [done|by left]|done]|].
    by split.
Qed.

Lemma update_watermarks_frame m events last_event mode m' b :
  update_watermarks m events last_event mode = (m', b) ->
  m' <| mf_watermarks := mf_watermarks m |> = m /\
  (b = true -> wm_last_committed_event_id (mf_watermarks m') = Some last_event /\
     forall current, wm_last_committed_event_id (mf_watermarks m) = Some current ->
       str_ltb current last_event = true) /\
  (b = false -> m' = m).
Proof.
  unfold update_watermarks. destruct m.
  case_bool_decide; [intros [= <- <-]; done|].
  simpl. destruct (wm_last_committed_event_id mf_watermarks) as [c|] eqn:Ec; simpl.
  - destruct (str_ltb c last_event) eqn:El; intros [= <- <-]; [|done].
    split_and!; [done| |done]. intros _. split; [done|]. intros ? [= <-]. done.
  - intros [= <- <-]. done.
Qed.

Lemma advance_identity_spec m p token rev m' :
  advance_identity m p token rev = Ok m' ->
  manifest_validate_succession m' m = Ok tt /\ mf_l0_deltas m' = mf_l0_deltas m /\
  mf_l0_count m' = mf_l0_count m /\ mf_l0_limits m' = mf_l0_limits m /\
  mf_watermarks m' = mf_watermarks m /\
  (forall t, token = Some t -> (t <= mf_epoch m')%N) /\
  (forall q, p = Some q -> (mp_epoch q <= mf_epoch m')%N).
Proof.
  unfold advance_identity, next_manifest_id. destruct (parse_manifest_id (mf_manifest_id m)) as [v|] eqn:Ep; [|done].
  simpl. destruct (v + 1 <=? u64_max)%N eqn:Ev; [|done]. intros [= <-]. apply N.leb_le in Ev.
  split_and!; try done; simpl.
  - unfold manifest_validate_succession. simpl. rewrite Ep. simpl. rewrite parse_format by done. simpl.
    rewrite (proj2 (N.leb_gt _ _)) by lia.
    rewrite (proj2 (N.ltb_ge _ _)); [done|]. destruct token; lia.
  - intros t ->. lia.
  - intros q ->. destruct token; lia.
Qed.

(** a cycle publishes a legal successor.  When a cycle changes the manifest, the
    one it publishes passes the succession check against the one it read, its epoch is
    at least the fencing token's and the pointer's, and the committed watermark is the
    old one or the batch's last event, never an older one. *)
Theorem cycle_manifest_succeeds m d events mode p token wr rev m' :
  cycle_manifest m d events mode p token wr rev = Ok (Some m') ->
  manifest_validate_succession m' m = Ok tt /\
  (forall t, token = Some t -> (t <= mf_epoch m')%N) /\
  (forall q, p = Some q -> (mp_epoch q <= mf_epoch m')%N) /\
  (forall current, wm_last_committed_event_id (mf_watermarks m) = Some current ->
     exists next, wm_last_committed_event_id (mf_watermarks m') = Some next /\
       str_leb current next = true).
Proof.
  unfold cycle_manifest.
  destruct (advance_storage m _ _ _ _) as [m1 b1] eqn:E1.
  destruct (update_watermarks m1 _ _ _) as [m2 b2] eqn:E2.
  destruct (b1 || b2); [|done].
  destruct (advance_identity m2 p token rev) as [m3|] eqn:E3; [|done]. simpl. intros [= <-].
  destruct (advance_identity_spec _ _ _ _ _ E3) as (Hs & _ & _ & _ & Hw & Ht & Hq).
  destruct (update_watermarks_frame _ _ _ _ _ _ E2) as (Hf & Hnew & Hsame).
  assert (mf_manifest_id m1 = mf_manifest_id m /\ mf_epoch m1 = mf_epoch m /\ mf_watermarks m1 = mf_watermarks m)
    as (Hid & He & Hw1).
  { unfold advance_storage in E1. repeat case_match; injection E1 as <- <-; done. }
  split_and!; [|done|done|].
  - revert Hs. unfold manifest_validate_succession. rewrite <- Hid, <- He, <- Hf. done.
  - intros current Hc. rewrite <- Hw1 in Hc. rewrite Hw. destruct b2.
    + destruct (Hnew eq_refl) as [-> Hlt]. eexists. split; [done|].
      specialize (Hlt _ Hc). unfold str_ltb in Hlt. apply negb_true_iff in Hlt. by apply str_leb_false.
    + rewrite (Hsame eq_refl), Hc. eexists. split; [done|]. apply str_leb_refl.
Qed.

(** L0 stays below its limits.  Whatever a batch changed, after the cycle the
    deltas are few and small: either none is left, or their number and their rows are
    strictly below the limits; and [l0_count] is their number, without wrapping. *)
Theorem cycle_manifest_l0_bounded m d events mode p token wr rev m' :
  (lm_max_count (mf_l0_limits m) <= u32_max)%N -> l0_ok m ->
  cycle_manifest m d events mode p token wr rev = Ok (Some m') -> l0_ok m'.
Proof.
  intros Hmax Hok. unfold cycle_manifest.
  destruct (advance_storage m _ _ _ _) as [m1 b1] eqn:E1.
  destruct (update_watermarks m1 _ _ _) as [m2 b2] eqn:E2.
  destruct (b1 || b2); [|done].
  destruct (advance_identity m2 p token rev) as [m3|] eqn:E3; [|done]. simpl. intros [= <-].
  destruct (advance_storage_ok _ _ _ _ _ _ _ Hmax Hok E1) as [Hok1 _].
  destruct (update_watermarks_frame _ _ _ _ _ _ E2) as (Hf & _ & _).
  destruct (advance_identity_spec _ _ _ _ _ E3) as (_ & Hd & Hc & Hl & _).
  unfold l0_ok. rewrite Hd, Hc, Hl. rewrite <- Hf in Hok1. exact Hok1.
Qed.
End Cycle.

(** ** Replay *)

Definition key_lt (a b : string * string) : Prop := str_leb b.1 a.1 = false.

Lemma compare_Lt_key a b : String.compare a b = Lt -> str_leb b a = false.
Proof. unfold str_leb, String.leb. intros Hc. by rewrite String.compare_antisym, Hc. Qed.

(** An insertion keeps the entries and adds one for a new key only. *)
Lemma btree_keys id path m k :
  k ∈ (fst <$> btree_or_insert id path m) <-> k = id \/ k ∈ (fst <$> m).
Proof.
  induction m as [|[id' path'] m IH]; simpl; [set_solver|].
  destruct (String.compare id id') eqn:E; simpl.
  - apply String.compare_eq_iff in E as ->. set_solver.
  - set_solver.
  - rewrite !elem_of_cons, IH. set_solver.
Qed.

Lemma btree_incl id path m x : x ∈ btree_or_insert id path m -> x = (id, path) \/ x ∈ m.
Proof.
  induction m as [|[id' path'] m IH]; simpl; [set_solver|].
  destruct (String.compare id id') eqn:E; simpl; rewrite ?elem_of_cons; [set_solver|set_solver|].
  intros [->|Hx]; [set_solver|]. destruct (IH Hx); set_solver.
Qed.

Lemma btree_sorted id path m :
  StronglySorted key_lt m -> StronglySorted key_lt (btree_or_insert id path m).
Proof.
  induction 1 as [|[id' path'] m Hs IH Hf]; simpl; [repeat constructor|].
  destruct (String.compare id id') eqn:E.
  - by constructor.
  - constructor; [by constructor|]. apply compare_Lt_key in E. constructor; [done|].
    eapply Forall_impl; [exact Hf|]. intros y Hy. unfold key_lt in *. simpl in *.
    destruct (str_leb y.1 id) eqn:Ey; [|done].
    rewrite (str_leb_trans _ _ _ Ey (str_leb_false _ _ E)) in Hy. done.
  - constructor; [done|]. apply Forall_forall. intros y Hy. apply str_leb_compare_gt in E.
    destruct (btree_incl _ _ _ _ Hy) as [->|Hm]; [done|]. by eapply Forall_forall in Hf.
Qed.

(** Above the floor of a replay. *)
Definition above (floor : option string) (id : string) : bool :=
  negb (option_bool (fun floor => str_leb id floor) floor).

(** What the selection knows of its entries. *)
Record selection (floor : option string) (paths : list string) (m : list (string * string)) : Prop := {
  sl_sorted : StronglySorted key_lt m;
  sl_paths : forall id p, (id, p) ∈ m -> p ∈ paths /\ event_id_from_ledger_path p = Some id;
  sl_ids : forall id, id ∈ (fst <$> m) <->
    above floor id = true /\ exists p, p ∈ paths /\ event_id_from_ledger_path p = Some id
}.

Lemma select_paths_spec floor done_ paths m out :
  selection floor done_ m -> select_paths floor paths m = Ok out ->
  selection floor (done_ ++ paths) out.
Proof.
  revert done_ m. induction paths as [|p paths IH]; intros done_ m Hs; simpl.
  - intros [= <-]. by rewrite app_nil_r.
  - destruct (event_id_from_ledger_path p) as [id|] eqn:Ep; [|done].
    replace (done_ ++ p :: paths) with ((done_ ++ [p]) ++ paths) by by rewrite <- app_assoc.
    destruct Hs as [S1 S2 S3].
    destruct (option_bool _ floor) eqn:Ef; intros Ho; eapply IH; try exact Ho; split.
    + done.
    + intros id' p' Hin. destruct (S2 _ _ Hin). set_solver.
    + intros id'. rewrite S3. split; intros [Ha (p' & Hp & He)].
      * split; [done|]. exists p'. set_solver.
      * split; [done|]. apply elem_of_app in Hp as [Hp|Hp%list_elem_of_singleton]; [by eauto|].
        subst. rewrite Ep in He. injection He as ->. unfold above in Ha. by rewrite Ef in Ha.
    + by apply btree_sorted.
    + intros id' p' [[= -> ->]|Hin]%btree_incl; [split; [set_solver|done]|].
      destruct (S2 _ _ Hin). set_solver.
    + intros id'. rewrite btree_keys, S3. split.
      * intros [->|[Ha (p' & Hp & He)]]; [|split; [done|exists p'; set_solver]].
        unfold above. rewrite Ef. split; [done|]. exists p. set_solver.
      * intros [Ha (p' & Hp & He)]. apply elem_of_app in Hp as [Hp|Hp%list_elem_of_singleton].
        -- right. eauto.
        -- subst. rewrite Ep in He. injection He as ->. by left.
Qed.

(** C34: a rebuild replays each event once, in id order.  The selected paths are
    given paths, their event ids strictly increase, and an id is selected exactly when
    it is above the floor and some given path carries it. *)
Theorem rebuild_replays_in_order paths w out :
  select_rebuild_event_paths paths w = Ok out ->
  exists ids,
    event_id_from_ledger_path <$> out = Some <$> ids /\
    StronglySorted (fun a b => str_leb b a = false) ids /\
    (forall p, p ∈ out -> p ∈ paths) /\
    (forall id, id ∈ ids <-> above (replay_floor_event_id w) id = true /\
       exists p, p ∈ paths /\ event_id_from_ledger_path p = Some id).
Proof.
  unfold select_rebuild_event_paths.
  destruct (select_paths (replay_floor_event_id w) paths []) as [m|] eqn:E; [|done].
  simpl. intros [= <-].
  destruct (select_paths_spec (replay_floor_event_id w) [] paths [] m) as [S1 S2 S3]; [|done|].
  { split; [constructor|set_solver|]. intros id. split; [set_solver|]. intros [_ (p & Hp & _)]. set_solver. }
  simpl in *. exists (fst <$> m). split_and!; [| | |done].
  - clear S1 S3 E. induction m as [|[id p] m IH]; [done|]. rewrite !fmap_cons. simpl.
    destruct (S2 id p) as [_ ->]; [by left|]. f_equal. apply IH. intros. apply S2. by right.
  - clear S2 S3 E. induction S1 as [|x m Hs IH Hf]; simpl; constructor; [done|].
    by apply Forall_fmap.
  - intros p (x & -> & Hx)%list_elem_of_fmap. destruct x as [id p]. by apply (S2 id p).
Qed.

(** ** The theorems on a concrete manifest *)

Definition sample_written : Written :=
  mkWritten "snap" table_paths_default "delta" table_paths_default.

(** The first cycle of a workspace. *)
Definition sample_cycle_manifest : result (option OrchestrationManifest) :=
  cycle_manifest (manifest_new "rev0") (delta_from_states sample_new sample_state)
    [("ledger/orchestration/2025-01-01/01.json", sample_trigger)] DurVisible None (Some 7%N)
    sample_written "rev1".

Lemma cycle_succeeds_witness :
  exists m', sample_cycle_manifest = Ok (Some m') /\
    manifest_validate_succession m' (manifest_new "rev0") = Ok tt /\ (7 <= mf_epoch m')%N.
Proof.
  destruct sample_cycle_manifest as [[m'|]|] eqn:Hm; [|vm_compute in Hm; discriminate..].
  exists m'. split; [done|].
  destruct (cycle_manifest_succeeds _ _ _ _ _ _ _ _ _ Hm) as (Hs & Ht & _).
  split; [exact Hs|]. by apply Ht.
Defined.

Lemma l0_bounded_witness : exists m', sample_cycle_manifest = Ok (Some m') /\ l0_ok m'.
Proof.
  destruct sample_cycle_manifest as [[m'|]|] eqn:Hm; [|vm_compute in Hm; discriminate..].
  exists m'. split; [done|].
  apply (cycle_manifest_l0_bounded _ _ _ _ _ _ _ _ _ (ltac:(vm_compute; discriminate)
    : (lm_max_count (mf_l0_limits (manifest_new "rev0")) <= u32_max)%N)
    (conj eq_refl (or_introl eq_refl) : l0_ok (manifest_new "rev0")) Hm).
Defined.

Lemma rebuild_replays_witness :
  exists ids, event_id_from_ledger_path <$>
      ["ledger/orchestration/2025-01-01/02.json"; "ledger/orchestration/2025-01-01/03.json"] =
    Some <$> ids /\ StronglySorted (fun a b => str_leb b a = false) ids.
Proof.
  destruct (rebuild_replays_in_order
    ["ledger/orchestration/2025-01-01/03.json"; "ledger/orchestration/2025-01-01/01.json";
     "ledger/orchestration/2025-01-01/02.json"; "ledger/orchestration/2025-01-02/03.json"]
    (mkWatermarks (Some "01") None None None 0)
    ["ledger/orchestration/2025-01-01/02.json"; "ledger/orchestration/2025-01-01/03.json"])
    as (ids & Hi & Hs & _); [reflexivity|].
  exists ids. split; [exact Hi|exact Hs].
Defined.
