(* ===== verification/ReadyDispatch.v ===== *)
(** The dispatch controllers.

    [controllers/ready_dispatch.rs] turns ready tasks into [DispatchRequested]
    events, [controllers/dispatcher.rs] turns pending outbox rows into Cloud Tasks.
    Both are pure functions of the tables and the watermark's freshness; the
    reconcile loops of the binaries append the events they yield. *)

From S2P Require Import Prelude Events FoldTypes FoldTasks FoldDispatch Fold Compactor Manifest.
From stdpp Require Import options.

Section Ids.
Context `{Hashes}.

(** [arco_worker_contract::deterministic_attempt_id] *)
Definition deterministic_attempt_id (dispatch_id : string) : string :=
  let hash := sha256 ("attempt:" +:+ dispatch_id) in
  let hex_encoded := hex_encode (default hash (str_get_to 12 hash)) in
  "att_" +:+ hex_encoded.
End Ids.

(** ** Ready tasks *)

Inductive ReadyDispatchAction :=
  | EmitDispatchRequested (run_id task_key : string) (attempt : u32)
      (attempt_id worker_queue dispatch_id : string)
  | ReadySkip (run_id task_key reason : string).

Definition into_event_data (action : ReadyDispatchAction) : option OrchestrationEventData :=
  match action with
  | EmitDispatchRequested run_id task_key attempt attempt_id worker_queue dispatch_id =>
      Some (DispatchRequested run_id task_key attempt attempt_id worker_queue dispatch_id)
  | ReadySkip _ _ _ => None
  end.

Record ReadyDispatchController := mkReadyDispatchController {
  rd_max_compaction_lag : Z;
  rd_worker_queue : string
}.

(** Five minutes, in nanoseconds. *)
Definition DEFAULT_MAX_COMPACTION_LAG : Z := 300 * 1000000000.

Definition ready_with_defaults : ReadyDispatchController :=
  mkReadyDispatchController DEFAULT_MAX_COMPACTION_LAG "default-queue".

(** [{:?}] of a status. *)
Definition dispatch_status_debug (status : DispatchStatus) : string :=
  match status with DispPending => "Pending" | DispCreated => "Created" end.

Section Ready.
Context `{Hashes} `{Chrono}.

Definition reconcile_task (c : ReadyDispatchController) (state : FoldState) (task : TaskRow) :
    option ReadyDispatchAction :=
  if negb (bool_decide (tk_state task = TsReady)) then None
  else if option_bool rn_cancel_requested (fs_runs state !! tk_run_id task) then
    Some (ReadySkip (tk_run_id task) (tk_task_key task) "run_cancel_requested")
  else
    let attempt := N.max (tk_attempt task) 1 in
    let dispatch_id := dispatch_id (tk_run_id task) (tk_task_key task) attempt in
    match fs_dispatch_outbox state !! dispatch_id with
    | Some existing =>
        Some (ReadySkip (tk_run_id task) (tk_task_key task)
                ("existing_dispatch:" +:+ dispatch_status_debug (ob_status existing)))
    | None =>
        let attempt_id := deterministic_attempt_id dispatch_id in
        Some (EmitDispatchRequested (tk_run_id task) (tk_task_key task) attempt attempt_id
                (rd_worker_queue c) dispatch_id)
    end.

Definition ready_reconcile (c : ReadyDispatchController) (manifest : OrchestrationManifest)
    (state : FoldState) : list ReadyDispatchAction :=
  let tasks := snd <$> map_to_list (fs_tasks state) in
  if is_fresh (mf_watermarks manifest) (rd_max_compaction_lag c) then
    omap (reconcile_task c state) tasks
  else
    (fun task => ReadySkip (tk_run_id task) (tk_task_key task) "compaction_lag") <$>
      List.filter (fun task => bool_decide (tk_state task = TsReady)) tasks.

(** The events of a pass: [OrchestrationEvent::new] for every action that has
    data, the event's id and time being chosen by the caller. *)
Definition emitted (new : OrchestrationEventData -> OrchestrationEvent)
    (actions : list ReadyDispatchAction) : list OrchestrationEvent :=
  new <$> omap into_event_data actions.
End Ready.

Definition dispatch_requested_idempotency_key (dispatch_id : string) : string :=
  "dispatch_req:" +:+ dispatch_id.

(** ** Pending dispatches *)

Inductive DispatchAction :=
  | CreateCloudTask (dispatch_id cloud_task_id run_id task_key : string) (attempt : u32)
      (attempt_id worker_queue : string)
  | DispatchSkip (dispatch_id reason : string).

Section Dispatcher.
Context `{Hashes} `{Chrono}.

Definition reconcile_row (row : DispatchOutboxRow) : DispatchAction :=
  match ob_status row with
  | DispPending =>
      CreateCloudTask (ob_dispatch_id row) (cloud_task_id "d" (ob_dispatch_id row)) (ob_run_id row)
        (ob_task_key row) (ob_attempt row) (ob_attempt_id row) (ob_worker_queue row)
  | DispCreated => DispatchSkip (ob_dispatch_id row) "already_created"
  end.

Definition dispatcher_reconcile (max_compaction_lag : Z) (manifest : OrchestrationManifest)
    (outbox_rows : list DispatchOutboxRow) : list DispatchAction :=
  if is_fresh (mf_watermarks manifest) max_compaction_lag then reconcile_row <$> outbox_rows
  else
    (fun row => DispatchSkip (ob_dispatch_id row) "compaction_lag") <$>
      List.filter (fun row => bool_decide (ob_status row = DispPending)) outbox_rows.
End Dispatcher.

Definition dispatch_enqueued_idempotency_key (dispatch_id : string) : string :=
  "dispatch_enqueued:" +:+ dispatch_id.
