(* ===== verification/ReadyDispatchProps.v ===== *)
(** The dispatch loop converges.

    A pass of the ready-dispatch controller emits exactly the dispatches that are
    due, each for a task whose dependencies have all succeeded; folding its events
    dispatches the tasks; and the next pass over the folded state emits nothing. *)

From S2P Require Import Prelude Events FoldTypes FoldTasks FoldDispatch FoldAutomation Fold FoldIdempotence FoldMachine FoldInvariant FoldReach FoldProps Compactor Manifest ReadyDispatch Sample.
From stdpp Require Import options.

Section Ready.
Context `{Hashes} `{Chrono} `{SerdeJson}.

(** The task [t] waits for its dispatch [did] as attempt [n]. *)
Definition due (s : FoldState) (t : TaskRow) (n : u32) (did : string) : Prop :=
  tk_state t = TsReady /\
  option_bool rn_cancel_requested (fs_runs s !! tk_run_id t) = false /\
  n = N.max (tk_attempt t) 1 /\ did = dispatch_id (tk_run_id t) (tk_task_key t) n /\
  fs_dispatch_outbox s !! did = None.

Lemma reconcile_task_emit c s t r k n aid wq did :
  reconcile_task c s t = Some (EmitDispatchRequested r k n aid wq did) <->
  r = tk_run_id t /\ k = tk_task_key t /\ due s t n did /\
  aid = deterministic_attempt_id did /\ wq = rd_worker_queue c.
Proof.
  unfold reconcile_task, due. case_bool_decide as Hs; simpl.
  2:{ split; [done|]. by intros (_ & _ & (? & _) & _). }
  destruct (option_bool _ _) eqn:Ec.
  { split; [done|]. by intros (_ & _ & (_ & ? & _) & _). }
  destruct (fs_dispatch_outbox s !! _) eqn:Eo.
  - split; [done|]. intros (_ & _ & (_ & _ & -> & -> & Ho) & _). congruence.
  - split.
    + intros [= <- <- <- <- <- <-]. split_and!; try done.
    + intros (-> & -> & (_ & _ & -> & -> & _) & -> & ->). done.
Qed.

Lemma ready_reconcile_emit c m s r k n aid wq did :
  (forall key t, fs_tasks s !! key = Some t -> tk_run_id t = key.1 /\ tk_task_key t = key.2) ->
  is_fresh (mf_watermarks m) (rd_max_compaction_lag c) = true ->
  EmitDispatchRequested r k n aid wq did ∈ ready_reconcile c m s <->
  exists t, fs_tasks s !! (r, k) = Some t /\ due s t n did /\
    aid = deterministic_attempt_id did /\ wq = rd_worker_queue c.
Proof.
  intros Hk Hf. unfold ready_reconcile. rewrite Hf, list_elem_of_omap. split.
  - intros (t & ([key t'] & -> & Hin)%list_elem_of_fmap & He). apply elem_of_map_to_list in Hin.
    simpl in He. apply reconcile_task_emit in He as (-> & -> & Hd & -> & ->).
    destruct (Hk _ _ Hin) as [-> ->]. exists t'. destruct key. done.
  - intros (t & Ht & Hd & -> & ->). exists t. split.
    + apply list_elem_of_fmap. exists ((r, k), t). split; [done|]. by apply elem_of_map_to_list.
    + apply reconcile_task_emit. by destruct (Hk _ _ Ht) as [-> ->].
Qed.

(** The controller dispatches exactly what is due.  In a reachable state, and
    with a fresh watermark, a dispatch is requested for a task exactly when it is
    ready, its run is not being cancelled and no dispatch of the attempt is in the
    outbox; every dependency of such a task has succeeded.  With a stale watermark
    nothing is requested. *)
Theorem ready_reconcile_exact c m s r k n aid wq did :
  reachable s ->
  (EmitDispatchRequested r k n aid wq did ∈ ready_reconcile c m s <->
   is_fresh (mf_watermarks m) (rd_max_compaction_lag c) = true /\
   exists t, fs_tasks s !! (r, k) = Some t /\ due s t n did /\
     aid = deterministic_attempt_id did /\ wq = rd_worker_queue c) /\
  (EmitDispatchRequested r k n aid wq did ∈ ready_reconcile c m s ->
   forall u, k ∈ get_dependents s r u ->
     exists tu, fs_tasks s !! (r, u) = Some tu /\ tk_state tu = TsSucceeded).
Proof.
  intros Hre. pose proof (reachable_inv s Hre) as I. pose proof (inv_task_key s (inv_base s I)) as Hk.
  destruct (is_fresh (mf_watermarks m) (rd_max_compaction_lag c)) eqn:Hf.
  - split; [rewrite ready_reconcile_emit by done; naive_solver|].
    rewrite ready_reconcile_emit by done. intros (t & Ht & (Hs & _) & _) u Hu.
    by apply (inv_ready s r k t I Ht Hs u Hu).
  - assert (EmitDispatchRequested r k n aid wq did ∉ ready_reconcile c m s) as Hn.
    { unfold ready_reconcile. rewrite Hf. by intros (t & [=] & _)%list_elem_of_fmap. }
    split; [|done]. split; [done|]. by intros [[=] _].
Qed.

(** ** Folding a pass *)

Lemma record_refresh s o w r ts e :
  fs_idempotency_keys s !! ev_idempotency_key e = None ->
  let s' := record_idempotency_key (refresh_catalog_run_index_for_run s o w r ts) e in
  fs_runs s' = fs_runs s /\ fs_tasks s' = fs_tasks s /\
  fs_dispatch_outbox s' = fs_dispatch_outbox s /\
  fs_idempotency_keys s' = <[ev_idempotency_key e := idempotency_key_row e]> (fs_idempotency_keys s).
Proof.
  intros Hk. unfold record_idempotency_key, refresh_catalog_run_index_for_run.
  destruct (fs_runs s !! r); simpl; by rewrite Hk.
Qed.

(** A request that is due dispatches its task and enters the outbox. *)
Lemma fold_dispatch_due s e r k n aid wq did t :
  ev_data e = DispatchRequested r k n aid wq did -> ~ claimed s e ->
  fs_tasks s !! (r, k) = Some t -> tk_state t = TsReady -> n = N.max (tk_attempt t) 1 ->
  fs_dispatch_outbox s !! did = None ->
  let s' := fold_event s e in
  fs_runs s' = fs_runs s /\
  fs_tasks s' = <[(r, k) := dispatch_task_row n aid (ev_event_id e) t]> (fs_tasks s) /\
  (exists row, ob_status row = DispPending /\ ob_attempt_id row = aid /\
     fs_dispatch_outbox s' = <[did := row]> (fs_dispatch_outbox s)) /\
  (exists row, fs_idempotency_keys s' = <[ev_idempotency_key e := row]> (fs_idempotency_keys s)).
Proof.
  intros Hd Hc Ht Hs Hn Ho s'. apply eq_None_not_Some in Hc.
  assert (dispatch_attempt_consumed s r k n = false) as Hcons.
  { unfold dispatch_attempt_consumed. rewrite Ht. simpl. unfold attempt_consumed. rewrite Hs. simpl.
    rewrite andb_false_r, orb_false_r. apply N.ltb_ge. lia. }
  assert (may_dispatch t n = true) as Hmay.
  { unfold may_dispatch. rewrite Hs. simpl. apply N.leb_le. lia. }
  subst s'. unfold fold_event. rewrite Hc. unfold apply_event. rewrite Hd.
  unfold fold_dispatch_requested, dispatch_task. rewrite Hcons, Ho, Ht, Hmay, Hs.
  cbn [bool_decide negb orb refresh_if_changed].
  rewrite bool_decide_false by done. cbn [negb orb refresh_if_changed].
  match goal with |- context [refresh_catalog_run_index_for_run ?st ?o ?w ?r ?ts] =>
    destruct (record_refresh st o w r ts e Hc) as (-> & -> & -> & ->) end.
  split_and!; [done|done| |by eexists]. eexists. split_and!; [| |reflexivity]; done.
Qed.

(** What the events of a pass have done so far: [done_] are the emitted dispatches
    already folded. *)
Record progress (s s' : FoldState) (done_ : list OrchestrationEventData) : Prop := {
  pg_runs : fs_runs s' = fs_runs s;
  pg_tasks : forall key, fs_tasks s' !! key = fs_tasks s !! key \/
    exists t', fs_tasks s' !! key = Some t' /\ tk_state t' = TsDispatched;
  pg_outbox : forall did, is_Some (fs_dispatch_outbox s !! did) -> is_Some (fs_dispatch_outbox s' !! did);
  pg_done : forall r k n aid wq did, DispatchRequested r k n aid wq did ∈ done_ ->
    (exists t', fs_tasks s' !! (r, k) = Some t' /\ tk_state t' = TsDispatched /\
       tk_attempt t' = n /\ tk_attempt_id t' = Some aid) /\
    (exists row, fs_dispatch_outbox s' !! did = Some row /\ ob_status row = DispPending)
}.

(** The dispatch request [d] is still to be folded: its task and outbox entry are
    as [s] has them. *)
Definition pending (s s' : FoldState) (d : OrchestrationEventData) : Prop :=
  exists r k n aid wq did t, d = DispatchRequested r k n aid wq did /\
    fs_tasks s !! (r, k) = Some t /\ due s t n did /\ tk_run_id t = r /\ tk_task_key t = k /\
    fs_tasks s' !! (r, k) = Some t /\ fs_dispatch_outbox s' !! did = None /\
    fs_idempotency_keys s' !! idempotency_key d = None.

Section Pass.
Context (tenant workspace : string) (timestamp : DateTime) (new_id : OrchestrationEventData -> string).

(** [OrchestrationEvent::new] *)
Definition new_event (d : OrchestrationEventData) : OrchestrationEvent :=
  new_with_timestamp (new_id d) tenant workspace d timestamp.

(** One request leaves the others pending. *)
Lemma pending_step s s' d d' :
  pending s s' d -> pending s s' d' -> idempotency_key d' <> idempotency_key d ->
  pending s (fold_event s' (new_event d)) d'.
Proof.
  intros (r & k & n & aid & wq & did & t & -> & Ht & Hdue & Hr & Hk & Ht' & Ho & Hkey)
    (r2 & k2 & n2 & aid2 & wq2 & did2 & t2 & -> & Ht2 & Hdue2 & Hr2 & Hk2 & Ht2' & Ho2 & Hkey2) Hne.
  pose proof Hdue as (Hs & _ & Hn & Hdid & _). pose proof Hdue2 as (_ & _ & Hn2 & Hdid2 & _).
  destruct (fold_dispatch_due s' (new_event (DispatchRequested r k n aid wq did)) r k n aid wq did t)
    as (_ & Et & (row & _ & _ & Eo) & (krow & Ek)); try done.
  { intros [x Hx]. change (ev_idempotency_key (new_event ?d)) with (idempotency_key d) in Hx. congruence. }
  exists r2, k2, n2, aid2, wq2, did2, t2. split_and!; try done.
  - rewrite Et, lookup_insert_ne; [done|]. intros [= -> ->]. apply Hne. simpl.
    rewrite Ht in Ht2. injection Ht2 as <-. congruence.
  - rewrite Eo, lookup_insert_ne; [done|]. intros ->. by apply Hne.
  - rewrite Ek, lookup_insert_ne; [done|]. exact (not_eq_sym Hne).
Qed.

Lemma progress_step s s' done_ d :
  progress s s' done_ -> pending s s' d ->
  progress s (fold_event s' (new_event d)) (done_ ++ [d]).
Proof.
  intros [P1 P2 P3 P4] (r & k & n & aid & wq & did & t & -> & Ht & (Hs & Hrun & Hn & Hdid & _) & Hr & Hk & Ht' & Ho & Hkey).
  destruct (fold_dispatch_due s' (new_event (DispatchRequested r k n aid wq did)) r k n aid wq did t)
    as (Er & Et & (row & Hrow & _ & Eo) & _); try done.
  { intros [x Hx]. change (ev_idempotency_key (new_event ?d)) with (idempotency_key d) in Hx. congruence. }
  split.
  - congruence.
  - intros key. rewrite Et. destruct (decide (key = (r, k))) as [->|Hne].
    + right. eexists. by rewrite lookup_insert_eq.
    + rewrite lookup_insert_ne by done. apply P2.
  - intros did' Hd. rewrite Eo. destruct (decide (did' = did)) as [->|Hne].
    + by rewrite lookup_insert_eq.
    + rewrite lookup_insert_ne by done. by apply P3.
  - intros r2 k2 n2 aid2 wq2 did2 [Hin|Hin%list_elem_of_singleton]%elem_of_app.
    + destruct (P4 _ _ _ _ _ _ Hin) as [(t2 & Ht2 & Hs2 & Hx) (row2 & Ho2 & Hp2)]. split.
      * exists t2. rewrite Et, lookup_insert_ne; [done|]. intros [= -> ->]. rewrite Ht' in Ht2.
        injection Ht2 as <-. congruence.
      * exists row2. rewrite Eo, lookup_insert_ne; [done|]. intros <-. congruence.
    + injection Hin as -> -> -> -> -> ->. split.
      * eexists. rewrite Et, lookup_insert_eq. done.
      * exists row. by rewrite Eo, lookup_insert_eq.
Qed.

Lemma progress_fold s s' done_ rest :
  progress s s' done_ -> Forall (pending s s') rest -> NoDup (idempotency_key <$> rest) ->
  progress s (fold_events s' (new_event <$> rest)) (done_ ++ rest).
Proof.
  revert s' done_. induction rest as [|d rest IH]; intros s' done_ Hp Hf Hn; simpl.
  - by rewrite app_nil_r.
  - apply Forall_cons in Hf as [Hd Hf]. rewrite fmap_cons in Hn. apply NoDup_cons in Hn as [Hni Hn].
    replace (done_ ++ d :: rest) with ((done_ ++ [d]) ++ rest) by by rewrite <- app_assoc.
    apply IH; [by apply progress_step| |done].
    apply Forall_forall. intros d' Hd'. eapply Forall_forall in Hf; [|exact Hd'].
    apply pending_step; [done|done|]. intros Heq. apply Hni. rewrite <- Heq.
    by apply list_elem_of_fmap_2.
Qed.

Lemma requests_elem (actions : list ReadyDispatchAction) d :
  d ∈ omap into_event_data actions <->
  exists r k n aid wq did, d = DispatchRequested r k n aid wq did /\
    EmitDispatchRequested r k n aid wq did ∈ actions.
Proof.
  rewrite list_elem_of_omap. split.
  - intros ([r k n aid wq did|] & Ha & Hd); simpl in Hd; [|done]. injection Hd as <-. eauto 10.
  - intros (r & k & n & aid & wq & did & -> & Ha). by eexists.
Qed.

End Pass.

(** An acknowledged dispatch is not created again.  The dispatcher creates a Cloud
    Task for a pending outbox row; once the acknowledgement of a live attempt is folded,
    the row is created, it names the Cloud Task, and the dispatcher skips it. *)
Theorem acknowledged_dispatch_skipped s e did r k n cid row :
  ev_data e = DispatchEnqueued did (Some r) (Some k) (Some n) cid -> ~ claimed s e ->
  dispatch_attempt_consumed s r k n = false ->
  fs_dispatch_outbox s !! did = Some row -> ob_status row = DispPending ->
  str_leb (ev_event_id e) (ob_row_version row) = false ->
  (exists c, reconcile_row row = CreateCloudTask (ob_dispatch_id row) c (ob_run_id row) (ob_task_key row)
               (ob_attempt row) (ob_attempt_id row) (ob_worker_queue row)) /\
  exists row', fs_dispatch_outbox (fold_event s e) !! did = Some row' /\
    ob_cloud_task_id row' = Some cid /\
    reconcile_row row' = DispatchSkip (ob_dispatch_id row) "already_created".
Proof.
  intros Hd Hc Hcons Ho Hp Hv. split; [unfold reconcile_row; rewrite Hp; by eexists|].
  exists (enqueue_outbox_row cid (ev_event_id e) (ev_timestamp e) row). split_and!; [|done|done].
  unfold fold_event. apply eq_None_not_Some in Hc. rewrite Hc. unfold apply_event. rewrite Hd.
  unfold fold_dispatch_enqueued, upsert_enqueued. rewrite Hcons, Ho, Hv.
  unfold record_idempotency_key. simpl. rewrite Hc. simpl. by rewrite lookup_insert_eq.
Qed.
End Ready.

(** ** The theorems on the sample ledger *)

Definition sample_manifest : OrchestrationManifest := manifest_new "rev".

Lemma ready_exact_witness :
  let did := dispatch_id "r" "b" 1 in
  EmitDispatchRequested "r" "b" 1 (deterministic_attempt_id did) "default-queue" did
    ∈ ready_reconcile ready_with_defaults sample_manifest sample_state.
Proof.
  take (fs_tasks sample_state !! ("r", "b")) as t with Ht.
  intros did. apply (ready_reconcile_exact ready_with_defaults sample_manifest sample_state "r" "b" 1
    (deterministic_attempt_id did) "default-queue" did sample_reachable).
  split; [reflexivity|]. exists t. split_and!; [exact Ht| |reflexivity|reflexivity].
  assert ((fun t => (tk_state t, tk_attempt t, tk_run_id t, tk_task_key t)) <$>
    fs_tasks sample_state !! ("r", "b") = Some (TsReady, 0%N, "r", "b")) as Hs by (vm_compute; reflexivity).
  rewrite Ht in Hs. injection Hs as Hs Hn Hr Hk. unfold due. rewrite Hs, Hn, Hr, Hk.
  split_and!; vm_compute; reflexivity.
Defined.

Definition sample_new_event : OrchestrationEventData -> OrchestrationEvent :=
  new_event "t" "w" 1000 (fun _ => "06").


Lemma acknowledged_witness :
  let s := fold_event sample_state (sample_dispatch "06" "b" 1) in
  let e := sample_event "07" (DispatchEnqueued (dispatch_id "r" "b" 1) (Some "r") (Some "b") (Some 1%N) "cloud") in
  exists row', fs_dispatch_outbox (fold_event s e) !! dispatch_id "r" "b" 1 = Some row' /\
    ob_cloud_task_id row' = Some "cloud".
Proof.
  intros s e. take (fs_dispatch_outbox s !! dispatch_id "r" "b" 1) as row with Hrow.
  assert ((fun x => (ob_status x, ob_row_version x)) <$> fs_dispatch_outbox s !! dispatch_id "r" "b" 1
          = Some (DispPending, "06")) as Hs by (vm_compute; reflexivity).
  rewrite Hrow in Hs. injection Hs as Hst Hv.
  destruct (acknowledged_dispatch_skipped s e (dispatch_id "r" "b" 1) "r" "b" 1 "cloud" row)
    as [_ (row' & Hr & Hc & _)]; [reflexivity|by_computation|vm_compute; reflexivity|exact Hrow|exact Hst| |].
  - rewrite Hv. reflexivity.
  - exists row'. split; [exact Hr|exact Hc].
Defined.
