(* ===== verification/Storage.v ===== *)
(** Object storage: [crates/arco-core/src/storage.rs] and [error.rs].

    The error type, the conditional-write contract of [StorageBackend] and the
    in-memory backend that implements it ([MemoryBackend]), one definition per
    method.  [async] code that talks to a backend is an [io] program: a finite
    tree whose nodes are the calls it awaits.  [Interleave] runs such programs
    concurrently. *)

From S2P Require Import Prelude.
From stdpp Require Import options.

(** ** Errors and results *)

Inductive Error :=
  | EInvalidId (message : string)
  | ETenantIsolation (message : string)
  | EStorage (message : string)
  | ESerialization (message : string)
  | EResourceNotFound (resource_type id : string)
  | ENotFound (path : string)
  | EInvalidInput (message : string)
  | EPreconditionFailed (message : string)
  | EInternal (message : string)
  | EValidation (message : string).

(** [std::result::Result] *)
Inductive result (E A : Type) :=
  | Ok (a : A)
  | Err (e : E).
Arguments Ok {E A} a.
Arguments Err {E A} e.

Definition result_map_err {E F A} (f : E -> F) (r : result E A) : result F A :=
  match r with Ok a => Ok a | Err e => Err (f e) end.

Definition is_ok {E A} (r : result E A) : bool :=
  match r with Ok _ => true | Err _ => false end.

(** ** The contract *)

Abbreviation Bytes := string (only parsing).

Inductive WritePrecondition :=
  | DoesNotExist
  | MatchesVersion (token : string)
  | Unconditional.  (* [WritePrecondition::None] *)

Inductive WriteResult :=
  | WriteSuccess (version : string)
  | WritePreconditionFailed (current_version : string).

Record ObjectMeta := mkObjectMeta {
  om_path : string;
  om_size : N;
  om_version : string;
  om_last_modified : option DateTime;
  om_etag : option string
}.

(** ** [MemoryBackend] *)

Record StoredObject := mkStoredObject {
  so_data : Bytes;
  so_version : i64;
  so_last_modified : DateTime
}.

Record MemoryBackend := mkMemoryBackend {
  mb_objects : gmap string StoredObject;
  mb_next_version : i64
}.

Definition memory_backend_new : MemoryBackend := mkMemoryBackend ∅ 0.

(** [AtomicI64::fetch_add(1)] and [+ 1], wrapping at 64 bits. *)
Definition i64_succ (z : i64) : i64 := if (z =? i64_max)%Z then i64_min else (z + 1)%Z.

Definition object_meta (path : string) (obj : StoredObject) : ObjectMeta :=
  mkObjectMeta path (N.of_nat (String.length (so_data obj))) (pretty (so_version obj))
    (Some (so_last_modified obj))
    (Some (String "034" (pretty (so_version obj) +:+ String "034" ""))).

Definition mb_get (b : MemoryBackend) (path : string) : result Error Bytes :=
  match mb_objects b !! path with
  | Some o => Ok (so_data o)
  | None => Err (ENotFound ("object not found: " +:+ path))
  end.

(** [data.slice(start..end)] of the object, after the bounds checks. *)
Definition mb_get_range (b : MemoryBackend) (path : string) (start stop : u64) :
    result Error Bytes :=
  match mb_get b path with
  | Err e => Err e
  | Ok data =>
      let len := N.of_nat (String.length data) in
      if (len <? start)%N then
        Err (EInvalidInput ("range start " +:+ pretty start +:+ " exceeds object length "
                              +:+ pretty len))
      else
        let stop := N.min stop len in
        if (stop <? start)%N then
          Err (EInvalidInput ("range end " +:+ pretty stop +:+ " is before start "
                                +:+ pretty start))
        else Ok (String.substring (N.to_nat start) (N.to_nat (stop - start)) data)
  end.

Definition mb_head (b : MemoryBackend) (path : string) : result Error (option ObjectMeta) :=
  Ok (object_meta path <$> mb_objects b !! path).

(** The current version of a failed precondition; [None] when it holds. *)
Definition precondition_failure (current : option StoredObject) (pre : WritePrecondition) :
    option string :=
  match pre with
  | DoesNotExist =>
      match current with
      | Some obj => Some (pretty (so_version obj))
      | None => None
      end
  | MatchesVersion expected =>
      let expected_num := parse_i64 expected in
      match current with
      | Some obj =>
          if decide (Some (so_version obj) <> expected_num)
          then Some (pretty (so_version obj)) else None
      | None => Some ""
      end
  | Unconditional => None
  end.

Definition mb_put (b : MemoryBackend) (now : DateTime) (path : string) (data : Bytes)
    (pre : WritePrecondition) : result Error WriteResult * MemoryBackend :=
  match precondition_failure (mb_objects b !! path) pre with
  | Some current_version => (Ok (WritePreconditionFailed current_version), b)
  | None =>
      let new_version := i64_succ (mb_next_version b) in
      (Ok (WriteSuccess (pretty new_version)),
       mkMemoryBackend (<[path := mkStoredObject data new_version now]> (mb_objects b))
         new_version)
  end.

Definition mb_delete (b : MemoryBackend) (path : string) : result Error unit * MemoryBackend :=
  (Ok tt, mkMemoryBackend (delete path (mb_objects b)) (mb_next_version b)).

(** [k.starts_with(prefix)] *)
Definition str_starts_with (pre s : string) : bool := String.prefix pre s.

Definition mb_list (b : MemoryBackend) (pre : string) : result Error (list ObjectMeta) :=
  Ok ((fun kv => object_meta kv.1 kv.2) <$>
        List.filter (fun kv => str_starts_with pre kv.1) (map_to_list (mb_objects b))).

(** ** Programs over a backend *)

Inductive call :=
  | CGet (path : string)
  | CGetRange (path : string) (start stop : u64)
  | CHead (path : string)
  | CPut (path : string) (data : Bytes) (pre : WritePrecondition)
  | CDelete (path : string)
  | CList (pre : string)
  | CNow.  (* [Utc::now()] *)

Definition response (c : call) : Type :=
  match c with
  | CGet _ | CGetRange _ _ _ => result Error Bytes
  | CHead _ => result Error (option ObjectMeta)
  | CPut _ _ _ => result Error WriteResult
  | CDelete _ => result Error unit
  | CList _ => result Error (list ObjectMeta)
  | CNow => DateTime
  end.

Inductive io (A : Type) :=
  | Ret (a : A)
  | Call (c : call) (k : response c -> io A).
Arguments Ret {A} a.
Arguments Call {A} c k.

Fixpoint io_bind {A B} (f : A -> io B) (p : io A) : io B :=
  match p with
  | Ret a => f a
  | Call c k => Call c (fun r => io_bind f (k r))
  end.

#[export] Instance io_mret : MRet io := @Ret.
#[export] Instance io_mbind : MBind io := @io_bind.

(** [.await] of one call. *)
Definition await (c : call) : io (response c) := Call c Ret.

Definition get_object (path : string) : io (result Error Bytes) := await (CGet path).
Definition head_object (path : string) : io (result Error (option ObjectMeta)) := await (CHead path).
Definition put_object (path : string) (data : Bytes) (pre : WritePrecondition) :
    io (result Error WriteResult) := await (CPut path data pre).
Definition delete_object (path : string) : io (result Error unit) := await (CDelete path).
Definition list_objects (pre : string) : io (result Error (list ObjectMeta)) := await (CList pre).
Definition utc_now_io : io DateTime := await CNow.

(** [p.await.map_err(conv)?]: go on with the value, or return the error. *)
Definition try_with {E F A B} (conv : E -> F) (p : io (result E A))
    (f : A -> io (result F B)) : io (result F B) :=
  r ← p;
  match r with
  | Ok a => f a
  | Err e => Ret (Err (conv e))
  end.

(** [let a = p.await?;] *)
Definition try_bind {E A B} (p : io (result E A)) (f : A -> io (result E B)) :
    io (result E B) := try_with (fun e => e) p f.

Notation "'let?' x ':=' p 'in' q" := (try_bind p (fun x => q))
  (at level 10, x name, p at level 100, q at level 200, only parsing) : arco_scope.

(** One call of a backend at the instant [now]. *)
Definition run_call (c : call) (now : DateTime) (b : MemoryBackend) :
    response c * MemoryBackend :=
  match c return response c * MemoryBackend with
  | CGet path => (mb_get b path, b)
  | CGetRange path start stop => (mb_get_range b path start stop, b)
  | CHead path => (mb_head b path, b)
  | CPut path data pre => mb_put b now path data pre
  | CDelete path => mb_delete b path
  | CList pre => (mb_list b pre, b)
  | CNow => (now, b)
  end.

(** A program alone on a backend, with a clock that stands still: the
    sequential meaning, total because programs are finite. *)
Fixpoint run_alone {A} (p : io A) (now : DateTime) (b : MemoryBackend) : A * MemoryBackend :=
  match p with
  | Ret a => (a, b)
  | Call c k => let '(r, b') := run_call c now b in run_alone (k r) now b'
  end.

Lemma run_alone_bind {A B} (p : io A) (f : A -> io B) now b :
  run_alone (p ≫= f) now b =
    let '(a, b') := run_alone p now b in run_alone (f a) now b'.
Proof.
  unfold mbind, io_mbind. revert b. induction p as [a|c k IH]; intros b; simpl; [done|].
  destruct (run_call c now b) as [r b']. apply IH.
Qed.

(** ** JSON

    [serde_json::to_vec] and [serde_json::from_slice] of a type.  What the code
    relies on is that what was written is read back. *)

Class Json (A : Type) := {
  to_vec : A -> option Bytes;
  from_slice : Bytes -> option A
}.

Class JsonLaws (A : Type) `{Json A} :=
  from_slice_to_vec (a : A) (b : Bytes) : to_vec a = Some b -> from_slice b = Some a.

(** ** Facts about the backend *)

Lemma i64_succ_small z : (z < i64_max)%Z -> i64_succ z = (z + 1)%Z.
Proof. unfold i64_succ. intros. by rewrite (proj2 (Z.eqb_neq _ _)) by lia. Qed.

(** A version token names one version. *)
Lemma version_token_matches (o : StoredObject) (v : i64) :
  (i64_min <= v <= i64_max)%Z ->
  precondition_failure (Some o) (MatchesVersion (pretty v)) = None <-> so_version o = v.
Proof.
  intros Hv. simpl. rewrite parse_i64_pretty by done.
  destruct (decide _) as [H|H]; split; try congruence.
  intros _. destruct (decide (so_version o = v)); [done|]. destruct H. congruence.
Qed.

(** What a write does, by its precondition. *)
Lemma mb_put_cases b now path data pre :
  (exists cur, precondition_failure (mb_objects b !! path) pre = Some cur /\
     mb_put b now path data pre = (Ok (WritePreconditionFailed cur), b)) \/
  (precondition_failure (mb_objects b !! path) pre = None /\
     mb_put b now path data pre =
       (Ok (WriteSuccess (pretty (i64_succ (mb_next_version b)))),
        mkMemoryBackend
          (<[path := mkStoredObject data (i64_succ (mb_next_version b)) now]> (mb_objects b))
          (i64_succ (mb_next_version b)))).
Proof. unfold mb_put. destruct (precondition_failure _ _); eauto. Qed.

(** ** A concrete serializer

    Any countable type has one: the code of a value, written in binary.  The
    witness lemmas instantiate the JSON parameter of the model with it. *)

Fixpoint bits (p : positive) : string :=
  match p with
  | xH => ""
  | xO p => String "0" (bits p)
  | xI p => String "1" (bits p)
  end.

Fixpoint unbits (s : string) : option positive :=
  match s with
  | EmptyString => Some xH
  | String "0" s => xO <$> unbits s
  | String "1" s => xI <$> unbits s
  | String _ _ => None
  end.

Lemma unbits_bits p : unbits (bits p) = Some p.
Proof. induction p as [p IH|p IH|]; simpl; by rewrite ?IH. Qed.

Definition countable_json (A : Type) `{Countable A} : Json A := {|
  to_vec a := Some (bits (encode a));
  from_slice b := unbits b ≫= decode
|}.

Lemma countable_json_laws (A : Type) `{Countable A} : @JsonLaws A (countable_json A).
Proof.
  intros a b. simpl. intros [= <-]. rewrite unbits_bits. simpl. apply decode_encode.
Qed.
