(* ===== verification/Interleave.v ===== *)
(** Concurrent programs over one backend.

    Several [io] programs (API replicas, compactors, workers) share an object
    store.  Each call is atomic, as the store guarantees; between two calls of one
    program any other program may run, for any time, and a call may fail before or
    after it took effect.  A program that is never scheduled again has crashed.

    The semantics is executable: a schedule is a list of turns and [run_schedule]
    is a function.  The store is instrumented with the history of its writes, so
    that properties over time are properties of a state.  [wp] is the proof method:
    a program is safe when each of its calls, from every state the others may have
    brought about, keeps the invariant; [run_schedule_sound] lifts this to every
    schedule. *)

From S2P Require Import Prelude Storage.
From stdpp Require Import sorting options.

(** ** The shared world *)

Inductive change :=
  | Wrote (path : string) (obj : StoredObject)
  | Deleted (path : string).

Record world := mkWorld {
  w_backend : MemoryBackend;
  w_history : list change;  (* oldest first *)
  w_clock : DateTime
}.
#[export] Instance eta_world : Eta world :=
  fun r => mkWorld (w_backend r) (w_history r) (w_clock r).

Definition w_objects (w : world) : gmap string StoredObject := mb_objects (w_backend w).
Definition w_counter (w : world) : Z := mb_next_version (w_backend w).

Definition world_new (clock : DateTime) : world := mkWorld memory_backend_new [] clock.

(** The change a call made, read off the backends before and after it. *)
Definition changes (c : call) (b b' : MemoryBackend) : list change :=
  match c with
  | CPut path _ _ =>
      if (mb_next_version b' =? mb_next_version b)%Z then []
      else match mb_objects b' !! path with
           | Some obj => [Wrote path obj]
           | None => []
           end
  | CDelete path => [Deleted path]
  | _ => []
  end.

(** ** Faults: the request is lost, or its response is. *)

Inductive fault := NoFault | RequestLost | ResponseLost.

Definition lost_response (c : call) : option (response c) :=
  let e := EStorage "object store error" in
  match c return option (response c) with
  | CGet _ | CGetRange _ _ _ => Some (Err e)
  | CHead _ => Some (Err e)
  | CPut _ _ _ => Some (Err e)
  | CDelete _ => Some (Err e)
  | CList _ => Some (Err e)
  | CNow => None
  end.

(** One call by a program whose clock is [skew] off, [tick] after the last. *)
Definition world_call (skew : Z) (c : call) (tick : N) (f : fault) (w : world) :
    response c * world :=
  let clock := (w_clock w + Z.of_N tick)%Z in
  let '(r, b) := run_call c (clock + skew)%Z (w_backend w) in
  let done := mkWorld b (w_history w ++ changes c (w_backend w) b) clock in
  match f, lost_response c with
  | RequestLost, Some e => (e, mkWorld (w_backend w) (w_history w) clock)
  | ResponseLost, Some e => (e, done)
  | _, _ => (r, done)
  end.

(** ** Schedules *)

Record turn := mkTurn { tn_thread : nat; tn_tick : N; tn_fault : fault }.

Record config (A : Type) := mkConfig { cf_threads : list (io A); cf_world : world }.
Arguments mkConfig {A} _ _.
Arguments cf_threads {A} _.
Arguments cf_world {A} _.

Section Schedules.
Context {A : Type} (skew : nat -> Z).

Definition config_step (t : turn) (c : config A) : config A :=
  match cf_threads c !! tn_thread t with
  | Some (Call cl k) =>
      let '(r, w) := world_call (skew (tn_thread t)) cl (tn_tick t) (tn_fault t) (cf_world c) in
      mkConfig (<[tn_thread t := k r]> (cf_threads c)) w
  | _ => c
  end.

Definition run_schedule (ts : list turn) (c : config A) : config A :=
  fold_left (fun c t => config_step t c) ts c.
End Schedules.

(** ** Well-formed worlds

    The objects are what the history left, and versions count the writes. *)

Definition replay (h : list change) : gmap string StoredObject :=
  fold_left (fun m e =>
    match e with
    | Wrote p o => <[p := o]> m
    | Deleted p => delete p m
    end) h ∅.

Definition change_versions (h : list change) : list Z :=
  omap (fun e => match e with Wrote _ o => Some (so_version o) | Deleted _ => None end) h.

Record world_wf (w : world) : Prop := {
  ww_replay : w_objects w = replay (w_history w);
  ww_sorted : StronglySorted Z.lt (change_versions (w_history w));
  ww_versions : Forall (fun v => 0 < v <= w_counter w)%Z (change_versions (w_history w));
  ww_counter : (0 <= w_counter w)%Z
}.

(** What every call does: the clock and the counter advance, the history grows. *)
Record world_le (w w' : world) : Prop := {
  wl_counter : (w_counter w <= w_counter w')%Z;
  wl_clock : (w_clock w <= w_clock w')%Z;
  wl_history : w_history w `prefix_of` w_history w'
}.

#[export] Instance world_le_preorder : PreOrder world_le.
Proof.
  split.
  - intros w. split; [lia|lia|done].
  - intros w1 w2 w3 [] []. split; [lia|lia|by etrans].
Qed.

Lemma replay_snoc h e :
  replay (h ++ [e]) =
    match e with Wrote p o => <[p := o]> (replay h) | Deleted p => delete p (replay h) end.
Proof. unfold replay. by rewrite fold_left_app. Qed.

Lemma change_versions_app h h' :
  change_versions (h ++ h') = change_versions h ++ change_versions h'.
Proof. apply omap_app. Qed.

Lemma change_versions_elem h p o : Wrote p o ∈ h -> so_version o ∈ change_versions h.
Proof. intros. apply list_elem_of_omap. by exists (Wrote p o). Qed.

Lemma StronglySorted_snoc (l : list Z) (x : Z) :
  StronglySorted Z.lt l -> Forall (fun y => y < x)%Z l -> StronglySorted Z.lt (l ++ [x]).
Proof.
  induction 1 as [|y l Hl IH Hy]; intros Hx; simpl; [by repeat constructor|].
  inversion Hx; subst. constructor; [by apply IH|].
  apply Forall_app. by repeat constructor.
Qed.

(** The writes in a world with the same version are the same write. *)
Lemma history_version_inj w p p' o o' :
  world_wf w -> Wrote p o ∈ w_history w -> Wrote p' o' ∈ w_history w ->
  so_version o = so_version o' -> p = p' /\ o = o'.
Proof.
  intros Hwf Hin Hin' Hv. pose proof (ww_sorted w Hwf) as Hs.
  revert Hs Hin Hin'. generalize (w_history w). clear -Hv.
  assert (forall q u l, Wrote q u ∈ l -> StronglySorted Z.lt (change_versions l) ->
    forall e, Forall (Z.lt e) (change_versions l) -> (e < so_version u)%Z) as Hlt.
  { intros q u l Hu _ e He. rewrite Forall_forall in He.
    eapply He, change_versions_elem, Hu. }
  induction l as [|e l IH]; intros Hs Hin Hin'; [by apply elem_of_nil in Hin|].
  assert (StronglySorted Z.lt (change_versions l)) as Hs'.
  { destruct e; simpl in Hs; [by inversion Hs|done]. }
  apply elem_of_cons in Hin as [E|Hin]; apply elem_of_cons in Hin' as [E'|Hin'];
    simplify_eq; [done| | |by apply IH]; simpl in Hs; inversion Hs; subst; exfalso.
  - assert (so_version o < so_version o')%Z; [|lia]. by eapply Hlt.
  - assert (so_version o' < so_version o)%Z; [|lia]. by eapply Hlt.
Qed.

(** What is stored was written, and nothing was written there since. *)
Lemma replay_lookup_split h p o :
  replay h !! p = Some o ->
  exists h1 h2, h = h1 ++ Wrote p o :: h2 /\
    forall e, e ∈ h2 -> (forall o', e <> Wrote p o') /\ e <> Deleted p.
Proof.
  induction h as [|e h IH] using rev_ind; [done|].
  rewrite replay_snoc. destruct e as [q u|q].
  - destruct (decide (q = p)) as [->|Hne].
    + rewrite lookup_insert_eq. intros [= ->]. exists h, []. split; [done|].
      by intros e ?%elem_of_nil.
    + rewrite lookup_insert_ne by done. intros (h1 & h2 & -> & Hh2)%IH.
      exists h1, (h2 ++ [Wrote q u]). split; [by rewrite <- app_assoc|].
      intros e [He|He%list_elem_of_singleton]%elem_of_app; [by apply Hh2|].
      subst. split; [intros o' [= ??]|]; congruence.
  - destruct (decide (q = p)) as [->|Hne]; [by rewrite lookup_delete_eq|].
    rewrite lookup_delete_ne by done. intros (h1 & h2 & -> & Hh2)%IH.
    exists h1, (h2 ++ [Deleted q]). split; [by rewrite <- app_assoc|].
    intros e [He|He%list_elem_of_singleton]%elem_of_app; [by apply Hh2|].
    subst. split; congruence.
Qed.

Lemma replay_elem h p o : replay h !! p = Some o -> Wrote p o ∈ h.
Proof. intros (h1 & h2 & -> & _)%replay_lookup_split. set_solver. Qed.

Lemma stored_written w p o :
  world_wf w -> w_objects w !! p = Some o -> Wrote p o ∈ w_history w.
Proof. intros Hwf. rewrite (ww_replay w Hwf). apply replay_elem. Qed.

Lemma written_version w p o :
  world_wf w -> Wrote p o ∈ w_history w -> (0 < so_version o <= w_counter w)%Z.
Proof.
  intros Hwf Hin%change_versions_elem. pose proof (ww_versions w Hwf) as Hv.
  rewrite Forall_forall in Hv. by apply Hv.
Qed.

(** What is stored is the newest write of its path. *)
Lemma stored_newest w p o o' :
  world_wf w -> w_objects w !! p = Some o -> Wrote p o' ∈ w_history w ->
  (so_version o' <= so_version o)%Z.
Proof.
  intros Hwf Ho Hin. rewrite (ww_replay w Hwf) in Ho.
  pose proof (ww_sorted w Hwf) as Hs.
  destruct (replay_lookup_split _ _ _ Ho) as (h1 & h2 & E & Hh2). rewrite E in *.
  apply elem_of_app in Hin as [Hin|Hin].
  - rewrite change_versions_app in Hs. simpl in Hs.
    apply change_versions_elem in Hin. clear -Hs Hin.
    induction (change_versions h1) as [|x l IH]; [by apply elem_of_nil in Hin|].
    simpl in Hs. inversion Hs as [|?? Hs' Hx]; subst.
    apply elem_of_cons in Hin as [->|Hin]; [|by apply IH].
    rewrite Forall_forall in Hx. assert (x < so_version o)%Z; [|lia]. apply Hx. set_solver.
  - apply elem_of_cons in Hin as [[= ->]|Hin]; [lia|].
    by destruct (Hh2 _ Hin) as [Hno _]; destruct (Hno o').
Qed.

(** A path that was written and never deleted is still there. *)
Lemma written_stored h p o :
  Wrote p o ∈ h -> Deleted p ∉ h -> is_Some (replay h !! p).
Proof.
  induction h as [|e h IH] using rev_ind; [by intros ?%elem_of_nil|].
  rewrite replay_snoc. intros Hin Hnd. destruct e as [q u|q].
  - destruct (decide (q = p)) as [->|Hne]; [by rewrite lookup_insert_eq|].
    rewrite lookup_insert_ne by done. apply IH; [|set_solver].
    apply elem_of_app in Hin as [|[= -> ->]%list_elem_of_singleton]; done.
  - assert (q <> p) by (intros ->; set_solver).
    rewrite lookup_delete_ne by done. apply IH; [|set_solver].
    by apply elem_of_app in Hin as [|?%list_elem_of_singleton].
Qed.

(** ** One call *)

Lemma run_call_counter c now b b' r :
  run_call c now b = (r, b') ->
  mb_next_version b' = mb_next_version b \/
  mb_next_version b' = i64_succ (mb_next_version b).
Proof.
  destruct c; cbn [run_call]; try (intros [= <- <-]; by left).
  intros E. destruct (mb_put_cases b now path data pre) as [(cur & _ & E')|[_ E']];
    rewrite E' in E; simplify_eq; [by left|by right].
Qed.

(** A call writes one object with the next version, deletes one, or changes
    nothing. *)
Lemma run_call_changes c now b r b' :
  run_call c now b = (r, b') -> (0 <= mb_next_version b < i64_max)%Z ->
  (changes c b b' = [] /\ b' = b) \/
  (exists p o, changes c b b' = [Wrote p o] /\ so_version o = (mb_next_version b + 1)%Z /\
     mb_next_version b' = (mb_next_version b + 1)%Z /\
     mb_objects b' = <[p := o]> (mb_objects b)) \/
  (exists p, changes c b b' = [Deleted p] /\ mb_next_version b' = mb_next_version b /\
     mb_objects b' = delete p (mb_objects b)).
Proof.
  intros E Hb.
  destruct c; cbn [run_call changes] in *; try (injection E as _ <-; left; by split).
  - destruct (mb_put_cases b now path data pre) as [(cur & _ & E')|[_ E']];
      rewrite E' in E; simplify_eq; simpl.
    + left. by rewrite Z.eqb_refl.
    + right; left. rewrite i64_succ_small by lia.
      rewrite (proj2 (Z.eqb_neq _ _)) by lia. rewrite lookup_insert_eq. eauto 10.
  - injection E as _ <-. right; right. by exists path.
Qed.

Section wf.
Implicit Types w : world.

Lemma world_wf_wrote w w' p o :
  world_wf w -> w_history w' = w_history w ++ [Wrote p o] ->
  so_version o = (w_counter w + 1)%Z -> w_counter w' = (w_counter w + 1)%Z ->
  w_objects w' = <[p := o]> (w_objects w) -> world_wf w'.
Proof.
  intros [Hr Hs Hv Hc] Hh Ho Hc' Hobj. split; rewrite ?Hh, ?Hc', ?change_versions_app.
  - by rewrite replay_snoc, Hobj, Hr.
  - simpl. apply StronglySorted_snoc; [done|]. eapply Forall_impl; [done|]. simpl. lia.
  - apply Forall_app. split; [eapply Forall_impl; [done|]; simpl; lia|].
    repeat constructor; lia.
  - lia.
Qed.

Lemma world_wf_deleted w w' p :
  world_wf w -> w_history w' = w_history w ++ [Deleted p] ->
  w_counter w' = w_counter w -> w_objects w' = delete p (w_objects w) -> world_wf w'.
Proof.
  intros [Hr Hs Hv Hc] Hh Hc' Hobj.
  split; rewrite ?Hh, ?Hc', ?change_versions_app; simpl; rewrite ?app_nil_r; try done.
  by rewrite replay_snoc, Hobj, Hr.
Qed.

Lemma world_wf_clock w w' :
  world_wf w -> w_backend w' = w_backend w -> w_history w' = w_history w -> world_wf w'.
Proof. intros [] Hb Hh. split; unfold w_objects, w_counter in *; rewrite ?Hb, ?Hh; done. Qed.

Lemma world_call_wf sk c tick f w r w' :
  world_wf w -> (w_counter w < i64_max)%Z -> world_call sk c tick f w = (r, w') ->
  world_wf w' /\ world_le w w' /\ (w_counter w' <= w_counter w + 1)%Z.
Proof.
  intros Hwf Hc. unfold world_call.
  destruct (run_call c _ (w_backend w)) as [r0 b] eqn:E.
  pose proof (ww_counter w Hwf) as Hc0.
  apply run_call_changes in E; [|unfold w_counter in *; lia].
  set (lost := mkWorld (w_backend w) (w_history w) (w_clock w + Z.of_N tick)).
  set (done_ := mkWorld b _ _).
  assert (world_wf lost /\ world_le w lost /\ (w_counter lost <= w_counter w + 1)%Z) as Hlost.
  { split_and!; [by eapply world_wf_clock| |unfold w_counter; simpl; lia].
    split; simpl; [done|lia|done]. }
  assert (world_wf done_ /\ world_le w done_ /\ (w_counter done_ <= w_counter w + 1)%Z) as Hdone.
  { destruct E as [[Hch ->]|[(p & o & Hch & Ho & Hv & Hobj)|(p & Hch & Hv & Hobj)]].
    - unfold done_. rewrite Hch, app_nil_r. apply Hlost.
    - split_and!.
      + eapply (world_wf_wrote w _ p o); unfold done_, w_counter, w_objects; simpl;
          by rewrite ?Hch.
      + split; unfold done_, w_counter; simpl; [lia|lia|by eexists].
      + unfold done_, w_counter; simpl; lia.
    - split_and!.
      + eapply (world_wf_deleted w _ p); unfold done_, w_counter, w_objects; simpl;
          by rewrite ?Hch.
      + split; unfold done_, w_counter; simpl; [lia|lia|by eexists].
      + unfold done_, w_counter; simpl; lia. }
  destruct f, (lost_response c); intros [= _ <-]; done.
Qed.
End wf.

(** ** What a reader knows

    The object a reader saw is in the history, and it is at least as new as every
    write of that path that was there before. *)

Definition saw (p : string) (w : world) (o : StoredObject) (w' : world) : Prop :=
  Wrote p o ∈ w_history w' /\
  forall o1, Wrote p o1 ∈ w_history w -> (so_version o1 <= so_version o)%Z.

Lemma written_le w w' p o :
  world_le w w' -> Wrote p o ∈ w_history w -> Wrote p o ∈ w_history w'.
Proof. intros [_ _ [k ->]] ?. set_solver. Qed.

(** A conditional write that succeeds replaces the object whose version it names. *)
Lemma cas_current w p o :
  world_wf w -> (w_counter w <= i64_max)%Z -> Wrote p o ∈ w_history w ->
  precondition_failure (w_objects w !! p) (MatchesVersion (pretty (so_version o))) = None ->
  w_objects w !! p = Some o.
Proof.
  intros Hwf Hmax Hin Hpre. pose proof (written_version w p o Hwf Hin).
  destruct (w_objects w !! p) as [cur|] eqn:Hcur; [|done].
  apply version_token_matches in Hpre; [|unfold i64_min; lia].
  f_equal. eapply history_version_inj; [done|by apply stored_written|done|done].
Qed.

(** The same after a second read: if the write succeeds, both reads saw the
    object that is replaced. *)
Lemma cas_current_read w p o1 o2 :
  world_wf w -> (w_counter w <= i64_max)%Z ->
  Wrote p o1 ∈ w_history w -> Wrote p o2 ∈ w_history w ->
  (so_version o1 <= so_version o2)%Z ->
  precondition_failure (w_objects w !! p) (MatchesVersion (pretty (so_version o1))) = None ->
  w_objects w !! p = Some o1 /\ o2 = o1.
Proof.
  intros Hwf Hmax H1 H2 Hle Hpre. pose proof (cas_current w p o1 Hwf Hmax H1 Hpre) as Hcur.
  split; [done|]. pose proof (stored_newest w p o1 o2 Hwf Hcur H2).
  eapply (history_version_inj w p p o2 o1); [done..|lia].
Qed.

(** ** The proof method

    An invariant is a property of the history. *)

Section Logic.
Context (Inv : list change -> Prop).

Definition world_ok (w : world) : Prop := world_wf w /\ Inv (w_history w).

Fixpoint wp (skew : Z) {A} (p : io A) (Q : A -> world -> Prop) (w : world) : Prop :=
  match p with
  | Ret a => forall w', world_ok w' -> world_le w w' -> Q a w'
  | Call c k =>
      forall w' tick f, world_ok w' -> world_le w w' -> (w_counter w' < i64_max)%Z ->
        let '(r, w'') := world_call skew c tick f w' in
        Inv (w_history w'') /\ wp skew (k r) Q w''
  end.

Lemma wp_le sk {A} (p : io A) Q w w' : wp sk p Q w -> world_le w w' -> wp sk p Q w'.
Proof.
  destruct p as [a|c k]; simpl; intros H Hle.
  - intros w'' Hok Hle'. apply H; [done|by etrans].
  - intros w'' tick f Hok Hle'. apply H; [done|by etrans].
Qed.

Lemma wp_mono sk {A} (p : io A) (Q Q' : A -> world -> Prop) w :
  (forall a w', world_ok w' -> world_le w w' -> Q a w' -> Q' a w') ->
  wp sk p Q w -> wp sk p Q' w.
Proof.
  revert w. induction p as [a|c k IH]; intros w HQ; simpl; [by auto|].
  intros H w' tick f Hok Hle Hc. specialize (H w' tick f Hok Hle Hc).
  destruct (world_call sk c tick f w') as [r w''] eqn:E. destruct H as [Hi H].
  split; [done|]. apply IH; [|done]. intros a w3 Hok3 Hle3. apply HQ; [done|].
  destruct Hok as [Hwf _]. apply world_call_wf in E as (_ & Hle2 & _); [|done..].
  by do 2 (etrans; [done|]).
Qed.

Lemma wp_bind sk {A B} (p : io A) (f : A -> io B) Q w :
  world_ok w -> wp sk p (fun a w => wp sk (f a) Q w) w -> wp sk (p ≫= f) Q w.
Proof.
  unfold mbind, io_mbind. revert w. induction p as [a|c k IH]; intros w Hw; simpl.
  - intros H. by apply H.
  - intros H w' tick flt Hok Hle Hc. specialize (H w' tick flt Hok Hle Hc).
    destruct (world_call sk c tick flt w') as [r w''] eqn:E. destruct H as [Hi H].
    split; [done|]. apply IH; [|done]. destruct Hok as [Hwf _].
    by apply world_call_wf in E as (? & _ & _).
Qed.

Lemma wp_try sk {E F A B} (conv : E -> F) (p : io (result E A))
    (f : A -> io (result F B)) Q w :
  world_ok w ->
  wp sk p (fun r w => match r with
                      | Ok a => wp sk (f a) Q w
                      | Err e => wp sk (Ret (Err (conv e))) Q w
                      end) w ->
  wp sk (try_with conv p f) Q w.
Proof.
  intros Hw H. apply wp_bind; [done|]. eapply wp_mono; [|done]. simpl.
  intros [a|e] w' _ _; done.
Qed.

(** A program is safe alone: it may be started in any state. *)
Definition safe (sk : Z) {A} (p : io A) (Q : A -> world -> Prop) : Prop :=
  forall w, world_ok w -> wp sk p Q w.

(** *** Rules for the calls *)

Lemma wp_now sk {A} (k : DateTime -> io A) Q w :
  (forall w', world_ok w' -> world_le w w' -> wp sk (k (w_clock w' + sk)%Z) Q w') ->
  wp sk (Call CNow k) Q w.
Proof.
  intros H w' tick f Hok Hle Hc. destruct (world_call sk CNow tick f w') as [r w''] eqn:E.
  pose proof (world_call_wf _ _ _ _ _ _ _ (proj1 Hok) Hc E) as (Hwf & Hle' & _).
  unfold world_call in E. simpl in E. rewrite app_nil_r in E.
  assert (r = (w_clock w'' + sk)%Z /\ w_history w'' = w_history w') as [-> Hh].
  { destruct f; by simplify_eq/=. }
  rewrite Hh. split; [apply Hok|]. apply H; [|by etrans].
  split; [done|]. rewrite Hh. apply Hok.
Qed.

(** A call that only reads answers from the current objects or fails. *)
Lemma wp_read sk c {A} (k : response c -> io A) (read : MemoryBackend -> response c) e Q w :
  lost_response c = Some e ->
  (forall now b, run_call c now b = (read b, b)) -> (forall b, changes c b b = []) ->
  (forall w', world_ok w' -> world_le w w' ->
     wp sk (k (read (w_backend w'))) Q w' /\ wp sk (k e) Q w') ->
  wp sk (Call c k) Q w.
Proof.
  intros Hlost Hrun Hch H w' tick f Hok Hle Hc.
  destruct (world_call sk c tick f w') as [r w''] eqn:E.
  pose proof (world_call_wf _ _ _ _ _ _ _ (proj1 Hok) Hc E) as (Hwf & Hle' & _).
  unfold world_call in E. rewrite Hrun, Hlost, Hch, app_nil_r in E.
  assert (w_history w'' = w_history w' /\ w_backend w'' = w_backend w') as [Hh Hb].
  { destruct f; by simplify_eq/=. }
  rewrite Hh. split; [apply Hok|].
  destruct (H w'') as [Hread Herr]; [|by etrans|].
  - split; [done|]. rewrite Hh. apply Hok.
  - rewrite Hb in Hread. by destruct f; simplify_eq/=.
Qed.

Lemma wp_get sk p {A} (k : result Error Bytes -> io A) Q w :
  (forall w', world_ok w' -> world_le w w' ->
     wp sk (k (mb_get (w_backend w') p)) Q w' /\
     wp sk (k (Err (EStorage "object store error"))) Q w') ->
  wp sk (Call (CGet p) k) Q w.
Proof. intros H. by eapply (wp_read sk (CGet p) k (fun b => mb_get b p)). Qed.

Lemma wp_head sk p {A} (k : result Error (option ObjectMeta) -> io A) Q w :
  (forall w', world_ok w' -> world_le w w' ->
     wp sk (k (Ok (object_meta p <$> w_objects w' !! p))) Q w' /\
     wp sk (k (Err (EStorage "object store error"))) Q w') ->
  wp sk (Call (CHead p) k) Q w.
Proof. intros H. by eapply (wp_read sk (CHead p) k (fun b => mb_head b p)). Qed.

(** A write that its precondition allows must keep the invariant; nothing is
    known when the response is lost. *)
Lemma wp_put sk p data pre {A} (k : result Error WriteResult -> io A) Q w :
  (forall w' cur, world_ok w' -> world_le w w' ->
     precondition_failure (w_objects w' !! p) pre = Some cur ->
     wp sk (k (Ok (WritePreconditionFailed cur))) Q w') ->
  (forall w', world_ok w' -> world_le w w' ->
     wp sk (k (Err (EStorage "object store error"))) Q w') ->
  (forall w' o, world_ok w' -> world_le w w' -> (w_counter w' < i64_max)%Z ->
     precondition_failure (w_objects w' !! p) pre = None ->
     so_data o = data -> so_version o = (w_counter w' + 1)%Z ->
     (w_clock w' + sk <= so_last_modified o)%Z ->
     Inv (w_history w' ++ [Wrote p o]) /\
     forall w'', world_ok w'' -> world_le w' w'' ->
       w_history w'' = w_history w' ++ [Wrote p o] ->
       w_objects w'' = <[p := o]> (w_objects w') ->
       wp sk (k (Ok (WriteSuccess (pretty (so_version o))))) Q w'') ->
  wp sk (Call (CPut p data pre) k) Q w.
Proof.
  intros Hfail Herr Hok' w' tick f Hok Hle Hc.
  destruct (world_call sk (CPut p data pre) tick f w') as [r w''] eqn:E.
  pose proof (world_call_wf _ _ _ _ _ _ _ (proj1 Hok) Hc E) as (Hwf & Hle' & _).
  pose proof (ww_counter w' (proj1 Hok)) as Hc0.
  unfold world_call in E. cbn [run_call lost_response changes] in E.
  destruct (mb_put_cases (w_backend w') (w_clock w' + Z.of_N tick + sk) p data pre)
    as [(cur & Hpre & Eput)|[Hpre Eput]]; rewrite Eput in E; cbn [mb_next_version mb_objects] in E.
  - rewrite Z.eqb_refl, app_nil_r in E.
    assert (w_history w'' = w_history w' /\ w_objects w'' = w_objects w') as [Hh Hb].
    { unfold w_objects. destruct f; by simplify_eq/=. }
    rewrite Hh. split; [apply Hok|].
    assert (world_ok w'') by (split; [done|]; rewrite Hh; apply Hok).
    assert (world_le w w'') by (by etrans).
    destruct f; simplify_eq/=; auto; eapply Hfail; done.
  - unfold w_counter in Hc, Hc0. rewrite i64_succ_small in E by lia.
    rewrite (proj2 (Z.eqb_neq _ _)), lookup_insert_eq in E by lia.
    set (o := mkStoredObject _ _ _) in E.
    destruct (Hok' w' o) as [Hinv Hk]; [done..|simpl; lia|].
    assert (world_ok w' -> world_le w w'' -> world_ok w'' -> wp sk (k r) Q w'') as Hr.
    { intros. destruct f; simplify_eq/=; [by apply Hk|by apply Herr..]. }
    assert (Inv (w_history w'')) by (destruct f; simplify_eq/=; [done|apply Hok|done]).
    split; [done|]. apply Hr; [done|by etrans|by split].
Qed.

Lemma saw_current w w' w'' p o :
  world_ok w' -> world_le w w' -> world_le w' w'' -> w_objects w' !! p = Some o ->
  saw p w o w''.
Proof.
  intros [Hwf _] Hle Hle' Ho. split.
  - eapply written_le; [done|]. by apply stored_written.
  - intros o1 Ho1. eapply stored_newest; [done..|]. by eapply written_le.
Qed.

Lemma wp_get_saw sk p w :
  wp sk (get_object p) (fun r w' =>
    match r with
    | Ok data => exists o, saw p w o w' /\ so_data o = data
    | Err _ => True
    end) w.
Proof.
  apply wp_get. intros w1 Hok Hle. split; [|done].
  unfold mb_get. destruct (mb_objects (w_backend w1) !! p) as [o|] eqn:Ho; [|done].
  intros w2 Hok2 Hle2. exists o. split; [|done]. by apply (saw_current w w1 w2).
Qed.

Lemma wp_head_saw sk p w :
  wp sk (head_object p) (fun r w' =>
    match r with
    | Ok (Some meta) => exists o, saw p w o w' /\ om_version meta = pretty (so_version o)
    | _ => True
    end) w.
Proof.
  apply wp_head. intros w1 Hok Hle. split; [|done].
  destruct (w_objects w1 !! p) as [o|] eqn:Ho; simpl; [|done].
  intros w2 Hok2 Hle2. exists o. split; [|done]. by apply (saw_current w w1 w2).
Qed.

(** *** The calls as the programs write them *)

Lemma wp_now_bind sk {A} (f : DateTime -> io A) Q w :
  (forall w', world_ok w' -> world_le w w' -> wp sk (f (w_clock w' + sk)%Z) Q w') ->
  wp sk (utc_now_io ≫= f) Q w.
Proof. apply wp_now. Qed.

Lemma wp_put_try sk p data pre {F B} (conv : Error -> F) (f : WriteResult -> io (result F B)) Q w :
  (forall w' cur, world_ok w' -> world_le w w' ->
     precondition_failure (w_objects w' !! p) pre = Some cur ->
     wp sk (f (WritePreconditionFailed cur)) Q w') ->
  (forall w', world_ok w' -> world_le w w' ->
     wp sk (Ret (Err (conv (EStorage "object store error")))) Q w') ->
  (forall w' o, world_ok w' -> world_le w w' -> (w_counter w' < i64_max)%Z ->
     precondition_failure (w_objects w' !! p) pre = None ->
     so_data o = data -> so_version o = (w_counter w' + 1)%Z ->
     (w_clock w' + sk <= so_last_modified o)%Z ->
     Inv (w_history w' ++ [Wrote p o]) /\
     forall w'', world_ok w'' -> world_le w' w'' ->
       w_history w'' = w_history w' ++ [Wrote p o] ->
       w_objects w'' = <[p := o]> (w_objects w') ->
       wp sk (f (WriteSuccess (pretty (so_version o)))) Q w'') ->
  wp sk (try_with conv (put_object p data pre) f) Q w.
Proof.
  intros. by apply (wp_put sk p data pre
    (fun r => match r with Ok a => f a | Err e => Ret (Err (conv e)) end)).
Qed.

(** *** Every schedule *)

Theorem run_schedule_sound {A} (skew : nat -> Z) (Q : nat -> A -> world -> Prop)
    (ts : list turn) (c : config A) :
  world_ok (cf_world c) ->
  (forall i p, cf_threads c !! i = Some p -> wp (skew i) p (Q i) (cf_world c)) ->
  (w_counter (cf_world c) + Z.of_nat (length ts) <= i64_max)%Z ->
  let c' := run_schedule skew ts c in
  world_ok (cf_world c') /\ world_le (cf_world c) (cf_world c') /\
  (forall i p, cf_threads c' !! i = Some p -> wp (skew i) p (Q i) (cf_world c')) /\
  length (cf_threads c') = length (cf_threads c).
Proof.
  revert c. induction ts as [|t ts IH]; intros c Hok Hthreads Hlen c'; [done|].
  assert (world_ok (cf_world (config_step skew t c)) /\
    world_le (cf_world c) (cf_world (config_step skew t c)) /\
    (forall i p, cf_threads (config_step skew t c) !! i = Some p ->
       wp (skew i) p (Q i) (cf_world (config_step skew t c))) /\
    length (cf_threads (config_step skew t c)) = length (cf_threads c) /\
    (w_counter (cf_world (config_step skew t c)) <= w_counter (cf_world c) + 1)%Z)
    as (Hok1 & Hle1 & Hth1 & Hl1 & Hc1).
  { simpl in Hlen. unfold config_step.
    destruct (cf_threads c !! tn_thread t) as [[a|cl k]|] eqn:Ht; try (split_and!; done || lia).
    pose proof (Hthreads _ _ Ht (cf_world c) (tn_tick t) (tn_fault t) Hok ltac:(done)
      ltac:(lia)) as Hstep.
    destruct (world_call _ cl _ _ _) as [r w'] eqn:E. destruct Hstep as [Hinv Hk].
    apply world_call_wf in E as (Hwf & Hle & Hc'); [|apply Hok|lia].
    split_and!; simpl; [done|done| |by rewrite length_insert|done].
    intros i p. destruct (decide (i = tn_thread t)) as [->|Hne].
    - rewrite list_lookup_insert_eq by (by eapply lookup_lt_Some). by intros [= <-].
    - rewrite list_lookup_insert_ne by done. intros Hp. by eapply wp_le; [apply Hthreads|]. }
  destruct (IH (config_step skew t c)) as (Hok' & Hle' & Hth' & Hl');
    [done..|simpl in Hlen; lia|].
  split_and!; [done|by etrans|done|]. unfold c'. simpl. by rewrite <- Hl1.
Qed.
End Logic.

(** ** Ownership

    [wp] lets the other processes do whatever keeps the invariant.  A coordinator relies
    on more: what it created is its own, and others change it only in certain ways.  Here
    a process may hold tokens.  [others_may T h e] says what a process that does not hold
    [T] may write after the history [h]; a process is verified against others that
    respect its tokens, and must respect the tokens it does not hold.  A token can be
    taken when nobody can have it: when the history did not mention it before the call
    and does afterwards ([claimed]). *)
Module Ownership.
Lemma prefix_split {A} (l k h1 h2 : list A) (e : A) :
  l `prefix_of` k -> k = h1 ++ e :: h2 ->
  l `prefix_of` h1 \/ (exists h3, l = h1 ++ e :: h3).
Proof.
  intros [r ->] E. revert h1 E. induction l as [|x l IH]; intros h1 E; simpl in E.
  - left. apply prefix_nil.
  - destruct h1 as [|y h1]; simplify_eq/=; [right; by eexists|].
    destruct (IH h1) as [?|[h3 ->]]; [done|left; by apply prefix_cons|right; by exists h3].
Qed.

(** A call adds at most one change. *)
Lemma world_call_one_change sk c tick f w r w' h :
  world_call sk c tick f w = (r, w') -> w_history w' = w_history w ++ h ->
  h = [] \/ exists e, h = [e].
Proof.
  unfold world_call. destruct (run_call c _ (w_backend w)) as [r0 b].
  assert (length (changes c (w_backend w) b) <= 1) as Hl.
  { destruct c; simpl; try lia. destruct (_ =? _)%Z; simpl; [lia|].
    destruct (mb_objects b !! path); simpl; lia. }
  intros Ew Eh. assert (length h <= 1).
  { apply (f_equal length) in Eh. rewrite length_app in Eh.
    destruct f, (lost_response c); injection Ew as _ <-; simpl in Eh; rewrite ?length_app in Eh; lia. }
  destruct h as [|e [|]]; [by left|right; by exists e|simpl in *; lia].
Qed.

Lemma wrote_inj p p' o o' : Wrote p o = Wrote p' o' -> p = p' /\ o = o'.
Proof. by intros [= -> ->]. Qed.

Section Ownership.
Context {Tok : Type} (Inv : list change -> Prop).
Context (claimed : list change -> Tok -> Prop) (others_may : Tok -> list change -> change -> Prop).

Abbreviation world_ok := (world_ok Inv).
(** The tokens a process holds. *)
Abbreviation tokens := (Tok -> Prop) (only parsing).

(** What happened between two worlds respects the tokens held. *)
Record rely (own : tokens) (w w' : world) : Prop := {
  rl_le : world_le w w';
  rl_respects h1 e h2 T :
    w_history w' = h1 ++ e :: h2 -> w_history w `prefix_of` h1 -> own T -> others_may T h1 e
}.

#[export] Instance rely_preorder own : PreOrder (rely own).
Proof.
  split.
  - intros w. split; [done|]. intros h1 e h2 T E [k Hk] _. exfalso.
    apply (f_equal length) in E. rewrite Hk in E. rewrite length_app in E. simpl in E.
    rewrite length_app in E. lia.
  - intros w1 w2 w3 [Hle Hr] [Hle' Hr']. split; [by etrans|].
    intros h1 e h2 T E Hp HT.
    destruct (prefix_split (w_history w2) (w_history w3) h1 h2 e) as [?|[h3 E2]];
      [apply Hle'|done|by eapply Hr'|by eapply Hr].
Qed.

(** An own write that respects the tokens held is no different from one of the others. *)
Lemma rely_snoc (own : tokens) w w' e :
  world_le w w' -> w_history w' = w_history w ++ [e] ->
  (forall T, own T -> others_may T (w_history w) e) -> rely own w w'.
Proof.
  intros Hle Hh He. split; [done|]. intros h1 e' h2 T E [k Hk] HT.
  rewrite Hh, Hk, <- app_assoc in E. apply app_inv_head in E.
  destruct k as [|x k]; simpl in E.
  - injection E as <- _. rewrite app_nil_r in Hk. subst h1. by apply He.
  - injection E as _ E. by destruct k.
Qed.

Lemma rely_same (own : tokens) w w' :
  world_le w w' -> w_history w' = w_history w -> rely own w w'.
Proof.
  intros Hle Hh. split; [done|]. intros h1 e h2 T E [k Hk] _. exfalso.
  apply (f_equal length) in E. rewrite Hh, Hk in E. rewrite !length_app in E. simpl in E. lia.
Qed.

(** [own'] adds tokens nobody held. *)
Definition acquires (own own' : tokens) (h h' : list change) : Prop :=
  (forall T, own T -> own' T) /\ (forall T, own' T -> own T \/ (~ claimed h T /\ claimed h' T)).

Definition respects (own : tokens) (h h' : list change) : Prop :=
  forall e T, h' = h ++ [e] -> ~ own T -> others_may T h e.

Fixpoint wpo (sk : Z) {A} (own : tokens) (p : io A) (Q : tokens -> A -> world -> Prop) (w : world) :
    Prop :=
  match p with
  | Ret a => forall w', world_ok w' -> rely own w w' -> Q own a w'
  | Call c k =>
      forall w' tick f, world_ok w' -> rely own w w' -> (w_counter w' < i64_max)%Z ->
        let '(r, w'') := world_call sk c tick f w' in
        Inv (w_history w'') /\
        exists own', acquires own own' (w_history w') (w_history w'') /\
          respects own' (w_history w') (w_history w'') /\ wpo sk own' (k r) Q w''
  end.

Lemma acquires_refl own h h' : acquires own own h h'.
Proof. split; auto. Qed.
Hint Resolve acquires_refl : core.

Lemma respects_same own h : respects own h h.
Proof.
  intros e T E. exfalso. apply (f_equal length) in E. rewrite length_app in E. simpl in E. lia.
Qed.
Hint Resolve respects_same : core.

Lemma wpo_rely sk {A} own (p : io A) Q w w' :
  wpo sk own p Q w -> rely own w w' -> wpo sk own p Q w'.
Proof.
  destruct p as [a|c k]; simpl; intros Hp Hle.
  - intros w'' Hok Hle'. apply Hp; [done|by etrans].
  - intros w'' tick f Hok Hle'. apply Hp; [done|by etrans].
Qed.

Lemma wpo_mono sk {A} own (p : io A) (Q Q' : tokens -> A -> world -> Prop) w :
  (forall own' a w', world_ok w' -> (forall T, own T -> own' T) -> Q own' a w' -> Q' own' a w') ->
  wpo sk own p Q w -> wpo sk own p Q' w.
Proof.
  revert own w. induction p as [a|c k IH]; intros own w HQ; simpl; [by auto|].
  intros Hp w' tick f Hok Hle Hc. specialize (Hp w' tick f Hok Hle Hc).
  destruct (world_call sk c tick f w') as [r w''] eqn:E.
  destruct Hp as (Hi & own' & Ha & Hr & Hp). split; [done|]. exists own'. split_and!; [done..|].
  apply IH; [|done]. intros own2 a w3 Hok3 Hsub. apply HQ; [done|].
  intros T HT. apply Hsub, Ha, HT.
Qed.

Lemma wpo_bind sk {A B} own (p : io A) (f : A -> io B) Q w :
  world_ok w -> wpo sk own p (fun own a w => wpo sk own (f a) Q w) w -> wpo sk own (p ≫= f) Q w.
Proof.
  unfold mbind, io_mbind. revert own w. induction p as [a|c k IH]; intros own w Hw; simpl.
  - intros Hp. by apply Hp.
  - intros Hp w' tick flt Hok Hle Hc. specialize (Hp w' tick flt Hok Hle Hc).
    destruct (world_call sk c tick flt w') as [r w''] eqn:E.
    destruct Hp as (Hi & own' & Ha & Hr & Hp). split; [done|]. exists own'. split_and!; [done..|].
    apply IH; [|done]. destruct Hok as [Hwf _].
    by apply world_call_wf in E as (? & _ & _).
Qed.

Lemma wpo_try sk {E F A B} own (conv : E -> F) (p : io (result E A))
    (f : A -> io (result F B)) Q w :
  world_ok w ->
  wpo sk own p (fun own r w => match r with
                               | Ok a => wpo sk own (f a) Q w
                               | Err e => wpo sk own (Ret (Err (conv e))) Q w
                               end) w ->
  wpo sk own (try_with conv p f) Q w.
Proof.
  intros Hw Hp. apply wpo_bind; [done|]. eapply wpo_mono; [|done]. simpl.
  intros own' [a|e] w' _ _; done.
Qed.

(** The specification of a program that takes no token. *)
Definition spec sk {A} (own : tokens) (p : io A) (P : A -> world -> Prop) (w : world) : Prop :=
  wpo sk own p (fun own' a w' => own' = own /\ P a w') w.

Lemma spec_bind sk {A B} own (p : io A) (f : A -> io B) P Q w :
  world_ok w -> spec sk own p P w ->
  (forall a w', world_ok w' -> P a w' -> wpo sk own (f a) Q w') -> wpo sk own (p ≫= f) Q w.
Proof.
  intros Hw Hp Hf. apply wpo_bind; [done|]. eapply wpo_mono; [|done].
  intros own' a w' Hok _ [-> Ha]. by apply Hf.
Qed.

Lemma spec_try sk {E F A B} own (conv : E -> F) (p : io (result E A)) (f : A -> io (result F B)) P Q w :
  world_ok w -> spec sk own p P w ->
  (forall a w', world_ok w' -> P (Ok a) w' -> wpo sk own (f a) Q w') ->
  (forall e w', world_ok w' -> P (Err e) w' -> wpo sk own (Ret (Err (conv e))) Q w') ->
  wpo sk own (try_with conv p f) Q w.
Proof. intros Hw Hp Hok Herr. eapply spec_bind; [done..|]. intros [a|e] w' Hw' Ha; auto. Qed.

Lemma spec_mono sk {A} own (p : io A) (P P' : A -> world -> Prop) w :
  (forall a w', world_ok w' -> P a w' -> P' a w') -> spec sk own p P w -> spec sk own p P' w.
Proof. intros HP. apply wpo_mono. intros own' a w' Hok _ [-> Ha]. split; auto. Qed.

(** Time passes. *)
Lemma wpo_le sk {A} own (p : io A) Q w0 w :
  world_le w0 w -> wpo sk own p Q w ->
  wpo sk own p (fun own' a w' => Q own' a w' /\ world_le w0 w') w.
Proof.
  revert own w. induction p as [a|c k IH]; intros own w Hle; simpl.
  - intros Hp w' Hok Hr. split; [by apply Hp|]. etrans; [done|apply (rl_le _ _ _ Hr)].
  - intros Hp w' tick f Hok Hr Hc. specialize (Hp w' tick f Hok Hr Hc).
    destruct (world_call sk c tick f w') as [r w''] eqn:E.
    destruct Hp as (Hi & own' & Ha & Hre & Hp). split; [done|]. exists own'. split_and!; [done..|].
    apply IH; [|done].
    pose proof (world_call_wf _ _ _ _ _ _ _ (proj1 Hok) Hc E) as (_ & Hle' & _).
    etrans; [done|]. by etrans; [apply (rl_le _ _ _ Hr)|].
Qed.

Lemma spec_le sk {A} own (p : io A) P w :
  spec sk own p P w -> spec sk own p (fun a w' => P a w' /\ world_le w w') w.
Proof.
  intros Hp. eapply wpo_mono; [|apply wpo_le; [reflexivity|exact Hp]].
  intros own' a w' _ _ [[-> Ha] Hle]. done.
Qed.

(** *** Rules for the calls *)

Lemma wpo_now sk {A} own (f : DateTime -> io A) Q w :
  (forall w', world_ok w' -> rely own w w' -> wpo sk own (f (w_clock w' + sk)%Z) Q w') ->
  wpo sk own (utc_now_io ≫= f) Q w.
Proof.
  intros Hp w' tick flt Hok Hle Hc.
  destruct (world_call sk CNow tick flt w') as [r w''] eqn:E.
  pose proof (world_call_wf _ _ _ _ _ _ _ (proj1 Hok) Hc E) as (Hwf & Hle' & _).
  unfold world_call in E. simpl in E. rewrite app_nil_r in E.
  assert (r = (w_clock w'' + sk)%Z /\ w_history w'' = w_history w') as [-> Hh].
  { destruct flt; by simplify_eq/=. }
  rewrite Hh. split; [apply Hok|]. exists own. split_and!; [done..|].
  apply Hp; [split; [done|]; rewrite Hh; apply Hok|].
  etrans; [done|]. by apply rely_same.
Qed.

(** A call that only reads answers from the current objects or fails. *)
Lemma wpo_read sk c {A} own (k : response c -> io A) (read : MemoryBackend -> response c) e Q w :
  lost_response c = Some e ->
  (forall now b, run_call c now b = (read b, b)) -> (forall b, changes c b b = []) ->
  (forall w', world_ok w' -> rely own w w' ->
     wpo sk own (k (read (w_backend w'))) Q w' /\ wpo sk own (k e) Q w') ->
  wpo sk own (Call c k) Q w.
Proof.
  intros Hlost Hrun Hch Hp w' tick f Hok Hle Hc.
  destruct (world_call sk c tick f w') as [r w''] eqn:E.
  pose proof (world_call_wf _ _ _ _ _ _ _ (proj1 Hok) Hc E) as (Hwf & Hle' & _).
  unfold world_call in E. rewrite Hrun, Hlost, Hch, app_nil_r in E.
  assert (w_history w'' = w_history w' /\ w_backend w'' = w_backend w') as [Hh Hb].
  { destruct f; by simplify_eq/=. }
  rewrite Hh. split; [apply Hok|]. exists own. split_and!; [done..|].
  destruct (Hp w'') as [Hread Herr].
  - split; [done|]. rewrite Hh. apply Hok.
  - etrans; [done|]. by apply rely_same.
  - rewrite Hb in Hread. by destruct f; simplify_eq/=.
Qed.

Lemma wpo_get sk own p {A} (f : result Error Bytes -> io A) Q w :
  (forall w', world_ok w' -> rely own w w' ->
     wpo sk own (f (mb_get (w_backend w') p)) Q w' /\
     wpo sk own (f (Err (EStorage "object store error"))) Q w') ->
  wpo sk own (get_object p ≫= f) Q w.
Proof. intros Hp. by eapply (wpo_read sk (CGet p) own f (fun b => mb_get b p)). Qed.

Lemma wpo_head sk own p {A} (f : result Error (option ObjectMeta) -> io A) Q w :
  (forall w', world_ok w' -> rely own w w' ->
     wpo sk own (f (Ok (object_meta p <$> w_objects w' !! p))) Q w' /\
     wpo sk own (f (Err (EStorage "object store error"))) Q w') ->
  wpo sk own (head_object p ≫= f) Q w.
Proof. intros Hp. by eapply (wpo_read sk (CHead p) own f (fun b => mb_head b p)). Qed.

(** A write that its precondition allows keeps the invariant and respects the tokens of
    the others; whether its response arrives or not, it has taken effect. *)
Lemma wpo_put sk own p data pre {A} (f : result Error WriteResult -> io A) Q w :
  (forall w' cur, world_ok w' -> rely own w w' ->
     precondition_failure (w_objects w' !! p) pre = Some cur ->
     wpo sk own (f (Ok (WritePreconditionFailed cur))) Q w') ->
  (forall w', world_ok w' -> rely own w w' ->
     wpo sk own (f (Err (EStorage "object store error"))) Q w') ->
  (forall w' o, world_ok w' -> rely own w w' -> (w_counter w' < i64_max)%Z ->
     precondition_failure (w_objects w' !! p) pre = None ->
     so_data o = data -> so_version o = (w_counter w' + 1)%Z ->
     Inv (w_history w' ++ [Wrote p o]) /\
     (forall T, ~ own T -> others_may T (w_history w') (Wrote p o)) /\
     forall w'', world_ok w'' -> world_le w' w'' ->
       w_history w'' = w_history w' ++ [Wrote p o] ->
       w_objects w'' = <[p := o]> (w_objects w') ->
       (exists own', acquires own own' (w_history w') (w_history w'') /\
         wpo sk own' (f (Ok (WriteSuccess (pretty (so_version o))))) Q w'') /\
       wpo sk own (f (Err (EStorage "object store error"))) Q w'') ->
  wpo sk own (put_object p data pre ≫= f) Q w.
Proof.
  intros Hfail Herr Hok' w' tick flt Hok Hle Hc.
  destruct (world_call sk (CPut p data pre) tick flt w') as [r w''] eqn:E.
  pose proof (world_call_wf _ _ _ _ _ _ _ (proj1 Hok) Hc E) as (Hwf & Hle' & _).
  pose proof (ww_counter w' (proj1 Hok)) as Hc0.
  unfold world_call in E. cbn [run_call lost_response changes] in E.
  destruct (mb_put_cases (w_backend w') (w_clock w' + Z.of_N tick + sk) p data pre)
    as [(cur & Hpre & Eput)|[Hpre Eput]]; rewrite Eput in E; cbn [mb_next_version mb_objects] in E.
  - rewrite Z.eqb_refl, app_nil_r in E.
    assert (w_history w'' = w_history w' /\ w_objects w'' = w_objects w') as [Hh Hb].
    { unfold w_objects. destruct flt; by simplify_eq/=. }
    rewrite Hh. split; [apply Hok|]. exists own. split_and!; [done..|].
    assert (world_ok w'') by (split; [done|]; rewrite Hh; apply Hok).
    assert (rely own w w'') by (etrans; [done|]; by apply rely_same).
    destruct flt; simplify_eq/=; auto; eapply Hfail; done.
  - unfold w_counter in Hc, Hc0. rewrite i64_succ_small in E by lia.
    rewrite (proj2 (Z.eqb_neq _ _)), lookup_insert_eq in E by lia.
    set (o := mkStoredObject _ _ _) in E.
    destruct (Hok' w' o) as (Hinv & Hresp & Hk); [done..|].
    destruct flt; injection E as <- <-; cbn [w_history] in *.
    + split; [done|]. destruct (Hk _ (conj Hwf Hinv) Hle' eq_refl eq_refl) as [(own' & Ha & Hp) _].
      exists own'. split_and!; [done| |done].
      intros e T [_ [= <-]]%app_inj_tail_iff HT. apply Hresp. intros HT'. by apply HT, Ha.
    + split; [apply Hok|]. exists own. split_and!; [done..|].
      apply Herr; [split; [done|apply Hok]|]. etrans; [done|]. by apply rely_same.
    + split; [done|]. destruct (Hk _ (conj Hwf Hinv) Hle' eq_refl eq_refl) as [_ Hp].
      exists own. split_and!; [done| |done].
      intros e T [_ [= <-]]%app_inj_tail_iff HT. by apply Hresp.
Qed.

(** *** Every schedule *)

Context (claimed_mono : forall h h' T, claimed h T -> h `prefix_of` h' -> claimed h' T).

(** Processes hold disjoint tokens. *)
Record owned {A} (skew : nat -> Z) (Q : nat -> tokens -> A -> world -> Prop)
    (owns : nat -> tokens) (c : config A) : Prop := {
  ow_ok : world_ok (cf_world c);
  ow_claimed i T : owns i T -> claimed (w_history (cf_world c)) T;
  ow_disjoint i j T : owns i T -> owns j T -> i = j;
  ow_threads i p :
    cf_threads c !! i = Some p -> wpo (skew i) (owns i) p (Q i) (cf_world c)
}.

Lemma owned_step {A} skew Q owns (t : turn) (c : config A) :
  owned skew Q owns c -> (w_counter (cf_world c) < i64_max)%Z ->
  let c' := config_step skew t c in
  (exists owns', owned skew Q owns' c') /\ world_le (cf_world c) (cf_world c') /\
  (w_counter (cf_world c') <= w_counter (cf_world c) + 1)%Z.
Proof using claimed_mono.
  intros [Hok Hcl Hdis Hth] Hc. unfold config_step.
  destruct (cf_threads c !! tn_thread t) as [[a|cl k]|] eqn:Ht;
    try (split_and!; [by exists owns|done|lia]).
  pose proof (Hth _ _ Ht (cf_world c) (tn_tick t) (tn_fault t) Hok ltac:(done) Hc) as Hstep.
  destruct (world_call _ cl _ _ _) as [r w'] eqn:E. cbn [cf_world cf_threads].
  destruct Hstep as (Hinv & own' & [Hgrow Hfresh] & Hresp & Hk).
  pose proof (world_call_wf _ _ _ _ _ _ _ (proj1 Hok) Hc E) as (Hwf & Hle & Hc').
  split_and!; [|done|done].
  set (me := tn_thread t) in *.
  set (owns' := fun i => if decide (i = me) then own' else owns i).
  assert (forall i T, owns' i T -> owns i T \/ (i = me /\ ~ claimed (w_history (cf_world c)) T /\
    claimed (w_history w') T)) as Hnew.
  { intros i T. unfold owns'. destruct (decide (i = me)) as [->|]; [|by left].
    intros HT. destruct (Hfresh T HT); auto. }
  exists owns'. split; cbn [cf_world cf_threads].
  - by split.
  - intros i T HT. destruct (Hnew i T HT) as [HT'|(_ & _ & ?)]; [|done].
    eapply claimed_mono; [by eapply Hcl|apply Hle].
  - intros i j T Hi Hj. destruct (Hnew i T Hi) as [Hi'|(-> & Hn & _)],
      (Hnew j T Hj) as [Hj'|(-> & Hn' & _)]; [by eapply Hdis| | |done];
      exfalso; eauto.
  - intros i p. destruct (decide (i = me)) as [->|Hne].
    + rewrite list_lookup_insert_eq by (by eapply lookup_lt_Some). intros [= <-].
      unfold owns'. by rewrite decide_True.
    + rewrite list_lookup_insert_ne by done. intros Hp. unfold owns'. rewrite decide_False by done.
      eapply wpo_rely; [by apply Hth|].
      destruct (wl_history _ _ Hle) as [h Eh].
      destruct (world_call_one_change _ _ _ _ _ _ _ _ E Eh) as [->|[e ->]].
      { apply rely_same; [done|]. by rewrite Eh, app_nil_r. }
      eapply rely_snoc; [done|done|]. intros T HT. apply Hresp; [done|].
      intros HT'. destruct (Hfresh T HT') as [Hme|[Hn _]]; [|by eapply Hn, Hcl].
      by apply Hne, (Hdis i me T).
Qed.

(** From a configuration in which every process is verified, every schedule. *)
Lemma run_owned {A} skew Q owns (ts : list turn) (c : config A) :
  owned skew Q owns c -> (w_counter (cf_world c) + Z.of_nat (length ts) <= i64_max)%Z ->
  let c' := run_schedule skew ts c in
  (exists owns', owned skew Q owns' c') /\ world_le (cf_world c) (cf_world c') /\
  (w_counter (cf_world c') <= w_counter (cf_world c) + Z.of_nat (length ts))%Z.
Proof using claimed_mono.
  revert c owns. induction ts as [|t ts IH]; intros c owns Ho Hlen c'.
  - split_and!; [by exists owns|done|]. unfold c'. simpl. lia.
  - simpl in Hlen. destruct (owned_step skew Q owns t c Ho) as ((owns' & Ho') & Hle & Hc'); [lia|].
    destruct (IH _ owns' Ho') as (Hok' & Hle' & Hc''); [lia|].
    split_and!; [done|by etrans|]. unfold c'. simpl in *. lia.
Qed.

Lemma owned_result {A} skew Q owns (c : config A) i a :
  owned skew Q owns c -> cf_threads c !! i = Some (Ret a) -> Q i (owns i) a (cf_world c).
Proof. intros Ho Hi. apply (ow_threads _ _ _ _ Ho _ _ Hi); [apply Ho|done]. Qed.

(** Processes that have not started hold nothing. *)
Lemma owned_start {A} skew Q (c : config A) :
  world_ok (cf_world c) ->
  (forall i p, cf_threads c !! i = Some p -> wpo (skew i) (fun _ => False) p (Q i) (cf_world c)) ->
  owned skew Q (fun _ _ => False) c.
Proof. by split. Qed.
End Ownership.
End Ownership.
