(* ===== verification/Lock.v ===== *)
(** The distributed lock and the publish protocol:
    [crates/arco-core/src/lock.rs] and [publish.rs].

    A lock is a JSON object in the store, taken with a conditional write and left
    to expire; its sequence number is the fencing token of the holder.  The programs
    below make the same calls in the same order as the code; what is left out is
    the back-off between two attempts, during which others run anyway. *)

From S2P Require Import Prelude Storage.
From stdpp Require Import options.

(** ** Durations

    A [std::time::Duration] is its nanoseconds. *)

Abbreviation Duration := N (only parsing).

Definition nanos_per_ms : Z := 1000000.
Definition nanos_per_sec : Z := 1000000000.

(** [chrono::Duration::from_std(d).unwrap_or(chrono::Duration::seconds(30))]: the
    conversion fails above [i64::MAX] milliseconds. *)
Definition chrono_ttl (d : Duration) : Z :=
  if (Z.of_N d <=? i64_max * nanos_per_ms)%Z then Z.of_N d else (30 * nanos_per_sec)%Z.

Definition DEFAULT_LOCK_TTL : Duration := 30000000000.
Definition DEFAULT_MAX_RETRIES : u32 := 5.

(** ** [LockInfo] *)

Record LockInfo := mkLockInfo {
  li_holder_id : string;
  li_expires_at : DateTime;
  li_acquired_at : DateTime;
  li_sequence_number : u64;
  li_operation : option string
}.
#[export] Instance eta_LockInfo : Eta LockInfo :=
  fun r => mkLockInfo (li_holder_id r) (li_expires_at r) (li_acquired_at r)
             (li_sequence_number r) (li_operation r).

(** [LockInfo::new], at the instant [now]. *)
Definition lock_info_new (now : DateTime) (holder_id : string) (ttl : Duration)
    (sequence_number : u64) : LockInfo :=
  mkLockInfo holder_id (now + chrono_ttl ttl) now sequence_number None.

Definition lock_is_expired (now : DateTime) (info : LockInfo) : bool :=
  (li_expires_at info <=? now)%Z.

(** Milliseconds, rounded towards zero. *)
Definition remaining_ttl (now : DateTime) (info : LockInfo) : Duration :=
  let millis := ((li_expires_at info - now) ÷ nanos_per_ms)%Z in
  if (millis <=? 0)%Z then 0%N else (Z.to_N millis * 1000000)%N.

Definition u64_saturating_add (a b : u64) : u64 := N.min (a + b) u64_max.

(** ** Publish permits *)

Abbreviation FencingToken := N (only parsing).

Record PermitIssuer := mkPermitIssuer {
  pi_fencing_token : FencingToken;
  pi_resource : string
}.

Record PublishPermit := mkPublishPermit {
  pp_fencing_token : FencingToken;
  pp_domain : string;
  pp_expected_version : option string;
  pp_commit_ulid : string;
  pp_consumed : bool;
  pp_issuer_resource : string
}.
#[export] Instance eta_PublishPermit : Eta PublishPermit :=
  fun r => mkPublishPermit (pp_fencing_token r) (pp_domain r) (pp_expected_version r)
             (pp_commit_ulid r) (pp_consumed r) (pp_issuer_resource r).

Definition issue_permit_with_commit_ulid (i : PermitIssuer) (domain expected_version
    commit_ulid : string) : PublishPermit :=
  mkPublishPermit (pi_fencing_token i) domain (Some expected_version) commit_ulid false
    (pi_resource i).

Definition issue_create_permit_with_commit_ulid (i : PermitIssuer) (domain commit_ulid : string) :
    PublishPermit :=
  mkPublishPermit (pi_fencing_token i) domain None commit_ulid false (pi_resource i).

(** ** The lock *)

Record DistributedLock := mkDistributedLock {
  dl_lock_path : string;
  dl_holder_id : string
}.

Record LockGuard := mkLockGuard {
  lg_lock_path : string;
  lg_holder_id : string;
  lg_version : string;
  lg_fencing_token : FencingToken;
  lg_released : bool
}.
#[export] Instance eta_LockGuard : Eta LockGuard :=
  fun r => mkLockGuard (lg_lock_path r) (lg_holder_id r) (lg_version r) (lg_fencing_token r)
             (lg_released r).

Definition permit_issuer (g : LockGuard) : PermitIssuer :=
  mkPermitIssuer (lg_fencing_token g) (lg_lock_path g).

Inductive LockError :=
  | AlreadyHeld (holder : string)
  | LockStorage (e : Error).

Section Lock.
Context `{Json LockInfo}.

(** [serde_json::to_vec(&info)], with the error the callers give it. *)
Definition serialize_lock (message : string) (info : LockInfo) : result Error Bytes :=
  match to_vec info with
  | Some b => Ok b
  | None => Err (EInternal message)
  end.

Definition read_lock (lock_path : string) : io (result Error (option LockInfo)) :=
  r ← get_object lock_path;
  Ret match r with
      | Ok data =>
          match from_slice data with
          | Some info => Ok (Some info)
          | None => Err (EInternal "parse lock")
          end
      | Err (ENotFound _) => Ok None
      | Err e => Err e
      end.

(** The guard of a lock that was just written. *)
Definition guard_of (l : DistributedLock) (version : string) (token : FencingToken) : LockGuard :=
  mkLockGuard (dl_lock_path l) (dl_holder_id l) version token false.

(** Take over an expired lock that was seen at version [version]. *)
Definition take_over (l : DistributedLock) (ttl : Duration) (operation : option string)
    (version : string) (info : LockInfo) : io (result LockError LockGuard) :=
  let new_sequence := u64_saturating_add (li_sequence_number info) 1 in
  now ← utc_now_io;
  let new_info := (lock_info_new now (dl_holder_id l) ttl new_sequence)
                    <| li_operation := operation |> in
  match serialize_lock "serialize lock" new_info with
  | Err e => Ret (Err (LockStorage e))
  | Ok bytes =>
      try_with LockStorage (put_object (dl_lock_path l) bytes (MatchesVersion version)) (fun w =>
        Ret match w with
            | WriteSuccess version => Ok (guard_of l version new_sequence)
            | WritePreconditionFailed _ => Err (AlreadyHeld "unknown")
            end)
  end.

Definition try_acquire (l : DistributedLock) (ttl : Duration) (operation : option string) :
    io (result LockError LockGuard) :=
  now ← utc_now_io;
  let lock_info := (lock_info_new now (dl_holder_id l) ttl 1) <| li_operation := operation |> in
  match serialize_lock "serialize lock" lock_info with
  | Err e => Ret (Err (LockStorage e))
  | Ok bytes =>
      try_with LockStorage (put_object (dl_lock_path l) bytes DoesNotExist) (fun w =>
        match w with
        | WriteSuccess version => Ret (Ok (guard_of l version 1))
        | WritePreconditionFailed _ =>
            try_with LockStorage (head_object (dl_lock_path l)) (fun meta =>
              match meta with
              | None => Ret (Err (AlreadyHeld "race"))
              | Some meta =>
                  try_with LockStorage (read_lock (dl_lock_path l)) (fun existing =>
                    match existing with
                    | Some info =>
                        now ← utc_now_io;
                        if lock_is_expired now info
                        then take_over l ttl operation (om_version meta) info
                        else Ret (Err (AlreadyHeld (li_holder_id info)))
                    | None => Ret (Err (AlreadyHeld "race"))
                    end)
              end)
        end)
  end.

(** The retry loop; [fuel] bounds its turns and [acquire_with_operation] gives it
    one more than there can be. *)
Fixpoint acquire_loop (fuel : nat) (l : DistributedLock) (ttl : Duration) (max_retries attempts : u32)
    (operation : option string) : io (result Error LockGuard) :=
  match fuel with
  | O => Ret (Err (EInternal "unreachable"))
  | S fuel =>
      r ← try_acquire l ttl operation;
      match r with
      | Ok guard => Ret (Ok guard)
      | Err (AlreadyHeld holder) =>
          let attempts := (attempts + 1)%N in
          if (max_retries <=? attempts)%N then
            Ret (Err (EPreconditionFailed ("lock held by " +:+ holder +:+ " after "
                                             +:+ pretty max_retries +:+ " retries")))
          else acquire_loop fuel l ttl max_retries attempts operation
      | Err (LockStorage e) => Ret (Err e)
      end
  end.

Definition acquire_with_operation (l : DistributedLock) (ttl : Duration) (max_retries : u32)
    (operation : option string) : io (result Error LockGuard) :=
  acquire_loop (S (N.to_nat max_retries)) l ttl max_retries 0 operation.

Definition acquire (l : DistributedLock) (ttl : Duration) (max_retries : u32) :
    io (result Error LockGuard) := acquire_with_operation l ttl max_retries None.

Definition force_break (l : DistributedLock) : io (result Error unit) :=
  delete_object (dl_lock_path l).

Definition is_locked (l : DistributedLock) : io (result Error bool) :=
  let? info := read_lock (dl_lock_path l) in
  match info with
  | Some info => now ← utc_now_io; Ret (Ok (negb (lock_is_expired now info)))
  | None => Ret (Ok false)
  end.

(** The record that gives a lock back. *)
Definition expired_info (now : DateTime) (holder_id : string) (info : LockInfo) : LockInfo :=
  mkLockInfo holder_id (now - nanos_per_sec) (li_acquired_at info) (li_sequence_number info) None.

Definition do_release (g : LockGuard) : io (result Error LockGuard) :=
  if lg_released g then Ret (Ok g)
  else
    let? info := read_lock (lg_lock_path g) in
    match info with
    | Some info =>
        if decide (li_holder_id info = lg_holder_id g) then
          now ← utc_now_io;
          match serialize_lock "serialize expired lock" (expired_info now (lg_holder_id g) info) with
          | Err e => Ret (Err e)
          | Ok bytes =>
              let? _ := put_object (lg_lock_path g) bytes (MatchesVersion (lg_version g)) in
              Ret (Ok (g <| lg_released := true |>))
          end
        else Ret (Ok (g <| lg_released := true |>))
    | None => Ret (Ok (g <| lg_released := true |>))
    end.

(** [LockGuard::extend]: its result and the guard it leaves. *)
Definition extend (g : LockGuard) (additional_ttl : Duration) : io (result Error LockGuard) :=
  let? current := read_lock (lg_lock_path g) in
  match current with
  | Some info =>
      if decide (li_holder_id info = lg_holder_id g) then
        now ← utc_now_io;
        let new_info := info <| li_expires_at := (now + chrono_ttl additional_ttl)%Z |> in
        match serialize_lock "serialize lock" new_info with
        | Err e => Ret (Err e)
        | Ok bytes =>
            let? meta := head_object (lg_lock_path g) in
            match meta with
            | None => Ret (Err (ENotFound (lg_lock_path g)))
            | Some meta =>
                let? w := put_object (lg_lock_path g) bytes (MatchesVersion (om_version meta)) in
                Ret match w with
                    | WriteSuccess version => Ok (g <| lg_version := version |>)
                    | WritePreconditionFailed _ =>
                        Err (EPreconditionFailed "lock modified by another holder")
                    end
            end
        end
      else Ret (Err (EPreconditionFailed "lock held by different holder"))
  | None => Ret (Err (ENotFound (lg_lock_path g)))
  end.

(** The task [Drop] spawns for a guard that was not released. *)
Definition drop_guard (g : LockGuard) : io unit :=
  if lg_released g then Ret tt
  else
    meta ← head_object (lg_lock_path g);
    match meta with
    | Ok (Some meta) =>
        if decide (om_version meta = lg_version g) then
          data ← get_object (lg_lock_path g);
          match data with
          | Ok data =>
              match from_slice data with
              | Some info =>
                  if decide (li_holder_id info = lg_holder_id g) then
                    now ← utc_now_io;
                    match to_vec (expired_info now (lg_holder_id g) info) with
                    | Some bytes =>
                        _ ← put_object (lg_lock_path g) bytes (MatchesVersion (lg_version g));
                        Ret tt
                    | None => Ret tt
                    end
                  else Ret tt
              | None => Ret tt
              end
          | Err _ => Ret tt
          end
        else Ret tt
    | _ => Ret tt
    end.
End Lock.

(** ** Publication *)

(** [Publisher::publish]: conditional on the permit's version, and the permit is
    consumed whatever the outcome of the write. *)
Definition publish (permit : PublishPermit) (key : string) (data : Bytes) :
    io (result Error WriteResult * PublishPermit) :=
  r ← match pp_expected_version permit with
      | Some version => put_object key data (MatchesVersion version)
      | None => put_object key data DoesNotExist
      end;
  match r with
  | Err e => Ret (Err e, permit)
  | Ok w => Ret (Ok w, permit <| pp_consumed := true |>)
  end.

Inductive SnapshotPointerDurability := DurVisible | DurPersisted.

#[export] Instance durability_eq_dec : EqDecision SnapshotPointerDurability.
Proof. solve_decision. Defined.

Inductive SnapshotPointerPublishOutcome :=
  | Visible (pointer_version : string) (repair_pending : bool)
  | PersistedNotVisible.

(** [before_pointer_publish] is the caller's future, awaited between the
    snapshot and the pointer. *)
Definition publish_snapshot_pointer_transaction (put_raw : string -> Bytes -> WritePrecondition ->
      io (result Error WriteResult))
    (snapshot_path : string) (snapshot_payload : Bytes)
    (pointer_path : string) (pointer_payload : Bytes) (expected_pointer_version : option string)
    (legacy_mirror : option (string * Bytes)) (durability : SnapshotPointerDurability)
    (before_pointer_publish : io (result Error unit)) :
    io (result Error SnapshotPointerPublishOutcome) :=
  let? snapshot_result := put_raw snapshot_path snapshot_payload DoesNotExist in
  match snapshot_result with
  | WritePreconditionFailed _ =>
      Ret (Err (EPreconditionFailed
                  ("immutable manifest snapshot already exists: " +:+ snapshot_path)))
  | WriteSuccess _ =>
      let? _ := before_pointer_publish in
      let pointer_precondition :=
        match expected_pointer_version with
        | None => DoesNotExist
        | Some v => MatchesVersion v
        end in
      let? pointer_result := put_raw pointer_path pointer_payload pointer_precondition in
      match pointer_result with
      | WriteSuccess version =>
          match legacy_mirror with
          | Some (legacy_path, legacy_payload) =>
              r ← put_raw legacy_path legacy_payload Unconditional;
              Ret (Ok (Visible version (negb (is_ok r))))
          | None => Ret (Ok (Visible version false))
          end
      | WritePreconditionFailed _ =>
          if decide (durability = DurPersisted) then Ret (Ok PersistedNotVisible)
          else Ret (Err (EPreconditionFailed "manifest publish failed - concurrent write"))
      end
  end.
