(* ===== verification/LockProps.v ===== *)
(** The lock under every interleaving.

    Any number of users take, release and drop one lock, in any order, with lost
    requests and responses, crashes and clocks that disagree.  The invariant is a
    property of the successive records of the lock object. *)

From S2P Require Import Prelude Storage Interleave Lock.
From stdpp Require Import sorting options.

(** ** The records of a lock *)

(** The objects written at a path, oldest first. *)
Definition writes_at (p : string) (h : list change) : list StoredObject :=
  omap (fun e =>
    match e with
    | Wrote q o => if decide (q = p) then Some o else None
    | Deleted _ => None
    end) h.

Lemma writes_at_app p h h' : writes_at p (h ++ h') = writes_at p h ++ writes_at p h'.
Proof. apply omap_app. Qed.

Lemma writes_at_elem p h o : o ∈ writes_at p h <-> Wrote p o ∈ h.
Proof.
  unfold writes_at. rewrite list_elem_of_omap. split.
  - intros ([q u|q] & Hin & E); [|done]. case_decide; by simplify_eq.
  - intros Hin. eexists; split; [done|]. simpl. by rewrite decide_True.
Qed.

Lemma writes_at_stored p h o : replay h !! p = Some o -> last (writes_at p h) = Some o.
Proof.
  induction h as [|e h IH] using rev_ind; [done|].
  rewrite replay_snoc, writes_at_app. destruct e as [q u|q]; simpl.
  - destruct (decide (q = p)) as [->|Hne]; simpl.
    + rewrite lookup_insert_eq. intros [= ->]. by rewrite last_snoc.
    + rewrite lookup_insert_ne, app_nil_r by done. apply IH.
  - rewrite app_nil_r. destruct (decide (q = p)) as [->|Hne]; [by rewrite lookup_delete_eq|].
    rewrite lookup_delete_ne by done. apply IH.
Qed.

Lemma writes_at_absent p h : replay h !! p = None -> Deleted p ∉ h -> writes_at p h = [].
Proof.
  intros Hnone Hnd. destruct (writes_at p h) as [|o l] eqn:E; [done|].
  destruct (written_stored h p o) as [o' Ho']; [|done|congruence].
  apply writes_at_elem. rewrite E. by left.
Qed.

Lemma writes_at_sorted w p :
  world_wf w -> StronglySorted Z.lt (so_version <$> writes_at p (w_history w)).
Proof.
  intros Hwf. pose proof (ww_sorted w Hwf) as Hs. revert Hs.
  generalize (w_history w). clear. induction l as [|e l IH]; [by constructor|].
  destruct e as [q o|q]; simpl; [|done]. intros [Hs Ho]%StronglySorted_inv.
  case_decide; simpl; [|by apply IH]. constructor; [by apply IH|].
  rewrite Forall_forall in Ho |- *. intros v (u & -> & Hu)%list_elem_of_fmap.
  apply Ho, (change_versions_elem _ q). apply writes_at_elem. by subst.
Qed.

Lemma StronglySorted_reverse (l : list Z) :
  StronglySorted Z.lt l -> StronglySorted Z.gt (reverse l).
Proof.
  induction 1 as [|x l Hl IH Hx]; [by constructor|]. rewrite reverse_cons.
  assert (Forall (Z.lt x) (reverse l)) as Hx' by (by rewrite reverse_Permutation).
  revert IH Hx'. generalize (reverse l). clear. intros k.
  induction k as [|v k IHk]; simpl; [repeat constructor|].
  intros [? ?]%StronglySorted_inv [? ?]%Forall_cons. constructor; [by apply IHk|].
  apply Forall_app. split; [done|]. repeat constructor. lia.
Qed.

Section LockProps.
Context `{Json LockInfo} (L : string).

Definition lock_rec (o : StoredObject) : option LockInfo := from_slice (so_data o).

(** A record follows another when the holder gives the lock back, or when a new
    holder takes over a lock it found expired, under the next number. *)
Inductive lock_next (i j : LockInfo) : Prop :=
  | next_released :
      li_holder_id j = li_holder_id i -> li_acquired_at j = li_acquired_at i ->
      li_sequence_number j = li_sequence_number i -> lock_next i j
  | next_taken_over :
      li_sequence_number j = (li_sequence_number i + 1)%N ->
      (li_expires_at i <= li_acquired_at j)%Z -> lock_next i j.

(** Newest first. *)
Inductive lock_chain : list StoredObject -> Prop :=
  | chain_nil : lock_chain []
  | chain_first o i :
      lock_rec o = Some i -> li_sequence_number i = 1%N -> lock_chain [o]
  | chain_next o o' l i i' :
      lock_chain (o :: l) -> lock_rec o = Some i -> lock_rec o' = Some i' -> lock_next i i' ->
      lock_chain (o' :: o :: l).

Definition lock_inv (h : list change) : Prop :=
  (Deleted L ∉ h) /\ lock_chain (reverse (writes_at L h)).

Lemma lock_chain_rec l o : lock_chain l -> o ∈ l -> is_Some (lock_rec o).
Proof. induction 1; set_solver. Qed.

Lemma lock_next_seq i j :
  lock_next i j -> (li_sequence_number i <= li_sequence_number j <= li_sequence_number i + 1)%N.
Proof. intros []; lia. Qed.

(** Numbers never go down. *)
Lemma lock_chain_mono l o o' i i' :
  lock_chain (o :: l) -> o' ∈ o :: l -> lock_rec o = Some i -> lock_rec o' = Some i' ->
  (li_sequence_number i' <= li_sequence_number i)%N.
Proof.
  intros Hc. remember (o :: l) as k eqn:Ek. revert o l i Ek.
  induction Hc as [|u j Hu Hj|u u' k j j' Hc IH Hu Hu' Hn]; intros o l i Ek; simplify_eq.
  - intros ->%list_elem_of_singleton. naive_solver.
  - intros [->|Hin]%elem_of_cons ??; [naive_solver lia|].
    assert (li_sequence_number i' <= li_sequence_number j)%N by (by eapply IH).
    apply lock_next_seq in Hn. naive_solver lia.
Qed.

(** A number is at most the version of its record, so it never reaches the bound
    of the saturating addition. *)
Lemma lock_chain_bound l o i :
  lock_chain l -> StronglySorted Z.gt (so_version <$> l) ->
  Forall (fun o => 0 < so_version o)%Z l -> o ∈ l -> lock_rec o = Some i ->
  (Z.of_N (li_sequence_number i) <= so_version o)%Z.
Proof.
  intros Hc. revert o i.
  induction Hc as [|u j Hu Hj|u u' k j j' Hc IH Hu Hu' Hn]; intros o i Hs Hpos.
  - by intros ?%elem_of_nil.
  - intros ->%list_elem_of_singleton Hi. simplify_eq. inversion Hpos; subst. lia.
  - simpl in Hs. apply StronglySorted_inv in Hs as [Hs Hgt].
    inversion Hpos as [|?? Hp Hps]; subst.
    intros [->|Hin]%elem_of_cons Hi; [|by apply IH].
    assert (Z.of_N (li_sequence_number j) <= so_version u)%Z.
    { apply IH; try done. by left. }
    inversion Hgt; subst. apply lock_next_seq in Hn. simplify_eq. lia.
Qed.

(** ** The invariant is kept *)

Lemma lock_inv_other h p o : p <> L -> lock_inv h -> lock_inv (h ++ [Wrote p o]).
Proof.
  intros Hne [Hnd Hc]. split; [set_solver|].
  rewrite writes_at_app. simpl. rewrite decide_False by done. by rewrite app_nil_r.
Qed.

Lemma lock_inv_wrote h o :
  lock_inv h -> lock_chain (o :: reverse (writes_at L h)) -> lock_inv (h ++ [Wrote L o]).
Proof.
  intros [Hnd _] Hc. split; [set_solver|].
  rewrite writes_at_app. simpl. rewrite decide_True by done. by rewrite reverse_snoc.
Qed.

Lemma lock_inv_created w o i :
  world_ok lock_inv w -> w_objects w !! L = None ->
  lock_rec o = Some i -> li_sequence_number i = 1%N ->
  lock_inv (w_history w ++ [Wrote L o]).
Proof.
  intros [Hwf Hinv] Hnone Hi Hseq. apply lock_inv_wrote; [done|].
  rewrite (ww_replay w Hwf) in Hnone.
  rewrite (writes_at_absent _ _ Hnone (proj1 Hinv)). by eapply chain_first.
Qed.

Lemma lock_stored_chain w o :
  world_ok lock_inv w -> w_objects w !! L = Some o ->
  exists l, reverse (writes_at L (w_history w)) = o :: l.
Proof.
  intros [Hwf _] Ho. rewrite (ww_replay w Hwf) in Ho.
  apply writes_at_stored, last_Some in Ho as [l ->]. rewrite reverse_snoc. eauto.
Qed.

Lemma lock_inv_next w o o' i i' :
  world_ok lock_inv w -> w_objects w !! L = Some o ->
  lock_rec o = Some i -> lock_rec o' = Some i' -> lock_next i i' ->
  lock_inv (w_history w ++ [Wrote L o']).
Proof.
  intros Hok Ho Hi Hi' Hn. apply lock_inv_wrote; [apply Hok|].
  destruct (lock_stored_chain w o Hok Ho) as [l El]. pose proof (proj2 (proj2 Hok)) as Hc.
  rewrite El in Hc |- *. by eapply chain_next.
Qed.

Lemma lock_seq_bound w o i :
  world_ok lock_inv w -> Wrote L o ∈ w_history w -> lock_rec o = Some i ->
  (Z.of_N (li_sequence_number i) <= so_version o)%Z.
Proof.
  intros [Hwf [_ Hc]] Hin Hi. eapply lock_chain_bound; [exact Hc| | | |done].
  - rewrite fmap_reverse. by apply StronglySorted_reverse, writes_at_sorted.
  - apply Forall_forall. intros u Hu%elem_of_reverse%writes_at_elem.
    pose proof (written_version w L u Hwf Hu). simpl. lia.
  - by apply elem_of_reverse, writes_at_elem.
Qed.

(** ** Acquisitions

    The write of version [v] took the lock under the number of [i]: every record
    before it has a smaller one. *)

Definition acquisition (h : list change) (v : Z) (i : LockInfo) : Prop :=
  exists o, Wrote L o ∈ h /\ so_version o = v /\ lock_rec o = Some i /\
    forall o' i', Wrote L o' ∈ h -> (so_version o' < v)%Z -> lock_rec o' = Some i' ->
      (li_sequence_number i' < li_sequence_number i)%N.

Lemma history_older w w' p o p' o' :
  world_wf w' -> world_le w w' -> Wrote p o ∈ w_history w -> Wrote p' o' ∈ w_history w' ->
  (so_version o' < so_version o)%Z -> Wrote p' o' ∈ w_history w.
Proof.
  intros Hwf [_ _ [k Ek]] Ho Ho' Hv. pose proof (ww_sorted w' Hwf) as Hs.
  rewrite Ek in *. apply elem_of_app in Ho' as [|Ho']; [done|]. exfalso.
  rewrite change_versions_app in Hs.
  apply change_versions_elem in Ho, Ho'. clear -Hs Ho Ho' Hv.
  induction (change_versions (w_history w)) as [|x l IH]; [by apply elem_of_nil in Ho|].
  simpl in Hs. apply StronglySorted_inv in Hs as [Hs Hx].
  apply elem_of_cons in Ho as [Hox|Ho]; [|by apply IH].
  rewrite Forall_forall in Hx. assert (x < so_version o')%Z; [|lia].
  apply Hx. apply elem_of_app. by right.
Qed.

Lemma acquisition_le w w' v i :
  world_wf w' -> world_le w w' -> acquisition (w_history w) v i -> acquisition (w_history w') v i.
Proof.
  intros Hwf Hle (o & Ho & <- & Hi & Hold). exists o. split_and!; try done.
  - by eapply written_le.
  - intros o' i' Ho' Hv. apply Hold; [|done]. by eapply history_older.
Qed.

Lemma acquisition_created w w' o i :
  world_ok lock_inv w -> w_objects w !! L = None -> world_wf w' ->
  w_history w' = w_history w ++ [Wrote L o] -> lock_rec o = Some i ->
  acquisition (w_history w') (so_version o) i.
Proof.
  intros [Hwf Hinv] Hnone Hwf' Hh Hi. rewrite (ww_replay w Hwf) in Hnone.
  pose proof (writes_at_absent _ _ Hnone (proj1 Hinv)) as Hw.
  exists o. rewrite Hh. split_and!; [set_solver|done..|].
  intros o' i' [Hin|[= ->]%list_elem_of_singleton]%elem_of_app Hv _; [|lia].
  apply writes_at_elem in Hin. rewrite Hw in Hin. by apply elem_of_nil in Hin.
Qed.

Lemma acquisition_taken_over w h' o o' i i' :
  world_ok lock_inv w -> w_objects w !! L = Some o -> lock_rec o = Some i ->
  h' = w_history w ++ [Wrote L o'] -> lock_rec o' = Some i' ->
  (li_sequence_number i < li_sequence_number i')%N ->
  acquisition h' (so_version o') i'.
Proof.
  intros Hok Ho Hi -> Hi' Hlt. exists o'. split_and!; [set_solver|done..|].
  intros u j [Hin|[= ->]%list_elem_of_singleton]%elem_of_app Hv Hj; [|lia].
  destruct (lock_stored_chain w o Hok Ho) as [l El].
  assert (li_sequence_number j <= li_sequence_number i)%N; [|lia].
  eapply (lock_chain_mono l o u); [|rewrite <- El|done..].
  - rewrite <- El. apply Hok.
  - by apply elem_of_reverse, writes_at_elem.
Qed.

(** ** The programs *)

Context `{!JsonLaws LockInfo}.
#[local] Set Default Proof Using "Type*".

Abbreviation ok := (world_ok lock_inv).
Abbreviation wpl := (wp lock_inv).

Lemma serialized_rec m i b o : serialize_lock m i = Ok b -> so_data o = b -> lock_rec o = Some i.
Proof.
  unfold serialize_lock, lock_rec. destruct (to_vec i) as [b'|] eqn:E; [|done].
  intros [= ->] ->. by apply from_slice_to_vec.
Qed.

(** What a successful acquisition returns. *)
Definition acquired {E} (l : DistributedLock) (r : result E LockGuard) (w : world) : Prop :=
  match r with
  | Ok g => exists v i, lg_version g = pretty v /\ acquisition (w_history w) v i /\
              li_sequence_number i = lg_fencing_token g /\ li_holder_id i = dl_holder_id l /\
              lg_lock_path g = dl_lock_path l
  | Err _ => True
  end.

Lemma acquired_le {E} l (r : result E LockGuard) w w' :
  ok w' -> world_le w w' -> acquired l r w -> acquired l r w'.
Proof.
  destruct r as [g|e]; [|done]. intros [Hwf _] Hle (v & i & Hv & Ha & ?).
  exists v, i. split_and!; try naive_solver. by eapply acquisition_le.
Qed.

Lemma wp_read_lock sk w :
  wpl sk (read_lock L) (fun r w' =>
    match r with
    | Ok (Some i) => exists o, saw L w o w' /\ lock_rec o = Some i
    | _ => True
    end) w.
Proof.
  apply wp_get. intros w1 Hok Hle. split; [|done].
  unfold mb_get. destruct (mb_objects (w_backend w1) !! L) as [o|] eqn:Ho; [|done].
  intros w2 Hok2 Hle2. destruct (from_slice (so_data o)) as [i|] eqn:Hi; [|done].
  exists o. split; [|done]. by apply (saw_current lock_inv w w1 w2).
Qed.

Lemma wp_take_over sk l ttl op w o1 o2 info :
  dl_lock_path l = L -> ok w ->
  Wrote L o1 ∈ w_history w -> Wrote L o2 ∈ w_history w -> (so_version o1 <= so_version o2)%Z ->
  lock_rec o2 = Some info -> (li_expires_at info <= w_clock w + sk)%Z ->
  wpl sk (take_over l ttl op (pretty (so_version o1)) info) (acquired l) w.
Proof.
  intros Hp Hok H1 H2 Hle Hi Hexp. apply wp_now_bind. intros w1 Hok1 Hle1. cbv beta zeta.
  destruct (serialize_lock _ _) as [b|e] eqn:Hser; [|done]. rewrite Hp.
  apply wp_put_try; [done|done|]. intros w2 o Hok2 Hle2 Hc Hpre Hdata Hv _.
  assert (world_le w w2) as Hle02 by (by etrans).
  destruct (cas_current_read w2 L o1 o2) as [Hcur ->];
    [apply Hok2|lia|by eapply written_le|by eapply written_le|done|done|].
  pose proof (serialized_rec _ _ _ _ Hser Hdata) as Hi'.
  pose proof (lock_seq_bound w2 o1 info Hok2 (written_le _ _ _ _ Hle02 H1) Hi) as Hb.
  pose proof (written_version w2 L o1 (proj1 Hok2) (written_le _ _ _ _ Hle02 H1)) as Hv1.
  assert (u64_saturating_add (li_sequence_number info) 1 = li_sequence_number info + 1)%N as Hs.
  { unfold u64_saturating_add, u64_max, i64_max in *. lia. }
  split.
  - eapply lock_inv_next; [done..|]. apply next_taken_over; simpl; [done|].
    pose proof (wl_clock _ _ Hle1). lia.
  - intros w3 Hok3 Hle3 Hh _ w4 Hok4 Hle4. eapply acquired_le; [done..|].
    exists (so_version o). match type of Hi' with _ = Some ?i => exists i end.
    split; [done|]. split; [|done].
    eapply acquisition_taken_over; [exact Hok2|exact Hcur|done..|]. simpl. lia.
Qed.

Lemma wp_try_acquire sk l ttl op w :
  dl_lock_path l = L -> ok w -> wpl sk (try_acquire l ttl op) (acquired l) w.
Proof.
  intros Hp Hok. apply wp_now_bind. intros w1 Hok1 Hle1. cbv beta zeta.
  destruct (serialize_lock _ _) as [b|e] eqn:Hser; [|done]. rewrite Hp.
  apply wp_put_try; [|done|].
  - intros w2 cur Hok2 Hle2 _. cbv beta. apply wp_try; [done|].
    eapply wp_mono; [|apply wp_head_saw]. intros [[meta|]|e] w3 Hok3 Hle3; [|done..].
    intros (o1 & Hsaw1 & ->). apply wp_try; [done|].
    eapply wp_mono; [|apply wp_read_lock]. intros [[info|]|e] w4 Hok4 Hle4; [|done..].
    intros (o2 & Hsaw2 & Hi). apply wp_now_bind. intros w5 Hok5 Hle5. cbv beta.
    destruct (lock_is_expired _ info) eqn:Hexp; [|done].
    eapply (wp_take_over _ _ _ _ _ _ o2); try done.
    + eapply written_le; [|apply Hsaw1]. by etrans.
    + eapply written_le; [done|apply Hsaw2].
    + apply Hsaw2, Hsaw1.
    + unfold lock_is_expired in Hexp. lia.
  - intros w2 o Hok2 Hle2 Hc Hpre Hdata Hv _.
    assert (w_objects w2 !! L = None) as Hnone by (destruct (w_objects w2 !! L); done).
    pose proof (serialized_rec _ _ _ _ Hser Hdata) as Hi'. split.
    + by eapply lock_inv_created.
    + intros w3 Hok3 Hle3 Hh _ w4 Hok4 Hle4. eapply acquired_le; [done..|].
      exists (so_version o). match type of Hi' with _ = Some ?i => exists i end.
    split; [done|]. split; [|done].
      eapply acquisition_created; [exact Hok2|done|apply Hok3|done..].
Qed.

Lemma wp_acquire_loop sk fuel l ttl mr at_ op w :
  dl_lock_path l = L -> ok w -> wpl sk (acquire_loop fuel l ttl mr at_ op) (acquired l) w.
Proof.
  intros Hp. revert at_ w. induction fuel as [|fuel IH]; intros at_ w Hok; [done|].
  apply wp_bind; [done|]. eapply wp_mono; [|by apply wp_try_acquire].
  intros [g|[holder|e]] w1 Hok1 Hle1 Hacq; cbv beta iota zeta.
  - intros w2 Hok2 Hle2. by eapply (acquired_le (E := Error)).
  - destruct (mr <=? _)%N; [done|]. by apply IH.
  - done.
Qed.

(** Giving the lock back replaces the guard's own record, or nothing. *)
Lemma wp_give_back sk g info bytes w o1 o2 m {B} (f : WriteResult -> io (result Error B)) Q :
  ok w -> lg_version g = pretty (so_version o1) ->
  Wrote L o1 ∈ w_history w -> Wrote L o2 ∈ w_history w -> (so_version o1 <= so_version o2)%Z ->
  lock_rec o2 = Some info -> li_holder_id info = lg_holder_id g ->
  (exists t, serialize_lock m (expired_info t (lg_holder_id g) info) = Ok bytes) ->
  (forall w' r, ok w' -> world_le w w' -> wpl sk (f r) Q w') ->
  (forall w' e, ok w' -> world_le w w' -> wpl sk (Ret (Err e)) Q w') ->
  wpl sk (try_bind (put_object L bytes (MatchesVersion (lg_version g))) f) Q w.
Proof.
  intros Hok -> H1 H2 Hle Hi Hh [t Hser] Hf He. apply wp_put_try; [by auto|by auto|].
  intros w2 o Hok2 Hle2 Hc Hpre Hdata Hv _.
  destruct (cas_current_read w2 L o1 o2) as [Hcur ->];
    [apply Hok2|lia|by eapply written_le|by eapply written_le|done|done|].
  pose proof (serialized_rec _ _ _ _ Hser Hdata) as Hi'. split.
  - eapply lock_inv_next; [done..|]. by apply next_released.
  - intros w3 Hok3 Hle3 _ _. apply Hf; [done|by etrans].
Qed.

Lemma wp_do_release sk g w o1 :
  lg_lock_path g = L -> ok w -> lg_version g = pretty (so_version o1) ->
  Wrote L o1 ∈ w_history w -> wpl sk (do_release g) (fun _ _ => True) w.
Proof.
  intros Hp Hok Hv H1. unfold do_release. destruct (lg_released g); [done|]. rewrite Hp.
  apply wp_try; [done|]. eapply wp_mono; [|apply wp_read_lock].
  intros [[info|]|e] w1 Hok1 Hle1; [|done..]. intros (o2 & Hsaw & Hi).
  destruct (decide _) as [Hh|]; [|done]. apply wp_now_bind. intros w2 Hok2 Hle2. cbv beta.
  destruct (serialize_lock _ _) as [b|] eqn:Hser; [|done].
  eapply (wp_give_back _ _ _ _ _ o1 o2); try done.
  - eapply written_le; [|done]. by etrans.
  - eapply written_le; [done|apply Hsaw].
  - by apply Hsaw.
  - by eexists.
Qed.

Lemma wp_drop_guard sk g w o1 :
  lg_lock_path g = L -> ok w -> lg_version g = pretty (so_version o1) ->
  Wrote L o1 ∈ w_history w -> wpl sk (drop_guard g) (fun _ _ => True) w.
Proof.
  intros Hp Hok Hv H1. unfold drop_guard. destruct (lg_released g); [done|]. rewrite Hp.
  apply wp_bind; [done|]. eapply wp_mono; [|apply wp_head_saw].
  intros [[meta|]|e] w1 Hok1 Hle1; [|done..]. intros _.
  destruct (decide _) as [_|]; [|done].
  apply wp_bind; [done|]. eapply wp_mono; [|apply wp_get_saw].
  intros [data|e] w2 Hok2 Hle2; [|done]. intros (o2 & Hsaw & <-).
  destruct (from_slice (so_data o2)) as [info|] eqn:Hi; [|done].
  destruct (decide _) as [Hh|]; [|done]. apply wp_now_bind. intros w3 Hok3 Hle3. cbv beta.
  destruct (to_vec _) as [b|] eqn:Hser; [|done].
  assert (world_le w w3) as Hle by (etrans; [done|]; by etrans).
  apply wp_put; [done|done|]. intros w4 o Hok4 Hle4 Hc Hpre Hdata _ _.
  rewrite Hv in Hpre.
  destruct (cas_current_read w4 L o1 o2) as [Hcur ->]; [apply Hok4|lia| | | |done|].
  - eapply written_le; [|done]. by etrans.
  - eapply written_le; [|apply Hsaw]. by etrans.
  - apply Hsaw. eapply written_le; done.
  - split; [|done]. apply from_slice_to_vec in Hser as Hi'. rewrite <- Hdata in Hi'.
    eapply lock_inv_next; [done..|]. by apply next_released.
Qed.

(** ** Users of the lock *)

(** How a user ends: it releases the guard, drops it, or crashes with it. *)
Inductive ending := Released | Dropped | Crashed.

Record lock_user := mkLockUser {
  lu_holder : string; lu_ttl : Duration; lu_retries : u32; lu_operation : option string;
  lu_ending : ending
}.

Definition user_lock (u : lock_user) : DistributedLock := mkDistributedLock L (lu_holder u).

Definition lock_session (u : lock_user) : io (result Error LockGuard) :=
  let? g := acquire_with_operation (user_lock u) (lu_ttl u) (lu_retries u) (lu_operation u) in
  match lu_ending u with
  | Released => _ ← do_release g; Ret (Ok g)
  | Dropped => _ ← drop_guard g; Ret (Ok g)
  | Crashed => Ret (Ok g)
  end.

Lemma wp_lock_session sk u w : ok w -> wpl sk (lock_session u) (acquired (user_lock u)) w.
Proof.
  intros Hok. apply wp_try; [done|]. eapply wp_mono; [|by apply wp_acquire_loop].
  intros [g|e] w1 Hok1 Hle1; [|done]. intros Hacq.
  assert (exists o, lg_lock_path g = L /\ lg_version g = pretty (so_version o) /\
    Wrote L o ∈ w_history w1) as (o & Hp & Hv & Ho).
  { destruct Hacq as (v & i & Hv & (o & Ho & <- & _) & _ & _ & Hp). by exists o. }
  assert (forall w2, ok w2 -> world_le w1 w2 -> wpl sk (Ret (Ok g)) (acquired (E := Error) (user_lock u)) w2)
    as Hret.
  { intros w2 Hok2 Hle2 w3 Hok3 Hle3. eapply (acquired_le (E := Error)); [done| |done]. by etrans. }
  destruct (lu_ending u); [| |by apply Hret].
  - apply wp_bind; [done|]. eapply wp_mono; [|by eapply wp_do_release]. intros _ w2 ?? _.
    by apply Hret.
  - apply wp_bind; [done|]. eapply wp_mono; [|by eapply wp_drop_guard]. intros _ w2 ?? _.
    by apply Hret.
Qed.

(** The world in which nothing was stored yet satisfies the invariant. *)
Lemma world_new_ok clock : ok (world_new clock).
Proof.
  split; [|split; [by intros ?%elem_of_nil|constructor]].
  split; [done|constructor|constructor|done].
Qed.

(** The state of the users after a schedule. *)
Definition lock_run (skew : nat -> Z) (clock : DateTime) (users : list lock_user)
    (ts : list turn) : config (result Error LockGuard) :=
  run_schedule skew ts (mkConfig (lock_session <$> users) (world_new clock)).

Lemma lock_run_sound skew clock users ts :
  (Z.of_nat (length ts) <= i64_max)%Z ->
  ok (cf_world (lock_run skew clock users ts)) /\
  forall i u r, users !! i = Some u ->
    cf_threads (lock_run skew clock users ts) !! i = Some (Ret r) ->
    acquired (user_lock u) r (cf_world (lock_run skew clock users ts)).
Proof.
  intros Hlen.
  destruct (run_schedule_sound lock_inv skew
    (fun i r w => forall u, users !! i = Some u -> acquired (user_lock u) r w)
    ts (mkConfig (lock_session <$> users) (world_new clock))) as (Hok & _ & Hth & _).
  - apply world_new_ok.
  - intros i p Hp. simpl in Hp. apply list_lookup_fmap_Some in Hp as (u & -> & Hu).
    eapply wp_mono; [|apply wp_lock_session, world_new_ok].
    intros r w' _ _ Hr u' Hu'. by simplify_eq.
  - done.
  - split; [done|]. intros i u r Hu Hr.
    by apply (Hth i (Ret r) Hr _ Hok ltac:(done) u Hu).
Qed.

(** ** Fencing *)

(** Guards of different users carry different tokens, ordered as the lock was
    taken. *)
Lemma acquisitions_fenced w v v' i i' :
  world_wf w -> acquisition (w_history w) v i -> acquisition (w_history w) v' i' ->
  li_holder_id i <> li_holder_id i' ->
  v <> v' /\ ((v < v')%Z <-> (li_sequence_number i < li_sequence_number i')%N).
Proof.
  intros Hwf (o & Ho & <- & Hi & Hold) (o' & Ho' & <- & Hi' & Hold') Hne.
  assert (so_version o <> so_version o') as Hv.
  { intros Hv. destruct (history_version_inj w L L o o') as [_ ->]; [done..|].
    congruence. }
  split; [done|]. split; intros Hlt.
  - by apply (Hold' o i).
  - destruct (Z.lt_total (so_version o) (so_version o')) as [|[|Hgt]]; [done..|].
    specialize (Hold o' i' Ho' Hgt Hi'). lia.
Qed.


Lemma lock_chain_adjacent l1 o' o l2 :
  lock_chain (l1 ++ o' :: o :: l2) ->
  exists i i', lock_rec o = Some i /\ lock_rec o' = Some i' /\ lock_next i i'.
Proof.
  induction l1 as [|u l1 IH]; simpl; intros Hc; inversion Hc; subst; eauto.
  - by destruct l1.
  - apply IH. congruence.
Qed.

End LockProps.

(** ** A single user

    What [acquire] returns when nobody else runs. *)

Section Alone.
Context `{Json LockInfo, !JsonLaws LockInfo}.
Context (serializable : forall i : LockInfo, is_Some (to_vec i)).
Context (l : DistributedLock) (ttl : Duration) (operation : option string) (now : DateTime).

(** The lock was taken, under the number [n], by one write. *)
Definition taken {E} (n : u64) (b : MemoryBackend) (out : result E LockGuard * MemoryBackend) :
    Prop :=
  exists o, out.1 = Ok (guard_of l (pretty (so_version o)) n) /\
    mb_objects out.2 = <[dl_lock_path l := o]> (mb_objects b) /\
    from_slice (so_data o) =
      Some (mkLockInfo (dl_holder_id l) (now + chrono_ttl ttl) now n operation).

Definition acquire_outcome {E} (held : string -> E) (bad : E) (b : MemoryBackend)
    (out : result E LockGuard * MemoryBackend) : Prop :=
  match mb_objects b !! dl_lock_path l with
  | None => taken 1 b out
  | Some o =>
      match from_slice (so_data o) with
      | Some info =>
          if lock_is_expired now info
          then taken (u64_saturating_add (li_sequence_number info) 1) b out
          else out = (Err (held (li_holder_id info)), b)
      | None => out = (Err bad, b)
      end
  end.

Lemma try_acquire_alone b :
  (forall o, mb_objects b !! dl_lock_path l = Some o -> (i64_min <= so_version o <= i64_max)%Z) ->
  acquire_outcome AlreadyHeld (LockStorage (EInternal "parse lock")) b
    (run_alone (try_acquire l ttl operation) now b).
Proof using All.
  intros Hver. unfold acquire_outcome, try_acquire, serialize_lock. rewrite run_alone_bind.
  cbn [run_alone utc_now_io await run_call].
  destruct (serializable ((lock_info_new now (dl_holder_id l) ttl 1) <| li_operation := operation |>))
    as [d Hd]. rewrite Hd. unfold try_with. rewrite run_alone_bind.
  cbn [run_alone put_object await run_call]. unfold mb_put.
  destruct (mb_objects b !! dl_lock_path l) as [o|] eqn:Ho; cbn [precondition_failure].
  - rewrite run_alone_bind. cbn [run_alone head_object await run_call mb_head]. unfold mb_head.
    rewrite Ho. cbn [fmap option_fmap option_map]. rewrite run_alone_bind. unfold read_lock.
    rewrite run_alone_bind. cbn [run_alone get_object await run_call]. unfold mb_get. rewrite Ho.
    destruct (from_slice (so_data o)) as [info|] eqn:Hi; [|done].
    rewrite run_alone_bind. cbn [run_alone utc_now_io await run_call].
    destruct (lock_is_expired now info); [|done].
    unfold take_over, serialize_lock. rewrite run_alone_bind.
    cbn [run_alone utc_now_io await run_call].
    match goal with |- context [to_vec ?i] => destruct (serializable i) as [d' Hd'] end.
    rewrite Hd'. unfold try_with. rewrite run_alone_bind.
    cbn [run_alone put_object await run_call]. unfold mb_put.
    cbn [om_version object_meta]. rewrite Ho.
    rewrite (proj2 (version_token_matches o (so_version o) (Hver o eq_refl)) eq_refl).
    exists (mkStoredObject d' (i64_succ (mb_next_version b)) now).
    split_and!; [done|done|]. by apply from_slice_to_vec in Hd'.
  - exists (mkStoredObject d (i64_succ (mb_next_version b)) now).
    split_and!; [done|done|]. by apply from_slice_to_vec in Hd.
Qed.

Lemma acquire_loop_held fuel mr at_ b holder :
  run_alone (try_acquire l ttl operation) now b = (Err (AlreadyHeld holder), b) ->
  (mr < at_ + N.of_nat fuel)%N ->
  0 < fuel ->
  run_alone (acquire_loop fuel l ttl mr at_ operation) now b =
    (Err (EPreconditionFailed ("lock held by " +:+ holder +:+ " after " +:+ pretty mr
                                 +:+ " retries")), b).
Proof.
  intros Htry. revert at_. induction fuel as [|fuel IH]; intros at_ Hfuel Hpos.
  - exfalso. lia.
  - cbn [acquire_loop]. rewrite run_alone_bind, Htry. cbv beta iota zeta.
    destruct (N.leb_spec mr (at_ + 1)); [done|]. apply IH; lia.
Qed.

End Alone.

(** ** A concrete lock *)

#[local] Instance lock_info_eq_dec : EqDecision LockInfo.
Proof. solve_decision. Defined.

#[local] Instance lock_info_countable : Countable LockInfo.
Proof.
  apply (inj_countable'
    (fun r => (li_holder_id r, li_expires_at r, li_acquired_at r, li_sequence_number r,
               li_operation r))
    (fun '(a, b, c, d, e) => mkLockInfo a b c d e)).
  by intros [].
Defined.

#[export] Instance sample_lock_json : Json LockInfo := countable_json LockInfo.
#[export] Instance sample_lock_json_laws : JsonLaws LockInfo := countable_json_laws LockInfo.

Definition turns (l : list nat) : list turn := (fun i => mkTurn i 1 NoFault) <$> l.

(** Two users of a lock with a time to live of ten ticks: the first crashes with
    the lock, the second takes it over. *)
Definition sample_users : list lock_user :=
  [mkLockUser "a" 10 1 None Crashed; mkLockUser "b" 10 1 None Released].

Definition sample_schedule : list turn :=
  turns [0; 0; 0] ++ [mkTurn 1 20 NoFault] ++ turns (replicate 12 1).

Abbreviation sample_lock_run :=
  (lock_run "lock" (fun _ => 0%Z) 0 sample_users sample_schedule).




(** ** Where the guarantee ends *)

Definition extend_session (l : DistributedLock) (ttl : Duration) : io (result Error LockGuard) :=
  let? g := acquire l ttl 1 in extend g ttl.

(** [extend] reads the record before it reads the version it then replaces, so a
    takeover in between is overwritten with the old number: [a] extends a lease that
    [b] has taken over, and [c] is then given the token that [b] still holds. *)
Lemma extend_reuses_token :
  let lock h := mkDistributedLock "lock" h in
  exists ts ga gb gc,
    cf_threads (run_schedule (fun _ => 0%Z) ts
      (mkConfig [extend_session (lock "a") 10; acquire (lock "b") 10 1; acquire (lock "c") 10 1]
         (world_new 0))) = [Ret (Ok ga); Ret (Ok gb); Ret (Ok gc)] /\
    lg_fencing_token gb = 2%N /\ lg_fencing_token gc = lg_fencing_token gb.
Proof.
  exists (turns [0; 0; 0; 0] ++ [mkTurn 1 20 NoFault] ++ turns (replicate 6 1) ++ turns [0; 0; 0]
            ++ [mkTurn 2 20 NoFault] ++ turns (replicate 6 2)).
  eexists _, _, _. vm_compute. done.
Qed.

(** After [force_break] the numbers start again: a holder whose lock was broken
    has the token of the next holder. *)
Lemma force_break_resets_token :
  let lock h := mkDistributedLock "lock" h in
  exists ts ga gb,
    cf_threads (run_schedule (fun _ => 0%Z) ts
      (mkConfig [acquire (lock "a") 10 1; (_ ← force_break (lock "b"); acquire (lock "b") 10 1)]
         (world_new 0))) = [Ret (Ok ga); Ret (Ok gb)] /\
    lg_fencing_token ga = 1%N /\ lg_fencing_token gb = 1%N.
Proof.
  exists (turns [0; 0; 1; 1; 1]). eexists _, _. vm_compute. done.
Qed.
