(* ===== verification/Scoped.v ===== *)
(** Tenant isolation: [crates/arco-core/src/scoped_storage.rs] and
    [control_plane_scope.rs].

    Every component reaches the store through a [ScopedStorage], which validates
    identifiers and paths and puts the scope in front of every path. *)

From S2P Require Import Prelude Storage.
From stdpp Require Import options.

(** ** Validation *)

Definition ascii_in (lo hi : nat) (c : ascii) : bool :=
  (lo <=? nat_of_ascii c) && (nat_of_ascii c <=? hi).

Fixpoint str_all (f : ascii -> bool) (s : string) : bool :=
  match s with
  | EmptyString => true
  | String c s => f c && str_all f s
  end.

(** [c.is_ascii_lowercase() || c.is_ascii_digit() || c == '-' || c == '_'] *)
Definition id_char (c : ascii) : bool :=
  ascii_in 97 122 c || ascii_in 48 57 c || bool_decide (c = "-"%char)
  || bool_decide (c = "_"%char).

Definition chr_newline : ascii := "010".
Definition chr_return : ascii := "013".
Definition chr_nul : ascii := "000".
Definition chr_backslash : ascii := "092".

Definition has_control (s : string) : bool :=
  str_contains chr_newline s || str_contains chr_return s || str_contains chr_nul s.

Definition validate_id (id field : string) : result Error unit :=
  if str_is_empty id then Err (EInvalidId (field +:+ " cannot be empty"))
  else if str_contains "/" id || str_contains chr_backslash id then
    Err (EInvalidId (field +:+ " cannot contain path separators"))
  else if has_control id then
    Err (EInvalidId (field +:+ " cannot contain control characters"))
  else if negb (str_all id_char id) then
    Err (EInvalidId (field +:+ " contains invalid characters (allowed: a-z, 0-9, '-', '_')"))
  else Ok tt.

Definition validate_path (path : string) : result Error unit :=
  if str_starts_with "/" path || str_starts_with (String chr_backslash "") path then
    Err (EInvalidInput ("absolute paths not allowed: " +:+ path))
  else if str_contains chr_backslash path then
    Err (EInvalidInput ("backslashes not allowed in paths: " +:+ path))
  else if str_contains "%" path then
    Err (EInvalidInput ("percent-encoding not allowed in paths: " +:+ path))
  else if has_control path then
    Err (EInvalidInput ("control characters not allowed in paths: " +:+ path))
  else if existsb (fun seg => bool_decide (seg = ".") || bool_decide (seg = ".."))
            (split_on "/" path) then
    Err (EInvalidInput ("path traversal not allowed: " +:+ path))
  else Ok tt.

(** ** Scopes *)

Record ScopedStorage := mkScopedStorage {
  ss_tenant_id : string;
  ss_workspace_id : string;
  ss_scope_prefix : string
}.

Definition scoped_storage_new (tenant_id workspace_id : string) : result Error ScopedStorage :=
  match validate_id tenant_id "tenant_id" with
  | Err e => Err e
  | Ok _ =>
      match validate_id workspace_id "workspace_id" with
      | Err e => Err e
      | Ok _ =>
          Ok (mkScopedStorage tenant_id workspace_id
                ("tenant=" +:+ tenant_id +:+ "/workspace=" +:+ workspace_id))
      end
  end.

Record ControlPlaneScope := mkControlPlaneScope {
  cps_tenant : string;
  cps_workspace : string;
  cps_metastore : string
}.

Definition control_plane_scope_new (tenant_id workspace_id metastore_id : string) :
    result Error ControlPlaneScope :=
  match validate_id tenant_id "tenant_id" with
  | Err e => Err e
  | Ok _ =>
      match validate_id workspace_id "workspace_id" with
      | Err e => Err e
      | Ok _ =>
          match validate_id metastore_id "metastore_id" with
          | Err e => Err e
          | Ok _ => Ok (mkControlPlaneScope tenant_id workspace_id metastore_id)
          end
      end
  end.

Definition metastore_storage_prefix (s : ControlPlaneScope) : string :=
  "tenant=" +:+ cps_tenant s +:+ "/metastore=" +:+ cps_metastore s.

Definition new_metastore_scoped (s : ControlPlaneScope) : ScopedStorage :=
  mkScopedStorage (cps_tenant s) (cps_workspace s) (metastore_storage_prefix s).

Definition scoped_path (s : ScopedStorage) (path : string) : string :=
  ss_scope_prefix s +:+ "/" +:+ path.

(** ** Operations *)

(** [Self::validate_path(path)?;] *)
Definition validated {A} (path : string) (p : io (result Error A)) : io (result Error A) :=
  match validate_path path with
  | Err e => Ret (Err e)
  | Ok _ => p
  end.

Definition get_raw (s : ScopedStorage) (path : string) : io (result Error Bytes) :=
  validated path (get_object (scoped_path s path)).

Definition put_raw (s : ScopedStorage) (path : string) (data : Bytes) (pre : WritePrecondition) :
    io (result Error WriteResult) :=
  validated path (put_object (scoped_path s path) data pre).

Definition delete_raw (s : ScopedStorage) (path : string) : io (result Error unit) :=
  validated path (delete_object (scoped_path s path)).

Definition head_raw (s : ScopedStorage) (path : string) : io (result Error (option ObjectMeta)) :=
  validated path (head_object (scoped_path s path)).

(** [s.strip_prefix(pre)] *)
Fixpoint strip_prefix (pre s : string) : option string :=
  match pre, s with
  | EmptyString, _ => Some s
  | String a pre, String b s => if decide (a = b) then strip_prefix pre s else None
  | String _ _, EmptyString => None
  end.

Fixpoint ends_with_slash (s : string) : bool :=
  match s with
  | EmptyString => false
  | String a EmptyString => bool_decide (a = "/"%char)
  | String _ s => ends_with_slash s
  end.

Definition scoped_list_boundary (pre : string) : string :=
  if str_is_empty pre || ends_with_slash pre then pre else pre +:+ "/".

(** The paths of [list], relative to the scope. *)
Definition list_raw (s : ScopedStorage) (pre : string) : io (result Error (list string)) :=
  validated pre (
    let full_prefix := scoped_path s pre in
    let scope_prefix := ss_scope_prefix s +:+ "/" in
    let boundary_prefix := scoped_list_boundary full_prefix in
    let? metas := list_objects full_prefix in
    Ret (Ok (omap (fun m => strip_prefix scope_prefix (om_path m))
               (List.filter (fun m =>
                  str_is_empty pre || bool_decide (om_path m = full_prefix)
                  || str_starts_with boundary_prefix (om_path m)) metas)))).

Definition list_meta (s : ScopedStorage) (pre : string) : io (result Error (list ObjectMeta)) :=
  validated pre (
    let full_prefix := scoped_path s pre in
    let scope_prefix := ss_scope_prefix s +:+ "/" in
    let boundary_prefix := scoped_list_boundary full_prefix in
    let? metas := list_objects full_prefix in
    Ret (Ok (omap (fun m =>
               (fun relative => mkObjectMeta relative (om_size m) (om_version m)
                                  (om_last_modified m) (om_etag m))
                 <$> strip_prefix scope_prefix (om_path m))
               (List.filter (fun m =>
                  str_is_empty pre || bool_decide (om_path m = full_prefix)
                  || str_starts_with boundary_prefix (om_path m)) metas)))).

(** ** Isolation *)

Lemma str_sep_inj_first (c : ascii) (a b p q : string) :
  str_contains c a = false -> str_contains c b = false ->
  a +:+ String c p = b +:+ String c q -> a = b /\ p = q.
Proof.
  revert b. induction a as [|x a IH]; intros [|y b]; str_simpl; intros Ha Hb E; bool_hyps;
    simplify_eq; try done.
  by destruct (IH b) as [-> ->].
Qed.

Lemma validate_id_no_slash id field : validate_id id field = Ok tt -> str_contains "/" id = false.
Proof.
  unfold validate_id. destruct (str_is_empty id); [done|].
  by destruct (str_contains "/" id).
Qed.

(** A scope as the code makes them: validated identifiers behind one of two
    prefixes. *)
Inductive scope_kind := WorkspaceScope | MetastoreScope.

Definition scope_tag (k : scope_kind) : string :=
  match k with WorkspaceScope => "workspace=" | MetastoreScope => "metastore=" end.

Definition made (k : scope_kind) (tenant id : string) (s : ScopedStorage) : Prop :=
  match k with
  | WorkspaceScope => scoped_storage_new tenant id = Ok s
  | MetastoreScope =>
      exists ws sc, control_plane_scope_new tenant ws id = Ok sc /\ s = new_metastore_scoped sc
  end.

Lemma made_prefix k tenant id s :
  made k tenant id s ->
  str_contains "/" tenant = false /\ str_contains "/" id = false /\
  ss_scope_prefix s = "tenant=" +:+ tenant +:+ "/" +:+ scope_tag k +:+ id.
Proof.
  destruct k; simpl.
  - unfold scoped_storage_new.
    destruct (validate_id tenant _) as [[]|] eqn:Ht; [|done].
    destruct (validate_id id _) as [[]|] eqn:Hw; [|done]. intros [= <-].
    eauto using validate_id_no_slash.
  - intros (ws & sc & Hsc & ->). unfold control_plane_scope_new in Hsc.
    destruct (validate_id tenant _) as [[]|] eqn:Ht; [|done].
    destruct (validate_id ws _) as [[]|] eqn:Hw; [|done].
    destruct (validate_id id _) as [[]|] eqn:Hm; [|done]. injection Hsc as <-.
    eauto using validate_id_no_slash.
Qed.

(** The full path determines the scope and the path in it. *)
Lemma scoped_path_inj k k' t t' id id' s s' p p' :
  made k t id s -> made k' t' id' s' -> scoped_path s p = scoped_path s' p' ->
  k = k' /\ t = t' /\ id = id' /\ p = p'.
Proof.
  intros (Ht & Hi & Hs)%made_prefix (Ht' & Hi' & Hs')%made_prefix.
  unfold scoped_path. rewrite Hs, Hs', !str_app_assoc.
  intros E%(str_app_inj_l "tenant="). autorewrite with str_app in E.
  apply str_sep_inj_first in E as [-> E]; [|done..].
  rewrite <- !(str_app_assoc (scope_tag _)) in E. autorewrite with str_app in E.
  apply str_sep_inj_first in E as [E ->].
  - split_and!; [|done| |done]; destruct k, k'; try done; by apply str_app_inj_l in E.
  - rewrite str_contains_app, Hi. by destruct k.
  - rewrite str_contains_app, Hi'. by destruct k'.
Qed.

Lemma strip_prefix_Some pre s r : strip_prefix pre s = Some r <-> s = pre +:+ r.
Proof.
  revert s. induction pre as [|a pre IH]; intros s; str_simpl.
  - destruct s; naive_solver.
  - destruct s as [|b s]; [naive_solver|]. case_decide; [subst|naive_solver].
    rewrite IH. naive_solver.
Qed.

Lemma run_validated {A} path (p : io (result Error A)) now b :
  run_alone (validated path p) now b =
    match validate_path path with Err e => (Err e, b) | Ok _ => run_alone p now b end.
Proof. unfold validated. by destruct (validate_path path). Qed.

(** C14: Scopes are isolated.  What one scope writes or deletes, whatever the path
    it is given, leaves every object of another tenant, workspace or metastore as
    it was; and what it lists are objects of its own. *)
Theorem scope_isolation k k' t t' id id' s s' path path' data pre now b :
  made k t id s -> made k' t' id' s' -> (k, t, id) <> (k', t', id') ->
  mb_objects (run_alone (put_raw s path data pre) now b).2 !! scoped_path s' path' =
    mb_objects b !! scoped_path s' path' /\
  mb_objects (run_alone (delete_raw s path) now b).2 !! scoped_path s' path' =
    mb_objects b !! scoped_path s' path' /\
  forall q qs, (run_alone (list_raw s path) now b).1 = Ok qs -> q ∈ qs ->
    is_Some (mb_objects b !! scoped_path s q).
Proof.
  intros Hs Hs' Hne.
  assert (forall p, scoped_path s p <> scoped_path s' path') as Hpath.
  { intros p E. destruct (scoped_path_inj _ _ _ _ _ _ _ _ _ _ Hs Hs' E); naive_solver. }
  unfold put_raw, delete_raw, list_raw. rewrite !run_validated.
  destruct (validate_path path); [|done]. split_and!.
  - simpl. destruct (mb_put_cases b now (scoped_path s path) data pre) as [(?&_&->)|[_ ->]];
      simpl; [done|]. by rewrite lookup_insert_ne.
  - simpl. by rewrite lookup_delete_ne.
  - simpl. intros q qs [= <-] (m & Hm & Hq)%list_elem_of_omap.
    apply list_elem_of_In, filter_In in Hm as [Hm _]. apply list_elem_of_In in Hm.
    apply list_elem_of_fmap in Hm as ([p o] & -> & Hm).
    apply list_elem_of_In, filter_In in Hm as [Hm _].
    apply list_elem_of_In, elem_of_map_to_list in Hm.
    apply strip_prefix_Some in Hq. simpl in Hq. unfold scoped_path.
    rewrite <- str_app_assoc, <- Hq. by exists o.
Qed.

Lemma scope_isolation_witness :
  exists s s', made WorkspaceScope "acme" "prod" s /\ made WorkspaceScope "acme" "dev" s' /\
    forall data now, mb_objects (run_alone (put_raw s "a/b" data Unconditional) now
      memory_backend_new).2 !! scoped_path s' "a/b" = None.
Proof.
  eexists _, _. split; [done|]. split; [done|]. intros data now.
  by eapply (scope_isolation WorkspaceScope WorkspaceScope "acme" "acme" "prod" "dev" _ _ "a/b"
              "a/b" data Unconditional now memory_backend_new).
Defined.
