(* ===== verification/Delta.v ===== *)
(** Delta commits: [crates/arco-delta/src/coordinator.rs], [types.rs], [error.rs]
    and the [DeltaPaths] of [crates/arco-core/src/flow_paths.rs].

    A stateless coordinator gives each staged payload the next version of the
    Delta log.  Its state is a JSON object replaced with conditional writes: a
    commit reserves a version, writes the log entry, records the idempotency key and
    finalizes; a reservation whose holder is gone is completed by the next commit. *)

From S2P Require Import Prelude Events Storage Scoped.
From stdpp Require Import options.

(** ** Parameters

    [serde_jcs] on the two request shapes, and the [uuid] crate: the version number
    and the canonical text of a UUID. *)

Class Jcs := {
  jcs_request : string -> i64 -> string -> string -> option string;
  jcs_legacy : i64 -> string -> string -> string -> option string
}.

Class UuidParse := uuid_parse : string -> option (N * string).

(** ** Types *)

Record StagedCommit := mkStagedCommit { sc_staged_path : string; sc_staged_version : string }.

Record CommitDeltaRequest := mkCommitDeltaRequest {
  cr_read_version : i64;
  cr_staged_path : string;
  cr_staged_version : string;
  cr_idempotency_key : string
}.

Record CommitDeltaResponse := mkCommitDeltaResponse {
  rs_version : i64;
  rs_delta_log_path : string
}.

Record InflightCommit := mkInflightCommit {
  if_commit_id : string;
  if_read_version : option i64;
  if_version : i64;
  if_staged_path : string;
  if_staged_version : string;
  if_started_at_ms : i64;
  if_expires_at_ms : i64
}.

Record DeltaCoordinatorState := mkDeltaCoordinatorState {
  dc_latest_version : i64;
  dc_inflight : option InflightCommit
}.
#[export] Instance eta_DeltaCoordinatorState : Eta DeltaCoordinatorState :=
  fun r => mkDeltaCoordinatorState (dc_latest_version r) (dc_inflight r).

Definition delta_state_default : DeltaCoordinatorState := mkDeltaCoordinatorState (-1) None.

Record DeltaCommitIdempotencyRecord := mkDeltaCommitIdempotencyRecord {
  ir_idempotency_key : string;
  ir_idempotency_key_hash : string;
  ir_request_hash : string;
  ir_version : i64;
  ir_delta_log_path : string;
  ir_committed_at_ms : i64
}.

Record RecoveredInflight := mkRecoveredInflight {
  rv_commit_id : string;
  rv_request_hash : string;
  rv_response : CommitDeltaResponse
}.

Inductive DeltaError :=
  | DBadRequest (message : string)
  | DConflict (message : string)
  | DNotFound (message : string)
  | DStorage (e : Error)
  | DSerialization (message : string).

Abbreviation dresult A := (result DeltaError A) (only parsing).

(** ** Paths *)

Record DeltaPaths := mkDeltaPaths { dp_table_id : string; dp_table_root : string }.

(** [DeltaPaths::legacy] *)
Definition delta_paths_legacy (table_id : string) : DeltaPaths :=
  mkDeltaPaths table_id ("tables/" +:+ table_id).

Definition staging_payload (p : DeltaPaths) (ulid : string) : string :=
  "delta/staging/" +:+ dp_table_id p +:+ "/" +:+ ulid +:+ ".json".

Definition coordinator_state (p : DeltaPaths) : string :=
  "delta/coordinator/" +:+ dp_table_id p +:+ ".json".

(** [key_hash.get(0..2).unwrap_or("00")] *)
Definition idempotency_marker_from_hash (p : DeltaPaths) (key_hash : string) : string :=
  let pre := if (2 <=? String.length key_hash) then String.substring 0 2 key_hash else "00" in
  "delta/idempotency/" +:+ dp_table_id p +:+ "/" +:+ pre +:+ "/" +:+ key_hash +:+ ".json".

Definition delta_log_json (p : DeltaPaths) (version : i64) : result Error string :=
  if (version <? 0)%Z then Err (EValidation "delta log version must be non-negative")
  else Ok (dp_table_root p +:+ "/_delta_log/" +:+ zero_pad 20 (Z.to_N version) +:+ ".json").

(** ** Machine arithmetic *)

Definition i64_checked_add (a b : i64) : option i64 :=
  if (a + b <=? i64_max)%Z && (i64_min <=? a + b)%Z then Some (a + b)%Z else None.
Definition i64_saturating_add (a b : i64) : i64 := Z.max i64_min (Z.min i64_max (a + b)).
Definition i64_saturating_sub (a b : i64) : i64 := Z.max i64_min (Z.min i64_max (a - b)).

(** ** The coordinator *)

Record DeltaCommitCoordinator := mkDeltaCommitCoordinator {
  cc_storage : ScopedStorage;
  cc_paths : DeltaPaths;
  cc_inflight_ttl : N;  (* milliseconds *)
  cc_max_cas_retries : nat
}.

Section Coordinator.
Context `{Hashes, Chrono, Jcs, UuidParse}.
Context `{Json DeltaCoordinatorState, Json DeltaCommitIdempotencyRecord}.

Definition sha256_hex (data : string) : string := hex_encode (sha256 data).

Definition idempotency_marker (p : DeltaPaths) (idempotency_key : string) : string :=
  idempotency_marker_from_hash p (sha256_hex idempotency_key).

(** [canonical_hash_value] of the canonical text. *)
Definition canonical_hash (canonical : option string) : dresult string :=
  match canonical with
  | Some c => Ok (sha256_hex c)
  | None => Err (DSerialization "failed to canonicalize commit request")
  end.

Definition request_hash (req : CommitDeltaRequest) (staged_payload : Bytes) : dresult string :=
  canonical_hash (jcs_request (cr_idempotency_key req) (cr_read_version req) (cr_staged_path req)
                    (sha256_hex staged_payload)).

Definition legacy_request_hash (req : CommitDeltaRequest) : dresult string :=
  canonical_hash (jcs_legacy (cr_read_version req) (cr_staged_path req) (cr_staged_version req)
                    (cr_idempotency_key req)).

Definition validate_uuidv7 (key : string) : dresult unit :=
  match uuid_parse key with
  | None => Err (DBadRequest "Idempotency-Key must be a valid UUID")
  | Some (version, canonical) =>
      if negb (version =? 7)%N then Err (DBadRequest "Idempotency-Key must be UUIDv7 (RFC 9562)")
      else if negb (bool_decide (canonical = key)) then
        Err (DBadRequest "Idempotency-Key must be a canonical lowercase UUID string")
      else Ok tt
  end.

Section One.
Context (c : DeltaCommitCoordinator).

Definition sget (path : string) : io (result Error Bytes) := get_raw (cc_storage c) path.
Definition shead (path : string) : io (result Error (option ObjectMeta)) :=
  head_raw (cc_storage c) path.
Definition sput (path : string) (data : Bytes) (pre : WritePrecondition) :
    io (result Error WriteResult) := put_raw (cc_storage c) path data pre.

Definition validate_staged_path (staged_path : string) : dresult unit :=
  let expected_prefix := "delta/staging/" +:+ dp_table_id (cc_paths c) +:+ "/" in
  if negb (str_starts_with expected_prefix staged_path)
  then Err (DBadRequest ("staged_path must start with " +:+ expected_prefix))
  else Ok tt.

Definition read_staged_payload (staged_path staged_version : string) : io (dresult Bytes) :=
  try_with DStorage (shead staged_path) (fun meta =>
    match meta with
    | None => Ret (Err (DNotFound ("staged payload not found: " +:+ staged_path)))
    | Some meta =>
        if decide (om_version meta <> staged_version) then
          Ret (Err (DConflict ("staged payload version mismatch for " +:+ staged_path)))
        else try_with DStorage (sget staged_path) (fun data => Ret (Ok data))
    end).

Definition load_state : io (dresult (DeltaCoordinatorState * option string)) :=
  let path := coordinator_state (cc_paths c) in
  try_with DStorage (shead path) (fun meta =>
    match meta with
    | None => Ret (Ok (delta_state_default, None))
    | Some meta =>
        try_with DStorage (sget path) (fun bytes =>
          match from_slice bytes with
          | None => Ret (Err (DSerialization "failed to deserialize coordinator state"))
          | Some state => Ret (Ok (state, Some (om_version meta)))
          end)
    end).

Definition store_state (state : DeltaCoordinatorState) (expected_version : option string) :
    io (dresult WriteResult) :=
  let path := coordinator_state (cc_paths c) in
  match to_vec state with
  | None => Ret (Err (DSerialization "failed to serialize coordinator state"))
  | Some json =>
      let precondition :=
        match expected_version with None => DoesNotExist | Some v => MatchesVersion v end in
      try_with DStorage (sput path json precondition) (fun w => Ret (Ok w))
  end.

Definition read_idempotency_record (key : string) :
    io (dresult (option DeltaCommitIdempotencyRecord)) :=
  let path := idempotency_marker (cc_paths c) key in
  try_with DStorage (shead path) (fun meta =>
    match meta with
    | None => Ret (Ok None)
    | Some _ =>
        try_with DStorage (sget path) (fun bytes =>
          match from_slice bytes with
          | None => Ret (Err (DSerialization "failed to deserialize idempotency record"))
          | Some record => Ret (Ok (Some record))
          end)
    end).

Definition write_idempotency_record (key hash : string) (response : CommitDeltaResponse)
    (now : DateTime) : io (dresult unit) :=
  let record :=
    mkDeltaCommitIdempotencyRecord key (sha256_hex key) hash (rs_version response)
      (rs_delta_log_path response) (timestamp_millis now) in
  match to_vec record with
  | None => Ret (Err (DSerialization "failed to serialize idempotency record"))
  | Some json =>
      try_with DStorage (sput (idempotency_marker (cc_paths c) key) json DoesNotExist)
        (fun _ => Ret (Ok tt))
  end.

Definition response_from_idempotency_record (record : DeltaCommitIdempotencyRecord) :
    CommitDeltaResponse :=
  mkCommitDeltaResponse (ir_version record) (ir_delta_log_path record).

Definition already_used : DeltaError :=
  DConflict "Idempotency-Key already used with different request body".

(** A pure result in a program: [f(..)?;] *)
Definition lift {A} (r : dresult A) : io (dresult A) := Ret r.

Definition replay_committed (req : CommitDeltaRequest) : io (dresult (option CommitDeltaResponse)) :=
  let? _ := lift (validate_uuidv7 (cr_idempotency_key req)) in
  let? _ := lift (validate_staged_path (cr_staged_path req)) in
  let? legacy_hash := lift (legacy_request_hash req) in
  let? record := read_idempotency_record (cr_idempotency_key req) in
  match record with
  | None => Ret (Ok None)
  | Some record =>
      if decide (ir_request_hash record = legacy_hash) then
        Ret (Ok (Some (response_from_idempotency_record record)))
      else
        let? payload := read_staged_payload (cr_staged_path req) (cr_staged_version req) in
        let? hash := lift (request_hash req payload) in
        if decide (ir_request_hash record = hash) then
          Ret (Ok (Some (response_from_idempotency_record record)))
        else Ret (Err already_used)
  end.

Definition replay_committed_with_hashes (idempotency_key : string) (request_hashes : list string) :
    io (dresult (option CommitDeltaResponse)) :=
  let? record := read_idempotency_record idempotency_key in
  match record with
  | None => Ret (Ok None)
  | Some record =>
      if decide (ir_request_hash record ∈ request_hashes) then
        Ret (Ok (Some (response_from_idempotency_record record)))
      else Ret (Err already_used)
  end.

Definition read_validated_staged_payload (req : CommitDeltaRequest) : io (dresult Bytes) :=
  let? _ := lift (validate_uuidv7 (cr_idempotency_key req)) in
  let? _ := lift (validate_staged_path (cr_staged_path req)) in
  read_staged_payload (cr_staged_path req) (cr_staged_version req).

(** [stage_commit_payload], with the ULID it draws. *)
Definition stage_commit_payload (ulid : string) (payload : Bytes) : io (dresult StagedCommit) :=
  let staged_path := staging_payload (cc_paths c) ulid in
  try_with DStorage (sput staged_path payload DoesNotExist) (fun result =>
    match result with
    | WriteSuccess version => Ret (Ok (mkStagedCommit staged_path version))
    | WritePreconditionFailed _ => Ret (Err (DConflict "staging path already exists; retry"))
    end).

(** The request an inflight commit came from. *)
Definition inflight_request (inflight : InflightCommit) : CommitDeltaRequest :=
  mkCommitDeltaRequest
    (default (i64_saturating_sub (if_version inflight) 1) (if_read_version inflight))
    (if_staged_path inflight) (if_staged_version inflight) (if_commit_id inflight).

(** Complete the reservation that [load_state] found, and clear it. *)
Definition complete_inflight (now : DateTime) (state : DeltaCoordinatorState)
    (inflight : InflightCommit) (current_version delta_log_path : string) (commit_exists : bool) :
    io (dresult (option RecoveredInflight)) :=
  let? _ :=
    (if commit_exists then lift (Ok tt)
     else
       let? payload := read_staged_payload (if_staged_path inflight) (if_staged_version inflight) in
       try_with DStorage (sput delta_log_path payload DoesNotExist) (fun _ => Ret (Ok tt))) in
  let? payload := read_staged_payload (if_staged_path inflight) (if_staged_version inflight) in
  let? recovered_request_hash := lift (request_hash (inflight_request inflight) payload) in
  let response := mkCommitDeltaResponse (if_version inflight) delta_log_path in
  let? _ :=
    write_idempotency_record (if_commit_id inflight) recovered_request_hash response now in
  let updated :=
    mkDeltaCoordinatorState (Z.max (if_version inflight) (dc_latest_version state)) None in
  let? put := store_state updated (Some current_version) in
  Ret (Ok match put with
          | WriteSuccess _ =>
              Some (mkRecoveredInflight (if_commit_id inflight) recovered_request_hash response)
          | WritePreconditionFailed _ => None
          end).

Fixpoint recover_loop (retries : nat) (now : DateTime) : io (dresult (option RecoveredInflight)) :=
  match retries with
  | O => Ret (Err (DConflict "failed to recover inflight delta commit after retries"))
  | S retries =>
      let? sv := load_state in
      match sv with
      | (_, None) => Ret (Ok None)
      | (state, Some current_version) =>
          match dc_inflight state with
          | None => Ret (Ok None)
          | Some inflight =>
              let? _ := lift (validate_staged_path (if_staged_path inflight)) in
              let? delta_log_path :=
                lift (result_map_err DStorage (delta_log_json (cc_paths c) (if_version inflight))) in
              try_with DStorage (shead delta_log_path) (fun meta =>
                let commit_exists := bool_decide (is_Some meta) in
                if commit_exists || (if_expires_at_ms inflight <=? timestamp_millis now)%Z then
                  let? recovered :=
                    complete_inflight now state inflight current_version delta_log_path
                      commit_exists in
                  match recovered with
                  | Some r => Ret (Ok (Some r))
                  | None => recover_loop retries now
                  end
                else Ret (Ok None))
          end
      end
  end.

Definition recover_inflight (now : DateTime) : io (dresult (option RecoveredInflight)) :=
  recover_loop (cc_max_cas_retries c) now.

Definition stale_read_version (expected got : i64) : DeltaError :=
  DConflict ("stale read_version: expected " +:+ pretty expected +:+ ", got " +:+ pretty got).

(** An inflight reservation that has not expired: the caller's own is resumed. *)
Definition resume_inflight (req : CommitDeltaRequest) (state : DeltaCoordinatorState)
    (inflight : InflightCommit) : dresult i64 :=
  if negb (bool_decide (if_commit_id inflight = cr_idempotency_key req)) then
    Err (DConflict "delta commit already reserved; retry later")
  else if negb (bool_decide (if_staged_path inflight = cr_staged_path req))
          || negb (bool_decide (if_staged_version inflight = cr_staged_version req)) then
    Err already_used
  else if option_bool (fun v => negb (v =? cr_read_version req)%Z) (if_read_version inflight) then
    Err already_used
  else if negb (dc_latest_version state =? cr_read_version req)%Z then
    Err (stale_read_version (dc_latest_version state) (cr_read_version req))
  else Ok (if_version inflight).

(** The version of [ReservedCommit]. *)
Fixpoint reserve_loop (retries : nat) (req : CommitDeltaRequest) (now : DateTime) :
    io (dresult i64) :=
  match retries with
  | O => Ret (Err (DConflict "failed to reserve delta commit after retries"))
  | S retries =>
      let now_ms := timestamp_millis now in
      let ttl_ms := Z.min (Z.of_N (cc_inflight_ttl c)) i64_max in
      let expires_at_ms := i64_saturating_add now_ms ttl_ms in
      let? sv := load_state in
      let '(state, version) := sv in
      match dc_inflight state with
      | Some inflight =>
          if (now_ms <? if_expires_at_ms inflight)%Z then lift (resume_inflight req state inflight)
          else
            let? _ := recover_inflight now in
            reserve_loop retries req now
      | None =>
          if negb (dc_latest_version state =? cr_read_version req)%Z then
            Ret (Err (stale_read_version (dc_latest_version state) (cr_read_version req)))
          else
            match i64_checked_add (dc_latest_version state) 1 with
            | None => Ret (Err (DConflict "delta version overflow"))
            | Some new_version =>
                let inflight :=
                  mkInflightCommit (cr_idempotency_key req) (Some (cr_read_version req)) new_version
                    (cr_staged_path req) (cr_staged_version req) now_ms expires_at_ms in
                let? put := store_state (state <| dc_inflight := Some inflight |>) version in
                match put with
                | WriteSuccess _ => Ret (Ok new_version)
                | WritePreconditionFailed _ => reserve_loop retries req now
                end
            end
      end
  end.

Definition reserve_or_resume_inflight (req : CommitDeltaRequest) (now : DateTime) :
    io (dresult i64) := reserve_loop (cc_max_cas_retries c) req now.

Fixpoint finalize_loop (retries : nat) (commit_id : string) (committed_version : i64) :
    io (dresult unit) :=
  match retries with
  | O => Ret (Err (DConflict "failed to finalize delta commit after retries"))
  | S retries =>
      let? sv := load_state in
      match sv with
      | (_, None) => Ret (Err (DConflict "coordinator state missing during finalize"))
      | (state, Some version) =>
          if bool_decide (dc_inflight state = None) && (committed_version <=? dc_latest_version state)%Z
          then Ret (Ok tt)
          else if option_bool (fun i => negb (bool_decide (if_commit_id i = commit_id)))
                    (dc_inflight state)
          then Ret (Err (DConflict "coordinator inflight changed during finalize; retry"))
          else
            let updated :=
              mkDeltaCoordinatorState (Z.max committed_version (dc_latest_version state)) None in
            let? put := store_state updated (Some version) in
            match put with
            | WriteSuccess _ => Ret (Ok tt)
            | WritePreconditionFailed _ => finalize_loop retries commit_id committed_version
            end
      end
  end.

Definition finalize_inflight (commit_id : string) (committed_version : i64) : io (dresult unit) :=
  finalize_loop (cc_max_cas_retries c) commit_id committed_version.

Fixpoint finalize_replayed_loop (retries : nat) (commit_id : string) (committed_version : i64) :
    io (dresult unit) :=
  match retries with
  | O => Ret (Err (DConflict "failed to finalize replayed delta commit after retries"))
  | S retries =>
      let? sv := load_state in
      match sv with
      | (_, None) => Ret (Ok tt)
      | (state, Some version) =>
          match dc_inflight state with
          | None =>
              if (committed_version <=? dc_latest_version state)%Z then Ret (Ok tt)
              else
                let? put :=
                  store_state (state <| dc_latest_version := committed_version |>) (Some version) in
                match put with
                | WriteSuccess _ => Ret (Ok tt)
                | WritePreconditionFailed _ =>
                    finalize_replayed_loop retries commit_id committed_version
                end
          | Some inflight =>
              if negb (bool_decide (if_commit_id inflight = commit_id)) then Ret (Ok tt)
              else
                let updated :=
                  mkDeltaCoordinatorState (Z.max committed_version (if_version inflight)) None in
                let? put := store_state updated (Some version) in
                match put with
                | WriteSuccess _ => Ret (Ok tt)
                | WritePreconditionFailed _ =>
                    finalize_replayed_loop retries commit_id committed_version
                end
          end
      end
  end.

Definition finalize_replayed_commit (commit_id : string) (committed_version : i64) :
    io (dresult unit) := finalize_replayed_loop (cc_max_cas_retries c) commit_id committed_version.

(** Write the log entry of a reserved version; an entry that is there already must
    have the same contents. *)
Definition write_delta_log (delta_log_path : string) (payload : Bytes) : io (dresult unit) :=
  try_with DStorage (sput delta_log_path payload DoesNotExist) (fun write =>
    match write with
    | WriteSuccess _ => Ret (Ok tt)
    | WritePreconditionFailed _ =>
        try_with DStorage (sget delta_log_path) (fun existing =>
          if decide (existing <> payload) then
            Ret (Err (DConflict "delta log version already exists with different contents"))
          else Ret (Ok tt))
    end).

Definition commit_reserved (req : CommitDeltaRequest) (payload : Bytes) (hash : string)
    (now : DateTime) : io (dresult CommitDeltaResponse) :=
  let? reserved := reserve_or_resume_inflight req now in
  let? delta_log_path :=
    lift (result_map_err DStorage (delta_log_json (cc_paths c) reserved)) in
  let? _ := write_delta_log delta_log_path payload in
  let response := mkCommitDeltaResponse reserved delta_log_path in
  let? _ := write_idempotency_record (cr_idempotency_key req) hash response now in
  let? _ := finalize_inflight (cr_idempotency_key req) reserved in
  Ret (Ok response).

Definition commit (req : CommitDeltaRequest) (now : DateTime) : io (dresult CommitDeltaResponse) :=
  let? payload := read_validated_staged_payload req in
  let? hash := lift (request_hash req payload) in
  let? legacy_hash := lift (legacy_request_hash req) in
  let? replayed := replay_committed_with_hashes (cr_idempotency_key req) [hash; legacy_hash] in
  match replayed with
  | Some response =>
      let? _ := finalize_replayed_commit (cr_idempotency_key req) (rs_version response) in
      Ret (Ok response)
  | None =>
      let? recovered := recover_inflight now in
      match recovered with
      | Some r =>
          if decide (rv_commit_id r = cr_idempotency_key req) then
            if decide (rv_request_hash r <> hash) then Ret (Err already_used)
            else Ret (Ok (rv_response r))
          else commit_reserved req payload hash now
      | None => commit_reserved req payload hash now
      end
  end.
End One.
End Coordinator.
