(* ===== verification/DeltaInvariant.v ===== *)
(** Delta commits under every interleaving.

    Any number of coordinators stage payloads and commit requests for one table,
    interrupted anywhere, with lost requests and responses.  The invariant relates
    the successive coordinator states, the log entries, the idempotency markers and
    the staged payloads. *)

From S2P Require Import Prelude Events Storage Interleave Scoped Delta LockProps.
From stdpp Require Import sorting options.

Section DeltaProps.
Context `{Hashes, Chrono, Jcs, UuidParse}.
Context `{Json DeltaCoordinatorState, Json DeltaCommitIdempotencyRecord}.
Context (s : ScopedStorage) (tid : string).

Abbreviation P := (delta_paths_legacy tid).

(** The requests, by idempotency key: a client that retries sends the same one. *)
Context (Req : string -> option CommitDeltaRequest).

(** ** Paths *)

Definition state_path : string := scoped_path s (coordinator_state P).
Definition staged_prefix : string := "delta/staging/" +:+ tid +:+ "/".
Definition log_rel (v : Z) : string :=
  "tables/" +:+ tid +:+ "/_delta_log/" +:+ zero_pad 20 (Z.to_N v) +:+ ".json".
Definition log_path (v : Z) : string := scoped_path s (log_rel v).
Definition marker_path (key : string) : string := scoped_path s (idempotency_marker P key).

Lemma delta_log_json_rel v p :
  delta_log_json P v = Ok p <-> (0 <= v)%Z /\ p = log_rel v.
Proof.
  unfold delta_log_json, log_rel. simpl. rewrite !str_app_assoc.
  destruct (Z.ltb_spec v 0); split; [done|lia|by intros [= <-]|by intros [_ ->]].
Qed.

Lemma scoped_inj p q : scoped_path s p = scoped_path s q -> p = q.
Proof. unfold scoped_path. intros E%str_app_inj_l. by injection E. Qed.

Lemma log_path_inj v v' : (0 <= v)%Z -> (0 <= v')%Z -> log_path v = log_path v' -> v = v'.
Proof.
  intros Hv Hv' E%scoped_inj. unfold log_rel in E.
  apply str_app_inj_l, str_app_inj_l, str_app_inj_l, str_app_inj_r, zero_pad_inj in E. lia.
Qed.

Lemma log_path_state v : log_path v <> state_path.
Proof.
  intros E%scoped_inj. unfold coordinator_state, log_rel in E.
  autorewrite with str_app in E. done.
Qed.

Lemma marker_path_state k : marker_path k <> state_path.
Proof.
  intros E%scoped_inj. unfold idempotency_marker, idempotency_marker_from_hash in E.
  autorewrite with str_app in E. done.
Qed.

Lemma marker_path_log k v : marker_path k <> log_path v.
Proof.
  intros E%scoped_inj. unfold idempotency_marker, idempotency_marker_from_hash, log_rel in E.
  autorewrite with str_app in E. done.
Qed.

Lemma staged_path_split p :
  str_starts_with staged_prefix p = true -> exists r, p = staged_prefix +:+ r.
Proof.
  unfold str_starts_with. generalize staged_prefix. clear. intros pre. revert p.
  induction pre as [|a pre IH]; intros p; simpl; [by exists p|].
  destruct p as [|b p]; [done|]. simpl. destruct (ascii_dec a b) as [->|]; [|done].
  intros [r ->]%IH. by exists r.
Qed.

Lemma staged_path_other p :
  str_starts_with staged_prefix p = true ->
  scoped_path s p <> state_path /\ (forall v, scoped_path s p <> log_path v) /\
  (forall k, scoped_path s p <> marker_path k).
Proof.
  intros [r ->]%staged_path_split. unfold staged_prefix.
  split_and!; [|intros v|intros k]; intros E%scoped_inj;
    unfold coordinator_state, log_rel, idempotency_marker, idempotency_marker_from_hash in E;
    autorewrite with str_app in E; done.
Qed.

(** ** The invariant *)

Definition st_of (o : StoredObject) : option DeltaCoordinatorState := from_slice (so_data o).
Definition rec_of (o : StoredObject) : option DeltaCommitIdempotencyRecord :=
  from_slice (so_data o).

(** Some coordinator state reserved [v] for [i]. *)
Definition reserved (h : list change) (v : Z) (i : InflightCommit) : Prop :=
  exists o st, Wrote state_path o ∈ h /\ st_of o = Some st /\ dc_inflight st = Some i /\
    if_version i = v.

Definition logged (h : list change) (v : Z) : Prop := exists o, Wrote (log_path v) o ∈ h.

(** The staged payload of a path and version. *)
Definition payload_of (h : list change) (path version : string) (data : Bytes) : Prop :=
  exists os, Wrote (scoped_path s path) os ∈ h /\ pretty (so_version os) = version /\
    so_data os = data.

(** The reservation of a request: the version after the one it read. *)
Definition from_request (i : InflightCommit) (req : CommitDeltaRequest) : Prop :=
  Req (if_commit_id i) = Some req /\ cr_idempotency_key req = if_commit_id i /\
  if_read_version i = Some (cr_read_version req) /\ if_version i = (cr_read_version req + 1)%Z /\
  if_staged_path i = cr_staged_path req /\ if_staged_version i = cr_staged_version req /\
  str_starts_with staged_prefix (cr_staged_path req) = true /\ (0 <= if_version i)%Z.

Inductive delta_step (h : list change) (st : DeltaCoordinatorState) :
    DeltaCoordinatorState -> Prop :=
  | step_reserve i req :
      dc_inflight st = None -> from_request i req -> cr_read_version req = dc_latest_version st ->
      delta_step h st (mkDeltaCoordinatorState (dc_latest_version st) (Some i))
  | step_finish i :
      dc_inflight st = Some i -> logged h (if_version i) ->
      delta_step h st (mkDeltaCoordinatorState (if_version i) None).

(** The coordinator states, newest first, and the current one. *)
Inductive state_chain (h : list change) : list StoredObject -> DeltaCoordinatorState -> Prop :=
  | chain_start : state_chain h [] delta_state_default
  | chain_step l st o st' :
      state_chain h l st -> st_of o = Some st' -> delta_step h st st' ->
      state_chain h (o :: l) st'.

Definition cur (h : list change) (st : DeltaCoordinatorState) : Prop :=
  state_chain h (reverse (writes_at state_path h)) st.

Record delta_inv (h : list change) : Prop := {
  di_kept : forall p, Deleted p ∉ h;
  di_once : forall p o o', p <> state_path -> Wrote p o ∈ h -> Wrote p o' ∈ h -> o = o';
  di_logs : forall v o, (0 <= v)%Z -> Wrote (log_path v) o ∈ h ->
    exists i, reserved h v i /\ payload_of h (if_staged_path i) (if_staged_version i) (so_data o);
  di_markers : forall key o, Wrote (marker_path key) o ∈ h ->
    exists r i, rec_of o = Some r /\ reserved h (ir_version r) i /\
      marker_path (if_commit_id i) = marker_path key /\ logged h (ir_version r) /\
      delta_log_json P (ir_version r) = Ok (ir_delta_log_path r);
  di_chain : exists st, cur h st
}.

(** *** Facts last *)

Lemma reserved_mono h h' v i : h ⊆ h' -> reserved h v i -> reserved h' v i.
Proof. intros Hh (o & st & Ho & ?). exists o, st. split; [by apply Hh|done]. Qed.

Lemma logged_mono h h' v : h ⊆ h' -> logged h v -> logged h' v.
Proof. intros Hh [o Ho]. exists o. by apply Hh. Qed.

Lemma payload_of_mono h h' p v d : h ⊆ h' -> payload_of h p v d -> payload_of h' p v d.
Proof. intros Hh (o & Ho & ?). exists o. split; [by apply Hh|done]. Qed.

Lemma delta_step_mono h h' st st' : h ⊆ h' -> delta_step h st st' -> delta_step h' st st'.
Proof. intros Hh [i req|i]; [by eapply step_reserve|]. apply step_finish; [done|].
  by eapply logged_mono. Qed.

Lemma state_chain_mono h h' l st : h ⊆ h' -> state_chain h l st -> state_chain h' l st.
Proof.
  intros Hh. induction 1; [constructor|]. econstructor; [done..|]. by eapply delta_step_mono.
Qed.

Lemma world_le_subseteq w w' : world_le w w' -> w_history w ⊆ w_history w'.
Proof. intros [_ _ [k ->]] e He. apply elem_of_app. by left. Qed.

Lemma state_chain_fun h h' l st st' : state_chain h l st -> state_chain h' l st' -> st = st'.
Proof. destruct 1; inversion 1; congruence. Qed.

(** *** What the chain says *)

Lemma state_chain_current h l st :
  state_chain h l st ->
  (-1 <= dc_latest_version st)%Z /\
  forall i, dc_inflight st = Some i ->
    if_version i = (dc_latest_version st + 1)%Z /\ exists req, from_request i req.
Proof.
  induction 1 as [|l st o st' Hc [IHl IHi] Ho Hs]; [split; simpl; [lia|done]|].
  destruct Hs as [i req Hn Hr Hv|i Hi Hlog]; simpl.
  - split; [done|]. intros j [= <-]. split; [|by exists req].
    destruct Hr as (_ & _ & _ & -> & _). lia.
  - destruct (IHi i Hi) as [Hv _]. split; [lia|done].
Qed.

Lemma state_chain_reserved h l st o so i :
  state_chain h l st -> o ∈ l -> st_of o = Some so -> dc_inflight so = Some i ->
  ((if_version i <= dc_latest_version st)%Z \/ dc_inflight st = Some i) /\
  exists req, from_request i req.
Proof.
  intros Hc. induction Hc as [|l st u st' Hc IH Hu Hs]; [by intros ?%elem_of_nil|].
  intros [->|Hin]%elem_of_cons Hso Hi.
  - simplify_eq. destruct Hs as [j req Hn Hr Hv|j Hj Hlog]; simpl in *; [|done].
    simplify_eq. split; [by right|by exists req].
  - destruct (IH Hin Hso Hi) as [Hor Hreq]. split; [|done].
    destruct (state_chain_current _ _ _ Hc) as [_ Hcur].
    destruct Hs as [j req Hn Hr Hv|j Hj Hlog]; simpl.
    + destruct Hor as [|Hs]; [by left|]. congruence.
    + destruct (Hcur j Hj) as [Hv _]. left. destruct Hor as [|Hs]; [lia|]. simplify_eq. lia.
Qed.

Lemma state_chain_logged h l st v :
  state_chain h l st -> (0 <= v <= dc_latest_version st)%Z -> logged h v.
Proof.
  intros Hc. induction Hc as [|l st u st' Hc IH Hu Hs]; simpl; [lia|].
  destruct (state_chain_current _ _ _ Hc) as [_ Hcur].
  destruct Hs as [j req Hn Hr Hv|j Hj Hlog]; simpl; [done|]. intros Hv.
  destruct (Hcur j Hj) as [Hj' _].
  destruct (decide (v = if_version j)) as [->|]; [done|]. apply IH. lia.
Qed.

Lemma state_chain_unique h l st o o' so so' i i' :
  state_chain h l st -> o ∈ l -> o' ∈ l -> st_of o = Some so -> st_of o' = Some so' ->
  dc_inflight so = Some i -> dc_inflight so' = Some i' -> if_version i = if_version i' -> i = i'.
Proof.
  intros Hc. induction Hc as [|l st u st' Hc IH Hu Hs]; [by intros ?%elem_of_nil|].
  assert (forall x sx j k, x ∈ l -> st_of x = Some sx -> dc_inflight sx = Some j ->
    st_of u = Some st' -> dc_inflight st' = Some k -> if_version j <> if_version k) as Hnew.
  { intros x sx j k Hx Hsx Hj _ Hk. destruct (state_chain_current _ _ _ Hc) as [_ Hcur].
    destruct (state_chain_reserved _ _ _ _ _ _ Hc Hx Hsx Hj) as [Hor _].
    destruct Hs as [m req Hn Hr Hv|m Hm Hlog]; simpl in *; [|done]. simplify_eq.
    destruct Hr as (_ & _ & _ & -> & _). destruct Hor as [|Hs]; [lia|congruence]. }
  intros [->|Hin]%elem_of_cons [->|Hin']%elem_of_cons Hso Hso' Hi Hi' Hv.
  - congruence.
  - exfalso. simplify_eq. by eapply (Hnew o' so' i' i).
  - exfalso. simplify_eq. by eapply (Hnew o so i i').
  - by apply IH.
Qed.

(** *** In a world *)

Abbreviation ok := (world_ok delta_inv).
Abbreviation wpd := (wp delta_inv).

Lemma reserved_elem h v i :
  reserved h v i -> exists o so, o ∈ reverse (writes_at state_path h) /\ st_of o = Some so /\
    dc_inflight so = Some i /\ if_version i = v.
Proof.
  intros (o & so & Ho & ?). exists o, so. split; [|done]. by apply elem_of_reverse, writes_at_elem.
Qed.

Lemma reserved_unique h v i i' : delta_inv h -> reserved h v i -> reserved h v i' -> i = i'.
Proof.
  intros [_ _ _ _ [st Hc]] (o & so & Ho & Hso & Hi & <-)%reserved_elem
    (o' & so' & Ho' & Hso' & Hi' & Hv)%reserved_elem.
  by eapply (state_chain_unique h _ st o o' so so' i i').
Qed.

Lemma reserved_cur h st v i :
  cur h st -> reserved h v i -> (v <= dc_latest_version st)%Z \/ dc_inflight st = Some i.
Proof.
  intros Hc (o & so & Ho & Hso & Hi & <-)%reserved_elem.
  by destruct (state_chain_reserved _ _ _ _ _ _ Hc Ho Hso Hi).
Qed.

Lemma reserved_request h v i : delta_inv h -> reserved h v i -> exists req, from_request i req.
Proof.
  intros [_ _ _ _ [st Hc]] (o & so & Ho & Hso & Hi & <-)%reserved_elem.
  by destruct (state_chain_reserved _ _ _ _ _ _ Hc Ho Hso Hi).
Qed.

(** Two reservations under one key are the same. *)
Lemma reserved_key h v v' i i' :
  delta_inv h -> reserved h v i -> reserved h v' i' -> if_commit_id i = if_commit_id i' ->
  v = v' /\ i = i'.
Proof.
  intros Hinv Hr Hr' Hk.
  destruct (reserved_request _ _ _ Hinv Hr) as (req & Hq & _ & _ & Hv & _).
  destruct (reserved_request _ _ _ Hinv Hr') as (req' & Hq' & _ & _ & Hv' & _).
  assert (req = req') by congruence. subst req'.
  assert (if_version i = v) by (by destruct Hr as (? & ? & ? & ? & ? & ?)).
  assert (if_version i' = v') by (by destruct Hr' as (? & ? & ? & ? & ? & ?)).
  assert (v = v') as -> by congruence. split; [done|]. by eapply reserved_unique.
Qed.

Lemma cur_stored w o st :
  ok w -> w_objects w !! state_path = Some o -> st_of o = Some st -> cur (w_history w) st.
Proof.
  intros [Hwf [_ _ _ _ [st' Hc]]] Ho Hst. rewrite (ww_replay w Hwf) in Ho.
  pose proof Hc as Hc'. unfold cur in Hc'. apply writes_at_stored, last_Some in Ho as [l El].
  rewrite El, reverse_snoc in Hc'. inversion Hc'; subst. by simplify_eq.
Qed.

Lemma cur_absent w : ok w -> w_objects w !! state_path = None -> cur (w_history w) delta_state_default.
Proof.
  intros [Hwf [Hk _ _ _ [st' Hc]]] Ho. rewrite (ww_replay w Hwf) in Ho.
  unfold cur. rewrite (writes_at_absent _ _ Ho (Hk _)). constructor.
Qed.

Lemma inv_snoc_subseteq (h : list change) e : h ⊆ h ++ [e].
Proof. intros x Hx. apply elem_of_app. by left. Qed.

Lemma delta_inv_state w o st st' :
  ok w -> cur (w_history w) st -> st_of o = Some st' -> delta_step (w_history w) st st' ->
  delta_inv (w_history w ++ [Wrote state_path o]).
Proof.
  intros [Hwf [Hk Ho Hl Hm Hc]] Hcur Hst Hs. set (h := w_history w) in *.
  pose proof (inv_snoc_subseteq h (Wrote state_path o)) as Hsub. split.
  - intros p [Hin|Hin%list_elem_of_singleton]%elem_of_app; [by eapply Hk|done].
  - intros p u u' Hp [Hu|[= -> _]%list_elem_of_singleton]%elem_of_app; [|done].
    intros [Hu'|[= -> _]%list_elem_of_singleton]%elem_of_app; [|done]. by eapply Ho.
  - intros v u Hv [Hu|[= E _]%list_elem_of_singleton]%elem_of_app; [|by apply log_path_state in E].
    destruct (Hl v u Hv Hu) as (i & ? & ?). exists i.
    split; [by eapply reserved_mono|by eapply payload_of_mono].
  - intros k u [Hu|[= E _]%list_elem_of_singleton]%elem_of_app; [|by apply marker_path_state in E].
    destruct (Hm k u Hu) as (r & i & ? & ? & ? & ? & ?). exists r, i.
    split_and!; try done; [by eapply reserved_mono|by eapply logged_mono].
  - exists st'. unfold cur. rewrite writes_at_app. simpl. rewrite decide_True by done.
    rewrite reverse_snoc. econstructor; [by eapply state_chain_mono|done|].
    by eapply delta_step_mono.
Qed.

(** A new object elsewhere, written where there was none. *)
Lemma delta_inv_new w p o :
  ok w -> p <> state_path -> w_objects w !! p = None ->
  (forall v, (0 <= v)%Z -> p = log_path v -> exists i, reserved (w_history w) v i /\
     payload_of (w_history w) (if_staged_path i) (if_staged_version i) (so_data o)) ->
  (forall key, p = marker_path key ->
     exists r i, rec_of o = Some r /\ reserved (w_history w) (ir_version r) i /\
       if_commit_id i = key /\ logged (w_history w) (ir_version r) /\
       delta_log_json P (ir_version r) = Ok (ir_delta_log_path r)) ->
  delta_inv (w_history w ++ [Wrote p o]).
Proof.
  intros [Hwf [Hk Ho Hl Hm [st Hc]]] Hp Hnone Hlog Hmark. set (h := w_history w) in *.
  pose proof (inv_snoc_subseteq h (Wrote p o)) as Hsub.
  assert (forall u, Wrote p u ∉ h) as Hnew.
  { intros u Hu. rewrite (ww_replay w Hwf) in Hnone.
    destruct (written_stored h p u Hu (Hk p)) as [? E]. unfold h in E. congruence. }
  split.
  - intros q [Hin|Hin%list_elem_of_singleton]%elem_of_app; [by eapply Hk|done].
  - intros q u u' Hq [Hu|E%list_elem_of_singleton]%elem_of_app
      [Hu'|E'%list_elem_of_singleton]%elem_of_app; simplify_eq; try done;
      [by eapply Ho|by apply Hnew in Hu|by apply Hnew in Hu'].
  - intros v u Hv [Hu|Eq%list_elem_of_singleton]%elem_of_app;
      [|assert (log_path v = p /\ u = o) as [E ->] by (by simplify_eq); clear Eq].
    + destruct (Hl v u Hv Hu) as (i & ? & ?). exists i.
      split; [by eapply reserved_mono|by eapply payload_of_mono].
    + destruct (Hlog v Hv (eq_sym E)) as (i & ? & ?). exists i.
      split; [by eapply reserved_mono|by eapply payload_of_mono].
  - intros k u [Hu|Eq%list_elem_of_singleton]%elem_of_app;
      [|assert (marker_path k = p /\ u = o) as [E ->] by (by simplify_eq); clear Eq].
    + destruct (Hm k u Hu) as (r & i & ? & ? & ? & ? & ?). exists r, i.
      split_and!; try done; [by eapply reserved_mono|by eapply logged_mono].
    + destruct (Hmark k (eq_sym E)) as (r & i & ? & ? & <- & ? & ?). exists r, i.
      split_and!; try done; [by eapply reserved_mono|by eapply logged_mono].
  - exists st. unfold cur. rewrite writes_at_app. simpl. rewrite decide_False by done.
    rewrite app_nil_r. by eapply state_chain_mono.
Qed.

(** ** The programs *)

Context `{!JsonLaws DeltaCoordinatorState, !JsonLaws DeltaCommitIdempotencyRecord}.
Context (sha256_collision_free : forall k k', sha256_hex k = sha256_hex k' -> k = k').
Context (c : DeltaCommitCoordinator) (Hstorage : cc_storage c = s) (Hpaths : cc_paths c = P).
#[local] Set Default Proof Using "All".

Lemma substring_2 (h : string) : 2 <= String.length h -> String.length (String.substring 0 2 h) = 2.
Proof. destruct h as [|a [|b h]]; simpl; [lia|lia|]. intros _. by destruct h. Qed.

Lemma str_app_length_inj (a b x y : string) :
  String.length a = String.length b -> a +:+ x = b +:+ y -> a = b /\ x = y.
Proof.
  revert b. induction a as [|u a IH]; intros [|v b]; simpl; try done. str_simpl.
  intros [= Hl] [= -> E]. by destruct (IH b Hl E) as [-> ->].
Qed.

Lemma marker_path_inj k k' : marker_path k = marker_path k' -> k = k'.
Proof.
  intros E%scoped_inj. unfold idempotency_marker, idempotency_marker_from_hash in E.
  apply str_app_inj_l, str_app_inj_l, str_app_inj_l in E.
  apply str_app_length_inj in E as [_ E].
  - apply str_app_inj_l, str_app_inj_r in E. by apply sha256_collision_free.
  - destruct (Nat.leb_spec 2 (String.length (sha256_hex k)));
      destruct (Nat.leb_spec 2 (String.length (sha256_hex k'))); by rewrite ?substring_2.
Qed.

Lemma wp_sput_try sk p data pre {B} (f : WriteResult -> io (result DeltaError B)) Q w :
  ok w ->
  (forall w' cur, ok w' -> world_le w w' ->
     precondition_failure (w_objects w' !! scoped_path s p) pre = Some cur ->
     wpd sk (f (WritePreconditionFailed cur)) Q w') ->
  (forall w' e, ok w' -> world_le w w' -> wpd sk (Ret (Err (DStorage e))) Q w') ->
  (forall w' o, ok w' -> world_le w w' -> (w_counter w' < i64_max)%Z ->
     precondition_failure (w_objects w' !! scoped_path s p) pre = None -> so_data o = data ->
     delta_inv (w_history w' ++ [Wrote (scoped_path s p) o]) /\
     forall w'', ok w'' -> world_le w' w'' -> Wrote (scoped_path s p) o ∈ w_history w'' ->
       wpd sk (f (WriteSuccess (pretty (so_version o)))) Q w'') ->
  wpd sk (try_with DStorage (sput c p data pre) f) Q w.
Proof.
  intros Hok Hfail Herr Hsucc. unfold sput, put_raw, validated. rewrite Hstorage.
  destruct (validate_path p) as [|e]; [|by apply (Herr w e)].
  apply wp_put_try; [done|intros; by apply Herr|].
  intros w' o Hok' Hle Hc Hpre Hd _ _. destruct (Hsucc w' o Hok' Hle Hc Hpre Hd) as [Hi Hk].
  split; [done|]. intros w'' Hok'' Hle'' Hh _. apply Hk; [done..|]. rewrite Hh.
  apply elem_of_app. right. by apply list_elem_of_singleton.
Qed.

Lemma wp_shead_try sk p {B} (f : option ObjectMeta -> io (result DeltaError B)) Q w :
  ok w ->
  (forall w' e, ok w' -> world_le w w' -> wpd sk (Ret (Err (DStorage e))) Q w') ->
  (forall w', ok w' -> world_le w w' -> wpd sk (f None) Q w') ->
  (forall w' o meta, ok w' -> world_le w w' -> saw (scoped_path s p) w o w' ->
     om_version meta = pretty (so_version o) -> wpd sk (f (Some meta)) Q w') ->
  wpd sk (try_with DStorage (shead c p) f) Q w.
Proof.
  intros Hok Herr Hnone Hsome. unfold shead, head_raw, validated. rewrite Hstorage.
  destruct (validate_path p) as [|e]; [|by apply (Herr w e)].
  apply wp_try; [done|]. eapply wp_mono; [|apply wp_head_saw].
  intros [[meta|]|e] w' Hok' Hle; [|by intros; apply Hnone|by intros; apply Herr].
  intros (o & Hsaw & Hv). by eapply Hsome.
Qed.

Lemma wp_sget_try sk p {B} (f : Bytes -> io (result DeltaError B)) Q w :
  ok w ->
  (forall w' e, ok w' -> world_le w w' -> wpd sk (Ret (Err (DStorage e))) Q w') ->
  (forall w' o, ok w' -> world_le w w' -> saw (scoped_path s p) w o w' ->
     wpd sk (f (so_data o)) Q w') ->
  wpd sk (try_with DStorage (sget c p) f) Q w.
Proof.
  intros Hok Herr Hsome. unfold sget, get_raw, validated. rewrite Hstorage.
  destruct (validate_path p) as [|e]; [|by apply (Herr w e)].
  apply wp_try; [done|]. eapply wp_mono; [|apply wp_get_saw].
  intros [d|e] w' Hok' Hle; [|by intros; apply Herr].
  intros (o & Hsaw & <-). by eapply Hsome.
Qed.

(** A pure step: [f(..)?;] *)
Lemma wp_lift sk {A B} (r : result DeltaError A) (f : A -> io (result DeltaError B)) Q w :
  (forall a, r = Ok a -> wpd sk (f a) Q w) ->
  (forall e, wpd sk (Ret (Err e)) Q w) ->
  wpd sk (try_bind (lift r) f) Q w.
Proof. destruct r as [a|e]; intros Hf He; [by apply Hf|apply He]. Qed.

(** The error branch of every specification below holds trivially. *)
Definition on_ok {A} (Q : A -> world -> Prop) (r : result DeltaError A) (w : world) : Prop :=
  match r with Ok a => Q a w | Err _ => True end.

Lemma wp_then sk {A B} (p : io (result DeltaError A)) (f : A -> io (result DeltaError B))
    (Q : A -> world -> Prop) (Q' : B -> world -> Prop) w :
  ok w -> wpd sk p (on_ok Q) w ->
  (forall a w', ok w' -> world_le w w' -> Q a w' -> wpd sk (f a) (on_ok Q') w') ->
  wpd sk (try_bind p f) (on_ok Q') w.
Proof.
  intros Hok Hp Hf. apply wp_try; [done|]. eapply wp_mono; [|exact Hp].
  intros [a|e] w' Hok' Hle; [by apply Hf|]. done.
Qed.

(** *** Staged payloads *)

Lemma wp_read_staged_payload sk path ver w :
  ok w -> scoped_path s path <> state_path ->
  wpd sk (read_staged_payload c path ver) (on_ok (fun d w' => payload_of (w_history w') path ver d)) w.
Proof.
  intros Hok Hne. apply wp_shead_try; [done|done|done|].
  intros w1 o1 meta Hok1 Hle1 [Ho1 _] Hv. destruct (decide _) as [|Heq]; [done|].
  apply wp_sget_try; [done|done|]. intros w2 o2 Hok2 Hle2 [Ho2 _].
  intros w3 Hok3 Hle3. exists o2.
  assert (o1 = o2) as <-.
  { eapply (di_once _ (proj2 Hok2)); [exact Hne| |done]. by eapply written_le. }
  split_and!; [by eapply written_le| |done].
  destruct (decide (om_version meta = ver)) as [E|E]; [congruence|by destruct Heq].
Qed.

(** *** Coordinator state *)

(** What a load found: an object at least as new as the version it names. *)
Definition loaded (w : world) (st : DeltaCoordinatorState) (exp : option string) : Prop :=
  match exp with
  | None => st = delta_state_default
  | Some ver =>
      exists o1 o2, Wrote state_path o1 ∈ w_history w /\ Wrote state_path o2 ∈ w_history w /\
        (so_version o1 <= so_version o2)%Z /\ ver = pretty (so_version o1) /\ st_of o2 = Some st
  end.

Lemma loaded_le w w' st exp : world_le w w' -> loaded w st exp -> loaded w' st exp.
Proof.
  intros Hle. destruct exp as [ver|]; [|done]. intros (o1 & o2 & ? & ? & ?).
  exists o1, o2. split_and!; try naive_solver; by eapply written_le.
Qed.

Lemma loaded_reserved w st ver i :
  loaded w st (Some ver) -> dc_inflight st = Some i -> reserved (w_history w) (if_version i) i.
Proof. intros (o1 & o2 & _ & Ho2 & _ & _ & Hst) Hi. by exists o2, st. Qed.

Lemma wp_load_state sk w :
  ok w -> wpd sk (load_state c) (on_ok (fun sv w' => loaded w' sv.1 sv.2)) w.
Proof.
  intros Hok. unfold load_state. rewrite Hpaths. apply wp_shead_try; [done|done|done|].
  intros w1 o1 meta Hok1 Hle1 [Ho1 _] Hv. apply wp_sget_try; [done|done|].
  intros w2 o2 Hok2 Hle2 [Ho2 Hnew]. destruct (from_slice (so_data o2)) as [st|] eqn:Hst; [|done].
  intros w3 Hok3 Hle3. exists o1, o2. simpl. split_and!.
  - eapply written_le; [|exact Ho1]. by etrans.
  - by eapply written_le.
  - by apply Hnew.
  - done.
  - done.
Qed.

Lemma wp_store_state sk st st' exp w :
  ok w -> loaded w st exp ->
  (forall w', ok w' -> world_le w w' -> cur (w_history w') st -> delta_step (w_history w') st st') ->
  wpd sk (store_state c st' exp) (on_ok (fun r w' =>
    match r with
    | WriteSuccess _ => exists o, Wrote state_path o ∈ w_history w' /\ st_of o = Some st'
    | WritePreconditionFailed _ => True
    end)) w.
Proof.
  intros Hok Hload Hstep. unfold store_state. rewrite Hpaths.
  destruct (to_vec st') as [b|] eqn:Hb; [|done]. apply wp_sput_try; [done|done|done|].
  intros w1 o Hok1 Hle1 Hc Hpre Hd.
  assert (st_of o = Some st') as Hst by (unfold st_of; rewrite Hd; by apply from_slice_to_vec).
  assert (cur (w_history w1) st) as Hcur.
  { apply (loaded_le w w1) in Hload; [|done]. destruct exp as [ver|]; simpl in Hload.
    - destruct Hload as (o1 & o2 & Ho1 & Ho2 & Hv & -> & Hst2).
      destruct (cas_current_read w1 state_path o1 o2) as [Hst1 ->];
        [apply Hok1|lia|done..|]. by eapply cur_stored.
    - subst st. apply cur_absent; [done|].
      change (scoped_path s (coordinator_state P)) with state_path in Hpre.
      by destruct (w_objects w1 !! state_path). }
  split; [by eapply delta_inv_state; auto|].
  intros w2 Hok2 Hle2 Ho w3 Hok3 Hle3. exists o. split; [by eapply written_le|done].
Qed.

(** *** Markers and log entries *)

(** [v] was reserved under [key] and its log entry is written. *)
Definition landed (w : world) (key : string) (v : Z) : Prop :=
  (exists i, reserved (w_history w) v i /\ if_commit_id i = key) /\ logged (w_history w) v.

Lemma landed_le w w' key v : world_le w w' -> landed w key v -> landed w' key v.
Proof.
  intros Hle%world_le_subseteq [(i & Hr & Hk) Hl].
  split; [exists i; split; [by eapply reserved_mono|done]|by eapply logged_mono].
Qed.

Definition response_at (resp : CommitDeltaResponse) : Prop :=
  delta_log_json P (rs_version resp) = Ok (rs_delta_log_path resp).

Lemma wp_write_idempotency_record sk key hash resp now w :
  ok w -> landed w key (rs_version resp) -> response_at resp ->
  wpd sk (write_idempotency_record c key hash resp now) (on_ok (fun _ _ => True)) w.
Proof.
  intros Hok Hland Hresp. unfold write_idempotency_record.
  destruct (to_vec _) as [b|] eqn:Hb; [|done]. rewrite Hpaths.
  apply wp_sput_try; [done|done|done|]. intros w1 o Hok1 Hle1 Hc Hpre Hd.
  change (scoped_path s (idempotency_marker P key)) with (marker_path key) in *.
  split; [|done]. apply (landed_le w w1) in Hland as [(i & Hr & Hk) Hl]; [|done].
  apply delta_inv_new; [done|apply marker_path_state| | |].
  - by destruct (w_objects w1 !! marker_path key).
  - intros v _ E. by apply marker_path_log in E.
  - intros k' <-%marker_path_inj. eexists _, i. split.
    + unfold rec_of. rewrite Hd. by apply from_slice_to_vec.
    + done.
Qed.

Lemma wp_read_idempotency_record sk key w :
  ok w ->
  wpd sk (read_idempotency_record c key) (on_ok (fun r w' =>
    match r with
    | Some rcd => landed w' key (ir_version rcd) /\
                  response_at (response_from_idempotency_record rcd)
    | None => True
    end)) w.
Proof.
  intros Hok. unfold read_idempotency_record. rewrite Hpaths.
  apply wp_shead_try; [done|done|done|]. intros w1 o1 meta Hok1 Hle1 _ _.
  apply wp_sget_try; [done|done|]. intros w2 o2 Hok2 Hle2 [Ho2 _].
  destruct (from_slice (so_data o2)) as [r|] eqn:Hr; [|done].
  intros w3 Hok3 Hle3.
  destruct (di_markers _ (proj2 Hok2) key o2 Ho2) as (r' & i & Hr' & Hres & Hm & Hl & Hj).
  assert (r' = r) as -> by (unfold rec_of in Hr'; congruence).
  split; [|done]. eapply landed_le; [done|]. split; [|done].
  exists i. split; [done|by apply marker_path_inj].
Qed.

(** Writing the log entry of a reserved version from its staged payload. *)
Lemma wp_put_log sk v i d {B} (f : WriteResult -> io (result DeltaError B)) (Q : B -> world -> Prop) w :
  ok w -> (0 <= v)%Z -> reserved (w_history w) v i ->
  payload_of (w_history w) (if_staged_path i) (if_staged_version i) d ->
  (forall w' cur, ok w' -> world_le w w' -> logged (w_history w') v ->
     wpd sk (f (WritePreconditionFailed cur)) (on_ok Q) w') ->
  (forall w' o, ok w' -> world_le w w' -> Wrote (log_path v) o ∈ w_history w' -> so_data o = d ->
     wpd sk (f (WriteSuccess (pretty (so_version o)))) (on_ok Q) w') ->
  wpd sk (try_with DStorage (sput c (log_rel v) d DoesNotExist) f) (on_ok Q) w.
Proof.
  intros Hok Hv Hr Hp Hfail Hsucc. apply wp_sput_try; [done| |done|].
  - intros w1 cu Hok1 Hle1 Hpre. apply Hfail; [done..|].
    change (scoped_path s (log_rel v)) with (log_path v) in Hpre.
    destruct (w_objects w1 !! log_path v) as [o|] eqn:Ho; [|done].
    exists o. by apply stored_written; [apply Hok1|].
  - intros w1 o Hok1 Hle1 Hc Hpre Hd.
    change (scoped_path s (log_rel v)) with (log_path v) in *.
    pose proof (world_le_subseteq _ _ Hle1) as Hsub. split.
    + apply delta_inv_new; [done|apply log_path_state| | |].
      * by destruct (w_objects w1 !! log_path v).
      * intros v' Hv' <-%log_path_inj; [|done..]. exists i. rewrite Hd.
        split; [by eapply reserved_mono|by eapply payload_of_mono].
      * intros k E. symmetry in E. by apply marker_path_log in E.
    + intros w2 Hok2 Hle2 Ho. apply Hsucc; try done. by etrans.
Qed.

(** An entry of the log has the payload staged for its reservation. *)
Lemma log_payload w v i o d :
  ok w -> (0 <= v)%Z -> reserved (w_history w) v i -> Wrote (log_path v) o ∈ w_history w ->
  scoped_path s (if_staged_path i) <> state_path ->
  payload_of (w_history w) (if_staged_path i) (if_staged_version i) d -> so_data o = d.
Proof.
  intros [_ Hinv] Hv Hr Ho Hne (os & Hos & Hver & <-).
  destruct (di_logs _ Hinv v o Hv Ho) as (i' & Hr' & os' & Hos' & Hver' & <-).
  assert (i' = i) as -> by (by eapply reserved_unique).
  by rewrite (di_once _ Hinv _ _ _ Hne Hos Hos').
Qed.

(** *** Recovery *)

Definition recovered_ok (r : option RecoveredInflight) (w : world) : Prop :=
  match r with
  | Some r => landed w (rv_commit_id r) (rs_version (rv_response r)) /\ response_at (rv_response r)
  | None => True
  end.

Lemma from_request_staged i req :
  from_request i req -> scoped_path s (if_staged_path i) <> state_path.
Proof.
  intros (_ & _ & _ & _ & -> & _ & Hst & _). by apply staged_path_other.
Qed.

Lemma wp_complete_inflight sk now st i ver exists_ w :
  ok w -> loaded w st (Some ver) -> dc_inflight st = Some i -> (0 <= if_version i)%Z ->
  (exists_ = true -> logged (w_history w) (if_version i)) ->
  wpd sk (complete_inflight c now st i ver (log_rel (if_version i)) exists_) (on_ok recovered_ok) w.
Proof.
  intros Hok Hload Hi Hv Hex. pose proof (loaded_reserved _ _ _ _ Hload Hi) as Hr.
  destruct (reserved_request _ _ _ (proj2 Hok) Hr) as [req Hreq].
  pose proof (from_request_staged i req Hreq) as Hne.
  apply (wp_then sk _ _ (fun _ w' => logged (w_history w') (if_version i))); [done| |].
  { destruct exists_.
    - intros w1 Hok1 Hle1. simpl. eapply logged_mono; [by apply world_le_subseteq|by apply Hex].
    - eapply wp_then; [done|by apply wp_read_staged_payload|].
      intros d w1 Hok1 Hle1 Hd. eapply (wp_put_log _ _ i); [done|done| |done| |].
      + eapply reserved_mono; [by apply world_le_subseteq|done].
      + intros w2 cu Hok2 Hle2 Hl w3 Hok3 Hle3. simpl.
        eapply logged_mono; [by apply world_le_subseteq|done].
      + intros w2 o Hok2 Hle2 Ho _ w3 Hok3 Hle3. exists o. by eapply written_le. }
  intros _ w1 Hok1 Hle1 Hl1. eapply wp_then; [done|by apply wp_read_staged_payload|].
  intros d w2 Hok2 Hle2 _. apply wp_lift; [|done]. intros rh _.
  set (resp := mkCommitDeltaResponse (if_version i) (log_rel (if_version i))).
  assert (response_at resp) as Hresp by (by apply delta_log_json_rel).
  assert (world_le w w2) as Hle02 by (by etrans).
  assert (landed w2 (if_commit_id i) (if_version i)) as Hland.
  { split; [exists i; split; [|done]; eapply reserved_mono; [|done]|
      eapply logged_mono; [|done]]; by apply world_le_subseteq. }
  eapply (wp_then sk _ _ (fun _ _ => True)); [done|by apply wp_write_idempotency_record|].
  intros _ w3 Hok3 Hle3 _.
  eapply wp_then; [done|eapply (wp_store_state _ st)|].
  - done.
  - eapply loaded_le; [|done]. by etrans.
  - intros w4 Hok4 Hle4 Hcur. destruct (state_chain_current _ _ _ Hcur) as [_ Hc].
    destruct (Hc i Hi) as [Hvi _]. rewrite Z.max_l by lia. apply step_finish; [done|].
    eapply logged_mono; [|apply Hland]. apply world_le_subseteq. by etrans.
  - intros [v|v] w4 Hok4 Hle4 _ w5 Hok5 Hle5; [|done]. split; [|done].
    eapply landed_le; [|exact Hland]. etrans; [done|]. by etrans.
Qed.

Lemma wp_recover_loop sk n now w :
  ok w -> wpd sk (recover_loop c n now) (on_ok recovered_ok) w.
Proof.
  revert w. induction n as [|n IH]; intros w Hok; [done|].
  eapply wp_then; [done|by apply wp_load_state|].
  intros [st [ver|]] w1 Hok1 Hle1 Hload; [|done].
  destruct (dc_inflight st) as [i|] eqn:Hi; [|done].
  change (loaded w1 st (Some ver)) in Hload.
  apply wp_lift; [|done]. intros _ _. apply wp_lift; [|done]. intros lp Hlp.
  rewrite Hpaths in Hlp. destruct (delta_log_json P (if_version i)) as [lp'|] eqn:Hj; [|done].
  injection Hlp as ->. apply delta_log_json_rel in Hj as [Hv ->].
  assert (forall (meta : option ObjectMeta) w2, ok w2 -> world_le w1 w2 ->
    (is_Some meta -> logged (w_history w2) (if_version i)) ->
    wpd sk (if bool_decide (is_Some meta) || (if_expires_at_ms i <=? timestamp_millis now)%Z
            then try_bind (complete_inflight c now st i ver (log_rel (if_version i))
                             (bool_decide (is_Some meta)))
                   (fun r => match r with Some r => Ret (Ok (Some r)) | None => recover_loop c n now end)
            else Ret (Ok None)) (on_ok recovered_ok) w2) as Hbody.
  { intros meta w2 Hok2 Hle2 Hmeta. destruct (_ || _); [|done].
    eapply wp_then; [done|eapply wp_complete_inflight; [done|by eapply loaded_le|done|done|]|].
    - intros ?%bool_decide_eq_true. auto.
    - intros [r|] w3 Hok3 Hle3 Hrec; [|by apply IH].
      intros w4 Hok4 Hle4. destruct Hrec as [Hl Hresp].
      split; [by eapply landed_le|done]. }
  apply wp_shead_try; [done|done| |].
  - intros w2 Hok2 Hle2. apply (Hbody None); [done|done|]. by intros [].
  - intros w2 o meta Hok2 Hle2 [Ho _] _. apply (Hbody (Some meta)); [done|done|].
    intros _. by exists o.
Qed.

(** *** Reservation *)

Section Request.
Context (req : CommitDeltaRequest).
Context (Hreq : Req (cr_idempotency_key req) = Some req).

Definition reserved_for (w : world) (v : Z) : Prop :=
  exists i, reserved (w_history w) v i /\ from_request i req.

Lemma reserved_for_le w w' v : world_le w w' -> reserved_for w v -> reserved_for w' v.
Proof.
  intros Hle (i & Hr & ?). exists i. split; [|done].
  eapply reserved_mono; [by apply world_le_subseteq|done].
Qed.

Lemma reserved_key_for w v i :
  ok w -> reserved (w_history w) v i -> if_commit_id i = cr_idempotency_key req ->
  from_request i req.
Proof.
  intros [_ Hinv] Hr Hk. destruct (reserved_request _ _ _ Hinv Hr) as [req' Hreq'].
  assert (req' = req) as -> by (destruct Hreq' as [E _]; congruence). done.
Qed.

Lemma resume_inflight_ok st i v :
  resume_inflight req st i = Ok v ->
  if_commit_id i = cr_idempotency_key req /\ v = if_version i.
Proof.
  unfold resume_inflight. destruct (bool_decide _) eqn:Hk; [|done]. simpl.
  repeat (case_match; [done|]). intros [= <-]. by apply bool_decide_eq_true in Hk.
Qed.

Lemma wp_reserve_loop sk n now w :
  str_starts_with staged_prefix (cr_staged_path req) = true ->
  ok w -> wpd sk (reserve_loop c n req now) (on_ok (fun v w' => reserved_for w' v)) w.
Proof.
  intros Hst. revert w. induction n as [|n IH]; intros w Hok; [done|].
  eapply wp_then; [done|by apply wp_load_state|].
  intros [st exp] w1 Hok1 Hle1 Hload. cbn [fst snd] in Hload.
  destruct (dc_inflight st) as [i|] eqn:Hi.
  - destruct exp as [ver|]; [|simpl in Hload; subst st; discriminate Hi].
    destruct (_ <? _)%Z.
    + unfold lift. destruct (resume_inflight req st i) as [v|e] eqn:Hres; [|done].
      apply resume_inflight_ok in Hres as [Hk ->]. intros w2 Hok2 Hle2.
      pose proof (loaded_reserved _ _ _ _ Hload Hi) as Hr.
      eapply reserved_for_le; [done|]. exists i. split; [done|].
      by apply (reserved_key_for w1 _ i Hok1 Hr).
    + eapply wp_then; [done|by apply wp_recover_loop|]. intros _ w2 Hok2 Hle2 _. by apply IH.
  - destruct (Z.eqb_spec (dc_latest_version st) (cr_read_version req)) as [Hrv|]; [|done].
    cbn [negb]. destruct (i64_checked_add _ 1) as [v|] eqn:Hadd; [|done].
    assert (v = dc_latest_version st + 1)%Z as ->.
    { unfold i64_checked_add in Hadd. case_match; by simplify_eq. }
    set (i := mkInflightCommit _ _ _ _ _ _ _).
    eapply wp_then; [done|eapply (wp_store_state _ st); [done|done|]|].
    + intros w2 Hok2 Hle2 Hcur. destruct (state_chain_current _ _ _ Hcur) as [Hl _].
      apply (step_reserve _ _ i req); [done| |done]. unfold from_request. simpl.
      split_and!; try done; lia.
    + intros [v|v] w2 Hok2 Hle2 Hw; [|by apply IH]. intros w3 Hok3 Hle3.
      eapply reserved_for_le; [done|]. destruct Hw as (o & Ho & Hso).
      assert (reserved (w_history w2) (dc_latest_version st + 1) i) as Hr.
      { exists o. eexists. split_and!; [done|done|done|done]. }
      exists i. split; [done|]. by apply (reserved_key_for w2 _ i Hok2 Hr).
Qed.

(** *** Finalization *)

(** A state in which [v] is reserved under [key] and in flight finishes with it. *)
Lemma finish_step w st i key v :
  ok w -> cur (w_history w) st -> landed w key v -> dc_inflight st = Some i ->
  reserved (w_history w) (if_version i) i -> if_commit_id i = key ->
  if_version i = v /\ dc_latest_version st = (v - 1)%Z /\
  delta_step (w_history w) st (mkDeltaCoordinatorState v None).
Proof.
  intros [_ Hinv] Hcur [(j & Hj & Hk) Hl] Hi Hr Hki.
  destruct (reserved_key _ _ _ _ _ Hinv Hr Hj) as [Hv ->]; [congruence|].
  destruct (state_chain_current _ _ _ Hcur) as [_ Hc]. destruct (Hc j Hi) as [Hvi _].
  split_and!; [done|lia|]. subst v. by apply step_finish.
Qed.

(** Nothing in flight: a version that landed is below the latest one. *)
Lemma landed_finished w st key v :
  cur (w_history w) st -> landed w key v -> dc_inflight st = None -> (v <= dc_latest_version st)%Z.
Proof.
  intros Hcur [(j & Hj & _) _] Hn. destruct (reserved_cur _ _ _ _ Hcur Hj); [done|congruence].
Qed.

Lemma wp_finalize_loop sk n key v w :
  ok w -> landed w key v -> wpd sk (finalize_loop c n key v) (on_ok (fun _ _ => True)) w.
Proof.
  revert w. induction n as [|n IH]; intros w Hok Hland; [done|].
  eapply wp_then; [done|by apply wp_load_state|].
  intros [st [ver|]] w1 Hok1 Hle1 Hload; [|done].
  destruct (bool_decide (dc_inflight st = None) && _) eqn:Hfin; [done|].
  destruct (option_bool _ (dc_inflight st)) eqn:Hother; [done|].
  apply (landed_le w w1) in Hland; [|done].
  eapply wp_then; [done|eapply (wp_store_state _ st); [done|done|]|].
  - intros w2 Hok2 Hle2 Hcur. apply (landed_le w1 w2) in Hland; [|done].
    destruct (dc_inflight st) as [i|] eqn:Hi.
    + simpl in Hother. bool_hyps.
      destruct (finish_step w2 st i key v) as (Hv & Hl & Hs); [done..| |done|].
      { eapply loaded_reserved; [|done]. by eapply (loaded_le w1). }
      by rewrite Z.max_l by lia.
    + pose proof (landed_finished _ _ _ _ Hcur Hland Hi).
      rewrite (proj2 (Z.leb_le v _)) in Hfin by done. done.
  - intros [v'|v'] w2 Hok2 Hle2 _; [done|]. apply IH; [done|]. by eapply landed_le.
Qed.

Lemma wp_finalize_replayed_loop sk n key v w :
  ok w -> landed w key v -> wpd sk (finalize_replayed_loop c n key v) (on_ok (fun _ _ => True)) w.
Proof.
  revert w. induction n as [|n IH]; intros w Hok Hland; [done|].
  eapply wp_then; [done|by apply wp_load_state|].
  intros [st [ver|]] w1 Hok1 Hle1 Hload; [|done].
  change (loaded w1 st (Some ver)) in Hload.
  apply (landed_le w w1) in Hland; [|done].
  assert (forall r w2, ok w2 -> world_le w1 w2 ->
    wpd sk (match r with
            | WriteSuccess _ => Ret (Ok tt)
            | WritePreconditionFailed _ => finalize_replayed_loop c n key v
            end) (on_ok (fun _ _ => True)) w2) as Hnext.
  { intros [v'|v'] w2 Hok2 Hle2; [done|]. apply IH; [done|]. by eapply landed_le. }
  destruct (dc_inflight st) as [i|] eqn:Hi.
  - destruct (bool_decide (if_commit_id i = key)) eqn:Hk; cbn [negb]; [|done]. bool_hyps.
    eapply wp_then; [done|eapply (wp_store_state _ st); [done|done|]|by auto].
    intros w2 Hok2 Hle2 Hcur. apply (landed_le w1 w2) in Hland; [|done].
    destruct (finish_step w2 st i key v) as (Hv & Hl & Hs); [done..| |done|].
    { eapply loaded_reserved; [|done]. by eapply (loaded_le w1). }
    by rewrite Z.max_l by lia.
  - destruct (Z.leb_spec v (dc_latest_version st)); [done|].
    eapply wp_then; [done|eapply (wp_store_state _ st); [done|done|]|by auto].
    intros w2 Hok2 Hle2 Hcur. apply (landed_le w1 w2) in Hland; [|done].
    pose proof (landed_finished _ _ _ _ Hcur Hland Hi). lia.
Qed.

(** *** Commit *)

(** What a successful response stands for: the version after the one that was
    read was reserved for the request, and its log entry is the staged payload. *)
Definition committed (w : world) (resp : CommitDeltaResponse) : Prop :=
  response_at resp /\ reserved_for w (rs_version resp) /\
  exists o, Wrote (log_path (rs_version resp)) o ∈ w_history w /\
    payload_of (w_history w) (cr_staged_path req) (cr_staged_version req) (so_data o).

Lemma committed_le w w' resp : world_le w w' -> committed w resp -> committed w' resp.
Proof.
  intros Hle (Hr & Hf & o & Ho & Hp). split_and!; [done|by eapply reserved_for_le|].
  exists o. split; [by eapply written_le|].
  eapply payload_of_mono; [by apply world_le_subseteq|done].
Qed.

Lemma landed_committed w resp :
  ok w -> landed w (cr_idempotency_key req) (rs_version resp) -> response_at resp ->
  committed w resp.
Proof.
  intros Hok [(i & Hr & Hk) [o Ho]] Hresp.
  pose proof (reserved_key_for w _ i Hok Hr Hk) as Hf.
  split_and!; [done|by exists i|]. exists o. split; [done|].
  apply delta_log_json_rel in Hresp as [Hv _].
  destruct (di_logs _ (proj2 Hok) _ _ Hv Ho) as (i' & Hr' & Hp).
  assert (i' = i) as -> by (by eapply reserved_unique; [apply Hok|..]).
  by destruct Hf as (_ & _ & _ & _ & <- & <- & _).
Qed.

Lemma wp_write_delta_log sk v payload w :
  ok w -> (0 <= v)%Z -> reserved_for w v ->
  payload_of (w_history w) (cr_staged_path req) (cr_staged_version req) payload ->
  wpd sk (write_delta_log c (log_rel v) payload) (on_ok (fun _ w' =>
    exists o, Wrote (log_path v) o ∈ w_history w' /\ so_data o = payload)) w.
Proof.
  intros Hok Hv (i & Hr & Hf) Hp. pose proof Hf as (_ & _ & _ & _ & Ep & Ev & _).
  rewrite <- Ep, <- Ev in Hp. apply (wp_put_log _ _ i); [done..| |].
  - intros w1 cu Hok1 Hle1 _. apply wp_sget_try; [done|done|].
    intros w2 o Hok2 Hle2 [Ho _]. destruct (decide (so_data o <> payload)) as [|Heq]; [done|].
    intros w3 Hok3 Hle3. exists o. split; [by eapply written_le|].
    by destruct (decide (so_data o = payload)).
  - intros w1 o Hok1 Hle1 Ho Hd w2 Hok2 Hle2. exists o. split; [by eapply written_le|done].
Qed.

Lemma reserved_for_landed w v :
  reserved_for w v -> logged (w_history w) v -> landed w (cr_idempotency_key req) v.
Proof.
  intros (i & Hr & Hf) Hl. split; [|done]. exists i. split; [done|].
  by destruct Hf as (_ & -> & _).
Qed.

Lemma wp_commit_reserved sk payload hash now w :
  str_starts_with staged_prefix (cr_staged_path req) = true -> ok w ->
  payload_of (w_history w) (cr_staged_path req) (cr_staged_version req) payload ->
  wpd sk (commit_reserved c req payload hash now) (on_ok (fun resp w' => committed w' resp)) w.
Proof.
  intros Hst Hok Hp. eapply wp_then; [done|by apply wp_reserve_loop|].
  intros v w1 Hok1 Hle1 Hr. apply wp_lift; [|done]. intros lp Hlp. rewrite Hpaths in Hlp.
  destruct (delta_log_json P v) as [lp'|] eqn:Hj; [|done]. injection Hlp as ->.
  pose proof Hj as [Hv ->]%delta_log_json_rel.
  eapply wp_then; [done|apply wp_write_delta_log; [done..|]|].
  { eapply payload_of_mono; [by apply world_le_subseteq|done]. }
  intros _ w2 Hok2 Hle2 (o & Ho & Hd).
  set (resp := mkCommitDeltaResponse v (log_rel v)).
  assert (landed w2 (cr_idempotency_key req) (rs_version resp)) as Hland.
  { apply reserved_for_landed; [by eapply reserved_for_le|by exists o]. }
  assert (response_at resp) as Hresp by done.
  eapply wp_then; [done|by apply wp_write_idempotency_record|]. intros _ w3 Hok3 Hle3 _.
  eapply wp_then; [done|apply wp_finalize_loop; [done|by eapply landed_le]|].
  intros _ w4 Hok4 Hle4 _ w5 Hok5 Hle5. simpl. apply landed_committed; [done| |done].
  eapply landed_le; [|exact Hland]. etrans; [done|]. by etrans.
Qed.

Lemma wp_commit sk now w :
  ok w -> wpd sk (commit c req now) (on_ok (fun resp w' => committed w' resp)) w.
Proof.
  intros Hok.
  assert (wpd sk (read_validated_staged_payload c req) (on_ok (fun d w' =>
    str_starts_with staged_prefix (cr_staged_path req) = true /\
    payload_of (w_history w') (cr_staged_path req) (cr_staged_version req) d)) w) as Hread.
  { apply wp_lift; [|done]. intros _ _. apply wp_lift; [|done]. intros [] Hval.
    unfold validate_staged_path in Hval. rewrite Hpaths in Hval. simpl in Hval.
    assert (str_starts_with staged_prefix (cr_staged_path req) = true) as Hst.
    { unfold staged_prefix. by destruct (str_starts_with _ _). }
    eapply wp_mono; [|apply wp_read_staged_payload; [done|by apply staged_path_other]].
    by intros [d|e] w' _ _ Hd. }
  eapply wp_then; [done|exact Hread|]. intros d w1 Hok1 Hle1 [Hst Hd].
  apply wp_lift; [|done]. intros hash _. apply wp_lift; [|done]. intros lhash _.
  eapply (wp_then sk _ _ (fun r w' =>
    match r with
    | Some resp => landed w' (cr_idempotency_key req) (rs_version resp) /\ response_at resp
    | None => True
    end)); [done| |].
  { eapply wp_then; [done|by apply wp_read_idempotency_record|].
    intros [rcd|] w2 Hok2 Hle2 Hr; [|done]. destruct (decide _); [|done].
    intros w3 Hok3 Hle3. destruct Hr. split; [by eapply landed_le|done]. }
  intros [resp|] w2 Hok2 Hle2 Hrep.
  - destruct Hrep as [Hland Hresp].
    eapply wp_then; [done|by apply wp_finalize_replayed_loop|].
    intros _ w3 Hok3 Hle3 _ w4 Hok4 Hle4. simpl. apply landed_committed; [done| |done].
    eapply landed_le; [|exact Hland]. by etrans.
  - eapply wp_then; [done|by apply wp_recover_loop|].
    intros rv w3 Hok3 Hle3 Hrec.
    assert (wpd sk (commit_reserved c req d hash now) (on_ok (fun resp w' => committed w' resp)) w3)
      as Hres.
    { apply wp_commit_reserved; [done..|]. eapply payload_of_mono; [|done].
      apply world_le_subseteq. by etrans. }
    destruct rv as [rv|]; [|done]. destruct (decide _) as [Hk|]; [|done].
    destruct (decide _); [done|]. destruct Hrec as [Hland Hresp]. rewrite Hk in Hland.
    intros w4 Hok4 Hle4. simpl. apply landed_committed; [done| |done]. by eapply landed_le.
Qed.
End Request.

(** *** Staging *)

Lemma str_starts_with_app a b : str_starts_with a (a +:+ b) = true.
Proof.
  unfold str_starts_with. induction a as [|x a IH]; [by destruct b|]. str_simpl.
  by destruct (ascii_dec x x).
Qed.

Lemma wp_stage sk ulid payload w :
  ok w -> wpd sk (stage_commit_payload c ulid payload) (on_ok (fun _ _ => True)) w.
Proof.
  intros Hok. unfold stage_commit_payload. rewrite Hpaths.
  apply wp_sput_try; [done|done|done|]. intros w1 o Hok1 Hle1 Hc Hpre Hd. split; [|done].
  assert (str_starts_with staged_prefix (staging_payload P ulid) = true) as Hst.
  { assert (staging_payload P ulid = staged_prefix +:+ (ulid +:+ ".json")) as ->
      by (unfold staging_payload, staged_prefix; by rewrite !str_app_assoc).
    apply str_starts_with_app. }
  destruct (staged_path_other _ Hst) as (Hs & Hl & Hm).
  apply delta_inv_new; [done|done| | |].
  - by destruct (w_objects w1 !! _).
  - intros v _ E. by apply Hl in E.
  - intros k E. by apply Hm in E.
Qed.
End DeltaProps.
