(* ===== verification/DeltaProps.v ===== *)
(** The Delta log as its clients see it. *)

From S2P Require Import Prelude Events Storage Interleave Scoped Delta LockProps DeltaInvariant Sample.
From stdpp Require Import options.

(** ** Clients of one table *)

Inductive delta_user :=
  | UStage (ulid : string) (payload : Bytes)
  | UCommit (inflight_ttl : N) (max_cas_retries : nat) (req : CommitDeltaRequest) (now : DateTime).

(** The request of a key among the clients. *)
Definition key_request (users : list delta_user) (key : string) : option CommitDeltaRequest :=
  list.head (omap (fun u =>
    match u with
    | UStage _ _ => None
    | UCommit _ _ req _ => if decide (cr_idempotency_key req = key) then Some req else None
    end) users).

(** A retry sends the request again. *)
Definition one_request_per_key (users : list delta_user) : Prop :=
  forall u u', u ∈ users -> u' ∈ users ->
    match u, u' with
    | UCommit _ _ req _, UCommit _ _ req' _ =>
        cr_idempotency_key req = cr_idempotency_key req' -> req = req'
    | _, _ => True
    end.

Lemma key_request_ok users ttl n req now :
  one_request_per_key users -> UCommit ttl n req now ∈ users ->
  key_request users (cr_idempotency_key req) = Some req.
Proof.
  intros Hone Hin. unfold key_request.
  destruct (omap _ users) as [|r rs] eqn:E.
  - exfalso. assert (req ∈ @nil CommitDeltaRequest) as Hr; [|by apply elem_of_nil in Hr].
    rewrite <- E. apply list_elem_of_omap. eexists. split; [done|]. simpl. by rewrite decide_True.
  - simpl. f_equal. assert (r ∈ r :: rs) as Hr by (by left). rewrite <- E in Hr.
    apply list_elem_of_omap in Hr as ([|ttl' n' req' now'] & Hin' & Hr); [done|].
    case_decide; [|done]. simplify_eq. by apply (Hone _ _ Hin' Hin).
Qed.

Section Run.
Context `{Hashes, Chrono, Jcs, UuidParse}.
Context `{Json DeltaCoordinatorState, Json DeltaCommitIdempotencyRecord}.
Context (s : ScopedStorage) (tid : string).

Definition delta_coordinator (ttl : N) (retries : nat) : DeltaCommitCoordinator :=
  mkDeltaCommitCoordinator s (delta_paths_legacy tid) ttl retries.

Definition delta_thread (u : delta_user) : io (result DeltaError (option CommitDeltaResponse)) :=
  match u with
  | UStage ulid payload =>
      let? _ := stage_commit_payload (delta_coordinator 0 0) ulid payload in Ret (Ok None)
  | UCommit ttl n req now =>
      let? resp := commit (delta_coordinator ttl n) req now in Ret (Ok (Some resp))
  end.

Definition delta_run (skew : nat -> Z) (clock : DateTime) (users : list delta_user)
    (ts : list turn) : config (result DeltaError (option CommitDeltaResponse)) :=
  run_schedule skew ts (mkConfig (delta_thread <$> users) (world_new clock)).

Context `{!JsonLaws DeltaCoordinatorState, !JsonLaws DeltaCommitIdempotencyRecord}.
Context (sha256_collision_free : forall k k', sha256_hex k = sha256_hex k' -> k = k').
Context (skew : nat -> Z) (clock : DateTime) (users : list delta_user) (ts : list turn).
Context (fresh_versions : (Z.of_nat (length ts) <= i64_max)%Z).
Context (honest_keys : one_request_per_key users).
#[local] Set Default Proof Using "All".

Abbreviation world_after := (cf_world (delta_run skew clock users ts)).
Abbreviation inv := (delta_inv s tid (key_request users)).

Lemma delta_new_ok : world_ok inv (world_new clock).
Proof.
  split.
  - split; [done|constructor|constructor|done].
  - split; try (intros; by match goal with Hin : _ ∈ _ |- _ => apply elem_of_nil in Hin end).
    + intros p Hin. by apply elem_of_nil in Hin.
    + exists delta_state_default. constructor.
Qed.

Lemma delta_run_sound :
  world_ok inv world_after /\
  forall i ttl n req now resp,
    users !! i = Some (UCommit ttl n req now) ->
    cf_threads (delta_run skew clock users ts) !! i = Some (Ret (Ok (Some resp))) ->
    committed s tid (key_request users) req world_after resp.
Proof.
  destruct (run_schedule_sound inv skew
    (fun i r w => forall ttl n req now resp, users !! i = Some (UCommit ttl n req now) ->
       r = Ok (Some resp) -> committed s tid (key_request users) req w resp)
    ts (mkConfig (delta_thread <$> users) (world_new clock))) as (Hok & _ & Hth & _).
  - apply delta_new_ok.
  - intros i p Hp. simpl in Hp. apply list_lookup_fmap_Some in Hp as (u & -> & Hu).
    destruct u as [ulid payload|ttl n req now]; apply wp_try; try apply delta_new_ok.
    + eapply wp_mono; [|by eapply wp_stage, delta_new_ok].
      intros [sc|e] w' _ _ _; intros w'' _ _ ttl n req now resp Hu'; simplify_eq.
    + assert (key_request users (cr_idempotency_key req) = Some req) as Hkey
        by (eapply key_request_ok; [done|by eapply list_elem_of_lookup_2]).
      eapply wp_mono; [|by eapply wp_commit, delta_new_ok].
      intros [resp|e] w1 Hok1 _ Hc; intros w2 Hok2 Hle2 ttl' n' req' now' resp' Hu' E;
        simplify_eq. by eapply (committed_le) with (c := delta_coordinator 0 0).
  - done.
  - split; [done|]. intros i ttl n req now resp Hu Hr.
    by apply (Hth i _ Hr _ Hok ltac:(done) ttl n req now resp Hu).
Qed.

(** What was written outside the coordinator's state is what is stored there. *)
Lemma written_current p o :
  p <> state_path s tid -> Wrote p o ∈ w_history world_after -> w_objects world_after !! p = Some o.
Proof.
  intros Hp Ho. destruct delta_run_sound as [[Hwf Hinv] _].
  destruct (written_stored _ _ _ Ho (di_kept _ _ _ _ Hinv p)) as [o' Ho'].
  rewrite <- (ww_replay _ Hwf) in Ho'. rewrite Ho'. f_equal.
  eapply (di_once _ _ _ _ Hinv p); [done| |done]. by apply stored_written.
Qed.


End Run.

(** ** A concrete table *)

#[local] Instance inflight_eq_dec : EqDecision InflightCommit.
Proof. solve_decision. Defined.
#[local] Instance inflight_countable : Countable InflightCommit.
Proof.
  apply (inj_countable'
    (fun r => (if_commit_id r, if_read_version r, if_version r, if_staged_path r,
               if_staged_version r, if_started_at_ms r, if_expires_at_ms r))
    (fun '(a, b, c, d, e, f, g) => mkInflightCommit a b c d e f g)).
  by intros [].
Defined.
#[local] Instance delta_state_eq_dec : EqDecision DeltaCoordinatorState.
Proof. solve_decision. Defined.
#[local] Instance delta_state_countable : Countable DeltaCoordinatorState.
Proof.
  apply (inj_countable' (fun r => (dc_latest_version r, dc_inflight r))
           (fun '(a, b) => mkDeltaCoordinatorState a b)).
  by intros [].
Defined.
#[local] Instance delta_record_eq_dec : EqDecision DeltaCommitIdempotencyRecord.
Proof. solve_decision. Defined.
#[local] Instance delta_record_countable : Countable DeltaCommitIdempotencyRecord.
Proof.
  apply (inj_countable'
    (fun r => (ir_idempotency_key r, ir_idempotency_key_hash r, ir_request_hash r, ir_version r,
               ir_delta_log_path r, ir_committed_at_ms r))
    (fun '(a, b, c, d, e, f) => mkDeltaCommitIdempotencyRecord a b c d e f)).
  by intros [].
Defined.

#[local] Instance sample_state_json : Json DeltaCoordinatorState := countable_json _.
#[local] Instance sample_record_json : Json DeltaCommitIdempotencyRecord := countable_json _.
#[local] Instance sample_state_laws : JsonLaws DeltaCoordinatorState := countable_json_laws _.
#[local] Instance sample_record_laws : JsonLaws DeltaCommitIdempotencyRecord :=
  countable_json_laws _.
#[local] Instance sample_jcs : Jcs := {|
  jcs_request := fun k v p h => Some (k +:+ "|" +:+ pretty v +:+ "|" +:+ p +:+ "|" +:+ h);
  jcs_legacy := fun v p pv k => Some (pretty v +:+ "|" +:+ p +:+ "|" +:+ pv +:+ "|" +:+ k)
|}.
#[local] Instance sample_uuid : UuidParse := fun k => Some (7%N, k).

Definition sample_scope : ScopedStorage := mkScopedStorage "t" "w" "tenant=t/workspace=w".

Definition sample_request (key ulid version : string) (read_version : Z) : CommitDeltaRequest :=
  mkCommitDeltaRequest read_version ("delta/staging/tbl/" +:+ ulid +:+ ".json") version key.

(** Two payloads are staged; the first commit stops after its reservation, which
    expires; the second completes it and commits next; then the first resumes. *)
Definition sample_clients : list delta_user :=
  [UStage "a" "A"; UStage "b" "B";
   UCommit 5 3 (sample_request "k1" "a" "1" (-1)) 0;
   UCommit 5 3 (sample_request "k2" "b" "2" 0) 10000000].

Definition sample_turns : list turn :=
  turns ([0; 1] ++ replicate 6 2 ++ replicate 40 3 ++ replicate 10 2).

Abbreviation sample_delta_run :=
  (delta_run sample_scope "tbl" (fun _ => 0%Z) 0 sample_clients sample_turns).

Lemma sample_honest : one_request_per_key sample_clients.
Proof.
  intros u u' Hu Hu'. unfold sample_clients in *.
  repeat match goal with
  | Hin : _ ∈ _ :: _ |- _ => apply elem_of_cons in Hin as [->|Hin]
  | Hin : _ ∈ [] |- _ => by apply elem_of_nil in Hin
  end; done.
Qed.

Lemma sample_delta_result : exists p0 p1,
  cf_threads sample_delta_run =
    [Ret (Ok None); Ret (Ok None); Ret (Ok (Some (mkCommitDeltaResponse 0 p0)));
     Ret (Ok (Some (mkCommitDeltaResponse 1 p1)))].
Proof. eexists _, _. vm_compute. reflexivity. Qed.

Lemma sample_collision_free (k k' : string) : sha256_hex k = sha256_hex k' -> k = k'.
Proof. done. Qed.



(** ** Where the guarantee ends

    One key, two requests.  The second passes the replay check before the first
    has left its marker and reserves the next version under the same key; a retry of
    the first then takes that reservation for its own and finalizes it, although
    nothing was written there: the latest version has no log entry. *)
Lemma key_reuse_leaves_hole :
  exists ts,
    let req1 := sample_request "k" "a" "1" (-1) in
    let req2 := sample_request "k" "b" "2" 0 in
    let users := [UStage "a" "A"; UStage "b" "B"; UCommit 5 3 req1 0; UCommit 5 3 req2 0;
                  UCommit 5 3 req1 0] in
    let w := cf_world (delta_run sample_scope "tbl" (fun _ => 0%Z) 0 users ts) in
    exists o st, w_objects w !! state_path sample_scope "tbl" = Some o /\
      from_slice (so_data o) = Some st /\ dc_latest_version st = 1%Z /\ dc_inflight st = None /\
      w_objects w !! log_path sample_scope "tbl" 1 = None.
Proof.
  exists (turns ([0; 1] ++ replicate 3 3 ++ replicate 30 2 ++ replicate 5 3 ++ replicate 30 4)).
  eexists _, _. split; [by vm_compute|]. split; [by vm_compute|]. by vm_compute.
Qed.
