(* ===== verification/PublishProps.v ===== *)
(** Snapshot and pointer publication under every interleaving
    ([publish_snapshot_pointer_transaction] of [crates/arco-core/src/publish.rs]).

    Any number of publishers write their snapshots and then swing one pointer, each
    expecting the version of the pointer it read. *)

From S2P Require Import Prelude Storage Interleave Lock Scoped LockProps.
From stdpp Require Import sorting options.

Record publisher := mkPublisher {
  pu_snapshot_path : string;
  pu_snapshot_payload : Bytes;
  pu_pointer_payload : Bytes;
  pu_expected : option string;
  pu_legacy : option (string * Bytes);
  pu_durability : SnapshotPointerDurability;
  pu_before : io (result Error unit)
}.

(** The validation a caller passes reads the store and decides. *)
Inductive reads_only {A} : io A -> Prop :=
  | reads_ret a : reads_only (Ret a)
  | reads_call c k :
      match c with CPut _ _ _ | CDelete _ => False | _ => True end ->
      (forall r, reads_only (k r)) -> reads_only (Call c k).

Lemma NoDup_fmap_elem_inj {A B} (f : A -> B) (l : list A) x y :
  NoDup (f <$> l) -> x ∈ l -> y ∈ l -> f x = f y -> x = y.
Proof.
  intros Hnd [i Hi]%list_elem_of_lookup_1 [j Hj]%list_elem_of_lookup_1 E.
  assert (i = j) as ->; [|congruence].
  eapply (NoDup_lookup _ _ _ (f x) Hnd); rewrite list_lookup_fmap; [by rewrite Hi|].
  by rewrite Hj, E.
Qed.

Section Publish.
Context (s : ScopedStorage) (pointer_path : string) (publishers : list publisher).

Abbreviation full := (scoped_path s).

Definition publish_thread (u : publisher) : io (result Error SnapshotPointerPublishOutcome) :=
  publish_snapshot_pointer_transaction (put_raw s) (pu_snapshot_path u) (pu_snapshot_payload u)
    pointer_path (pu_pointer_payload u) (pu_expected u) (pu_legacy u) (pu_durability u) (pu_before u).

Definition is_snapshot (p : string) : Prop :=
  exists u, u ∈ publishers /\ p = full (pu_snapshot_path u).

(** What the callers see to: the pointer is no snapshot, mirrors are neither, and
    validations only read. *)
Record publishers_ok : Prop := {
  po_pointer : ~ is_snapshot (full pointer_path);
  po_legacy : forall u p d, u ∈ publishers -> pu_legacy u = Some (p, d) ->
    full p <> full pointer_path /\ ~ is_snapshot (full p);
  po_before : forall u, u ∈ publishers -> reads_only (pu_before u)
}.

(** The pointer [o] was written for [u], whose snapshot was there before. *)
Definition points (h : list change) (o : StoredObject) (u : publisher) : Prop :=
  u ∈ publishers /\ so_data o = pu_pointer_payload u /\
  exists os, Wrote (full (pu_snapshot_path u)) os ∈ h /\ so_data os = pu_snapshot_payload u /\
    (so_version os < so_version o)%Z.

(** The pointers, newest first: each replaced the one its publisher expected. *)
Inductive pointer_chain (h : list change) : list StoredObject -> Prop :=
  | pchain_nil : pointer_chain h []
  | pchain_first o u :
      points h o u -> pu_expected u = None -> pointer_chain h [o]
  | pchain_next o o' l u v :
      pointer_chain h (o :: l) -> points h o' u ->
      pu_expected u = Some v -> parse_i64 v = Some (so_version o) -> pointer_chain h (o' :: o :: l).

Record publish_inv (h : list change) : Prop := {
  pv_kept : forall p, Deleted p ∉ h;
  pv_once : forall p o o', is_snapshot p -> Wrote p o ∈ h -> Wrote p o' ∈ h -> o = o';
  pv_chain : pointer_chain h (reverse (writes_at (full pointer_path) h))
}.

Lemma points_mono h h' o u : h ⊆ h' -> points h o u -> points h' o u.
Proof. intros Hh (? & ? & os & Hos & ?). split_and!; try done. exists os. by split; [apply Hh|]. Qed.

Lemma pointer_chain_mono h h' l : h ⊆ h' -> pointer_chain h l -> pointer_chain h' l.
Proof.
  intros Hh. induction 1; [constructor|eapply pchain_first|eapply pchain_next]; eauto using points_mono.
Qed.

Lemma snoc_subseteq (h : list change) e : h ⊆ h ++ [e].
Proof. intros x Hx. apply elem_of_app. by left. Qed.

Lemma publish_inv_other h p o :
  publish_inv h -> p <> full pointer_path -> ~ is_snapshot p -> publish_inv (h ++ [Wrote p o]).
Proof.
  intros [Hk Ho Hc] Hp Hns. split.
  - intros q [Hin|Hin%list_elem_of_singleton]%elem_of_app; [by eapply Hk|done].
  - intros q u u' Hq [Hu|E%list_elem_of_singleton]%elem_of_app
      [Hu'|E'%list_elem_of_singleton]%elem_of_app; simplify_eq; try done. by eapply Ho.
  - rewrite writes_at_app. simpl. rewrite decide_False by done. rewrite app_nil_r.
    eapply pointer_chain_mono; [apply snoc_subseteq|done].
Qed.

Lemma publish_inv_snapshot w p o :
  world_ok publish_inv w -> p <> full pointer_path -> w_objects w !! p = None ->
  publish_inv (w_history w ++ [Wrote p o]).
Proof.
  intros [Hwf [Hk Ho Hc]] Hp Hnone.
  assert (forall u, Wrote p u ∉ w_history w) as Hnew.
  { intros u Hu. rewrite (ww_replay w Hwf) in Hnone.
    destruct (written_stored _ p u Hu (Hk p)) as [? E]. congruence. }
  split.
  - intros q [Hin|Hin%list_elem_of_singleton]%elem_of_app; [by eapply Hk|done].
  - intros q u u' Hq [Hu|E%list_elem_of_singleton]%elem_of_app
      [Hu'|E'%list_elem_of_singleton]%elem_of_app; simplify_eq; try done;
      [by eapply Ho|by apply Hnew in Hu|by apply Hnew in Hu'].
  - rewrite writes_at_app. simpl. rewrite decide_False by done. rewrite app_nil_r.
    eapply pointer_chain_mono; [apply snoc_subseteq|done].
Qed.

(** Swinging the pointer from the version that was expected. *)
Lemma publish_inv_pointer w o u :
  publishers_ok -> world_ok publish_inv w -> points (w_history w) o u ->
  precondition_failure (w_objects w !! full pointer_path)
    match pu_expected u with None => DoesNotExist | Some v => MatchesVersion v end = None ->
  publish_inv (w_history w ++ [Wrote (full pointer_path) o]).
Proof.
  intros [Hptr _ _] [Hwf [Hk Ho Hc]] Hpts Hpre.
  pose proof (snoc_subseteq (w_history w) (Wrote (full pointer_path) o)) as Hsub. split.
  - intros q [Hin|Hin%list_elem_of_singleton]%elem_of_app; [by eapply Hk|done].
  - intros q x x' Hq [Hu|E%list_elem_of_singleton]%elem_of_app
      [Hu'|E'%list_elem_of_singleton]%elem_of_app; simplify_eq; try done. by eapply Ho.
  - rewrite writes_at_app. simpl. rewrite decide_True by done. rewrite reverse_snoc.
    apply (points_mono _ _ _ _ Hsub) in Hpts.
    destruct (w_objects w !! full pointer_path) as [cu|] eqn:Hcu.
    + destruct (pu_expected u) as [v|] eqn:Hv; [|done].
      assert (parse_i64 v = Some (so_version cu)) as Hp.
      { simpl in Hpre. destruct (decide _) as [|Hn]; [done|].
        destruct (decide (Some (so_version cu) = parse_i64 v)); [done|by destruct Hn]. }
      rewrite (ww_replay w Hwf) in Hcu.
      apply writes_at_stored, last_Some in Hcu as [l El]. rewrite El, reverse_snoc in Hc |- *.
      eapply pchain_next; [by eapply pointer_chain_mono|done..].
    + destruct (pu_expected u) as [v|] eqn:Hv; [done|]. rewrite (ww_replay w Hwf) in Hcu.
      rewrite (writes_at_absent _ _ Hcu (Hk _)). by eapply pchain_first.
Qed.

(** ** The programs *)

Context (Hpub : publishers_ok).
#[local] Set Default Proof Using "All".
Abbreviation ok := (world_ok publish_inv).
Abbreviation wpp := (wp publish_inv).

Lemma wp_reads_only sk {A} (p : io A) w : reads_only p -> wpp sk p (fun _ _ => True) w.
Proof.
  intros Hp. revert w. induction Hp as [a|cl k Hcl _ IH]; intros w; [done|].
  intros w' tick f Hok Hle Hc. destruct (world_call sk cl tick f w') as [r w''] eqn:E.
  assert (w_history w'' = w_history w') as Hh.
  { unfold world_call in E. destruct (run_call cl _ _) as [r0 b] eqn:Er.
    assert (changes cl (w_backend w') b = []) as Hch by (by destruct cl).
    rewrite Hch, app_nil_r in E. destruct f, (lost_response cl); by simplify_eq/=. }
  rewrite Hh. split; [apply Hok|apply IH].
Qed.

(** What an outcome stands for. *)
Definition published (u : publisher) (r : result Error SnapshotPointerPublishOutcome) (w : world) :
    Prop :=
  match r with
  | Ok out =>
      (exists os, Wrote (full (pu_snapshot_path u)) os ∈ w_history w /\
         so_data os = pu_snapshot_payload u) /\
      match out with
      | Visible v _ => exists o, v = pretty (so_version o) /\
          Wrote (full pointer_path) o ∈ w_history w /\ so_data o = pu_pointer_payload u
      | PersistedNotVisible => True
      end
  | Err _ => True
  end.

Lemma wp_publish sk u w : u ∈ publishers -> ok w -> wpp sk (publish_thread u) (published u) w.
Proof.
  intros Hu Hok. pose proof Hpub as [Hptr Hleg Hbef]. unfold publish_thread,
    publish_snapshot_pointer_transaction.
  assert (full (pu_snapshot_path u) <> full pointer_path) as Hne.
  { intros E. destruct Hptr. exists u. by rewrite E. }
  unfold put_raw at 1, validated. destruct (validate_path (pu_snapshot_path u)); [|done].
  apply wp_put_try; [done|done|]. intros w1 os Hok1 Hle1 Hc1 Hpre1 Hd1 Hv1 _.
  split; [apply publish_inv_snapshot; try done; by destruct (w_objects w1 !! _)|].
  intros w2 Hok2 Hle2 Hh2 _. apply wp_try; [done|].
  assert (Wrote (full (pu_snapshot_path u)) os ∈ w_history w2) as Hos
    by (rewrite Hh2; apply elem_of_app; right; by apply list_elem_of_singleton).
  eapply wp_mono; [|by apply wp_reads_only, Hbef]. intros [[]|e] w3 Hok3 Hle3 _; [|done].
  apply (written_le _ _ _ _ Hle3) in Hos.
  assert (forall w', world_le w3 w' -> exists os, Wrote (full (pu_snapshot_path u)) os ∈ w_history w'
    /\ so_data os = pu_snapshot_payload u) as Hsnap.
  { intros w' Hle'. exists os. split; [by eapply written_le|done]. }
  unfold put_raw at 1, validated. destruct (validate_path pointer_path); [|done].
  apply wp_put_try; [|done|].
  - intros w4 cu Hok4 Hle4 _. case_decide; [|done]. intros w5 Hok5 Hle5.
    split; [|done]. apply Hsnap. by etrans.
  - intros w4 o Hok4 Hle4 Hc4 Hpre4 Hd4 Hv4 _.
    assert (points (w_history w4) o u) as Hpts.
    { split_and!; [done|done|]. exists os. split_and!; [by eapply written_le|done|].
      rewrite Hv4. apply (written_le _ _ _ _ Hle4) in Hos.
      pose proof (written_version w4 _ _ (proj1 Hok4) Hos). lia. }
    split; [by eapply publish_inv_pointer|].
    intros w5 Hok5 Hle5 Hh5 _.
    assert (Wrote (full pointer_path) o ∈ w_history w5) as Ho5
      by (rewrite Hh5; apply elem_of_app; right; by apply list_elem_of_singleton).
    assert (forall b w', ok w' -> world_le w5 w' ->
      wpp sk (Ret (Ok (Visible (pretty (so_version o)) b))) (published u) w') as Hvis.
    { intros b w6 Hok6 Hle6 w7 Hok7 Hle7. split.
      - apply Hsnap. etrans; [done|]. etrans; [done|]. by etrans.
      - exists o. split_and!; [done| |done]. eapply written_le; [|done]. by etrans. }
    destruct (pu_legacy u) as [[lp ld]|] eqn:Hl; [|by apply Hvis].
    destruct (Hleg u lp ld Hu Hl) as [Hlp Hls].
    unfold put_raw, validated. destruct (validate_path lp); [|by apply Hvis].
    apply wp_put; [intros; by apply Hvis|intros; by apply Hvis|].
    intros w6 ol Hok6 Hle6 _ _ _ _ _. split; [by apply publish_inv_other; [apply Hok6|..]|].
    intros w7 Hok7 Hle7 _ _. apply Hvis; [done|by etrans].
Qed.

(** ** Every schedule *)

Definition publish_run (skew : nat -> Z) (clock : DateTime) (ts : list turn) :
    config (result Error SnapshotPointerPublishOutcome) :=
  run_schedule skew ts (mkConfig (publish_thread <$> publishers) (world_new clock)).

Lemma publish_run_sound skew clock ts :
  (Z.of_nat (length ts) <= i64_max)%Z ->
  ok (cf_world (publish_run skew clock ts)) /\
  forall i u r, publishers !! i = Some u ->
    cf_threads (publish_run skew clock ts) !! i = Some (Ret r) ->
    published u r (cf_world (publish_run skew clock ts)).
Proof.
  intros Hlen.
  assert (ok (world_new clock)) as Hnew.
  { split; [split; [done|constructor|constructor|done]|].
    split; [by intros p ?%elem_of_nil|by intros ????  ?%elem_of_nil|constructor]. }
  destruct (run_schedule_sound publish_inv skew
    (fun i r w => forall u, publishers !! i = Some u -> published u r w)
    ts (mkConfig (publish_thread <$> publishers) (world_new clock))) as (Hok & _ & Hth & _).
  - done.
  - intros i p Hp. simpl in Hp. apply list_lookup_fmap_Some in Hp as (u & -> & Hu).
    eapply wp_mono; [|apply wp_publish; [by eapply list_elem_of_lookup_2|done]].
    intros r w' _ _ Hr u' Hu'. by simplify_eq.
  - done.
  - split; [done|]. intros i u r Hu Hr. by apply (Hth i (Ret r) Hr _ Hok ltac:(done) u Hu).
Qed.

(** Each pointer of the chain replaced the version its publisher expected; the
    oldest replaced none. *)
Lemma pointer_chain_expected h l1 o l2 :
  pointer_chain h (l1 ++ o :: l2) ->
  exists u, points h o u /\
    match l2 with
    | [] => pu_expected u = None
    | p :: _ => exists v, pu_expected u = Some v /\ parse_i64 v = Some (so_version p)
    end.
Proof.
  induction l1 as [|x l1 IH]; simpl; intros Hc.
  - inversion Hc; subst; eauto 10.
  - apply IH. inversion Hc as [|? ? ? ? E|? ? ? ? ? ? ? ? E]; subst; [by destruct l1|].
    congruence.
Qed.

(** The versions of the chain fall strictly. *)
Lemma pointers_fall w l1 o l2 o' :
  ok w -> reverse (writes_at (full pointer_path) (w_history w)) = l1 ++ o :: l2 -> o' ∈ l2 ->
  (so_version o' < so_version o)%Z.
Proof.
  intros [Hwf _] El Ho'.
  pose proof (StronglySorted_reverse _ (writes_at_sorted w (full pointer_path) Hwf)) as Hs.
  rewrite <- fmap_reverse, El, fmap_app in Hs. clear El. simpl in Hs.
  induction (so_version <$> l1) as [|x k IH]; simpl in Hs; apply StronglySorted_inv in Hs as [Hs Hx].
  - rewrite Forall_forall in Hx. specialize (Hx (so_version o')).
    assert (so_version o > so_version o')%Z; [|lia]. apply Hx, list_elem_of_fmap. eauto.
  - by apply IH.
Qed.

(** Of two pointers, the newer replaced a newer version. *)
Lemma pointer_expected_inj w o o' u u' :
  ok w -> NoDup (pu_pointer_payload <$> publishers) ->
  Wrote (full pointer_path) o ∈ w_history w -> Wrote (full pointer_path) o' ∈ w_history w ->
  u ∈ publishers -> u' ∈ publishers -> so_data o = pu_pointer_payload u ->
  so_data o' = pu_pointer_payload u' -> pu_expected u = pu_expected u' ->
  (so_version o < so_version o')%Z -> False.
Proof.
  intros Hok Hnd Ho Ho' Hu Hu' Hd Hd' Hexp Hlt. pose proof (pv_chain _ (proj2 Hok)) as Hc.
  assert (forall x y, points (w_history w) x y -> forall z, z ∈ publishers ->
    so_data x = pu_pointer_payload z -> y = z) as Hwho.
  { intros x y (Hy & Hyd & _) z Hz Hzd. apply (NoDup_fmap_elem_inj _ _ _ _ Hnd Hy Hz). congruence. }
  apply writes_at_elem, elem_of_reverse in Ho, Ho'.
  apply list_elem_of_split in Ho' as (l1 & l2 & El). rewrite El in Ho, Hc.
  assert (o ∈ l2) as Ho2.
  { apply elem_of_app in Ho as [Ho|[->|Ho]%elem_of_cons]; [|lia|done].
    apply list_elem_of_split in Ho as (k1 & k2 & ->). exfalso.
    rewrite <- app_assoc in El. simpl in El.
    pose proof (pointers_fall w k1 o (k2 ++ o' :: l2) o' Hok El ltac:(set_solver)). lia. }
  apply list_elem_of_split in Ho2 as (l3 & l4 & ->).
  destruct (pointer_chain_expected _ _ _ _ Hc) as (x' & Hx' & He').
  rewrite (Hwho _ _ Hx' u' Hu' Hd') in He'.
  assert (l1 ++ o' :: l3 ++ o :: l4 = (l1 ++ o' :: l3) ++ o :: l4) as E by (by rewrite <- app_assoc).
  rewrite E in Hc, El. destruct (pointer_chain_expected _ _ _ _ Hc) as (x & Hx & He).
  rewrite (Hwho _ _ Hx u Hu Hd), Hexp in He.
  assert (exists q l5, l3 ++ o :: l4 = q :: l5 /\ (so_version o <= so_version q)%Z)
    as (q & l5 & Eq & Hq).
  { destruct l3 as [|q l3]; [by exists o, l4|]. exists q, (l3 ++ o :: l4). split; [done|].
    rewrite <- app_assoc in El. simpl in El.
    assert (so_version o < so_version q)%Z; [|lia].
    apply (pointers_fall w (l1 ++ [o']) q (l3 ++ o :: l4)); [done| |set_solver].
    rewrite El. by rewrite <- ?app_assoc. }
  rewrite Eq in He'. destruct He' as (v & Hv & Hp). rewrite Hv in He.
  destruct l4 as [|p l4]; [done|]. destruct He as (v' & Hv' & Hp'). simplify_eq.
  pose proof (pointers_fall w _ o (p :: l4) p Hok El ltac:(by left)). lia.
Qed.

(** C25: Publication is linear and never dangles.  Whatever publishers run, in
    whatever order, with lost requests and responses, the pointer that is stored
    names a snapshot that is stored, with the contents its publisher gave it; a
    publisher that is told it is visible or persisted has its snapshot stored; and
    two publishers that expected the same pointer are never both visible. *)
Theorem publish_linear skew clock ts :
  (Z.of_nat (length ts) <= i64_max)%Z -> NoDup (pu_pointer_payload <$> publishers) ->
  let c := publish_run skew clock ts in
  let stored u := exists os, w_objects (cf_world c) !! full (pu_snapshot_path u) = Some os /\
                    so_data os = pu_snapshot_payload u in
  (forall o, w_objects (cf_world c) !! full pointer_path = Some o ->
     exists u, u ∈ publishers /\ so_data o = pu_pointer_payload u /\ stored u) /\
  (forall i u out, publishers !! i = Some u -> cf_threads c !! i = Some (Ret (Ok out)) -> stored u) /\
  (forall i j u u' v v' b b', publishers !! i = Some u -> publishers !! j = Some u' -> i <> j ->
     cf_threads c !! i = Some (Ret (Ok (Visible v b))) ->
     cf_threads c !! j = Some (Ret (Ok (Visible v' b'))) -> pu_expected u <> pu_expected u').
Proof.
  intros Hlen Hnd c stored. destruct (publish_run_sound skew clock ts Hlen) as [Hok Hall].
  fold c in Hok, Hall. pose proof Hok as [Hwf Hinv].
  assert (forall u os, u ∈ publishers -> Wrote (full (pu_snapshot_path u)) os ∈ w_history (cf_world c) ->
    so_data os = pu_snapshot_payload u -> stored u) as Hstored.
  { intros u os Hu Hos Hd.
    destruct (written_stored _ _ _ Hos (pv_kept _ Hinv _)) as [os' Hos'].
    rewrite <- (ww_replay _ Hwf) in Hos'. exists os'. split; [done|].
    rewrite <- Hd. f_equal. eapply (pv_once _ Hinv); [|by apply stored_written|done].
    by exists u. }
  split_and!.
  - intros o Ho. rewrite (ww_replay _ Hwf) in Ho.
    apply writes_at_stored, last_Some in Ho as [l El]. pose proof (pv_chain _ Hinv) as Hc.
    rewrite El, reverse_snoc in Hc.
    destruct (pointer_chain_expected _ [] _ _ Hc) as (u & (Hu & Hd & os & Hos & Hosd & _) & _).
    exists u. split_and!; [done|done|]. by eapply Hstored.
  - intros i u out Hu Hr. destruct (Hall i u _ Hu Hr) as [(os & Hos & Hd) _].
    eapply Hstored; [by eapply list_elem_of_lookup_2|done..].
  - intros i j u u' v v' b b' Hu Hu' Hij Hr Hr' Hexp.
    destruct (Hall i u _ Hu Hr) as (_ & o & _ & Ho & Hd).
    destruct (Hall j u' _ Hu' Hr') as (_ & o' & _ & Ho' & Hd').
    apply list_elem_of_lookup_2 in Hu as Hin, Hu' as Hin'.
    destruct (Z.lt_total (so_version o) (so_version o')) as [Hlt|[Heq|Hlt]].
    + by eapply (pointer_expected_inj (cf_world c) o o' u u').
    + destruct (history_version_inj _ _ _ _ _ Hwf Ho Ho' Heq) as [_ ->].
      destruct Hij. eapply (NoDup_lookup _ _ _ (pu_pointer_payload u) Hnd);
        rewrite list_lookup_fmap; [by rewrite Hu|]. rewrite Hu'. simpl. congruence.
    + by eapply (pointer_expected_inj (cf_world c) o' o u' u).
Qed.
End Publish.

(** ** Two publishers race for a fresh pointer *)

Definition sample_publisher (id : string) : publisher :=
  mkPublisher ("snapshots/" +:+ id) ("contents of " +:+ id) ("pointer to " +:+ id) None
    (Some ("mirror", id)) DurPersisted (Ret (Ok tt)).

Definition sample_publishers : list publisher := [sample_publisher "1"; sample_publisher "2"].
Definition publish_scope : ScopedStorage := mkScopedStorage "t" "w" "tenant=t/workspace=w".

Lemma sample_publishers_ok : publishers_ok publish_scope "pointer" sample_publishers.
Proof.
  assert (forall u, u ∈ sample_publishers -> u = sample_publisher "1" \/ u = sample_publisher "2")
    as Hall by (intros u; unfold sample_publishers; set_solver).
  split.
  - intros (u & Hu%Hall & E). destruct Hu; subst; discriminate E.
  - intros u p d Hu%Hall E.
    assert (p = "mirror") as -> by (destruct Hu; subst; by simplify_eq/=).
    split; [discriminate|]. intros (u' & Hu'%Hall & E'). destruct Hu'; subst; discriminate E'.
  - intros u Hu%Hall. destruct Hu; subst; constructor.
Qed.

Lemma publish_linear_witness :
  let c := publish_run publish_scope "pointer" sample_publishers (fun _ => 0%Z) 0
             (turns [0; 1; 1; 0; 1]) in
  cf_threads c = [Ret (Ok PersistedNotVisible); Ret (Ok (Visible "3" false))] /\
  exists os, w_objects (cf_world c) !! scoped_path publish_scope "snapshots/1" = Some os /\
    so_data os = "contents of 1".
Proof.
  split; [by vm_compute|].
  assert (NoDup (pu_pointer_payload <$> sample_publishers)) as Hnd
    by (repeat constructor; vm_compute; set_solver).
  destruct (publish_linear publish_scope "pointer" sample_publishers sample_publishers_ok
    (fun _ => 0%Z) 0 (turns [0; 1; 1; 0; 1]) ltac:(by vm_compute) Hnd) as (_ & Hout & _).
  exact (Hout 0 (sample_publisher "1") PersistedNotVisible eq_refl eq_refl).
Defined.
