(* ===== verification/Quota.v ===== *)
(** Quotas and fair selection: [crates/arco-flow/src/quota/drr.rs], [memory.rs]
    and [mod.rs].

    The deficit-round-robin scheduler chooses which tenant's task runs next; the
    quota manager counts the tasks a tenant has running. *)

From S2P Require Import Prelude Storage.
From stdpp Require Import options.

(** ** Deficit round robin *)

(** [i64] addition, wrapping. *)
Definition i64_wrap (z : Z) : i64 :=
  ((z - i64_min) mod (2 ^ 64) + i64_min)%Z.

Lemma i64_wrap_small z : (i64_min <= z <= i64_max)%Z -> i64_wrap z = z.
Proof. unfold i64_wrap, i64_min, i64_max. intros. rewrite Z.mod_small; lia. Qed.

Section Drr.
Context {T : Type}.

Record TenantEntry := mkTenantEntry {
  te_tenant_id : string;
  te_deficit : i64;
  te_weight : u32;
  te_tasks : list T
}.

Definition tenant_entry_new (tenant_id : string) (weight : u32) : TenantEntry :=
  mkTenantEntry tenant_id 0 weight [].

(** [HashMap<String, TenantEntry>] *)
Abbreviation DrrScheduler := (gmap string TenantEntry).

Definition drr_new : DrrScheduler := ∅.

Definition add_ready_tasks (drr : DrrScheduler) (tenant_id : string) (weight : u32)
    (tasks : list T) : DrrScheduler :=
  let weight := N.max weight 1 in
  let entry := default (tenant_entry_new tenant_id weight) (drr !! tenant_id) in
  <[tenant_id := mkTenantEntry (te_tenant_id entry) (te_deficit entry) weight
                   (te_tasks entry ++ tasks)]> drr.

Definition has_tasks (e : TenantEntry) : bool :=
  match te_tasks e with [] => false | _ => true end.

Definition start_round (drr : DrrScheduler) : DrrScheduler :=
  (fun e => if has_tasks e
            then mkTenantEntry (te_tenant_id e) (i64_wrap (te_deficit e + Z.of_N (te_weight e)))
                   (te_weight e) (te_tasks e)
            else e) <$> drr.

Definition candidates (drr : DrrScheduler) : list TenantEntry :=
  List.filter has_tasks (snd <$> map_to_list drr).

(** The order of the sort: deficit descending, then tenant id ascending. *)
Definition sorts_before (a b : TenantEntry) : bool :=
  (te_deficit b <? te_deficit a)%Z ||
  ((te_deficit b =? te_deficit a)%Z && str_ltb (te_tenant_id a) (te_tenant_id b)).

(** [candidates.sort_by(..); candidates.first()]: the first of the sorted list. *)
Definition first_candidate (l : list TenantEntry) : option TenantEntry :=
  match l with
  | [] => None
  | e :: l => Some (fold_left (fun best e => if sorts_before e best then e else best) l e)
  end.

(** [candidates.iter().map(|e| e.deficit).max().unwrap_or(0)] *)
Definition max_deficit (l : list TenantEntry) : Z :=
  match l with
  | [] => 0
  | e :: l => fold_left (fun m e => Z.max m (te_deficit e)) l (te_deficit e)
  end.

(** The selected task and its tenant, and the scheduler after it. *)
Definition select_next (drr : DrrScheduler) : option (T * string) * DrrScheduler :=
  match candidates drr with
  | [] => (None, drr)
  | _ =>
      let drr := if (max_deficit (candidates drr) <=? 0)%Z then start_round drr else drr in
      match first_candidate (candidates drr) with
      | None => (None, drr)
      | Some c =>
          match drr !! te_tenant_id c with
          | None => (None, drr)
          | Some entry =>
              match te_tasks entry with
              | [] => (None, drr)
              | task :: tasks =>
                  (Some (task, te_tenant_id c),
                   <[te_tenant_id c :=
                       mkTenantEntry (te_tenant_id entry) (i64_wrap (te_deficit entry - 1))
                         (te_weight entry) tasks]> drr)
              end
          end
      end
  end.

Fixpoint select_batch (count : nat) (drr : DrrScheduler) : list (T * string) * DrrScheduler :=
  match count with
  | O => ([], drr)
  | S count =>
      match select_next drr with
      | (None, drr) => ([], drr)
      | (Some selection, drr) =>
          let '(selections, drr) := select_batch count drr in (selection :: selections, drr)
      end
  end.

Definition drr_clear (drr : DrrScheduler) : DrrScheduler := ∅.

Definition tenant_count (drr : DrrScheduler) : nat := length (candidates drr).

Definition total_tasks (drr : DrrScheduler) : nat :=
  sum_list ((fun t => length (te_tasks t)) <$> (snd <$> map_to_list drr)).

Definition get_deficit (drr : DrrScheduler) (tenant_id : string) : i64 :=
  match drr !! tenant_id with Some t => te_deficit t | None => 0 end.
End Drr.
Arguments TenantEntry : clear implicits.
Abbreviation DrrScheduler T := (gmap string (TenantEntry T)).

(** ** Quotas *)

Record TenantQuota := mkTenantQuota { tq_max_concurrent_tasks : N; tq_weight : u32 }.

Inductive QuotaDenialReason :=
  | MaxConcurrentTasks (current limit : N)
  | UnknownTenant
  | GlobalCapacityExhausted.

Inductive QuotaDecision :=
  | Allowed
  | Denied (reason : QuotaDenialReason).

Record TenantState := mkTenantState { ts_quota : TenantQuota; ts_active_tasks : N }.

Record InMemoryQuotaManager := mkInMemoryQuotaManager {
  qm_tenants : gmap string TenantState;
  qm_default_quota : option TenantQuota
}.
#[export] Instance eta_InMemoryQuotaManager : Eta InMemoryQuotaManager :=
  fun r => mkInMemoryQuotaManager (qm_tenants r) (qm_default_quota r).

Definition quota_manager_new : InMemoryQuotaManager := mkInMemoryQuotaManager ∅ None.

Definition with_default_quota (default_quota : TenantQuota) : InMemoryQuotaManager :=
  mkInMemoryQuotaManager ∅ (Some default_quota).

(** [collect] keeps the last quota given for a tenant. *)
Definition with_quotas (quotas : list (string * TenantQuota)) : InMemoryQuotaManager :=
  mkInMemoryQuotaManager
    (fold_left (fun m '(tenant_id, quota) => <[tenant_id := mkTenantState quota 0]> m) quotas ∅)
    None.

(** [usize] is 64 bits wide. *)
Definition usize_max : N := u64_max.

Definition can_dispatch (m : InMemoryQuotaManager) (tenant_id : string) (task_count : N) :
    QuotaDecision :=
  match qm_tenants m !! tenant_id with
  | None =>
      match qm_default_quota m with
      | Some q =>
          if (task_count <=? tq_max_concurrent_tasks q)%N then Allowed
          else Denied (MaxConcurrentTasks 0 (tq_max_concurrent_tasks q))
      | None => Denied UnknownTenant
      end
  | Some state =>
      let available := (tq_max_concurrent_tasks (ts_quota state) - ts_active_tasks state)%N in
      if (task_count <=? available)%N then Allowed
      else Denied (MaxConcurrentTasks (ts_active_tasks state)
                     (tq_max_concurrent_tasks (ts_quota state)))
  end.

Definition try_dispatch (m : InMemoryQuotaManager) (tenant_id : string) (task_count : N) :
    QuotaDecision * InMemoryQuotaManager :=
  match qm_tenants m !! tenant_id with
  | Some state =>
      let limit := tq_max_concurrent_tasks (ts_quota state) in
      let total := (ts_active_tasks state + task_count)%N in
      if (total <=? usize_max)%N && (total <=? limit)%N then
        (Allowed, m <| qm_tenants := <[tenant_id := mkTenantState (ts_quota state)
                                                     (N.min total usize_max)]> (qm_tenants m) |>)
      else (Denied (MaxConcurrentTasks (ts_active_tasks state) limit), m)
  | None =>
      match qm_default_quota m with
      | None => (Denied UnknownTenant, m)
      | Some q =>
          if (task_count <=? tq_max_concurrent_tasks q)%N then
            (Allowed, m <| qm_tenants := <[tenant_id := mkTenantState q task_count]>
                                           (qm_tenants m) |>)
          else (Denied (MaxConcurrentTasks 0 (tq_max_concurrent_tasks q)), m)
      end
  end.

(** [Err] when the tenant is unknown and there is no default. *)
Definition record_dispatch (m : InMemoryQuotaManager) (tenant_id : string) (task_count : N) :
    result string InMemoryQuotaManager :=
  let add state :=
    mkTenantState (ts_quota state) (N.min (ts_active_tasks state + task_count) usize_max) in
  match qm_tenants m !! tenant_id with
  | Some state => Ok (m <| qm_tenants := <[tenant_id := add state]> (qm_tenants m) |>)
  | None =>
      match qm_default_quota m with
      | None => Err ("unknown tenant: " +:+ tenant_id)
      | Some q =>
          Ok (m <| qm_tenants := <[tenant_id := add (mkTenantState q 0)]> (qm_tenants m) |>)
      end
  end.

Definition record_completion (m : InMemoryQuotaManager) (tenant_id : string) (task_count : N) :
    InMemoryQuotaManager :=
  m <| qm_tenants := alter (fun state =>
         mkTenantState (ts_quota state) (ts_active_tasks state - task_count)%N)
         tenant_id (qm_tenants m) |>.

Definition active_tasks (m : InMemoryQuotaManager) (tenant_id : string) : N :=
  match qm_tenants m !! tenant_id with Some s => ts_active_tasks s | None => 0%N end.

Definition get_quota (m : InMemoryQuotaManager) (tenant_id : string) : option TenantQuota :=
  ts_quota <$> qm_tenants m !! tenant_id.

Definition set_quota (m : InMemoryQuotaManager) (tenant_id : string) (quota : TenantQuota) :
    InMemoryQuotaManager :=
  m <| qm_tenants := <[tenant_id :=
         match qm_tenants m !! tenant_id with
         | Some s => mkTenantState quota (ts_active_tasks s)
         | None => mkTenantState quota 0
         end]> (qm_tenants m) |>.
