(* ===== verification/QuotaProps.v ===== *)
(** Correctness of the quotas and of the fair selection: the scheduler shares the
    selections in proportion to the weights, serves every tenant in order and never
    idles while a task is ready; the quota manager never exceeds a limit it checked. *)

From S2P Require Import Prelude Storage Quota.
From stdpp Require Import options.

(** ** Deficit round robin *)

Section Drr.
Context {T : Type}.
Implicit Types (drr : DrrScheduler T) (e : TenantEntry T).

(** What every reachable entry satisfies, its key being [k]. *)
Record entry_wf (k : string) e : Prop := mkEntryWf {
  ew_id : te_tenant_id e = k;
  ew_deficit : (0 <= te_deficit e <= Z.of_N u32_max)%Z;
  ew_weight : (1 <= te_weight e <= u32_max)%N
}.

Definition drr_wf drr : Prop := map_Forall entry_wf drr.

Lemma drr_wf_new : drr_wf drr_new.
Proof. apply map_Forall_empty. Qed.

Lemma drr_wf_add_ready_tasks drr k w ts :
  (w <= u32_max)%N -> drr_wf drr -> drr_wf (add_ready_tasks drr k w ts).
Proof.
  intros Hw Hwf. apply map_Forall_insert_2; [|done].
  destruct (drr !! k) as [e|] eqn:He; [destruct (Hwf _ _ He)|];
    split; cbn -[u32_max]; try done; unfold u32_max in *; lia.
Qed.

(** Every candidate's deficit has run out: what [select_next] starts a round on. *)
Definition exhausted drr : Prop :=
  forall k e, drr !! k = Some e -> has_tasks e = true -> (te_deficit e <= 0)%Z.

Lemma elem_of_candidates drr e :
  e ∈ candidates drr <-> has_tasks e = true /\ exists k, drr !! k = Some e.
Proof.
  unfold candidates. rewrite list_elem_of_In, filter_In, <-list_elem_of_In.
  rewrite list_elem_of_fmap. split.
  - intros [([k e'] & -> & Hin) Ht]. apply elem_of_map_to_list in Hin. eauto.
  - intros [Ht [k Hk]]. split; [|done]. exists (k, e). split; [done|].
    by apply elem_of_map_to_list.
Qed.

Lemma max_deficit_fold l m :
  let r := fold_left (fun m (e : TenantEntry T) => Z.max m (te_deficit e)) l m in
  (m <= r)%Z /\ (forall e, e ∈ l -> (te_deficit e <= r)%Z) /\
  (r = m \/ exists e, e ∈ l /\ te_deficit e = r).
Proof.
  revert m. induction l as [|e l IH]; intros m; simpl.
  - split_and!; [lia| |by left]. intros ? []%not_elem_of_nil.
  - destruct (IH (Z.max m (te_deficit e))) as (H1 & H2 & H3). split_and!; [lia| |].
    + intros e' [->|]%elem_of_cons; [lia|eauto].
    + destruct H3 as [H3|(e' & ? & ?)]; [|right; set_solver].
      destruct (Z.max_spec m (te_deficit e)) as [[_ Hm]|[_ Hm]]; rewrite Hm in *;
        [right; exists e; set_solver|by left].
Qed.

Lemma max_deficit_exhausted drr :
  candidates drr <> [] ->
  if (max_deficit (candidates drr) <=? 0)%Z then exhausted drr
  else exists k e, drr !! k = Some e /\ has_tasks e = true /\ (0 < te_deficit e)%Z.
Proof.
  intros Hne. destruct (candidates drr) as [|c l] eqn:Hc; [done|]. unfold max_deficit.
  destruct (max_deficit_fold l (te_deficit c)) as (H1 & H2 & H3).
  assert (forall e, e ∈ c :: l <-> has_tasks e = true /\ exists k, drr !! k = Some e) as Hin.
  { intros e. rewrite <-Hc. apply elem_of_candidates. }
  destruct (Z.leb_spec (fold_left (fun m e => Z.max m (te_deficit e)) l (te_deficit c)) 0)
    as [Hle|Hlt].
  - intros k e He Ht. assert (e ∈ c :: l) as [->|?]%elem_of_cons by (apply Hin; eauto);
      [lia|specialize (H2 e); lia || (assert (te_deficit e <= _)%Z by eauto; lia)].
  - destruct H3 as [H3|(e & He & H3)].
    + assert (c ∈ c :: l) as [? [k ?]]%Hin by set_solver. exists k, c. split_and!; [done..|lia].
    + assert (e ∈ c :: l) as [? [k ?]]%Hin by set_solver. exists k, e. split_and!; [done..|lia].
Qed.

Lemma first_candidate_max l e :
  first_candidate l = Some e ->
  e ∈ l /\ forall e', e' ∈ l -> (te_deficit e' <= te_deficit e)%Z.
Proof.
  destruct l as [|c l]; [done|]. intros [= <-]. revert c.
  induction l as [|a l IH]; intros c; simpl.
  - split; [set_solver|]. intros e' ->%list_elem_of_singleton. lia.
  - assert (forall x : bool, x = sorts_before a c ->
      (te_deficit (if x then a else c) >= te_deficit a)%Z /\
      (te_deficit (if x then a else c) >= te_deficit c)%Z) as Hge.
    { intros x ->. unfold sorts_before.
      destruct (Z.ltb_spec (te_deficit c) (te_deficit a)); simpl; [lia|].
      destruct (Z.eqb_spec (te_deficit c) (te_deficit a)); simpl; [|lia].
      destruct (str_ltb _ _); lia. }
    destruct (Hge _ eq_refl) as [Ha Hc'].
    destruct (IH (if sorts_before a c then a else c)) as [Hin Hmax]. split.
    + destruct (sorts_before a c); set_solver.
    + set (b := if sorts_before a c then a else c) in *.
      intros e' [->|[->|?]%elem_of_cons]%elem_of_cons;
        [assert (te_deficit b <= _)%Z by (apply Hmax; set_solver); lia..|].
      apply Hmax. set_solver.
Qed.

(** A round, when [r]: nobody's deficit was positive, so nothing overflows. *)
Definition new_round (r : bool) drr : DrrScheduler T := if r then start_round drr else drr.

Lemma new_round_entry r drr k e :
  drr_wf drr -> (r = true -> exhausted drr) -> drr !! k = Some e ->
  exists e1, new_round r drr !! k = Some e1 /\ entry_wf k e1 /\
    te_weight e1 = te_weight e /\ te_tasks e1 = te_tasks e /\
    (has_tasks e = true -> te_deficit e1 = (te_deficit e + Z.b2z r * Z.of_N (te_weight e))%Z) /\
    (te_deficit e1 <= Z.max (te_deficit e) (Z.of_N (te_weight e)))%Z.
Proof.
  intros Hwf Hex He. pose proof (Hwf _ _ He) as [Hid Hd Hw].
  destruct r; [|exists e; split_and!; [done|by split|done|done|simpl; lia|lia]].
  simpl. unfold start_round. rewrite lookup_fmap, He. eexists. split; [done|].
  destruct (has_tasks e) eqn:Ht; [|split_and!; [by split|done|done|done|lia]].
  specialize (Hex eq_refl _ _ He Ht).
  assert (i64_wrap (te_deficit e + Z.of_N (te_weight e)) = te_deficit e + Z.of_N (te_weight e))%Z
    as Hwrap by (apply i64_wrap_small; unfold i64_min, i64_max, u32_max in *; lia).
  split_and!; cbn -[u32_max]; rewrite ?Hwrap; try done; [|lia..].
  split; cbn -[u32_max]; rewrite ?Hwrap; [done|lia|done].
Qed.

Lemma new_round_back r drr k e1 :
  new_round r drr !! k = Some e1 -> exists e, drr !! k = Some e.
Proof.
  destruct r; simpl; [|eauto]. unfold start_round. rewrite lookup_fmap.
  destruct (drr !! k); [eauto|done].
Qed.

Definition take_task e (tasks : list T) : TenantEntry T :=
  mkTenantEntry (te_tenant_id e) (te_deficit e - 1)%Z (te_weight e) tasks.

(** What a call to [select_next] does. *)
Inductive selects drr : option (T * string) -> DrrScheduler T -> Prop :=
  | selects_none : candidates drr = [] -> selects drr None drr
  | selects_some r k e task tasks :
      (r = true -> exhausted drr) -> new_round r drr !! k = Some e ->
      te_tasks e = task :: tasks -> (1 <= te_deficit e)%Z ->
      selects drr (Some (task, k)) (<[k := take_task e tasks]> (new_round r drr)).

Lemma new_round_positive drr :
  drr_wf drr -> candidates drr <> [] ->
  let r := (max_deficit (candidates drr) <=? 0)%Z in
  (r = true -> exhausted drr) /\
  exists k e, new_round r drr !! k = Some e /\ has_tasks e = true /\ (1 <= te_deficit e)%Z.
Proof.
  intros Hwf Hne r. pose proof (max_deficit_exhausted drr Hne) as Hm. fold r in Hm.
  destruct r eqn:Hr; [|split; [done|]; destruct Hm as (k & e & ? & ? & ?);
    exists k, e; split_and!; [done..|lia]].
  split; [done|]. destruct (candidates drr) as [|c l] eqn:Hc; [done|].
  assert (c ∈ candidates drr) as [Ht [k Hk]]%elem_of_candidates by (rewrite Hc; set_solver).
  destruct (new_round_entry true _ _ _ Hwf (fun _ => Hm) Hk)
    as (e1 & He1 & Hwf1 & Hw1 & Htk & Hd & _).
  exists k, e1. split_and!; [done|unfold has_tasks; by rewrite Htk|].
  rewrite Hd by done. destruct (Hwf _ _ Hk). simpl. lia.
Qed.

Lemma select_next_selects drr :
  drr_wf drr -> selects drr (select_next drr).1 (select_next drr).2.
Proof.
  intros Hwf. unfold select_next. destruct (decide (candidates drr = [])) as [E|Hne].
  { rewrite E. by apply selects_none. }
  destruct (new_round_positive drr Hwf Hne) as [Hex (k & e & He & Ht & Hd)].
  set (r := (max_deficit (candidates drr) <=? 0)%Z) in *.
  replace (if r then start_round drr else drr) with (new_round r drr) by done.
  destruct (candidates drr) as [|c l] eqn:Hc; [done|]. clear Hne.
  assert (e ∈ candidates (new_round r drr)) as Hin by (apply elem_of_candidates; eauto).
  destruct (first_candidate (candidates (new_round r drr))) as [b|] eqn:Hb;
    [|destruct (candidates (new_round r drr)); [set_solver|done]].
  apply first_candidate_max in Hb as [[Hbt [k' Hk']]%elem_of_candidates Hmax].
  specialize (Hmax _ Hin). destruct (new_round_back _ _ _ _ Hk') as [e0 He0].
  destruct (new_round_entry r _ _ _ Hwf Hex He0) as (b' & Hb' & [Hid Hdb Hwb] & _).
  simplify_eq. rewrite Hb'. unfold has_tasks in Hbt.
  destruct (te_tasks b') as [|task tasks] eqn:Htb; [done|]. simpl.
  rewrite i64_wrap_small by (unfold i64_min, i64_max, u32_max in *; lia).
  eapply selects_some; [done..|lia].
Qed.

(** The tasks of [selections] that are tenant [k]'s, in the order selected. *)
Definition served (k : string) (selections : list (T * string)) : list T :=
  omap (fun p => if decide (p.2 = k) then Some p.1 else None) selections.

(** [e] has become [e'] over [R] rounds in which [ts] were taken from it. *)
Record entry_step (R : Z) (ts : list T) (e e' : TenantEntry T) : Prop := mkEntryStep {
  es_weight : te_weight e' = te_weight e;
  es_tasks : te_tasks e = ts ++ te_tasks e';
  es_deficit : has_tasks e' = true ->
    te_deficit e' = (te_deficit e + R * Z.of_N (te_weight e) - Z.of_nat (length ts))%Z;
  es_bound : (te_deficit e' <= Z.max (te_deficit e) (Z.of_N (te_weight e)))%Z
}.

Lemma entry_step_refl e : entry_step 0 [] e e.
Proof. split; simpl; [done|done|lia|lia]. Qed.

Lemma has_tasks_app e e' ts : te_tasks e = ts ++ te_tasks e' -> has_tasks e' = true -> has_tasks e = true.
Proof. unfold has_tasks. intros ->. by destruct ts, (te_tasks e'). Qed.

Lemma entry_step_trans R1 R2 ts1 ts2 e1 e2 e3 :
  entry_step R1 ts1 e1 e2 -> entry_step R2 ts2 e2 e3 ->
  entry_step (R1 + R2) (ts1 ++ ts2) e1 e3.
Proof.
  intros [W1 T1 D1 B1] [W2 T2 D2 B2]. split; [congruence| | |rewrite W1 in *; lia].
  - by rewrite T1, T2, app_assoc.
  - intros Ht. rewrite D2, D1, W1, length_app; [lia|by eapply has_tasks_app|done].
Qed.

Lemma selects_step drr t k drr' :
  drr_wf drr -> selects drr (Some (t, k)) drr' ->
  drr_wf drr' /\ exists R, (0 <= R)%Z /\ forall k' e, drr !! k' = Some e ->
    exists e', drr' !! k' = Some e' /\ entry_step R (if decide (k = k') then [t] else []) e e'.
Proof.
  intros Hwf Hs. inversion Hs as [|r ? b ? tasks Hex Hb Htb Hd]; subst. split.
  - intros k' e'. destruct (decide (k = k')) as [<-|?].
    + rewrite lookup_insert_eq. intros [= <-].
      destruct (new_round_back _ _ _ _ Hb) as [e0 He0].
      destruct (new_round_entry r _ _ _ Hwf Hex He0) as (b' & Hb' & [Hid Hdb Hwb] & _).
      simplify_eq. split; cbn -[u32_max]; [done|lia|done].
    + rewrite lookup_insert_ne by done. intros He'.
      destruct (new_round_back _ _ _ _ He') as [e0 He0].
      destruct (new_round_entry r _ _ _ Hwf Hex He0) as (b' & Hb' & ? & _). by simplify_eq.
  - exists (Z.b2z r). split; [destruct r; simpl; lia|]. intros k' e He.
    destruct (new_round_entry r _ _ _ Hwf Hex He) as (e1 & He1 & _ & Hw & Ht & Hd1 & Hb1).
    destruct (decide (k = k')) as [<-|?].
    + simplify_eq. rewrite lookup_insert_eq. eexists. split; [done|].
      split; simpl; [done|by rewrite <-Ht| |lia].
      intros _. rewrite Hd1; [lia|unfold has_tasks; by rewrite <-Ht, Htb].
    + rewrite lookup_insert_ne by done. exists e1. split; [done|]. split; [done|by rewrite Ht| |done].
      unfold has_tasks in *. rewrite Ht. intros E. rewrite Hd1 by done. simpl. lia.
Qed.

Lemma select_batch_steps n drr :
  drr_wf drr -> let '(sels, drr') := select_batch n drr in
  drr_wf drr' /\ exists R, (0 <= R)%Z /\ forall k e, drr !! k = Some e ->
    exists e', drr' !! k = Some e' /\ entry_step R (served k sels) e e'.
Proof.
  revert drr. induction n as [|n IH]; intros drr Hwf; simpl.
  { split; [done|]. exists 0%Z. split; [done|]. eauto using entry_step_refl. }
  pose proof (select_next_selects drr Hwf) as Hs.
  destruct (select_next drr) as [[[t k]|] drr1]; simpl in Hs.
  - apply (selects_step _ _ _ _ Hwf) in Hs as [Hwf1 (R1 & HR1 & Hs)].
    specialize (IH drr1 Hwf1). destruct (select_batch n drr1) as [sels drr'].
    destruct IH as [Hwf' (R2 & HR2 & IH)]. split; [done|].
    exists (R1 + R2)%Z. split; [lia|]. intros k' e He.
    destruct (Hs _ _ He) as (e1 & He1 & Hs1). destruct (IH _ _ He1) as (e' & He' & Hs2).
    exists e'. split; [done|]. pose proof (entry_step_trans _ _ _ _ _ _ _ Hs1 Hs2) as Hs3.
    simpl. by destruct (decide (k = k')).
  - inversion Hs; subst. split; [done|]. exists 0%Z. split; [done|]. eauto using entry_step_refl.
Qed.

(** Work conservation. *)
Lemma total_tasks_lookup drr k e :
  drr !! k = Some e -> total_tasks drr = length (te_tasks e) + total_tasks (delete k drr).
Proof.
  intros He. unfold total_tasks. rewrite <-(map_to_list_delete drr k e He). done.
Qed.

Lemma total_tasks_new_round r drr : total_tasks (new_round r drr) = total_tasks drr.
Proof.
  destruct r; [|done]. unfold new_round, start_round, total_tasks.
  rewrite map_to_list_fmap, <-!list_fmap_compose. f_equal. apply list_fmap_ext.
  intros i [k e] _. simpl. by destruct (has_tasks e).
Qed.

Lemma candidates_nil drr : candidates drr = [] -> total_tasks drr = 0.
Proof.
  unfold candidates, total_tasks. induction (snd <$> map_to_list drr) as [|e l IH]; [done|].
  simpl. unfold has_tasks at 1. destruct (te_tasks e); [done|done].
Qed.

Lemma selects_total drr o drr' :
  selects drr o drr' ->
  match o with None => total_tasks drr = 0 | Some _ => total_tasks drr = S (total_tasks drr') end.
Proof.
  intros [Hc|r k e task tasks _ He Ht _]; [by apply candidates_nil|].
  rewrite <-(total_tasks_new_round r drr), (total_tasks_lookup _ _ _ He), Ht.
  rewrite (total_tasks_lookup (<[k := take_task e tasks]> (new_round r drr)) k _ (lookup_insert_eq _ _ _)).
  by rewrite delete_insert_eq.
Qed.

Lemma select_batch_length n drr :
  drr_wf drr -> length (select_batch n drr).1 = n `min` total_tasks drr.
Proof.
  revert drr. induction n as [|n IH]; intros drr Hwf; simpl; [done|].
  pose proof (select_next_selects drr Hwf) as Hs. pose proof (selects_total _ _ _ Hs) as Ht.
  destruct (select_next drr) as [[[t k]|] drr1]; simpl in *; [|by rewrite Ht].
  apply (selects_step _ _ _ _ Hwf) in Hs as [Hwf1 _]. specialize (IH _ Hwf1).
  destruct (select_batch n drr1) as [sels drr']; simpl in *. rewrite Ht. lia.
Qed.

(** The schedulers a program can build with the public operations. *)
Inductive drr_reach : DrrScheduler T -> Prop :=
  | reach_new : drr_reach drr_new
  | reach_add drr k w ts :
      drr_reach drr -> (w <= u32_max)%N -> drr_reach (add_ready_tasks drr k w ts)
  | reach_batch drr n : drr_reach drr -> drr_reach (select_batch n drr).2
  | reach_clear drr : drr_reach drr -> drr_reach (drr_clear drr).

Lemma drr_reach_wf drr : drr_reach drr -> drr_wf drr.
Proof.
  induction 1 as [| |drr n _ IH|]; [apply drr_wf_new|by apply drr_wf_add_ready_tasks| |apply drr_wf_new].
  pose proof (select_batch_steps n drr IH) as Hb. by destruct (select_batch n drr), Hb.
Qed.

(** What a tenant was served over [R] rounds is [R] times its weight, up to what its
    deficit can hold. *)
Lemma entry_step_share R ts e e' k :
  entry_wf k e -> entry_wf k e' -> entry_step R ts e e' -> has_tasks e' = true ->
  let m := Z.max (te_deficit e) (Z.of_N (te_weight e)) in
  (R * Z.of_N (te_weight e) - m <= Z.of_nat (length ts) <= R * Z.of_N (te_weight e) + m)%Z.
Proof. intros [_ Hd _] [_ Hd' _] [_ _ Hs Hb] Ht m. specialize (Hs Ht). lia. Qed.
End Drr.

(** C23: deficit round robin.  From any scheduler the public operations can build, a
    batch of [n] selections (1) selects [min n (total_tasks)] tasks: it idles only when
    nothing is ready; (2) takes every tenant's tasks from the front of its queue, in
    order, and leaves the rest; (3) is fair: for two tenants that still have tasks after
    the batch, the numbers served are in the proportion of their weights up to a
    constant that does not depend on [n] (a round's quantum, or the deficit carried
    into the batch when that is larger); (4) leaves every deficit between 0 and
    [u32::MAX], so that the [i64] arithmetic has never wrapped. *)
Theorem drr_fair {T} (drr : DrrScheduler T) (n : nat) :
  drr_reach drr ->
  let '(selections, drr') := select_batch n drr in
  length selections = n `min` total_tasks drr /\
  (forall k e, drr !! k = Some e -> exists e', drr' !! k = Some e' /\
     te_tasks e = served k selections ++ te_tasks e') /\
  (forall i j ei ej ei' ej',
     drr !! i = Some ei -> drr !! j = Some ej ->
     drr' !! i = Some ei' -> drr' !! j = Some ej' ->
     has_tasks ei' = true -> has_tasks ej' = true ->
     let wi := Z.of_N (te_weight ei) in let wj := Z.of_N (te_weight ej) in
     (Z.abs (Z.of_nat (length (served i selections)) * wj -
             Z.of_nat (length (served j selections)) * wi)
      <= Z.max (te_deficit ei) wi * wj + Z.max (te_deficit ej) wj * wi)%Z) /\
  (forall k, (0 <= get_deficit drr' k <= Z.of_N u32_max)%Z).
Proof.
  intros Hr. apply drr_reach_wf in Hr as Hwf.
  pose proof (select_batch_steps n drr Hwf) as Hb. pose proof (select_batch_length n drr Hwf) as Hl.
  destruct (select_batch n drr) as [sels drr']; simpl in Hl.
  destruct Hb as [Hwf' (R & HR & Hb)]. split_and!; [done| | |].
  - intros k e He. destruct (Hb _ _ He) as (e' & He' & [_ Ht _ _]). eauto.
  - intros i j ei ej ei' ej' Hi Hj Hi' Hj' Hti Htj wi wj.
    destruct (Hb _ _ Hi) as (? & ? & Hsi). destruct (Hb _ _ Hj) as (? & ? & Hsj). simplify_eq.
    pose proof (entry_step_share _ _ _ _ _ (Hwf _ _ Hi) (Hwf' _ _ Hi') Hsi Hti) as Bi.
    pose proof (entry_step_share _ _ _ _ _ (Hwf _ _ Hj) (Hwf' _ _ Hj') Hsj Htj) as Bj.
    fold wi in Bi. fold wj in Bj. simpl in Bi, Bj.
    assert (0 <= wi)%Z by (unfold wi; lia). assert (0 <= wj)%Z by (unfold wj; lia).
    apply Z.abs_le. nia.
  - intros k. unfold get_deficit. destruct (drr' !! k) as [e|] eqn:He.
    + by destruct (Hwf' _ _ He).
    + unfold u32_max. lia.
Qed.

(** A scheduler with two tenants of weights 2 and 1, and five tasks each. *)
Definition two_tenants : DrrScheduler nat :=
  add_ready_tasks (add_ready_tasks drr_new "a" 2 [1; 2; 3; 4; 5]) "b" 1 [6; 7; 8; 9; 10].

Example two_tenants_shares :
  (served "a" (select_batch 6 two_tenants).1, served "b" (select_batch 6 two_tenants).1)
  = ([1; 2; 3; 4], [6; 7]).
Proof. vm_compute. reflexivity. Qed.

Lemma two_tenants_reach : drr_reach two_tenants.
Proof. apply reach_add; [apply reach_add; [apply reach_new|]|]; unfold u32_max; lia. Qed.

Lemma drr_fair_witness :
  drr_reach two_tenants /\
  (let '(selections, drr') := select_batch 6 two_tenants in
   length selections = 6 `min` total_tasks two_tenants) /\
  length (select_batch 6 two_tenants).1 = 6.
Proof.
  pose proof (drr_fair two_tenants 6 two_tenants_reach) as H.
  split; [exact two_tenants_reach|].
  destruct (select_batch 6 two_tenants) as [sels drr'] eqn:E.
  split; [exact (proj1 H)|].
  transitivity (length (select_batch 6 two_tenants).1); [rewrite E; reflexivity|].
  vm_compute. reflexivity.
Defined.

(** ** Quotas *)

(** The requests of a dispatcher that asks before it dispatches. *)
Inductive quota_op :=
  | OpDispatch (tenant_id : string) (task_count : N)
  | OpComplete (tenant_id : string) (task_count : N).

Definition quota_step (m : InMemoryQuotaManager) (o : quota_op) : InMemoryQuotaManager :=
  match o with
  | OpDispatch k n => (try_dispatch m k n).2
  | OpComplete k n => record_completion m k n
  end.

Definition within_quota (m : InMemoryQuotaManager) : Prop :=
  map_Forall (fun _ s => (ts_active_tasks s <= tq_max_concurrent_tasks (ts_quota s))%N) (qm_tenants m).

Lemma within_quota_step m o : within_quota m -> within_quota (quota_step m o).
Proof.
  intros Hw. destruct o as [k n|k n]; simpl.
  - unfold try_dispatch. destruct (qm_tenants m !! k) as [s|] eqn:Hs.
    + destruct (N.leb_spec (ts_active_tasks s + n) usize_max); [|done].
      destruct (N.leb_spec (ts_active_tasks s + n) (tq_max_concurrent_tasks (ts_quota s))); [|done].
      apply map_Forall_insert_2; [|done]. simpl. lia.
    + destruct (qm_default_quota m) as [q|]; [|done].
      destruct (N.leb_spec n (tq_max_concurrent_tasks q)); [|done].
      by apply map_Forall_insert_2.
  - intros k' s'. simpl. rewrite lookup_alter. destruct (decide (k = k')) as [<-|].
    + destruct (qm_tenants m !! k) as [s|] eqn:Hs; [|done]. intros [= <-].
      specialize (Hw _ _ Hs). simpl in *. lia.
    + intros Hs. exact (Hw _ _ Hs).
Qed.

Lemma within_quota_fresh quotas :
  within_quota quota_manager_new /\ within_quota (with_quotas quotas) /\
  forall q, within_quota (with_default_quota q).
Proof.
  split_and!; [apply map_Forall_empty| |intros q; apply map_Forall_empty].
  unfold within_quota, with_quotas. simpl.
  assert (forall m : gmap string TenantState,
    map_Forall (fun _ s => (ts_active_tasks s <= tq_max_concurrent_tasks (ts_quota s))%N) m ->
    map_Forall (fun _ s => (ts_active_tasks s <= tq_max_concurrent_tasks (ts_quota s))%N)
      (fold_left (fun m '(k, q) => <[k := mkTenantState q 0]> m) quotas m)) as H;
    [|apply H, map_Forall_empty].
  induction quotas as [|[k q] l IH]; intros m Hm; simpl; [done|].
  apply IH, map_Forall_insert_2; [simpl; lia|done].
Qed.

(** A tenant never has more tasks running than its quota, whatever is asked. *)
Theorem quota_never_exceeded quotas ops :
  within_quota (fold_left quota_step ops (with_quotas quotas)).
Proof.
  assert (forall m, within_quota m -> within_quota (fold_left quota_step ops m)) as H;
    [|apply H, within_quota_fresh].
  induction ops as [|o ops IH]; intros m Hm; simpl; [done|]. apply IH, within_quota_step, Hm.
Qed.
