(* ===== verification/Dag.v ===== *)
(** Dependency graphs: [crates/arco-flow/src/dag.rs].

    The graph itself is petgraph's [DiGraph]: an interface here ([DiGraph]), with the
    documented behaviour the code relies on as its laws ([DiGraphLaws]).  The order in
    which petgraph enumerates the neighbours of a node is left open. *)

From S2P Require Import Prelude Storage.
From stdpp Require Import sorting options.

(** ** Errors of the orchestration crate *)

Inductive FlowError :=
  | CycleDetected (cycle : list string)
  | TaskNotFound (task_id : string)
  | RunNotFound (run_id : string)
  | InvalidStateTransition (from to reason : string)
  | DependencyNotFound (asset_key : string)
  | StaleFencingToken (expected provided : u64)
  | FencingLockUnavailable (lock_path : string) (provided : u64)
  | DagNodeNotFound (node : string)
  | PlanGenerationFailed (message : string)
  | PlanTooLarge (task_count max_tasks : N)
  | TaskExecutionFailed (message : string)
  | FlowStorage (message : string)
  | FlowSerialization (message : string)
  | Configuration (message : string)
  | Dispatch (message : string)
  | Parquet (message : string)
  | Core (e : Error).

Abbreviation fresult := (result FlowError).

(** ** petgraph *)

Abbreviation NodeIndex := nat (only parsing).

Inductive Direction := Outgoing | Incoming.

Class DiGraph (T : Type) := {
  graph : Type;
  graph_new : graph;
  graph_add_node : graph -> T -> NodeIndex * graph;
  graph_add_edge : graph -> NodeIndex -> NodeIndex -> graph;
  node_count : graph -> nat;
  node_weight : graph -> NodeIndex -> option T;
  edge_references : graph -> list (NodeIndex * NodeIndex);
  neighbors_directed : graph -> NodeIndex -> Direction -> list NodeIndex
}.

(** [node_indices]: node indices are the integers from 0 to the number of nodes. *)
Definition node_indices {T} `{DiGraph T} (g : graph) : list NodeIndex := seq 0 (node_count g).

(** The targets of the edges that leave [i], and the sources of those that enter. *)
Definition successors (es : list (nat * nat)) (i : nat) : list nat :=
  omap (fun e => if decide (e.1 = i) then Some e.2 else None) es.
Definition predecessors (es : list (nat * nat)) (i : nat) : list nat :=
  omap (fun e => if decide (e.2 = i) then Some e.1 else None) es.

Class DiGraphLaws (T : Type) `{DiGraph T} := {
  law_new : node_count graph_new = 0 /\ edge_references graph_new = [];
  law_weight g i : is_Some (node_weight g i) <-> i < node_count g;
  law_add_node g v :
    let '(i, g') := graph_add_node g v in
    i = node_count g /\ node_count g' = S (node_count g) /\ edge_references g' = edge_references g /\
    node_weight g' i = Some v /\ forall j, j <> i -> node_weight g' j = node_weight g j;
  law_add_edge g a b :
    a < node_count g -> b < node_count g ->
    let g' := graph_add_edge g a b in
    node_count g' = node_count g /\ edge_references g' ≡ₚ (a, b) :: edge_references g /\
    forall j, node_weight g' j = node_weight g j;
  law_neighbors g i :
    neighbors_directed g i Outgoing ≡ₚ successors (edge_references g) i /\
    neighbors_directed g i Incoming ≡ₚ predecessors (edge_references g) i
}.

(** [T: Display] *)
Class Display (T : Type) := to_string : T -> string.

(** ** The graph with its index *)

Section Dag.
Context `{Countable T} `{DiGraph T} `{Display T}.

Record Dag := mkDag {
  dag_graph : graph;
  dag_index_map : gmap T NodeIndex;
  dag_insertion_order : list NodeIndex
}.

Definition dag_new : Dag := mkDag graph_new ∅ [].

Definition add_node (dag : Dag) (value : T) : NodeIndex * Dag :=
  match dag_index_map dag !! value with
  | Some idx => (idx, dag)
  | None =>
      let '(idx, g) := graph_add_node (dag_graph dag) value in
      (idx, mkDag g (<[value := idx]> (dag_index_map dag)) (dag_insertion_order dag ++ [idx]))
  end.

Definition index_not_found (idx : NodeIndex) : FlowError :=
  DagNodeNotFound ("index " +:+ pretty idx).

Definition add_edge (dag : Dag) (from to : NodeIndex) : fresult Dag :=
  match node_weight (dag_graph dag) from with
  | None => Err (index_not_found from)
  | Some _ =>
      match node_weight (dag_graph dag) to with
      | None => Err (index_not_found to)
      | Some _ =>
          Ok (mkDag (graph_add_edge (dag_graph dag) from to) (dag_index_map dag)
                (dag_insertion_order dag))
      end
  end.

(** [sort_by_key(|n| insertion_order.iter().position(|&i| i == *n).unwrap_or(usize::MAX))],
    a stable sort. *)
Definition position (dag : Dag) (n : NodeIndex) : N :=
  match list_find (eq n) (dag_insertion_order dag) with
  | Some (i, _) => N.of_nat i
  | None => u64_max
  end.

Fixpoint insert_by {A} (le : A -> A -> bool) (x : A) (l : list A) : list A :=
  match l with
  | [] => [x]
  | y :: l => if le x y then x :: y :: l else y :: insert_by le x l
  end.

Definition sort_by {A} (le : A -> A -> bool) (l : list A) : list A :=
  fold_right (insert_by le) [] l.

Definition sort_by_insertion (dag : Dag) (l : list NodeIndex) : list NodeIndex :=
  sort_by (fun a b => (position dag a <=? position dag b)%N) l.

(** ** Kahn's algorithm

    The in-degrees, then the loop: take an entry of the ready collection, output its
    node, and release its successors.  [toposort] keeps a queue of indices and
    [toposort_by_key] an ordered set of pairs; the loop is the same. *)
Definition in_degrees (g : graph) : gmap NodeIndex nat :=
  fold_left (fun m e => <[e.2 := S (default 0 (m !! e.2))]> m) (edge_references g)
    (fold_left (fun m idx => <[idx := 0]> m) (node_indices g) ∅).

Section Kahn.
Context {E : Type} (index_of : E -> NodeIndex) (push : NodeIndex -> list E -> list E).

Definition release (s : gmap NodeIndex nat * list E) (neighbor : NodeIndex) :
    gmap NodeIndex nat * list E :=
  let '(in_degree, ready) := s in
  match in_degree !! neighbor with
  | None => s
  | Some deg =>
      let deg := deg - 1 in
      let in_degree := <[neighbor := deg]> in_degree in
      if deg =? 0 then (in_degree, push neighbor ready) else (in_degree, ready)
  end.

(** [None] when the fuel runs out. *)
Fixpoint kahn_loop (fuel : nat) (g : graph) (order : list NodeIndex -> list NodeIndex)
    (in_degree : gmap NodeIndex nat) (ready : list E) (acc : list T) :
    option (fresult (list T * gmap NodeIndex nat)) :=
  match fuel with
  | O => None
  | S fuel =>
      match ready with
      | [] => Some (Ok (acc, in_degree))
      | e :: ready =>
          match node_weight g (index_of e) with
          | None => Some (Err (index_not_found (index_of e)))
          | Some node =>
              let '(in_degree, ready) :=
                fold_left release (order (neighbors_directed g (index_of e) Outgoing))
                  (in_degree, ready) in
              kahn_loop fuel g order in_degree ready (acc ++ [node])
          end
      end
  end.
End Kahn.

(** Every node is output once at most. *)
Definition kahn_fuel (g : graph) : nat := S (node_count g).

Definition out_of_fuel {A} : fresult A := Err (DagNodeNotFound "fuel").

Definition toposort (dag : Dag) : fresult (list T) :=
  let g := dag_graph dag in
  if node_count g =? 0 then Ok []
  else
    let in_degree := in_degrees g in
    let queue :=
      List.filter (fun idx => default 0 (in_degree !! idx) =? 0) (dag_insertion_order dag) in
    match kahn_loop id (fun n queue => queue ++ [n]) (kahn_fuel g) g (sort_by_insertion dag)
            in_degree queue [] with
    | None => out_of_fuel
    | Some (Err e) => Err e
    | Some (Ok (acc, in_degree)) =>
        if negb (length acc =? node_count g) then
          let cycle_node :=
            match list_find (fun idx => 0 < default 0 (in_degree !! idx))
                    (dag_insertion_order dag) with
            | Some (_, idx) =>
                match node_weight g idx with Some v => to_string v | None => "unknown" end
            | None => "unknown"
            end in
          Err (CycleDetected [cycle_node])
        else Ok acc
    end.

(** [BTreeSet<(String, usize)>]: its elements in order; the keys are strings
    compared by their bytes, then the index. *)
Definition ready_leb (a b : string * NodeIndex) : bool :=
  if decide (a.1 = b.1) then (a.2 <=? b.2) else str_leb a.1 b.1.

Definition btree_insert (x : string * NodeIndex) (l : list (string * NodeIndex)) :
    list (string * NodeIndex) :=
  if decide (x ∈ l) then l else insert_by ready_leb x l.

(** ** The search for a cycle

    Depth first with colours (0 white, 1 gray, 2 black); the stack is a list with its
    top first. *)
Definition color_of (color : gmap NodeIndex N) (n : NodeIndex) : N := default 0%N (color !! n).

(** The nodes pushed on [cycle_path] between the two ends, in the order pushed. *)
Fixpoint walk_back (fuel : nat) (parent : gmap NodeIndex NodeIndex) (neighbor current : NodeIndex) :
    list NodeIndex :=
  if decide (current = neighbor) then []
  else
    match fuel with
    | O => []
    | S fuel =>
        current :: match parent !! current with
                   | Some p => walk_back fuel parent neighbor p
                   | None => []
                   end
    end.

Definition cycle_path (fuel : nat) (parent : gmap NodeIndex NodeIndex) (neighbor node : NodeIndex) :
    list NodeIndex := reverse (neighbor :: walk_back fuel parent neighbor node ++ [neighbor]).

(** The [for] over the neighbours of [node]: the cycle found, or the parents and the
    stack after it. *)
Fixpoint scan (fuel : nat) (color : gmap NodeIndex N) (node : NodeIndex) (ns : list NodeIndex)
    (parent : gmap NodeIndex NodeIndex) (stack : list NodeIndex) :
    list NodeIndex + gmap NodeIndex NodeIndex * list NodeIndex :=
  match ns with
  | [] => inr (parent, stack)
  | n :: ns =>
      if (color_of color n =? 0)%N then
        scan fuel color node ns (<[n := node]> parent) (n :: stack)
      else if (color_of color n =? 1)%N then inl (cycle_path fuel parent n node)
      else scan fuel color node ns parent stack
  end.

Fixpoint dfs_loop (fuel : nat) (g : graph) (color : gmap NodeIndex N)
    (parent : gmap NodeIndex NodeIndex) (stack : list NodeIndex) :
    option (list NodeIndex + gmap NodeIndex N * gmap NodeIndex NodeIndex) :=
  match fuel with
  | O => None
  | S fuel =>
      match stack with
      | [] => Some (inr (color, parent))
      | node :: rest =>
          if (color_of color node =? 0)%N then
            let color := <[node := 1%N]> color in
            match scan (node_count g) color node (neighbors_directed g node Outgoing) parent stack with
            | inl cycle => Some (inl cycle)
            | inr (parent, stack) => dfs_loop fuel g color parent stack
            end
          else if (color_of color node =? 1)%N then
            dfs_loop fuel g (<[node := 2%N]> color) parent rest
          else dfs_loop fuel g color parent rest
      end
  end.

(** Every turn whitens no node, and pops an entry or colours a node. *)
Definition dfs_fuel (g : graph) : nat := S (S (node_count g + length (edge_references g))).

Fixpoint dfs_starts (g : graph) (starts : list NodeIndex) (color : gmap NodeIndex N)
    (parent : gmap NodeIndex NodeIndex) : option (list NodeIndex) :=
  match starts with
  | [] => None
  | start :: starts =>
      if negb (color_of color start =? 0)%N then dfs_starts g starts color parent
      else
        match dfs_loop (dfs_fuel g) g color parent [start] with
        | Some (inl cycle) => Some cycle
        | Some (inr (color, parent)) => dfs_starts g starts color parent
        | None => None
        end
  end.

Definition find_cycle (g : graph) : option (list NodeIndex) :=
  dfs_starts g (node_indices g) (fold_left (fun m idx => <[idx := 0%N]> m) (node_indices g) ∅) ∅.

Definition find_cycle_path (dag : Dag) : FlowError :=
  let g := dag_graph dag in
  match find_cycle g with
  | Some cycle => CycleDetected (omap (fun idx => to_string <$> node_weight g idx) cycle)
  | None => CycleDetected ["unknown"]
  end.

Definition toposort_by_key (key_fn : T -> string) (dag : Dag) : fresult (list T) :=
  let g := dag_graph dag in
  if node_count g =? 0 then Ok []
  else
    let in_degree := in_degrees g in
    let push idx ready :=
      match node_weight g idx with
      | Some value => btree_insert (key_fn value, idx) ready
      | None => ready
      end in
    let ready :=
      fold_left (fun ready idx =>
        if default 0 (in_degree !! idx) =? 0 then push idx ready else ready) (node_indices g) [] in
    match kahn_loop snd push (kahn_fuel g) g id in_degree ready [] with
    | None => out_of_fuel
    | Some (Err e) => Err e
    | Some (Ok (acc, _)) =>
        if negb (length acc =? node_count g) then Err (find_cycle_path dag) else Ok acc
    end.

(** ** Queries *)

Definition neighbor_values (dag : Dag) (node : NodeIndex) (dir : Direction) : fresult (list T) :=
  match node_weight (dag_graph dag) node with
  | None => Err (index_not_found node)
  | Some _ =>
      Ok (omap (node_weight (dag_graph dag))
            (sort_by_insertion dag (neighbors_directed (dag_graph dag) node dir)))
  end.

Definition upstream (dag : Dag) (node : NodeIndex) : fresult (list T) :=
  neighbor_values dag node Incoming.
Definition downstream (dag : Dag) (node : NodeIndex) : fresult (list T) :=
  neighbor_values dag node Outgoing.

Definition ends (dag : Dag) (dir : Direction) : list T :=
  omap (node_weight (dag_graph dag))
    (sort_by_insertion dag
       (List.filter (fun idx => length (neighbors_directed (dag_graph dag) idx dir) =? 0)
          (node_indices (dag_graph dag)))).

Definition roots (dag : Dag) : list T := ends dag Incoming.
Definition leaves (dag : Dag) : list T := ends dag Outgoing.

Definition dag_contains (dag : Dag) (node : T) : bool := bool_decide (is_Some (dag_index_map dag !! node)).
Definition get_index (dag : Dag) (value : T) : option NodeIndex := dag_index_map dag !! value.
End Dag.
Arguments Dag T {_ _ _}.

(** ** A graph as its lists of nodes and edges

    The newest edge is enumerated first. *)
Record list_graph (T : Type) := mkListGraph { lg_nodes : list T; lg_edges : list (nat * nat) }.
Arguments mkListGraph {_} _ _.
Arguments lg_nodes {_} _.
Arguments lg_edges {_} _.

#[export] Instance list_digraph T : DiGraph T := {|
  graph := list_graph T;
  graph_new := mkListGraph [] [];
  graph_add_node g v := (length (lg_nodes g), mkListGraph (lg_nodes g ++ [v]) (lg_edges g));
  graph_add_edge g a b := mkListGraph (lg_nodes g) ((a, b) :: lg_edges g);
  node_count g := length (lg_nodes g);
  node_weight g i := lg_nodes g !! i;
  edge_references g := lg_edges g;
  neighbors_directed g i d :=
    match d with
    | Outgoing => successors (lg_edges g) i
    | Incoming => predecessors (lg_edges g) i
    end
|}.

#[export] Instance list_digraph_laws T : DiGraphLaws T.
Proof.
  split; simpl; try done.
  - intros g i. apply lookup_lt_is_Some.
  - intros g v. rewrite length_app; simpl. split_and!; [done|lia|done| |].
    + by rewrite lookup_app_r, Nat.sub_diag.
    + intros j Hj. destruct (decide (j < length (lg_nodes g))).
      * by rewrite lookup_app_l.
      * rewrite (lookup_ge_None_2 (lg_nodes g)) by lia. apply lookup_ge_None_2.
        rewrite length_app. simpl. lia.
Qed.
