(* ===== verification/DagProps.v ===== *)
(** Correctness of the topological sorts and of the search for a cycle. *)

From S2P Require Import Prelude Storage Dag.
From stdpp Require Import sorting options.

(** ** Sorting *)

Section SortBy.
Context {A : Type} (le : A -> A -> bool).

Lemma insert_by_perm x l : insert_by le x l ≡ₚ x :: l.
Proof.
  induction l as [|y l IH]; simpl; [done|]. destruct (le x y); [done|].
  rewrite IH. apply Permutation_swap.
Qed.

Lemma sort_by_perm l : sort_by le l ≡ₚ l.
Proof. induction l as [|x l IH]; simpl; [done|]. by rewrite insert_by_perm, IH. Qed.

Context (Htotal : forall x y, le x y = true \/ le y x = true)
        (Htrans : forall x y z, le x y = true -> le y z = true -> le x z = true).
#[local] Set Default Proof Using "All".

Lemma insert_by_sorted x l : StronglySorted le l -> StronglySorted le (insert_by le x l).
Proof.
  induction 1 as [|y l Hl IH Hy]; simpl; [by repeat constructor|].
  destruct (le x y) eqn:E.
  - constructor; [by constructor|]. constructor; [by rewrite E|].
    eapply Forall_impl; [exact Hy|]. intros z Hz. simpl in *.
    apply Is_true_true in Hz. apply Is_true_true. eauto.
  - constructor; [done|]. rewrite insert_by_perm. constructor; [|done].
    destruct (Htotal x y) as [?|Hyx]; [congruence|by rewrite Hyx].
Qed.

Lemma sort_by_sorted l : StronglySorted le (sort_by le l).
Proof. induction l as [|x l IH]; simpl; [constructor|by apply insert_by_sorted]. Qed.
End SortBy.

(** ** Edges as lists *)

Lemma elem_of_predecessors es s i : s ∈ predecessors es i <-> (s, i) ∈ es.
Proof.
  unfold predecessors. rewrite list_elem_of_omap. split.
  - intros ([a b] & Hin & Hd). simpl in Hd. case_decide; by simplify_eq.
  - intros Hin. exists (s, i). split; [done|]. simpl. by rewrite decide_True.
Qed.

Lemma elem_of_successors es i t : t ∈ successors es i <-> (i, t) ∈ es.
Proof.
  unfold successors. rewrite list_elem_of_omap. split.
  - intros ([a b] & Hin & Hd). simpl in Hd. case_decide; by simplify_eq.
  - intros Hin. exists (i, t). split; [done|]. simpl. by rewrite decide_True.
Qed.

Definition occ (i : nat) (l : list nat) : nat := length (filter (eq i) l).

Lemma occ_cons i j l : occ i (j :: l) = (if decide (i = j) then 1 else 0) + occ i l.
Proof. unfold occ. rewrite filter_cons. by destruct (decide (i = j)). Qed.

Lemma occ_perm i l l' : l ≡ₚ l' -> occ i l = occ i l'.
Proof. unfold occ. by intros ->. Qed.

Lemma occ_predecessors es i j : occ i (successors es j) = occ j (predecessors es i).
Proof.
  induction es as [|[a b] es IH]; [done|].
  assert (successors ((a, b) :: es) j = (if decide (a = j) then [b] else []) ++ successors es j)
    as -> by (unfold successors; simpl; by destruct (decide (a = j))).
  assert (predecessors ((a, b) :: es) i = (if decide (b = i) then [a] else []) ++ predecessors es i)
    as -> by (unfold predecessors; simpl; by destruct (decide (b = i))).
  destruct (decide (a = j)), (decide (b = i)); simpl; rewrite ?occ_cons; repeat case_decide; lia.
Qed.

(** The edges into [i] whose source is not done. *)
Definition waiting (es : list (nat * nat)) (done : list nat) (i : nat) : nat :=
  length (filter (fun s => s ∉ done) (predecessors es i)).

Lemma waiting_zero es l i : waiting es l i = 0 <-> forall s, (s, i) ∈ es -> s ∈ l.
Proof.
  unfold waiting. rewrite length_zero_iff_nil. split.
  - intros E s Hs. destruct (decide (s ∈ l)) as [|Hn]; [done|].
    assert (s ∈ filter (fun s => s ∉ l) (predecessors es i)) as Hin
      by (apply list_elem_of_filter; split; [done|by apply elem_of_predecessors]).
    rewrite E in Hin. by apply elem_of_nil in Hin.
  - intros Hall. destruct (filter _ _) as [|s ?] eqn:E; [done|].
    assert (s ∈ filter (fun s => s ∉ l) (predecessors es i)) as [Hn Hs]%list_elem_of_filter
      by (rewrite E; set_solver).
    by apply elem_of_predecessors, Hall in Hs.
Qed.

Lemma waiting_snoc es l i j :
  j ∉ l -> waiting es l i = waiting es (l ++ [j]) i + occ j (predecessors es i).
Proof.
  intros Hj. unfold waiting, occ. induction (predecessors es i) as [|s p IH]; [done|].
  rewrite !filter_cons. destruct (decide (j = s)) as [<-|].
  - rewrite decide_True by done. rewrite decide_False by set_solver. simpl. lia.
  - destruct (decide (s ∉ l)) as [Hs|Hs].
    + rewrite decide_True by set_solver. simpl. lia.
    + rewrite decide_False by set_solver. done.
Qed.

(** ** Kahn's algorithm, on indices

    A graph with [n] nodes and edges [es]. *)
Section Kahn.
Context (n : nat) (es : list (nat * nat)).

(** [i] may come after exactly the nodes of [l]. *)
Definition available (l : list nat) (i : nat) : Prop :=
  i < n /\ (i ∉ l) /\ forall s, (s, i) ∈ es -> s ∈ l.

(** Every node of [l] was available when it was taken, and the best that was. *)
Definition picks (best : nat -> nat -> Prop) (l : list nat) : Prop :=
  forall l1 x l2, l = l1 ++ x :: l2 ->
    available l1 x /\ forall y, available l1 y -> y = x \/ best x y.

(** What the loop keeps: [fin] are the nodes output, [ready] those in the collection,
    and [pend] the neighbours still to release. *)
Record kahn_inv (fin ready : list nat) (deg : gmap nat nat) (pend : list nat) : Prop := {
  ki_nodup : NoDup (fin ++ ready);
  ki_nodes : forall i, i ∈ fin ++ ready -> i < n;
  ki_degree : forall i, i < n -> deg !! i = Some (waiting es fin i + occ i pend);
  ki_ready : forall i, i < n -> (i ∈ fin ++ ready <-> waiting es fin i + occ i pend = 0)
}.

Lemma picks_snoc best l x :
  picks best l -> available l x -> (forall y, available l y -> y = x \/ best x y) ->
  picks best (l ++ [x]).
Proof.
  intros Hp Hx Hb l1 y l2 E. destruct l2 as [|z l2 _] using rev_ind.
  - apply app_inj_tail in E as [-> ->]. done.
  - rewrite app_comm_cons, app_assoc in E. apply app_inj_tail in E as [-> _]. by eapply Hp.
Qed.

Lemma kahn_ready_available fin ready deg i :
  kahn_inv fin ready deg [] -> (i ∈ ready <-> available fin i).
Proof.
  intros [Hnd Hlt _ Hr]. unfold available. apply NoDup_app in Hnd as (_ & Hdis & _). split.
  - intros Hi. assert (i < n) by (apply Hlt; set_solver). split_and!; [done|set_solver|].
    apply waiting_zero. assert (i ∈ fin ++ ready) as Hin by set_solver.
    apply Hr in Hin; [|done]. lia.
  - intros (Hi & Hn & Hs). assert (i ∈ fin ++ ready) as Hin.
    { apply Hr; [done|]. apply waiting_zero in Hs. unfold occ. simpl. lia. }
    set_solver.
Qed.

Section Loop.
Context {E : Type} (index_of : E -> nat) (push : nat -> list E -> list E).
Context (ok : list E -> Prop) (best : nat -> nat -> Prop).

(** What the loop needs of the ready collection. *)
Record collection_ok : Prop := {
  co_push : forall i l, i < n -> i ∉ index_of <$> l -> index_of <$> push i l ≡ₚ i :: (index_of <$> l);
  co_push_ok : forall i l, i < n -> ok l -> ok (push i l);
  co_tail : forall e l, ok (e :: l) -> ok l;
  co_head : forall e l e', ok (e :: l) -> e' ∈ l -> best (index_of e) (index_of e')
}.

Context (Hcol : collection_ok).
#[local] Set Default Proof Using "All".

Lemma release_inv fin ready deg m pend :
  kahn_inv fin (index_of <$> ready) deg (m :: pend) -> ok ready -> m < n ->
  let '(deg', ready') := release push (deg, ready) m in
  kahn_inv fin (index_of <$> ready') deg' pend /\ ok ready'.
Proof.
  intros [Hnd Hlt Hd Hr] Hok Hm. unfold release. rewrite (Hd m Hm), occ_cons, decide_True by done.
  set (c := waiting es fin m + occ m pend).
  replace (waiting es fin m + (1 + occ m pend) - 1) with c by lia.
  assert (m ∉ fin ++ (index_of <$> ready)) as Hnew.
  { intros Hin. apply Hr in Hin; [|done]. rewrite occ_cons, decide_True in Hin by done. lia. }
  assert (forall i, i < n -> (<[m:=c]> deg) !! i = Some (waiting es fin i + occ i pend)) as Hd'.
  { intros i Hi. destruct (decide (i = m)) as [->|Hne]; [by rewrite lookup_insert_eq|].
    rewrite lookup_insert_ne, (Hd i Hi), occ_cons, decide_False by done. done. }
  assert (forall i, i < n -> i <> m ->
    (i ∈ fin ++ (index_of <$> ready) <-> waiting es fin i + occ i pend = 0)) as Hr'.
  { intros i Hi Hne. rewrite Hr, occ_cons, decide_False by done. done. }
  destruct (Nat.eqb_spec c 0) as [Hc|Hc].
  - assert (index_of <$> push m ready ≡ₚ m :: (index_of <$> ready)) as Hp
      by (apply Hcol; set_solver).
    split; [|by apply Hcol]. split.
    + rewrite Hp, <-Permutation_middle. by constructor.
    + intros i. rewrite Hp, <-Permutation_middle. intros [->|?]%elem_of_cons; auto.
    + done.
    + intros i Hi. rewrite Hp, <-Permutation_middle, elem_of_cons.
      destruct (decide (i = m)) as [->|Hne]; [by fold c; split; auto|].
      rewrite <-Hr' by done. tauto.
  - split; [|done]. split; [done..|]. intros i Hi. destruct (decide (i = m)) as [->|Hne].
    + split; [done|by fold c].
    + by apply Hr'.
Qed.

Lemma releases_inv fin ready deg pend :
  kahn_inv fin (index_of <$> ready) deg pend -> ok ready -> (forall m, m ∈ pend -> m < n) ->
  let '(deg', ready') := fold_left (release push) pend (deg, ready) in
  kahn_inv fin (index_of <$> ready') deg' [] /\ ok ready'.
Proof.
  revert deg ready. induction pend as [|m pend IH]; intros deg ready Hinv Hok Hlt; cbn [fold_left]; [done|].
  pose proof (release_inv _ _ _ _ _ Hinv Hok (Hlt m ltac:(set_solver))) as Hr.
  destruct (release push (deg, ready) m) as [deg' ready']. destruct Hr as [Hinv' Hok'].
  apply (IH deg' ready' Hinv' Hok'). set_solver.
Qed.

(** Taking the head of the collection. *)
Lemma kahn_take fin e ready deg pend :
  kahn_inv fin (index_of <$> (e :: ready)) deg [] -> pend ≡ₚ successors es (index_of e) ->
  kahn_inv (fin ++ [index_of e]) (index_of <$> ready) deg pend.
Proof.
  assert (fin ++ (index_of <$> e :: ready) = (fin ++ [index_of e]) ++ (index_of <$> ready)) as Heq
    by (by rewrite <-app_assoc).
  intros [Hnd Hlt Hd Hr] Hp. rewrite Heq in *.
  assert (index_of e ∉ fin) as Hne.
  { apply NoDup_app in Hnd as (Hnd & _). apply NoDup_app in Hnd as (_ & Hdis & _). set_solver. }
  assert (forall i, waiting es (fin ++ [index_of e]) i + occ i pend = waiting es fin i + occ i []) as Hw.
  { intros i. rewrite (waiting_snoc es fin i (index_of e)) by done.
    rewrite (occ_perm _ _ _ Hp), occ_predecessors. unfold occ at 3. simpl. lia. }
  split; [done|done| |].
  - intros i Hi. rewrite Hw. by apply Hd.
  - intros i Hi. rewrite Hw. by apply Hr.
Qed.
End Loop.
End Kahn.

(** ** Cycles *)

Abbreviation edge es := (fun a b : nat => (a, b) ∈ es).

Definition cyclic (es : list (nat * nat)) : Prop := exists x, tc (edge es) x x.

Lemma bounded_length (n : nat) (l : list nat) :
  NoDup l -> (forall i, i ∈ l -> i < n) -> length l <= n.
Proof.
  intros Hnd Hlt. rewrite <-(length_seq n 0). apply submseteq_length, NoDup_submseteq; [done|].
  intros i Hi. apply elem_of_seq. specialize (Hlt i Hi). lia.
Qed.

Lemma bounded_full (n : nat) (l : list nat) :
  NoDup l -> (forall i, i ∈ l -> i < n) -> length l = n -> l ≡ₚ seq 0 n.
Proof.
  intros Hnd Hlt Hn. apply submseteq_length_Permutation; [|by rewrite length_seq, Hn].
  apply NoDup_submseteq; [done|]. intros i Hi. apply elem_of_seq. specialize (Hlt i Hi). lia.
Qed.

Lemma repeated (l : list nat) : ~ NoDup l -> exists l1 x l2, l = l1 ++ x :: l2 /\ x ∈ l2.
Proof.
  induction l as [|x l IH]; intros Hnd; [by destruct Hnd; constructor|].
  destruct (decide (x ∈ l)) as [Hx|Hx]; [by exists [], x, l|].
  destruct IH as (l1 & y & l2 & -> & Hy); [intros ?; apply Hnd; by constructor|].
  by exists (x :: l1), y, l2.
Qed.

(** Consecutive nodes of a walk are joined by edges. *)
Fixpoint walk (es : list (nat * nat)) (l : list nat) : Prop :=
  match l with
  | x :: (y :: _) as l => (x, y) ∈ es /\ walk es l
  | _ => True
  end.

Lemma walk_cons es x y l : walk es (x :: y :: l) <-> (x, y) ∈ es /\ walk es (y :: l).
Proof. done. Qed.

Lemma walk_app_r es l1 l2 : walk es (l1 ++ l2) -> walk es l2.
Proof.
  induction l1 as [|x l1 IH]; [done|]. intros Hw. apply IH.
  simpl in Hw. destruct (l1 ++ l2); [done|by destruct Hw].
Qed.

Lemma walk_tc es x l y : walk es (x :: l) -> y ∈ l -> tc (edge es) x y.
Proof.
  revert x. induction l as [|z l IH]; intros x; [by intros _ ?%elem_of_nil|].
  intros [Hxz Hw]%walk_cons [->|Hy]%elem_of_cons; [by apply tc_once|].
  eapply tc_l; [exact Hxz|eauto].
Qed.

(** Where every node left has a predecessor left, there is a cycle. *)
Lemma predecessors_cyclic n es (P : nat -> Prop) x :
  P x -> (forall i, P i -> i < n) -> (forall i, P i -> exists s, (s, i) ∈ es /\ P s) -> cyclic es.
Proof.
  intros Hx Hlt Hpred.
  assert (forall k, exists l, length l = S k /\ walk es l /\ Forall P l) as Hwalk.
  { induction k as [|k (l & Hl & Hw & Hp)]; [exists [x]; by repeat constructor|].
    destruct l as [|y l]; [done|]. apply Forall_cons in Hp as [Hy Hp].
    destruct (Hpred y Hy) as (s & Hs & HPs). exists (s :: y :: l).
    split_and!; [simpl in *; lia|done|by repeat constructor]. }
  destruct (Hwalk n) as (l & Hl & Hw & Hp).
  destruct (repeated l) as (l1 & y & l2 & -> & Hy).
  { intros Hnd. assert (length l <= n); [|lia]. apply bounded_length; [done|].
    intros i Hi. rewrite Forall_forall in Hp. eauto. }
  exists y. apply walk_app_r in Hw. by eapply walk_tc.
Qed.

Section Order.
Context (n : nat) (es : list (nat * nat)) (best : nat -> nat -> Prop) (fin : list nat).
Context (Hpicks : picks n es best fin).
#[local] Set Default Proof Using "All".

Lemma picks_before a b j : (a, b) ∈ es -> fin !! j = Some b -> exists i, i < j /\ fin !! i = Some a.
Proof.
  intros Hab Hj. destruct (Hpicks (take j fin) b (drop (S j) fin)) as [(_ & _ & Hs) _].
  { by rewrite take_drop_middle. }
  apply Hs, list_elem_of_lookup_1 in Hab as [i Hi]. exists i.
  apply lookup_take_Some in Hi as [Hi Hlt]. done.
Qed.

Lemma picks_tc a b j : tc (edge es) a b -> fin !! j = Some b -> exists i, i < j /\ fin !! i = Some a.
Proof.
  intros Htc. revert j. induction Htc as [a b Hab|a b c Hab _ IH]; intros j Hj.
  - by eapply picks_before.
  - destruct (IH _ Hj) as (i & Hi & Hb). destruct (picks_before _ _ _ Hab Hb) as (k & Hk & Ha).
    exists k. split; [lia|done].
Qed.

Lemma picks_nodup : NoDup fin.
Proof.
  apply NoDup_alt. assert (forall i j x, i < j -> fin !! i = Some x -> fin !! j = Some x -> False) as Hlt.
  { intros i j x Hij Hi Hj. destruct (Hpicks (take j fin) x (drop (S j) fin)) as [(_ & Hn & _) _].
    { by rewrite take_drop_middle. }
    apply Hn, (list_elem_of_lookup_2 _ i). by rewrite lookup_take_lt. }
  intros i j x Hi Hj. destruct (Nat.lt_total i j) as [?|[?|?]]; [|done|]; exfalso; eauto.
Qed.

Lemma picks_acyclic x : x ∈ fin -> ~ tc (edge es) x x.
Proof.
  intros [j Hj]%list_elem_of_lookup_1 Htc. destruct (picks_tc _ _ _ Htc Hj) as (i & Hij & Hi).
  pose proof (NoDup_lookup _ _ _ _ picks_nodup Hi Hj). lia.
Qed.
End Order.

(** When the collection runs out, all nodes are output or the rest has a cycle. *)
Lemma kahn_end n es best fin deg :
  (forall a b, (a, b) ∈ es -> a < n /\ b < n) ->
  kahn_inv n es fin [] deg [] -> picks n es best fin ->
  if decide (length fin = n) then fin ≡ₚ seq 0 n /\ ~ cyclic es else cyclic es.
Proof.
  intros Hes Hinv Hp. pose proof Hinv as [Hnd Hlt _ Hr]. rewrite app_nil_r in *.
  case_decide as Hn.
  - pose proof (bounded_full _ _ Hnd Hlt Hn) as Hperm. split; [done|]. intros [x Hx].
    assert (x < n) as Hxn.
    { inversion Hx as [? ? Ha|? ? ? Ha]; subst; by destruct (Hes _ _ Ha). }
    eapply (picks_acyclic n es best fin Hp x); [|done]. rewrite Hperm. apply elem_of_seq. lia.
  - assert (exists x, x < n /\ x ∉ fin) as (x & Hx & Hxf).
    { destruct (decide (Forall (fun x => x ∈ fin) (seq 0 n))) as [Hall|Hex].
      - exfalso. apply Hn, Nat.le_antisymm; [by apply bounded_length|].
        rewrite <-(length_seq n 0) at 1. apply submseteq_length, NoDup_submseteq; [apply NoDup_seq|].
        intros i Hi. rewrite Forall_forall in Hall. auto.
      - apply not_Forall_Exists in Hex; [|apply _]. apply Exists_exists in Hex as (x & Hx & Hxf).
        apply elem_of_seq in Hx. exists x. split; [lia|done]. }
    apply (predecessors_cyclic n es (fun i => i < n /\ i ∉ fin) x); [done|by intros ? []|].
    intros i [Hi Hif]. destruct (decide (waiting es fin i = 0)) as [E|Hw].
    { exfalso. apply Hif, Hr; [done|]. by rewrite E. }
    unfold waiting in Hw. destruct (filter _ _) as [|s l] eqn:E; [done|].
    assert (s ∈ filter (fun s => s ∉ fin) (predecessors es i)) as [Hs1 Hs2]%list_elem_of_filter
      by (rewrite E; set_solver).
    apply elem_of_predecessors in Hs2. exists s. destruct (Hes _ _ Hs2). done.
Qed.

(** ** The loop on a graph *)

Lemma fold_insert_const (c : nat) (l : list nat) (m : gmap nat nat) i :
  fold_left (fun m idx => <[idx := c]> m) l m !! i = if decide (i ∈ l) then Some c else m !! i.
Proof.
  revert m. induction l as [|x l IH]; intros m; cbn [fold_left].
  - by rewrite decide_False by apply not_elem_of_nil.
  - rewrite IH. destruct (decide (i ∈ l)) as [Hi|Hi].
    + rewrite decide_True by set_solver. done.
    + destruct (decide (x = i)) as [->|Hne].
      * rewrite lookup_insert_eq, decide_True by set_solver. done.
      * rewrite lookup_insert_ne, decide_False by set_solver. done.
Qed.

Lemma fold_degrees (es : list (nat * nat)) (m : gmap nat nat) i d :
  m !! i = Some d ->
  fold_left (fun m e => <[e.2 := S (default 0 (m !! e.2))]> m) es m !! i
  = Some (d + length (predecessors es i)).
Proof.
  revert m d. induction es as [|[a b] es IH]; intros m d Hd; simpl.
  - rewrite Hd. f_equal. unfold predecessors. simpl. lia.
  - unfold predecessors in *. simpl. destruct (decide (b = i)) as [->|Hne].
    + rewrite (IH _ (S d)); [simpl; f_equal; lia|]. by rewrite lookup_insert_eq, Hd.
    + apply IH. by rewrite lookup_insert_ne.
Qed.

Section Graph.
Context `{HCt : Countable T} `{HG : DiGraph T} `{!DiGraphLaws T} `{HDisp : Display T}.
Implicit Types (g : graph) (dag : Dag T).
#[local] Set Default Proof Using "Type*".

Definition edges_ok g : Prop :=
  forall a b, (a, b) ∈ edge_references g -> a < node_count g /\ b < node_count g.

Lemma in_degrees_lookup g i :
  i < node_count g -> in_degrees g !! i = Some (length (predecessors (edge_references g) i)).
Proof.
  intros Hi. unfold in_degrees. rewrite (fold_degrees _ _ _ 0); [done|].
  rewrite fold_insert_const. rewrite decide_True; [done|]. apply elem_of_seq. lia.
Qed.

Lemma waiting_nil es i : waiting es [] i = length (predecessors es i).
Proof.
  unfold waiting. induction (predecessors es i) as [|s l IH]; [done|].
  rewrite filter_cons, decide_True by apply not_elem_of_nil. cbn [length]. f_equal. exact IH.
Qed.

Lemma kahn_inv_start g ready :
  NoDup ready ->
  (forall i, i ∈ ready <-> i < node_count g /\ default 0 (in_degrees g !! i) = 0) ->
  kahn_inv (node_count g) (edge_references g) [] ready (in_degrees g) [].
Proof.
  intros Hnd Hr. split; simpl; [done| | |].
  - intros i [Hi _]%Hr. exact Hi.
  - intros i Hi. rewrite in_degrees_lookup, waiting_nil by done. f_equal. unfold occ. simpl. lia.
  - intros i Hi. rewrite Hr, in_degrees_lookup, waiting_nil by done. unfold occ. simpl.
    split; [intros [_ ->]; lia|intros ?; split; [done|lia]].
Qed.

(** The values of a list of nodes. *)
Definition values g (l : list nat) : list T := omap (node_weight g) l.

Lemma values_snoc g l i v : node_weight g i = Some v -> values g (l ++ [i]) = values g l ++ [v].
Proof. intros Hv. unfold values. rewrite omap_app. simpl. by rewrite Hv. Qed.

Lemma values_cons g l i v : node_weight g i = Some v -> values g (i :: l) = v :: values g l.
Proof. intros Hv. unfold values. simpl. by rewrite Hv. Qed.

Lemma values_length g l : (forall i, i ∈ l -> i < node_count g) -> length (values g l) = length l.
Proof.
  induction l as [|i l IH]; intros Hl; [done|].
  destruct (proj2 (law_weight g i) (Hl i ltac:(set_solver))) as [v Hv].
  rewrite (values_cons _ _ _ _ Hv). cbn [length]. rewrite IH; [done|]. set_solver.
Qed.

Section Loop.
Context {E : Type} (index_of : E -> nat) (push : nat -> list E -> list E).
Context (ok : list E -> Prop) (best : nat -> nat -> Prop) (order : list nat -> list nat) (g : graph).
Context (Hcol : collection_ok (node_count g) index_of push ok best).
Context (Horder : forall l, order l ≡ₚ l) (Hes : edges_ok g).
#[local] Set Default Proof Using "All".

Lemma kahn_loop_result fuel fin ready deg :
  kahn_inv (node_count g) (edge_references g) fin (index_of <$> ready) deg [] -> ok ready ->
  picks (node_count g) (edge_references g) best fin -> node_count g - length fin < fuel ->
  exists fin' deg',
    kahn_loop index_of push fuel g order deg ready (values g fin) = Some (Ok (values g fin', deg')) /\
    kahn_inv (node_count g) (edge_references g) fin' [] deg' [] /\
    picks (node_count g) (edge_references g) best fin'.
Proof.
  revert fin ready deg. induction fuel as [|fuel IH]; intros fin ready deg Hinv Hok Hp Hf; [lia|].
  destruct ready as [|e ready]; simpl; [by exists fin, deg|].
  pose proof (kahn_ready_available _ _ _ _ _ (index_of e) Hinv) as Hav.
  destruct Hav as [Hav _]. specialize (Hav ltac:(set_solver)). pose proof Hav as (He & Hef & _).
  destruct (proj2 (law_weight g (index_of e)) He) as [v Hv]. rewrite Hv.
  set (pend := order (neighbors_directed g (index_of e) Outgoing)).
  assert (pend ≡ₚ successors (edge_references g) (index_of e)) as Hpend
    by (unfold pend; rewrite Horder; apply law_neighbors).
  pose proof (kahn_take _ _ _ _ _ _ Hcol _ _ _ _ _ Hinv Hpend) as Hinv'.
  assert (forall y, available (node_count g) (edge_references g) fin y ->
    y = index_of e \/ best (index_of e) y) as Hbest.
  { intros y Hy. eapply kahn_ready_available in Hy; [|exact Hinv].
    rewrite fmap_cons, elem_of_cons in Hy. destruct Hy as [->|Hy]; [by left|right].
    apply list_elem_of_fmap in Hy as (e' & -> & He'). by eapply Hcol. }
  assert (forall m, m ∈ pend -> m < node_count g) as Hlt.
  { intros m. rewrite Hpend, elem_of_successors. by intros [_ ?]%Hes. }
  pose proof (releases_inv _ _ _ _ _ _ Hcol _ _ _ _ Hinv' (co_tail _ _ _ _ _ Hcol _ _ Hok) Hlt) as Hrel.
  destruct (fold_left (release push) pend (deg, ready)) as [deg' ready'].
  destruct Hrel as [Hinv2 Hok2]. rewrite <-(values_snoc _ _ _ _ Hv).
  apply IH; [done|done|by apply picks_snoc|].
  assert (length fin < node_count g); [|rewrite length_app; simpl; lia].
  destruct Hinv as [Hnd Hn _ _]. pose proof (bounded_length _ _ Hnd Hn) as Hb.
  rewrite length_app in Hb. simpl in Hb. lia.
Qed.

(** The whole sort: every node in an order that respects the edges, or a cycle. *)
Lemma kahn_sorts ready :
  NoDup (index_of <$> ready) -> ok ready ->
  (forall i, i ∈ index_of <$> ready <-> i < node_count g /\ default 0 (in_degrees g !! i) = 0) ->
  exists fin deg,
    kahn_loop index_of push (kahn_fuel g) g order (in_degrees g) ready []
      = Some (Ok (values g fin, deg)) /\
    length (values g fin) = length fin /\
    picks (node_count g) (edge_references g) best fin /\
    if decide (length fin = node_count g)
    then fin ≡ₚ seq 0 (node_count g) /\ ~ cyclic (edge_references g)
    else cyclic (edge_references g).
Proof.
  intros Hnd Hok Hr.
  destruct (kahn_loop_result (kahn_fuel g) [] ready (in_degrees g)) as (fin & deg & Hk & Hinv & Hp).
  - by apply kahn_inv_start.
  - done.
  - intros l1 x l2 Hl. by destruct l1.
  - unfold kahn_fuel. simpl. lia.
  - exists fin, deg. split_and!; [done| |done|by eapply kahn_end].
    apply values_length. intros i Hi. destruct Hinv as [_ Hn _ _]. apply Hn. set_solver.
Qed.
End Loop.

(** ** The ready set of [toposort_by_key] *)

Lemma ready_leb_total a b : ready_leb a b = true \/ ready_leb b a = true.
Proof.
  unfold ready_leb. destruct a as [k i], b as [k' j]. simpl.
  destruct (decide (k = k')) as [->|Hne].
  - rewrite decide_True by done. destruct (Nat.leb_spec i j); [by left|right].
    apply Nat.leb_le. lia.
  - rewrite decide_False by done. destruct (str_leb k k') eqn:E; [by left|right].
    by apply str_leb_false.
Qed.

Lemma ready_leb_trans a b c : ready_leb a b = true -> ready_leb b c = true -> ready_leb a c = true.
Proof.
  unfold ready_leb. destruct a as [k i], b as [k' j], c as [k'' m]. simpl.
  repeat case_decide; subst; try done; rewrite ?Nat.leb_le; [lia| |].
  - intros Hab Hba. exfalso. eauto using str_leb_antisym.
  - apply str_leb_trans.
Qed.

Section ByKey.
Context (key_fn : T -> string) (g : graph).

Definition node_key (i : nat) : string :=
  match node_weight g i with Some v => key_fn v | None => "" end.

Definition ready_push (idx : nat) (ready : list (string * nat)) : list (string * nat) :=
  match node_weight g idx with
  | Some value => btree_insert (key_fn value, idx) ready
  | None => ready
  end.

Definition ready_ok (l : list (string * nat)) : Prop :=
  StronglySorted ready_leb l /\ Forall (fun e => e.1 = node_key e.2) l.

Definition key_best (x y : nat) : Prop := ready_leb (node_key x, x) (node_key y, y) = true.

Lemma ready_push_eq i l :
  i < node_count g -> i ∉ l.*2 -> ready_push i l = insert_by ready_leb (node_key i, i) l.
Proof.
  intros Hi Hl. unfold ready_push, node_key. destruct (proj2 (law_weight g i) Hi) as [v ->].
  unfold btree_insert. rewrite decide_False; [done|]. intros Hin. apply Hl.
  apply list_elem_of_fmap. by exists (key_fn v, i).
Qed.

Lemma ready_push_sorted i l : i < node_count g -> ready_ok l -> ready_ok (ready_push i l).
Proof.
  intros Hi [Hs Hk]. unfold ready_push. destruct (node_weight g i) as [v|] eqn:Hv; [|done].
  unfold btree_insert. case_decide; [done|]. split.
  - apply insert_by_sorted; [apply ready_leb_total|apply ready_leb_trans|done].
  - rewrite insert_by_perm. constructor; [|done]. unfold node_key. simpl. by rewrite Hv.
Qed.

Lemma ready_collection : collection_ok (node_count g) snd ready_push ready_ok key_best.
Proof.
  split.
  - intros i l Hi Hl. rewrite ready_push_eq by done. by rewrite insert_by_perm.
  - apply ready_push_sorted.
  - intros e l [Hs Hk]. apply StronglySorted_inv in Hs as [? _]. by apply Forall_cons in Hk as [_ ?].
  - intros [k i] l [k' j] [Hs Hk] Hin. unfold key_best. simpl in *.
    apply StronglySorted_inv in Hs as [_ Hs]. apply Forall_cons in Hk as [Hki Hk]. simpl in Hki.
    rewrite Forall_forall in Hs, Hk. specialize (Hk _ Hin). simpl in Hk. subst.
    apply Is_true_true. by apply (Hs _ Hin).
Qed.

(** The set the loop starts with. *)
Lemma ready_start (c : nat -> bool) l ready :
  NoDup (l ++ ready.*2) -> (forall i, i ∈ l -> i < node_count g) -> ready_ok ready ->
  let r := fold_left (fun ready idx => if c idx then ready_push idx ready else ready) l ready in
  r.*2 ≡ₚ List.filter c l ++ ready.*2 /\ ready_ok r.
Proof.
  revert ready. induction l as [|i l IH]; intros ready Hnd Hlt Hok; cbn [fold_left List.filter]; [done|].
  apply NoDup_cons in Hnd as [Hi Hnd]. destruct (c i) eqn:Hc; [|apply IH; set_solver].
  assert ((ready_push i ready).*2 ≡ₚ i :: ready.*2) as Hp
    by (apply ready_collection; set_solver).
  destruct (IH (ready_push i ready)) as [Hr Hok'].
  - rewrite Hp, <-Permutation_middle. by constructor.
  - set_solver.
  - apply ready_push_sorted; [set_solver|done].
  - split; [|done]. rewrite Hr, Hp. by rewrite <-Permutation_middle.
Qed.
End ByKey.
End Graph.
