(* ===== verification/DagCycle.v ===== *)
(** The search for a cycle ([Dag::find_cycle_path]) returns a cycle of the graph
    whenever there is one; and what the sorts return: the nodes in an order that respects
    the edges, which for [toposort_by_key] the edges and the keys determine, or a cycle of
    the graph. *)

From S2P Require Import Prelude Storage Dag DagProps.
From stdpp Require Import sorting options.

(** A closed walk, its first node repeated at the end. *)
Definition is_cycle (es : list (nat * nat)) (c : list nat) : Prop :=
  exists x l, c = x :: l ++ [x] /\ walk es c.

(** ** The stack

    Each entry of the stack is the gray node it stands for, or a neighbour pushed by
    the nearest gray node below. *)
Abbreviation entry := (nat * bool)%type.

Definition grays (ents : list entry) : list nat :=
  omap (fun e : entry => if e.2 then Some e.1 else None) ents.

Lemma grays_cons x (b : bool) l : grays ((x, b) :: l) = if b then x :: grays l else grays l.
Proof. by destruct b. Qed.

Lemma grays_app l1 l2 : grays (l1 ++ l2) = grays l1 ++ grays l2.
Proof. apply omap_app. Qed.

Abbreviation pushed := (fmap (M := list) (fun x : nat => (x, false))).

Lemma grays_pushed ps : grays (pushed ps) = [].
Proof. induction ps as [|x ps IH]; [done|]. exact IH. Qed.

Lemma pushed_fst ps : (pushed ps).*1 = ps.
Proof. rewrite <-list_fmap_compose. apply list_fmap_id. Qed.

(** [P] of every entry, given what is above and below it. *)
Definition entries (P : list entry -> entry -> list entry -> Prop) (l : list entry) : Prop :=
  forall above e below, l = above ++ e :: below -> P above e below.

Lemma entries_cons (P : list entry -> entry -> list entry -> Prop) e l :
  P [] e l -> entries (fun above => P (e :: above)) l -> entries P (e :: l).
Proof. intros He Hl [|e' above] e'' below [= -> ->]; [done|by apply Hl]. Qed.

Lemma entries_inv (P : list entry -> entry -> list entry -> Prop) e l :
  entries P (e :: l) -> P [] e l /\ entries (fun above => P (e :: above)) l.
Proof. intros Hl. split; [by apply Hl|]. intros above e' below ->. by apply (Hl (e :: above)). Qed.

Lemma entries_impl (P Q : list entry -> entry -> list entry -> Prop) l :
  entries P l -> (forall above e below, e ∈ l -> P above e below -> Q above e below) -> entries Q l.
Proof. intros Hl Himp above e below ->. apply Himp; [set_solver|by apply Hl]. Qed.

Section Search.
Context (n : nat) (es : list (nat * nat)).

(** What holds of an entry for [x], gray when [b]. *)
Record entry_ok (color : gmap nat N) (parent : gmap nat nat) (above : list entry)
    (e : entry) (below : list entry) : Prop := {
  eo_node : e.1 < n;
  eo_fresh : e.1 ∉ grays below;
  eo_edge : forall p, head (grays below) = Some p -> (p, e.1) ∈ es;
  eo_gray : forall p, head (grays below) = Some p -> e.2 = true -> parent !! e.1 = Some p;
  eo_white : forall p, head (grays below) = Some p -> e.2 = false -> color_of color e.1 = 0%N ->
    e.1 ∈ above.*1 \/ parent !! e.1 = Some p;
  eo_next : e.2 = true -> forall t, (e.1, t) ∈ es -> color_of color t = 2%N \/ t ∈ above.*1
}.

(** The black nodes, the last finished first: successors were finished before. *)
Definition finished (color : gmap nat N) (fin : list nat) : Prop :=
  NoDup fin /\ (forall x, x ∈ fin <-> color_of color x = 2%N) /\
  forall l1 x l2, fin = l1 ++ x :: l2 -> forall t, (x, t) ∈ es -> t ∈ l2.

Record dfs_inv (color : gmap nat N) (parent : gmap nat nat) (ents : list entry) : Prop := {
  di_colors : forall x, color_of color x = 0%N \/ color_of color x = 1%N \/ color_of color x = 2%N;
  di_grays : forall x, color_of color x = 1%N <-> x ∈ grays ents;
  di_entries : entries (entry_ok color parent) ents;
  di_finished : exists fin, finished color fin
}.

Lemma color_of_insert color x c y :
  color_of (<[x := c]> color) y = if decide (x = y) then c else color_of color y.
Proof.
  unfold color_of. destruct (decide (x = y)) as [<-|Hne]; [by rewrite lookup_insert_eq|].
  by rewrite lookup_insert_ne.
Qed.

(** ** Popping *)

Lemma pop_entries color color' parent e l :
  entries (entry_ok color parent) (e :: l) ->
  color_of color' e.1 = 2%N ->
  (forall x, color_of color x = 2%N -> color_of color' x = 2%N) ->
  (forall x, color_of color' x = 0%N -> color_of color x = 0%N) ->
  entries (entry_ok color' parent) l.
Proof.
  intros [_ Hl]%entries_inv He H2 H0. eapply entries_impl; [exact Hl|].
  intros above [x b] below _ [? ? ? ? Hw Hn]. split; [done..| |].
  - intros p Hp Hb Hx. simpl in *. destruct (Hw p Hp Hb (H0 _ Hx)) as [Hin|]; [|by right].
    left. apply elem_of_cons in Hin as [->|]; [|done]. congruence.
  - intros Hb t Ht. destruct (Hn Hb t Ht) as [?|Hin]; [by left; auto|].
    simpl in Hin. apply elem_of_cons in Hin as [->|]; [by left|by right].
Qed.

Lemma pop_black color parent node b l :
  dfs_inv color parent ((node, b) :: l) -> color_of color node = 2%N -> dfs_inv color parent l.
Proof.
  intros [Hc Hg He Hf] H2. split; [done| |by eapply pop_entries|done].
  intros x. rewrite Hg, grays_cons. destruct b; [|done]. split; [|set_solver].
  intros Hx. assert (color_of color node = 1%N) as E; [|congruence].
  apply Hg. rewrite grays_cons. set_solver.
Qed.

Lemma pop_gray color parent node b l :
  dfs_inv color parent ((node, b) :: l) -> color_of color node = 1%N ->
  dfs_inv (<[node := 2%N]> color) parent l.
Proof.
  intros [Hc Hg He Hf] H1. pose proof He as [[_ Hfresh _ _ _ Hnext] _]%entries_inv. cbn [fst snd] in *.
  assert (b = true) as ->.
  { destruct b; [done|]. apply Hg in H1. by rewrite grays_cons in H1. }
  split.
  - intros x. rewrite color_of_insert. case_decide; auto.
  - intros x. rewrite color_of_insert. case_decide as Hx; [subst; split; done|].
    rewrite Hg, grays_cons, elem_of_cons. naive_solver.
  - eapply pop_entries; [exact He|simpl; rewrite color_of_insert; by rewrite decide_True|..];
      intros x; rewrite color_of_insert; by case_decide.
  - destruct Hf as (fin & Hnd & Hfin & Hord). exists (node :: fin). split_and!.
    + constructor; [|done]. rewrite Hfin. congruence.
    + intros x. rewrite elem_of_cons, Hfin, color_of_insert. case_decide; naive_solver.
    + intros [|y l1] x l2 [= -> ->] t Ht; [|by eapply Hord].
      apply Hfin. destruct (Hnext eq_refl t Ht) as [?|Hin]; [done|]. by apply elem_of_nil in Hin.
Qed.

(** ** Scanning the neighbours *)

(** [parent'] is [parent] with [node] for the nodes of [ps]. *)
Definition parents_set (node : nat) (ps : list nat) (parent parent' : gmap nat nat) : Prop :=
  (forall x, x ∈ ps -> parent' !! x = Some node) /\
  (forall x, x ∉ ps -> parent' !! x = parent !! x).

Lemma scan_spec fuel color node ns parent stack :
  match scan fuel color node ns parent stack with
  | inl c => exists ps parent' m, c = cycle_path fuel parent' m node /\
      parents_set node ps parent parent' /\ (forall x, x ∈ ps -> color_of color x = 0%N) /\
      m ∈ ns /\ color_of color m = 1%N
  | inr (parent', stack') => exists ps, stack' = ps ++ stack /\
      parents_set node ps parent parent' /\
      (forall x, x ∈ ps -> x ∈ ns /\ color_of color x = 0%N) /\
      (forall t, t ∈ ns -> t ∈ ps \/ (color_of color t <> 0%N /\ color_of color t <> 1%N)) /\
      length ps <= length ns
  end.
Proof.
  revert parent stack. induction ns as [|m ns IH]; intros parent stack; simpl.
  { exists []. split_and!; [done|by split; [intros ? ?%elem_of_nil|]|by intros ? ?%elem_of_nil..|simpl; lia]. }
  destruct (N.eqb_spec (color_of color m) 0) as [H0|H0].
  - specialize (IH (<[m := node]> parent) (m :: stack)).
    assert (forall ps parent', parents_set node ps (<[m := node]> parent) parent' ->
      parents_set node (ps ++ [m]) parent parent') as Hset.
    { intros ps parent' [Hin Hout]. split; intros x Hx.
      - destruct (decide (x ∈ ps)) as [|Hn]; [auto|]. rewrite (Hout x Hn).
        assert (x = m) as -> by set_solver. apply lookup_insert_eq.
      - rewrite Hout, lookup_insert_ne by set_solver. done. }
    destruct (scan fuel color node ns (<[m := node]> parent) (m :: stack)) as [c|[parent' stack']].
    + destruct IH as (ps & parent' & m' & -> & Hps & H & Hm' & H1).
      exists (ps ++ [m]), parent', m'. split_and!; [done|by apply Hset|set_solver..|done].
    + destruct IH as (ps & -> & Hps & H & Hall & Hl). exists (ps ++ [m]).
      split_and!; [by rewrite <-app_assoc|by apply Hset| | |rewrite length_app; simpl; lia].
      * intros x [Hx|Hx]%elem_of_app; [|set_solver]. destruct (H x Hx). set_solver.
      * intros t [->|Ht]%elem_of_cons; [set_solver|]. destruct (Hall t Ht); set_solver.
  - destruct (N.eqb_spec (color_of color m) 1) as [H1|H1].
    + exists [], parent, m. split_and!; [done|by split; [intros ? ?%elem_of_nil|]| |set_solver|done].
      by intros ? ?%elem_of_nil.
    + specialize (IH parent stack).
      destruct (scan fuel color node ns parent stack) as [c|[parent' stack']].
      * destruct IH as (ps & parent' & m' & ? & ? & ? & ? & ?). exists ps, parent', m'. set_solver.
      * destruct IH as (ps & ? & ? & H & Hall & Hl). exists ps. split_and!; [done|done| | |lia].
        -- intros x Hx. destruct (H x Hx). set_solver.
        -- intros t [->|Ht]%elem_of_cons; auto.
Qed.

(** ** The cycle *)

(** The gray nodes, the newest first: each was reached from the next. *)
Fixpoint gray_chain (parent : gmap nat nat) (gs : list nat) : Prop :=
  match gs with
  | x :: (p :: _) as gs => parent !! x = Some p /\ (p, x) ∈ es /\ gray_chain parent gs
  | _ => True
  end.

Lemma entries_gray_chain color parent (P : list entry -> list entry) ents :
  entries (fun above => entry_ok color parent (P above)) ents ->
  gray_chain parent (grays ents) /\ NoDup (grays ents) /\ Forall (fun x => x < n) (grays ents).
Proof.
  revert P. induction ents as [|[x b] l IH]; intros P Hl; [by repeat constructor|].
  apply entries_inv in Hl as [[Hx Hfresh Hedge Hpar _ _] Hl].
  apply (IH (fun above => P ((x, b) :: above))) in Hl as (Hc & Hnd & Hn).
  rewrite grays_cons. destruct b; [|done]. cbn [fst snd] in *.
  split_and!; [|by constructor..]. destruct (grays l) as [|p gs]; [done|]. simpl.
  split_and!; [by apply Hpar|by apply Hedge|done].
Qed.

Lemma gray_chain_parents parent parent' gs :
  gray_chain parent gs -> (forall x, x ∈ gs -> parent' !! x = parent !! x) -> gray_chain parent' gs.
Proof.
  induction gs as [|x [|p gs] IH]; [done..|]. intros (Hp & He & Hc) Hext.
  split_and!; [by rewrite Hext by set_solver|done|]. apply IH; [done|]. set_solver.
Qed.

Lemma walk_back_chain fuel parent pre m post node :
  gray_chain parent (pre ++ m :: post) -> m ∉ pre -> length pre <= fuel ->
  head (pre ++ m :: post) = Some node -> walk_back fuel parent m node = pre.
Proof.
  revert fuel node. induction pre as [|x pre IH]; intros fuel node Hc Hm Hf Hh; simpl in Hh.
  - simplify_eq. destruct fuel; simpl; by rewrite decide_True.
  - simplify_eq. destruct fuel as [|fuel]; [simpl in Hf; lia|]. simpl.
    rewrite decide_False by set_solver. f_equal. rewrite <-app_comm_cons in Hc.
    destruct (pre ++ m :: post) as [|p l] eqn:E; [by destruct pre|].
    destruct Hc as (-> & _ & Hc). apply IH; [done|set_solver|simpl in Hf; lia|done].
Qed.

Lemma walk_snoc l x y : walk es (l ++ [x]) -> (x, y) ∈ es -> walk es (l ++ [x; y]).
Proof.
  induction l as [|a l IH]; [done|]. intros Hw Hxy. destruct l as [|b l].
  - simpl in *. tauto.
  - destruct Hw as [Hab Hw]. split; [done|]. by apply IH.
Qed.

Lemma gray_chain_walk parent pre m post :
  gray_chain parent (pre ++ m :: post) -> walk es (m :: reverse pre).
Proof.
  induction pre as [|x pre IH]; intros Hc; [done|]. rewrite reverse_cons.
  assert (gray_chain parent (pre ++ m :: post) /\
    forall p, head (pre ++ m :: post) = Some p -> (p, x) ∈ es) as [Hc' He].
  { simpl in Hc. destruct (pre ++ m :: post) as [|p l]; [done|].
    destruct Hc as (_ & ? & ?). split; [done|]. by intros ? [= <-]. }
  specialize (IH Hc'). destruct pre as [|p pre].
  - simpl. split; [by apply He|done].
  - rewrite reverse_cons in *. rewrite <-app_assoc.
    apply (walk_snoc (m :: reverse pre) p x); [exact IH|]. by apply He.
Qed.

Lemma cycle_path_cycle fuel parent gs node m :
  gray_chain parent gs -> NoDup gs -> Forall (fun x => x < n) gs -> n <= fuel ->
  head gs = Some node -> m ∈ gs -> (node, m) ∈ es -> is_cycle es (cycle_path fuel parent m node).
Proof.
  intros Hc Hnd Hn Hf Hh [pre [post ->]]%list_elem_of_split Hnm.
  assert (m ∉ pre) as Hm by (apply NoDup_app in Hnd as (_ & Hd & _); set_solver).
  assert (length (pre ++ m :: post) <= n) as Hl.
  { apply bounded_length; [done|]. by apply Forall_forall. }
  rewrite length_app in Hl. unfold cycle_path.
  rewrite (walk_back_chain fuel parent pre m post node) by (done || (simpl in *; lia)).
  exists m, (reverse pre). rewrite reverse_cons, reverse_app. simpl. split; [done|].
  apply gray_chain_walk in Hc. destruct pre as [|x pre]; simpl in *; simplify_eq; [done|].
  rewrite reverse_cons in *. rewrite <-app_assoc.
  by apply (walk_snoc (m :: reverse pre)).
Qed.

(** ** Expanding a white node *)

Section Expand.
Context (color : gmap nat N) (parent parent' : gmap nat nat) (node : nat) (b : bool)
  (below : list entry) (ps : list nat).
Let color' := <[node := 1%N]> color.
Context (Hents : entries (entry_ok color parent) ((node, b) :: below)).
Context (Hwhite0 : color_of color node = 0%N).
Context (Hgrays : forall x, color_of color x = 1%N <-> x ∈ grays ((node, b) :: below)).
Context (Hparents : parents_set node ps parent parent').
Context (Hps : forall x, x ∈ ps -> (node, x) ∈ es /\ x < n /\ color_of color' x = 0%N).
Context (Hnext : forall t, (node, t) ∈ es -> t ∈ ps \/ color_of color' t = 2%N).
#[local] Set Default Proof Using "All".

Lemma expand_pending : b = false.
Proof.
  destruct b; [|done]. assert (color_of color node = 1%N); [|congruence].
  apply Hgrays. rewrite grays_cons. set_solver.
Qed.

Lemma expand_white x : color_of color' x = 0%N -> color_of color x = 0%N.
Proof. unfold color'. rewrite color_of_insert. by case_decide. Qed.

Lemma expand_black x : color_of color x = 2%N -> color_of color' x = 2%N.
Proof. intros Hx. unfold color'. rewrite color_of_insert. case_decide; [congruence|done]. Qed.

Lemma expand_gray x : x ∈ grays ((node, b) :: below) -> x ∉ ps.
Proof. intros Hx (_ & _ & E)%Hps. apply expand_white in E. apply Hgrays in Hx. congruence. Qed.

Lemma expand_node_entry : entry_ok color' parent' (pushed ps) (node, true) below.
Proof.
  pose proof Hents as [[? Hfr He _ Hw _] _]%entries_inv. pose proof Hparents as [_ Hout].
  split; cbn [fst snd] in *; [done|done|done| |done|].
  - intros p Hp _. destruct (Hw p Hp expand_pending Hwhite0) as [?%elem_of_nil|Hpar]; [done|].
    rewrite Hout; [done|]. intros (_ & _ & E)%Hps. unfold color' in E.
    by rewrite color_of_insert, decide_True in E.
  - intros _ t Ht. rewrite pushed_fst. destruct (Hnext t Ht); auto.
Qed.

Lemma expand_pushed_entry above x c k :
  pushed ps = above ++ (x, c) :: k ->
  entry_ok color' parent' above (x, c) (k ++ (node, true) :: below).
Proof.
  intros Hk. assert (x ∈ ps /\ c = false) as [Hx ->].
  { assert ((x, c) ∈ pushed ps) as (y & [= -> ->] & ?)%list_elem_of_fmap by (rewrite Hk; set_solver).
    done. }
  destruct (Hps x Hx) as (He & Hn & Hx0). pose proof Hparents as [Hin _].
  assert (grays (pushed ps) = []) as E by apply grays_pushed.
  rewrite Hk, grays_app in E. apply app_eq_nil in E as [_ E]. rewrite grays_cons in E.
  assert (grays (k ++ (node, true) :: below) = node :: grays below) as Hgr
    by by rewrite grays_app, E, grays_cons.
  split; cbn [fst snd] in *; rewrite ?Hgr; try done.
  - apply not_elem_of_cons. split.
    + intros ->. unfold color' in Hx0. by rewrite color_of_insert, decide_True in Hx0.
    + intros Hxg. apply (expand_gray x); [|done]. rewrite grays_cons. destruct b; set_solver.
  - by intros p [= <-].
  - intros p [= <-] _ _. right. by apply Hin.
Qed.

Lemma expand_old_entry k x c ents :
  below = k ++ (x, c) :: ents ->
  entry_ok color' parent' (pushed ps ++ (node, true) :: k) (x, c) ents.
Proof.
  intros Hk. pose proof Hparents as [_ Hout].
  destruct (Hents ((node, b) :: k) (x, c) ents ltac:(by rewrite Hk)) as [? Hfr He Hpar Hw Hnx].
  split; cbn [fst snd] in *; [done|done|done| | |].
  - intros p Hp ->. rewrite Hout; [by apply Hpar|]. apply expand_gray.
    rewrite grays_cons, Hk, grays_app, grays_cons. destruct b; set_solver.
  - intros p Hp -> Hx. rewrite fmap_app, pushed_fst. destruct (decide (x ∈ ps)); [set_solver|].
    rewrite Hout by done. destruct (Hw p Hp eq_refl (expand_white _ Hx)); set_solver.
  - intros -> t Ht. rewrite fmap_app, pushed_fst.
    destruct (Hnx eq_refl t Ht); [left; by apply expand_black|set_solver].
Qed.

Lemma expand_entries : entries (entry_ok color' parent') (pushed ps ++ (node, true) :: below).
Proof.
  intros above [x c] ents E. apply app_eq_inv in E as [(k & Hk & E)|(k & -> & E)]; last first.
  - destruct k as [|e k]; injection E.
    + intros Hb Hc Hx. subst x c ents. rewrite app_nil_r. apply expand_node_entry.
    + intros Hk He. subst e. by apply expand_old_entry.
  - destruct k as [|e k]; injection E.
    + intros Hb Hc Hx. subst x c ents. rewrite app_nil_r in Hk. rewrite <-Hk. apply expand_node_entry.
    + intros -> <-. by apply expand_pushed_entry.
Qed.
End Expand.

Lemma expand_inv color parent parent' node b below ps :
  let color' := <[node := 1%N]> color in
  dfs_inv color parent ((node, b) :: below) -> color_of color node = 0%N ->
  parents_set node ps parent parent' ->
  (forall x, x ∈ ps -> (node, x) ∈ es /\ x < n /\ color_of color' x = 0%N) ->
  (forall t, (node, t) ∈ es -> t ∈ ps \/ color_of color' t = 2%N) ->
  dfs_inv color' parent' (pushed ps ++ (node, true) :: below).
Proof.
  intros color' [Hc Hg He Hf] H0 Hset Hps Hnext. split.
  - intros x. unfold color'. rewrite color_of_insert. case_decide; auto.
  - intros x. rewrite grays_app, grays_pushed. simpl. unfold color'.
    rewrite color_of_insert, elem_of_cons. case_decide as E; [subst; tauto|].
    assert (b = false) as -> by (by eapply expand_pending). rewrite Hg, grays_cons. naive_solver.
  - by eapply expand_entries.
  - destruct Hf as (fin & Hnd & Hfin & Hord). exists fin. split_and!; [done| |done].
    intros x. rewrite Hfin. unfold color'. rewrite color_of_insert.
    case_decide; [subst; split; congruence|done].
Qed.
End Search.

(** ** Fuel *)

(** What white nodes may still push, and the stack. *)
Definition cost (n : nat) (es : list (nat * nat)) (color : gmap nat N) : nat :=
  sum_list_with (fun i => if (color_of color i =? 0)%N then S (length (successors es i)) else 0) (seq 0 n).

Lemma sum_list_with_le {A} (f g : A -> nat) l :
  (forall x, x ∈ l -> f x <= g x) -> sum_list_with f l <= sum_list_with g l.
Proof.
  induction l as [|x l IH]; intros Hfg; simpl; [lia|].
  specialize (Hfg x ltac:(set_solver)) as Hx. assert (forall y, y ∈ l -> f y <= g y) by set_solver.
  specialize (IH H). lia.
Qed.

Lemma sum_list_with_drop {A} (f g : A -> nat) l x :
  x ∈ l -> (forall y, y ∈ l -> g y <= f y) -> sum_list_with g l + f x <= sum_list_with f l + g x.
Proof.
  induction l as [|y l IH]; intros Hx Hle; [by apply elem_of_nil in Hx|]. simpl.
  apply elem_of_cons in Hx as [->|Hx].
  - assert (sum_list_with g l <= sum_list_with f l); [|lia].
    apply sum_list_with_le. set_solver.
  - specialize (Hle y ltac:(set_solver)) as Hy. specialize (IH Hx ltac:(set_solver)). lia.
Qed.

Lemma cost_expand n es color node c :
  node < n -> color_of color node = 0%N -> c <> 0%N ->
  cost n es (<[node := c]> color) + S (length (successors es node)) <= cost n es color.
Proof.
  intros Hn H0 Hc. unfold cost.
  pose proof (sum_list_with_drop
    (fun i => if (color_of color i =? 0)%N then S (length (successors es i)) else 0)
    (fun i => if (color_of (<[node := c]> color) i =? 0)%N then S (length (successors es i)) else 0)
    (seq 0 n) node) as Hd. cbv beta in Hd.
  rewrite H0, color_of_insert, decide_True in Hd by done.
  replace (c =? 0)%N with false in Hd by (symmetry; by apply N.eqb_neq). simpl in Hd.
  rewrite Nat.add_0_r in Hd. apply Hd; [apply elem_of_seq; lia|].
  intros i _. rewrite color_of_insert. case_decide; [|lia].
  destruct (N.eqb_spec c 0); [done|lia].
Qed.

Lemma successors_total n es : sum_list_with (fun i => length (successors es i)) (seq 0 n) <= length es.
Proof.
  induction es as [|[a b] es IH].
  - induction (seq 0 n); simpl in *; lia.
  - assert (forall l, NoDup l ->
      sum_list_with (fun i => length (successors ((a, b) :: es) i)) l <=
      (if decide (a ∈ l) then 1 else 0) + sum_list_with (fun i => length (successors es i)) l) as Hl.
    { intros l. induction l as [|i l IHl]; intros Hnd; [simpl; lia|].
      apply NoDup_cons in Hnd as [Hi Hnd]. specialize (IHl Hnd). cbn [sum_list_with].
      assert (length (successors ((a, b) :: es) i) =
        (if decide (a = i) then 1 else 0) + length (successors es i)) as ->
        by (unfold successors; simpl; by destruct (decide (a = i))).
      destruct (decide (a = i)) as [->|Hne].
      - rewrite decide_False in IHl by done. rewrite decide_True by set_solver. lia.
      - destruct (decide (a ∈ l)).
        + rewrite decide_True by set_solver. lia.
        + rewrite decide_False by set_solver. lia. }
    specialize (Hl (seq 0 n) (NoDup_seq 0 n)). cbn [length]. destruct (decide (a ∈ seq 0 n)); lia.
Qed.

Lemma cost_bound n es color : cost n es color <= n + length es.
Proof.
  unfold cost. pose proof (successors_total n es).
  assert (forall l, sum_list_with (fun i => if (color_of color i =? 0)%N then S (length (successors es i))
    else 0) l <= length l + sum_list_with (fun i => length (successors es i)) l) as Hl.
  { induction l as [|i l IH]; simpl; [lia|]. destruct (color_of color i =? 0)%N; lia. }
  specialize (Hl (seq 0 n)). rewrite length_seq in Hl. lia.
Qed.

(** ** The loop *)

Section Graph.
Context `{HCt : Countable T} `{HG : DiGraph T} `{!DiGraphLaws T} `{HDisp : Display T}.
Context (g : graph) (Hes : edges_ok g).
#[local] Set Default Proof Using "All".
Abbreviation es := (edge_references g).
Abbreviation n := (node_count g).

Lemma neighbors_successors i : neighbors_directed g i Outgoing ≡ₚ successors es i.
Proof. apply law_neighbors. Qed.

Lemma neighbors_edge i t : t ∈ neighbors_directed g i Outgoing <-> (i, t) ∈ es.
Proof. by rewrite neighbors_successors, elem_of_successors. Qed.

(** A gray neighbour closes a cycle. *)
Lemma cycle_found color parent parent' node b below ps m :
  dfs_inv n es color parent ((node, b) :: below) -> color_of color node = 0%N ->
  parents_set node ps parent parent' ->
  (forall x, x ∈ ps -> color_of color x = 0%N /\ x <> node) ->
  (node, m) ∈ es -> color_of (<[node := 1%N]> color) m = 1%N ->
  is_cycle es (cycle_path n parent' m node).
Proof.
  intros [_ Hg He _] H0 [_ Hout] Hps Hm Hm1.
  assert (b = false) as ->.
  { destruct b; [|done]. assert (color_of color node = 1%N); [|congruence].
    apply Hg. rewrite grays_cons. set_solver. }
  destruct (entries_gray_chain n es color parent id _ He) as (Hch & Hnd & Hlt).
  apply entries_inv in He as [[Hn Hfr Hedge _ Hw _] _]. rewrite grays_cons in *. cbn [fst snd] in *.
  eapply (cycle_path_cycle n es n parent' (node :: grays below)); [|by constructor|by constructor|done|done| |done].
  - apply (gray_chain_parents es parent).
    + destruct (grays below) as [|p gs]; [done|]. split_and!; [|by apply Hedge|done].
      destruct (Hw p eq_refl eq_refl H0) as [?%elem_of_nil|?]; done.
    + intros x Hx. apply Hout. intros [Hx0 Hxn]%Hps. apply elem_of_cons in Hx as [->|Hx]; [done|].
      apply Hg in Hx. congruence.
  - rewrite color_of_insert in Hm1. case_decide; [set_solver|]. apply Hg in Hm1. set_solver.
Qed.

(** Expanding a white node: a cycle, or the invariant again. *)
Lemma expand_step color parent node b below :
  dfs_inv n es color parent ((node, b) :: below) -> color_of color node = 0%N ->
  let color' := <[node := 1%N]> color in
  match scan n color' node (neighbors_directed g node Outgoing) parent (node :: below.*1) with
  | inl c => is_cycle es c
  | inr (parent', stack) => exists ps, stack = (pushed ps ++ (node, true) :: below).*1 /\
      dfs_inv n es color' parent' (pushed ps ++ (node, true) :: below) /\
      length ps <= length (successors es node)
  end.
Proof.
  intros Hinv H0 color'. pose proof Hinv as [Hc Hg He _].
  pose proof He as [[Hn _ _ _ _ _] _]%entries_inv. cbn [fst snd] in *.
  pose proof (scan_spec n color' node (neighbors_directed g node Outgoing) parent
    (node :: below.*1)) as Hs.
  destruct (scan _ _ _ _ _ _) as [c|[parent' stack]].
  - destruct Hs as (ps & parent' & m & -> & Hset & Hps & Hm & Hm1).
    apply neighbors_edge in Hm. apply (cycle_found color parent parent' node b below ps); try done.
    intros x Hx. specialize (Hps x Hx). unfold color' in Hps. rewrite color_of_insert in Hps.
    case_decide; [done|]. by split; [|congruence].
  - destruct Hs as (ps & -> & Hset & Hps & Hall & Hl). exists ps. split_and!.
    + by rewrite fmap_app, pushed_fst.
    + apply (expand_inv n es color parent parent' node b below ps); [done|done|done| |].
      * intros x Hx. destruct (Hps x Hx) as [Hx1 Hx0]. apply neighbors_edge in Hx1.
        destruct (Hes _ _ Hx1). done.
      * intros t Ht%neighbors_edge. destruct (Hall t Ht) as [|[Ht0 Ht1]]; [by left|right].
        unfold color' in *. rewrite color_of_insert in *. destruct (decide (node = t)); [done|].
        destruct (Hc t) as [?|[?|?]]; done.
    + by rewrite <-(Permutation_length (neighbors_successors node)).
Qed.

Lemma dfs_loop_result fuel color parent ents :
  dfs_inv n es color parent ents -> cost n es color + length ents < fuel ->
  exists r, dfs_loop fuel g color parent ents.*1 = Some r /\
    match r with
    | inl c => is_cycle es c
    | inr (color', parent') => dfs_inv n es color' parent' [] /\
        forall x, x ∈ ents.*1 \/ color_of color x = 2%N -> color_of color' x = 2%N
    end.
Proof.
  revert color parent ents. induction fuel as [|fuel IH]; intros color parent ents Hinv Hf; [lia|].
  destruct ents as [|[node b] below];
    [|change (((node, b) :: below).*1) with (node :: below.*1)]; cbn [dfs_loop fmap list_fmap].
  { eexists. split; [done|]. split; [done|]. intros x [?%elem_of_nil|]; done. }
  destruct (N.eqb_spec (color_of color node) 0) as [H0|H0].
  - pose proof (expand_step _ _ _ _ _ Hinv H0) as Hx. simpl in Hx.
    assert (node < n) as Hn by (destruct Hinv as [_ _ [[? _ _ _ _ _] _]%entries_inv _]; done).
    destruct (scan _ _ _ _ _ _) as [c|[parent' stack]]; [by eexists|].
    destruct Hx as (ps & -> & Hinv' & Hl).
    pose proof (cost_expand n es color node 1%N Hn H0 ltac:(done)) as Hc.
    destruct (IH _ _ _ Hinv') as (r & -> & Hr).
    { rewrite length_app, length_fmap. simpl in *. lia. }
    exists r. split; [done|]. destruct r as [c|[color' parent'']]; [done|].
    destruct Hr as [? Hr]. split; [done|]. intros x Hx. apply Hr.
    rewrite fmap_app, pushed_fst. simpl. destruct Hx as [Hx|Hx]; [left; set_solver|].
    right. rewrite color_of_insert. case_decide; [congruence|done].
  - destruct (N.eqb_spec (color_of color node) 1) as [H1|H1].
    + apply pop_gray in Hinv as Hinv'; [|done].
      assert (cost n es (<[node := 2%N]> color) <= cost n es color) as Hc.
      { apply sum_list_with_le. intros i _. rewrite color_of_insert.
        case_decide; [subst; simpl; lia|lia]. }
      destruct (IH _ _ _ Hinv') as (r & -> & Hr); [simpl in Hf; lia|].
      exists r. split; [done|]. destruct r as [c|[color' parent']]; [done|].
      destruct Hr as [? Hr]. split; [done|]. intros x Hx. apply Hr. rewrite color_of_insert.
      case_decide; [by right|]. destruct Hx as [[->|?]%elem_of_cons|?]; auto; done.
    + assert (color_of color node = 2%N) as H2.
      { destruct Hinv as [Hc _ _ _]. destruct (Hc node) as [?|[?|?]]; done. }
      apply pop_black in Hinv as Hinv'; [|done].
      destruct (IH _ _ _ Hinv') as (r & -> & Hr); [simpl in Hf; lia|].
      exists r. split; [done|]. destruct r as [c|[color' parent']]; [done|].
      destruct Hr as [? Hr]. split; [done|]. intros x Hx. apply Hr.
      destruct Hx as [[->|?]%elem_of_cons|?]; auto.
Qed.

Lemma dfs_inv_start (l : list nat) :
  dfs_inv n es (fold_left (fun m idx => <[idx := 0%N]> m) l ∅) ∅ [].
Proof.
  assert (forall m x, (forall y, color_of m y = 0%N) ->
    color_of (fold_left (fun m idx => <[idx := 0%N]> m) l m) x = 0%N) as Hl.
  { induction l as [|i l IH]; intros m x Hm; simpl; [done|]. apply IH. intros y.
    rewrite color_of_insert. by case_decide. }
  assert (forall x, color_of (fold_left (fun m idx => <[idx := 0%N]> m) l ∅) x = 0%N) as H0.
  { intros x. apply Hl. intros y. unfold color_of. by rewrite lookup_empty. }
  split.
  - intros x. by left.
  - intros x. rewrite H0. split; [done|by intros ?%elem_of_nil].
  - by intros [] ? ? ?.
  - exists []. split_and!; [constructor| |by intros [] ? ? ?].
    intros x. rewrite H0. split; [by intros ?%elem_of_nil|done].
Qed.

Lemma start_inv color parent start :
  dfs_inv n es color parent [] -> start < n -> color_of color start = 0%N ->
  dfs_inv n es color parent [(start, false)].
Proof.
  intros [Hc Hg _ Hf] Hn H0. split; [done|done| |done].
  apply entries_cons; [|by intros [] ? ? ?]. split; [done|apply not_elem_of_nil|done..].
Qed.

Lemma dfs_starts_result starts color parent :
  dfs_inv n es color parent [] -> (forall x, x ∈ starts -> x < n) ->
  match dfs_starts g starts color parent with
  | Some c => is_cycle es c
  | None => exists fin, finished es fin.1 fin.2 /\
      forall x, x ∈ starts \/ color_of color x = 2%N -> x ∈ fin.2
  end.
Proof.
  revert color parent. induction starts as [|start starts IH]; intros color parent Hinv Hlt; cbn [dfs_starts].
  { destruct Hinv as [_ _ _ [fin Hfin]]. exists (color, fin). split; [done|].
    intros x [?%elem_of_nil|Hx]; [done|]. by apply Hfin. }
  assert (forall x, x ∈ starts -> x < n) as Hlt' by set_solver.
  destruct (N.eqb_spec (color_of color start) 0) as [H0|H0]; cbn [negb].
  - destruct (dfs_loop_result (dfs_fuel g) color parent [(start, false)]) as (r & Hr & Hres).
    + apply start_inv; [done|apply Hlt; set_solver|done].
    + pose proof (cost_bound n es color). unfold dfs_fuel. simpl. lia.
    + change ([(start, false)].*1) with [start] in Hr, Hres. rewrite Hr. destruct r as [c|[color' parent']]; [done|].
      destruct Hres as [Hinv' Hb]. specialize (IH color' parent' Hinv' Hlt').
      destruct (dfs_starts g starts color' parent'); [done|].
      destruct IH as (fin & Hfin & Hin). exists fin. split; [done|].
      intros x [[->|?]%elem_of_cons|Hx]; apply Hin; [right; apply Hb; set_solver|by left|].
      right. apply Hb. by right.
  - specialize (IH color parent Hinv Hlt'). destruct (dfs_starts g starts color parent); [done|].
    destruct IH as (fin & Hfin & Hin). exists fin. split; [done|].
    intros x [[->|?]%elem_of_cons|Hx]; apply Hin; [|by left|by right].
    right. destruct Hinv as [Hc Hg _ _]. destruct (Hc start) as [?|[H1|?]]; [done| |done].
    apply Hg in H1. by apply elem_of_nil in H1.
Qed.

(** ** The search *)

Lemma finished_next fin color x y l1 l2 :
  finished es color fin -> tc (edge es) x y -> fin = l1 ++ x :: l2 -> y ∈ l2.
Proof.
  intros (_ & _ & Hord) Htc. revert l1 l2.
  induction Htc as [x y Hxy|x z y Hxz _ IH]; intros l1 l2 Heq; [by eapply Hord|].
  pose proof (Hord _ _ _ Heq _ Hxz) as (m1 & m2 & ->)%list_elem_of_split.
  rewrite app_comm_cons, app_assoc in Heq. specialize (IH _ _ Heq). set_solver.
Qed.

Lemma find_cycle_sound_complete :
  match find_cycle g with
  | Some c => is_cycle es c
  | None => ~ cyclic es
  end.
Proof.
  pose proof (dfs_starts_result (node_indices g)
    (fold_left (fun m idx => <[idx := 0%N]> m) (node_indices g) ∅) ∅) as Hs.
  unfold find_cycle. destruct (dfs_starts _ _ _ _) as [c|].
  - apply Hs; [apply dfs_inv_start|]. intros x Hx%elem_of_seq. lia.
  - destruct Hs as (fin & Hfin & Hin); [apply dfs_inv_start|intros x Hx%elem_of_seq; lia|].
    intros [x Hx]. assert (x < n) as Hxn.
    { inversion Hx as [? ? Ha|? ? ? Ha]; subst; by destruct (Hes _ _ Ha). }
    assert (x ∈ fin.2) as (l1 & l2 & Heq)%list_elem_of_split
      by (apply Hin; left; apply elem_of_seq; lia).
    pose proof (finished_next _ _ _ _ _ _ Hfin Hx Heq) as Hx2.
    destruct Hfin as (Hnd & _). rewrite Heq in Hnd. apply NoDup_app in Hnd as (_ & _ & Hnd).
    by apply NoDup_cons in Hnd as [? _].
Qed.
End Graph.

(** ** The sorts *)

(** Consecutive elements are related. *)
Fixpoint linked {A} (R : A -> A -> Prop) (l : list A) : Prop :=
  match l with
  | x :: (y :: _) as l => R x y /\ linked R l
  | _ => True
  end.

Definition closed_path {A} (R : A -> A -> Prop) (c : list A) : Prop :=
  exists x l, c = x :: l ++ [x] /\ linked R c.

(** [l] takes the elements of [dom] one at a time, each after the ones that must come
    before it, and always one with the least key. *)
Definition greedy {A} (dom : list A) (R : A -> A -> Prop) (key : A -> string) (l : list A) : Prop :=
  forall l1 x l2, l = l1 ++ x :: l2 ->
    x ∈ dom /\ (x ∉ l1) /\ (forall u, R u x -> u ∈ l1) /\
    forall y, y ∈ dom -> y ∉ l1 -> (forall u, R u y -> u ∈ l1) -> str_leb (key x) (key y) = true.

Lemma greedy_unique {A} (dom dom' : list A) (R R' : A -> A -> Prop) key l l' :
  (forall x, x ∈ dom <-> x ∈ dom') -> (forall u v, R u v <-> R' u v) ->
  (forall x y, x ∈ dom -> y ∈ dom -> key x = key y -> x = y) ->
  greedy dom R key l -> greedy dom' R' key l' -> length l = length l' -> l = l'.
Proof.
  intros Hdom HR Hkey Hl Hl' Hlen.
  assert (forall r r' p, l = p ++ r -> l' = p ++ r' -> length r = length r' -> r = r') as Hr;
    [|by apply (Hr l l' [])].
  induction r as [|x r IH]; intros [|y r'] p E E' Hlr; [done..|].
  destruct (Hl p x r E) as (Hx & Hxp & Hxu & Hxk). destruct (Hl' p y r' E') as (Hy & Hyp & Hyu & Hyk).
  assert (x = y) as <-.
  { apply Hkey; [done|by apply Hdom|]. apply str_leb_antisym.
    - apply Hxk; [by apply Hdom|done|]. intros u Hu. by apply Hyu, HR.
    - apply Hyk; [by apply Hdom|done|]. intros u Hu. by apply Hxu, HR. }
  f_equal. apply (IH r' (p ++ [x])); [by rewrite <-app_assoc..|by injection Hlr].
Qed.

Lemma greedy_iff {A} (dom dom' : list A) (R R' : A -> A -> Prop) key l :
  dom ≡ₚ dom' -> (forall u v, R u v <-> R' u v) -> greedy dom R key l -> greedy dom' R' key l.
Proof.
  intros Hd HR Hg l1 x l2 E. destruct (Hg l1 x l2 E) as (Hx & Hx1 & Hxu & Hbest).
  split_and!; [by rewrite <-Hd|done|intros u Hu; by apply Hxu, HR|].
  intros y Hy Hy1 Hyu. apply Hbest; [by rewrite Hd|done|]. intros u Hu. by apply Hyu, HR.
Qed.

Lemma greedy_nodup {A} (dom : list A) R key l : greedy dom R key l -> NoDup l.
Proof.
  intros Hg. apply NoDup_alt.
  assert (forall i j x, i < j -> l !! i = Some x -> l !! j = Some x -> False) as Hlt.
  { intros i j x Hij Hi Hj. destruct (Hg (take j l) x (drop (S j) l)) as (_ & Hn & _).
    { by rewrite take_drop_middle. }
    apply Hn, (list_elem_of_lookup_2 _ i). by rewrite lookup_take_lt. }
  intros i j x Hi Hj. destruct (Nat.lt_total i j) as [?|[?|?]]; [|done|]; exfalso; eauto.
Qed.

(** A list that respects a relation leaves no room for a cycle of it. *)
Lemma respects_no_cycle {A} (R : A -> A -> Prop) (l c : list A) :
  NoDup l -> (forall u v, R u v -> exists l1 l2, l = l1 ++ v :: l2 /\ u ∈ l1) -> ~ closed_path R c.
Proof.
  intros Hnd Hr (x & m & -> & Hc).
  assert (forall u v j, R u v -> l !! j = Some v -> exists i, i < j /\ l !! i = Some u) as Hstep.
  { intros u v j (l1 & l2 & Hl & [i Hi]%list_elem_of_lookup_1)%Hr Hj. exists i.
    pose proof (lookup_lt_Some _ _ _ Hi). assert (l !! length l1 = Some v) as Hv
      by (rewrite Hl; by apply list_lookup_middle).
    rewrite (NoDup_lookup _ _ _ _ Hnd Hj Hv). split; [done|]. rewrite Hl. by apply lookup_app_l_Some. }
  assert (forall m x y j, linked R (x :: m ++ [y]) -> l !! j = Some y ->
    exists i, i < j /\ l !! i = Some x) as Hpos.
  { clear - Hstep. induction m as [|z m IH]; intros x y j [Hxz Hl] Hj; [by eapply Hstep|].
    destruct (IH _ _ _ Hl Hj) as (i & Hi & Hz). destruct (Hstep _ _ _ Hxz Hz) as (k & Hk & Hx).
    exists k. split; [lia|done]. }
  assert (x ∈ l) as [j Hj]%list_elem_of_lookup_1.
  { assert (forall m y, linked R (y :: m ++ [x]) -> exists z, R z x) as Hlast.
    { clear. induction m as [|z m IH]; intros y [Hyz Hl]; [by exists y|by apply (IH z)]. }
    destruct (Hlast _ _ Hc) as (y & (l1 & l2 & -> & _)%Hr). set_solver. }
  destruct (Hpos _ _ _ _ Hc Hj) as (i & Hij & Hi). pose proof (NoDup_lookup _ _ _ _ Hnd Hi Hj). lia.
Qed.

Section Sort.
Context `{HCt : Countable T} `{HG : DiGraph T} `{!DiGraphLaws T} `{HDisp : Display T}.
Implicit Types (g : graph) (dag : Dag T).
#[local] Set Default Proof Using "Type*".

(** The graphs a program can build. *)
Inductive built : Dag T -> Prop :=
  | built_new : built dag_new
  | built_node dag v : built dag -> built (add_node dag v).2
  | built_edge dag a b dag' : built dag -> add_edge dag a b = Ok dag' -> built dag'.

Record dag_wf dag : Prop := {
  dw_edges : edges_ok (dag_graph dag);
  dw_order : dag_insertion_order dag = node_indices (dag_graph dag);
  dw_index : forall v i, dag_index_map dag !! v = Some i <-> node_weight (dag_graph dag) i = Some v
}.

Lemma weight_lt g i v : node_weight g i = Some v -> i < node_count g.
Proof. intros Hv. apply law_weight. by eexists. Qed.

Lemma built_wf dag : built dag -> dag_wf dag.
Proof.
  induction 1 as [|dag v _ [He Ho Hi]|dag a b dag' _ [He Ho Hi] Hadd].
  - destruct law_new as [Hn Hne]. split; simpl.
    + intros a b Hab. rewrite Hne in Hab. by apply elem_of_nil in Hab.
    + unfold node_indices. by rewrite Hn.
    + intros v i. rewrite lookup_empty. split; [done|]. intros Hv%weight_lt. lia.
  - unfold add_node. destruct (dag_index_map dag !! v) as [i|] eqn:Hv; [done|].
    pose proof (law_add_node (dag_graph dag) v) as Hl.
    destruct (graph_add_node (dag_graph dag) v) as [i g]. destruct Hl as (-> & Hn & Hed & Hw & Hw').
    split; simpl.
    + intros a b Hab. rewrite Hed in Hab. destruct (He _ _ Hab). lia.
    + rewrite Ho. unfold node_indices. by rewrite Hn, seq_S.
    + intros u i. destruct (decide (u = v)) as [->|Hne].
      * rewrite lookup_insert_eq. split; [by intros [= <-]|]. intros Hi'.
        destruct (decide (i = node_count (dag_graph dag))) as [->|Hin]; [done|].
        rewrite Hw' in Hi' by done. apply Hi in Hi'. congruence.
      * rewrite lookup_insert_ne by done. rewrite Hi.
        destruct (decide (i = node_count (dag_graph dag))) as [->|Hin]; [|by rewrite Hw'].
        rewrite Hw. split; [intros ?%weight_lt; lia|congruence].
  - unfold add_edge in Hadd. destruct (node_weight _ a) as [va|] eqn:Ha; [|done].
    destruct (node_weight _ b) as [vb|] eqn:Hb; [|done]. simplify_eq.
    apply weight_lt in Ha, Hb. destruct (law_add_edge (dag_graph dag) a b Ha Hb) as (Hn & Hed & Hw).
    split; simpl.
    + intros c d. rewrite Hed, elem_of_cons, Hn. intros [[= -> ->]|Hcd]; [done|by apply He].
    + rewrite Ho. unfold node_indices. by rewrite Hn.
    + intros v i. by rewrite Hw.
Qed.

(** The values of a graph, and the edges between them. *)
Definition nodes dag : list T := values (dag_graph dag) (node_indices (dag_graph dag)).

Definition dag_edge dag (u v : T) : Prop :=
  exists i j, node_weight (dag_graph dag) i = Some u /\ node_weight (dag_graph dag) j = Some v /\
    (i, j) ∈ edge_references (dag_graph dag).

Section Values.
Context (dag : Dag T) (Hwf : dag_wf dag).
Abbreviation g := (dag_graph dag).
#[local] Set Default Proof Using "All".

Lemma weight_inj i j v : node_weight g i = Some v -> node_weight g j = Some v -> i = j.
Proof. intros Hi%(dw_index _ Hwf) Hj%(dw_index _ Hwf). congruence. Qed.

Lemma elem_of_values v l : v ∈ values g l <-> exists i, i ∈ l /\ node_weight g i = Some v.
Proof. apply list_elem_of_omap. Qed.

Lemma elem_of_values_weight v i l : node_weight g i = Some v -> (v ∈ values g l <-> i ∈ l).
Proof.
  intros Hi. rewrite elem_of_values. split; [|by eauto].
  intros (j & Hj & Hv). by rewrite (weight_inj _ _ _ Hi Hv).
Qed.

Lemma elem_of_nodes v : v ∈ nodes dag <-> exists i, node_weight g i = Some v.
Proof.
  unfold nodes. rewrite elem_of_values. split; [naive_solver|].
  intros [i Hi]. exists i. split; [|done]. apply elem_of_seq. apply weight_lt in Hi. lia.
Qed.

Lemma values_nodup l : NoDup l -> NoDup (values g l).
Proof.
  induction 1 as [|i l Hi _ IH]; [constructor|]. destruct (node_weight g i) as [v|] eqn:Hv.
  - rewrite (values_cons _ _ _ _ Hv). constructor; [|done]. by rewrite (elem_of_values_weight _ _ _ Hv).
  - unfold values in *. simpl. by rewrite Hv.
Qed.

Lemma values_split l l1 x l2 :
  values g l = l1 ++ x :: l2 -> exists f1 i f2, l = f1 ++ i :: f2 /\ values g f1 = l1 /\
    node_weight g i = Some x.
Proof.
  revert l1. induction l as [|i l IH]; intros l1 E; [by destruct l1|].
  destruct (node_weight g i) as [v|] eqn:Hv.
  - rewrite (values_cons _ _ _ _ Hv) in E. destruct l1 as [|y l1]; injection E as Evx E.
    + subst v. by exists [], i, l.
    + subst v. destruct (IH _ E) as (f1 & j & f2 & -> & <- & Hj). exists (i :: f1), j, f2.
      split_and!; [done|by rewrite (values_cons _ _ _ _ Hv)|done].
  - unfold values in E at 1. simpl in E. rewrite Hv in E.
    destruct (IH _ E) as (f1 & j & f2 & -> & <- & Hj). exists (i :: f1), j, f2.
    split_and!; [done|unfold values; simpl; by rewrite Hv|done].
Qed.

(** Predecessors by value and by index. *)
Lemma available_values l y j :
  node_weight g j = Some y ->
  (available (node_count g) (edge_references g) l j <->
   (y ∉ values g l) /\ forall u, dag_edge dag u y -> u ∈ values g l).
Proof.
  intros Hj. unfold available. rewrite (elem_of_values_weight _ _ _ Hj). split.
  - intros (_ & Hl & Hs). split; [done|]. intros u (i & j' & Hi & Hj' & Hij).
    rewrite (weight_inj _ _ _ Hj' Hj) in Hij. apply elem_of_values. eauto.
  - intros [Hl Hs]. split_and!; [by eapply weight_lt|done|]. intros s Hsj.
    destruct (dw_edges _ Hwf _ _ Hsj) as [Hsn _]. destruct (proj2 (law_weight g s) Hsn) as [u Hu].
    rewrite <-(elem_of_values_weight _ _ _ Hu). apply Hs. by exists s, j.
Qed.

Lemma picks_greedy key fin :
  picks (node_count g) (edge_references g) (key_best key g) fin ->
  greedy (nodes dag) (dag_edge dag) key (values g fin).
Proof.
  intros Hp l1 x l2 E. apply values_split in E as (f1 & i & f2 & Hf & <- & Hi).
  destruct (Hp _ _ _ Hf) as [Hav Hbest]. apply (available_values _ _ _ Hi) in Hav as [Hx Hu].
  split_and!; [apply elem_of_nodes; by eauto|done|done|].
  intros y [j Hj]%elem_of_nodes Hy Hyu.
  destruct (Hbest j) as [->|Hb]; [by apply (available_values _ _ _ Hj)| |].
  - simplify_eq. apply str_leb_refl.
  - unfold key_best, ready_leb, node_key in Hb. simpl in Hb. rewrite Hi, Hj in Hb.
    case_decide as E; [rewrite E; apply str_leb_refl|done].
Qed.

Lemma picks_respects best fin u v :
  picks (node_count g) (edge_references g) best fin -> fin ≡ₚ node_indices g -> dag_edge dag u v ->
  exists l1 l2, values g fin = l1 ++ v :: l2 /\ u ∈ l1.
Proof.
  intros Hp Hperm (i & j & Hi & Hj & Hij).
  assert (j ∈ fin) as (f1 & f2 & ->)%list_elem_of_split.
  { rewrite Hperm. apply elem_of_seq. apply weight_lt in Hj. lia. }
  destruct (Hp _ _ _ eq_refl) as [(_ & _ & Hs) _]. exists (values g f1), (values g f2).
  split; [|apply elem_of_values; by eauto].
  unfold values. rewrite omap_app. simpl. by rewrite Hj.
Qed.

(** A cycle of indices, by name. *)
Lemma cycle_values c :
  is_cycle (edge_references g) c ->
  closed_path (dag_edge dag) (values g c) /\
  omap (fun idx => to_string <$> node_weight g idx) c = to_string <$> values g c.
Proof.
  intros (x & l & -> & Hw). split.
  - assert (forall c, walk (edge_references g) c -> linked (dag_edge dag) (values g c)) as Hl.
    { induction c as [|a [|b c] IH]; [done|intros _; unfold values; simpl; by destruct (node_weight g a)|].
      intros [Hab Hc]%walk_cons. destruct (dw_edges _ Hwf _ _ Hab) as [Ha Hb].
      destruct (proj2 (law_weight g a) Ha) as [va Hva], (proj2 (law_weight g b) Hb) as [vb Hvb].
      specialize (IH Hc). rewrite (values_cons _ _ _ _ Hva), (values_cons _ _ _ _ Hvb) in *.
      split; [by exists a, b|done]. }
    specialize (Hl _ Hw). assert (x < node_count g) as Hx.
    { destruct l as [|y l]; destruct Hw as [Hxy _]; by destruct (dw_edges _ Hwf _ _ Hxy). }
    destruct (proj2 (law_weight g x) Hx) as [v Hv].
    rewrite (values_cons _ _ _ _ Hv), (values_snoc _ _ _ _ Hv) in *. by exists v, (values g l).
  - generalize (x :: l ++ [x]). intros c. induction c as [|i c IH]; [done|].
    destruct (node_weight g i) as [v|] eqn:Hv.
    + rewrite (values_cons _ _ _ _ Hv). simpl. rewrite Hv. simpl. f_equal. exact IH.
    + unfold values in *. simpl. rewrite Hv. exact IH.
Qed.

Lemma find_cycle_path_cycle :
  cyclic (edge_references g) ->
  exists c, find_cycle_path dag = CycleDetected (to_string <$> c) /\ closed_path (dag_edge dag) c.
Proof.
  intros Hc. pose proof (find_cycle_sound_complete g (dw_edges _ Hwf)) as Hs. unfold find_cycle_path.
  destruct (find_cycle g) as [c|]; [|done]. destruct (cycle_values c Hs) as [Hp ->].
  by exists (values g c).
Qed.

(** The run of [toposort_by_key]. *)
Lemma toposort_by_key_run key :
  exists fin,
    picks (node_count g) (edge_references g) (key_best key g) fin /\
    length (values g fin) = length fin /\
    toposort_by_key key dag =
      (if decide (length fin = node_count g) then Ok (values g fin) else Err (find_cycle_path dag)) /\
    if decide (length fin = node_count g)
    then fin ≡ₚ node_indices g /\ ~ cyclic (edge_references g)
    else cyclic (edge_references g).
Proof.
  unfold toposort_by_key. destruct (Nat.eqb_spec (node_count g) 0) as [Hn|Hn].
  { exists []. split_and!; [by intros []|done|..]; rewrite decide_True by done; [done|].
    unfold node_indices. rewrite Hn. split; [done|]. intros [x Hx].
    inversion Hx as [? ? Ha|? ? ? Ha]; subst; destruct (dw_edges _ Hwf _ _ Ha); lia. }
  destruct (ready_start key g (fun idx => default 0 (in_degrees g !! idx) =? 0) (node_indices g) [])
    as [Hr Hok].
  - rewrite app_nil_r. apply NoDup_seq.
  - intros i Hi%elem_of_seq. lia.
  - split; constructor.
  - destruct (kahn_sorts snd (ready_push key g) (ready_ok key g) (key_best key g) id g
      (ready_collection key g) ltac:(done) (dw_edges _ Hwf) _
      ltac:(rewrite Hr, app_nil_r; apply NoDup_ListNoDup, List.NoDup_filter, NoDup_ListNoDup, NoDup_seq) Hok)
      as (fin & deg & Hk & Hlen & Hp & Hend).
    { intros i. rewrite Hr, app_nil_r, list_elem_of_In, filter_In, Nat.eqb_eq, <-list_elem_of_In.
      unfold node_indices. rewrite elem_of_seq. naive_solver lia. }
    exists fin. split_and!; [done|done| |done].
    unfold ready_push in Hk. rewrite Hk, Hlen.
    destruct (Nat.eqb_spec (length fin) (node_count g)) as [E|E]; simpl.
    + by rewrite decide_True.
    + by rewrite decide_False.
Qed.
End Values.

Lemma nodes_perm dag fin : fin ≡ₚ node_indices (dag_graph dag) -> values (dag_graph dag) fin ≡ₚ nodes dag.
Proof. intros Hp. unfold nodes, values. by rewrite Hp. Qed.

(** Everything [toposort_by_key] promises, in one place. *)
Lemma toposort_by_key_spec key dag :
  built dag ->
  match toposort_by_key key dag with
  | Ok l => l ≡ₚ nodes dag /\ greedy (nodes dag) (dag_edge dag) key l /\
      (forall u v, dag_edge dag u v -> exists l1 l2, l = l1 ++ v :: l2 /\ u ∈ l1)
  | Err e => exists c, e = CycleDetected (to_string <$> c) /\ closed_path (dag_edge dag) c
  end.
Proof.
  intros Hb%built_wf. destruct (toposort_by_key_run dag Hb key) as (fin & Hp & Hlen & -> & Hend).
  case_decide.
  - destruct Hend as [Hperm _]. split_and!; [by apply nodes_perm|by apply picks_greedy|].
    intros u v. by eapply picks_respects.
  - destruct (find_cycle_path_cycle dag Hb Hend) as (c & -> & Hc). eauto.
Qed.

(** The sort is the only greedy order, so that the insertions' order does not matter. *)
Lemma toposort_by_key_greedy key dag l :
  built dag -> (forall x y, x ∈ nodes dag -> y ∈ nodes dag -> key x = key y -> x = y) ->
  greedy (nodes dag) (dag_edge dag) key l -> l ≡ₚ nodes dag -> toposort_by_key key dag = Ok l.
Proof.
  intros Hb Hk Hg Hp. pose proof (toposort_by_key_spec key dag Hb) as Hs.
  destruct (toposort_by_key key dag) as [l'|e].
  - destruct Hs as (Hp' & Hg' & _). f_equal.
    eapply (greedy_unique (nodes dag) (nodes dag)); [done|done|exact Hk|done..|by rewrite Hp, Hp'].
  - exfalso. destruct Hs as (c & _ & Hc).
    eapply (respects_no_cycle (dag_edge dag) l c); [by eapply greedy_nodup| |done].
    intros u v Huv. assert (v ∈ l) as (l1 & l2 & ->)%list_elem_of_split.
    { destruct Huv as (i & j & _ & Hj & _). rewrite Hp.
      unfold nodes, values. apply list_elem_of_omap. exists j. split; [|done].
      apply elem_of_seq. apply weight_lt in Hj. lia. }
    exists l1, l2. split; [done|]. by apply (Hg l1 v l2).
Qed.

(** [toposort]: the same without the keys; only one node is named on a cycle. *)
Lemma toposort_spec dag :
  built dag ->
  match toposort dag with
  | Ok l => l ≡ₚ nodes dag /\
      (forall u v, dag_edge dag u v -> exists l1 l2, l = l1 ++ v :: l2 /\ u ∈ l1)
  | Err e => (exists c, closed_path (dag_edge dag) c) /\ exists name, e = CycleDetected [name]
  end.
Proof.
  intros Hb%built_wf. unfold toposort.
  destruct (Nat.eqb_spec (node_count (dag_graph dag)) 0) as [Hn|Hn].
  { unfold nodes, node_indices. rewrite Hn. split; [done|]. intros u v (i & j & Hi%weight_lt & _). lia. }
  assert (collection_ok (node_count (dag_graph dag)) id (fun n queue => queue ++ [n])
    (fun _ => True) (fun _ _ => True)) as Hcol.
  { split; [|done..]. intros i l _ _. rewrite !list_fmap_id. by rewrite <-Permutation_cons_append. }
  destruct (kahn_sorts id _ _ _ (sort_by_insertion dag) (dag_graph dag) Hcol
    ltac:(intros l; apply sort_by_perm) (dw_edges _ Hb)
    (List.filter (fun idx => default 0 (in_degrees (dag_graph dag) !! idx) =? 0)
       (dag_insertion_order dag))) as (fin & deg & Hk & Hlen & Hp & Hend).
  - rewrite list_fmap_id, (dw_order _ Hb).
    apply NoDup_ListNoDup, List.NoDup_filter, NoDup_ListNoDup, NoDup_seq.
  - done.
  - intros i. rewrite list_fmap_id, list_elem_of_In, filter_In, Nat.eqb_eq, <-list_elem_of_In.
    rewrite (dw_order _ Hb). unfold node_indices. rewrite elem_of_seq. naive_solver lia.
  - rewrite Hk, Hlen.
    destruct (Nat.eqb_spec (length fin) (node_count (dag_graph dag))) as [E|E]; simpl.
    + rewrite decide_True in Hend by done. destruct Hend as [Hperm _].
      split; [by apply nodes_perm|]. intros u v. by eapply picks_respects.
    + rewrite decide_False in Hend by done. split; [|by eexists].
      destruct (find_cycle_path_cycle dag Hb Hend) as (c & _ & Hc). eauto.
Qed.
End Sort.
