(* ===== verification/Canonical.v ===== *)
(** Canonical encodings: partition keys ([crates/arco-core/src/partition.rs]) and
    canonical JSON ([crates/arco-core/src/canonical_json.rs]). *)

From S2P Require Import Prelude Storage Events.
From stdpp Require Import options.

(** ** Base64 and UTF-8 *)

(** [URL_SAFE_NO_PAD] of the base64 crate. *)
Class Base64 := {
  b64_encode : string -> string;
  b64_decode : string -> option string
}.

(** Decoding inverts encoding, and the URL-safe alphabet has no comma. *)
Class Base64Laws `{Base64} := {
  b64_roundtrip s : b64_decode (b64_encode s) = Some s;
  b64_alphabet s : str_contains "," (b64_encode s) = false
}.

Definition byte_in (lo hi : N) (c : ascii) : bool := (lo <=? N_of_ascii c)%N && (N_of_ascii c <=? hi)%N.

Definition continuation : ascii -> bool := byte_in 128 191.

(** [String::from_utf8]: is the byte string well formed? *)
Fixpoint utf8_valid (s : string) : bool :=
  match s with
  | EmptyString => true
  | String a s1 =>
      if byte_in 0 127 a then utf8_valid s1
      else
        match s1 with
        | EmptyString => false
        | String b s2 =>
            if byte_in 194 223 a then continuation b && utf8_valid s2
            else
              match s2 with
              | EmptyString => false
              | String c s3 =>
                  if byte_in 224 239 a then
                    (if byte_in 224 224 a then byte_in 160 191 b
                     else if byte_in 237 237 a then byte_in 128 159 b
                     else continuation b) && continuation c && utf8_valid s3
                  else
                    match s3 with
                    | EmptyString => false
                    | String d s4 =>
                        byte_in 240 244 a &&
                        (if byte_in 240 240 a then byte_in 144 191 b
                         else if byte_in 244 244 a then byte_in 128 143 b
                         else continuation b) && continuation c && continuation d && utf8_valid s4
                    end
              end
        end
  end.

(** ** Partition keys *)

Inductive ScalarValue :=
  | SString (s : string)
  | SInt64 (n : i64)
  | SBoolean (b : bool)
  | SDate (d : string)
  | STimestamp (ts : string)
  | SNull.

#[export] Instance scalar_value_eq_dec : EqDecision ScalarValue.
Proof. solve_decision. Defined.

Section Scalar.
Context `{Base64}.

Definition canonical_repr (v : ScalarValue) : string :=
  match v with
  | SString s => "s:" +:+ b64_encode s
  | SInt64 n => "i:" +:+ pretty n
  | SBoolean b => "b:" +:+ (if b then "true" else "false")
  | SDate d => "d:" +:+ d
  | STimestamp ts => "t:" +:+ ts
  | SNull => "n:null"
  end.
End Scalar.

Definition type_rank (v : ScalarValue) : N :=
  match v with
  | SNull => 0 | SBoolean _ => 1 | SInt64 _ => 2 | SString _ => 3 | SDate _ => 4 | STimestamp _ => 5
  end.

Definition bool_compare (a b : bool) : comparison :=
  match a, b with false, true => Lt | true, false => Gt | _, _ => Eq end.

Definition scalar_compare (a b : ScalarValue) : comparison :=
  match (type_rank a ?= type_rank b)%N with
  | Eq =>
      match a, b with
      | SBoolean x, SBoolean y => bool_compare x y
      | SInt64 x, SInt64 y => (x ?= y)%Z
      | SString x, SString y | SDate x, SDate y | STimestamp x, STimestamp y => String.compare x y
      | _, _ => Eq
      end
  | o => o
  end.

(** [BTreeMap<String, ScalarValue>], as its entries in order. *)
Definition PartitionKey : Type := list (string * ScalarValue).

Definition partition_key_new : PartitionKey := [].

Fixpoint pk_insert (key : string) (value : ScalarValue) (pk : PartitionKey) : PartitionKey :=
  match pk with
  | [] => [(key, value)]
  | (k, v) :: pk =>
      match String.compare key k with
      | Lt => (key, value) :: (k, v) :: pk
      | Eq => (key, value) :: pk
      | Gt => (k, v) :: pk_insert key value pk
      end
  end.

Fixpoint pk_get (pk : PartitionKey) (key : string) : option ScalarValue :=
  match pk with
  | [] => None
  | (k, v) :: pk => if decide (k = key) then Some v else pk_get pk key
  end.

Section Partition.
Context `{Base64}.

Definition dimension (e : string * ScalarValue) : string := e.1 +:+ "=" +:+ canonical_repr e.2.

Definition pk_canonical_string (pk : PartitionKey) : string := join "," (dimension <$> pk).

Definition partition_key_compare (a b : PartitionKey) : comparison :=
  String.compare (pk_canonical_string a) (pk_canonical_string b).
End Partition.

Inductive PartitionKeyParseError :=
  | MissingEquals (s : string)
  | InvalidKey (s : string)
  | MissingTypePrefix (s : string)
  | UnknownType (s : string)
  | InvalidBool (s : string)
  | InvalidInt (s : string)
  | InvalidBase64 (s : string)
  | InvalidUtf8 (s : string)
  | InvalidDate (s : string)
  | InvalidTimestamp (s : string)
  | InvalidNull (s : string)
  | DuplicateKey (s : string).

(** [s.parse::<u8>()] and [s.parse::<u16>()], whose maximum is [max]: a sign [+] is
    accepted. *)
Definition parse_unsigned (max : N) (s : string) : option N :=
  let body := match s with String "+" r => r | _ => s end in
  n ← parse_digits body; if (n <=? max)%N then Some n else None.

Definition in_range (lo hi : N) (o : option N) : option N :=
  n ← o; if (lo <=? n)%N && (n <=? hi)%N then Some n else None.

Definition is_valid_date_format (s : string) : bool :=
  if negb (String.length s =? 10) then false
  else if negb (bool_decide (String.get 4 s = Some "-"%char))
          || negb (bool_decide (String.get 7 s = Some "-"%char)) then false
  else
    match in_range 1970 65535 (parse_unsigned 65535 (String.substring 0 4 s)),
          in_range 1 12 (parse_unsigned 255 (String.substring 5 2 s)),
          in_range 1 31 (parse_unsigned 255 (String.substring 8 2 s)) with
    | Some _, Some month, Some day =>
        if (month =? 2)%N then (day <=? 29)%N
        else if (month =? 4)%N || (month =? 6)%N || (month =? 9)%N || (month =? 11)%N
        then (day <=? 30)%N
        else true
    | _, _, _ => false
    end.

Definition is_digit (c : ascii) : bool := bool_decide (is_Some (digit_value c)).

Fixpoint str_forall (f : ascii -> bool) (s : string) : bool :=
  match s with EmptyString => true | String c s => f c && str_forall f s end.

Definition char_at (i : nat) (c : ascii) (s : string) : bool := bool_decide (String.get i s = Some c).

Definition is_valid_timestamp_format (s : string) : bool :=
  if negb (String.length s =? 27) || negb (char_at 26 "Z" s) then false
  else if negb (char_at 4 "-" s) || negb (char_at 7 "-" s) || negb (char_at 10 "T" s)
          || negb (char_at 13 ":" s) || negb (char_at 16 ":" s) || negb (char_at 19 "." s) then false
  else if negb (is_valid_date_format (String.substring 0 10 s)) then false
  else
    match in_range 0 23 (parse_unsigned 255 (String.substring 11 2 s)),
          in_range 0 59 (parse_unsigned 255 (String.substring 14 2 s)),
          in_range 0 59 (parse_unsigned 255 (String.substring 17 2 s)) with
    | Some _, Some _, Some _ => str_forall is_digit (String.substring 20 6 s)
    | _, _, _ => false
    end.

Definition key_char (c : ascii) : bool := byte_in 97 122 c || is_digit c || bool_decide (c = "_"%char).

(** A letter, then letters, digits and underscores. *)
Definition valid_key (key : string) : bool :=
  match key with
  | EmptyString => false
  | String c _ => byte_in 97 122 c && str_forall key_char key
  end.

Section Parse.
Context `{Base64}.

Definition parse_scalar (type_prefix value_part : string) :
    result PartitionKeyParseError ScalarValue :=
  if decide (type_prefix = "n") then
    if decide (value_part <> "null") then Err (InvalidNull value_part) else Ok SNull
  else if decide (type_prefix = "b") then
    if decide (value_part = "true") then Ok (SBoolean true)
    else if decide (value_part = "false") then Ok (SBoolean false)
    else Err (InvalidBool value_part)
  else if decide (type_prefix = "i") then
    match parse_i64 value_part with
    | Some n => Ok (SInt64 n)
    | None => Err (InvalidInt value_part)
    end
  else if decide (type_prefix = "s") then
    match b64_decode value_part with
    | None => Err (InvalidBase64 value_part)
    | Some bytes => if utf8_valid bytes then Ok (SString bytes) else Err (InvalidUtf8 value_part)
    end
  else if decide (type_prefix = "d") then
    if is_valid_date_format value_part then Ok (SDate value_part) else Err (InvalidDate value_part)
  else if decide (type_prefix = "t") then
    if is_valid_timestamp_format value_part then Ok (STimestamp value_part)
    else Err (InvalidTimestamp value_part)
  else Err (UnknownType type_prefix).

Definition parse_part (pk : PartitionKey) (part : string) : result PartitionKeyParseError PartitionKey :=
  match split_once "=" part with
  | None => Err (MissingEquals part)
  | Some (key, encoded) =>
      if negb (valid_key key) then Err (InvalidKey key)
      else
        match split_once ":" encoded with
        | None => Err (MissingTypePrefix encoded)
        | Some (type_prefix, value_part) =>
            match parse_scalar type_prefix value_part with
            | Err e => Err e
            | Ok scalar =>
                if bool_decide (is_Some (pk_get pk key)) then Err (DuplicateKey key)
                else Ok (pk_insert key scalar pk)
            end
        end
  end.

Fixpoint parse_parts (parts : list string) (pk : PartitionKey) :
    result PartitionKeyParseError PartitionKey :=
  match parts with
  | [] => Ok pk
  | part :: parts =>
      match parse_part pk part with
      | Err e => Err e
      | Ok pk => parse_parts parts pk
      end
  end.

Definition pk_parse (s : string) : result PartitionKeyParseError PartitionKey :=
  if str_is_empty s then Ok partition_key_new else parse_parts (split_on "," s) partition_key_new.

(** [PartitionId::derive] *)
Definition partition_id_derive `{Hashes} (asset_id : string) (pk : PartitionKey) : string :=
  let input := asset_id +:+ ":" +:+ pk_canonical_string pk in
  "part_" +:+ String.substring 0 32 (hex_encode (sha256 input)).
End Parse.

(** ** Canonical JSON *)

(** [serde_json::Value]; an object is its members in the order of the map, whose keys
    are distinct. *)
Inductive Value :=
  | VNull
  | VBool (b : bool)
  | VInt (z : Z)
  | VFloat
  | VString (s : string)
  | VArray (items : list Value)
  | VObject (members : list (string * Value)).

Inductive CanonicalJsonError := JsonFloatNotAllowed.

(** How serde_json writes a string: its quotes and escapes. *)
Class JsonString := json_string : string -> string.

(** Writing after a comma, except for the first. *)
Fixpoint write_all (first : bool) (outs : list (result CanonicalJsonError string)) :
    result CanonicalJsonError string :=
  match outs with
  | [] => Ok ""
  | Err e :: _ => Err e
  | Ok s :: outs =>
      match write_all false outs with
      | Err e => Err e
      | Ok rest => Ok ((if first then "" else ",") +:+ s +:+ rest)
      end
  end.

Fixpoint insert_member {A} (x : string * A) (l : list (string * A)) : list (string * A) :=
  match l with
  | [] => [x]
  | y :: l => if str_leb x.1 y.1 then x :: y :: l else y :: insert_member x l
  end.

(** Keys in byte order. *)
Definition sort_members {A} (l : list (string * A)) : list (string * A) :=
  fold_right insert_member [] l.

Fixpoint write_value `{JsonString} (v : Value) : result CanonicalJsonError string :=
  match v with
  | VNull => Ok "null"
  | VBool b => Ok (if b then "true" else "false")
  | VInt z => Ok (pretty z)
  | VFloat => Err JsonFloatNotAllowed
  | VString s => Ok (json_string s)
  | VArray items =>
      match write_all true (map write_value items) with
      | Ok body => Ok ("[" +:+ body +:+ "]")
      | Err e => Err e
      end
  | VObject members =>
      let written := map (fun m => (m.1, write_value m.2)) members in
      let write_member (m : string * result CanonicalJsonError string) :=
        match m.2 with
        | Ok s => Ok (json_string m.1 +:+ ":" +:+ s)
        | Err e => Err e
        end in
      match write_all true (map write_member (sort_members written)) with
      | Ok body => Ok ("{" +:+ body +:+ "}")
      | Err e => Err e
      end
  end.
