(* ===== verification/CanonicalProps.v ===== *)
(** Partition keys: parsing inverts the canonical encoding. *)

From S2P Require Import Prelude Storage Events Canonical.
From Stdlib Require Import Sorted.
From stdpp Require Import options.

(** ** Strings *)

Lemma split_on_joined c l :
  l <> [] -> Forall (fun s => str_contains c s = false) l -> split_on c (join (String c "") l) = l.
Proof.
  intros Hne. induction 1 as [|s l Hs Hl IH]; [done|]. destruct l as [|s' l].
  - by apply split_on_no_sep.
  - change (join (String c "") (s :: s' :: l)) with (s +:+ String c (join (String c "") (s' :: l))).
    rewrite split_on_app by done. f_equal. by apply IH.
Qed.

Lemma split_once_app c s r :
  str_contains c s = false -> split_once c (s +:+ String c r) = Some (s, r).
Proof.
  induction s as [|a s IH]; str_simpl; [by rewrite decide_True|].
  intros Hs. bool_hyps. rewrite decide_False by done. by rewrite IH.
Qed.

Lemma parse_digits_go_no_char c s acc n :
  digit_value c = None -> parse_digits_go s acc = Some n -> str_contains c s = false.
Proof.
  intros Hc. revert acc. induction s as [|a s IH]; intros acc; simpl; [done|].
  destruct (digit_value a) eqn:Ha; [|done]. intros Hs%IH. rewrite Hs, orb_false_r.
  apply bool_decide_eq_false. congruence.
Qed.

Lemma parse_unsigned_no_char c max s n :
  digit_value c = None -> c <> "+"%char -> parse_unsigned max s = Some n -> str_contains c s = false.
Proof.
  intros Hc Hp. unfold parse_unsigned, parse_digits.
  assert (forall r, (n' ← if str_is_empty r then None else parse_digits_go r 0;
    if (n' <=? max)%N then Some n' else None) = Some n -> str_contains c r = false) as Hr.
  { intros r. destruct (str_is_empty r); [done|]. destruct (parse_digits_go r 0) eqn:E; [|done].
    intros _. by eapply parse_digits_go_no_char. }
  destruct s as [|a s]; [done|]. destruct (decide (a = "+"%char)) as [->|Ha].
  - intros Hs%Hr. simpl. rewrite Hs, orb_false_r. by apply bool_decide_eq_false.
  - intros Hs. apply Hr. destruct a as [[] [] [] [] [] [] [] []]; done.
Qed.

Lemma in_range_some lo hi o n : in_range lo hi o = Some n -> exists n, o = Some n.
Proof. destruct o; [by eexists|done]. Qed.

Lemma date_no_comma s : is_valid_date_format s = true -> str_contains "," s = false.
Proof.
  unfold is_valid_date_format. destruct (Nat.eqb_spec (String.length s) 10) as [Hl|]; [|done].
  do 10 (destruct s as [|? s]; [done|]). destruct s; [|done]. clear Hl. cbn [negb String.get].
  repeat case_bool_decide; try done. cbn [negb orb]. simplify_eq.
  destruct (in_range 1970 _ _) as [y|] eqn:Hy; [|done].
  destruct (in_range 1 12 _) as [m|] eqn:Hm; [|done].
  destruct (in_range 1 31 _) as [d|] eqn:Hd; [|done]. intros _.
  apply in_range_some in Hy as [? Hy], Hm as [? Hm], Hd as [? Hd].
  eapply (parse_unsigned_no_char ",") in Hy, Hm, Hd; [|done..]. cbn [String.substring] in *.
  simpl in *. bool_hyps. repeat (rewrite bool_decide_eq_false_2 by done). done.
Qed.

Lemma forall_no_char f c s : f c = false -> str_forall f s = true -> str_contains c s = false.
Proof.
  intros Hc. induction s as [|a s IH]; simpl; [done|]. intros [Ha Hs]%andb_true_iff.
  rewrite IH, orb_false_r by done. apply bool_decide_eq_false. congruence.
Qed.

Lemma timestamp_no_comma s : is_valid_timestamp_format s = true -> str_contains "," s = false.
Proof.
  unfold is_valid_timestamp_format, char_at.
  destruct (Nat.eqb_spec (String.length s) 27) as [Hl|]; [|done].
  do 27 (destruct s as [|? s]; [done|]). destruct s; [|done]. clear Hl.
  cbn [negb orb String.get]. repeat case_bool_decide; try done. cbn [negb orb]. simplify_eq.
  destruct (is_valid_date_format _) eqn:Hdate; [|done]. cbn [negb].
  destruct (in_range 0 23 _) as [h|] eqn:Hh; [|done].
  destruct (in_range 0 59 (parse_unsigned 255 (String.substring 14 _ _))) as [mi|] eqn:Hm; [|done].
  destruct (in_range 0 59 (parse_unsigned 255 (String.substring 17 _ _))) as [sec|] eqn:Hsec; [|done].
  intros Hus.
  apply in_range_some in Hh as [? Hh], Hm as [? Hm], Hsec as [? Hsec].
  eapply (parse_unsigned_no_char ",") in Hh, Hm, Hsec; [|done..].
  apply date_no_comma in Hdate. apply (forall_no_char _ ",") in Hus; [|done].
  cbn [String.substring] in *. simpl in *. bool_hyps.
  repeat (rewrite bool_decide_eq_false_2 by done). done.
Qed.

(** ** The round trip *)

Section RoundTrip.
Context `{HB : Base64} `{!Base64Laws}.
#[local] Set Default Proof Using "Type*".

(** A value the encoding represents: what the constructors of the callers build. *)
Definition value_ok (v : ScalarValue) : Prop :=
  match v with
  | SString s => utf8_valid s = true
  | SInt64 n => (i64_min <= n <= i64_max)%Z
  | SDate d => is_valid_date_format d = true
  | STimestamp ts => is_valid_timestamp_format ts = true
  | SBoolean _ | SNull => True
  end.

Definition key_lt (a b : string * ScalarValue) : Prop := String.compare a.1 b.1 = Lt.

(** A partition key: its entries are in order, as in any [BTreeMap]. *)
Definition pk_ok (pk : PartitionKey) : Prop :=
  StronglySorted key_lt pk /\ Forall (fun e => valid_key e.1 = true /\ value_ok e.2) pk.

Definition tag (v : ScalarValue) : string :=
  match v with
  | SString _ => "s" | SInt64 _ => "i" | SBoolean _ => "b"
  | SDate _ => "d" | STimestamp _ => "t" | SNull => "n"
  end.

Definition body (v : ScalarValue) : string :=
  match v with
  | SString s => b64_encode s
  | SInt64 n => pretty n
  | SBoolean b => if b then "true" else "false"
  | SDate d => d
  | STimestamp ts => ts
  | SNull => "null"
  end.

Lemma canonical_repr_parts v : canonical_repr v = tag v +:+ String ":" (body v).
Proof. by destruct v. Qed.

Lemma body_no_comma v : value_ok v -> str_contains "," (body v) = false.
Proof.
  destruct v; simpl; intros Hv.
  - apply b64_alphabet.
  - by apply pretty_Z_no_char.
  - by destruct b.
  - by apply date_no_comma.
  - by apply timestamp_no_comma.
  - done.
Qed.

Lemma parse_scalar_body v : value_ok v -> parse_scalar (tag v) (body v) = Ok v.
Proof.
  destruct v; unfold parse_scalar; simpl; intros Hv.
  - by rewrite b64_roundtrip, Hv.
  - by rewrite parse_i64_pretty.
  - by destruct b.
  - by rewrite Hv.
  - by rewrite Hv.
  - done.
Qed.

Lemma valid_key_no_char key c : valid_key key = true -> key_char c = false -> str_contains c key = false.
Proof.
  destruct key as [|a key]; [done|]. unfold valid_key. intros [_ Hk]%andb_true_iff Hc.
  by eapply forall_no_char.
Qed.

Lemma dimension_no_comma e : valid_key e.1 = true -> value_ok e.2 -> str_contains "," (dimension e) = false.
Proof.
  intros Hk Hv. unfold dimension. rewrite !str_contains_app, canonical_repr_parts, str_contains_app.
  rewrite (valid_key_no_char e.1) by done. simpl. rewrite body_no_comma by done. by destruct e.2.
Qed.

Lemma pk_get_above pk key v :
  Forall (fun e => key_lt e (key, v)) pk -> pk_get pk key = None.
Proof.
  induction 1 as [|[k w] pk Hk _ IH]; simpl; [done|]. unfold key_lt in Hk. simpl in Hk.
  rewrite decide_False; [done|]. intros ->.
  pose proof (String.compare_antisym key key) as E. by rewrite Hk in E.
Qed.

Lemma pk_insert_above pk key v :
  Forall (fun e => key_lt e (key, v)) pk -> pk_insert key v pk = pk ++ [(key, v)].
Proof.
  induction 1 as [|[k w] pk Hk _ IH]; simpl; [done|]. unfold key_lt in Hk. simpl in Hk.
  rewrite String.compare_antisym, Hk. simpl. by rewrite IH.
Qed.

Lemma parse_part_dimension pk e :
  valid_key e.1 = true -> value_ok e.2 -> Forall (fun e' => key_lt e' e) pk ->
  parse_part pk (dimension e) = Ok (pk ++ [e]).
Proof.
  destruct e as [key v]. cbn [fst snd]. intros Hk Hv Hlt. unfold parse_part, dimension. cbn [fst snd].
  change ("=" +:+ canonical_repr v) with (String "=" (canonical_repr v)).
  rewrite split_once_app by (by apply valid_key_no_char). rewrite Hk. cbn [negb].
  rewrite canonical_repr_parts, split_once_app by (by destruct v).
  rewrite parse_scalar_body by done. rewrite (pk_get_above _ _ _ Hlt).
  rewrite bool_decide_eq_false_2 by (by intros []). by rewrite (pk_insert_above _ _ _ Hlt).
Qed.

Lemma parse_parts_dimensions l pk :
  pk_ok (pk ++ l) -> parse_parts (dimension <$> l) pk = Ok (pk ++ l).
Proof.
  revert pk. induction l as [|e l IH]; intros pk Hpk; simpl; [by rewrite app_nil_r|].
  pose proof Hpk as [Hs Hok].
  assert (Forall (fun e' => key_lt e' e) pk) as Hlt.
  { clear - Hs. induction pk as [|x pk IH]; [constructor|]. simpl in Hs.
    apply StronglySorted_inv in Hs as [Hs Hx]. constructor; [|by apply IH].
    rewrite Forall_app in Hx. destruct Hx as [_ Hx]. by inversion Hx. }
  rewrite Forall_app, Forall_cons in Hok. destruct Hok as (_ & [Hk Hv] & _).
  rewrite parse_part_dimension by done. rewrite IH; rewrite <-app_assoc; done.
Qed.

Lemma parse_canonical pk : pk_ok pk -> pk_parse (pk_canonical_string pk) = Ok pk.
Proof.
  intros Hok. unfold pk_parse, pk_canonical_string. destruct pk as [|e pk]; [done|].
  assert (str_is_empty (join "," (dimension <$> e :: pk)) = false) as ->.
  { destruct Hok as [_ Hok]. apply Forall_cons in Hok as [[Hk _] _].
    destruct e as [[|a key] v]; [done|]. by destruct pk. }
  rewrite split_on_joined; [exact (parse_parts_dimensions (e :: pk) [] Hok)|done|].
  apply Forall_fmap. destruct Hok as [_ Hok]. eapply Forall_impl; [exact Hok|].
  intros e' [Hk Hv]. by apply dimension_no_comma.
Qed.
End RoundTrip.

(** C31: Partition keys round-trip.  Whatever base64 the encoding uses (decoding
    inverts encoding, no comma in the alphabet), parsing the canonical string of a
    partition key whose names follow the grammar and whose values are representable
    gives the key back; so two such keys with the same canonical string are the same
    key, in any order of insertion. *)
Theorem partition_key_roundtrip `{HB : Base64} `{!Base64Laws} (pk pk' : PartitionKey) :
  pk_ok pk -> pk_ok pk' ->
  pk_parse (pk_canonical_string pk) = Ok pk /\
  (pk_canonical_string pk = pk_canonical_string pk' -> pk = pk').
Proof.
  intros Hpk Hpk'. split; [by apply parse_canonical|]. intros E.
  pose proof (parse_canonical pk Hpk) as H1. pose proof (parse_canonical pk' Hpk') as H2. congruence.
Qed.

(** ** A concrete key *)

(** An alphabet of two letters is enough to satisfy the laws. *)
Fixpoint letters (p : positive) : string :=
  match p with
  | xH => ""
  | xO p => String "A" (letters p)
  | xI p => String "B" (letters p)
  end.

Fixpoint unletters (s : string) : option positive :=
  match s with
  | EmptyString => Some xH
  | String a s =>
      if decide (a = "A"%char) then xO <$> unletters s
      else if decide (a = "B"%char) then xI <$> unletters s
      else None
  end.

Lemma unletters_letters p : unletters (letters p) = Some p.
Proof. induction p as [p IH|p IH|]; simpl; by rewrite ?IH. Qed.

#[local] Instance letters_base64 : Base64 := {|
  b64_encode s := letters (encode s);
  b64_decode s := unletters s ≫= decode
|}.

#[local] Instance letters_base64_laws : Base64Laws.
Proof.
  split; intros s; simpl.
  - rewrite unletters_letters. apply decode_encode.
  - by induction (encode s) as [p IH|p IH|].
Qed.

Definition sample_partition_key : PartitionKey :=
  [("date", SDate "2025-01-15"); ("hour", SInt64 (-7)); ("region", SString "eu")].

Lemma sample_partition_key_ok : pk_ok sample_partition_key.
Proof. split; [|repeat constructor; done]. repeat constructor. Qed.

Lemma partition_key_roundtrip_witness :
  pk_parse (pk_canonical_string sample_partition_key) = Ok sample_partition_key.
Proof.
  exact (proj1 (partition_key_roundtrip sample_partition_key sample_partition_key
                  sample_partition_key_ok sample_partition_key_ok)).
Defined.

(** Parsing accepts more than the canonical strings: signs, leading zeros, and dates
    with signs for digits. *)
Example parse_not_canonical :
  pk_parse "n=i:+007" = Ok [("n", SInt64 7)] /\
  pk_canonical_string [("n", SInt64 7)] = "n=i:7" /\
  pk_parse "d=d:2025-+1-+5" = Ok [("d", SDate "2025-+1-+5")].
Proof. vm_compute. done. Qed.
