(* ===== verification/Plan.v ===== *)
(** Execution plans: [crates/arco-flow/src/plan.rs] and [task_key.rs].

    A builder collects tasks; [build] checks them, orders them along their
    dependencies, computes stages and a fingerprint. *)

From S2P Require Import Prelude Storage Events Dag Canonical.
From stdpp Require Import options.

(** [TaskId] is a ULID: a 128-bit number, ordered as such. *)
Abbreviation TaskId := N (only parsing).

Record AssetKey := mkAssetKey { ak_namespace : string; ak_name : string }.

Definition asset_qualified_name (k : AssetKey) : string := ak_namespace k +:+ "." +:+ ak_name k.
Definition asset_canonical_string (k : AssetKey) : string := ak_namespace k +:+ "/" +:+ ak_name k.

Inductive TaskOperation := OpMaterialize | OpCheck | OpBackfill.

Definition operation_string (o : TaskOperation) : string :=
  match o with OpMaterialize => "materialize" | OpCheck => "check" | OpBackfill => "backfill" end.

Definition operation_rank (o : TaskOperation) : N :=
  match o with OpMaterialize => 0 | OpCheck => 1 | OpBackfill => 2 end.

Record TaskKey := mkTaskKey {
  ky_asset_key : AssetKey;
  ky_partition_key : option PartitionKey;
  ky_operation : TaskOperation
}.

Definition task_key_canonical_string `{Base64} (k : TaskKey) : string :=
  let base := ak_namespace (ky_asset_key k) +:+ "/" +:+ ak_name (ky_asset_key k) in
  match ky_partition_key k with
  | None => base
  | Some pk => base +:+ "[" +:+ pk_canonical_string pk +:+ "]"
  end +:+ ":" +:+ operation_string (ky_operation k).

Record ResourceRequirements := mkResourceRequirements {
  rr_memory_bytes : u64;
  rr_cpu_millicores : u64;
  rr_timeout_ms : u64
}.

Definition default_memory_bytes : u64 := 536870912.
Definition default_cpu_millicores : u64 := 1000.
Definition default_timeout_ms : u64 := 3600000.

Definition resource_requirements_default : ResourceRequirements :=
  mkResourceRequirements default_memory_bytes default_cpu_millicores default_timeout_ms.

Record TaskSpec := mkTaskSpec {
  sp_task_id : TaskId;
  sp_asset_id : string;
  sp_asset_key : AssetKey;
  sp_operation : TaskOperation;
  sp_partition_key : option PartitionKey;
  sp_upstream_task_ids : list TaskId;
  sp_stage : u32;
  sp_priority : Z;
  sp_resources : ResourceRequirements
}.
#[export] Instance eta_TaskSpec : Eta TaskSpec :=
  fun r => mkTaskSpec (sp_task_id r) (sp_asset_id r) (sp_asset_key r) (sp_operation r)
             (sp_partition_key r) (sp_upstream_task_ids r) (sp_stage r) (sp_priority r)
             (sp_resources r).

Record DependencyEdge := mkDependencyEdge { de_source_task_id : TaskId; de_target_task_id : TaskId }.

Record Plan := mkPlan {
  pl_plan_id : string;
  pl_tenant_id : string;
  pl_workspace_id : string;
  pl_created_at : DateTime;
  pl_version : u32;
  pl_input_hash : string;
  pl_fingerprint : string;
  pl_tasks : list TaskSpec;
  pl_dependencies : list DependencyEdge
}.

Definition plan_task (p : Plan) (task_id : TaskId) : option TaskSpec :=
  snd <$> list_find (fun t => sp_task_id t = task_id) (pl_tasks p).
Definition root_tasks (p : Plan) : list TaskSpec :=
  filter (fun t => sp_upstream_task_ids t = []) (pl_tasks p).
Definition downstream_tasks (p : Plan) (task_id : TaskId) : list TaskSpec :=
  filter (fun t => task_id ∈ sp_upstream_task_ids t) (pl_tasks p).

Record PlanBuilder := mkPlanBuilder {
  pb_tenant_id : string;
  pb_workspace_id : string;
  pb_tasks : list TaskSpec;
  pb_input_hash : option string
}.
#[export] Instance eta_PlanBuilder : Eta PlanBuilder :=
  fun r => mkPlanBuilder (pb_tenant_id r) (pb_workspace_id r) (pb_tasks r) (pb_input_hash r).

Definition plan_builder_new (tenant_id workspace_id : string) : PlanBuilder :=
  mkPlanBuilder tenant_id workspace_id [] None.
Definition add_task (b : PlanBuilder) (task : TaskSpec) : PlanBuilder :=
  b <| pb_tasks := pb_tasks b ++ [task] |>.
Definition with_input_hash (b : PlanBuilder) (hash : string) : PlanBuilder :=
  b <| pb_input_hash := Some hash |>.

Definition MAX_TASKS_PER_PLAN : N := 10000.

Definition validate_task_limit (task_count : N) : fresult unit :=
  if (MAX_TASKS_PER_PLAN <? task_count)%N then Err (PlanTooLarge task_count MAX_TASKS_PER_PLAN)
  else Ok tt.

(** [a.cmp(b)] of the keys, then more: a comparison and the order of [sort_by]. *)
Definition cmp_then (a b : comparison) : comparison := match a with Eq => b | _ => a end.

Definition opt_compare (a b : option string) : comparison :=
  match a, b with
  | None, None => Eq
  | None, Some _ => Lt
  | Some _, None => Gt
  | Some x, Some y => String.compare x y
  end.

Definition not_greater (c : comparison) : bool := match c with Gt => false | _ => true end.

Definition fbind {A B} (r : fresult A) (f : A -> fresult B) : fresult B :=
  match r with Ok a => f a | Err e => Err e end.
Notation "'let!' x := r 'in' k" := (fbind r (fun x => k))
  (at level 10, x name, r at level 100, k at level 200).

Section Build.
Context `{Base64} `{DiGraph N} `{Display N}.

Fixpoint index_tasks_from (idx : nat) (tasks : list TaskSpec) (m : gmap TaskId nat) :
    fresult (gmap TaskId nat) :=
  match tasks with
  | [] => Ok m
  | task :: tasks =>
      match m !! sp_task_id task with
      | Some _ =>
          Err (PlanGenerationFailed
                 ("duplicate task_id in plan builder: " +:+ to_string (sp_task_id task)))
      | None => index_tasks_from (S idx) tasks (<[sp_task_id task := idx]> m)
      end
  end.

Definition index_tasks_by_id (tasks : list TaskSpec) : fresult (gmap TaskId nat) :=
  index_tasks_from 0 tasks ∅.

Definition task_key_of (task : TaskSpec) : string :=
  task_key_canonical_string
    (mkTaskKey (sp_asset_key task) (sp_partition_key task) (sp_operation task)).

Fixpoint build_task_keys_from (tasks : list TaskSpec) (key_by_id : gmap TaskId string)
    (seen_keys : gset string) : fresult (gmap TaskId string) :=
  match tasks with
  | [] => Ok key_by_id
  | task :: tasks =>
      let key := task_key_of task in
      if decide (key ∈ seen_keys) then
        Err (PlanGenerationFailed ("duplicate TaskKey in plan builder: " +:+ key))
      else build_task_keys_from tasks (<[sp_task_id task := key]> key_by_id) ({[key]} ∪ seen_keys)
  end.

Definition build_task_keys (tasks : list TaskSpec) : fresult (gmap TaskId string) :=
  build_task_keys_from tasks ∅ ∅.

Definition missing_dependency (dep_id : TaskId) : FlowError :=
  DependencyNotFound ("task " +:+ to_string dep_id).

(** The first dependency that is not a task. *)
Definition validate_dependencies_exist (tasks : list TaskSpec) (task_idx_by_id : gmap TaskId nat) :
    fresult unit :=
  match list_find (fun dep_id => task_idx_by_id !! dep_id = None)
          (tasks ≫= sp_upstream_task_ids) with
  | Some (_, dep_id) => Err (missing_dependency dep_id)
  | None => Ok tt
  end.

Definition build_edges (tasks : list TaskSpec) : list (TaskId * TaskId) :=
  tasks ≫= (fun task => (fun dep_id => (dep_id, sp_task_id task)) <$> sp_upstream_task_ids task).

Definition node_leb (key_by_id : gmap TaskId string) (a b : TaskId) : bool :=
  not_greater (cmp_then (opt_compare (key_by_id !! a) (key_by_id !! b)) (a ?= b)%N).

Definition edge_leb (key_by_id : gmap TaskId string) (a b : TaskId * TaskId) : bool :=
  not_greater
    (cmp_then (opt_compare (key_by_id !! a.1) (key_by_id !! b.1))
       (cmp_then (opt_compare (key_by_id !! a.2) (key_by_id !! b.2))
          (cmp_then (a.1 ?= b.1)%N (a.2 ?= b.2)%N))).

Definition add_nodes (node_ids : list TaskId) (s : Dag N * gmap TaskId NodeIndex) :
    Dag N * gmap TaskId NodeIndex :=
  fold_left (fun s id => let '(dag, id_to_idx) := s in
                         let '(idx, dag) := add_node dag id in
                         (dag, <[id := idx]> id_to_idx)) node_ids s.

Fixpoint add_edges (id_to_idx : gmap TaskId NodeIndex) (edges : list (TaskId * TaskId)) (dag : Dag N) :
    fresult (Dag N) :=
  match edges with
  | [] => Ok dag
  | (from_id, to_id) :: edges =>
      match id_to_idx !! from_id with
      | None => Err (DagNodeNotFound (to_string from_id))
      | Some from_idx =>
          match id_to_idx !! to_id with
          | None => Err (DagNodeNotFound (to_string to_id))
          | Some to_idx => let! dag := add_edge dag from_idx to_idx in add_edges id_to_idx edges dag
          end
      end
  end.

(** The ids in order, and the edges as this leaves them, sorted. *)
Definition topo_sort_task_ids (tasks : list TaskSpec) (key_by_id : gmap TaskId string)
    (edges : list (TaskId * TaskId)) : fresult (list TaskId * list (TaskId * TaskId)) :=
  let node_ids := sort_by (node_leb key_by_id) (sp_task_id <$> tasks) in
  let '(dag, id_to_idx) := add_nodes node_ids (dag_new, ∅) in
  let edges := sort_by (edge_leb key_by_id) edges in
  let! dag := add_edges id_to_idx edges dag in
  let! ids :=
    toposort_by_key (fun id => default (to_string id) (key_by_id !! id)) dag in
  Ok (ids, edges).

Definition find_task (tasks : list TaskSpec) (task_idx_by_id : gmap TaskId nat) (id : TaskId) :
    fresult TaskSpec :=
  match task_idx_by_id !! id with
  | None => Err (TaskNotFound (to_string id))
  | Some task_idx =>
      match tasks !! task_idx with
      | None => Err (TaskNotFound (to_string id))
      | Some task => Ok task
      end
  end.

(** [.max().map_or(0, |max_stage| max_stage + 1)] *)
Definition next_stage (l : list u32) : u32 :=
  match l with
  | [] => 0
  | s :: l => u32_add (fold_left N.max l s) 1
  end.

Fixpoint compute_stages_from (tasks : list TaskSpec) (task_idx_by_id : gmap TaskId nat)
    (sorted_ids : list TaskId) (stages : gmap TaskId u32) : fresult (gmap TaskId u32) :=
  match sorted_ids with
  | [] => Ok stages
  | id :: sorted_ids =>
      let! task := find_task tasks task_idx_by_id id in
      let stage :=
        match sp_upstream_task_ids task with
        | [] => 0%N
        | deps => next_stage (omap (fun dep => stages !! dep) deps)
        end in
      compute_stages_from tasks task_idx_by_id sorted_ids (<[id := stage]> stages)
  end.

Definition compute_stages (tasks : list TaskSpec) (task_idx_by_id : gmap TaskId nat)
    (sorted_ids : list TaskId) : fresult (gmap TaskId u32) :=
  compute_stages_from tasks task_idx_by_id sorted_ids ∅.

Definition set_stage (stages : gmap TaskId u32) (task : TaskSpec) : TaskSpec :=
  task <| sp_stage := default 0%N (stages !! sp_task_id task) |>.

Fixpoint tasks_in_order (tasks : list TaskSpec) (task_idx_by_id : gmap TaskId nat)
    (sorted_ids : list TaskId) : fresult (list TaskSpec) :=
  match sorted_ids with
  | [] => Ok []
  | id :: sorted_ids =>
      let! task := find_task tasks task_idx_by_id id in
      let! rest := tasks_in_order tasks task_idx_by_id sorted_ids in
      Ok (task :: rest)
  end.

Definition edges_to_dependencies (edges : list (TaskId * TaskId)) : list DependencyEdge :=
  (fun e => mkDependencyEdge e.1 e.2) <$> edges.

(** ** The fingerprint *)

Record FingerprintTaskSpec := mkFingerprintTaskSpec {
  fp_key : string;
  fp_upstream_keys : list string;
  fp_priority : Z;
  fp_resources : ResourceRequirements
}.

Definition PLAN_FINGERPRINT_VERSION : u32 := 1.

Definition id_to_key (tasks : list TaskSpec) : gmap TaskId string :=
  fold_left (fun m t => <[sp_task_id t := task_key_of t]> m) tasks ∅.

Definition normalize_task (id_to_key : gmap TaskId string) (t : TaskSpec) : FingerprintTaskSpec :=
  let name id := default (to_string id) (id_to_key !! id) in
  mkFingerprintTaskSpec (name (sp_task_id t))
    (sort_by str_leb (name <$> sp_upstream_task_ids t)) (sp_priority t) (sp_resources t).

Definition fingerprint_tasks (tasks : list TaskSpec) : list FingerprintTaskSpec :=
  sort_by (fun a b => str_leb (fp_key a) (fp_key b)) (normalize_task (id_to_key tasks) <$> tasks).

(** [#[derive(Serialize)]] with [rename_all = "camelCase"]. *)
Definition resources_value (r : ResourceRequirements) : Value :=
  VObject [("memoryBytes", VInt (Z.of_N (rr_memory_bytes r)));
           ("cpuMillicores", VInt (Z.of_N (rr_cpu_millicores r)));
           ("timeoutMs", VInt (Z.of_N (rr_timeout_ms r)))].

Definition fingerprint_task_value (t : FingerprintTaskSpec) : Value :=
  VObject [("key", VString (fp_key t));
           ("upstreamKeys", VArray (VString <$> fp_upstream_keys t));
           ("priority", VInt (fp_priority t));
           ("resources", resources_value (fp_resources t))].

Definition fingerprint_value (tenant_id workspace_id : string) (tasks : list FingerprintTaskSpec) :
    Value :=
  VObject [("version", VInt (Z.of_N PLAN_FINGERPRINT_VERSION));
           ("tenantId", VString tenant_id);
           ("workspaceId", VString workspace_id);
           ("tasks", VArray (fingerprint_task_value <$> tasks))].

Context `{JsonString} `{Hashes}.

Definition compute_fingerprint (tenant_id workspace_id : string) (tasks : list TaskSpec) :
    fresult string :=
  match write_value (fingerprint_value tenant_id workspace_id (fingerprint_tasks tasks)) with
  | Err _ =>
      Err (FlowSerialization
             "failed to serialize fingerprint preimage to canonical JSON: float values are not allowed in canonical JSON (use integers)")
  | Ok canonical =>
      Ok ("sha256:" +:+ hex_encode
            (sha256 ("arco-plan:v" +:+ pretty PLAN_FINGERPRINT_VERSION +:+ ":" +:+ canonical)))
  end.

(** ** [PlanBuilder::build] *)
Definition build (b : PlanBuilder) (plan_id : string) (now : DateTime) : fresult Plan :=
  let! _ := validate_task_limit (N.of_nat (length (pb_tasks b))) in
  let! task_idx_by_id := index_tasks_by_id (pb_tasks b) in
  let! key_by_id := build_task_keys (pb_tasks b) in
  let! _ := validate_dependencies_exist (pb_tasks b) task_idx_by_id in
  let! sorted :=
    topo_sort_task_ids (pb_tasks b) key_by_id (build_edges (pb_tasks b)) in
  let '(sorted_ids, edges) := sorted in
  let! stages := compute_stages (pb_tasks b) task_idx_by_id sorted_ids in
  let tasks := set_stage stages <$> pb_tasks b in
  let! sorted_tasks := tasks_in_order tasks task_idx_by_id sorted_ids in
  let! fingerprint := compute_fingerprint (pb_tenant_id b) (pb_workspace_id b) sorted_tasks in
  Ok (mkPlan plan_id (pb_tenant_id b) (pb_workspace_id b) now 1 (default "" (pb_input_hash b))
        fingerprint sorted_tasks (edges_to_dependencies edges)).
End Build.
