(* ===== verification/PlanProps.v ===== *)
(** Correctness of [PlanBuilder::build]: a plan lists its tasks along their
    dependencies, with the right stages; a refusal has its reason; and the plan does
    not depend on the order or the ids the tasks were given. *)

From S2P Require Import Prelude Sample Storage Events Dag DagProps DagCycle Canonical CanonicalProps Plan.
From stdpp Require Import sorting options.

Section Build.
Context `{HB : Base64} `{HG : DiGraph N} `{!DiGraphLaws N} `{HD : Display N}.
Implicit Types (tasks : list TaskSpec) (dag : Dag N).
#[local] Set Default Proof Using "All".

(** ** Validation *)

Abbreviation ids tasks := (sp_task_id <$> tasks).
Abbreviation keys tasks := (task_key_of <$> tasks).

Lemma index_tasks_from_spec tasks idx m :
  match index_tasks_from idx tasks m with
  | Ok m' => NoDup (ids tasks) /\ (forall id, id ∈ ids tasks -> m !! id = None) /\
      forall id i, m' !! id = Some i <->
        m !! id = Some i \/ exists k t, i = idx + k /\ tasks !! k = Some t /\ sp_task_id t = id
  | Err e => (exists message, e = PlanGenerationFailed message) /\
      (~ NoDup (ids tasks) \/ exists id, id ∈ ids tasks /\ m !! id <> None)
  end.
Proof.
  revert idx m. induction tasks as [|t tasks IH]; intros idx m; cbn [index_tasks_from].
  { split_and!; [constructor|by intros ? ?%elem_of_nil|]. naive_solver. }
  rewrite fmap_cons. destruct (m !! sp_task_id t) as [j|] eqn:Hm.
  { split; [by eexists|]. right. exists (sp_task_id t). split; [set_solver|by rewrite Hm]. }
  specialize (IH (S idx) (<[sp_task_id t := idx]> m)).
  destruct (index_tasks_from _ _ _) as [m'|e].
  - destruct IH as (Hnd & Hnone & Hm').
    assert (sp_task_id t ∉ ids tasks) as Ht.
    { intros Hin%Hnone. by rewrite lookup_insert_eq in Hin. }
    split_and!; [by constructor| |].
    + intros id [->|Hin]%elem_of_cons; [done|]. specialize (Hnone id Hin).
      by rewrite lookup_insert_ne in Hnone by set_solver.
    + intros id i. rewrite Hm'. destruct (decide (sp_task_id t = id)) as [<-|Hne].
      * rewrite lookup_insert_eq, Hm. split.
        -- intros [[= <-]|(k & t' & -> & Hk & E)]; right; [exists 0, t; split; [lia|done]|].
           exists (S k), t'. split; [lia|done].
        -- intros [?|([|k] & t' & -> & Hk & E)]; [done|left; f_equal; lia|].
           exfalso. apply Ht. rewrite <-E. apply list_elem_of_fmap_2. by eapply list_elem_of_lookup_2.
      * rewrite lookup_insert_ne by done. split.
        -- intros [?|(k & t' & -> & Hk & E)]; [by left|right]. exists (S k), t'. split; [lia|done].
        -- intros [?|([|k] & t' & -> & Hk & E)]; [by left|by simplify_eq/=|right].
           exists k, t'. split; [lia|done].
  - destruct IH as [Hmsg [Hnd|(id & Hid & Hm')]]; (split; [done|]).
    + left. rewrite NoDup_cons. tauto.
    + destruct (decide (sp_task_id t = id)) as [<-|Hne].
      * left. rewrite NoDup_cons. tauto.
      * rewrite lookup_insert_ne in Hm' by done. right. exists id. split; [set_solver|done].
Qed.

Lemma index_tasks_spec tasks :
  match index_tasks_by_id tasks with
  | Ok m => NoDup (ids tasks) /\
      forall id i, m !! id = Some i <-> exists t, tasks !! i = Some t /\ sp_task_id t = id
  | Err e => (exists message, e = PlanGenerationFailed message) /\ ~ NoDup (ids tasks)
  end.
Proof.
  pose proof (index_tasks_from_spec tasks 0 ∅) as Hs. unfold index_tasks_by_id.
  destruct (index_tasks_from 0 tasks ∅) as [m|e].
  - destruct Hs as (Hnd & _ & Hm). split; [done|]. intros id i. rewrite Hm, lookup_empty.
    split; [intros [?|(k & t & -> & Ht)]; [done|by eexists]|].
    intros (t & Ht & E). right. by exists i, t.
  - destruct Hs as [Hmsg [Hnd|(id & _ & Hid)]]; [done|]. by rewrite lookup_empty in Hid.
Qed.

Lemma build_task_keys_from_spec tasks m seen :
  NoDup (ids tasks) -> (forall id, id ∈ ids tasks -> m !! id = None) ->
  match build_task_keys_from tasks m seen with
  | Ok m' => NoDup (keys tasks) /\ (forall k, k ∈ keys tasks -> k ∉ seen) /\
      forall id k, m' !! id = Some k <->
        m !! id = Some k \/ exists t, t ∈ tasks /\ sp_task_id t = id /\ task_key_of t = k
  | Err e => (exists message, e = PlanGenerationFailed message) /\
      (~ NoDup (keys tasks) \/ exists k, k ∈ keys tasks /\ k ∈ seen)
  end.
Proof.
  revert m seen. induction tasks as [|t tasks IH]; intros m seen Hnd Hm; cbn [build_task_keys_from].
  { split_and!; [constructor|by intros ? ?%elem_of_nil|]. intros id k. split; [by left|].
    intros [?|(t & Ht & _)]; [done|]. by apply elem_of_nil in Ht. }
  rewrite !fmap_cons in *. apply NoDup_cons in Hnd as [Ht Hnd]. case_decide as Hk.
  { split; [by eexists|]. right. exists (task_key_of t). set_solver. }
  specialize (IH (<[sp_task_id t := task_key_of t]> m) ({[task_key_of t]} ∪ seen) Hnd).
  destruct (build_task_keys_from _ _ _) as [m'|e].
  - destruct IH as (Hndk & Hseen & Hm').
    { intros id Hid. rewrite lookup_insert_ne by set_solver. apply Hm. set_solver. }
    split_and!.
    + constructor; [|done]. intros Hin%Hseen. set_solver.
    + intros k [->|Hin]%elem_of_cons; [done|]. specialize (Hseen k Hin). set_solver.
    + intros id k. rewrite Hm'. destruct (decide (sp_task_id t = id)) as [<-|Hne].
      * rewrite lookup_insert_eq, (Hm (sp_task_id t)) by set_solver. split.
        -- intros [[= <-]|(t' & Ht' & E & _)]; [right; exists t; set_solver|].
           exfalso. apply Ht. rewrite <-E. by apply list_elem_of_fmap_2.
        -- intros [?|(t' & [->|Ht']%elem_of_cons & E & Ek)]; [done|left; by f_equal|].
           exfalso. apply Ht. rewrite <-E. by apply list_elem_of_fmap_2.
      * rewrite lookup_insert_ne by done. split.
        -- intros [?|(t' & Ht' & E)]; [by left|right; exists t'; set_solver].
        -- intros [?|(t' & [->|Ht']%elem_of_cons & E & Ek)]; [by left|done|right; by exists t'].
  - destruct IH as [Hmsg Hor].
    { intros id Hid. rewrite lookup_insert_ne by set_solver. apply Hm. set_solver. }
    split; [done|]. rewrite NoDup_cons. destruct Hor as [?|(k & Hk1 & Hk2)]; [left; tauto|].
    apply elem_of_union in Hk2 as [->%elem_of_singleton|?]; [left; tauto|right; set_solver].
Qed.

Lemma build_task_keys_spec tasks :
  NoDup (ids tasks) ->
  match build_task_keys tasks with
  | Ok m => NoDup (keys tasks) /\
      forall id k, m !! id = Some k <-> exists t, t ∈ tasks /\ sp_task_id t = id /\ task_key_of t = k
  | Err e => (exists message, e = PlanGenerationFailed message) /\ ~ NoDup (keys tasks)
  end.
Proof.
  intros Hnd. pose proof (build_task_keys_from_spec tasks ∅ ∅ Hnd) as Hs. unfold build_task_keys.
  destruct (build_task_keys_from tasks ∅ ∅) as [m|e].
  - destruct Hs as (Hk & _ & Hm); [by intros; rewrite lookup_empty|]. split; [done|].
    intros id k. rewrite Hm, lookup_empty. naive_solver.
  - destruct Hs as [Hmsg [?|(k & _ & Hk)]]; [by intros; rewrite lookup_empty|done|set_solver].
Qed.

Lemma validate_dependencies_spec tasks m :
  match validate_dependencies_exist tasks m with
  | Ok _ => forall t dep, t ∈ tasks -> dep ∈ sp_upstream_task_ids t -> is_Some (m !! dep)
  | Err e => exists t dep, t ∈ tasks /\ dep ∈ sp_upstream_task_ids t /\ m !! dep = None /\
      e = missing_dependency dep
  end.
Proof.
  unfold validate_dependencies_exist. destruct (list_find _ _) as [[i dep]|] eqn:E.
  - apply list_find_Some in E as (Hi & Hdep & _).
    apply list_elem_of_lookup_2, list_elem_of_bind in Hi as (t & Hd & Ht). eauto 10.
  - intros t dep Ht Hd. apply list_find_None in E. rewrite Forall_forall in E.
    apply not_eq_None_Some. apply E. apply list_elem_of_bind. eauto.
Qed.

(** ** The graph of a plan *)

(** [m] is the index of the nodes of [dag]. *)
Definition indexes dag (m : gmap N nat) : Prop :=
  built dag /\ forall id i, m !! id = Some i <-> node_weight (dag_graph dag) i = Some id.

Lemma add_node_indexes dag m id :
  indexes dag m ->
  let '(idx, dag') := add_node dag id in
  indexes dag' (<[id := idx]> m) /\
  edge_references (dag_graph dag') = edge_references (dag_graph dag).
Proof.
  intros [Hb Hm]. pose proof (built_wf _ Hb) as [_ _ Hi].
  pose proof (built_node dag id Hb) as Hb'. pose proof (built_wf _ Hb') as [_ _ Hi'].
  unfold add_node in *. destruct (dag_index_map dag !! id) as [idx|] eqn:Hid.
  - split; [|done]. split; [done|]. intros u i. rewrite <-Hm.
    destruct (decide (id = u)) as [<-|]; [|by rewrite lookup_insert_ne].
    rewrite lookup_insert_eq. apply Hi in Hid. apply Hm in Hid. by rewrite Hid.
  - pose proof (law_add_node (dag_graph dag) id) as Hl.
    destruct (graph_add_node (dag_graph dag) id) as [idx g].
    destruct Hl as (-> & Hn & Hed & Hw & Hw'). cbn [snd] in *. split; [|done]. split; [done|].
    intros u i. rewrite <-Hi'. cbn [dag_index_map].
    destruct (decide (id = u)) as [<-|]; [by rewrite !lookup_insert_eq|].
    rewrite !lookup_insert_ne by done. by rewrite Hm, Hi.
Qed.

Lemma add_nodes_spec l dag m :
  indexes dag m ->
  let '(dag', m') := add_nodes l (dag, m) in
  indexes dag' m' /\ edge_references (dag_graph dag') = edge_references (dag_graph dag) /\
  forall id, is_Some (m' !! id) <-> is_Some (m !! id) \/ id ∈ l.
Proof.
  revert dag m. induction l as [|id l IH]; intros dag m Hm; cbn.
  { split_and!; [done|done|]. intros id. split; [by left|]. intros [?|?%elem_of_nil]; done. }
  pose proof (add_node_indexes dag m id Hm) as Ha. destruct (add_node dag id) as [idx dag1].
  destruct Ha as [Hm1 He1]. specialize (IH dag1 (<[id := idx]> m) Hm1). unfold add_nodes in IH.
  destruct (fold_left _ l _) as [dag' m']. destruct IH as (Hm' & He & Hsome).
  split_and!; [done|by rewrite He, He1|]. intros u. rewrite Hsome, elem_of_cons.
  destruct (decide (id = u)) as [<-|Hne].
  - rewrite lookup_insert_eq. naive_solver.
  - rewrite lookup_insert_ne by done. naive_solver.
Qed.

Lemma indexes_edge dag m u v :
  indexes dag m ->
  (dag_edge dag u v <->
   exists i j, m !! u = Some i /\ m !! v = Some j /\ (i, j) ∈ edge_references (dag_graph dag)).
Proof. intros [_ Hm]. unfold dag_edge. by setoid_rewrite Hm. Qed.

Lemma add_edges_spec edges dag m :
  indexes dag m -> (forall u v, (u, v) ∈ edges -> is_Some (m !! u) /\ is_Some (m !! v)) ->
  exists dag', add_edges m edges dag = Ok dag' /\ indexes dag' m /\
    forall u v, dag_edge dag' u v <-> dag_edge dag u v \/ (u, v) ∈ edges.
Proof.
  revert dag. induction edges as [|[u v] edges IH]; intros dag Hm Hin; cbn [add_edges].
  { exists dag. split_and!; [done|done|]. intros u v. split; [by left|]. intros [?|?%elem_of_nil]; done. }
  destruct (Hin u v) as [[i Hi] [j Hj]]; [set_solver|]. rewrite Hi, Hj.
  pose proof Hm as [Hb Hw]. pose proof Hi as Hwi. pose proof Hj as Hwj. apply Hw in Hwi, Hwj.
  destruct (add_edge dag i j) as [dag1|e] eqn:Hadd;
    [|by unfold add_edge in Hadd; rewrite Hwi, Hwj in Hadd].
  pose proof (built_edge _ _ _ _ Hb Hadd) as Hb1. unfold add_edge in Hadd. rewrite Hwi, Hwj in Hadd.
  simplify_eq. destruct (law_add_edge (dag_graph dag) i j) as (Hn & Hed & Hw1);
    [by eapply weight_lt..|].
  assert (indexes (mkDag (graph_add_edge (dag_graph dag) i j) (dag_index_map dag)
    (dag_insertion_order dag)) m) as Hm1.
  { split; [done|]. intros id k. cbn. by rewrite Hw1. }
  destruct (IH _ Hm1) as (dag' & Hdag' & Hm' & He); [set_solver|].
  exists dag'. split_and!; [done|done|]. intros a b. rewrite He.
  rewrite !(indexes_edge _ m) by done. cbn [dag_graph]. setoid_rewrite Hed.
  setoid_rewrite elem_of_cons. split.
  - intros [(a' & b' & Ha & Hb' & [[= -> ->]|Hab])|Hab]; [right; left|left; by exists a', b'|by right; right].
    apply Hw in Ha, Hb'. congruence.
  - intros [(a' & b' & Ha & Hb' & Hab)|[[= -> ->]|Hab]]; [left; exists a', b'; auto| |by right].
    left. exists i, j. auto.
Qed.

(** The graph [topo_sort_task_ids] sorts. *)
Lemma topo_sort_graph tasks (key_by_id : gmap N string) :
  NoDup (ids tasks) ->
  (forall t dep, t ∈ tasks -> dep ∈ sp_upstream_task_ids t -> dep ∈ ids tasks) ->
  exists dag, built dag /\ nodes dag ≡ₚ ids tasks /\
    (forall u v, dag_edge dag u v <-> (u, v) ∈ build_edges tasks) /\
    topo_sort_task_ids tasks key_by_id (build_edges tasks) =
      match toposort_by_key (fun id => default (to_string id) (key_by_id !! id)) dag with
      | Ok l => Ok (l, sort_by (edge_leb key_by_id) (build_edges tasks))
      | Err e => Err e
      end.
Proof.
  intros Hnd Hdeps. unfold topo_sort_task_ids.
  assert (indexes dag_new ∅) as H0.
  { split; [constructor|]. intros id i. rewrite lookup_empty. split; [done|].
    intros Hi%weight_lt. destruct law_new as [Hn _]. cbn in Hi. lia. }
  pose proof (add_nodes_spec (sort_by (node_leb key_by_id) (ids tasks)) dag_new ∅ H0) as Hn.
  destruct (add_nodes _ _) as [dag1 m]. destruct Hn as (Hm & He & Hsome).
  assert (forall id, is_Some (m !! id) <-> id ∈ ids tasks) as Hids.
  { intros id. rewrite Hsome, lookup_empty, sort_by_perm. split; [|by right].
    intros [[]|?]; done. }
  destruct (add_edges_spec (sort_by (edge_leb key_by_id) (build_edges tasks)) dag1 m Hm)
    as (dag & -> & [Hb Hw] & Hedges).
  { intros u v. rewrite sort_by_perm. unfold build_edges.
    intros (t & (dep & [= -> ->] & Hdep)%list_elem_of_fmap & Ht)%list_elem_of_bind.
    rewrite !Hids. split; [by eapply Hdeps|by apply list_elem_of_fmap_2]. }
  exists dag. split_and!; [done| | |].
  - apply NoDup_Permutation; [|done|].
    + apply (values_nodup dag (built_wf _ Hb)), NoDup_seq.
    + intros id. rewrite (elem_of_nodes dag (built_wf _ Hb)), <-Hids.
      split; [intros [i Hi]; exists i; by apply Hw|intros [i Hi]; exists i; by apply Hw].
  - intros u v. rewrite Hedges, sort_by_perm. split; [|by right]. intros [Huv|]; [|done].
    apply (indexes_edge _ m _ _ Hm) in Huv as (i & j & _ & _ & Hij).
    rewrite He in Hij. destruct law_new as [_ Hne]. cbn in Hij. rewrite Hne in Hij.
    by apply elem_of_nil in Hij.
  - cbn [fbind]. by destruct (toposort_by_key _ dag).
Qed.

(** ** Finding tasks *)

Definition index_ok tasks (m : gmap N nat) : Prop :=
  forall id i, m !! id = Some i <-> exists t, tasks !! i = Some t /\ sp_task_id t = id.

Lemma find_task_elem tasks m t :
  NoDup (ids tasks) -> index_ok tasks m -> t ∈ tasks -> find_task tasks m (sp_task_id t) = Ok t.
Proof.
  intros Hnd Hm [i Hi]%list_elem_of_lookup_1. unfold find_task.
  assert (m !! sp_task_id t = Some i) as -> by (apply Hm; eauto). by rewrite Hi.
Qed.

Lemma find_task_id tasks m id :
  NoDup (ids tasks) -> index_ok tasks m -> id ∈ ids tasks ->
  exists t, t ∈ tasks /\ sp_task_id t = id /\ find_task tasks m id = Ok t.
Proof.
  intros Hnd Hm (t & -> & Ht)%list_elem_of_fmap. exists t. by rewrite find_task_elem.
Qed.

Lemma task_id_inj tasks t t' :
  NoDup (ids tasks) -> t ∈ tasks -> t' ∈ tasks -> sp_task_id t = sp_task_id t' -> t = t'.
Proof.
  intros Hnd [i Hi]%list_elem_of_lookup_1 [j Hj]%list_elem_of_lookup_1 E.
  assert (i = j) as ->; [|congruence].
  eapply (NoDup_lookup (ids tasks)); [done| |]; rewrite list_lookup_fmap; [by rewrite Hi|].
  by rewrite Hj, E.
Qed.

(** ** Stages *)

Definition stage_of (stages : gmap N N) (t : TaskSpec) : N :=
  match sp_upstream_task_ids t with
  | [] => 0%N
  | deps => next_stage (omap (fun dep => stages !! dep) deps)
  end.

Lemma fold_max_spec (l : list N) s :
  (s <= fold_left N.max l s)%N /\ (forall x, x ∈ l -> (x <= fold_left N.max l s)%N) /\
  (fold_left N.max l s = s \/ fold_left N.max l s ∈ l).
Proof.
  revert s. induction l as [|y l IH]; intros s; simpl.
  { split_and!; [lia|by intros ? ?%elem_of_nil|by left]. }
  destruct (IH (N.max s y)) as (H1 & H2 & H3). split_and!; [lia| |].
  - intros x [->|Hx]%elem_of_cons; [lia|auto].
  - destruct H3 as [H3|H3]; [|right; set_solver]. rewrite H3.
    destruct (N.max_spec s y) as [[_ ->]|[_ ->]]; [right; set_solver|by left].
Qed.

Lemma next_stage_spec (l : list N) (b : N) :
  l <> [] -> (b < u32_max)%N -> (forall x, x ∈ l -> (x < b)%N) ->
  (forall x, x ∈ l -> (x < next_stage l)%N) /\ (exists x, x ∈ l /\ next_stage l = (x + 1)%N) /\
  (next_stage l <= b)%N.
Proof.
  destruct l as [|s l]; [done|]. intros _ Hb Hl. unfold next_stage.
  destruct (fold_max_spec l s) as (H1 & H2 & H3). set (m := fold_left N.max l s) in *.
  assert (m ∈ s :: l) as Hm by (destruct H3 as [->|?]; set_solver).
  assert (u32_add m 1 = m + 1)%N as ->.
  { apply u32_add_small. specialize (Hl m Hm). unfold u32_max in *. unfold u32_modulus. lia. }
  split_and!; [|by exists m|specialize (Hl m Hm); lia].
  intros x [->|Hx]%elem_of_cons; [lia|]. specialize (H2 x Hx). lia.
Qed.

(** [stages] has the stages of the tasks of [p]. *)
Record stages_ok tasks (p : list N) (stages : gmap N N) : Prop := {
  so_dom : forall id, is_Some (stages !! id) <-> id ∈ p;
  so_deps : forall t dep, t ∈ tasks -> sp_task_id t ∈ p -> dep ∈ sp_upstream_task_ids t -> dep ∈ p;
  so_stage : forall t, t ∈ tasks -> sp_task_id t ∈ p -> stages !! sp_task_id t = Some (stage_of stages t);
  so_bound : forall id s, stages !! id = Some s -> (s < N.of_nat (length p))%N
}.

Lemma stages_lookup tasks p stages deps :
  stages_ok tasks p stages -> (forall dep, dep ∈ deps -> dep ∈ p) -> deps <> [] ->
  omap (fun dep => stages !! dep) deps <> [] /\
  forall x, x ∈ omap (fun dep => stages !! dep) deps -> (x < N.of_nat (length p))%N.
Proof.
  intros Hok Hdeps Hne. split.
  - destruct deps as [|d deps]; [done|]. destruct (proj2 (so_dom _ _ _ Hok d)) as [s Hs];
      [apply Hdeps; set_solver|]. simpl. by rewrite Hs.
  - intros x (dep & _ & Hx)%list_elem_of_omap. by eapply so_bound.
Qed.

Lemma stage_of_bound tasks p stages t :
  stages_ok tasks p stages -> (N.of_nat (length p) < u32_max)%N ->
  (forall dep, dep ∈ sp_upstream_task_ids t -> dep ∈ p) ->
  (stage_of stages t <= N.of_nat (length p))%N.
Proof.
  intros Hok Hp Hdeps. unfold stage_of. destruct (sp_upstream_task_ids t) as [|d deps] eqn:E; [lia|].
  destruct (stages_lookup tasks p stages (d :: deps) Hok Hdeps ltac:(done)) as [Hne Hlt].
  by apply (next_stage_spec _ _ Hne Hp Hlt).
Qed.

Lemma stages_ok_snoc tasks p stages t :
  NoDup (ids tasks) -> t ∈ tasks -> sp_task_id t ∉ p ->
  (forall dep, dep ∈ sp_upstream_task_ids t -> dep ∈ p) -> (N.of_nat (length p) < u32_max)%N ->
  stages_ok tasks p stages ->
  stages_ok tasks (p ++ [sp_task_id t]) (<[sp_task_id t := stage_of stages t]> stages).
Proof.
  intros Hnd Ht Hnew Hdeps Hp Hok. pose proof Hok as [Hdom Hd Hst Hb].
  assert (forall t', (forall dep, dep ∈ sp_upstream_task_ids t' -> dep ∈ p) ->
    stage_of (<[sp_task_id t := stage_of stages t]> stages) t' = stage_of stages t') as Heq.
  { intros t' Ht'. unfold stage_of at 1 3. destruct (sp_upstream_task_ids t') as [|d deps] eqn:E; [done|].
    f_equal. rewrite <-E in *. clear E. induction (sp_upstream_task_ids t') as [|x l IHl]; [done|].
    cbn. rewrite lookup_insert_ne by set_solver. destruct (stages !! x); [f_equal|]; apply IHl; set_solver. }
  split.
  - intros id. rewrite elem_of_app, list_elem_of_singleton, <-Hdom.
    destruct (decide (sp_task_id t = id)) as [<-|]; [rewrite lookup_insert_eq; naive_solver|].
    rewrite lookup_insert_ne by done. naive_solver.
  - intros t' dep Ht' [Hin|Hin%list_elem_of_singleton]%elem_of_app Hdep; [set_solver|].
    assert (t' = t) as -> by (by eapply task_id_inj). set_solver.
  - intros t' Ht' [Hin|Hin%list_elem_of_singleton]%elem_of_app.
    + rewrite lookup_insert_ne by (intros E; by rewrite E in Hnew). rewrite Heq; [by apply Hst|]. intros dep. by apply Hd.
    + assert (t' = t) as -> by (by eapply task_id_inj). by rewrite lookup_insert_eq, Heq.
  - intros id x. rewrite length_app. cbn [length].
    destruct (decide (sp_task_id t = id)) as [<-|].
    + rewrite lookup_insert_eq. intros [= <-]. pose proof (stage_of_bound _ _ _ t Hok Hp Hdeps). lia.
    + rewrite lookup_insert_ne by done. intros Hx%Hb. lia.
Qed.

(** [l] lists tasks after the tasks they depend on. *)
Definition respects tasks (l : list N) : Prop :=
  forall l1 t l2, l = l1 ++ sp_task_id t :: l2 -> t ∈ tasks ->
    forall dep, dep ∈ sp_upstream_task_ids t -> dep ∈ l1.

Lemma compute_stages_from_spec tasks m l p stages :
  NoDup (ids tasks) -> index_ok tasks m -> NoDup (p ++ l) -> (forall id, id ∈ l -> id ∈ ids tasks) ->
  respects tasks (p ++ l) -> (N.of_nat (length (p ++ l)) <= u32_max)%N -> stages_ok tasks p stages ->
  exists stages', compute_stages_from tasks m l stages = Ok stages' /\ stages_ok tasks (p ++ l) stages'.
Proof.
  intros Hnd Hm. revert p stages. induction l as [|id l IH]; intros p stages Hndl Hl Hr Hlen Hok;
    cbn [compute_stages_from].
  { exists stages. by rewrite app_nil_r. }
  destruct (find_task_id tasks m id Hnd Hm) as (t & Ht & <- & ->); [apply Hl; set_solver|]. cbn [fbind].
  assert (p ++ sp_task_id t :: l = (p ++ [sp_task_id t]) ++ l) as Heq by by rewrite <-app_assoc.
  fold (stage_of stages t). rewrite Heq in *. apply IH; [done|set_solver|done|done|].
  rewrite <-Heq in *. apply stages_ok_snoc; [done|done| |by eapply Hr| |done].
  - apply NoDup_app in Hndl as (_ & Hdis & _). set_solver.
  - rewrite length_app in Hlen. simpl in Hlen. lia.
Qed.

(** ** The tasks of the plan *)

Lemma find_task_staged tasks m stages id t :
  find_task tasks m id = Ok t -> find_task (set_stage stages <$> tasks) m id = Ok (set_stage stages t).
Proof.
  unfold find_task. destruct (m !! id) as [i|]; [|done]. rewrite list_lookup_fmap.
  destruct (tasks !! i); [|done]. by intros [= ->].
Qed.

Lemma tasks_in_order_spec tasks m stages l :
  NoDup (ids tasks) -> index_ok tasks m -> (forall id, id ∈ l -> id ∈ ids tasks) ->
  exists ts, tasks_in_order (set_stage stages <$> tasks) m l = Ok ts /\
    Forall2 (fun id t' => exists t, t ∈ tasks /\ sp_task_id t = id /\ t' = set_stage stages t) l ts.
Proof.
  intros Hnd Hm. induction l as [|id l IH]; intros Hl; cbn [tasks_in_order]; [by exists []|].
  destruct (find_task_id tasks m id Hnd Hm) as (t & Ht & Hid & Hf); [apply Hl; set_solver|].
  rewrite (find_task_staged _ _ _ _ _ Hf). cbn [fbind].
  destruct IH as (ts & -> & Hts); [set_solver|]. cbn [fbind].
  exists (set_stage stages t :: ts). split; [done|]. constructor; [by exists t|done].
Qed.

Lemma in_order_perm tasks (stages : gmap N N) l ts :
  NoDup (ids tasks) -> l ≡ₚ ids tasks ->
  Forall2 (fun id t' => exists t, t ∈ tasks /\ sp_task_id t = id /\ t' = set_stage stages t) l ts ->
  ts ≡ₚ set_stage stages <$> tasks.
Proof.
  intros Hnd Hl Hts.
  assert (forall l, NoDup l -> forall ts,
    Forall2 (fun id t' => exists t, t ∈ tasks /\ sp_task_id t = id /\ t' = set_stage stages t) l ts ->
    exists us, ts = set_stage stages <$> us /\ ids us = l /\ NoDup us /\ forall t, t ∈ us -> t ∈ tasks) as H.
  { clear l ts Hl Hts. intros l Hndl ts Hts. induction Hts as [|id t' l ts (t & Ht & <- & ->) _ IH].
    - exists []. split_and!; [done|done|constructor|by intros ? ?%elem_of_nil].
    - apply NoDup_cons in Hndl as [Hid Hndl]. destruct (IH Hndl) as (us & -> & <- & Hus & Hin).
      exists (t :: us). split_and!; [done|done| |set_solver].
      constructor; [|done]. intros Hu. apply Hid. by apply list_elem_of_fmap_2. }
  destruct (H l) with (ts := ts) as (us & -> & <- & Hus & Hin); [by rewrite Hl|done|].
  apply fmap_Permutation, NoDup_Permutation; [done|by eapply NoDup_fmap_1|].
  intros t. split; [apply Hin|]. intros Ht.
  assert (sp_task_id t ∈ ids us) as (u & E & Hu)%list_elem_of_fmap
    by (rewrite Hl; by apply list_elem_of_fmap_2).
  by rewrite (task_id_inj tasks t u Hnd Ht (Hin _ Hu) E).
Qed.
End Build.

(** ** Writing canonical JSON *)

Section Json.
Context `{HJ : JsonString}.

Definition writable (v : Value) : Prop := exists s, write_value v = Ok s.

Lemma write_all_ok first outs :
  Forall (fun r => exists s : string, r = Ok s) outs -> exists s, write_all first outs = Ok s.
Proof.
  intros H. revert first. induction H as [|r outs [s ->] _ IH]; intros first; [by eexists|].
  cbn. destruct (IH false) as [rest ->]. by eexists.
Qed.

Lemma write_array_ok items : Forall writable items -> writable (VArray items).
Proof.
  intros Hi. unfold writable. cbn.
  destruct (write_all_ok true (map write_value items)) as [s ->]; [|by eexists].
  apply Forall_map. eapply Forall_impl; [exact Hi|]. done.
Qed.

Lemma insert_member_perm {A} (x : string * A) l : insert_member x l ≡ₚ x :: l.
Proof.
  induction l as [|y l IH]; simpl; [done|]. destruct (str_leb x.1 y.1); [done|].
  rewrite IH. apply Permutation_swap.
Qed.

Lemma sort_members_perm {A} (l : list (string * A)) : sort_members l ≡ₚ l.
Proof. induction l as [|x l IH]; simpl; [done|]. by rewrite insert_member_perm, IH. Qed.

Lemma write_object_ok members : Forall (fun m => writable m.2) members -> writable (VObject members).
Proof.
  intros Hm. unfold writable. cbn.
  match goal with |- context [write_all true ?l] => destruct (write_all_ok true l) as [s ->] end;
    [|by eexists].
  apply Forall_map. rewrite sort_members_perm. apply Forall_map.
  eapply Forall_impl; [exact Hm|]. intros [k v] [s Hs]. simpl in *. rewrite Hs. by eexists.
Qed.

Lemma fingerprint_writable tenant workspace tasks : writable (fingerprint_value tenant workspace tasks).
Proof.
  apply write_object_ok. repeat (apply Forall_cons; split); [by eexists..| |constructor].
  apply write_array_ok, Forall_fmap, Forall_true. intros t.
  apply write_object_ok. repeat (apply Forall_cons; split); [by eexists| |by eexists| |constructor].
  - apply write_array_ok, Forall_fmap, Forall_true. intros k. by eexists.
  - apply write_object_ok. repeat (apply Forall_cons; split); [by eexists..|constructor].
Qed.

Lemma compute_fingerprint_ok `{Base64} `{Display N} `{Hashes} tenant workspace tasks :
  exists f, compute_fingerprint tenant workspace tasks = Ok f.
Proof.
  unfold compute_fingerprint.
  destruct (fingerprint_writable tenant workspace (fingerprint_tasks tasks)) as [s ->]. by eexists.
Qed.
End Json.

(** ** Building *)

Section Correct.
Context `{HB : Base64} `{HG : DiGraph N} `{!DiGraphLaws N} `{HD : Display N}
  `{HJ : JsonString} `{HH : Hashes}.
Implicit Types (tasks : list TaskSpec).
#[local] Set Default Proof Using "All".

(** [v] names [u] among its dependencies. *)
Definition depends tasks (u v : N) : Prop :=
  exists t, t ∈ tasks /\ sp_task_id t = v /\ u ∈ sp_upstream_task_ids t.

(** Why a set of tasks has no plan. *)
Inductive refused tasks : FlowError -> Prop :=
  | refused_size :
      (10000 < N.of_nat (length tasks))%N -> refused tasks (PlanTooLarge (N.of_nat (length tasks)) 10000)
  | refused_ids message :
      ~ NoDup (sp_task_id <$> tasks) -> refused tasks (PlanGenerationFailed message)
  | refused_keys message :
      ~ NoDup (task_key_of <$> tasks) -> refused tasks (PlanGenerationFailed message)
  | refused_dependency t dep :
      t ∈ tasks -> dep ∈ sp_upstream_task_ids t -> dep ∉ sp_task_id <$> tasks ->
      refused tasks (missing_dependency dep)
  | refused_cycle c :
      closed_path (depends tasks) c -> refused tasks (CycleDetected (to_string <$> c)).

(** Tasks whose dependencies are tasks, with ids and keys of their own. *)
Record acceptable tasks : Prop := {
  ac_size : (N.of_nat (length tasks) <= 10000)%N;
  ac_ids : NoDup (sp_task_id <$> tasks);
  ac_keys : NoDup (task_key_of <$> tasks);
  ac_deps : forall t dep, t ∈ tasks -> dep ∈ sp_upstream_task_ids t -> dep ∈ sp_task_id <$> tasks
}.

Lemma elem_of_build_edges tasks u v : (u, v) ∈ build_edges tasks <-> depends tasks u v.
Proof.
  unfold build_edges, depends. rewrite list_elem_of_bind. split.
  - intros (t & (dep & [= -> ->] & Hdep)%list_elem_of_fmap & Ht). eauto.
  - intros (t & Ht & <- & Hu). exists t. split; [|done]. apply list_elem_of_fmap. eauto.
Qed.

(** The key of a task, for the sort. *)
Definition key_of_id (key_by_id : gmap N string) (id : N) : string :=
  default (to_string id) (key_by_id !! id).

(** How [build] proceeds on acceptable tasks. *)
Record run_ok tasks (l : list N) (stages : gmap N N) (ts : list TaskSpec) : Prop := {
  rk_ids : l ≡ₚ sp_task_id <$> tasks;
  rk_order : respects tasks l;
  rk_stages : stages_ok tasks l stages;
  rk_tasks : Forall2 (fun id t' => exists t, t ∈ tasks /\ sp_task_id t = id /\
               t' = set_stage stages t) l ts
}.

Definition keys_ok tasks (key_by_id : gmap N string) : Prop :=
  forall id k, key_by_id !! id = Some k <-> exists t, t ∈ tasks /\ sp_task_id t = id /\ task_key_of t = k.

Lemma order_respects tasks (dag : Dag N) l :
  NoDup l -> (forall u v, dag_edge dag u v <-> depends tasks u v) ->
  (forall u v, dag_edge dag u v -> exists l1 l2, l = l1 ++ v :: l2 /\ u ∈ l1) -> respects tasks l.
Proof.
  intros Hnd Hedge Hr l1 t l2 Hl Ht dep Hdep.
  destruct (Hr dep (sp_task_id t)) as (m1 & m2 & Hm & Hin); [apply Hedge; by exists t|].
  assert (l1 = m1) as ->; [|done]. rewrite Hl in Hm, Hnd.
  assert (length l1 = length m1) as Hlen.
  { eapply (NoDup_lookup _ _ _ (sp_task_id t) Hnd); [by apply list_lookup_middle|].
    rewrite Hm. by apply list_lookup_middle. }
  by apply app_inj_1 in Hm as [? _].
Qed.

Lemma build_accepted b pid now :
  acceptable (pb_tasks b) ->
  let tasks := pb_tasks b in
  exists key_by_id dag, keys_ok tasks key_by_id /\ built dag /\ nodes dag ≡ₚ sp_task_id <$> tasks /\
    (forall u v, dag_edge dag u v <-> depends tasks u v) /\
    match toposort_by_key (key_of_id key_by_id) dag with
    | Err e => build b pid now = Err e
    | Ok l => exists stages ts f, run_ok tasks l stages ts /\
        compute_fingerprint (pb_tenant_id b) (pb_workspace_id b) ts = Ok f /\
        build b pid now = Ok (mkPlan pid (pb_tenant_id b) (pb_workspace_id b) now 1
          (default "" (pb_input_hash b)) f ts
          (edges_to_dependencies (sort_by (edge_leb key_by_id) (build_edges tasks))))
    end.
Proof.
  intros [Hsize Hids Hkeys Hdeps] tasks.
  assert (validate_task_limit (N.of_nat (length tasks)) = Ok tt) as Hlimit.
  { unfold validate_task_limit, MAX_TASKS_PER_PLAN. by rewrite (proj2 (N.ltb_ge _ _)). }
  pose proof (index_tasks_spec tasks) as Hindex.
  destruct (index_tasks_by_id tasks) as [m|] eqn:Em; [|by destruct Hindex].
  destruct Hindex as [_ Hm]. pose proof (build_task_keys_spec tasks Hids) as Hkey.
  destruct (build_task_keys tasks) as [key_by_id|] eqn:Ek; [|by destruct Hkey].
  destruct Hkey as [_ Hkey]. pose proof (validate_dependencies_spec tasks m) as Hval.
  destruct (validate_dependencies_exist tasks m) as [[]|] eqn:Ev; last first.
  { exfalso. destruct Hval as (t & dep & Ht & Hdep & Hnone & _).
    destruct (find_task_id tasks m dep Hids Hm (Hdeps t dep Ht Hdep)) as (t' & _ & _ & Hf).
    unfold find_task in Hf. by rewrite Hnone in Hf. }
  destruct (topo_sort_graph tasks key_by_id Hids Hdeps) as (dag & Hb & Hn & He & Htopo).
  assert (forall u v, dag_edge dag u v <-> depends tasks u v) as He'
    by (intros u v; by rewrite He, elem_of_build_edges).
  exists key_by_id, dag. split_and!; [done..|]. pose proof (toposort_by_key_spec (key_of_id key_by_id) dag Hb) as Hs.
  fold (key_of_id key_by_id) in Htopo.
  unfold build. fold tasks. rewrite Hlimit. cbn [fbind]. rewrite Em. cbn [fbind]. rewrite Ek. cbn [fbind].
  rewrite Ev. cbn [fbind]. rewrite Htopo.
  destruct (toposort_by_key (key_of_id key_by_id) dag) as [l|e]; [|done]. cbn [fbind].
  destruct Hs as (Hp & _ & Hr). rewrite Hn in Hp. assert (NoDup l) as Hndl by by rewrite Hp.
  pose proof (order_respects tasks dag l Hndl He' Hr) as Hresp.
  destruct (compute_stages_from_spec tasks m l [] ∅ Hids Hm Hndl) as (stages & Hst & Hok).
  { intros id. by rewrite Hp. }
  { done. }
  { simpl. rewrite Hp, length_fmap. unfold u32_max, tasks. lia. }
  { split; [|by intros ? ? ? ?%elem_of_nil|by intros ? ? ?%elem_of_nil|by intros ? ?; rewrite lookup_empty].
    intros id. rewrite lookup_empty, elem_of_nil. split; [by intros []|done]. }
  unfold compute_stages. rewrite Hst. cbn [fbind].
  destruct (tasks_in_order_spec tasks m stages l Hids Hm) as (ts & -> & Hts); [intros id; by rewrite Hp|].
  cbn [fbind]. destruct (compute_fingerprint_ok (pb_tenant_id b) (pb_workspace_id b) ts) as [f Hf].
  rewrite Hf. cbn [fbind]. exists stages, ts, f. split_and!; [by split|done|done].
Qed.

Lemma build_refused b pid now :
  acceptable (pb_tasks b) \/ exists e, build b pid now = Err e /\ refused (pb_tasks b) e.
Proof.
  set (tasks := pb_tasks b). unfold build. fold tasks.
  unfold validate_task_limit, MAX_TASKS_PER_PLAN.
  destruct (N.ltb_spec 10000 (N.of_nat (length tasks))) as [Hsize|Hsize]; cbn [fbind].
  { right. eexists. split; [done|by constructor]. }
  pose proof (index_tasks_spec tasks) as Hindex. destruct (index_tasks_by_id tasks) as [m|e]; cbn [fbind];
    [|destruct Hindex as [[message ->] Hnd]; right; eexists; split; [done|by constructor]].
  destruct Hindex as [Hids Hm]. pose proof (build_task_keys_spec tasks Hids) as Hkey.
  destruct (build_task_keys tasks) as [keys|e]; cbn [fbind];
    [|destruct Hkey as [[message ->] Hnd]; right; eexists; split; [done|by apply refused_keys]].
  destruct Hkey as [Hkeys _]. pose proof (validate_dependencies_spec tasks m) as Hval.
  destruct (validate_dependencies_exist tasks m) as [[]|e]; cbn [fbind]; [left|right].
  - split; [done..|]. intros t dep Ht Hdep. destruct (Hval t dep Ht Hdep) as [i Hi].
    apply Hm in Hi as (t' & Ht' & <-). apply list_elem_of_fmap_2. by eapply list_elem_of_lookup_2.
  - destruct Hval as (t & dep & Ht & Hdep & Hnone & ->). eexists. split; [done|].
    eapply refused_dependency; [done..|]. intros Hin.
    destruct (find_task_id tasks m dep Hids Hm Hin) as (t' & _ & _ & Hf).
    unfold find_task in Hf. by rewrite Hnone in Hf.
Qed.

(** What a plan promises of its tasks. *)
Record plan_ok tasks (p : Plan) : Prop := {
  (* the tasks given, each with a stage *)
  po_tasks : exists stage, pl_tasks p ≡ₚ (fun t => t <| sp_stage := stage t |>) <$> tasks;
  (* each task after the tasks it depends on *)
  po_order : forall l1 t l2, pl_tasks p = l1 ++ t :: l2 ->
    forall dep, dep ∈ sp_upstream_task_ids t -> dep ∈ sp_task_id <$> l1;
  (* the stage of a task is one more than the latest of its dependencies *)
  po_root : forall t, t ∈ pl_tasks p -> sp_upstream_task_ids t = [] -> sp_stage t = 0%N;
  po_stage : forall t d, t ∈ pl_tasks p -> d ∈ pl_tasks p ->
    sp_task_id d ∈ sp_upstream_task_ids t -> (sp_stage d < sp_stage t)%N;
  po_tight : forall t, t ∈ pl_tasks p -> sp_upstream_task_ids t <> [] ->
    exists d, d ∈ pl_tasks p /\ sp_task_id d ∈ sp_upstream_task_ids t /\
      sp_stage t = (sp_stage d + 1)%N;
  (* the dependencies, as edges *)
  po_dependencies :
    (fun e => (de_source_task_id e, de_target_task_id e)) <$> pl_dependencies p ≡ₚ build_edges tasks
}.

Lemma run_tasks tasks l stages ts t :
  acceptable tasks -> run_ok tasks l stages ts ->
  (t ∈ ts <-> exists t0, t0 ∈ tasks /\ t = set_stage stages t0).
Proof.
  intros Hac [Hl _ _ Hts].
  rewrite (in_order_perm tasks stages l ts (ac_ids _ Hac) Hl Hts), list_elem_of_fmap. naive_solver.
Qed.

Lemma run_stage tasks l stages ts t :
  acceptable tasks -> run_ok tasks l stages ts -> t ∈ tasks ->
  sp_stage (set_stage stages t) = stage_of stages t /\
  (forall dep, dep ∈ sp_upstream_task_ids t -> exists s, stages !! dep = Some s) /\
  (sp_upstream_task_ids t <> [] ->
   let ss := omap (fun dep => stages !! dep) (sp_upstream_task_ids t) in
   (forall x, x ∈ ss -> (x < stage_of stages t)%N) /\ exists x, x ∈ ss /\ stage_of stages t = (x + 1)%N).
Proof.
  intros Hac [Hl _ Hok _] Ht.
  assert (sp_task_id t ∈ l) as Hid by (rewrite Hl; by apply list_elem_of_fmap_2).
  assert (forall dep, dep ∈ sp_upstream_task_ids t -> dep ∈ l) as Hdeps
    by (intros dep; by apply (so_deps _ _ _ Hok)).
  split_and!.
  - unfold set_stage. cbn. by rewrite (so_stage _ _ _ Hok t Ht Hid).
  - intros dep Hdep%Hdeps. by apply (so_dom _ _ _ Hok) in Hdep.
  - intros Hne ss. destruct (stages_lookup tasks l stages _ Hok Hdeps Hne) as [Hss Hlt].
    assert (N.of_nat (length l) < u32_max)%N as Hlen.
    { rewrite Hl, length_fmap. pose proof (ac_size _ Hac). unfold u32_max. lia. }
    unfold stage_of. destruct (sp_upstream_task_ids t) as [|d deps] eqn:E; [done|].
    destruct (next_stage_spec _ _ Hss Hlen Hlt) as (H1 & H2 & _). done.
Qed.

Lemma edges_dependencies edges :
  (fun e => (de_source_task_id e, de_target_task_id e)) <$> edges_to_dependencies edges = edges.
Proof. unfold edges_to_dependencies. induction edges as [|[a b] l IH]; [done|]. cbn. f_equal. exact IH. Qed.

Lemma run_plan_ok tasks l stages ts p :
  acceptable tasks -> run_ok tasks l stages ts -> pl_tasks p = ts ->
  (exists key_by_id, pl_dependencies p =
     edges_to_dependencies (sort_by (edge_leb key_by_id) (build_edges tasks))) -> plan_ok tasks p.
Proof.
  intros Hac Hrun Hts [keys Hdeps]. pose proof Hrun as [Hl Hr Hok H2].
  pose proof (in_order_perm tasks stages l ts (ac_ids _ Hac) Hl H2) as Hperm.
  split; rewrite ?Hts.
  - exists (fun t => default 0%N (stages !! sp_task_id t)). done.
  - intros l1 t' l2 -> dep. apply Forall2_app_inv_r in H2 as (k1 & k2 & Hk1 & Hk2 & ->).
    inversion Hk2 as [|id ? k3 ? (t & Ht & <- & ->) _]; subst. cbn. intros Hdep.
    assert (k1 = sp_task_id <$> l1) as <-.
    { clear - Hk1. induction Hk1 as [|id t' k1 l1 (t & _ & <- & ->) _ IH]; [done|]. cbn. by f_equal. }
    by eapply Hr.
  - intros t' (t & Ht & ->)%(run_tasks _ _ _ _ _ Hac Hrun) Hroot. cbn in Hroot.
    destruct (run_stage _ _ _ _ _ Hac Hrun Ht) as [-> _]. unfold stage_of. by rewrite Hroot.
  - intros t' d' (t & Ht & ->)%(run_tasks _ _ _ _ _ Hac Hrun) (d & Hd & ->)%(run_tasks _ _ _ _ _ Hac Hrun).
    cbn [set_stage sp_task_id sp_upstream_task_ids put_field]. intros Hin.
    destruct (run_stage _ _ _ _ _ Hac Hrun Ht) as (-> & Hsome & Hstage).
    destruct (Hstage ltac:(by intros E; rewrite E in Hin; apply elem_of_nil in Hin)) as [Hlt _].
    destruct (Hsome _ Hin) as [s Hs]. apply Hlt, list_elem_of_omap. exists (sp_task_id d).
    split; [done|]. unfold set_stage. cbn. by rewrite Hs.
  - intros t' (t & Ht & ->)%(run_tasks _ _ _ _ _ Hac Hrun) Hne. cbn in Hne.
    destruct (run_stage _ _ _ _ _ Hac Hrun Ht) as (-> & Hsome & Hstage).
    destruct (Hstage Hne) as [_ (x & (dep & Hdep & Hx)%list_elem_of_omap & ->)].
    destruct (proj1 (list_elem_of_fmap _ _ _) (ac_deps _ Hac t dep Ht Hdep)) as (d & -> & Hd).
    exists (set_stage stages d). split_and!; [apply (run_tasks _ _ _ _ _ Hac Hrun); eauto|done|].
    unfold set_stage. cbn. by rewrite Hx.
  - rewrite Hdeps, edges_dependencies. apply sort_by_perm.
Qed.
End Correct.

(** The outcomes of [build]. *)
Lemma build_spec `{HB : Base64} `{HG : DiGraph N} `{!DiGraphLaws N} `{HD : Display N}
    `{HJ : JsonString} `{HH : Hashes} (b : PlanBuilder) (plan_id : string) (now : DateTime) :
  match build b plan_id now with
  | Ok p => acceptable (pb_tasks b) /\ plan_ok (pb_tasks b) p
  | Err e => refused (pb_tasks b) e
  end.
Proof.
  destruct (build_refused b plan_id now) as [Hac|(e & -> & Hr)]; [|done].
  destruct (build_accepted b plan_id now Hac) as (keys & dag & _ & Hb & _ & He & Hbuild).
  pose proof (toposort_by_key_spec (key_of_id keys) dag Hb) as Hs.
  destruct (toposort_by_key (key_of_id keys) dag) as [l|e].
  - destruct Hbuild as (stages & ts & f & Hrun & _ & ->). split; [done|].
    eapply run_plan_ok; [done..|]. by exists keys.
  - rewrite Hbuild. destruct Hs as (c & -> & x & m & -> & Hc). constructor. exists x, m. split; [done|].
    clear - Hc He. induction (x :: m ++ [x]) as [|a [|c k] IH]; [done..|]. destruct Hc as [Hac Hc].
    split; [by apply He|by apply IH].
Qed.

(** C37: a plan is right, and a refusal has a reason.  When [build] returns a plan, its
    tasks are the tasks given, each after every task it depends on, with the stage one
    above the latest stage it depends on (0 without dependencies), and its edges are
    the dependencies.  When it returns an error, that error names what is wrong with
    the tasks: more than 10 000 of them, an id or a key used twice, a dependency that
    is not a task, or a cycle of dependencies, whose nodes it lists in order with the
    first repeated at the end.  Whatever order the graph library enumerates neighbours
    in, the search for the order and for the cycle end within their bounds. *)
Theorem plan_build_correct `{HB : Base64} `{HG : DiGraph N} `{!DiGraphLaws N} `{HD : Display N}
    `{HJ : JsonString} `{HH : Hashes} (b : PlanBuilder) (plan_id : string) (now : DateTime) :
  match build b plan_id now with
  | Ok p => acceptable (pb_tasks b) /\ plan_ok (pb_tasks b) p
  | Err e => refused (pb_tasks b) e
  end.
Proof. exact (build_spec b plan_id now). Qed.

(** ** A plan *)

Module PlanSample.
#[export] Instance words : Base64 := letters_base64.
#[export] Instance display_id : Display N := fun id => pretty id.
#[export] Instance plain_string : JsonString := fun s => "'" +:+ s +:+ "'".

Definition task (id : N) (name : string) (deps : list N) : TaskSpec :=
  mkTaskSpec id ("asset-" +:+ name) (mkAssetKey "raw" name) OpMaterialize None deps 0 0
    resource_requirements_default.

(** [daily] joins [left] and [right], which both read [source]. *)
Definition diamond : PlanBuilder :=
  let b := plan_builder_new "tenant" "workspace" in
  let b := add_task b (task 4 "daily" [2; 3]%N) in
  let b := add_task b (task 2 "left" [1]%N) in
  let b := add_task b (task 3 "right" [1]%N) in
  add_task b (task 1 "source" []).

(** A loop, and a task that is not there. *)
Definition loop : PlanBuilder :=
  add_task (add_task (plan_builder_new "tenant" "workspace") (task 1 "a" [2]%N)) (task 2 "b" [1]%N).
Definition dangling : PlanBuilder :=
  add_task (plan_builder_new "tenant" "workspace") (task 1 "a" [9]%N).
End PlanSample.
Import PlanSample.

Lemma plan_build_correct_witness :
  (exists p, build PlanSample.diamond "plan" 0 = Ok p /\ plan_ok (pb_tasks PlanSample.diamond) p /\
     ((fun t => (sp_task_id t, sp_stage t)) <$> pl_tasks p) = [(1, 0); (2, 1); (3, 1); (4, 2)]%N) /\
  (build PlanSample.loop "plan" 0 = Err (CycleDetected ["1"; "2"; "1"]) /\
   refused (pb_tasks PlanSample.loop) (CycleDetected ["1"; "2"; "1"])) /\
  refused (pb_tasks PlanSample.dangling) (DependencyNotFound "task 9").
Proof.
  split_and!.
  - eexists. split_and!; [vm_compute; reflexivity| |vm_compute; reflexivity].
    exact (proj2 (plan_build_correct PlanSample.diamond "plan" 0)).
  - vm_compute. reflexivity.
  - exact (plan_build_correct PlanSample.loop "plan" 0).
  - exact (plan_build_correct PlanSample.dangling "plan" 0).
Defined.
