(* ===== verification/PlanDeterminism.v ===== *)
(** Plans are deterministic: the order in which tasks are added and the ids they were
    given do not matter. *)

From S2P Require Import Prelude Sample Storage Events Dag DagProps DagCycle Canonical Plan PlanProps.
From stdpp Require Import sorting options.
Import PlanSample.

(** The same task under another name: ids renamed by [f], the asset id and the stage
    left open. *)
Record same_task (f : N -> N) (t t' : TaskSpec) : Prop := {
  st_id : sp_task_id t' = f (sp_task_id t);
  st_asset_key : sp_asset_key t' = sp_asset_key t;
  st_operation : sp_operation t' = sp_operation t;
  st_partition_key : sp_partition_key t' = sp_partition_key t;
  st_upstream : sp_upstream_task_ids t' = f <$> sp_upstream_task_ids t;
  st_priority : sp_priority t' = sp_priority t;
  st_resources : sp_resources t' = sp_resources t
}.

(** ** Comparisons *)

(** A comparison that is a total preorder. *)
Definition good_compare {A} (c : A -> A -> comparison) : Prop :=
  (forall x y, c y x = CompOpp (c x y)) /\
  forall x y z, c x y <> Gt -> c y z <> Gt ->
    c x z <> Gt /\ (c x z = Eq -> c x y = Eq /\ c y z = Eq).

Lemma cmp_then_good {A} (c d : A -> A -> comparison) :
  good_compare c -> good_compare d -> good_compare (fun x y => cmp_then (c x y) (d x y)).
Proof.
  intros [Hc Tc] [Hd Td]. split.
  - intros x y. rewrite (Hc x y), (Hd x y). by destruct (c x y).
  - intros x y z Hxy Hyz. unfold cmp_then in *. specialize (Tc x y z). specialize (Td x y z).
    destruct (c x y), (c y z), (c x z); naive_solver.
Qed.

Lemma good_compare_on {A B} (g : A -> B) (c : B -> B -> comparison) :
  good_compare c -> good_compare (fun x y => c (g x) (g y)).
Proof. intros [Hc Tc]. split; intros; [apply Hc|by apply Tc]. Qed.

Lemma N_compare_good : good_compare N.compare.
Proof.
  split; [intros x y; apply N.compare_antisym|].
  intros x y z. rewrite !N.compare_le_iff, !N.compare_eq_iff. lia.
Qed.

Lemma String_compare_good : good_compare String.compare.
Proof.
  split; [intros x y; apply String.compare_antisym|]. intros x y z Hxy Hyz.
  assert (forall a b, String.compare a b <> Gt <-> str_leb a b = true) as Hle.
  { intros a b. unfold str_leb, String.leb. by destruct (String.compare a b). }
  rewrite Hle in *. assert (str_leb x z = true) as Hxz by eauto using str_leb_trans.
  split; [done|]. intros ->%String.compare_eq_iff.
  assert (y = z) as -> by eauto using str_leb_antisym.
  assert (String.compare z z = Eq) as E; [|done].
  pose proof (String.compare_antisym z z) as E. by destruct (String.compare z z).
Qed.

Lemma opt_compare_good : good_compare opt_compare.
Proof.
  destruct String_compare_good as [Hc Tc]. split.
  - intros [x|] [y|]; simpl; [apply Hc|done..].
  - intros [x|] [y|] [z|]; simpl; try done. apply Tc.
Qed.

Lemma good_compare_order {A} (c : A -> A -> comparison) :
  good_compare c ->
  (forall x y, not_greater (c x y) = true \/ not_greater (c y x) = true) /\
  (forall x y z, not_greater (c x y) = true -> not_greater (c y z) = true -> not_greater (c x z) = true).
Proof.
  intros [Hc Tc]. split.
  - intros x y. rewrite (Hc x y). destruct (c x y); auto.
  - intros x y z Hxy Hyz. destruct (Tc x y z) as [Hxz _]; [by intros E; rewrite E in *..|].
    by destruct (c x z).
Qed.

Lemma edge_leb_order keys :
  (forall x y, edge_leb keys x y = true \/ edge_leb keys y x = true) /\
  (forall x y z, edge_leb keys x y = true -> edge_leb keys y z = true -> edge_leb keys x z = true).
Proof.
  apply (good_compare_order (fun a b : N * N =>
    cmp_then (opt_compare (keys !! a.1) (keys !! b.1))
      (cmp_then (opt_compare (keys !! a.2) (keys !! b.2)) (cmp_then (a.1 ?= b.1)%N (a.2 ?= b.2)%N)))).
  repeat apply cmp_then_good.
  - apply (good_compare_on (fun a : N * N => keys !! a.1)), opt_compare_good.
  - apply (good_compare_on (fun a : N * N => keys !! a.2)), opt_compare_good.
  - apply (good_compare_on fst), N_compare_good.
  - apply (good_compare_on snd), N_compare_good.
Qed.

Section Rename.
Context `{HB : Base64} `{HG : DiGraph N} `{!DiGraphLaws N} `{HD : Display N}
  `{HJ : JsonString} `{HH : Hashes}.
Context (f : N -> N) `{Hinj : !Inj (=) (=) f}.
#[local] Set Default Proof Using "All".

Lemma same_task_key t t' : same_task f t t' -> task_key_of t' = task_key_of t.
Proof. intros [_ H1 H2 H3 _ _ _]. unfold task_key_of. by rewrite H1, H2, H3. Qed.

Lemma same_tasks_ids l l' :
  Forall2 (same_task f) l l' -> sp_task_id <$> l' = f <$> (sp_task_id <$> l).
Proof. induction 1 as [|t t' l l' Ht _ IH]; [done|]. cbn. rewrite (st_id _ _ _ Ht). f_equal. exact IH. Qed.

Lemma same_tasks_keys l l' :
  Forall2 (same_task f) l l' -> task_key_of <$> l' = task_key_of <$> l.
Proof. induction 1 as [|t t' l l' Ht _ IH]; [done|]. cbn. rewrite (same_task_key _ _ Ht). f_equal. exact IH. Qed.

Lemma same_tasks_edges l l' :
  Forall2 (same_task f) l l' -> build_edges l' = prod_map f f <$> build_edges l.
Proof.
  induction 1 as [|t t' k k' Hs _ IH]; [done|]. unfold build_edges in *. cbn.
  rewrite fmap_app, (st_upstream _ _ _ Hs), (st_id _ _ _ Hs). f_equal; [|exact IH].
  rewrite <-!list_fmap_compose. by apply list_fmap_ext.
Qed.

(** Tasks that can be planned together have keys of their own. *)
Lemma task_key_inj tasks t t' :
  acceptable tasks -> t ∈ tasks -> t' ∈ tasks -> task_key_of t = task_key_of t' -> t = t'.
Proof.
  intros Hac [i Hi]%list_elem_of_lookup_1 [j Hj]%list_elem_of_lookup_1 E.
  assert (i = j) as ->; [|congruence].
  eapply (NoDup_lookup _ _ _ _ (ac_keys _ Hac)); rewrite list_lookup_fmap; [by rewrite Hi|]. by rewrite Hj, E.
Qed.

(** ** The tasks *)

Section Tasks.
Context (tasks tasks' tasks0 : list TaskSpec).
Context (Hperm : tasks' ≡ₚ tasks0) (Hsame : Forall2 (same_task f) tasks tasks0).

Lemma renamed_elem t : t ∈ tasks -> exists t', t' ∈ tasks' /\ same_task f t t'.
Proof.
  intros [i Hi]%list_elem_of_lookup_1. destruct (Forall2_lookup_l _ _ _ _ _ Hsame Hi) as (t' & Ht' & Hs).
  exists t'. split; [|done]. rewrite Hperm. by eapply list_elem_of_lookup_2.
Qed.

Lemma renamed_elem_inv t' : t' ∈ tasks' -> exists t, t ∈ tasks /\ same_task f t t'.
Proof.
  rewrite Hperm. intros [i Hi]%list_elem_of_lookup_1.
  destruct (Forall2_lookup_r _ _ _ _ _ Hsame Hi) as (t & Ht & Hs).
  exists t. split; [|done]. by eapply list_elem_of_lookup_2.
Qed.

Lemma renamed_ids : sp_task_id <$> tasks' ≡ₚ f <$> (sp_task_id <$> tasks).
Proof.
  by rewrite Hperm, (same_tasks_ids _ _ Hsame).
Qed.

Lemma renamed_keys : task_key_of <$> tasks' ≡ₚ task_key_of <$> tasks.
Proof.
  by rewrite Hperm, (same_tasks_keys _ _ Hsame).
Qed.

Lemma renamed_acceptable : acceptable tasks -> acceptable tasks'.
Proof.
  intros [Hsize Hids Hkeys Hdeps]. split.
  - rewrite Hperm. by rewrite <-(Forall2_length _ _ _ Hsame).
  - rewrite renamed_ids. by apply NoDup_fmap_2.
  - by rewrite renamed_keys.
  - intros t' dep' Ht' Hdep'. destruct (renamed_elem_inv t' Ht') as (t & Ht & Hs).
    rewrite (st_upstream _ _ _ Hs) in Hdep'. apply list_elem_of_fmap in Hdep' as (dep & -> & Hdep).
    rewrite renamed_ids. by apply list_elem_of_fmap_2, (Hdeps t).
Qed.

Lemma renamed_depends u v : depends tasks' (f u) (f v) <-> depends tasks u v.
Proof.
  split.
  - intros (t' & Ht' & Hid & Hu). destruct (renamed_elem_inv t' Ht') as (t & Ht & Hs).
    exists t. rewrite (st_id _ _ _ Hs) in Hid. rewrite (st_upstream _ _ _ Hs) in Hu.
    split_and!; [done|by apply Hinj|]. apply list_elem_of_fmap in Hu as (u' & E & Hu).
    by apply Hinj in E as ->.
  - intros (t & Ht & <- & Hu). destruct (renamed_elem t Ht) as (t' & Ht' & Hs). exists t'.
    split_and!; [done|by rewrite (st_id _ _ _ Hs)|]. rewrite (st_upstream _ _ _ Hs).
    by apply list_elem_of_fmap_2.
Qed.

Lemma renamed_depends_inv u' v' :
  depends tasks' u' v' -> exists u v, u' = f u /\ v' = f v /\ depends tasks u v.
Proof.
  intros (t' & Ht' & <- & Hu). destruct (renamed_elem_inv t' Ht') as (t & Ht & Hs).
  rewrite (st_upstream _ _ _ Hs) in Hu. apply list_elem_of_fmap in Hu as (u & -> & Hu).
  exists u, (sp_task_id t). split_and!; [done|by rewrite (st_id _ _ _ Hs)|]. by exists t.
Qed.

Context (keys keys' : gmap N string) (Hkeys : keys_ok tasks keys) (Hkeys' : keys_ok tasks' keys').

Lemma renamed_key_lookup id : id ∈ sp_task_id <$> tasks -> keys' !! f id = keys !! id /\ is_Some (keys !! id).
Proof.
  intros (t & -> & Ht)%list_elem_of_fmap. destruct (renamed_elem t Ht) as (t' & Ht' & Hs).
  assert (keys !! sp_task_id t = Some (task_key_of t)) as -> by (apply Hkeys; eauto).
  split; [|by eexists]. rewrite <-(st_id _ _ _ Hs). apply Hkeys'.
  exists t'. split_and!; [done|done|by apply same_task_key].
Qed.

Lemma renamed_key id :
  id ∈ sp_task_id <$> tasks -> key_of_id keys' (f id) = key_of_id keys id.
Proof. intros Hid. destruct (renamed_key_lookup id Hid) as [E [k Hk]]. unfold key_of_id. by rewrite E, Hk. Qed.

(** ** The order *)

Lemma renamed_greedy l :
  greedy (sp_task_id <$> tasks) (depends tasks) (key_of_id keys) l ->
  greedy (sp_task_id <$> tasks') (depends tasks') (key_of_id keys') (f <$> l).
Proof.
  intros Hg l1' x' l2' E. apply fmap_app_inv in E as (l1 & l2 & -> & E & ->).
  symmetry in E. apply fmap_cons_inv in E as (x & l3 & -> & -> & ->).
  destruct (Hg l1 x l3 eq_refl) as (Hx & Hxl & Hxu & Hbest). split_and!.
  - rewrite renamed_ids. by apply list_elem_of_fmap_2.
  - by rewrite list_elem_of_fmap_inj.
  - intros u' (u & v & -> & E%Hinj & Hd)%renamed_depends_inv. subst v. by apply list_elem_of_fmap_2, Hxu.
  - intros y'. rewrite renamed_ids. intros (y & -> & Hy)%list_elem_of_fmap Hyl Hyu.
    rewrite !renamed_key by done. apply Hbest; [done|by rewrite list_elem_of_fmap_inj in Hyl|].
    intros u Hu. apply renamed_depends, Hyu in Hu. by rewrite list_elem_of_fmap_inj in Hu.
Qed.

(** ** Stages *)

Context (l : list N) (stages stages' : gmap N N) (ts ts' : list TaskSpec).
Context (Hac : acceptable tasks) (Hac' : acceptable tasks').
Context (Hrun : run_ok tasks l stages ts) (Hrun' : run_ok tasks' (f <$> l) stages' ts').

Lemma renamed_stage id : id ∈ l -> stages' !! f id = stages !! id.
Proof.
  pose proof Hrun as [Hl Hr Hok _]. pose proof Hrun' as [_ _ Hok' _].
  assert (forall l1 l2, l = l1 ++ l2 -> forall id, id ∈ l1 -> stages' !! f id = stages !! id) as Hpre;
    [|by intros Hid; apply (Hpre l []); rewrite ?app_nil_r].
  intros l1. induction l1 as [|x l1 IH] using rev_ind; intros l2 E y Hy; [by apply elem_of_nil in Hy|].
  rewrite <-app_assoc in E. specialize (IH _ E).
  apply elem_of_app in Hy as [Hy|Hy%list_elem_of_singleton]; [by apply IH|]. subst y.
  assert (x ∈ l) as Hx by (rewrite E; set_solver). pose proof Hx as Hx'. rewrite Hl in Hx'.
  apply list_elem_of_fmap in Hx' as (t & -> & Ht). destruct (renamed_elem t Ht) as (t' & Ht' & Hs).
  rewrite (so_stage _ _ _ Hok t Ht Hx). rewrite <-(st_id _ _ _ Hs).
  rewrite (so_stage _ _ _ Hok' t' Ht'); [f_equal|rewrite (st_id _ _ _ Hs); by apply list_elem_of_fmap_2].
  assert (forall dep, dep ∈ sp_upstream_task_ids t -> stages' !! f dep = stages !! dep) as Hdeps
    by (intros dep Hdep; apply IH; by eapply Hr).
  assert (omap (fun dep => stages' !! dep) (f <$> sp_upstream_task_ids t) =
    omap (fun dep => stages !! dep) (sp_upstream_task_ids t)) as Homap.
  { induction (sp_upstream_task_ids t) as [|z zs IHz]; [done|]. cbn. rewrite Hdeps by set_solver.
    destruct (stages !! z); [f_equal|]; apply IHz; set_solver. }
  unfold stage_of. rewrite (st_upstream _ _ _ Hs).
  destruct (sp_upstream_task_ids t) as [|d deps]; [done|]. cbn in Homap |- *. by rewrite Homap.
Qed.

Lemma renamed_in_order :
  Forall2 (fun t t' => same_task f t t' /\ sp_stage t' = sp_stage t) ts ts'.
Proof.
  pose proof Hrun as [Hl _ _ Hts]. pose proof Hrun' as [_ _ _ Hts'].
  assert (forall k, (forall id, id ∈ k -> id ∈ l) -> forall us us',
    Forall2 (fun id t' => exists t, t ∈ tasks /\ sp_task_id t = id /\ t' = set_stage stages t) k us ->
    Forall2 (fun id t' => exists t, t ∈ tasks' /\ sp_task_id t = id /\ t' = set_stage stages' t) (f <$> k) us' ->
    Forall2 (fun t t' => same_task f t t' /\ sp_stage t' = sp_stage t) us us') as H;
    [|by apply (H l)].
  induction k as [|id k IH]; intros Hk us us' H1 H2.
  { inversion H1; inversion H2; subst. constructor. }
  apply Forall2_cons_inv_l in H1 as (u & us1 & (t & Ht & Hid & ->) & H1 & ->).
  apply Forall2_cons_inv_l in H2 as (u' & us2 & (t' & Ht' & Hid' & ->) & H2 & ->).
  constructor; [|apply IH; [set_solver|done..]].
  destruct (renamed_elem_inv t' Ht') as (t0 & Ht0 & Hs).
  assert (t0 = t) as ->.
  { eapply (task_id_inj tasks); [apply Hac|done|done|]. rewrite Hid. apply Hinj.
    by rewrite <-(st_id _ _ _ Hs). }
  destruct Hs. split; [by split|]. unfold set_stage. cbn. rewrite Hid', Hid.
  by rewrite renamed_stage by set_solver.
Qed.

(** ** Edges *)

Lemma renamed_edges : build_edges tasks' ≡ₚ prod_map f f <$> build_edges tasks.
Proof. rewrite <-(same_tasks_edges _ _ Hsame). unfold build_edges. by rewrite Hperm. Qed.

Lemma key_lookup_inj id id' :
  id ∈ sp_task_id <$> tasks -> id' ∈ sp_task_id <$> tasks -> keys !! id = keys !! id' -> id = id'.
Proof.
  intros (t & -> & Ht)%list_elem_of_fmap (t' & -> & Ht')%list_elem_of_fmap.
  assert (keys !! sp_task_id t = Some (task_key_of t)) as -> by (apply Hkeys; eauto).
  assert (keys !! sp_task_id t' = Some (task_key_of t')) as -> by (apply Hkeys; eauto).
  intros [= E]. f_equal. by eapply (task_key_inj tasks).
Qed.

Lemma opt_compare_eq id id' :
  id ∈ sp_task_id <$> tasks -> id' ∈ sp_task_id <$> tasks ->
  opt_compare (keys !! id) (keys !! id') = Eq -> id = id'.
Proof.
  intros Hid Hid' E. apply key_lookup_inj; [done..|].
  destruct (keys !! id), (keys !! id'); try done. simpl in E. by apply String.compare_eq_iff in E as ->.
Qed.

Lemma build_edges_known e :
  e ∈ build_edges tasks -> e.1 ∈ sp_task_id <$> tasks /\ e.2 ∈ sp_task_id <$> tasks.
Proof.
  destruct e as [u v]. intros (t & Ht & <- & Hu)%elem_of_build_edges. cbn [fst snd].
  split; [by eapply (ac_deps _ Hac)|by apply (list_elem_of_fmap_2 sp_task_id)].
Qed.

(** The keys decide; the ids only break ties between equal edges. *)
Lemma renamed_edge_leb a b :
  a ∈ build_edges tasks -> b ∈ build_edges tasks ->
  edge_leb keys' (prod_map f f a) (prod_map f f b) = edge_leb keys a b /\
  (edge_leb keys a b = true -> edge_leb keys b a = true -> a = b).
Proof.
  intros [Ha1 Ha2]%build_edges_known [Hb1 Hb2]%build_edges_known.
  destruct a as [a1 a2], b as [b1 b2]. unfold edge_leb. cbn [fst snd prod_map] in *.
  rewrite (proj1 (renamed_key_lookup a1 Ha1)), (proj1 (renamed_key_lookup a2 Ha2)),
    (proj1 (renamed_key_lookup b1 Hb1)), (proj1 (renamed_key_lookup b2 Hb2)).
  rewrite (proj1 (opt_compare_good) (keys !! a1) (keys !! b1)).
  rewrite (proj1 (opt_compare_good) (keys !! a2) (keys !! b2)).
  destruct (opt_compare (keys !! a1) (keys !! b1)) eqn:E1; cbn; [|done..].
  apply opt_compare_eq in E1 as ->; [|done..].
  destruct (opt_compare (keys !! a2) (keys !! b2)) eqn:E2; cbn; [|done..].
  apply opt_compare_eq in E2 as ->; [|done..]. by rewrite !N.compare_refl.
Qed.

Lemma renamed_sorted_edges :
  sort_by (edge_leb keys') (build_edges tasks') = prod_map f f <$> sort_by (edge_leb keys) (build_edges tasks).
Proof.
  assert (forall k, (forall a b, a ∈ k -> b ∈ k -> edge_leb keys' (prod_map f f a) (prod_map f f b) = edge_leb keys a b) ->
    StronglySorted (edge_leb keys) k -> StronglySorted (edge_leb keys') (prod_map f f <$> k)) as Hmap.
  { intros k Hk. induction 1 as [|a k Hs IH Ha]; [constructor|]. cbn. constructor.
    - apply IH. set_solver.
    - apply Forall_fmap, Forall_forall. intros b Hb. cbn. rewrite Hk by set_solver.
      rewrite Forall_forall in Ha. by apply Ha. }
  eapply (StronglySorted_unique_strong (edge_leb keys')).
  - intros x y. rewrite !sort_by_perm, renamed_edges.
    intros (a & -> & Ha)%list_elem_of_fmap (b & -> & Hb)%list_elem_of_fmap.
    destruct (renamed_edge_leb a b Ha Hb) as [-> Hanti]. destruct (renamed_edge_leb b a Hb Ha) as [-> _].
    intros H1 H2. f_equal. apply Hanti; by apply Is_true_true.
  - apply sort_by_sorted; apply edge_leb_order.
  - apply Hmap; [|apply sort_by_sorted; apply edge_leb_order].
    intros a b. rewrite !sort_by_perm. intros Ha Hb. by apply renamed_edge_leb.
  - by rewrite !sort_by_perm, renamed_edges.
Qed.

(** ** The fingerprint *)

Lemma renamed_id_to_key us us' (m m' : gmap N string) :
  Forall2 (fun t t' => same_task f t t' /\ sp_stage t' = sp_stage t) us us' ->
  (forall id, m' !! f id = m !! id) ->
  forall id, fold_left (fun m t => <[sp_task_id t := task_key_of t]> m) us' m' !! f id =
    fold_left (fun m t => <[sp_task_id t := task_key_of t]> m) us m !! id.
Proof.
  intros Hus. revert m m'. induction Hus as [|t t' us us' [Hs _] _ IH]; intros m m' Hm; [done|].
  cbn. apply IH. intros id. rewrite (st_id _ _ _ Hs), (same_task_key _ _ Hs).
  destruct (decide (sp_task_id t = id)) as [<-|Hne]; [by rewrite !lookup_insert_eq|].
  rewrite !lookup_insert_ne; [done|done|by intros ?%Hinj].
Qed.

Lemma id_to_key_dom us (m : gmap N string) id :
  id ∈ sp_task_id <$> us \/ is_Some (m !! id) ->
  is_Some (fold_left (fun m t => <[sp_task_id t := task_key_of t]> m) us m !! id).
Proof.
  revert m. induction us as [|t us IH]; intros m Hid; cbn.
  { destruct Hid as [Hid|]; [by apply elem_of_nil in Hid|done]. }
  apply IH. destruct (decide (sp_task_id t = id)) as [<-|Hne].
  - right. rewrite lookup_insert_eq. by eexists.
  - rewrite lookup_insert_ne by done. rewrite fmap_cons, elem_of_cons in Hid. naive_solver.
Qed.

Lemma ts_ids : sp_task_id <$> ts = l.
Proof.
  pose proof (rk_tasks _ _ _ _ Hrun) as Hts. clear - Hts.
  induction Hts as [|id t' k us (t & _ & <- & ->) _ IH]; [done|]. cbn. f_equal. exact IH.
Qed.

Lemma renamed_normalize :
  normalize_task (id_to_key ts') <$> ts' = normalize_task (id_to_key ts) <$> ts.
Proof.
  pose proof (renamed_id_to_key ts ts' ∅ ∅ renamed_in_order) as Hkey.
  assert (forall id, id ∈ l ->
    default (to_string (f id)) (id_to_key ts' !! f id) = default (to_string id) (id_to_key ts !! id)) as Hname.
  { intros id Hid. unfold id_to_key. rewrite Hkey by (intros; by rewrite !lookup_empty).
    destruct (id_to_key_dom ts ∅ id) as [k ->]; [left; by rewrite ts_ids|done]. }
  assert (forall t, t ∈ ts -> sp_task_id t ∈ l /\ forall dep, dep ∈ sp_upstream_task_ids t -> dep ∈ l) as Hts.
  { intros t (t0 & Ht0 & ->)%(run_tasks _ _ _ _ _ Hac Hrun). cbn.
    setoid_rewrite (rk_ids _ _ _ _ Hrun). split; [by apply (list_elem_of_fmap_2 sp_task_id)|].
    intros dep. by apply (ac_deps _ Hac). }
  apply list_eq. intros i. rewrite !list_lookup_fmap.
  pose proof (proj1 (Forall2_lookup _ _ _) renamed_in_order i) as Hi.
  destruct (ts !! i) as [t|] eqn:Ht, (ts' !! i) as [t'|] eqn:Ht'; inversion Hi as [? ? [Hs _]|]; subst; [|done].
  cbn. f_equal. destruct (Hts t) as [Hid Hdeps]; [by eapply list_elem_of_lookup_2|]. unfold normalize_task.
  rewrite (st_id _ _ _ Hs), (st_priority _ _ _ Hs), (st_resources _ _ _ Hs), (st_upstream _ _ _ Hs).
  f_equal; [by rewrite Hname|]. f_equal. rewrite <-list_fmap_compose.
  apply list_fmap_ext. intros j dep Hj. cbn. apply Hname, Hdeps. by eapply list_elem_of_lookup_2.
Qed.

Lemma renamed_fingerprint tenant workspace :
  compute_fingerprint tenant workspace ts' = compute_fingerprint tenant workspace ts.
Proof. unfold compute_fingerprint, fingerprint_tasks. by rewrite renamed_normalize. Qed.
End Tasks.

(** Renamed edges. *)
Definition renamed_edge (e : DependencyEdge) : DependencyEdge :=
  mkDependencyEdge (f (de_source_task_id e)) (f (de_target_task_id e)).

Lemma renamed_dependencies edges :
  edges_to_dependencies (prod_map f f <$> edges) = renamed_edge <$> edges_to_dependencies edges.
Proof. unfold edges_to_dependencies. rewrite <-!list_fmap_compose. by apply list_fmap_ext. Qed.

(** Two keys of tasks of an acceptable plan are equal only for equal ids. *)
Lemma key_of_id_inj tasks keys id id' :
  acceptable tasks -> keys_ok tasks keys ->
  id ∈ sp_task_id <$> tasks -> id' ∈ sp_task_id <$> tasks ->
  key_of_id keys id = key_of_id keys id' -> id = id'.
Proof.
  intros Hac Hk (t & -> & Ht)%list_elem_of_fmap (t' & -> & Ht')%list_elem_of_fmap. unfold key_of_id.
  assert (keys !! sp_task_id t = Some (task_key_of t)) as -> by (apply Hk; eauto).
  assert (keys !! sp_task_id t' = Some (task_key_of t')) as -> by (apply Hk; eauto).
  cbn. intros E. f_equal. by eapply (task_key_inj tasks).
Qed.
End Rename.

(** C21: the plan depends on the tasks, not on the order they were added in nor on the
    ids they were given.  If the tasks of a second builder are those of the first in
    any order and under any renaming of the ids, then it has a plan when the first
    has, with the same tasks in the same order, the same stages, the same edges and
    the same fingerprint; whichever order the graph library enumerates neighbours
    in.  The plan id, the time, the asset ids and the input hash have no effect on
    the fingerprint. *)
Theorem plan_deterministic `{HB : Base64} `{HG : DiGraph N} `{!DiGraphLaws N} `{HD : Display N}
    `{HJ : JsonString} `{HH : Hashes} (f : N -> N) (b b' : PlanBuilder) (tasks : list TaskSpec)
    (plan_id plan_id' : string) (now now' : DateTime) (p : Plan) :
  (forall x y, f x = f y -> x = y) ->
  pb_tenant_id b' = pb_tenant_id b -> pb_workspace_id b' = pb_workspace_id b ->
  Forall2 (same_task f) (pb_tasks b) tasks -> pb_tasks b' ≡ₚ tasks ->
  build b plan_id now = Ok p ->
  exists p', build b' plan_id' now' = Ok p' /\
    Forall2 (fun t t' => same_task f t t' /\ sp_stage t' = sp_stage t) (pl_tasks p) (pl_tasks p') /\
    pl_dependencies p' = renamed_edge f <$> pl_dependencies p /\
    pl_fingerprint p' = pl_fingerprint p.
Proof.
  intros Hf Hten Hws Hsame Hperm Hbuild. assert (Inj (=) (=) f) as Hinj by exact Hf.
  destruct (build_refused b plan_id now) as [Hac|(e & E & _)]; [|congruence].
  assert (acceptable (pb_tasks b')) as Hac' by by eapply renamed_acceptable.
  destruct (build_accepted b plan_id now Hac) as (keys & dag & Hk & Hb & Hn & He & Hok).
  destruct (build_accepted b' plan_id' now' Hac') as (keys' & dag' & Hk' & Hb' & Hn' & He' & Hok').
  pose proof (toposort_by_key_spec (key_of_id keys) dag Hb) as Hs.
  destruct (toposort_by_key (key_of_id keys) dag) as [l|e]; [|congruence].
  destruct Hok as (stages & ts & fp & Hrun & Hfp & E). rewrite E in Hbuild. injection Hbuild as <-.
  destruct Hs as (Hp & Hg & _).
  rewrite (toposort_by_key_greedy (key_of_id keys') dag' (f <$> l)) in Hok'; [|done|..].
  - destruct Hok' as (stages' & ts' & fp' & Hrun' & Hfp' & E').
    eexists. split; [exact E'|]. cbn. split_and!; [by eapply renamed_in_order| |].
    + by rewrite <-(renamed_dependencies f), (renamed_sorted_edges f _ _ tasks Hperm Hsame keys keys' Hk Hk'
        l stages stages' ts ts' Hac Hac' Hrun Hrun').
    + rewrite (renamed_fingerprint f _ _ tasks Hperm Hsame keys keys' Hk Hk' l stages stages' ts ts'
        Hac Hac' Hrun Hrun'), Hten, Hws, Hfp in Hfp'. by injection Hfp'.
  - intros x y. rewrite Hn'. by apply (key_of_id_inj f (pb_tasks b')).
  - eapply greedy_iff; [symmetry; exact Hn'|intros u v; symmetry; apply He'|].
    eapply renamed_greedy; [done..|]. by eapply greedy_iff.
  - by rewrite Hn', Hp, Hn, (renamed_ids f (pb_tasks b) (pb_tasks b') tasks).
Qed.

(** The same tasks in another order under other ids. *)
Definition renamed_diamond : PlanBuilder :=
  let b := plan_builder_new "tenant" "workspace" in
  let b := add_task b (task 102 "left" [101]%N) in
  let b := add_task b (task 103 "right" [101]%N) in
  let b := add_task b (task 101 "source" []) in
  with_input_hash (add_task b (task 104 "daily" [102; 103]%N)) "hash".

Lemma plan_deterministic_witness :
  exists p p', build diamond "plan" 0 = Ok p /\ build renamed_diamond "other" 9 = Ok p' /\
    pl_fingerprint p' = pl_fingerprint p.
Proof.
  destruct (build diamond "plan" 0) as [p|e] eqn:E; [|vm_compute in E; discriminate].
  destruct (plan_deterministic (fun id => id + 100)%N diamond renamed_diamond
    [task 104 "daily" [102; 103]%N; task 102 "left" [101]%N; task 103 "right" [101]%N;
     task 101 "source" []] "plan" "other" 0 9 p) as (p' & Hp' & _ & _ & Hfp).
  - intros x y Hxy. lia.
  - reflexivity.
  - reflexivity.
  - repeat constructor.
  - symmetry. apply Permutation_cons_append.
  - exact E.
  - exists p, p'. auto.
Defined.
