(* ===== verification/TaskExec.v ===== *)
(** Task executions: [crates/arco-flow/src/task.rs].

    The state machine of one task of an in-process run: its states, the table of
    transitions, timestamps, attempts, heartbeats.  A method that takes [&mut self]
    and fails may have changed the task before it fails, so that methods return the
    result and the task after it. *)

From S2P Require Import Prelude Storage Dag Plan.
From stdpp Require Import options.

(** ** States *)

Inductive TaskState :=
  | Planned | Pending | Ready | Queued | Dispatched | Running
  | Succeeded | Failed | Skipped | Cancelled | RetryWait.

#[export] Instance task_state_eq_dec : EqDecision TaskState.
Proof. solve_decision. Defined.

Definition is_terminal (s : TaskState) : bool :=
  match s with Succeeded | Failed | Skipped | Cancelled => true | _ => false end.

Definition is_retriable (s : TaskState) : bool :=
  match s with Failed | RetryWait => true | _ => false end.

Definition is_active (s : TaskState) : bool :=
  match s with
  | Planned | Pending | Ready | Queued | Dispatched | Running | RetryWait => true
  | _ => false
  end.

Definition can_transition_to (s target : TaskState) : bool :=
  match s, target with
  | Planned, (Pending | Cancelled) => true
  | Pending, (Ready | Skipped | Cancelled) => true
  | Ready, (Queued | Cancelled) => true
  | Queued, (Dispatched | Cancelled) => true
  | Dispatched, (Running | Failed | Cancelled) => true
  | Running, (Succeeded | Failed | Cancelled) => true
  | Failed, (RetryWait | Cancelled) => true
  | RetryWait, (Ready | Cancelled) => true
  | _, _ => false
  end.

Definition valid_transitions (s : TaskState) : list TaskState :=
  match s with
  | Planned => [Pending; Cancelled]
  | Pending => [Ready; Skipped; Cancelled]
  | Ready => [Queued; Cancelled]
  | Queued => [Dispatched; Cancelled]
  | Dispatched => [Running; Failed; Cancelled]
  | Running => [Succeeded; Failed; Cancelled]
  | Failed => [RetryWait; Cancelled]
  | RetryWait => [Ready; Cancelled]
  | Succeeded | Skipped | Cancelled => []
  end.

(** [Display] and [Debug] *)
Definition task_state_string (s : TaskState) : string :=
  match s with
  | Planned => "PLANNED" | Pending => "PENDING" | Ready => "READY" | Queued => "QUEUED"
  | Dispatched => "DISPATCHED" | Running => "RUNNING" | Succeeded => "SUCCEEDED"
  | Failed => "FAILED" | Skipped => "SKIPPED" | Cancelled => "CANCELLED"
  | RetryWait => "RETRY_WAIT"
  end.

Definition task_state_debug (s : TaskState) : string :=
  match s with
  | Planned => "Planned" | Pending => "Pending" | Ready => "Ready" | Queued => "Queued"
  | Dispatched => "Dispatched" | Running => "Running" | Succeeded => "Succeeded"
  | Failed => "Failed" | Skipped => "Skipped" | Cancelled => "Cancelled"
  | RetryWait => "RetryWait"
  end.

Inductive TransitionReason :=
  | RunStartedReason | DependenciesSatisfied | QuotaAcquired | DispatchedToWorker
  | WorkerAcknowledged | ExecutionStarted | ExecutionSucceeded
  | ExecutionFailed | TimedOutReason | HeartbeatTimeout | DispatchAckTimeout | UpstreamFailed
  | RetryScheduledReason | RetryTimerExpired
  | UserCancelled | SystemCancelled | RunCancelledReason
  | SkippedDueToUpstreamFailure | SkippedUpToDate.

(** ** Errors, outputs, metrics *)

Inductive TaskErrorCategory :=
  | CatUserCode | CatDataQuality | CatInfrastructure | CatConfiguration | CatUnknown.

Record TaskError := mkTaskError {
  er_category : TaskErrorCategory;
  er_message : string;
  er_detail : option string;
  er_retryable : bool
}.
#[export] Instance eta_TaskError : Eta TaskError :=
  fun r => mkTaskError (er_category r) (er_message r) (er_detail r) (er_retryable r).

Definition task_error_new (category : TaskErrorCategory) (message : string) : TaskError :=
  mkTaskError category message None
    match category with CatInfrastructure => true | _ => false end.
Definition with_detail (e : TaskError) (detail : string) : TaskError := e <| er_detail := Some detail |>.
Definition with_retryable (e : TaskError) (retryable : bool) : TaskError :=
  e <| er_retryable := retryable |>.

Record FileEntry := mkFileEntry {
  fe_path : string;
  fe_size_bytes : i64;
  fe_row_count : i64;
  fe_content_hash : option string;
  fe_format : option string
}.

Record TaskOutput := mkTaskOutput {
  ou_materialization_id : string;
  ou_files : list FileEntry;
  ou_row_count : i64;
  ou_byte_size : i64
}.

Record TaskMetrics := mkTaskMetrics {
  me_duration_ms : i64;
  me_cpu_time_ms : i64;
  me_peak_memory_bytes : i64;
  me_bytes_read : i64;
  me_bytes_written : i64
}.
#[export] Instance eta_TaskMetrics : Eta TaskMetrics :=
  fun r => mkTaskMetrics (me_duration_ms r) (me_cpu_time_ms r) (me_peak_memory_bytes r)
             (me_bytes_read r) (me_bytes_written r).
Definition task_metrics_default : TaskMetrics := mkTaskMetrics 0 0 0 0 0.

(** ** Durations

    A [std::time::Duration] is its nanoseconds; chrono's are nanoseconds too, up to
    [i64::MAX] milliseconds. *)

Abbreviation Duration := N (only parsing).

Definition secs (n : N) : Duration := (n * 1000000000)%N.
Definition chrono_max : Z := (i64_max * 1000000)%Z.
Definition chrono_from_std (d : Duration) : option Z :=
  if (Z.of_N d <=? chrono_max)%Z then Some (Z.of_N d) else None.
Definition num_milliseconds (d : Z) : i64 := Z.quot d 1000000.

Record TaskTimeoutConfig := mkTaskTimeoutConfig {
  tc_dispatch_ack_timeout : Duration;
  tc_heartbeat_timeout : Duration;
  tc_max_execution_time : Duration
}.
Definition task_timeout_config_default : TaskTimeoutConfig :=
  mkTaskTimeoutConfig (secs 30) (secs 60) (secs 3600).

Definition default_heartbeat_timeout : Duration := secs 300.

(** ** Executions *)

Record TaskExecution := mkTaskExecution {
  ex_task_id : TaskId;
  ex_task_key : option TaskKey;
  ex_priority : Z;
  ex_state : TaskState;
  ex_attempt : u32;
  ex_max_attempts : u32;
  ex_queued_at : option DateTime;
  ex_dispatched_at : option DateTime;
  ex_started_at : option DateTime;
  ex_completed_at : option DateTime;
  ex_retry_at : option DateTime;
  ex_last_heartbeat : option DateTime;
  ex_heartbeat_timeout : Duration;
  ex_last_transition_reason : option TransitionReason;
  ex_last_transition_at : option DateTime;
  ex_worker_id : option string;
  ex_output : option TaskOutput;
  ex_error : option TaskError;
  ex_metrics : TaskMetrics
}.
#[export] Instance eta_TaskExecution : Eta TaskExecution :=
  fun r => mkTaskExecution (ex_task_id r) (ex_task_key r) (ex_priority r) (ex_state r)
             (ex_attempt r) (ex_max_attempts r) (ex_queued_at r) (ex_dispatched_at r)
             (ex_started_at r) (ex_completed_at r) (ex_retry_at r) (ex_last_heartbeat r)
             (ex_heartbeat_timeout r) (ex_last_transition_reason r) (ex_last_transition_at r)
             (ex_worker_id r) (ex_output r) (ex_error r) (ex_metrics r).

Definition task_execution_new (task_id : TaskId) : TaskExecution :=
  mkTaskExecution task_id None 0 Planned 1 3 None None None None None None
    default_heartbeat_timeout None None None None None task_metrics_default.

Definition with_max_attempts (e : TaskExecution) (max_attempts : u32) : TaskExecution :=
  e <| ex_max_attempts := max_attempts |>.
Definition with_heartbeat_timeout (e : TaskExecution) (timeout : Duration) : TaskExecution :=
  e <| ex_heartbeat_timeout := timeout |>.
Definition with_metadata (e : TaskExecution) (task_key : TaskKey) (priority : Z) : TaskExecution :=
  e <| ex_task_key := Some task_key |> <| ex_priority := priority |>.

Definition exec_is_terminal (e : TaskExecution) : bool := is_terminal (ex_state e).

Definition can_retry (e : TaskExecution) : bool :=
  is_retriable (ex_state e) && (ex_attempt e <? ex_max_attempts e)%N.

Definition record_heartbeat_at (now : DateTime) (e : TaskExecution) : TaskExecution :=
  e <| ex_last_heartbeat := Some now |>.

Definition is_heartbeat_stale_at (now : DateTime) (e : TaskExecution) : bool :=
  match ex_state e with
  | Running | Dispatched =>
      match ex_last_heartbeat e with
      | None => true
      | Some last =>
          (default chrono_max (chrono_from_std (ex_heartbeat_timeout e)) <? now - last)%Z
      end
  | _ => false
  end.

Definition is_retry_due_at (now : DateTime) (e : TaskExecution) : bool :=
  if negb (bool_decide (ex_state e = RetryWait)) then false
  else match ex_retry_at e with None => true | Some retry_at => (retry_at <=? now)%Z end.

Definition is_zombie (now : DateTime) (config : TaskTimeoutConfig) (e : TaskExecution) : bool :=
  let dispatch_ack_duration :=
    default (Z.of_N (secs 30)) (chrono_from_std (tc_dispatch_ack_timeout config)) in
  let heartbeat_duration :=
    default (Z.of_N (secs 60)) (chrono_from_std (tc_heartbeat_timeout config)) in
  match ex_state e with
  | Dispatched =>
      match ex_dispatched_at e with
      | Some dispatched_at => (dispatched_at + dispatch_ack_duration <? now)%Z
      | None => false
      end
  | Running =>
      match ex_last_heartbeat e, ex_dispatched_at e with
      | Some timestamp, _ | None, Some timestamp => (timestamp + heartbeat_duration <? now)%Z
      | None, None => false
      end
  | _ => false
  end.

(** The fields every end of a task sets. *)
Definition completed (now : DateTime) (e : TaskExecution) : TaskExecution :=
  let e := e <| ex_completed_at := Some now |> in
  match ex_started_at e with
  | Some started =>
      e <| ex_metrics := (ex_metrics e) <| me_duration_ms := num_milliseconds (now - started) |> |>
  | None => e
  end.

Definition try_terminal_transition (now : DateTime) (target : TaskState)
    (reason : TransitionReason) (attempt : u32) (e : TaskExecution) :
    fresult bool * TaskExecution :=
  let refuse why :=
    (Err (InvalidStateTransition (task_state_string (ex_state e)) (task_state_string target) why), e) in
  if negb (is_terminal target) then refuse "try_terminal_transition requires a terminal state"
  else if (attempt <? ex_attempt e)%N then (Ok false, e)
  else if is_terminal (ex_state e) then
    if bool_decide (ex_state e = target) then (Ok false, e)
    else refuse "cannot transition from one terminal state to another"
  else
    (Ok true, completed now (e <| ex_state := target |>
                               <| ex_last_transition_reason := Some reason |>
                               <| ex_last_transition_at := Some now |>)).

Definition debug_states (l : list TaskState) : string :=
  "[" +:+ String.concat ", " (task_state_debug <$> l) +:+ "]".

(** What a retry forgets of the attempt before it. *)
Definition next_attempt (e : TaskExecution) : TaskExecution :=
  e <| ex_attempt := u32_add (ex_attempt e) 1 |> <| ex_queued_at := None |>
    <| ex_dispatched_at := None |> <| ex_started_at := None |> <| ex_completed_at := None |>
    <| ex_last_heartbeat := None |> <| ex_worker_id := None |> <| ex_output := None |>
    <| ex_error := None |> <| ex_metrics := task_metrics_default |> <| ex_retry_at := None |>.

Definition transition_to (now : DateTime) (target : TaskState) (e : TaskExecution) :
    fresult unit * TaskExecution :=
  if negb (can_transition_to (ex_state e) target) then
    (Err (InvalidStateTransition (task_state_string (ex_state e)) (task_state_string target)
            ("valid transitions from " +:+ task_state_string (ex_state e) +:+ ": "
             +:+ debug_states (valid_transitions (ex_state e)))), e)
  else
    let e :=
      match target with
      | Queued => e <| ex_queued_at := Some now |>
      | Dispatched => e <| ex_dispatched_at := Some now |>
      | Running => e <| ex_started_at := Some now |> <| ex_last_heartbeat := Some now |>
      | Ready => if bool_decide (ex_state e = RetryWait) then next_attempt e else e
      | Succeeded | Failed | Skipped | Cancelled => completed now e
      | _ => e
      end in
    (Ok tt, e <| ex_state := target |>).

(** It reads the clock twice. *)
Definition transition_to_with_reason (now now' : DateTime) (target : TaskState)
    (reason : TransitionReason) (e : TaskExecution) : fresult unit * TaskExecution :=
  match transition_to now target e with
  | (Ok _, e) => (Ok tt, e <| ex_last_transition_reason := Some reason |>
                           <| ex_last_transition_at := Some now' |>)
  | (Err err, e) => (Err err, e)
  end.

Definition succeed (now : DateTime) (output : TaskOutput) (e : TaskExecution) :
    fresult unit * TaskExecution :=
  transition_to now Succeeded (e <| ex_error := None |> <| ex_output := Some output |>).

Definition fail (now : DateTime) (error : TaskError) (e : TaskExecution) :
    fresult unit * TaskExecution :=
  transition_to now Failed (e <| ex_error := Some error |> <| ex_output := None |>).

Definition skip (now : DateTime) (e : TaskExecution) : fresult unit * TaskExecution :=
  transition_to now Skipped e.

Definition cancel (now : DateTime) (e : TaskExecution) : fresult unit * TaskExecution :=
  transition_to now Cancelled e.
