(* ===== verification/Run.v ===== *)
(** Runs and their events: [crates/arco-flow/src/run.rs], [events.rs] and the sink of
    [outbox.rs].

    A run holds the executions of the tasks of a plan.  What happens to it is told by
    events, numbered within the run and pushed to a sink. *)

From S2P Require Import Prelude Storage Dag Plan TaskExec.
From stdpp Require Import options.

(** ** Run states *)

Inductive RunState :=
  | RunPending | RunRunning | RunSucceeded | RunFailed | RunCancelling | RunCancelled | RunTimedOut.

#[export] Instance run_state_eq_dec : EqDecision RunState.
Proof. solve_decision. Defined.

Definition run_state_is_terminal (s : RunState) : bool :=
  match s with RunSucceeded | RunFailed | RunCancelled | RunTimedOut => true | _ => false end.

Definition run_can_transition_to (s target : RunState) : bool :=
  match s, target with
  | RunPending, (RunRunning | RunCancelling | RunCancelled) => true
  | RunRunning, (RunSucceeded | RunFailed | RunCancelling | RunTimedOut) => true
  | RunCancelling, RunCancelled => true
  | _, _ => false
  end.

Definition run_state_string (s : RunState) : string :=
  match s with
  | RunPending => "PENDING" | RunRunning => "RUNNING" | RunSucceeded => "SUCCEEDED"
  | RunFailed => "FAILED" | RunCancelling => "CANCELLING" | RunCancelled => "CANCELLED"
  | RunTimedOut => "TIMED_OUT"
  end.

Inductive TriggerType := Manual | Scheduled | Sensor | Backfill.

Definition trigger_type_string (t : TriggerType) : string :=
  match t with
  | Manual => "Manual" | Scheduled => "Scheduled" | Sensor => "Sensor" | Backfill => "Backfill"
  end.

Record RunTrigger := mkRunTrigger {
  tr_trigger_type : TriggerType;
  tr_triggered_by : option string;
  tr_triggered_at : DateTime;
  tr_schedule_name : option string
}.

Definition trigger_manual (user : string) (now : DateTime) : RunTrigger :=
  mkRunTrigger Manual (Some user) now None.
Definition trigger_scheduled (schedule_name : string) (now : DateTime) : RunTrigger :=
  mkRunTrigger Scheduled None now (Some schedule_name).
Definition trigger_sensor (now : DateTime) : RunTrigger := mkRunTrigger Sensor None now None.
Definition trigger_backfill (user : string) (now : DateTime) : RunTrigger :=
  mkRunTrigger Backfill (Some user) now None.

(** ** Runs *)

(** [RunId] is a ULID. *)
Abbreviation RunId := N (only parsing).

Record Run := mkRun {
  ru_id : RunId;
  ru_plan_id : string;
  ru_tenant_id : string;
  ru_workspace_id : string;
  ru_state : RunState;
  ru_created_at : DateTime;
  ru_started_at : option DateTime;
  ru_completed_at : option DateTime;
  ru_task_executions : list TaskExecution;
  ru_labels : gmap string string;
  ru_trigger : RunTrigger;
  ru_run_sequence : u64
}.
#[export] Instance eta_Run : Eta Run :=
  fun r => mkRun (ru_id r) (ru_plan_id r) (ru_tenant_id r) (ru_workspace_id r) (ru_state r)
             (ru_created_at r) (ru_started_at r) (ru_completed_at r) (ru_task_executions r)
             (ru_labels r) (ru_trigger r) (ru_run_sequence r).

(** The execution of a task of the plan, PENDING. *)
Definition execution_of (task : TaskSpec) : TaskExecution :=
  (with_metadata (task_execution_new (sp_task_id task))
     (mkTaskKey (sp_asset_key task) (sp_partition_key task) (sp_operation task))
     (sp_priority task)) <| ex_state := Pending |>.

Definition from_plan (id : RunId) (now : DateTime) (plan : Plan) (trigger : RunTrigger) : Run :=
  mkRun id (pl_plan_id plan) (pl_tenant_id plan) (pl_workspace_id plan) RunPending now None None
    (execution_of <$> pl_tasks plan) ∅ trigger 0.

Definition next_sequence (run : Run) : u64 * Run :=
  let seq := N.min (ru_run_sequence run + 1) u64_max in
  (seq, run <| ru_run_sequence := seq |>).

Definition run_is_terminal (run : Run) : bool := run_state_is_terminal (ru_state run).

Definition run_transition_to (now : DateTime) (target : RunState) (run : Run) : fresult unit * Run :=
  if negb (run_can_transition_to (ru_state run) target) then
    (Err (InvalidStateTransition (run_state_string (ru_state run)) (run_state_string target)
            "invalid run state transition"), run)
  else
    let run :=
      match target with
      | RunRunning => run <| ru_started_at := Some now |>
      | RunSucceeded | RunFailed | RunCancelled | RunTimedOut => run <| ru_completed_at := Some now |>
      | _ => run
      end in
    (Ok tt, run <| ru_state := target |>).

Definition get_task (run : Run) (task_id : TaskId) : option TaskExecution :=
  snd <$> list_find (fun e => ex_task_id e = task_id) (ru_task_executions run).

(** [get_task_mut] and what is done through it. *)
Fixpoint update_first {A} (task_id : TaskId) (f : TaskExecution -> A * TaskExecution)
    (l : list TaskExecution) : option (A * list TaskExecution) :=
  match l with
  | [] => None
  | e :: l =>
      if decide (ex_task_id e = task_id) then let '(a, e) := f e in Some (a, e :: l)
      else match update_first task_id f l with
           | Some (a, l) => Some (a, e :: l)
           | None => None
           end
  end.

Definition update_task {A} (task_id : TaskId) (f : TaskExecution -> A * TaskExecution) (run : Run) :
    option (A * Run) :=
  match update_first task_id f (ru_task_executions run) with
  | Some (a, l) => Some (a, run <| ru_task_executions := l |>)
  | None => None
  end.

Definition tasks_in (s : TaskState) (run : Run) : nat :=
  length (filter (fun e => ex_state e = s) (ru_task_executions run)).
Definition tasks_pending : Run -> nat := tasks_in Pending.
Definition tasks_queued : Run -> nat := tasks_in Queued.
Definition tasks_running : Run -> nat := tasks_in Running.
Definition tasks_succeeded : Run -> nat := tasks_in Succeeded.
Definition tasks_failed : Run -> nat := tasks_in Failed.
Definition tasks_skipped : Run -> nat := tasks_in Skipped.
Definition tasks_cancelled : Run -> nat := tasks_in Cancelled.

(** All dependencies of the task succeeded. *)
Definition dependencies_met (run : Run) (spec : TaskSpec) : bool :=
  forallb (fun dep_id =>
             match get_task run dep_id with
             | Some dep => bool_decide (ex_state dep = Succeeded)
             | None => false
             end) (sp_upstream_task_ids spec).

Definition is_waiting (s : TaskState) : bool :=
  match s with Pending | Ready => true | _ => false end.

Definition ready_tasks (plan : Plan) (run : Run) : list TaskId :=
  ex_task_id <$>
  List.filter (fun exec => is_waiting (ex_state exec) &&
                           match plan_task plan (ex_task_id exec) with
                           | Some spec => dependencies_met run spec
                           | None => false
                           end) (ru_task_executions run).

Definition all_tasks_terminal (run : Run) : bool := forallb exec_is_terminal (ru_task_executions run).

Definition compute_final_state (run : Run) : RunState :=
  if negb (all_tasks_terminal run) then ru_state run
  else if 0 <? tasks_cancelled run then RunCancelled
  else if 0 <? tasks_failed run then RunFailed
  else RunSucceeded.

Definition add_label (key value : string) (run : Run) : Run :=
  run <| ru_labels := <[key := value]> (ru_labels run) |>.

(** ** Events *)

Inductive ExecutionEventData :=
  | RunCreated (run_id : RunId) (plan_id trigger_type : string) (triggered_by : option string)
  | RunStarted (run_id : RunId) (plan_id : string)
  | RunCompleted (run_id : RunId) (state : RunState)
      (tasks_succeeded tasks_failed tasks_skipped tasks_cancelled : nat)
  | TaskQueued (run_id : RunId) (task_id : TaskId) (attempt : u32)
  | TaskDispatched (run_id : RunId) (task_id : TaskId) (attempt : u32) (worker_id : string)
  | TaskStarted (run_id : RunId) (task_id : TaskId) (attempt : u32) (worker_id : string)
  | TaskCompleted (run_id : RunId) (task_id : TaskId) (state : TaskState) (attempt : u32)
  | TaskOutputEvent (run_id : RunId) (task_id : TaskId) (materialization_id : string)
      (row_count byte_size : i64)
  | TaskFailed (run_id : RunId) (task_id : TaskId) (error : TaskError) (attempt : u32)
  | TaskRetryScheduled (run_id : RunId) (task_id : TaskId) (attempt : u32) (retry_at : DateTime)
      (backoff_ms : i64)
  | TaskRetried (run_id : RunId) (task_id : TaskId) (previous_attempt new_attempt : u32)
  | TaskHeartbeat (run_id : RunId) (task_id : TaskId) (attempt : u32)
  | TaskMetricsRecorded (run_id : RunId) (task_id : TaskId) (metrics : TaskMetrics).

Definition event_name (d : ExecutionEventData) : string :=
  match d with
  | RunCreated _ _ _ _ => "run_created"
  | RunStarted _ _ => "run_started"
  | RunCompleted _ _ _ _ _ _ => "run_completed"
  | TaskQueued _ _ _ => "task_queued"
  | TaskDispatched _ _ _ _ => "task_dispatched"
  | TaskStarted _ _ _ _ => "task_started"
  | TaskCompleted _ _ _ _ => "task_completed"
  | TaskOutputEvent _ _ _ _ _ => "task_output"
  | TaskFailed _ _ _ _ => "task_failed"
  | TaskRetryScheduled _ _ _ _ _ => "task_retry_scheduled"
  | TaskRetried _ _ _ _ => "task_retried"
  | TaskHeartbeat _ _ _ => "task_heartbeat"
  | TaskMetricsRecorded _ _ _ => "task_metrics_recorded"
  end.

Section Events.
Context `{Display N}.

(** [format!("{kind}:{run_id}:{task_id}:{attempt}")] *)
Definition attempt_key (kind : string) (run_id : RunId) (task_id : TaskId) (attempt : u32) : string :=
  kind +:+ ":" +:+ to_string run_id +:+ ":" +:+ to_string task_id +:+ ":" +:+ pretty attempt.

Definition data_idempotency_key (d : ExecutionEventData) : option string :=
  match d with
  | RunCreated run_id _ _ _ => Some ("run_created:" +:+ to_string run_id)
  | RunStarted run_id _ => Some ("run_started:" +:+ to_string run_id)
  | RunCompleted run_id _ _ _ _ _ => Some ("run_completed:" +:+ to_string run_id)
  | TaskQueued run_id task_id attempt => Some (attempt_key "task_queued" run_id task_id attempt)
  | TaskDispatched run_id task_id attempt _ =>
      Some (attempt_key "task_dispatched" run_id task_id attempt)
  | TaskStarted run_id task_id attempt _ => Some (attempt_key "task_started" run_id task_id attempt)
  | TaskCompleted run_id task_id state attempt =>
      Some (attempt_key "task_completed" run_id task_id attempt +:+ ":" +:+ task_state_string state)
  | TaskOutputEvent _ _ materialization_id _ _ => Some ("task_output:" +:+ materialization_id)
  | TaskFailed run_id task_id _ attempt => Some (attempt_key "task_failed" run_id task_id attempt)
  | TaskRetryScheduled run_id task_id attempt _ _ =>
      Some (attempt_key "task_retry_scheduled" run_id task_id attempt)
  | TaskRetried run_id task_id previous_attempt new_attempt =>
      Some (attempt_key "task_retried" run_id task_id previous_attempt +:+ ":" +:+ pretty new_attempt)
  | TaskMetricsRecorded _ _ _ | TaskHeartbeat _ _ _ => None
  end.

Definition data_run_id (d : ExecutionEventData) : option RunId :=
  match d with
  | RunCreated run_id _ _ _ | RunStarted run_id _ | RunCompleted run_id _ _ _ _ _
  | TaskQueued run_id _ _ | TaskDispatched run_id _ _ _ | TaskStarted run_id _ _ _
  | TaskCompleted run_id _ _ _ | TaskOutputEvent run_id _ _ _ _ | TaskFailed run_id _ _ _
  | TaskRetryScheduled run_id _ _ _ _ | TaskRetried run_id _ _ _ | TaskHeartbeat run_id _ _
  | TaskMetricsRecorded run_id _ _ => Some run_id
  end.

Definition data_task_id (d : ExecutionEventData) : option TaskId :=
  match d with
  | TaskQueued _ task_id _ | TaskDispatched _ task_id _ _ | TaskStarted _ task_id _ _
  | TaskCompleted _ task_id _ _ | TaskOutputEvent _ task_id _ _ _ | TaskFailed _ task_id _ _
  | TaskRetryScheduled _ task_id _ _ _ | TaskRetried _ task_id _ _ | TaskHeartbeat _ task_id _
  | TaskMetricsRecorded _ task_id _ => Some task_id
  | RunCreated _ _ _ _ | RunStarted _ _ | RunCompleted _ _ _ _ _ _ => None
  end.

Record EventEnvelope := mkEventEnvelope {
  en_id : string;
  en_source : string;
  en_specversion : string;
  en_event_type : string;
  en_time : option DateTime;
  en_datacontenttype : option string;
  en_tenant_id : string;
  en_workspace_id : string;
  en_idempotency_key : string;
  en_sequence : option u64;
  en_stream_id : option string;
  en_correlation_id : option string;
  en_causation_id : option string;
  en_schema_version : u32;
  en_data : ExecutionEventData
}.
#[export] Instance eta_EventEnvelope : Eta EventEnvelope :=
  fun r => mkEventEnvelope (en_id r) (en_source r) (en_specversion r) (en_event_type r)
             (en_time r) (en_datacontenttype r) (en_tenant_id r) (en_workspace_id r)
             (en_idempotency_key r) (en_sequence r) (en_stream_id r) (en_correlation_id r)
             (en_causation_id r) (en_schema_version r) (en_data r).

(** [EventEnvelope::new], with a fresh ULID and the time. *)
Definition event_envelope_new (id : string) (now : DateTime) (tenant workspace : string)
    (data : ExecutionEventData) : EventEnvelope :=
  mkEventEnvelope id ("/arco/flow/" +:+ tenant +:+ "/" +:+ workspace) "1.0"
    ("arco.flow." +:+ event_name data) (Some now) (Some "application/json") tenant workspace
    (default id (data_idempotency_key data)) None
    ((fun run_id => "run:" +:+ to_string run_id) <$> data_run_id data)
    (to_string <$> data_run_id data) None 1 data.

Definition with_idempotency_key (id : string) (now : DateTime) (tenant workspace : string)
    (data : ExecutionEventData) (key : string) : EventEnvelope :=
  (event_envelope_new id now tenant workspace data) <| en_idempotency_key := key |>.
Definition with_sequence (e : EventEnvelope) (sequence : u64) : EventEnvelope :=
  e <| en_sequence := Some sequence |>.
Definition with_causation_id (e : EventEnvelope) (causation_id : string) : EventEnvelope :=
  e <| en_causation_id := Some causation_id |>.
End Events.
