(* ===== verification/TaskQueue.v ===== *)
(** Task queues: [crates/arco-flow/src/dispatch/mod.rs] and [memory.rs], and the
    interface of quota managers ([quota/mod.rs]).

    The scheduler reaches queues and quotas through the traits [TaskQueue] and
    [QuotaManager], classes here; the in-memory implementations are instances. *)

From S2P Require Import Prelude Storage Dag Plan Quota.
From stdpp Require Import options.

(** ** Envelopes *)

Record TaskEnvelope := mkTaskEnvelope {
  tv_task_id : TaskId;
  tv_run_id : N;
  tv_asset_id : string;
  tv_task_key : TaskKey;
  tv_tenant_id : string;
  tv_workspace_id : string;
  tv_attempt : u32;
  tv_attempt_id : option string;
  tv_resources : ResourceRequirements;
  tv_enqueued_at : DateTime;
  tv_deadline : option DateTime
}.
#[export] Instance eta_TaskEnvelope : Eta TaskEnvelope :=
  fun r => mkTaskEnvelope (tv_task_id r) (tv_run_id r) (tv_asset_id r) (tv_task_key r)
             (tv_tenant_id r) (tv_workspace_id r) (tv_attempt r) (tv_attempt_id r)
             (tv_resources r) (tv_enqueued_at r) (tv_deadline r).

Definition task_envelope_new (now : DateTime) (task_id : TaskId) (run_id : N) (asset_id : string)
    (task_key : TaskKey) (tenant_id workspace_id : string) (attempt : u32)
    (resources : ResourceRequirements) : TaskEnvelope :=
  mkTaskEnvelope task_id run_id asset_id task_key tenant_id workspace_id attempt None resources
    now None.

Definition with_deadline (e : TaskEnvelope) (deadline : DateTime) : TaskEnvelope :=
  e <| tv_deadline := Some deadline |>.

Definition envelope_idempotency_key `{Display N} (e : TaskEnvelope) : string :=
  to_string (tv_run_id e) +:+ "/" +:+ to_string (tv_task_id e) +:+ "/" +:+ pretty (tv_attempt e).

Inductive EnqueueResult :=
  | Enqueued (message_id : string)
  | Deduplicated (existing_message_id : string)
  | QueueFull.

Definition is_enqueued (r : EnqueueResult) : bool :=
  match r with Enqueued _ => true | _ => false end.

Definition message_id (r : EnqueueResult) : option string :=
  match r with Enqueued id | Deduplicated id => Some id | QueueFull => None end.

Definition enqueue_result_for_status (status : N) (task_name : string) : option EnqueueResult :=
  if (status =? 409)%N then Some (Deduplicated task_name)
  else if (status =? 429)%N then Some QueueFull
  else None.

Record EnqueueOptions := mkEnqueueOptions {
  eo_delay : option N;
  eo_priority : option Z;
  eo_routing_key : option string
}.
#[export] Instance eta_EnqueueOptions : Eta EnqueueOptions :=
  fun r => mkEnqueueOptions (eo_delay r) (eo_priority r) (eo_routing_key r).

Definition enqueue_options_new : EnqueueOptions := mkEnqueueOptions None None None.
Definition with_delay (o : EnqueueOptions) (delay : N) : EnqueueOptions := o <| eo_delay := Some delay |>.
Definition with_priority (o : EnqueueOptions) (priority : Z) : EnqueueOptions :=
  o <| eo_priority := Some priority |>.
Definition with_routing_key (o : EnqueueOptions) (key : string) : EnqueueOptions :=
  o <| eo_routing_key := Some key |>.

(** ** The interfaces

    A call may fail, and the queue or the quotas may have changed when it does; the
    [ulid] is the identifier an enqueued message gets if it is new. *)

Class TaskQueue (Q : Type) := {
  enqueue : string -> TaskEnvelope -> EnqueueOptions -> Q -> fresult EnqueueResult * Q;
  queue_depth : Q -> fresult nat;
  queue_name : Q -> string
}.

Class QuotaManager (M : Type) := {
  manager_get_quota : string -> M -> fresult (option TenantQuota);
  manager_try_dispatch : string -> N -> M -> fresult QuotaDecision * M;
  manager_record_completion : string -> N -> M -> fresult unit * M
}.

(** [enqueue_batch]: stops at the first error. *)
Fixpoint enqueue_batch `{TaskQueue Q} (tasks : list (string * TaskEnvelope * EnqueueOptions)) (q : Q) :
    fresult (list EnqueueResult) * Q :=
  match tasks with
  | [] => (Ok [], q)
  | (ulid, envelope, options) :: tasks =>
      match enqueue ulid envelope options q with
      | (Err e, q) => (Err e, q)
      | (Ok r, q) =>
          match enqueue_batch tasks q with
          | (Err e, q) => (Err e, q)
          | (Ok rs, q) => (Ok (r :: rs), q)
          end
      end
  end.

(** ** The in-memory queue *)

Record QueueEntry := mkQueueEntry {
  qe_message_id : string;
  qe_idempotency_key : string;
  qe_envelope : TaskEnvelope;
  qe_options : EnqueueOptions
}.

Record InMemoryTaskQueue := mkInMemoryTaskQueue {
  mq_name : string;
  mq_queue : list QueueEntry;
  mq_seen_keys : gmap string string;
  mq_max_capacity : option nat
}.
#[export] Instance eta_InMemoryTaskQueue : Eta InMemoryTaskQueue :=
  fun r => mkInMemoryTaskQueue (mq_name r) (mq_queue r) (mq_seen_keys r) (mq_max_capacity r).

Definition memory_queue_new (name : string) : InMemoryTaskQueue := mkInMemoryTaskQueue name [] ∅ None.
Definition memory_queue_with_capacity (name : string) (max_capacity : nat) : InMemoryTaskQueue :=
  mkInMemoryTaskQueue name [] ∅ (Some max_capacity).

Definition queue_take (q : InMemoryTaskQueue) : option QueueEntry * InMemoryTaskQueue :=
  match mq_queue q with
  | [] => (None, q)
  | entry :: queue =>
      (Some entry, q <| mq_queue := queue |>
                     <| mq_seen_keys := delete (qe_idempotency_key entry) (mq_seen_keys q) |>)
  end.

Definition queue_peek (q : InMemoryTaskQueue) : option QueueEntry := head (mq_queue q).

Definition queue_drain (q : InMemoryTaskQueue) : list QueueEntry * InMemoryTaskQueue :=
  (mq_queue q,
   q <| mq_queue := [] |>
     <| mq_seen_keys := fold_left (fun m entry => delete (qe_idempotency_key entry) m) (mq_queue q)
                          (mq_seen_keys q) |>).

Definition queue_clear (q : InMemoryTaskQueue) : InMemoryTaskQueue :=
  q <| mq_queue := [] |> <| mq_seen_keys := ∅ |>.

Definition at_capacity (q : InMemoryTaskQueue) : bool :=
  match mq_max_capacity q with Some max => max <=? length (mq_queue q) | None => false end.

Definition memory_enqueue `{Display N} (ulid : string) (envelope : TaskEnvelope)
    (options : EnqueueOptions) (q : InMemoryTaskQueue) : fresult EnqueueResult * InMemoryTaskQueue :=
  let key := envelope_idempotency_key envelope in
  match mq_seen_keys q !! key with
  | Some existing => (Ok (Deduplicated existing), q)
  | None =>
      if at_capacity q then (Ok QueueFull, q)
      else (Ok (Enqueued ulid),
            q <| mq_seen_keys := <[key := ulid]> (mq_seen_keys q) |>
              <| mq_queue := mq_queue q ++ [mkQueueEntry ulid key envelope options] |>)
  end.

#[export] Instance memory_task_queue `{Display N} : TaskQueue InMemoryTaskQueue := {|
  enqueue := memory_enqueue;
  queue_depth q := Ok (length (mq_queue q));
  queue_name := mq_name
|}.

#[export] Instance memory_quota_manager : QuotaManager InMemoryQuotaManager := {|
  manager_get_quota tenant_id m := Ok (get_quota m tenant_id);
  manager_try_dispatch tenant_id n m := let '(d, m) := try_dispatch m tenant_id n in (Ok d, m);
  manager_record_completion tenant_id n m := (Ok tt, record_completion m tenant_id n)
|}.
