(* ===== verification/Scheduler.v ===== *)
(** The in-process scheduler: [crates/arco-flow/src/scheduler.rs], with the task results
    of [runner.rs].

    The scheduler of a plan works on a run and a sink of events, both [&mut]; it reads
    the clock and draws ULIDs.  All of it is the state of a small state-and-error monad
    in which an error keeps the changes made before it, as the code does. *)

From S2P Require Import Prelude Storage Events Dag Canonical Plan Quota TaskExec Run TaskQueue.
From stdpp Require Import options.

(** ** Configuration *)

Record RetryPolicy := mkRetryPolicy {
  rp_enabled : bool;
  rp_base_backoff : Duration;
  rp_max_backoff : Duration
}.
Definition retry_policy_default : RetryPolicy := mkRetryPolicy true (secs 5) (secs 300).

Record SchedulerConfig := mkSchedulerConfig {
  cf_max_parallelism : nat;
  cf_continue_on_failure : bool;
  cf_retry_policy : RetryPolicy
}.
Definition scheduler_config_default : SchedulerConfig := mkSchedulerConfig 10 true retry_policy_default.

Record Scheduler := mkScheduler { sd_plan : Plan; sd_config : SchedulerConfig }.
Definition scheduler_new (plan : Plan) : Scheduler := mkScheduler plan scheduler_config_default.
Definition with_config (plan : Plan) (config : SchedulerConfig) : Scheduler := mkScheduler plan config.

(** The largest [Duration]: [u64::MAX] seconds and a nanosecond less than one more. *)
Definition duration_max : Duration := ((u64_max + 1) * 1000000000 - 1)%N.

(** Little-endian bytes. *)
Fixpoint to_le_bytes (width : nat) (n : N) : string :=
  match width with
  | O => ""
  | S width => String (ascii_of_N (n mod 256)) (to_le_bytes width (n / 256))
  end.

Fixpoint from_le_bytes (s : string) : N :=
  match s with
  | EmptyString => 0
  | String c s => (N_of_ascii c + 256 * from_le_bytes s)%N
  end.

Section Jitter.
Context `{HD : Display N} `{HH : Hashes}.

Definition deterministic_full_jitter (run_id : RunId) (task_id : TaskId) (attempt : u32)
    (max_delay : Duration) : Duration :=
  let max_ms := N.min (max_delay / 1000000) u64_max in
  if (max_ms =? 0)%N then 0%N
  else
    let digest := sha256 (to_string run_id +:+ to_string task_id +:+ to_le_bytes 4 attempt) in
    let value := if 8 <=? String.length digest then from_le_bytes (String.substring 0 8 digest)
                 else 0%N in
    let range := N.min (max_ms + 1) u64_max in
    ((if (range =? 0)%N then value else value mod range) * 1000000)%N.

Definition backoff_for (policy : RetryPolicy) (run_id : RunId) (task_id : TaskId) (attempt : u32) :
    Duration :=
  if negb (rp_enabled policy) then 0%N
  else
    let exponent := N.min (attempt - 1) 31 in
    let product := (rp_base_backoff policy * 2 ^ exponent)%N in
    let exponential :=
      N.min (if (product <=? duration_max)%N then product else rp_max_backoff policy)
            (rp_max_backoff policy) in
    deterministic_full_jitter run_id task_id attempt exponential.
End Jitter.

(** ** The state *)

Class Supply := { clock : N -> DateTime; ulid : N -> string }.

Record SchedState := mkSchedState {
  ss_run : Run;
  ss_outbox : list EventEnvelope;
  ss_reads : N
}.
#[export] Instance eta_SchedState : Eta SchedState :=
  fun r => mkSchedState (ss_run r) (ss_outbox r) (ss_reads r).

Definition sched (A : Type) : Type := SchedState -> fresult A * SchedState.

Definition sret {A} (a : A) : sched A := fun s => (Ok a, s).
Definition sfail {A} (e : FlowError) : sched A := fun s => (Err e, s).
Definition sbind {A B} (m : sched A) (k : A -> sched B) : sched B :=
  fun s => match m s with (Ok a, s) => k a s | (Err e, s) => (Err e, s) end.
Notation "'let^' x := m 'in' k" := (sbind m (fun x => k))
  (at level 10, x name, m at level 100, k at level 200).

Definition get_run : sched Run := fun s => (Ok (ss_run s), s).

Inductive TaskResult :=
  | ResultSucceeded (output : TaskOutput)
  | ResultFailed (error : TaskError)
  | ResultCancelled.

Definition is_success (r : TaskResult) : bool := match r with ResultSucceeded _ => true | _ => false end.

Record DispatchReport := mkDispatchReport {
  dr_attempted : nat;
  dr_enqueued : nat;
  dr_deduplicated : nat;
  dr_queue_full : nat;
  dr_quota_denied : nat;
  dr_errors : nat
}.
#[export] Instance eta_DispatchReport : Eta DispatchReport :=
  fun r => mkDispatchReport (dr_attempted r) (dr_enqueued r) (dr_deduplicated r)
             (dr_queue_full r) (dr_quota_denied r) (dr_errors r).
Definition accepted (r : DispatchReport) : nat := dr_enqueued r + dr_deduplicated r.

Section Scheduler.
Context `{HD : Display N} `{HH : Hashes} `{HS : Supply}.

(** [emit_sequenced], with the envelope its argument builds. *)
Definition emit_sequenced (data : ExecutionEventData) : sched unit :=
  fun s =>
    let event := event_envelope_new (ulid (ss_reads s)) (clock (ss_reads s))
                   (ru_tenant_id (ss_run s)) (ru_workspace_id (ss_run s)) data in
    let '(seq, run) := next_sequence (ss_run s) in
    (Ok tt, mkSchedState run (ss_outbox s ++ [with_sequence event seq]) (ss_reads s + 1)).

Definition task_not_found (task_id : TaskId) : FlowError := TaskNotFound (to_string task_id).

(** What is done through [get_task_mut]; [now k] is the [k]-th reading of the clock. *)
Definition with_task {A} (task_id : TaskId)
    (f : (N -> DateTime) -> TaskExecution -> fresult A * TaskExecution) : sched A :=
  fun s =>
    match update_task task_id (f (fun k => clock (ss_reads s + k))) (ss_run s) with
    | None => (Err (task_not_found task_id), s)
    | Some (r, run) => (r, s <| ss_run := run |> <| ss_reads := (ss_reads s + 3)%N |>)
    end.

Definition with_run (f : DateTime -> Run -> fresult unit * Run) : sched unit :=
  fun s =>
    let '(r, run) := f (clock (ss_reads s)) (ss_run s) in
    (r, s <| ss_run := run |> <| ss_reads := (ss_reads s + 1)%N |>).

Fixpoint for_each {A} (f : A -> sched unit) (l : list A) : sched unit :=
  match l with
  | [] => sret tt
  | x :: l => let^ _ := f x in for_each f l
  end.

(** ** Selection *)

Definition plan_position (plan : Plan) (task_id : TaskId) : option nat :=
  fst <$> list_find (fun t => sp_task_id t = task_id) (pl_tasks plan).

Definition position_compare (a b : option nat) : comparison :=
  match a, b with
  | None, None => Eq
  | None, Some _ => Lt
  | Some _, None => Gt
  | Some i, Some j => (i ?= j)%nat
  end.

Definition ready_before (plan : Plan) (a b : TaskSpec) : bool :=
  not_greater (cmp_then (sp_priority a ?= sp_priority b)%Z
                 (position_compare (plan_position plan (sp_task_id a))
                                   (plan_position plan (sp_task_id b)))).

Definition get_ready_tasks (sd : Scheduler) (run : Run) : list TaskSpec :=
  let running_count := tasks_running run + tasks_queued run in
  let available_slots := cf_max_parallelism (sd_config sd) - running_count in
  if available_slots =? 0 then []
  else take available_slots
         (sort_by (ready_before (sd_plan sd)) (omap (plan_task (sd_plan sd)) (ready_tasks (sd_plan sd) run))).

(** ** Run lifecycle *)

(** [create_run], on a sink that may hold earlier events. *)
Definition create_run (sd : Scheduler) (run_id : RunId) (trigger : RunTrigger)
    (outbox : list EventEnvelope) (reads : N) : SchedState :=
  let run := from_plan run_id (clock reads) (sd_plan sd) trigger in
  (emit_sequenced
     (RunCreated (ru_id run) (ru_plan_id run) (trigger_type_string (tr_trigger_type (ru_trigger run)))
        (tr_triggered_by (ru_trigger run)))
     (mkSchedState run outbox (reads + 1))).2.

Definition start_run : sched unit :=
  let^ _ := with_run (fun now => run_transition_to now RunRunning) in
  let^ run := get_run in
  emit_sequenced (RunStarted (ru_id run) (ru_plan_id run)).

Definition emit_run_completed : sched unit :=
  let^ run := get_run in
  emit_sequenced (RunCompleted (ru_id run) (ru_state run) (tasks_succeeded run) (tasks_failed run)
                    (tasks_skipped run) (tasks_cancelled run)).

Definition complete_run (final_state : RunState) : sched unit :=
  let^ _ := with_run (fun now => run_transition_to now final_state) in
  emit_run_completed.

Definition check_run_completion (run : Run) : option RunState :=
  if negb (all_tasks_terminal run) then None else Some (compute_final_state run).

Definition maybe_complete_run : sched (option RunState) :=
  let^ run := get_run in
  match check_run_completion run with
  | None => sret None
  | Some final_state => let^ _ := complete_run final_state in sret (Some final_state)
  end.

(** [TaskCompleted] for a task of the run. *)
Definition emit_task_completed (task_id : TaskId) (state : TaskState) (attempt : u32) : sched unit :=
  let^ run := get_run in
  emit_sequenced (TaskCompleted (ru_id run) task_id state attempt).

(** The loop of [cancel_run]: the tasks it cancels with their attempts, and the
    executions after it. *)
Fixpoint cancel_waiting (reads : N) (l : list TaskExecution) :
    list (TaskId * u32) * list TaskExecution * N :=
  match l with
  | [] => ([], [], reads)
  | e :: l =>
      match ex_state e with
      | Pending | Ready | Queued =>
          let '(cancelled, l', reads') := cancel_waiting (reads + 1) l in
          ((ex_task_id e, ex_attempt e) :: cancelled, (cancel (clock reads) e).2 :: l', reads')
      | _ =>
          let '(cancelled, l', reads') := cancel_waiting reads l in (cancelled, e :: l', reads')
      end
  end.

Definition cancel_tasks : sched (list (TaskId * u32)) :=
  fun s =>
    let '(cancelled, l, reads) := cancel_waiting (ss_reads s) (ru_task_executions (ss_run s)) in
    (Ok cancelled, s <| ss_run := (ss_run s) <| ru_task_executions := l |> |> <| ss_reads := reads |>).

Definition cancel_run : sched unit :=
  let^ run := get_run in
  let^ _ := (if bool_decide (ru_state run = RunCancelling) then sret tt
             else with_run (fun now => run_transition_to now RunCancelling)) in
  let^ cancelled := cancel_tasks in
  let^ _ := for_each (fun c => emit_task_completed c.1 Cancelled c.2) cancelled in
  let^ run := get_run in
  if tasks_running run =? 0 then
    let^ _ := with_run (fun now => run_transition_to now RunCancelled) in
    emit_run_completed
  else sret tt.

(** ** Downstream tasks *)

Record SkipState := mkSkipState {
  sk_state : SchedState;
  sk_visited : gset TaskId;
  sk_frontier : list TaskId;
  sk_skipped : list TaskId
}.

(** [if let Some(exec) = run.get_task_mut(..) { if exec.state == Pending { .. } }]: whether
    the task was skipped. *)
Definition skip_pending (task_id : TaskId) (s : SchedState) : bool * SchedState :=
  match update_task task_id (fun e => if bool_decide (ex_state e = Pending)
                                      then (true, (skip (clock (ss_reads s)) e).2)
                                      else (false, e)) (ss_run s) with
  | None => (false, s)
  | Some (b, run) => (b, s <| ss_run := run |> <| ss_reads := (ss_reads s + 1)%N |>)
  end.

(** The body of the loop over [plan.tasks]; the end of the frontier comes first here. *)
Definition visit_task (current : TaskId) (k : SkipState) (task : TaskSpec) : SkipState :=
  if negb (bool_decide (current ∈ sp_upstream_task_ids task)) then k
  else if bool_decide (sp_task_id task ∈ sk_visited k) then k
  else
    let '(skipped, s) := skip_pending (sp_task_id task) (sk_state k) in
    mkSkipState s ({[sp_task_id task]} ∪ sk_visited k) (sp_task_id task :: sk_frontier k)
      (if skipped then sk_skipped k ++ [sp_task_id task] else sk_skipped k).

(** [None] when the fuel runs out. *)
Fixpoint skip_loop (fuel : nat) (tasks : list TaskSpec) (k : SkipState) : option SkipState :=
  match fuel with
  | O => None
  | S fuel =>
      match sk_frontier k with
      | [] => Some k
      | current :: frontier =>
          skip_loop fuel tasks
            (fold_left (visit_task current) tasks
               (mkSkipState (sk_state k) (sk_visited k) frontier (sk_skipped k)))
      end
  end.

Definition skip_fuel (plan : Plan) : nat := S (S (length (pl_tasks plan))).

Definition skip_downstream_tasks (sd : Scheduler) (failed_task_id : TaskId) : sched (list TaskId) :=
  fun s =>
    match skip_loop (skip_fuel (sd_plan sd)) (pl_tasks (sd_plan sd)) (mkSkipState s ∅ [failed_task_id] []) with
    | None => (out_of_fuel, s)
    | Some k => (Ok (sk_skipped k), sk_state k)
    end.

Definition attempt_of (run : Run) (task_id : TaskId) : u32 :=
  match get_task run task_id with Some e => ex_attempt e | None => 1%N end.

Definition process_task_completion (sd : Scheduler) (task_id : TaskId) : sched unit :=
  let^ run := get_run in
  match get_task run task_id with
  | None => sfail (task_not_found task_id)
  | Some execution =>
      if match ex_state execution with Failed | Cancelled => true | _ => false end
         && cf_continue_on_failure (sd_config sd)
      then
        let^ skipped := skip_downstream_tasks sd task_id in
        for_each (fun skipped_task_id =>
          let^ run := get_run in
          emit_task_completed skipped_task_id Skipped (attempt_of run skipped_task_id)) skipped
      else sret tt
  end.

(** ** Tasks *)

Definition queue_task (sd : Scheduler) (task_id : TaskId) : sched unit :=
  let^ run := get_run in
  let is_ready := bool_decide (task_id ∈ ready_tasks (sd_plan sd) run) in
  let^ attempt :=
    with_task task_id (fun now exec =>
      if is_waiting (ex_state exec) && negb is_ready then
        (Err (InvalidStateTransition (task_state_string (ex_state exec)) (task_state_string Queued)
                "dependencies not satisfied"), exec)
      else
        let '(r, exec) :=
          if bool_decide (ex_state exec = Pending) then transition_to (now 0%N) Ready exec
          else (Ok tt, exec) in
        match r with
        | Err e => (Err e, exec)
        | Ok _ =>
            match transition_to (now 1%N) Queued exec with
            | (Err e, exec) => (Err e, exec)
            | (Ok _, exec) => (Ok (ex_attempt exec), exec)
            end
        end) in
  emit_sequenced (TaskQueued (ru_id run) task_id attempt).

Definition start_task (task_id : TaskId) (worker_id : string) : sched unit :=
  let^ attempt :=
    with_task task_id (fun now exec =>
      match transition_to (now 0%N) Dispatched exec with
      | (Err e, exec) => (Err e, exec)
      | (Ok _, exec) => (Ok (ex_attempt exec), exec <| ex_worker_id := Some worker_id |>)
      end) in
  let^ run := get_run in
  let^ _ := emit_sequenced (TaskDispatched (ru_id run) task_id attempt worker_id) in
  let^ _ := with_task task_id (fun now exec => transition_to (now 0%N) Running exec) in
  emit_sequenced (TaskStarted (ru_id run) task_id attempt worker_id).

Definition record_task_success (task_id : TaskId) (output : TaskOutput) : sched unit :=
  let^ attempt :=
    with_task task_id (fun now exec =>
      let attempt := ex_attempt exec in
      match succeed (now 0%N) output exec with
      | (Err e, exec) => (Err e, exec)
      | (Ok _, exec) => (Ok attempt, exec)
      end) in
  let^ run := get_run in
  let^ _ := emit_sequenced (TaskOutputEvent (ru_id run) task_id (ou_materialization_id output)
                              (ou_row_count output) (ou_byte_size output)) in
  emit_task_completed task_id Succeeded attempt.

(** [i64::try_from(backoff.as_millis()).unwrap_or(i64::MAX)] *)
Definition backoff_ms (backoff : Duration) : i64 := Z.min (Z.of_N (backoff / 1000000)) i64_max.

Definition record_task_failure (sd : Scheduler) (task_id : TaskId) (error : TaskError) : sched unit :=
  let^ run := get_run in
  let policy := cf_retry_policy (sd_config sd) in
  let^ outcome :=
    with_task task_id (fun now exec =>
      let attempt := ex_attempt exec in
      match fail (now 0%N) error exec with
      | (Err e, exec) => (Err e, exec)
      | (Ok _, exec) =>
          if rp_enabled policy && er_retryable error && can_retry exec then
            let backoff := backoff_for policy (ru_id run) task_id attempt in
            let retry_at := (now 1%N + default chrono_max (chrono_from_std backoff))%Z in
            match transition_to (now 2%N) RetryWait exec with
            | (Err e, exec) => (Err e, exec)
            | (Ok _, exec) =>
                (Ok (attempt, Some (retry_at, backoff)), exec <| ex_retry_at := Some retry_at |>)
            end
          else (Ok (attempt, None), exec)
      end) in
  let '(attempt, retry) := outcome in
  let^ _ := emit_sequenced (TaskFailed (ru_id run) task_id error attempt) in
  let^ _ := emit_task_completed task_id Failed attempt in
  match retry with
  | None => sret tt
  | Some (retry_at, backoff) =>
      emit_sequenced (TaskRetryScheduled (ru_id run) task_id attempt retry_at (backoff_ms backoff))
  end.

Definition record_task_cancelled (task_id : TaskId) : sched unit :=
  let^ attempt :=
    with_task task_id (fun now exec =>
      let attempt := ex_attempt exec in
      match cancel (now 0%N) exec with
      | (Err e, exec) => (Err e, exec)
      | (Ok _, exec) => (Ok attempt, exec)
      end) in
  emit_task_completed task_id Cancelled attempt.

Definition record_task_result (sd : Scheduler) (task_id : TaskId) (result : TaskResult) : sched unit :=
  let^ _ :=
    match result with
    | ResultSucceeded output => record_task_success task_id output
    | ResultFailed error => record_task_failure sd task_id error
    | ResultCancelled => record_task_cancelled task_id
    end in
  process_task_completion sd task_id.

(** ** Time *)

(** One turn of the loop of [process_retries_at]: whether the task moved. *)
Definition process_retry (now : DateTime) (task_id : TaskId) : sched bool :=
  let^ run := get_run in
  if negb match get_task run task_id with Some exec => is_retry_due_at now exec | None => false end
  then sret false
  else
    let^ attempts :=
      with_task task_id (fun clk exec =>
        let previous_attempt := ex_attempt exec in
        match transition_to (clk 0%N) Ready exec with
        | (Err e, exec) => (Err e, exec)
        | (Ok _, exec) => (Ok (previous_attempt, ex_attempt exec), exec)
        end) in
    let^ _ := emit_sequenced (TaskRetried (ru_id run) task_id attempts.1 attempts.2) in
    sret true.

(** A loop over the tasks of the plan that collects the ids a turn answers [true] for. *)
Fixpoint collect_tasks (f : TaskId -> sched bool) (tasks : list TaskSpec) : sched (list TaskId) :=
  match tasks with
  | [] => sret []
  | spec :: tasks =>
      let^ b := f (sp_task_id spec) in
      let^ rest := collect_tasks f tasks in
      sret (if b then sp_task_id spec :: rest else rest)
  end.

Definition process_retries_at (sd : Scheduler) (now : DateTime) : sched (list TaskId) :=
  collect_tasks (process_retry now) (pl_tasks (sd_plan sd)).

Definition record_task_heartbeat_at (task_id : TaskId) (now : DateTime) : sched unit :=
  let^ run := get_run in
  let^ attempt :=
    with_task task_id (fun _ exec =>
      match ex_state exec with
      | Running | Dispatched => (Ok (Some (ex_attempt exec)), record_heartbeat_at now exec)
      | _ => (Ok None, exec)
      end) in
  match attempt with
  | None => sret tt
  | Some attempt => emit_sequenced (TaskHeartbeat (ru_id run) task_id attempt)
  end.

Definition heartbeat_error : TaskError := task_error_new CatInfrastructure "heartbeat timeout".

Definition process_stale_heartbeat (sd : Scheduler) (now : DateTime) (task_id : TaskId) : sched bool :=
  let^ run := get_run in
  if negb match get_task run task_id with Some exec => is_heartbeat_stale_at now exec | None => false end
  then sret false
  else
    let^ _ := record_task_failure sd task_id heartbeat_error in
    let^ _ := process_task_completion sd task_id in
    sret true.

Definition process_stale_heartbeats_at (sd : Scheduler) (now : DateTime) : sched (list TaskId) :=
  collect_tasks (process_stale_heartbeat sd now) (pl_tasks (sd_plan sd)).

(** ** Dispatch *)

Definition build_task_envelope (now : DateTime) (run : Run) (spec : TaskSpec) (attempt : u32) :
    TaskEnvelope :=
  task_envelope_new now (sp_task_id spec) (ru_id run) (sp_asset_id spec)
    (mkTaskKey (sp_asset_key spec) (sp_partition_key spec) (sp_operation spec))
    (ru_tenant_id run) (ru_workspace_id run) attempt (sp_resources spec).

Definition enqueue_options_for (spec : TaskSpec) : EnqueueOptions :=
  with_priority enqueue_options_new (sp_priority spec).

Section Dispatch.
Context `{HQ : TaskQueue Q} `{HM : QuotaManager M}.

Record DispatchState := mkDispatchState {
  ds_sched : SchedState;
  ds_queue : Q;
  ds_quota : M;
  ds_report : DispatchReport
}.

(** [let _ = quota.record_completion(&run.tenant_id, 1).await] *)
Definition release_quota (d : DispatchState) : DispatchState :=
  mkDispatchState (ds_sched d) (ds_queue d)
    (manager_record_completion (ru_tenant_id (ss_run (ds_sched d))) 1 (ds_quota d)).2 (ds_report d).

Definition count_report (f : DispatchReport -> DispatchReport) (d : DispatchState) : DispatchState :=
  mkDispatchState (ds_sched d) (ds_queue d) (ds_quota d) (f (ds_report d)).

Definition an_error (d : DispatchState) : DispatchState :=
  count_report (fun r => r <| dr_errors := S (dr_errors r) |>) d.

(** After the queue accepted the task: it is marked as queued. *)
Definition settle (sd : Scheduler) (task_id : TaskId) (d : DispatchState) : fresult unit * DispatchState :=
  match ex_state <$> get_task (ss_run (ds_sched d)) task_id with
  | Some Queued => (Ok tt, release_quota d)
  | Some (Pending | Ready) =>
      let '(r, s) := queue_task sd task_id (ds_sched d) in
      let d := mkDispatchState s (ds_queue d) (ds_quota d) (ds_report d) in
      match r with
      | Ok _ => (Ok tt, d)
      | Err e => (Err e, release_quota (an_error d))
      end
  | _ => (Ok tt, release_quota (an_error d))
  end.

(** One turn of the loop over the selections. *)
Definition dispatch_one (sd : Scheduler) (spec_by_id : gmap TaskId TaskSpec) (task_id : TaskId)
    (d : DispatchState) : fresult unit * DispatchState :=
  match spec_by_id !! task_id with
  | None => (Ok tt, an_error d)
  | Some spec =>
      let s := ds_sched d in
      let run := ss_run s in
      let '(decision, quota) := manager_try_dispatch (ru_tenant_id run) 1 (ds_quota d) in
      let d := mkDispatchState s (ds_queue d) quota (ds_report d) in
      match decision with
      | Err e => (Err e, d)
      | Ok (Denied _) =>
          (Ok tt, count_report (fun r => r <| dr_quota_denied := S (dr_quota_denied r) |>) d)
      | Ok Allowed =>
          let envelope := build_task_envelope (clock (ss_reads s)) run spec (attempt_of run task_id) in
          let '(result, queue) :=
            enqueue (ulid (ss_reads s)) envelope (enqueue_options_for spec) (ds_queue d) in
          let d := mkDispatchState (s <| ss_reads := (ss_reads s + 1)%N |>) queue quota (ds_report d) in
          match result with
          | Err e => (Err e, release_quota (an_error d))
          | Ok QueueFull =>
              (Ok tt, release_quota
                        (count_report (fun r => r <| dr_queue_full := S (dr_queue_full r) |>) d))
          | Ok (Enqueued _) =>
              settle sd task_id (count_report (fun r => r <| dr_enqueued := S (dr_enqueued r) |>) d)
          | Ok (Deduplicated _) =>
              settle sd task_id
                (count_report (fun r => r <| dr_deduplicated := S (dr_deduplicated r) |>) d)
          end
      end
  end.

Fixpoint dispatch_loop (sd : Scheduler) (spec_by_id : gmap TaskId TaskSpec) (selections : list TaskId)
    (d : DispatchState) : fresult unit * DispatchState :=
  match selections with
  | [] => (Ok tt, d)
  | task_id :: selections =>
      match dispatch_one sd spec_by_id task_id d with
      | (Err e, d) => (Err e, d)
      | (Ok _, d) => dispatch_loop sd spec_by_id selections d
      end
  end.

(** The executions of the ready tasks. *)
Fixpoint ready_executions (run : Run) (specs : list TaskSpec) : fresult (list TaskExecution) :=
  match specs with
  | [] => Ok []
  | spec :: specs =>
      match get_task run (sp_task_id spec) with
      | None => Err (task_not_found (sp_task_id spec))
      | Some exec =>
          match ready_executions run specs with
          | Err e => Err e
          | Ok execs => Ok (exec :: execs)
          end
      end
  end.

Definition dispatch_ready_tasks (sd : Scheduler) (s : SchedState) (queue : Q) (quota : M) :
    fresult DispatchReport * DispatchState :=
  let run := ss_run s in
  let ready_specs := get_ready_tasks sd run in
  let d := mkDispatchState s queue quota (mkDispatchReport (length ready_specs) 0 0 0 0 0) in
  match ready_specs with
  | [] => (Ok (ds_report d), d)
  | _ =>
      let spec_by_id :=
        fold_left (fun m spec => <[sp_task_id spec := spec]> m) ready_specs (∅ : gmap TaskId TaskSpec) in
      match ready_executions run ready_specs with
      | Err e => (Err e, d)
      | Ok ready_execs =>
          match manager_get_quota (ru_tenant_id run) quota with
          | Err e => (Err e, d)
          | Ok q =>
              let weight := match q with Some q => tq_weight q | None => 1%N end in
              let drr := add_ready_tasks drr_new (ru_tenant_id run) weight ready_execs in
              let selections := (select_batch (size spec_by_id) drr).1 in
              match dispatch_loop sd spec_by_id ((fun x => ex_task_id x.1) <$> selections) d with
              | (Err e, d) => (Err e, d)
              | (Ok _, d) => (Ok (ds_report d), d)
              end
          end
      end
  end.
End Dispatch.
End Scheduler.
