(* ===== verification/SchedulerMachine.v ===== *)
(** The scheduler as a state machine.

    Every operation of [Scheduler], whether it succeeds or fails, is a sequence of
    small steps: one task takes a transition of the table, the run takes one, an event
    is emitted.  A step that enters a state earns the right to announce it once; an
    event of the lifecycle is emitted only by using up such a right. *)

From S2P Require Import Prelude Storage Events Dag DagProps Canonical Plan Quota TaskExec Run TaskQueue Scheduler.
From stdpp Require Import relations options.

(** ** What an event announces *)

Inductive ident :=
  | IQueued (t : TaskId) (a : u32)
  | IDispatched (t : TaskId) (a : u32)
  | IStarted (t : TaskId) (a : u32)
  | ICompleted (t : TaskId) (a : u32) (st : TaskState)
  | IFailed (t : TaskId) (a : u32)
  | IRetryScheduled (t : TaskId) (a : u32)
  | IRetried (t : TaskId) (a a' : u32)
  | IRunCreated
  | IRunStarted
  | IRunCompleted.

Definition event_ident (d : ExecutionEventData) : option ident :=
  match d with
  | RunCreated _ _ _ _ => Some IRunCreated
  | RunStarted _ _ => Some IRunStarted
  | RunCompleted _ _ _ _ _ _ => Some IRunCompleted
  | TaskQueued _ t a => Some (IQueued t a)
  | TaskDispatched _ t a _ => Some (IDispatched t a)
  | TaskStarted _ t a _ => Some (IStarted t a)
  | TaskCompleted _ t st a => Some (ICompleted t a st)
  | TaskFailed _ t _ a => Some (IFailed t a)
  | TaskRetryScheduled _ t a _ _ => Some (IRetryScheduled t a)
  | TaskRetried _ t a a' => Some (IRetried t a a')
  | TaskOutputEvent _ _ _ _ _ | TaskHeartbeat _ _ _ | TaskMetricsRecorded _ _ _ => None
  end.

Definition announced (s : SchedState) : list ident := omap (fun e => event_ident (en_data e)) (ss_outbox s).

(** ** Ranks: every transition goes up *)

Definition phase (st : TaskState) : N :=
  match st with
  | Planned => 0 | Pending => 1 | Ready => 2 | Queued => 3 | Dispatched => 4 | Running => 5
  | Succeeded | Failed => 6 | RetryWait => 7 | Skipped | Cancelled => 8
  end.

Definition rank (a : u32) (st : TaskState) : N := (16 * a + phase st)%N.
Definition exec_rank (e : TaskExecution) : N := rank (ex_attempt e) (ex_state e).

Definition run_phase (st : RunState) : N :=
  match st with
  | RunPending => 0 | RunRunning => 1 | RunCancelling => 2
  | RunSucceeded | RunFailed | RunCancelled | RunTimedOut => 3
  end.

(** The task an announcement is about and the rank it was entered at. *)
Definition ident_task (i : ident) : option (TaskId * N) :=
  match i with
  | IQueued t a => Some (t, rank a Queued)
  | IDispatched t a => Some (t, rank a Dispatched)
  | IStarted t a => Some (t, rank a Running)
  | ICompleted t a st => Some (t, rank a st)
  | IFailed t a => Some (t, rank a Failed)
  | IRetryScheduled t a => Some (t, rank a RetryWait)
  | IRetried t _ a' => Some (t, rank a' Ready)
  | IRunCreated | IRunStarted | IRunCompleted => None
  end.

Definition ident_run (i : ident) : option N :=
  match i with
  | IRunCreated => Some 0%N | IRunStarted => Some 1%N | IRunCompleted => Some 3%N
  | _ => None
  end.

(** What entering a state entitles to announce. *)
Definition entered (e e' : TaskExecution) : list ident :=
  let t := ex_task_id e in
  let a := ex_attempt e' in
  match ex_state e' with
  | Queued => [IQueued t a]
  | Dispatched => [IDispatched t a]
  | Running => [IStarted t a]
  | Failed => [IFailed t a; ICompleted t a Failed]
  | Succeeded => [ICompleted t a Succeeded]
  | Skipped => [ICompleted t a Skipped]
  | Cancelled => [ICompleted t a Cancelled]
  | RetryWait => [IRetryScheduled t a]
  | Ready => if decide (ex_state e = RetryWait) then [IRetried t (ex_attempt e) a] else []
  | Planned | Pending => []
  end.

Definition run_entered (st : RunState) : list ident :=
  match st with
  | RunRunning => [IRunStarted]
  | RunSucceeded | RunFailed | RunCancelled | RunTimedOut => [IRunCompleted]
  | RunPending | RunCancelling => []
  end.

(** ** Steps *)

(** States that block the tasks downstream. *)
Definition blocking (st : TaskState) : bool :=
  match st with Failed | Skipped | Cancelled => true | _ => false end.

(** A transition of one task. *)
Record moves (e e' : TaskExecution) : Prop := {
  mv_id : ex_task_id e' = ex_task_id e;
  mv_max : ex_max_attempts e' = ex_max_attempts e;
  mv_table : can_transition_to (ex_state e) (ex_state e') = true;
  mv_attempt : ex_attempt e' = match ex_state e, ex_state e' with
                               | RetryWait, Ready => u32_add (ex_attempt e) 1
                               | _, _ => ex_attempt e
                               end;
  mv_retry : ex_state e' = RetryWait -> (ex_attempt e < ex_max_attempts e)%N
}.

(** A change that leaves the state alone. *)
Record stays (e e' : TaskExecution) : Prop := {
  sy_id : ex_task_id e' = ex_task_id e;
  sy_max : ex_max_attempts e' = ex_max_attempts e;
  sy_state : ex_state e' = ex_state e;
  sy_attempt : ex_attempt e' = ex_attempt e
}.

(** All dependencies of task [t] of the plan succeeded. *)
Definition deps_succeeded (plan : Plan) (l : list TaskExecution) (t : TaskId) : Prop :=
  forall spec dep, spec ∈ pl_tasks plan -> sp_task_id spec = t -> dep ∈ sp_upstream_task_ids spec ->
    exists d, d ∈ l /\ ex_task_id d = dep /\ ex_state d = Succeeded.

Section Machine.
(** [allow]: the states tasks may enter. *)
Context `{HD : Display N} `{HH : Hashes} `{HS : Supply} (plan : Plan) (allow : TaskState -> Prop).

Definition set_tasks (s : SchedState) (l : list TaskExecution) : SchedState :=
  s <| ss_run := (ss_run s) <| ru_task_executions := l |> |>.

Abbreviation tasks_of s := (ru_task_executions (ss_run s)).

Abbreviation conf := (SchedState * list ident)%type.

Inductive gstep : conf -> conf -> Prop :=
  | g_reads s pend n : gstep (s, pend) (s <| ss_reads := n |>, pend)
  | g_drop s pend : gstep (s, pend) (s, [])
  | g_note s pend d : event_ident d = None -> gstep (s, pend) ((emit_sequenced d s).2, pend)
  | g_emit s d i pend1 pend2 : event_ident d = Some i ->
      gstep (s, pend1 ++ i :: pend2) ((emit_sequenced d s).2, pend1 ++ pend2)
  | g_stay s pend l1 e l2 e' : tasks_of s = l1 ++ e :: l2 -> stays e e' ->
      gstep (s, pend) (set_tasks s (l1 ++ e' :: l2), pend)
  | g_move s pend l1 e l2 e' : tasks_of s = l1 ++ e :: l2 -> moves e e' -> allow (ex_state e') ->
      (ex_state e = Pending -> ex_state e' = Ready -> deps_succeeded plan (tasks_of s) (ex_task_id e)) ->
      gstep (s, pend) (set_tasks s (l1 ++ e' :: l2), pend ++ entered e e')
  | g_run s pend run : run_can_transition_to (ru_state (ss_run s)) (ru_state run) = true ->
      ru_id run = ru_id (ss_run s) -> ru_task_executions run = tasks_of s ->
      ru_run_sequence run = ru_run_sequence (ss_run s) ->
      gstep (s, pend) (s <| ss_run := run |>, pend ++ run_entered (ru_state run)).

Definition gsteps : conf -> conf -> Prop := rtc gstep.

(** ** Transitions of one task *)

Lemma transition_to_spec now target e :
  match transition_to now target e with
  | (Ok _, e') => ex_state e' = target /\
      ((target = RetryWait -> (ex_attempt e < ex_max_attempts e)%N) -> moves e e')
  | (Err _, e') => e' = e /\ can_transition_to (ex_state e) target = false
  end.
Proof.
  unfold transition_to. destruct (can_transition_to (ex_state e) target) eqn:Ht; simpl; [|done].
  split; [done|]. intros Hr.
  destruct target; split; simpl; unfold completed; simpl; try done;
    repeat case_match; simpl; try done; bool_hyps; try done; by destruct (ex_state e).
Qed.

(** A sequence of changes of one task, and what it entitles to announce; [ok] allows
    leaving PENDING for READY. *)
Inductive chain (ok : Prop) : TaskExecution -> TaskExecution -> list ident -> Prop :=
  | chain_nil e : chain ok e e []
  | chain_stay e e' e'' ids : stays e e' -> chain ok e' e'' ids -> chain ok e e'' ids
  | chain_move e e' e'' ids : moves e e' -> allow (ex_state e') ->
      (ex_state e = Pending -> ex_state e' = Ready -> ok) -> chain ok e' e'' ids ->
      chain ok e e'' (entered e e' ++ ids).

Lemma chain_mono (ok ok' : Prop) e e' ids : (ok -> ok') -> chain ok e e' ids -> chain ok' e e' ids.
Proof.
  intros Hok. induction 1; [constructor|by eapply chain_stay|].
  eapply chain_move; [done|done|by auto|done].
Qed.

Lemma chain_one_stay ok e e' : stays e e' -> chain ok e e' [].
Proof. intros H. by eapply chain_stay, chain_nil. Qed.

Lemma chain_one_move ok e e' :
  moves e e' -> allow (ex_state e') -> (ex_state e = Pending -> ex_state e' = Ready -> ok) ->
  chain ok e e' (entered e e').
Proof. intros H Ha Hok. rewrite <-(app_nil_r (entered e e')). by eapply chain_move, chain_nil. Qed.

Lemma deps_succeeded_replace l1 e l2 e' t :
  ex_task_id e' = ex_task_id e -> (ex_state e = Succeeded -> ex_state e' = Succeeded) ->
  deps_succeeded plan (l1 ++ e :: l2) t -> deps_succeeded plan (l1 ++ e' :: l2) t.
Proof.
  intros Hid Hst Hdeps spec dep Hspec Ht Hdep.
  destruct (Hdeps spec dep Hspec Ht Hdep) as (d & Hd & <- & Hs).
  rewrite elem_of_app, elem_of_cons in Hd. destruct Hd as [Hd|[->|Hd]].
  - exists d. set_solver.
  - exists e'. split_and!; [set_solver|done|by apply Hst].
  - exists d. set_solver.
Qed.

Lemma moves_not_succeeded e e' : moves e e' -> ex_state e <> Succeeded.
Proof. intros [_ _ Ht _ _] E. by rewrite E in Ht. Qed.

Lemma chain_gsteps s pend l1 e l2 e' ids :
  tasks_of s = l1 ++ e :: l2 ->
  chain (deps_succeeded plan (tasks_of s) (ex_task_id e)) e e' ids ->
  gsteps (s, pend) (set_tasks s (l1 ++ e' :: l2), pend ++ ids).
Proof.
  intros Hl Hc. remember (deps_succeeded plan (tasks_of s) (ex_task_id e)) as ok eqn:Hok.
  assert (ok -> deps_succeeded plan (tasks_of s) (ex_task_id e)) as Hok' by by rewrite Hok.
  clear Hok. revert s pend Hl Hok'.
  induction Hc as [e|e e1 e2 ids Hs _ IH|e e1 e2 ids Hm Hal Hready _ IH]; intros s pend Hl Hok.
  - rewrite app_nil_r. assert (set_tasks s (l1 ++ e :: l2) = s) as ->; [|apply rtc_refl].
    rewrite <-Hl. by destruct s as [[]].
  - eapply rtc_l; [by eapply g_stay|].
    replace (set_tasks s (l1 ++ e2 :: l2)) with (set_tasks (set_tasks s (l1 ++ e1 :: l2)) (l1 ++ e2 :: l2))
      by (by destruct s as [[]]).
    apply IH; [done|]. intros H%Hok. rewrite (sy_id _ _ Hs). simpl.
    rewrite Hl in H. revert H. apply deps_succeeded_replace; [apply Hs|]. by rewrite (sy_state _ _ Hs).
  - eapply rtc_l; [eapply g_move; [done|done|done|by auto]|].
    replace (set_tasks s (l1 ++ e2 :: l2)) with (set_tasks (set_tasks s (l1 ++ e1 :: l2)) (l1 ++ e2 :: l2))
      by (by destruct s as [[]]).
    rewrite app_assoc. apply IH; [done|]. intros H%Hok. rewrite (mv_id _ _ Hm). simpl.
    rewrite Hl in H. revert H. apply deps_succeeded_replace; [apply Hm|].
    intros E. by apply moves_not_succeeded in Hm.
Qed.

(** ** Operations *)

(** From [s], with [pend] to announce, the operation takes steps; when it returns, [Q]
    holds of its result, the state and what is left to announce. *)
Definition takes_steps {A} (m : sched A) (s : SchedState) (pend : list ident)
    (Q : A -> SchedState -> list ident -> Prop) : Prop :=
  exists pend', gsteps (s, pend) ((m s).2, pend') /\
    forall a, (m s).1 = Ok a -> Q a (m s).2 pend'.

Lemma steps_ret {A} (a : A) s pend (Q : A -> SchedState -> list ident -> Prop) :
  Q a s pend -> takes_steps (sret a) s pend Q.
Proof. intros H. exists pend. split; [apply rtc_refl|]. by intros ? [= <-]. Qed.

Lemma steps_fail {A} e s pend (Q : A -> SchedState -> list ident -> Prop) : takes_steps (sfail e) s pend Q.
Proof. exists pend. split; [apply rtc_refl|done]. Qed.

Lemma steps_bind {A B} (m : sched A) (k : A -> sched B) s pend Q R :
  takes_steps m s pend Q -> (forall a s' pend', Q a s' pend' -> takes_steps (k a) s' pend' R) ->
  takes_steps (sbind m k) s pend R.
Proof.
  intros (p1 & H1 & HQ) Hk. unfold takes_steps, sbind.
  destruct (m s) as [[a|e] s1]; simpl in *; [|by exists p1].
  destruct (Hk a s1 p1 (HQ a eq_refl)) as (p2 & H2 & HR). exists p2. split; [by etrans|done].
Qed.

Lemma steps_mono {A} (m : sched A) s pend (Q R : A -> SchedState -> list ident -> Prop) :
  takes_steps m s pend Q -> (forall a s' p', Q a s' p' -> R a s' p') -> takes_steps m s pend R.
Proof. intros (p & H & HQ) HR. exists p. split; [done|]. intros a Ha. by apply HR, HQ. Qed.

Lemma steps_get_run s pend Q : Q (ss_run s) s pend -> takes_steps get_run s pend Q.
Proof. intros H. exists pend. split; [apply rtc_refl|]. by intros ? [= <-]. Qed.

(** Emitting changes the numbering only. *)
Lemma emit_tasks d s : tasks_of (emit_sequenced d s).2 = tasks_of s.
Proof. done. Qed.

Lemma steps_emit d i p1 p2 s (Q : unit -> SchedState -> list ident -> Prop) :
  event_ident d = Some i -> (forall s', tasks_of s' = tasks_of s -> Q tt s' (p1 ++ p2)) ->
  takes_steps (emit_sequenced d) s (p1 ++ i :: p2) Q.
Proof.
  intros Hi HQ. exists (p1 ++ p2). split; [by apply rtc_once, g_emit|]. intros [] _. by apply HQ.
Qed.

Lemma steps_note d s pend (Q : unit -> SchedState -> list ident -> Prop) :
  event_ident d = None -> (forall s', tasks_of s' = tasks_of s -> Q tt s' pend) ->
  takes_steps (emit_sequenced d) s pend Q.
Proof. intros Hi HQ. exists pend. split; [by apply rtc_once, g_note|]. intros [] _. by apply HQ. Qed.

(** ** Access to tasks *)

Lemma update_first_spec {A} t (f : TaskExecution -> A * TaskExecution) l :
  match update_first t f l with
  | None => t ∉ ex_task_id <$> l
  | Some (a, l') => exists l1 e l2, l = l1 ++ e :: l2 /\ ex_task_id e = t /\
      (t ∉ ex_task_id <$> l1) /\ a = (f e).1 /\ l' = l1 ++ (f e).2 :: l2
  end.
Proof.
  induction l as [|e l IH]; cbn [update_first]; [apply not_elem_of_nil|].
  rewrite fmap_cons. destruct (decide (ex_task_id e = t)) as [Ht|Ht].
  - destruct (f e) as [a e'] eqn:Hf. exists [], e, l. rewrite Hf. split_and!; try done. apply not_elem_of_nil.
  - destruct (update_first t f l) as [[a l']|]; [|set_solver].
    destruct IH as (l1 & e1 & l2 & -> & H1 & H2 & -> & ->). exists (e :: l1), e1, l2.
    split_and!; [done|done| |done|done]. rewrite fmap_cons. set_solver.
Qed.

Lemma get_task_split run t e :
  get_task run t = Some e <-> exists l1 l2, ru_task_executions run = l1 ++ e :: l2 /\
    ex_task_id e = t /\ t ∉ ex_task_id <$> l1.
Proof.
  unfold get_task. split.
  - destruct (list_find _ _) as [[i e']|] eqn:E; [|done]. intros [= ->].
    apply list_find_Some in E as (Hi & Ht & Hbefore).
    exists (take i (ru_task_executions run)), (drop (S i) (ru_task_executions run)).
    split_and!; [symmetry; by apply take_drop_middle|done|].
    intros (e1 & E1 & (j & Hj)%list_elem_of_lookup_1)%list_elem_of_fmap.
    apply lookup_take_Some in Hj as [Hj Hlt]. by apply (Hbefore j e1).
  - intros (l1 & l2 & -> & Ht & Hn).
    assert (list_find (fun e => ex_task_id e = t) (l1 ++ e :: l2) = Some (length l1, e)) as ->; [|done].
    apply list_find_Some. split_and!; [by apply list_lookup_middle|done|].
    intros j e1 Hj Hlt Hid. rewrite lookup_app_l in Hj by done. apply Hn. rewrite <-Hid.
    by eapply list_elem_of_fmap_2, list_elem_of_lookup_2.
Qed.

Lemma steps_with_task {A} t (f : (N -> DateTime) -> TaskExecution -> fresult A * TaskExecution) s pend Q :
  (forall now l1 e l2, tasks_of s = l1 ++ e :: l2 -> ex_task_id e = t -> (t ∉ ex_task_id <$> l1) ->
     exists ids, chain (deps_succeeded plan (tasks_of s) t) e (f now e).2 ids /\
       forall a, (f now e).1 = Ok a -> forall s', tasks_of s' = l1 ++ (f now e).2 :: l2 -> Q a s' (pend ++ ids)) ->
  takes_steps (with_task t f) s pend Q.
Proof.
  intros Hf. unfold takes_steps, with_task, update_task.
  set (now := fun k => clock (ss_reads s + k)).
  pose proof (update_first_spec t (f now) (tasks_of s)) as Hu.
  destruct (update_first t (f now) (tasks_of s)) as [[r l']|];
    [|exists pend; split; [apply rtc_refl|done]].
  destruct Hu as (l1 & e & l2 & Hl & Ht & Hn & -> & ->). cbn [fst snd].
  destruct (Hf now l1 e l2 Hl Ht Hn) as (ids & Hc & HQ). exists (pend ++ ids). split.
  - etrans; [apply (chain_gsteps s pend l1 e l2 (f now e).2 ids Hl); by rewrite Ht|].
    apply rtc_once, (g_reads (set_tasks s (l1 ++ (f now e).2 :: l2))).
  - intros a Ha. by apply HQ.
Qed.

Lemma steps_with_run target s pend (Q : unit -> SchedState -> list ident -> Prop) :
  (forall s', tasks_of s' = tasks_of s -> ru_state (ss_run s') = target ->
     Q tt s' (pend ++ run_entered target)) ->
  takes_steps (with_run (fun now => run_transition_to now target)) s pend Q.
Proof.
  intros HQ. unfold takes_steps, with_run, run_transition_to.
  destruct (run_can_transition_to (ru_state (ss_run s)) target) eqn:Ht; cbn [negb fst snd].
  - exists (pend ++ run_entered target). split; [|intros [] _; apply HQ; by destruct target].
    etrans; [|apply rtc_once, g_reads].
    match goal with |- gsteps _ (?s' <| ss_run := ?r |>, _) => set (run := r) end.
    apply rtc_once. refine (g_run s pend run Ht _ _ _); by destruct target.
  - exists pend. split; [|done]. destruct s as [run out n]. apply rtc_once, (g_reads (mkSchedState run out n)).
Qed.
End Machine.
