(* ===== verification/SchedulerSteps.v ===== *)
(** Every operation of the scheduler takes steps of the machine. *)

From S2P Require Import Prelude Storage Events Dag DagProps Canonical Plan Quota TaskExec Run TaskQueue Scheduler SchedulerMachine.
From stdpp Require Import relations options.

Section Steps.
Context `{HD : Display N} `{HH : Hashes} `{HS : Supply} (sd : Scheduler) (allow : TaskState -> Prop).
Abbreviation plan := (sd_plan sd).
Context (Hnd : NoDup (sp_task_id <$> pl_tasks plan)).
#[local] Set Default Proof Using "All".

Abbreviation tasks_of s := (ru_task_executions (ss_run s)).
Abbreviation takes m s pend Q := (takes_steps plan allow m s pend Q).

(** ** Readiness *)

Lemma plan_task_spec t spec :
  plan_task plan t = Some spec <-> spec ∈ pl_tasks plan /\ sp_task_id spec = t.
Proof.
  unfold plan_task. split.
  - destruct (list_find _ _) as [[i x]|] eqn:E; [|done]. intros [= ->].
    apply list_find_Some in E as (Hi & Ht & _). split; [by eapply list_elem_of_lookup_2|done].
  - intros [(i & Hi)%list_elem_of_lookup_1 Ht].
    destruct (list_find (fun x => sp_task_id x = t) (pl_tasks plan)) as [[j x]|] eqn:E.
    + apply list_find_Some in E as (Hj & Hx & _). cbn. f_equal.
      assert (i = j) as ->; [|congruence].
      eapply (NoDup_lookup _ _ _ _ Hnd); rewrite list_lookup_fmap; [by rewrite Hi|].
      by rewrite Hj; cbn; rewrite Hx, Ht.
    + apply list_find_None in E. rewrite Forall_forall in E. exfalso.
      by eapply E; [eapply list_elem_of_lookup_2|].
Qed.

Lemma dependencies_met_spec run spec :
  dependencies_met run spec = true <->
  forall dep, dep ∈ sp_upstream_task_ids spec -> exists d, get_task run dep = Some d /\ ex_state d = Succeeded.
Proof.
  unfold dependencies_met. rewrite forallb_forall. setoid_rewrite <-list_elem_of_In.
  apply forall_proper. intros dep. split; intros H Hdep; specialize (H Hdep).
  - destruct (get_task run dep) as [d|]; [|done]. bool_hyps. by exists d.
  - destruct H as (d & -> & Hd). by apply bool_decide_eq_true.
Qed.

Lemma get_task_elem run t e : get_task run t = Some e -> e ∈ ru_task_executions run /\ ex_task_id e = t.
Proof. intros (l1 & l2 & -> & Ht & _)%get_task_split. split; [set_solver|done]. Qed.

Lemma elem_of_ready_tasks run t :
  t ∈ ready_tasks plan run <->
  exists e spec, e ∈ ru_task_executions run /\ ex_task_id e = t /\ is_waiting (ex_state e) = true /\
    spec ∈ pl_tasks plan /\ sp_task_id spec = t /\ dependencies_met run spec = true.
Proof.
  unfold ready_tasks. rewrite list_elem_of_fmap. split.
  - intros (e & -> & He). rewrite list_elem_of_In, filter_In, <-list_elem_of_In in He.
    destruct He as [He Hb]. bool_hyps. destruct (plan_task plan (ex_task_id e)) as [spec|] eqn:Es; [|done].
    apply plan_task_spec in Es as [Hs Hid]. by exists e, spec.
  - intros (e & spec & He & Ht & Hw & Hs & Hid & Hd). exists e. split; [done|].
    rewrite list_elem_of_In, filter_In, <-list_elem_of_In. split; [done|]. rewrite Hw.
    assert (plan_task plan (ex_task_id e) = Some spec) as ->; [|done].
    apply plan_task_spec. by rewrite Ht.
Qed.

Lemma ready_tasks_deps run t :
  t ∈ ready_tasks plan run -> deps_succeeded plan (ru_task_executions run) t.
Proof.
  intros (e & spec & _ & _ & _ & Hs & Hid & Hd)%elem_of_ready_tasks spec' dep Hs' Hid' Hdep.
  assert (spec' = spec) as ->.
  { assert (plan_task plan t = Some spec') as E by by apply plan_task_spec.
    assert (plan_task plan t = Some spec) as E' by by apply plan_task_spec. congruence. }
  rewrite dependencies_met_spec in Hd. destruct (Hd dep Hdep) as (d & Hg & Hst).
  apply get_task_elem in Hg as [Hin Ht]. by exists d.
Qed.

(** ** One task *)

Lemma queue_task_steps t s :
  allow Ready -> allow Queued -> takes (queue_task sd t) s [] (fun _ _ p => p = []).
Proof.
  intros HaR HaQ.
  unfold queue_task. eapply steps_bind; [by apply (steps_get_run _ _ _ _ (fun r s' p => r = ss_run s /\ s' = s /\ p = []))|].
  intros run s1 p (-> & -> & ->).
  eapply steps_bind; [apply (steps_with_task _ _ _ _ _ _ (fun a _ p => p = [IQueued t a]))|].
  - intros now l1 e l2 Hl Ht Hn.
    destruct (bool_decide_reflect (t ∈ ready_tasks plan (ss_run s))) as [Hready|Hready].
    + cbn [negb]. rewrite andb_false_r.
      pose proof (ready_tasks_deps _ _ Hready) as Hdeps.
      destruct (bool_decide_reflect (ex_state e = Pending)) as [Hp|Hp].
      * pose proof (transition_to_spec (now 0%N) Ready e) as H1.
        destruct (transition_to (now 0%N) Ready e) as [[[]|err] e1]; cbn [fst snd];
          [|destruct H1 as [_ H1]; by rewrite Hp in H1].
        destruct H1 as [Hst1 Hm1]. specialize (Hm1 ltac:(done)).
        pose proof (transition_to_spec (now 1%N) Queued e1) as H2.
        destruct (transition_to (now 1%N) Queued e1) as [[[]|err] e2]; cbn [fst snd];
          [|destruct H2 as [_ H2]; by rewrite Hst1 in H2].
        destruct H2 as [Hst2 Hm2]. specialize (Hm2 ltac:(done)).
        exists (entered e e1 ++ (entered e1 e2 ++ [])). split.
        { eapply chain_move; [done|by rewrite Hst1|by intros|].
          eapply chain_move; [done|by rewrite Hst2|by rewrite Hst1|constructor]. }
        intros a [= <-] s' _. unfold entered. rewrite Hst1, Hst2, decide_False by (by rewrite Hp).
        by rewrite (mv_id _ _ Hm1), Ht.
      * pose proof (transition_to_spec (now 1%N) Queued e) as H2.
        destruct (transition_to (now 1%N) Queued e) as [[[]|err] e2]; cbn [fst snd].
        -- destruct H2 as [Hst2 Hm2]. exists (entered e e2). split.
           { apply chain_one_move; [by apply Hm2|by rewrite Hst2..]. }
           intros a [= <-] s' _. unfold entered. by rewrite Hst2, Ht.
        -- destruct H2 as [-> _]. exists []. split; [constructor|done].
    + destruct (is_waiting (ex_state e)) eqn:Hw; cbn [andb negb].
      { exists []. split; [constructor|done]. }
      destruct (bool_decide_reflect (ex_state e = Pending)) as [Hp|Hp]; [by rewrite Hp in Hw|].
      pose proof (transition_to_spec (now 1%N) Queued e) as H2.
      destruct (transition_to (now 1%N) Queued e) as [[[]|err] e2]; cbn [fst snd].
      * exfalso. destruct H2 as [Hst2 Hm2]. pose proof (mv_table _ _ (Hm2 ltac:(done))) as Htab.
        rewrite Hst2 in Htab. by destruct (ex_state e).
      * destruct H2 as [-> _]. exists []. split; [constructor|done].
  - intros a s2 p ->. by apply (steps_emit _ _ _ (IQueued t a) [] []).
Qed.

(** An operation that is one transition of a task, with other changes before and after. *)
Lemma steps_one {A} t target (pre post : TaskExecution -> TaskExecution)
    (res : TaskExecution -> TaskExecution -> A) (k : N) s (Q : A -> SchedState -> list ident -> Prop) :
  allow target -> target <> RetryWait ->
  (target = Ready -> forall e, get_task (ss_run s) t = Some e -> ex_state e <> Pending) ->
  (forall e, stays e (pre e)) -> (forall e, stays e (post e)) ->
  (forall e e' s', get_task (ss_run s) t = Some e -> get_task (ss_run s') t = Some (post e') ->
     ex_task_id e = t -> moves (pre e) e' -> ex_state e' = target ->
     Q (res e e') s' (entered (pre e) e')) ->
  takes (with_task t (fun now e =>
    match transition_to (now k) target (pre e) with
    | (Err err, x) => (Err err, x)
    | (Ok _, x) => (Ok (res e x), post x)
    end)) s [] Q.
Proof.
  intros Hal Hw Hr Hpre Hpost HQ. apply steps_with_task. intros now l1 e l2 Hl Ht Hn.
  pose proof (transition_to_spec (now k) target (pre e)) as H1.
  destruct (transition_to (now k) target (pre e)) as [[u|err] e']; cbn [fst snd].
  - destruct H1 as [Hst Hm]. specialize (Hm ltac:(done)). exists (entered (pre e) e'). split.
    + eapply chain_stay; [apply Hpre|]. rewrite <-(app_nil_r (entered _ _)).
      eapply chain_move; [done|by rewrite Hst| |by apply chain_one_stay].
      rewrite (sy_state _ _ (Hpre e)), Hst. intros Hp HR. exfalso. apply (Hr HR e); [|done].
      apply get_task_split. eauto.
    + intros a [= <-] s' Hl'. apply HQ; [apply get_task_split; by eauto| |done..].
      apply get_task_split. exists l1, l2. split_and!; [done| |done].
      by rewrite (sy_id _ _ (Hpost e')), (mv_id _ _ Hm), (sy_id _ _ (Hpre e)).
  - destruct H1 as [-> _]. exists []. split; [by apply chain_one_stay|done].
Qed.

Lemma stays_refl e : stays e e.
Proof. done. Qed.

(** The same function through the same task is the same operation. *)
Lemma with_task_ext {A} t (f g : (N -> DateTime) -> TaskExecution -> fresult A * TaskExecution) s pend Q :
  (forall now e, f now e = g now e) -> takes (with_task t g) s pend Q -> takes (with_task t f) s pend Q.
Proof.
  intros Hfg. unfold takes_steps. assert (with_task t f s = with_task t g s) as ->; [|done].
  unfold with_task, update_task. set (now := fun k => clock (ss_reads s + k)).
  assert (update_first t (f now) (tasks_of s) = update_first t (g now) (tasks_of s)) as ->; [|done].
  induction (tasks_of s) as [|e l IH]; [done|]. cbn. by rewrite IH, Hfg.
Qed.

Lemma get_task_same run run' t :
  ru_task_executions run' = ru_task_executions run -> get_task run' t = get_task run t.
Proof. unfold get_task. by intros ->. Qed.

(** A completion is announced. *)
Lemma steps_completed t st a p1 p2 s (Q : unit -> SchedState -> list ident -> Prop) :
  (forall s', tasks_of s' = tasks_of s -> Q tt s' (p1 ++ p2)) ->
  takes (emit_task_completed t st a) s (p1 ++ ICompleted t a st :: p2) Q.
Proof.
  intros HQ. unfold emit_task_completed.
  eapply steps_bind; [by apply (steps_get_run _ _ _ _ (fun _ s' p => s' = s /\ p = p1 ++ ICompleted t a st :: p2))|].
  intros run s' p [-> ->]. by apply (steps_emit _ _ _ (ICompleted t a st)).
Qed.

Lemma start_task_steps t w s :
  allow Dispatched -> allow Running -> takes (start_task t w) s [] (fun _ _ p => p = []).
Proof.
  intros HaD HaR.
  unfold start_task.
  eapply steps_bind; [apply (steps_one t Dispatched (fun e => e) (fun x => x <| ex_worker_id := Some w |>)
    (fun _ x => ex_attempt x) 0%N s (fun a s' p => p = [IDispatched t a] /\
       exists e, get_task (ss_run s') t = Some e /\ ex_attempt e = a)); try done|].
  { intros e e' s' _ Hg <- Hm Hst. split; [unfold entered; by rewrite Hst|by eexists]. }
  intros a s1 p [-> (e & Hg & Ha)].
  eapply steps_bind; [by apply (steps_get_run _ _ _ _ (fun _ s' p => s' = s1 /\ p = [IDispatched t a]))|].
  intros run s2 p [-> ->].
  eapply steps_bind; [apply (steps_emit _ _ _ (IDispatched t a) [] [] _
    (fun _ s' p => get_task (ss_run s') t = Some e /\ p = [])); [done|]|].
  { intros s' Ht. by rewrite (get_task_same _ _ _ Ht). }
  intros [] s3 p [Hg3 ->].
  eapply steps_bind; [eapply with_task_ext; [|apply (steps_one t Running (fun e => e) (fun x => x)
    (fun _ _ => tt) 0%N s3 (fun _ _ p => p = [IStarted t a])); try done]|].
  - intros now x. cbv beta. destruct (transition_to (now 0%N) Running x) as [[[]|] ?]; done.
  - intros e1 e' s' Hg1 _ Hid Hm Hst. rewrite Hg3 in Hg1. injection Hg1 as <-.
    unfold entered. rewrite Hst, (mv_attempt _ _ Hm), Hst, Ha, Hid. by destruct (ex_state e).
  - intros [] s4 p ->. by apply (steps_emit _ _ _ (IStarted t a) [] []).
Qed.

Lemma record_task_success_steps t out s :
  allow Succeeded -> takes (record_task_success t out) s [] (fun _ _ p => p = []).
Proof.
  intros HaS.
  unfold record_task_success, succeed.
  eapply steps_bind; [apply (steps_one t Succeeded (fun e => e <| ex_error := None |> <| ex_output := Some out |>)
    (fun x => x) (fun e _ => ex_attempt e) 0%N s (fun a _ p => p = [ICompleted t a Succeeded])); try done|].
  { intros e e' s' _ _ Hid Hm Hst. unfold entered. rewrite Hst, (mv_attempt _ _ Hm), Hst. cbn. rewrite Hid.
    by destruct (ex_state e). }
  intros a s1 p ->. eapply steps_bind; [by apply (steps_get_run _ _ _ _ (fun _ _ p => p = [ICompleted t a Succeeded]))|].
  intros run s2 p ->. eapply steps_bind; [by apply (steps_note _ _ _ _ _ (fun _ _ p => p = [ICompleted t a Succeeded]))|].
  intros [] s3 p ->. by apply (steps_completed t Succeeded a [] []).
Qed.

Lemma record_task_cancelled_steps t s :
  allow Cancelled -> takes (record_task_cancelled t) s [] (fun _ _ p => p = []).
Proof.
  intros HaC.
  unfold record_task_cancelled, TaskExec.cancel.
  eapply steps_bind; [apply (steps_one t Cancelled (fun e => e) (fun x => x) (fun e _ => ex_attempt e) 0%N s
    (fun a _ p => p = [ICompleted t a Cancelled])); try done|].
  { intros e e' s' _ _ Hid Hm Hst. unfold entered. rewrite Hst, (mv_attempt _ _ Hm), Hst, Hid.
    by destruct (ex_state e). }
  intros a s1 p ->. by apply (steps_completed t Cancelled a [] []).
Qed.

Lemma record_task_failure_steps t err s :
  allow Failed -> allow RetryWait -> takes (record_task_failure sd t err) s [] (fun _ _ p => p = []).
Proof.
  intros HaF HaW.
  unfold record_task_failure, fail.
  eapply steps_bind; [by apply (steps_get_run _ _ _ _ (fun _ s' p => s' = s /\ p = []))|]. intros run s0 p [-> ->].
  eapply steps_bind; [apply (steps_with_task _ _ _ _ _ _ (fun (o : N * option (Z * N)) _ p =>
    p = IFailed t o.1 :: ICompleted t o.1 Failed :: (if o.2 is Some _ then [IRetryScheduled t o.1] else [])))|].
  - intros now l1 e l2 Hl Ht Hn. set (e0 := e <| ex_error := Some err |> <| ex_output := None |>).
    assert (stays e e0) as Hs0 by done.
    pose proof (transition_to_spec (now 0%N) Failed e0) as H1.
    destruct (transition_to (now 0%N) Failed e0) as [[[]|er] e1]; cbn [fst snd];
      [|destruct H1 as [-> _]; exists []; split; [by apply chain_one_stay|done]].
    destruct H1 as [Hst Hm]. specialize (Hm ltac:(done)).
    assert (ex_attempt e1 = ex_attempt e) as Ha.
    { rewrite (mv_attempt _ _ Hm), Hst. by destruct (ex_state e0). }
    assert (entered e0 e1 = [IFailed t (ex_attempt e); ICompleted t (ex_attempt e) Failed]) as Hent.
    { unfold entered. by rewrite Hst, Ha, (sy_id _ _ Hs0), Ht. }
    destruct (rp_enabled (cf_retry_policy (sd_config sd)) && er_retryable err && can_retry e1) eqn:Hretry.
    + pose proof (transition_to_spec (now 2%N) RetryWait e1) as H2.
      destruct (transition_to (now 2%N) RetryWait e1) as [[[]|er] e2]; cbn [fst snd];
        [|destruct H2 as [_ H2]; by rewrite Hst in H2].
      destruct H2 as [Hst2 Hm2].
      assert (moves e1 e2) as Hm2'.
      { apply Hm2. intros _. bool_hyps. unfold can_retry in *. bool_hyps. by apply N.ltb_lt. }
      exists (entered e0 e1 ++ (entered e1 e2 ++ [])). split.
      { eapply chain_stay; [done|]. eapply chain_move; [done|by rewrite Hst..|].
        eapply chain_move; [done|by rewrite Hst2|by rewrite Hst|]. by apply chain_one_stay. }
      intros o [= <-] s' _. rewrite Hent. cbn. unfold entered. rewrite Hst2. cbn.
      by rewrite (mv_attempt _ _ Hm2'), (mv_id _ _ Hm), (sy_id _ _ Hs0), Hst, Ha, Ht.
    + exists (entered e0 e1). split.
      { eapply chain_stay; [done|]. apply chain_one_move; [done|by rewrite Hst..]. }
      intros o [= <-] s' _. by rewrite Hent.
  - intros [a retry] s1 p ->. cbn [fst snd].
    eapply steps_bind; [apply (steps_emit _ _ _ (IFailed t a) [] _ _ (fun _ _ p => p = ICompleted t a Failed :: (if retry is Some _ then [IRetryScheduled t a] else []))); done|].
    intros [] s2 p ->.
    eapply steps_bind; [by apply (steps_completed t Failed a [] _ _ (fun _ _ p => p = if retry is Some _ then [IRetryScheduled t a] else []))|].
    intros [] s3 p ->. destruct retry as [[retry_at backoff]|]; [|by apply steps_ret].
    by apply (steps_emit _ _ _ (IRetryScheduled t a) [] []).
Qed.

(** ** Loops *)

Lemma collect_tasks_steps f l s :
  (forall t s, takes (f t) s [] (fun _ _ p => p = [])) -> takes (collect_tasks f l) s [] (fun _ _ p => p = []).
Proof.
  intros Hf. revert s. induction l as [|spec l IH]; intros s; [by apply steps_ret|]. cbn [collect_tasks].
  eapply steps_bind; [apply Hf|]. intros b s1 p ->. eapply steps_bind; [apply IH|]. intros rest s2 p ->.
  by apply steps_ret.
Qed.

Lemma process_retry_steps now t s :
  allow Ready -> takes (process_retry now t) s [] (fun _ _ p => p = []).
Proof.
  intros HaR. unfold process_retry.
  eapply steps_bind; [by apply (steps_get_run _ _ _ _ (fun r s' p => r = ss_run s /\ s' = s /\ p = []))|].
  intros run s0 p (-> & -> & ->).
  destruct (get_task (ss_run s) t) as [exec|] eqn:Hg; [|by apply steps_ret].
  destruct (is_retry_due_at now exec) eqn:Hdue; cbn [negb]; [|by apply steps_ret].
  assert (ex_state exec = RetryWait) as Hst.
  { unfold is_retry_due_at in Hdue. destruct (bool_decide_reflect (ex_state exec = RetryWait)); done. }
  eapply steps_bind; [apply (steps_one t Ready (fun e => e) (fun x => x) (fun e x => (ex_attempt e, ex_attempt x))
    0%N s (fun o _ p => p = [IRetried t o.1 o.2])); try done|].
  - intros _ e He. rewrite Hg in He. injection He as <-. by rewrite Hst.
  - intros e e' s' He _ Hid Hm Hst'. rewrite Hg in He. injection He as <-. unfold entered.
    by rewrite Hst', decide_True, Hid by done.
  - intros [a a'] s1 p ->. eapply steps_bind; [by apply (steps_emit _ _ _ (IRetried t a a') [] [] _ (fun _ _ p => p = []))|].
    intros [] s2 p ->. by apply steps_ret.
Qed.

Lemma process_retries_steps now s :
  allow Ready -> takes (process_retries_at sd now) s [] (fun _ _ p => p = []).
Proof. intros HaR. apply collect_tasks_steps. intros. by apply process_retry_steps. Qed.

Lemma record_heartbeat_steps t now s : takes (record_task_heartbeat_at t now) s [] (fun _ _ p => p = []).
Proof.
  unfold record_task_heartbeat_at.
  eapply steps_bind; [by apply (steps_get_run _ _ _ _ (fun _ s' p => s' = s /\ p = []))|]. intros run s0 p [-> ->].
  eapply steps_bind; [apply (steps_with_task _ _ _ _ _ _ (fun _ _ p => p = []))|].
  - intros clk l1 e l2 Hl Ht Hn. exists []. split; [|done].
    destruct (ex_state e) eqn:Hst; try apply chain_nil; by apply chain_one_stay.
  - intros [a|] s1 p ->; [|by apply steps_ret]. by apply (steps_note _ _ _ _ []).
Qed.

Lemma for_each_steps {A} (f : A -> sched unit) (g : A -> ident) l s :
  (forall x p s, takes (f x) s (g x :: p) (fun _ s' p' => tasks_of s' = tasks_of s /\ p' = p)) ->
  takes (for_each f l) s (g <$> l) (fun _ s' p => tasks_of s' = tasks_of s /\ p = []).
Proof.
  intros Hf. revert s. induction l as [|x l IH]; intros s; [by apply steps_ret|]. cbn [for_each fmap list_fmap].
  eapply steps_bind; [apply Hf|]. intros [] s1 p [Hs1 ->]. eapply steps_mono; [apply IH|].
  intros [] s2 p [Hs2 ->]. split; [by rewrite Hs2|done].
Qed.

(** ** The run *)

Lemma run_completed_steps s (Q : unit -> SchedState -> list ident -> Prop) :
  (forall s', tasks_of s' = tasks_of s -> Q tt s' []) -> takes emit_run_completed s [IRunCompleted] Q.
Proof.
  intros HQ. unfold emit_run_completed.
  eapply steps_bind; [by apply (steps_get_run _ _ _ _ (fun _ s' p => s' = s /\ p = [IRunCompleted]))|].
  intros run s0 p [-> ->]. by apply (steps_emit _ _ _ IRunCompleted [] []).
Qed.

Lemma start_run_steps s : takes start_run s [] (fun _ _ p => p = []).
Proof.
  unfold start_run. eapply steps_bind; [by apply (steps_with_run _ _ _ _ _ (fun _ _ p => p = [IRunStarted]))|].
  intros [] s1 p ->. eapply steps_bind; [by apply (steps_get_run _ _ _ _ (fun _ _ p => p = [IRunStarted]))|].
  intros run s2 p ->. by apply (steps_emit _ _ _ IRunStarted [] []).
Qed.

(** To a terminal state; elsewhere the event has nothing to announce. *)
Lemma complete_run_steps st s :
  run_state_is_terminal st = true -> takes (complete_run st) s [] (fun _ _ p => p = []).
Proof.
  intros Hst. unfold complete_run.
  eapply steps_bind; [apply (steps_with_run _ _ _ _ _ (fun _ _ p => p = [IRunCompleted])); by destruct st|].
  intros [] s1 p ->. by apply run_completed_steps.
Qed.

Lemma final_state_terminal run st : check_run_completion run = Some st -> run_state_is_terminal st = true.
Proof.
  unfold check_run_completion, compute_final_state. destruct (all_tasks_terminal run); [|done]. cbn.
  intros [= <-]. by repeat case_match.
Qed.

Lemma maybe_complete_run_steps s : takes maybe_complete_run s [] (fun _ _ p => p = []).
Proof.
  unfold maybe_complete_run.
  eapply steps_bind; [by apply (steps_get_run _ _ _ _ (fun r s' p => s' = s /\ p = []))|]. intros run s0 p [-> ->].
  destruct (check_run_completion run) as [st|] eqn:Hc; [|by apply steps_ret].
  eapply steps_bind; [by apply complete_run_steps, (final_state_terminal run)|].
  intros [] s1 p ->. by apply steps_ret.
Qed.

(** The waiting tasks are cancelled. *)
Lemma cancel_waiting_steps l l1 s reads :
  allow Cancelled -> tasks_of s = l1 ++ l ->
  let '(cancelled, l', _) := cancel_waiting reads l in
  forall pend, gsteps plan allow (s, pend)
    (set_tasks s (l1 ++ l'), pend ++ ((fun c => ICompleted c.1 c.2 Cancelled) <$> cancelled)).
Proof.
  intros HaC. revert l1 s reads. induction l as [|e l IH]; intros l1 s reads Hl; cbn [cancel_waiting].
  { intros pend. rewrite <-Hl. cbn. rewrite app_nil_r.
    assert (set_tasks s (tasks_of s) = s) as ->; [by destruct s as [[]]|apply rtc_refl]. }
  assert (forall reads e', (let '(cancelled, l', _) := cancel_waiting reads l in
    forall pend, gsteps plan allow (set_tasks s (l1 ++ e' :: l), pend)
      (set_tasks s (l1 ++ e' :: l'), pend ++ ((fun c => ICompleted c.1 c.2 Cancelled) <$> cancelled)))) as IH'.
  { intros reads' e'. specialize (IH (l1 ++ [e']) (set_tasks s (l1 ++ e' :: l)) reads').
    rewrite <-!app_assoc in IH. specialize (IH eq_refl).
    destruct (cancel_waiting reads' l) as [[cancelled l'] n]. intros pend. specialize (IH pend).
    rewrite <-app_assoc in IH. exact IH. }
  assert (set_tasks s (l1 ++ e :: l) = s) as Hid by (rewrite <-Hl; by destruct s as [[]]).
  destruct (is_waiting (ex_state e) || bool_decide (ex_state e = Queued)) eqn:Hw.
  - assert (can_transition_to (ex_state e) Cancelled = true) as Htab by (by destruct (ex_state e)).
    pose proof (transition_to_spec (clock reads) Cancelled e) as Ht.
    destruct (transition_to (clock reads) Cancelled e) as [[u|err] e'] eqn:Hcan;
      [|destruct Ht as [_ Ht]; congruence].
    destruct Ht as [Hst Hm]. specialize (Hm ltac:(done)).
    assert (entered e e' = [ICompleted (ex_task_id e) (ex_attempt e) Cancelled]) as Hent.
    { unfold entered. rewrite Hst, (mv_attempt _ _ Hm), Hst. by destruct (ex_state e). }
    specialize (IH' (reads + 1)%N e'). destruct (cancel_waiting (reads + 1) l) as [[cancelled l'] n].
    assert (forall pend, gsteps plan allow (s, pend) (set_tasks s (l1 ++ e' :: l'),
      pend ++ ((fun c => ICompleted c.1 c.2 Cancelled) <$> (ex_task_id e, ex_attempt e) :: cancelled))) as Hgo.
    { intros pend. etrans; [apply (chain_gsteps plan allow s pend l1 e l e' (entered e e') Hl), chain_one_move; [done|by rewrite Hst|congruence]|].
      rewrite Hent. etrans; [apply IH'|]. by rewrite <-app_assoc. }
    unfold TaskExec.cancel. rewrite Hcan. by destruct (ex_state e).
  - specialize (IH' reads e). destruct (cancel_waiting reads l) as [[cancelled l'] n].
    rewrite Hid in IH'. by destruct (ex_state e).
Qed.

Lemma cancel_tasks_steps s :
  allow Cancelled -> takes cancel_tasks s [] (fun c _ p => p = (fun x => ICompleted x.1 x.2 Cancelled) <$> c).
Proof.
  intros HaC. unfold takes_steps, cancel_tasks.
  pose proof (cancel_waiting_steps (tasks_of s) [] s (ss_reads s) HaC eq_refl) as Hc.
  destruct (cancel_waiting _ _) as [[cancelled l'] n]. cbn [fst snd]. eexists. split; [|by intros ? [= <-]].
  etrans; [apply (Hc [])|]. apply rtc_once, (g_reads plan allow (set_tasks s l')).
Qed.

Lemma cancel_run_steps s : allow Cancelled -> takes cancel_run s [] (fun _ _ p => p = []).
Proof.
  intros HaC. unfold cancel_run.
  eapply steps_bind; [by apply (steps_get_run _ _ _ _ (fun r s' p => s' = s /\ p = []))|]. intros run s0 p [-> ->].
  eapply (steps_bind _ _ _ _ _ _ (fun _ _ p => p = [])).
  { case_match; [by apply steps_ret|]. by apply steps_with_run. }
  intros [] s1 p ->. eapply steps_bind; [by apply cancel_tasks_steps|]. intros cancelled s2 p ->.
  eapply steps_bind; [apply (for_each_steps _ (fun x => ICompleted x.1 x.2 Cancelled))|].
  { intros x p s'. by apply (steps_completed x.1 Cancelled x.2 []). }
  intros [] s3 p [_ ->]. eapply steps_bind; [by apply (steps_get_run _ _ _ _ (fun _ _ p => p = []))|].
  intros run' s4 p ->. case_match; [|by apply steps_ret].
  eapply steps_bind; [by apply (steps_with_run _ _ _ _ _ (fun _ _ p => p = [IRunCompleted]))|].
  intros [] s5 p ->. by apply run_completed_steps.
Qed.

(** ** Downstream *)

(** Ids and attempts. *)
Definition attempts (l : list TaskExecution) : list (TaskId * u32) :=
  (fun e => (ex_task_id e, ex_attempt e)) <$> l.

Lemma attempt_of_same run run' t :
  attempts (ru_task_executions run') = attempts (ru_task_executions run) -> attempt_of run' t = attempt_of run t.
Proof.
  intros E. unfold attempt_of, get_task. revert E.
  generalize (ru_task_executions run'), (ru_task_executions run). clear run run'.
  intros l'. induction l' as [|e' l' IH]; intros [|e l] E; [done..|].
  injection E as E1 E2 E3. cbn. rewrite <-E1. destruct (decide (ex_task_id e' = t)); [done|].
  specialize (IH l E3). destruct (list_find _ l'), (list_find _ l); done.
Qed.

Lemma skip_pending_steps t s :
  allow Skipped -> exists ids, gsteps plan allow (s, []) ((skip_pending t s).2, ids) /\
    (forall pend, gsteps plan allow (s, pend) ((skip_pending t s).2, pend ++ ids)) /\
    attempts (tasks_of (skip_pending t s).2) = attempts (tasks_of s) /\
    ids = if (skip_pending t s).1 then [ICompleted t (attempt_of (ss_run s) t) Skipped] else [].
Proof.
  intros HaS. unfold skip_pending, update_task.
  match goal with |- context [update_first t ?g _] => set (f := g) end.
  pose proof (update_first_spec t f (tasks_of s)) as Hu.
  destruct (update_first t f (tasks_of s)) as [[b l']|]; cbn [fst snd].
  - destruct Hu as (l1 & e & l2 & Hl & Ht & Hn & -> & ->).
    assert (exists ids, chain allow False e (f e).2 ids /\ ex_task_id (f e).2 = ex_task_id e /\
      ex_attempt (f e).2 = ex_attempt e /\
      ids = if (f e).1 then [ICompleted t (ex_attempt e) Skipped] else []) as (ids & Hc & Hid & Ha & Hids).
    { unfold f. destruct (bool_decide_reflect (ex_state e = Pending)) as [Hp|Hp]; cbn [fst snd];
        [|exists []; by split; [constructor|]].
      pose proof (transition_to_spec (clock (ss_reads s)) Skipped e) as Htr. unfold skip.
      destruct (transition_to _ Skipped e) as [[u|err] e']; cbn [snd];
        [|destruct Htr as [_ Htr]; by rewrite Hp in Htr].
      destruct Htr as [Hst Hm]. specialize (Hm ltac:(done)). exists (entered e e').
      assert (ex_attempt e' = ex_attempt e) as Ha by (by rewrite (mv_attempt _ _ Hm), Hp).
      split_and!; [apply chain_one_move; [done|by rewrite Hst..]|apply Hm|done|].
      unfold entered. by rewrite Hst, Ha, Ht. }
    assert (forall pend, gsteps plan allow (s, pend) ((set_tasks s (l1 ++ (f e).2 :: l2)) <| ss_reads := (ss_reads s + 1)%N |>, pend ++ ids)) as Hg.
    { intros pend. etrans; [|apply rtc_once, g_reads]. apply (chain_gsteps plan allow s pend l1 e l2 (f e).2 ids Hl).
      revert Hc. by apply chain_mono. }
    exists ids. split_and!; [apply (Hg [])|exact Hg| |].
    + unfold attempts. cbn. by rewrite Hl, !fmap_app, !fmap_cons, Hid, Ha.
    + rewrite Hids. assert (get_task (ss_run s) t = Some e) as Hgt by (apply get_task_split; eauto).
      unfold attempt_of. by rewrite Hgt.
  - exists []. split_and!; [apply rtc_refl|intros pend; rewrite app_nil_r; apply rtc_refl|done|done].
Qed.

(** What a traversal has done since [s0]. *)
Record skipping (s0 : SchedState) (k : SkipState) : Prop := {
  sp_steps : gsteps plan allow (s0, []) (sk_state k,
    (fun t => ICompleted t (attempt_of (ss_run s0) t) Skipped) <$> sk_skipped k);
  sp_attempts : attempts (tasks_of (sk_state k)) = attempts (tasks_of s0)
}.

Lemma visit_task_skipping s0 cur k task : allow Skipped -> skipping s0 k -> skipping s0 (visit_task cur k task).
Proof.
  intros HaS [Hs Ha]. unfold visit_task. case_match; [done|]. case_match; [done|].
  destruct (skip_pending_steps (sp_task_id task) (sk_state k) HaS) as (ids & _ & Hg & Ha' & Hids).
  destruct (skip_pending (sp_task_id task) (sk_state k)) as [b s']. cbn [fst snd] in *.
  split; cbn [sk_state sk_skipped]; [|by rewrite Ha'].
  etrans; [exact Hs|]. rewrite (attempt_of_same _ _ _ Ha) in Hids.
  specialize (Hg ((fun t => ICompleted t (attempt_of (ss_run s0) t) Skipped) <$> sk_skipped k)).
  rewrite Hids in Hg. destruct b; [by rewrite fmap_app|by rewrite app_nil_r in Hg].
Qed.

Lemma visit_tasks_skipping s0 cur l k :
  allow Skipped -> skipping s0 k -> skipping s0 (fold_left (visit_task cur) l k).
Proof. intros HaS. revert k. induction l as [|task l IH]; intros k Hk; [done|]. by apply IH, visit_task_skipping. Qed.

Lemma skip_loop_skipping fuel s0 k k' :
  allow Skipped -> skip_loop fuel (pl_tasks plan) k = Some k' -> skipping s0 k -> skipping s0 k'.
Proof.
  intros HaS. revert k. induction fuel as [|fuel IH]; intros k; [done|]. cbn [skip_loop].
  destruct (sk_frontier k) as [|cur rest]; [by intros [= <-]|]. intros Hk Hs. apply (IH _ Hk).
  assert (skipping s0 (mkSkipState (sk_state k) (sk_visited k) rest (sk_skipped k))) as Hs'
    by by destruct Hs.
  by apply visit_tasks_skipping.
Qed.

Lemma skip_downstream_steps t s :
  allow Skipped -> takes (skip_downstream_tasks sd t) s []
    (fun skipped s' p => attempts (tasks_of s') = attempts (tasks_of s) /\
       p = (fun t => ICompleted t (attempt_of (ss_run s) t) Skipped) <$> skipped).
Proof.
  intros HaS. unfold takes_steps, skip_downstream_tasks.
  destruct (skip_loop _ _ _) as [k|] eqn:Hk; cbn [fst snd]; [|exists []; split; [apply rtc_refl|done]].
  assert (skipping s k) as [Hs Ha].
  { apply (skip_loop_skipping _ _ _ _ HaS Hk). split; [apply rtc_refl|done]. }
  eexists. split; [exact Hs|]. by intros a [= <-].
Qed.

Lemma process_task_completion_steps t s :
  allow Skipped -> takes (process_task_completion sd t) s [] (fun _ _ p => p = []).
Proof.
  intros HaS. unfold process_task_completion.
  eapply steps_bind; [by apply (steps_get_run _ _ _ _ (fun r s' p => s' = s /\ p = []))|]. intros run s0 p [-> ->].
  destruct (get_task run t) as [e|]; [|apply steps_fail]. case_match; [|by apply steps_ret].
  eapply steps_bind; [by apply skip_downstream_steps|]. intros skipped s1 p [Ha ->].
  assert (forall l s2, attempts (tasks_of s2) = attempts (tasks_of s) ->
    takes (for_each (fun skipped_task_id => let^ run := get_run in
      emit_task_completed skipped_task_id Skipped (attempt_of run skipped_task_id)) l) s2
      ((fun t => ICompleted t (attempt_of (ss_run s) t) Skipped) <$> l) (fun _ _ p => p = [])) as Hl; [|by apply Hl].
  intros l. clear Ha. induction l as [|x l IH]; intros s2 Ha; [by apply steps_ret|]. cbn [for_each fmap list_fmap].
  eapply (steps_bind _ _ _ _ _ _ (fun _ s' p => attempts (tasks_of s') = attempts (tasks_of s) /\
    p = (fun t => ICompleted t (attempt_of (ss_run s) t) Skipped) <$> l)).
  - eapply steps_bind; [by apply (steps_get_run _ _ _ _ (fun r s' p => r = ss_run s2 /\ s' = s2 /\
      p = (fun t => ICompleted t (attempt_of (ss_run s) t) Skipped) <$> x :: l))|].
    intros run' s3 p (-> & -> & ->). rewrite (attempt_of_same _ _ _ Ha).
    apply (steps_completed x Skipped _ []). intros s' ->. done.
  - intros [] s3 p [Ha3 ->]. by apply IH.
Qed.

Lemma record_task_result_steps t r s :
  (forall st, allow st) -> takes (record_task_result sd t r) s [] (fun _ _ p => p = []).
Proof.
  intros Hal. unfold record_task_result. eapply (steps_bind _ _ _ _ _ _ (fun _ _ p => p = [])).
  - destruct r; [by apply record_task_success_steps|by apply record_task_failure_steps|by apply record_task_cancelled_steps].
  - intros [] s1 p ->. by apply process_task_completion_steps.
Qed.

Lemma process_stale_steps now s :
  (forall st, allow st) -> takes (process_stale_heartbeats_at sd now) s [] (fun _ _ p => p = []).
Proof.
  intros Hal. apply collect_tasks_steps. clear s. intros t s. unfold process_stale_heartbeat.
  eapply steps_bind; [by apply (steps_get_run _ _ _ _ (fun r s' p => s' = s /\ p = []))|]. intros run s0 p [-> ->].
  case_match; [by apply steps_ret|].
  eapply steps_bind; [by apply record_task_failure_steps|]. intros [] s1 p ->.
  eapply steps_bind; [by apply process_task_completion_steps|]. intros [] s2 p ->. by apply steps_ret.
Qed.

(** ** Dispatch *)

Section Dispatch.
Context `{HQ : TaskQueue Q} `{HM : QuotaManager M} (HaR : allow Ready) (HaQ : allow Queued).
Implicit Types d : @DispatchState Q M.

(** The run after [d'] is reached from the one after [d]. *)
Definition dispatched d d' : Prop := forall pend, exists pend', gsteps plan allow (ds_sched d, pend) (ds_sched d', pend').

Lemma dispatched_same d d' : ds_sched d' = ds_sched d -> dispatched d d'.
Proof. intros E pend. exists pend. rewrite E. apply rtc_refl. Qed.

Lemma dispatched_trans d d' d'' : dispatched d d' -> dispatched d' d'' -> dispatched d d''.
Proof.
  intros H1 H2 pend. destruct (H1 pend) as [p1 G1]. destruct (H2 p1) as [p2 G2].
  exists p2. by etrans.
Qed.

Lemma settle_dispatched t d : dispatched d (settle sd t d).2.
Proof.
  assert (forall d1 d2 : @DispatchState Q M, ds_sched d2 = (queue_task sd t (ds_sched d1)).2 -> dispatched d1 d2) as Hq.
  { intros d1 d2 E pend. destruct (queue_task_steps t (ds_sched d1) HaR HaQ) as (p & Hp & _). exists p. rewrite E.
    eapply rtc_l; [apply g_drop|]. exact Hp. }
  unfold settle. destruct (ex_state <$> get_task _ _) as [[]|]; try by apply dispatched_same.
  all: specialize (Hq d); destruct (queue_task sd t (ds_sched d)) as [[u|e] s']; by apply Hq.
Qed.

Lemma dispatch_one_dispatched specs t d : dispatched d (dispatch_one sd specs t d).2.
Proof.
  unfold dispatch_one. destruct (specs !! t) as [spec|]; [|by apply dispatched_same].
  destruct (manager_try_dispatch _ _ _) as [[[|reason]|e] quota]; [|by apply dispatched_same..].
  destruct (enqueue _ _ _ _) as [result queue].
  assert (forall d1 : @DispatchState Q M, ds_sched d1 = (ds_sched d) <| ss_reads := (ss_reads (ds_sched d) + 1)%N |> ->
    dispatched d d1) as Hr.
  { intros d1 E pend. exists pend. rewrite E. apply rtc_once, g_reads. }
  destruct result as [[id|id|]|e]; [| |by apply Hr|by apply Hr].
  all: eapply dispatched_trans; [|apply settle_dispatched]; by apply Hr.
Qed.

Lemma dispatch_loop_dispatched specs l d : dispatched d (dispatch_loop sd specs l d).2.
Proof.
  revert d. induction l as [|t l IH]; intros d; [by apply dispatched_same|]. cbn [dispatch_loop].
  pose proof (dispatch_one_dispatched specs t d) as H1.
  destruct (dispatch_one sd specs t d) as [[u|e] d1]; [|done]. by eapply dispatched_trans.
Qed.

Lemma dispatch_ready_tasks_steps s (q : Q) (m : M) :
  exists pend, gsteps plan allow (s, []) (ds_sched (dispatch_ready_tasks sd s q m).2, pend).
Proof.
  unfold dispatch_ready_tasks. set (d := mkDispatchState s q m _).
  assert (forall d' : @DispatchState Q M, dispatched d d' -> exists pend, gsteps plan allow (s, []) (ds_sched d', pend)) as Hd
    by (intros d' Hd'; apply (Hd' [])).
  destruct (get_ready_tasks sd (ss_run s)) as [|spec specs]; [by apply Hd, dispatched_same|].
  destruct (ready_executions _ _) as [execs|e]; [|by apply Hd, dispatched_same].
  destruct (manager_get_quota _ _) as [quota|e]; [|by apply Hd, dispatched_same].
  match goal with |- context [dispatch_loop ?sd ?specs ?l ?d0] =>
    pose proof (dispatch_loop_dispatched specs l d0) as Hl; destruct (dispatch_loop sd specs l d0) as [[u|e] d'] end;
    by apply Hd.
Qed.
End Dispatch.
End Steps.
