(* ===== verification/SchedulerInvariant.v ===== *)
(** The invariant of a scheduled run: tasks, dependencies, attempts, announcements.
    And skipping: exactly the pending tasks downstream, in a bounded number of turns. *)

From S2P Require Import Prelude Storage Events Dag DagProps Canonical Plan Quota TaskExec Run TaskQueue Scheduler SchedulerMachine SchedulerSteps DagCycle PlanProps.
From stdpp Require Import relations options.

(** States a task is in only after its dependencies succeeded. *)
Definition advanced (st : TaskState) : bool :=
  match st with
  | Ready | Queued | Dispatched | Running | Succeeded | Failed | RetryWait => true
  | Planned | Pending | Skipped | Cancelled => false
  end.

(** ** Ranks *)

Lemma moves_rank e e' :
  moves e e' -> (ex_attempt e < u32_max)%N -> (exec_rank e < exec_rank e')%N.
Proof.
  intros [_ _ Htab Ha _] Hmax. unfold exec_rank, rank. rewrite Ha.
  assert (u32_add (ex_attempt e) 1 = (ex_attempt e + 1)%N) as Hu.
  { apply u32_add_small. unfold u32_max in Hmax. unfold u32_modulus. lia. }
  rewrite Hu. destruct (ex_state e), (ex_state e'); try done; cbn [phase]; lia.
Qed.

Lemma entered_rank e e' i :
  moves e e' -> i ∈ entered e e' -> ident_task i = Some (ex_task_id e, exec_rank e') /\ ident_run i = None.
Proof.
  intros _. unfold entered, exec_rank. destruct (ex_state e'); try case_decide; set_unfold;
    repeat (intros [->|H]; [done|]; revert H || intros ->); naive_solver.
Qed.

Lemma entered_nodup e e' : NoDup (entered e e').
Proof.
  unfold entered. destruct (ex_state e'); try case_decide;
    repeat (constructor; [set_solver|]); constructor.
Qed.

Lemma run_entered_rank st i : i ∈ run_entered st -> ident_task i = None /\ ident_run i = Some (run_phase st).
Proof. destruct st; set_unfold; naive_solver. Qed.

Lemma run_moves_rank st st' : run_can_transition_to st st' = true -> (run_phase st < run_phase st')%N.
Proof. destruct st, st'; try done; cbn; lia. Qed.

(** ** The invariant *)

Section Invariant.
Context `{HD : Display N} `{HH : Hashes} `{HS : Supply} (sd : Scheduler).
Abbreviation plan := (sd_plan sd).
Context (Hnd : NoDup (sp_task_id <$> pl_tasks plan)).
#[local] Set Default Proof Using "All".

Abbreviation tasks_of s := (ru_task_executions (ss_run s)).

(** What was announced was entered. *)
Record ranked (s : SchedState) (i : ident) : Prop := {
  rd_task : forall t r, ident_task i = Some (t, r) -> exists e, e ∈ tasks_of s /\ ex_task_id e = t /\ (r <= exec_rank e)%N;
  rd_run : forall r, ident_run i = Some r -> (r <= run_phase (ru_state (ss_run s)))%N
}.

Record sinv (s : SchedState) (pend : list ident) : Prop := {
  si_ids : ex_task_id <$> tasks_of s = sp_task_id <$> pl_tasks plan;
  si_max : forall e, e ∈ tasks_of s -> ex_max_attempts e = 3%N;
  si_attempt : forall e, e ∈ tasks_of s -> (1 <= ex_attempt e <= 3)%N;
  si_retry : forall e, e ∈ tasks_of s -> ex_state e = RetryWait -> (ex_attempt e < 3)%N;
  si_planned : forall e, e ∈ tasks_of s -> ex_state e <> Planned;
  si_deps : forall e, e ∈ tasks_of s -> advanced (ex_state e) = true ->
    deps_succeeded plan (tasks_of s) (ex_task_id e);
  si_nodup : NoDup (announced s ++ pend);
  si_ranked : forall i, i ∈ announced s ++ pend -> ranked s i;
  si_sequence : forall j ev, ss_outbox s !! j = Some ev ->
    en_sequence ev = Some (N.min (N.of_nat j + 1) u64_max);
  si_keys : forall ev, ev ∈ ss_outbox s ->
    en_idempotency_key ev = default (en_id ev) (data_idempotency_key (en_data ev));
  si_next : ru_run_sequence (ss_run s) = N.min (N.of_nat (length (ss_outbox s))) u64_max
}.

Lemma sinv_tasks_nodup s pend : sinv s pend -> NoDup (ex_task_id <$> tasks_of s).
Proof. intros Hi. by rewrite (si_ids _ _ Hi). Qed.

(** The execution of an id is unique. *)
Lemma task_unique s pend l1 e l2 x :
  sinv s pend -> tasks_of s = l1 ++ e :: l2 -> x ∈ tasks_of s -> ex_task_id x = ex_task_id e -> x = e.
Proof.
  intros Hi Hl [j Hj]%list_elem_of_lookup_1 E. pose proof (sinv_tasks_nodup _ _ Hi) as Hn.
  assert (j = length l1) as ->.
  { eapply (NoDup_lookup _ _ _ _ Hn); rewrite list_lookup_fmap; [by rewrite Hj|].
    by rewrite Hl, list_lookup_middle; cbn; [rewrite E|]. }
  rewrite Hl, list_lookup_middle in Hj by done. by simplify_eq.
Qed.

Lemma elem_replace {A} (l1 l2 : list A) e e' x :
  x ∈ l1 ++ e' :: l2 -> x = e' \/ x ∈ l1 ++ e :: l2.
Proof. rewrite !elem_of_app, !elem_of_cons. tauto. Qed.

(** Replacing a task by one of the same id and a rank not lower. *)
Lemma ranked_replace s l1 e l2 e' i :
  tasks_of s = l1 ++ e :: l2 -> ex_task_id e' = ex_task_id e -> (exec_rank e <= exec_rank e')%N ->
  ranked s i -> ranked (set_tasks s (l1 ++ e' :: l2)) i.
Proof.
  intros Hl Hid Hr [Ht Hrun]. split; [|exact Hrun]. intros t r Hi.
  destruct (Ht t r Hi) as (x & Hx & <- & Hle). cbn. rewrite Hl in Hx.
  apply elem_of_app in Hx as [Hx|[->|Hx]%elem_of_cons].
  - exists x. set_solver.
  - exists e'. split_and!; [set_solver|done|lia].
  - exists x. set_solver.
Qed.

Lemma sinv_stay s pend l1 e l2 e' :
  sinv s pend -> tasks_of s = l1 ++ e :: l2 -> stays e e' -> sinv (set_tasks s (l1 ++ e' :: l2)) pend.
Proof.
  intros Hi Hl [Hid Hmax Hst Ha].
  assert (e ∈ tasks_of s) as He by (rewrite Hl; set_solver).
  assert (forall x, x ∈ l1 ++ e' :: l2 -> exists y, y ∈ tasks_of s /\ ex_task_id x = ex_task_id y /\
    ex_max_attempts x = ex_max_attempts y /\ ex_state x = ex_state y /\ ex_attempt x = ex_attempt y) as Hx.
  { intros x [->|Hx]%(elem_replace _ _ e); [by exists e|exists x]. by rewrite Hl. }
  split; cbn.
  - rewrite <-(si_ids _ _ Hi), Hl, !fmap_app, !fmap_cons. by rewrite Hid.
  - intros x (y & Hy & _ & -> & _)%Hx. by eapply si_max.
  - intros x (y & Hy & _ & _ & _ & ->)%Hx. by eapply si_attempt.
  - intros x (y & Hy & _ & _ & -> & ->)%Hx. by eapply si_retry.
  - intros x (y & Hy & _ & _ & -> & _)%Hx. by eapply si_planned.
  - intros x (y & Hy & -> & _ & -> & _)%Hx Hadv. eapply deps_succeeded_replace; [done|by rewrite Hst|].
    rewrite <-Hl. by apply (si_deps _ _ Hi).
  - apply (si_nodup _ _ Hi).
  - intros i Hin. apply (ranked_replace _ _ _ _ _ _ Hl Hid); [unfold exec_rank; by rewrite Hst, Ha|].
    by apply (si_ranked _ _ Hi).
  - apply (si_sequence _ _ Hi).
  - apply (si_keys _ _ Hi).
  - apply (si_next _ _ Hi).
Qed.

Lemma sinv_move s pend l1 e l2 e' :
  sinv s pend -> tasks_of s = l1 ++ e :: l2 -> moves e e' ->
  (ex_state e = Pending -> ex_state e' = Ready -> deps_succeeded plan (tasks_of s) (ex_task_id e)) ->
  sinv (set_tasks s (l1 ++ e' :: l2)) (pend ++ entered e e').
Proof.
  intros Hi Hl Hm Hready. pose proof Hm as [Hid Hmax Htab Ha Hretry].
  assert (e ∈ tasks_of s) as He by (rewrite Hl; set_solver).
  pose proof (si_attempt _ _ Hi e He) as Hatt. pose proof (si_max _ _ Hi e He) as Hmax3.
  assert (exec_rank e < exec_rank e')%N as Hrank by (apply moves_rank; [done|unfold u32_max; lia]).
  assert (ex_state e <> Succeeded) as Hns by by eapply moves_not_succeeded.
  assert (forall t, deps_succeeded plan (tasks_of s) t -> deps_succeeded plan (l1 ++ e' :: l2) t) as Hdeps.
  { intros t. rewrite Hl. by apply deps_succeeded_replace. }
  split; cbn.
  - rewrite <-(si_ids _ _ Hi), Hl, !fmap_app, !fmap_cons. by rewrite Hid.
  - intros x [->|Hx]%(elem_replace _ _ e); [by rewrite Hmax|]. apply (si_max _ _ Hi). by rewrite Hl.
  - intros x [->|Hx]%(elem_replace _ _ e); [|apply (si_attempt _ _ Hi); by rewrite Hl]. rewrite Ha.
    destruct (ex_state e) eqn:Hst; try lia. destruct (ex_state e'); try lia.
    pose proof (si_retry _ _ Hi e He Hst). rewrite u32_add_small by (unfold u32_modulus; lia). lia.
  - intros x [->|Hx]%(elem_replace _ _ e); [|apply (si_retry _ _ Hi); by rewrite Hl]. intros Hst.
    rewrite Ha, Hst. specialize (Hretry Hst). rewrite Hmax3 in Hretry. by destruct (ex_state e).
  - intros x [->|Hx]%(elem_replace _ _ e); [|apply (si_planned _ _ Hi); by rewrite Hl].
    intros Hst. rewrite Hst in Htab. by destruct (ex_state e).
  - intros x [->|Hx]%(elem_replace _ _ e) Hadv; apply Hdeps; [|apply (si_deps _ _ Hi); [by rewrite Hl|done]].
    rewrite Hid. destruct (advanced (ex_state e)) eqn:Hadv0; [by apply (si_deps _ _ Hi)|].
    pose proof (si_planned _ _ Hi e He). destruct (ex_state e) eqn:Hst; try done.
    apply Hready; [done|]. by destruct (ex_state e').
  - rewrite app_assoc. apply NoDup_app. split_and!; [apply (si_nodup _ _ Hi)| |apply entered_nodup].
    intros i Hin Hent. destruct (entered_rank e e' i Hm Hent) as [Hti _].
    destruct (rd_task _ _ (si_ranked _ _ Hi i Hin) _ _ Hti) as (x & Hx & Hxid & Hle).
    rewrite (task_unique _ _ _ _ _ x Hi Hl Hx Hxid) in Hle. lia.
  - intros i. rewrite app_assoc, elem_of_app. intros [Hin|Hent].
    + apply (ranked_replace _ _ _ _ _ _ Hl Hid); [lia|]. by apply (si_ranked _ _ Hi).
    + destruct (entered_rank e e' i Hm Hent) as [Hti Hri]. split; [|by rewrite Hri].
      intros t r E. rewrite Hti in E. injection E as <- <-. exists e'. cbn. split_and!; [set_solver|done|lia].
  - apply (si_sequence _ _ Hi).
  - apply (si_keys _ _ Hi).
  - apply (si_next _ _ Hi).
Qed.

Lemma sinv_run s pend run :
  sinv s pend -> run_can_transition_to (ru_state (ss_run s)) (ru_state run) = true ->
  ru_task_executions run = tasks_of s -> ru_run_sequence run = ru_run_sequence (ss_run s) ->
  sinv (s <| ss_run := run |>) (pend ++ run_entered (ru_state run)).
Proof.
  intros Hi Htab Ht Hseq. pose proof (run_moves_rank _ _ Htab) as Hrank.
  split; cbn; rewrite ?Ht; try by apply Hi.
  - rewrite app_assoc. apply NoDup_app. split_and!; [apply (si_nodup _ _ Hi)| |].
    + intros i Hin Hent. destruct (run_entered_rank _ _ Hent) as [_ Hri].
      pose proof (rd_run _ _ (si_ranked _ _ Hi i Hin) _ Hri). lia.
    + destruct (ru_state run); repeat (constructor; [set_solver|]); constructor.
  - intros i. rewrite app_assoc, elem_of_app. intros [Hin|Hent].
    + destruct (si_ranked _ _ Hi i Hin) as [H1 H2]. split; cbn; [by rewrite Ht|]. intros r Hr.
      specialize (H2 r Hr). lia.
    + destruct (run_entered_rank _ _ Hent) as [Hti Hri]. split; cbn; [by rewrite Hti|].
      rewrite Hri. intros r [= <-]. lia.
  - rewrite Hseq. apply (si_next _ _ Hi).
Qed.

(** An event that announces [i], or nothing. *)
Lemma sinv_emit s pend d pend' :
  sinv s pend -> option_list (event_ident d) ++ pend' ≡ₚ pend -> sinv (emit_sequenced d s).2 pend'.
Proof.
  intros Hi Hp.
  assert (announced (emit_sequenced d s).2 ++ pend' ≡ₚ announced s ++ pend) as Hann.
  { unfold announced. cbn. rewrite omap_app. cbn. rewrite <-app_assoc. apply Permutation_app_head.
    rewrite <-Hp. destruct (event_ident d); [done|]. by rewrite app_nil_l. }
  split; cbn; try by apply Hi.
  - rewrite Hann. apply (si_nodup _ _ Hi).
  - intros i. rewrite Hann. intros Hin. destruct (si_ranked _ _ Hi i Hin) as [H1 H2]. by split.
  - intros j ev [[_ Hj]|[-> <-]]%lookup_snoc_Some; [by apply (si_sequence _ _ Hi)|].
    cbn. rewrite (si_next _ _ Hi). f_equal. lia.
  - intros ev Hev. apply elem_of_app in Hev as [Hev|Hev]; [by apply (si_keys _ _ Hi)|].
    by apply list_elem_of_singleton in Hev as ->.
  - rewrite length_app, (si_next _ _ Hi). cbn. lia.
Qed.

Lemma sinv_gstep allow c c' : gstep plan allow c c' -> sinv c.1 c.2 -> sinv c'.1 c'.2.
Proof.
  intros Hstep. destruct Hstep as [s pend n|s pend|s pend d Hd|s d i p1 p2 Hd|s pend l1 e l2 e' Hl Hs|
    s pend l1 e l2 e' Hl Hm _ Hr|s pend run Htab _ Ht Hseq]; cbn [fst snd]; intros Hi.
  - split; try by apply Hi. intros i Hin. destruct (si_ranked _ _ Hi i Hin) as [H1 H2]. by split.
  - split; try by apply Hi.
    + rewrite app_nil_r. pose proof (si_nodup _ _ Hi) as Hn. by apply NoDup_app in Hn as [? _].
    + intros i. rewrite app_nil_r. intros Hin. apply (si_ranked _ _ Hi). set_solver.
  - eapply sinv_emit; [done|]. by rewrite Hd.
  - eapply sinv_emit; [done|]. rewrite Hd. cbn. apply Permutation_middle.
  - by eapply sinv_stay.
  - by eapply sinv_move.
  - by apply sinv_run.
Qed.

Lemma sinv_gsteps allow s pend s' pend' : gsteps plan allow (s, pend) (s', pend') -> sinv s pend -> sinv s' pend'.
Proof.
  assert (forall c c', gsteps plan allow c c' -> sinv c.1 c.2 -> sinv c'.1 c'.2) as H.
  { intros c c'. induction 1; [done|]. intros Hi. by eapply IHrtc, sinv_gstep. }
  apply H.
Qed.
End Invariant.

(** ** Skipping *)

Lemma size_list_to_set_le (l : list TaskId) : size (list_to_set l : gset TaskId) <= length l.
Proof.
  induction l as [|x l IH]; [done|]. cbn [list_to_set length]. rewrite size_union_alt, size_singleton.
  assert (size (list_to_set l ∖ {[x]} : gset TaskId) <= size (list_to_set l : gset TaskId)); [|lia].
  apply subseteq_size. set_solver.
Qed.

(** [e] is [e0], skipped if its id is in [V] and it was pending. *)
Definition skipped_if (V : TaskId -> Prop) (e0 e : TaskExecution) : Prop :=
  (V (ex_task_id e0) /\ ex_state e0 = Pending /\ ex_state e = Skipped /\
   ex_task_id e = ex_task_id e0 /\ ex_attempt e = ex_attempt e0) \/
  (~ (V (ex_task_id e0) /\ ex_state e0 = Pending) /\ e = e0).

Lemma skipped_if_id V e0 e : skipped_if V e0 e -> ex_task_id e = ex_task_id e0.
Proof. intros [(_ & _ & _ & H & _)|[_ ->]]; done. Qed.

Lemma skipped_if_ids V l0 l : Forall2 (skipped_if V) l0 l -> ex_task_id <$> l = ex_task_id <$> l0.
Proof. induction 1 as [|e0 e l0 l He _ IH]; [done|]. cbn. by rewrite (skipped_if_id _ _ _ He), IH. Qed.

Lemma skipped_if_same (V V' : TaskId -> Prop) e0 e :
  (V (ex_task_id e0) <-> V' (ex_task_id e0)) -> skipped_if V e0 e -> skipped_if V' e0 e.
Proof. unfold skipped_if. tauto. Qed.

Lemma skipped_if_sames (V V' : TaskId -> Prop) l0 l :
  (forall t, t ∈ ex_task_id <$> l0 -> (V t <-> V' t)) ->
  Forall2 (skipped_if V) l0 l -> Forall2 (skipped_if V') l0 l.
Proof.
  intros HV H. induction H as [|e0 e l0 l He _ IH]; [done|]. rewrite fmap_cons in HV. constructor.
  - eapply skipped_if_same; [|exact He]. apply HV. set_solver.
  - apply IH. intros t Ht. apply HV. set_solver.
Qed.

Section Skip.
Context `{HD : Display N} `{HH : Hashes} `{HS : Supply} (sd : Scheduler).
Abbreviation plan := (sd_plan sd).
Abbreviation tasks_of s := (ru_task_executions (ss_run s)).
Context (l0 : list TaskExecution) (Hnd0 : NoDup (ex_task_id <$> l0)).
#[local] Set Default Proof Using "All".

Lemma skip_pending_exact (V : gset TaskId) t s :
  Forall2 (skipped_if (fun x => x ∈ V)) l0 (tasks_of s) -> t ∉ V ->
  Forall2 (skipped_if (fun x => x ∈ {[t]} ∪ V)) l0 (tasks_of (skip_pending t s).2) /\
  ((skip_pending t s).1 = true <-> exists e0, e0 ∈ l0 /\ ex_task_id e0 = t /\ ex_state e0 = Pending) /\
  ss_outbox (skip_pending t s).2 = ss_outbox s.
Proof.
  intros HF HtV. pose proof (skipped_if_ids _ _ _ HF) as Hids. unfold skip_pending, update_task.
  match goal with |- context [update_first t ?g _] => set (f := g) end.
  pose proof (update_first_spec t f (tasks_of s)) as Hu.
  destruct (update_first t f (tasks_of s)) as [[b l']|]; cbn [fst snd].
  - destruct Hu as (l1 & e & l2 & Hl & Ht & Hn & -> & ->). cbn. rewrite Hl in HF.
    apply Forall2_app_inv_r in HF as (k1 & k2 & H1 & H2 & Hk).
    apply Forall2_cons_inv_r in H2 as (e0 & k3 & He & H3 & ->).
    assert (ex_task_id e0 = t) as Ht0 by (rewrite <-(skipped_if_id _ _ _ He); done).
    destruct He as [(HV & _)|[_ ->]]; [by rewrite Ht0 in HV|].
    assert (forall k, k ∈ k1 ++ k3 -> ex_task_id k <> t) as Hother.
    { intros k Hk' E. rewrite Hk, fmap_app, fmap_cons, Ht0, <-E in Hnd0.
      apply NoDup_app in Hnd0 as (_ & Hdis & [Hn3 _]%NoDup_cons).
      apply elem_of_app in Hk' as [Hk'|Hk']; apply (list_elem_of_fmap_2 ex_task_id) in Hk';
        [|done]. apply (Hdis _ Hk'). set_solver. }
    assert (forall k l, (forall x, x ∈ k -> x ∈ k1 ++ k3) -> Forall2 (skipped_if (fun x => x ∈ V)) k l ->
      Forall2 (skipped_if (fun x => x ∈ {[t]} ∪ V)) k l) as Hmono.
    { intros k l Hsub. apply skipped_if_sames. intros x (y & -> & Hy)%list_elem_of_fmap.
      apply Hsub, Hother in Hy. set_solver. }
    split_and!; [|..|done].
    + rewrite Hk. apply Forall2_app; [by apply Hmono; [set_solver|]|]. constructor; [|by apply Hmono; [set_solver|]].
      unfold f. destruct (bool_decide_reflect (ex_state e0 = Pending)) as [Hp|Hp]; cbn [snd].
      * left. pose proof (transition_to_spec (clock (ss_reads s)) Skipped e0) as Htr. unfold skip.
        destruct (transition_to _ Skipped e0) as [[u|err] e']; cbn [snd];
          [|destruct Htr as [_ Htr]; by rewrite Hp in Htr].
        destruct Htr as [Hst Hm]. specialize (Hm ltac:(done)).
        split_and!; [rewrite Ht0; set_solver|done|done|apply Hm|by rewrite (mv_attempt _ _ Hm), Hp].
      * right. tauto.
    + unfold f. destruct (bool_decide_reflect (ex_state e0 = Pending)) as [Hp|Hp]; cbn [fst]; split; try done.
      * intros _. exists e0. rewrite Hk. set_solver.
      * intros (x & Hx & Hxt & Hxp). rewrite Hk in Hx. apply elem_of_app in Hx as [Hx|[->|Hx]%elem_of_cons]; [|done|];
          exfalso; apply (Hother x); set_solver.
  - split_and!; [|split; [done|]|done].
    + eapply skipped_if_sames; [|exact HF]. intros x Hx. rewrite <-Hids in Hx. set_solver.
    + intros (x & Hx & <- & _). exfalso. apply Hu. rewrite Hids. by apply list_elem_of_fmap_2.
Qed.

(** ** The traversal *)

Context (start : TaskId).

(** Downstream of the task it starts from. *)
Definition downstream_of (t : TaskId) : Prop := tc (depends (pl_tasks plan)) start t.

(** [done_]: tasks of the plan the current turn has looked at for [cur]. *)
Record traversal (s0 : SchedState) (cur : option (TaskId * list TaskSpec)) (k : SkipState) : Prop := {
  tv_tasks : Forall2 (skipped_if (fun x => x ∈ sk_visited k)) l0 (tasks_of (sk_state k));
  tv_outbox : ss_outbox (sk_state k) = ss_outbox s0;
  tv_down : forall t, t ∈ sk_visited k -> downstream_of t;
  tv_plan : sk_visited k ⊆ list_to_set (sp_task_id <$> pl_tasks plan);
  tv_frontier : forall t, t ∈ sk_frontier k -> t = start \/ t ∈ sk_visited k;
  tv_cur : forall c l, cur = Some (c, l) -> (c = start \/ c ∈ sk_visited k) /\
    forall spec, spec ∈ l -> c ∈ sp_upstream_task_ids spec -> sp_task_id spec ∈ sk_visited k;
  tv_closed : forall t u, t = start \/ t ∈ sk_visited k -> t ∉ sk_frontier k -> (forall c l, cur = Some (c, l) -> t <> c) ->
    depends (pl_tasks plan) t u -> u ∈ sk_visited k;
  tv_skipped : forall t, t ∈ sk_skipped k <-> t ∈ sk_visited k /\
    exists e0, e0 ∈ l0 /\ ex_task_id e0 = t /\ ex_state e0 = Pending;
  tv_nodup : NoDup (sk_skipped k)
}.

Lemma visit_task_traversal s0 c l task k :
  task ∈ pl_tasks plan -> traversal s0 (Some (c, l)) k ->
  traversal s0 (Some (c, l ++ [task])) (visit_task c k task) /\
  length (sk_frontier (visit_task c k task)) + size (sk_visited k) =
    length (sk_frontier k) + size (sk_visited (visit_task c k task)).
Proof.
  intros Htask [Ht Ho Hd Hpl Hf Hc Hcl Hsk Hndk]. destruct (Hc c l eq_refl) as [Hc1 Hc2]. unfold visit_task.
  destruct (bool_decide_reflect (c ∈ sp_upstream_task_ids task)) as [Hup|Hup]; cbn [negb]; last first.
  { split; [|lia]. split; try done; [|by intros t u H1 H2 H3; apply Hcl; [..|naive_solver]].
    intros c' l' [= <- <-]. split; [done|].
    intros spec Hin' Hin; apply elem_of_app in Hin' as [Hs|Hs]; [|apply list_elem_of_singleton in Hs as ->]; [by apply Hc2|done]. }
  destruct (bool_decide_reflect (sp_task_id task ∈ sk_visited k)) as [Hv|Hv].
  { split; [|lia]. split; try done; [|by intros t u H1 H2 H3; apply Hcl; [..|naive_solver]].
    intros c' l' [= <- <-]. split; [done|].
    intros spec Hin' Hin; apply elem_of_app in Hin' as [Hs|Hs]; [|apply list_elem_of_singleton in Hs as ->]; [by apply Hc2|done]. }
  destruct (skip_pending_exact _ _ _ Ht Hv) as (Ht' & Hb & Ho').
  destruct (skip_pending (sp_task_id task) (sk_state k)) as [b s']. cbn [fst snd] in *.
  assert (downstream_of (sp_task_id task)) as Hdown.
  { assert (depends (pl_tasks plan) c (sp_task_id task)) as Hdep by by exists task.
    destruct Hc1 as [->|Hc1]; [by apply tc_once|]. eapply tc_r; [by apply Hd|done]. }
  split; [|cbn; rewrite size_union by set_solver; rewrite size_singleton; lia]. split; cbn.
  - done.
  - by rewrite Ho'.
  - intros t Hin. apply elem_of_union in Hin as [Hin|Hin]; [|auto]. by apply elem_of_singleton in Hin as ->.
  - apply union_subseteq. split; [|done]. apply singleton_subseteq_l, elem_of_list_to_set.
    by apply list_elem_of_fmap_2.
  - intros t [->|Hin]%elem_of_cons; [set_solver|]. destruct (Hf t Hin); set_solver.
  - intros c' l' [= <- <-]. split; [set_solver|].
    intros spec Hin' Hin; apply elem_of_app in Hin' as [Hs|Hs]; [|apply list_elem_of_singleton in Hs as ->]; [|set_solver]. specialize (Hc2 spec Hs Hin). set_solver.
  - intros t u Hu Hnf Hne Hdep. apply not_elem_of_cons in Hnf as [Hn1 Hn2].
    assert (t = start \/ t ∈ sk_visited k) as Hu' by set_solver.
    apply elem_of_union_r, (Hcl t u Hu' Hn2); [|done]. intros c' l' [= <- <-]. by apply (Hne c (l ++ [task])).
  - intros t. destruct b.
    + rewrite elem_of_app, list_elem_of_singleton, Hsk. destruct (proj1 Hb eq_refl) as (e0 & ? & ? & ?).
      split; [intros [[? ?]| ->]; [set_solver|]|].
      * split; [set_solver|eauto].
      * intros [Hin ?]. apply elem_of_union in Hin as [Hin|Hin]; [|auto]. apply elem_of_singleton in Hin. auto.
    + rewrite Hsk. split; [set_solver|]. intros [Hin He]. apply elem_of_union in Hin as [Hin|Hin]; [|done].
      apply elem_of_singleton in Hin as ->. exfalso. by apply Hb in He.
  - destruct b; [|done]. apply NoDup_app. split_and!; [done|set_solver|apply NoDup_singleton].
Qed.

Lemma visit_tasks_traversal s0 c l l' k :
  (forall task, task ∈ l' -> task ∈ pl_tasks plan) -> traversal s0 (Some (c, l)) k ->
  traversal s0 (Some (c, l ++ l')) (fold_left (visit_task c) l' k) /\
  length (sk_frontier (fold_left (visit_task c) l' k)) + size (sk_visited k) =
    length (sk_frontier k) + size (sk_visited (fold_left (visit_task c) l' k)).
Proof.
  revert l k. induction l' as [|task l' IH]; intros l k Hl Hk; cbn [fold_left].
  { rewrite app_nil_r. split; [done|lia]. }
  destruct (visit_task_traversal s0 c l task k) as [H1 H2]; [apply Hl; set_solver|done|].
  destruct (IH (l ++ [task]) (visit_task c k task)) as [H3 H4]; [set_solver|done|].
  rewrite <-app_assoc in H3. split; [exact H3|lia].
Qed.

Lemma skip_loop_traversal fuel s0 k :
  traversal s0 None k -> length (sk_frontier k) + length (pl_tasks plan) < fuel + size (sk_visited k) ->
  exists k', skip_loop fuel (pl_tasks plan) k = Some k' /\ traversal s0 None k' /\ sk_frontier k' = [].
Proof.
  revert k. induction fuel as [|fuel IH]; intros k Hk Hfuel.
  { exfalso. assert (size (sk_visited k) <= length (pl_tasks plan)); [|lia].
    etrans; [apply subseteq_size, (tv_plan _ _ _ Hk)|]. etrans; [apply size_list_to_set_le|].
    by rewrite length_fmap. }
  cbn [skip_loop]. destruct (sk_frontier k) as [|c rest] eqn:Hfr; [by exists k|].
  set (k1 := mkSkipState (sk_state k) (sk_visited k) rest (sk_skipped k)).
  assert (traversal s0 (Some (c, [])) k1) as Hk1.
  { destruct Hk as [Ht Ho Hd Hpl Hf Hc Hcl Hsk Hndk]. split; cbn; try done.
    - intros t Hin. apply Hf. rewrite Hfr. set_solver.
    - intros c' l [= <- <-]. split; [apply Hf; rewrite Hfr; set_solver|set_solver].
    - intros t u Hu Hn Hne. apply Hcl; [done| |done]. rewrite Hfr. apply not_elem_of_cons. split; [|done].
      by apply (Hne c []). }
  destruct (visit_tasks_traversal s0 c [] (pl_tasks plan) k1) as [Hk2 Hsize]; [done|done|].
  set (k2 := fold_left (visit_task c) (pl_tasks plan) k1) in *.
  apply IH; [|cbn in Hsize, Hfuel |- *; lia].
  destruct Hk2 as [Ht Ho Hd Hpl Hf Hc Hcl Hsk Hndk]. split; try done.
  destruct (Hc c _ eq_refl) as [_ Hall]. intros t u Hu Hn _ Hdep.
  destruct (decide (t = c)) as [->|Hne]; [|apply (Hcl t u Hu Hn); [|done]; by intros c' l' [= <- _]].
  destruct Hdep as (spec & Hspec & <- & Hin). by apply Hall.
Qed.

(** The loop ends within its fuel; the tasks it skips are the pending ones downstream. *)
Lemma skip_downstream_exact s :
  tasks_of s = l0 ->
  exists skipped s', skip_downstream_tasks sd start s = (Ok skipped, s') /\
    Forall2 (skipped_if downstream_of) l0 (tasks_of s') /\ ss_outbox s' = ss_outbox s /\ NoDup skipped /\
    forall t, t ∈ skipped <-> downstream_of t /\ exists e0, e0 ∈ l0 /\ ex_task_id e0 = t /\ ex_state e0 = Pending.
Proof.
  intros Hs. assert (traversal s None (mkSkipState s ∅ [start] [])) as Hk.
  { split; cbn; try set_solver.
    - rewrite Hs. apply Forall_Forall2_diag, Forall_true. intros e. right. set_solver.
    - constructor. }
  destruct (skip_loop_traversal (skip_fuel plan) s _ Hk) as (k & Hl & Hk' & Hfr).
  { cbn. unfold skip_fuel. rewrite size_empty. lia. }
  assert (forall x t, tc (depends (pl_tasks plan)) x t -> x = start \/ x ∈ sk_visited k -> t ∈ sk_visited k) as Hcl.
  { intros x t. induction 1 as [x y Hxy|x y z Hxy _ IH]; intros Hx; [|apply IH; right];
      apply (tv_closed _ _ _ Hk' x y); rewrite ?Hfr; try done; apply not_elem_of_nil. }
  assert (forall t, downstream_of t <-> t ∈ sk_visited k) as Hdown.
  { intros t. split; [|apply (tv_down _ _ _ Hk')]. intros Ht. apply (Hcl start t Ht). by left. }
  exists (sk_skipped k), (sk_state k). unfold skip_downstream_tasks. rewrite Hl. split_and!; [done|..].
  - eapply skipped_if_sames; [|apply (tv_tasks _ _ _ Hk')]. intros t _. by rewrite Hdown.
  - apply (tv_outbox _ _ _ Hk').
  - apply (tv_nodup _ _ _ Hk').
  - intros t. by rewrite Hdown, (tv_skipped _ _ _ Hk').
Qed.
End Skip.
