(* ===== verification/SchedulerProgress.v ===== *)
(** A run that continues on failure is never stuck. *)

From S2P Require Import Prelude Storage Events Dag DagProps DagCycle Canonical Plan PlanProps Quota TaskExec Run TaskQueue Scheduler SchedulerMachine SchedulerSteps SchedulerInvariant.
From stdpp Require Import relations options.

Section Progress.
Context `{HD : Display N} `{HH : Hashes} `{HS : Supply} (sd : Scheduler).
Abbreviation plan := (sd_plan sd).
Context (Hnd : NoDup (sp_task_id <$> pl_tasks plan)) (Hcont : cf_continue_on_failure (sd_config sd) = true).
#[local] Set Default Proof Using "All".
Abbreviation tasks_of s := (ru_task_executions (ss_run s)).

(** No task waits for a task that will not succeed; tasks satisfying [except] aside. *)
Definition unblocked (except : TaskId -> Prop) (l : list TaskExecution) : Prop :=
  forall e u, e ∈ l -> u ∈ l -> blocking (ex_state e) = true -> ~ except (ex_task_id e) ->
    depends (pl_tasks plan) (ex_task_id e) (ex_task_id u) -> ex_state u <> Pending.

Record flowing (s : SchedState) : Prop := {
  fl_ids : ex_task_id <$> tasks_of s = sp_task_id <$> pl_tasks plan;
  fl_unblocked : unblocked (fun _ => False) (tasks_of s)
}.

Lemma flowing_nodup s : flowing s -> NoDup (ex_task_id <$> tasks_of s).
Proof. intros H. by rewrite (fl_ids _ H). Qed.

(** ** Operations that block nothing *)

Definition harmless (st : TaskState) : Prop := blocking st = false /\ st <> Pending.

Lemma flowing_replace s l1 e l2 e' :
  flowing s -> tasks_of s = l1 ++ e :: l2 -> ex_task_id e' = ex_task_id e ->
  ex_state e' = ex_state e \/ harmless (ex_state e') -> flowing (set_tasks s (l1 ++ e' :: l2)).
Proof.
  intros [Hids Hun] Hl Hid Hst. split; cbn.
  - rewrite <-Hids, Hl, !fmap_app, !fmap_cons. by rewrite Hid.
  - intros x u Hx Hu Hb Hex Hd.
    assert (forall y, y ∈ l1 ++ e' :: l2 -> exists y0, y0 ∈ tasks_of s /\ ex_task_id y0 = ex_task_id y /\
      (ex_state y0 = ex_state y \/ harmless (ex_state y))) as Hback.
    { intros y [->|Hy]%(elem_replace sd Hnd _ _ e); [|exists y; rewrite Hl; auto].
      exists e. rewrite Hl. split_and!; [set_solver|done|]. destruct Hst as [Hst|Hst]; auto. }
    destruct (Hback x Hx) as (x0 & Hx0 & Ix & [Sx|[Sx _]]); [|congruence].
    destruct (Hback u Hu) as (u0 & Hu0 & Iu & [Su|[_ Su]]); [|done].
    rewrite <-Su. rewrite <-Ix, <-Iu in Hd. rewrite <-Sx in Hb. by apply (Hun x0 u0).
Qed.

Lemma flowing_gstep c c' : gstep plan harmless c c' -> flowing c.1 -> flowing c'.1.
Proof.
  destruct 1 as [s pend n|s pend|s pend d Hd|s d i p1 p2 Hd|s pend l1 e l2 e' Hl Hs|
    s pend l1 e l2 e' Hl Hm Ha _|s pend run Htab _ Ht Hseq]; cbn [fst]; intros Hf; try done.
  - by destruct Hf.
  - by destruct Hf.
  - by destruct Hf.
  - eapply flowing_replace; [done..|apply Hs|]. left. apply Hs.
  - eapply flowing_replace; [done..|apply Hm|]. by right.
  - destruct Hf as [H1 H2]. split; cbn; by rewrite Ht.
Qed.

Lemma flowing_gsteps s pend s' pend' : gsteps plan harmless (s, pend) (s', pend') -> flowing s -> flowing s'.
Proof.
  assert (forall c c', gsteps plan harmless c c' -> flowing c.1 -> flowing c'.1) as H.
  { intros c c'. induction 1; [done|]. intros Hi. by eapply IHrtc, flowing_gstep. }
  apply H.
Qed.

Lemma flowing_takes {A} (m : sched A) s Q :
  takes_steps plan harmless m s [] Q -> flowing s -> flowing (m s).2.
Proof. intros (p & Hp & _). by eapply flowing_gsteps. Qed.

(** ** Skipping *)

Lemma skip_unblocked t l l' :
  unblocked (eq t) l -> NoDup (ex_task_id <$> l) -> Forall2 (skipped_if (downstream_of sd t)) l l' ->
  unblocked (fun _ => False) l'.
Proof.
  intros Hun Hn HF e u He Hu Hb _ Hd Hp.
  assert (forall x, x ∈ l' -> exists x0, x0 ∈ l /\ skipped_if (downstream_of sd t) x0 x) as Hback.
  { intros x [i Hi]%list_elem_of_lookup_1. destruct (Forall2_lookup_r _ _ _ _ _ HF Hi) as (x0 & Hx0 & Hs).
    exists x0. split; [by eapply list_elem_of_lookup_2|done]. }
  destruct (Hback e He) as (e0 & He0 & Hse), (Hback u Hu) as (u0 & Hu0 & Hsu).
  destruct Hsu as [(_ & _ & Hs & _)|[Hnot ->]]; [congruence|].
  destruct (decide (ex_task_id e = t)) as [E|E].
  { apply Hnot. split; [|done]. apply tc_once. by rewrite <-E. }
  destruct Hse as [(Hdown & _ & _ & Hid & _)|[_ ->]].
  - apply Hnot. split; [|done]. eapply tc_r; [exact Hdown|]. by rewrite <-Hid.
  - by apply (Hun e0 u0); [..|congruence|done|].
Qed.

(** Operations that emit events only. *)
Definition quiet {A} (m : sched A) : Prop := forall s, (exists a, (m s).1 = Ok a) /\ tasks_of (m s).2 = tasks_of s.

Lemma quiet_ret {A} (a : A) : quiet (sret a).
Proof. intros s. split; [by exists a|done]. Qed.

Lemma quiet_emit d : quiet (emit_sequenced d).
Proof. intros s. split; [by exists tt|done]. Qed.

Lemma quiet_get_run : quiet get_run.
Proof. intros s. split; [by eexists|done]. Qed.

Lemma quiet_bind {A B} (m : sched A) (k : A -> sched B) : quiet m -> (forall a, quiet (k a)) -> quiet (sbind m k).
Proof.
  intros Hm Hk s. unfold sbind. destruct (Hm s) as [[a Ha] Ht]. destruct (m s) as [r s']. cbn in Ha, Ht. subst r.
  destruct (Hk a s') as [Hb Ht']. split; [done|]. by rewrite Ht'.
Qed.

Lemma quiet_completed t st a : quiet (emit_task_completed t st a).
Proof. apply quiet_bind; [apply quiet_get_run|]. intros. apply quiet_emit. Qed.

Lemma quiet_for_each {A} (f : A -> sched unit) l : (forall x, quiet (f x)) -> quiet (for_each f l).
Proof. intros Hf. induction l as [|x l IH]; [apply quiet_ret|]. by apply quiet_bind. Qed.

Lemma process_completion_flowing t s :
  ex_task_id <$> tasks_of s = sp_task_id <$> pl_tasks plan -> unblocked (eq t) (tasks_of s) ->
  flowing s \/ (exists e, get_task (ss_run s) t = Some e /\ ex_state e <> Skipped) ->
  flowing (process_task_completion sd t s).2.
Proof.
  intros Hids Hun Hst. assert (NoDup (ex_task_id <$> tasks_of s)) as Hn by by rewrite Hids.
  unfold process_task_completion, sbind at 1. cbn [get_run]. destruct (get_task (ss_run s) t) as [e|] eqn:Hg;
    [|by destruct Hst as [?|(? & ? & _)]]. rewrite Hcont, andb_true_r.
  assert (blocking (ex_state e) = false -> flowing s) as Hopen.
  { intros Hb. split; [done|]. intros x u Hx Hu Hbx _ Hd. apply (Hun x u); try done. intros E.
    apply get_task_split in Hg as (l1 & l2 & Hl & Ht & _).
    assert (x = e) as ->; [|congruence]. assert (e ∈ tasks_of s) as He by (rewrite Hl; set_solver).
    apply list_elem_of_lookup_1 in Hx as [i Hi]. apply list_elem_of_lookup_1 in He as [j Hj].
    assert (i = j) as ->; [|congruence]. apply (NoDup_lookup _ _ _ t Hn); rewrite list_lookup_fmap;
      [by rewrite Hi; cbn; rewrite <-E|by rewrite Hj; cbn; rewrite Ht]. }
  destruct (match ex_state e with Failed | Cancelled => true | _ => false end) eqn:Hfail.
  - destruct (skip_downstream_exact sd (tasks_of s) Hn t s eq_refl) as (skipped & s' & Hs & HF & _).
    assert (flowing s') as Hs'.
    { split; [by rewrite (skipped_if_ids _ _ _ HF)|]. by eapply skip_unblocked. }
    unfold sbind at 1. rewrite Hs. match goal with |- flowing (?m s').2 => assert (quiet m) as Hq end.
    { apply quiet_for_each. intros x. apply quiet_bind; [apply quiet_get_run|]. intros. apply quiet_completed. }
    destruct (Hq s') as [_ Ht]. destruct Hs' as [H1 H2]. split; by rewrite Ht.
  - cbn [sret snd]. destruct Hst as [Hf|(e' & [= <-] & Hns)]; [done|]. apply Hopen. by destruct (ex_state e).
Qed.

(** ** Results *)

(** States a report leaves a task in. *)
Definition settled (st : TaskState) : bool :=
  match st with Succeeded | Failed | RetryWait | Cancelled => true | _ => false end.

(** An operation that settles task [t], or fails and leaves the states alone. *)
Definition reports {A} (t : TaskId) (m : sched A) : Prop := forall s,
  (tasks_of (m s).2 = tasks_of s /\ exists err, (m s).1 = Err err) \/
  exists l1 e l2 e', tasks_of s = l1 ++ e :: l2 /\ tasks_of (m s).2 = l1 ++ e' :: l2 /\
    ex_task_id e = t /\ ex_task_id e' = t /\ (t ∉ ex_task_id <$> l1) /\
    match (m s).1 with Ok _ => settled (ex_state e') = true | Err _ => ex_state e' = ex_state e end.

Lemma with_task_reports {A B} t (f : (N -> DateTime) -> TaskExecution -> fresult A * TaskExecution) (k : A -> sched B) :
  (forall now e, ex_task_id (f now e).2 = ex_task_id e /\
     match (f now e).1 with Ok _ => settled (ex_state (f now e).2) = true | Err _ => ex_state (f now e).2 = ex_state e end) ->
  (forall a, quiet (k a)) -> reports t (sbind (with_task t f) k).
Proof.
  intros Hf Hk s. unfold sbind, with_task, update_task. set (now := fun j => clock (ss_reads s + j)).
  pose proof (update_first_spec t (f now) (tasks_of s)) as Hu.
  destruct (update_first t (f now) (tasks_of s)) as [[r l']|]; [|left; split; [done|by eexists]]. right.
  destruct Hu as (l1 & e & l2 & Hl & Ht & Hn & -> & ->). exists l1, e, l2, (f now e).2.
  destruct (Hf now e) as [Hid Hst]. destruct ((f now e).1) as [a|err]; cbn [fst snd].
  - match goal with |- context [k a ?x] => destruct (Hk a x) as [[b ->] ->] end.
    split_and!; try done. by rewrite Hid.
  - split_and!; try done. by rewrite Hid.
Qed.

Lemma get_run_reports {A} t (k : Run -> sched A) : (forall run, reports t (k run)) -> reports t (sbind get_run k).
Proof. intros Hk s. exact (Hk (ss_run s) s). Qed.

(** The result of a transition, seen through [transition_to]. *)
Lemma transition_to_settles {A} now target e (a : TaskExecution -> A) :
  settled target = true ->
  let r := match transition_to now target e with (Err err, e') => (Err err, e') | (Ok _, e') => (Ok (a e'), e') end in
  ex_task_id r.2 = ex_task_id e /\
  match r.1 : fresult A with Ok _ => settled (ex_state r.2) = true | Err _ => ex_state r.2 = ex_state e end.
Proof.
  intros Ht. pose proof (transition_to_spec now target e) as Hs.
  destruct (transition_to now target e) as [[u|err] e'] eqn:E; cbn; [|by destruct Hs as [-> _]].
  destruct Hs as [-> _]. split; [|done]. unfold transition_to in E.
  destruct (negb _); [done|]. injection E as _ <-. unfold completed. by destruct target; repeat case_match.
Qed.

Lemma record_success_reports t out : reports t (record_task_success t out).
Proof.
  apply with_task_reports.
  - intros now e. exact (transition_to_settles (now 0%N) Succeeded (e <| ex_error := None |> <| ex_output := Some out |>)
      (fun _ => ex_attempt e) eq_refl).
  - intros a. apply quiet_bind; [apply quiet_get_run|]. intros run.
    apply quiet_bind; [apply quiet_emit|]. intros []. apply quiet_completed.
Qed.

Lemma record_cancelled_reports t : reports t (record_task_cancelled t).
Proof.
  apply with_task_reports.
  - intros now e. exact (transition_to_settles (now 0%N) Cancelled e (fun _ => ex_attempt e) eq_refl).
  - intros a. apply quiet_completed.
Qed.

Lemma record_failure_reports t err : reports t (record_task_failure sd t err).
Proof.
  apply get_run_reports. intros run. apply with_task_reports.
  - intros now e. unfold fail.
    pose proof (transition_to_settles (now 0%N) Failed (e <| ex_error := Some err |> <| ex_output := None |>)
      (fun _ => tt) eq_refl) as H1. cbn in H1.
    pose proof (transition_to_spec (now 0%N) Failed (e <| ex_error := Some err |> <| ex_output := None |>)) as H0.
    destruct (transition_to _ Failed _) as [[u|e1] x]; [destruct H0 as [Hx _]|done].
    destruct (rp_enabled _ && er_retryable err && can_retry x) eqn:Hretry; [|done].
    pose proof (transition_to_settles (now 2%N) RetryWait x (fun _ => tt) eq_refl) as H2. cbn in H2.
    pose proof (transition_to_spec (now 2%N) RetryWait x) as H3.
    destruct (transition_to _ RetryWait x) as [[u'|e2] y]; cbn in *.
    + destruct H1 as [E1 _], H2 as [E2 Hst]. split; [by transitivity (ex_task_id x)|exact Hst].
    + destruct H3 as [_ H3]. by rewrite Hx in H3.
  - intros [a retry]. apply quiet_bind; [apply quiet_emit|]. intros [].
    apply quiet_bind; [apply quiet_completed|]. intros []. destruct retry as [[at_ b]|]; [apply quiet_emit|apply quiet_ret].
Qed.

Lemma reports_flowing {A B} t (m : sched A) (k : A -> sched B) s :
  reports t m ->
  (forall a s', ex_task_id <$> tasks_of s' = sp_task_id <$> pl_tasks plan -> unblocked (eq t) (tasks_of s') ->
     (exists e, get_task (ss_run s') t = Some e /\ ex_state e <> Skipped) -> flowing (k a s').2) ->
  flowing s -> flowing (sbind m k s).2.
Proof.
  intros Hm Hk Hs. pose proof Hs as [Hids Hun]. unfold sbind. specialize (Hm s).
  destruct (m s) as [[a|err] s']; cbn [fst snd] in Hm |- *; last first.
  { destruct Hm as [[Ht _]|(l1 & e & l2 & e' & Hl & Hl' & Hid & Hid' & _ & Hst)]; [split; by rewrite Ht|].
    assert (flowing (set_tasks s (l1 ++ e' :: l2))) as [H1 H2]
      by (eapply flowing_replace; [done|done|by rewrite Hid'|by left]).
    split; by rewrite Hl'. }
  destruct Hm as [[_ [err ?]]|(l1 & e & l2 & e' & Hl & Hl' & Hid & Hid' & Hn & Hst)]; [done|].
  apply Hk; rewrite ?Hl'.
  - rewrite <-Hids, Hl, !fmap_app, !fmap_cons. by rewrite Hid, Hid'.
  - intros x u Hx Hu Hb Hne Hd.
    apply (elem_replace sd Hnd _ _ e) in Hx as [->|Hx]; [by rewrite Hid' in Hne|].
    apply (elem_replace sd Hnd _ _ e) in Hu as [->|Hu]; [by destruct (ex_state e')|].
    apply (Hun x u); [by rewrite Hl|by rewrite Hl|done|tauto|done].
  - exists e'. split; [|by destruct (ex_state e')]. apply get_task_split. eauto.
Qed.

Lemma record_result_flowing t r s : flowing s -> flowing (record_task_result sd t r s).2.
Proof.
  apply (reports_flowing t).
  - destruct r; [apply record_success_reports|apply record_failure_reports|apply record_cancelled_reports].
  - intros [] s' H1 H2 H3. apply process_completion_flowing; auto.
Qed.

(** ** Loops *)

Lemma collect_flowing f l s :
  (forall t s, flowing s -> flowing (f t s).2) -> flowing s -> flowing (collect_tasks f l s).2.
Proof.
  intros Hf. revert s. induction l as [|spec l IH]; intros s Hs; [done|]. cbn [collect_tasks]. unfold sbind.
  pose proof (Hf (sp_task_id spec) s Hs) as H1. destruct (f (sp_task_id spec) s) as [[b|err] s1]; [|done].
  pose proof (IH s1 H1) as H2. by destruct (collect_tasks f l s1) as [[rest|err] s2].
Qed.

Lemma process_stale_flowing now t s : flowing s -> flowing (process_stale_heartbeat sd now t s).2.
Proof.
  intros Hs. unfold process_stale_heartbeat, sbind at 1. cbn [get_run]. case_match; [done|].
  apply (reports_flowing t); [apply record_failure_reports| |done]. intros [] s' H1 H2 H3.
  assert (flowing (process_task_completion sd t s').2) as Hc by (apply process_completion_flowing; auto).
  unfold sbind. by destruct (process_task_completion sd t s') as [[u|err] s2].
Qed.

(** ** Cancellation *)

Lemma cancel_waiting_none reads l :
  let '(_, l', _) := cancel_waiting reads l in
  ex_task_id <$> l' = ex_task_id <$> l /\ forall e, e ∈ l' -> ex_state e <> Pending.
Proof.
  revert reads. induction l as [|e l IH]; intros reads; cbn [cancel_waiting]; [split; [done|set_solver]|].
  assert (forall e', ex_task_id e' = ex_task_id e -> ex_state e' <> Pending -> forall r,
    let '(_, l', _) := cancel_waiting r l in
    ex_task_id <$> e' :: l' = ex_task_id <$> e :: l /\ forall x, x ∈ e' :: l' -> ex_state x <> Pending) as Hcons.
  { intros e' Hid Hst r. specialize (IH r). destruct (cancel_waiting r l) as [[c l'] n]. destruct IH as [H1 H2].
    rewrite !fmap_cons, H1, Hid. split; [done|]. intros x [->|Hx]%elem_of_cons; [done|by apply H2]. }
  assert (settled Cancelled = true) as Hset by done.
  pose proof (transition_to_settles (clock reads) Cancelled e (fun _ => tt) Hset) as Hc. cbn in Hc.
  pose proof (transition_to_spec (clock reads) Cancelled e) as Hsp.
  unfold TaskExec.cancel. destruct (transition_to (clock reads) Cancelled e) as [r e1]; cbn [fst snd] in *.
  destruct (ex_state e) eqn:Hst.
  all: try (specialize (Hcons e eq_refl ltac:(by rewrite Hst) reads);
            destruct (cancel_waiting reads l) as [[c l'] n]; exact Hcons).
  all: destruct r as [u|err]; [|by destruct Hsp]; destruct Hc as [Hid _], Hsp as [Hs1 _];
       specialize (Hcons e1 Hid ltac:(by rewrite Hs1) (reads + 1)%N);
       destruct (cancel_waiting (reads + 1) l) as [[c l'] n]; exact Hcons.
Qed.

Lemma flowing_same s s' : tasks_of s' = tasks_of s -> flowing s -> flowing s'.
Proof. intros E [H1 H2]. split; by rewrite E. Qed.

Lemma with_run_tasks target s : tasks_of (with_run (fun now => run_transition_to now target) s).2 = tasks_of s.
Proof. unfold with_run, run_transition_to. destruct (negb _); [done|by destruct target]. Qed.

Lemma cancel_run_flowing s : flowing s -> flowing (cancel_run s).2.
Proof.
  intros Hs. unfold cancel_run, sbind at 1. cbn [get_run].
  match goal with |- flowing (sbind ?m _ s).2 => assert (tasks_of (m s).2 = tasks_of s) as H1;
    [|unfold sbind at 1; destruct (m s) as [[u|err] s1]; [|by apply (flowing_same s)]] end.
  { case_match; [done|]. apply with_run_tasks. }
  cbn [snd] in H1. unfold sbind at 1, cancel_tasks. pose proof (cancel_waiting_none (ss_reads s1) (tasks_of s1)) as Hc.
  destruct (cancel_waiting _ _) as [[cancelled l'] n]. destruct Hc as [Hids Hp].
  match goal with |- flowing (sbind ?m ?k ?x).2 => set (s2 := x); set (m2 := m); set (k2 := k) end.
  assert (flowing s2) as Hs2.
  { split; [etrans; [exact Hids|]; rewrite H1; apply Hs|]. intros e y _ Hy _ _ _. by apply Hp. }
  assert (quiet m2) as Hq by (apply quiet_for_each; intros; apply quiet_completed).
  unfold sbind. destruct (Hq s2) as [[a Ha] Ht]. destruct (m2 s2) as [r s3]. cbn [fst snd] in Ha, Ht. subst r.
  apply (flowing_same s2); [|done]. etrans; [|exact Ht]. unfold k2, sbind. cbn [get_run].
  case_match; [|done]. pose proof (with_run_tasks RunCancelled s3) as H3.
  destruct (with_run _ s3) as [[u'|err] s4]; exact H3.
Qed.

(** ** Progress *)

(** The task is with a queue, a worker or a timer. *)
Definition in_flight (st : TaskState) : bool :=
  match st with Queued | Dispatched | Running | RetryWait => true | _ => false end.

Lemma tasks_in_pos st run : 0 < tasks_in st run -> exists e, e ∈ ru_task_executions run /\ ex_state e = st.
Proof.
  unfold tasks_in. destruct (filter _ _) as [|e l] eqn:E; cbn; [lia|]. intros _. exists e.
  assert (e ∈ filter (fun e => ex_state e = st) (ru_task_executions run)) as He by (rewrite E; set_solver).
  apply list_elem_of_filter in He. tauto.
Qed.

Lemma ready_selected s t :
  0 < cf_max_parallelism (sd_config sd) -> t ∈ ready_tasks plan (ss_run s) ->
  (exists e, e ∈ tasks_of s /\ in_flight (ex_state e) = true) \/ get_ready_tasks sd (ss_run s) <> [].
Proof.
  intros Hmax Ht. unfold get_ready_tasks.
  destruct (Nat.eqb_spec (cf_max_parallelism (sd_config sd) - (tasks_running (ss_run s) + tasks_queued (ss_run s))) 0)
    as [H0|H0].
  - left. destruct (decide (0 < tasks_running (ss_run s))) as [Hr|Hr].
    + destruct (tasks_in_pos _ _ Hr) as (e & He & Hst). exists e. by rewrite Hst.
    + assert (0 < tasks_queued (ss_run s)) as Hq by lia. destruct (tasks_in_pos _ _ Hq) as (e & He & Hst).
      exists e. by rewrite Hst.
  - right. pose proof Ht as (e & spec & _ & _ & _ & Hs & Hid & _)%(elem_of_ready_tasks sd harmless Hnd).
    assert (spec ∈ sort_by (ready_before plan) (omap (plan_task plan) (ready_tasks plan (ss_run s)))) as Hin.
    { rewrite sort_by_perm. apply list_elem_of_omap. exists t. split; [done|].
      by apply (plan_task_spec sd harmless Hnd). }
    destruct (sort_by _ _); [by apply not_elem_of_nil in Hin|]. destruct (_ - _); [done|]. done.
Qed.

Lemma flowing_progress s :
  (forall l1 t l2, pl_tasks plan = l1 ++ t :: l2 -> forall dep, dep ∈ sp_upstream_task_ids t -> dep ∈ sp_task_id <$> l1) ->
  0 < cf_max_parallelism (sd_config sd) -> sinv sd s [] -> flowing s ->
  all_tasks_terminal (ss_run s) = true \/
  (exists e, e ∈ tasks_of s /\ in_flight (ex_state e) = true) \/ get_ready_tasks sd (ss_run s) <> [].
Proof.
  intros Horder Hmax Hi Hf.
  destruct (list_find (fun e => exec_is_terminal e = false) (tasks_of s)) as [[i e]|] eqn:Hfind; last first.
  { left. apply forallb_forall. intros e He%list_elem_of_In. apply list_find_None in Hfind.
    rewrite Forall_forall in Hfind. specialize (Hfind e He). by destruct (exec_is_terminal e). }
  right. apply list_find_Some in Hfind as (Hlook & Hnt & Hbefore).
  assert (e ∈ tasks_of s) as He by by eapply list_elem_of_lookup_2.
  destruct (in_flight (ex_state e)) eqn:Hfl; [by eauto|].
  assert (exists spec, pl_tasks plan !! i = Some spec /\ sp_task_id spec = ex_task_id e) as (spec & Hspec & Hid).
  { assert ((ex_task_id <$> tasks_of s) !! i = Some (ex_task_id e)) as E by by rewrite list_lookup_fmap, Hlook.
    rewrite (si_ids _ _ _ Hi), list_lookup_fmap in E. destruct (pl_tasks plan !! i) as [spec|]; [|done].
    exists spec. split; [done|]. by injection E. }
  assert (forall dep, dep ∈ sp_upstream_task_ids spec -> exists d, d ∈ tasks_of s /\ ex_task_id d = dep /\
    exec_is_terminal d = true) as Hdeps.
  { intros dep Hdep. rewrite <-(take_drop_middle _ _ _ Hspec) in Horder.
    specialize (Horder _ _ _ eq_refl dep Hdep). rewrite fmap_take, <-(si_ids _ _ _ Hi) in Horder.
    apply list_elem_of_lookup_1 in Horder as [j Hj]. apply lookup_take_Some in Hj as [Hj Hlt].
    rewrite list_lookup_fmap in Hj. destruct (tasks_of s !! j) as [d|] eqn:Hd; [|done]. injection Hj as <-.
    exists d. split_and!; [by eapply list_elem_of_lookup_2|done|].
    specialize (Hbefore j d Hd Hlt). by destruct (exec_is_terminal d). }
  assert (spec ∈ pl_tasks plan) as Hin by by eapply list_elem_of_lookup_2.
  apply (ready_selected s (ex_task_id e) Hmax), (elem_of_ready_tasks sd harmless Hnd). exists e, spec.
  assert (ex_state e = Pending \/ ex_state e = Ready) as Hw.
  { pose proof (si_planned _ _ _ Hi e He) as Hp. unfold exec_is_terminal in Hnt. destruct (ex_state e); auto; done. }
  split_and!; [done|done|by destruct Hw as [->| ->]|done|done|].
  apply (dependencies_met_spec sd harmless Hnd). intros dep Hdep.
  assert (exists d, d ∈ tasks_of s /\ ex_task_id d = dep /\ ex_state d = Succeeded) as (d & Hd & Hdid & Hst).
  { destruct Hw as [Hw|Hw]; [|by apply (si_deps _ _ _ Hi e He ltac:(by rewrite Hw) spec dep)].
    destruct (Hdeps dep Hdep) as (d & Hd & Hdid & Hterm). exists d. split_and!; [done|done|].
    destruct (blocking (ex_state d)) eqn:Hb; [exfalso|unfold exec_is_terminal in Hterm; by destruct (ex_state d)].
    apply (fl_unblocked _ Hf d e); [done..|tauto| |done]. exists spec. split_and!; [done|done|by rewrite Hdid]. }
  exists d. split; [|done]. apply get_task_split. apply list_elem_of_split in Hd as (k1 & k2 & Hk).
  exists k1, k2. split_and!; [done|done|]. pose proof (flowing_nodup _ Hf) as Hn. rewrite Hk, fmap_app, fmap_cons in Hn.
  apply NoDup_app in Hn as (_ & Hdis & _). intros Hk1. apply (Hdis _ Hk1). rewrite Hdid. set_solver.
Qed.
End Progress.
