(* ===== verification/SchedulerProps.v ===== *)
(** What the scheduler guarantees of every run of a plan. *)

From S2P Require Import Prelude Sample Storage Events Dag DagProps DagCycle Canonical Plan PlanProps Quota TaskExec Run TaskQueue Scheduler SchedulerMachine SchedulerSteps SchedulerInvariant SchedulerProgress.
From stdpp Require Import relations options.

(** ** Reachable states *)

(** The public operations, whatever they are given and whatever they return.  A run is
    completed with a terminal state. *)
Inductive op_step `{Display N, Hashes, Supply} (sd : Scheduler) : SchedState -> SchedState -> Prop :=
  | op_start_run s : op_step sd s (start_run s).2
  | op_queue_task s t : op_step sd s (queue_task sd t s).2
  | op_start_task s t w : op_step sd s (start_task t w s).2
  | op_result s t r : op_step sd s (record_task_result sd t r s).2
  | op_completion s t : op_step sd s (process_task_completion sd t s).2
  | op_maybe_complete s : op_step sd s (maybe_complete_run s).2
  | op_complete s st : run_state_is_terminal st = true -> op_step sd s (complete_run st s).2
  | op_cancel_run s : op_step sd s (cancel_run s).2
  | op_retries s now : op_step sd s (process_retries_at sd now s).2
  | op_heartbeat s t now : op_step sd s (record_task_heartbeat_at t now s).2
  | op_stale s now : op_step sd s (process_stale_heartbeats_at sd now s).2
  | op_dispatch Q M (HQ : TaskQueue Q) (HM : QuotaManager M) s (q : Q) (m : M) :
      op_step sd s (ds_sched (dispatch_ready_tasks sd s q m).2).

Definition sched_reachable `{Display N, Hashes, Supply} (sd : Scheduler) (s : SchedState) : Prop :=
  exists run_id trigger reads, rtc (op_step sd) (create_run sd run_id trigger [] reads) s.

(** What the scheduler needs of its plan, and [build] provides. *)
Record plan_sound (p : Plan) : Prop := {
  ps_ids : NoDup (sp_task_id <$> pl_tasks p);
  ps_order : forall l1 t l2, pl_tasks p = l1 ++ t :: l2 ->
    forall dep, dep ∈ sp_upstream_task_ids t -> dep ∈ sp_task_id <$> l1
}.

Lemma plan_ok_sound `{HB : Base64} tasks p : acceptable tasks -> plan_ok tasks p -> plan_sound p.
Proof.
  intros Hac Hok. split; [|apply Hok]. destruct (po_tasks _ _ Hok) as [stage Hp]. rewrite Hp.
  rewrite <-list_fmap_compose. apply (ac_ids _ Hac).
Qed.

(** ** The invariant holds *)

Section Reachable.
Context `{HD : Display N} `{HH : Hashes} `{HS : Supply} (sd : Scheduler).
Abbreviation plan := (sd_plan sd).
Context (Hnd : NoDup (sp_task_id <$> pl_tasks plan)).
#[local] Set Default Proof Using "All".
Abbreviation tasks_of s := (ru_task_executions (ss_run s)).

Lemma op_step_gsteps s s' :
  op_step sd s s' -> exists pend, gsteps plan (fun _ => True) (s, []) (s', pend).
Proof.
  intros Hop.
  assert (forall A (m : sched A), takes_steps plan (fun _ => True) m s [] (fun _ _ p => p = []) ->
    exists pend, gsteps plan (fun _ => True) (s, []) ((m s).2, pend)) as H by (intros A m (p & Hp & _); eauto).
  destruct Hop as [s|s t|s t w|s t r|s t|s|s st Hst|s|s now|s t now|s now|Q M HQ HM s q m].
  - apply H, start_run_steps. exact Hnd.
  - by apply H, queue_task_steps.
  - by apply H, (start_task_steps sd).
  - by apply H, record_task_result_steps.
  - by apply H, process_task_completion_steps.
  - apply H, (maybe_complete_run_steps sd). exact Hnd.
  - by apply H, (complete_run_steps sd).
  - by apply H, (cancel_run_steps sd).
  - by apply H, process_retries_steps.
  - by apply H, (record_heartbeat_steps sd).
  - by apply H, process_stale_steps.
  - by apply dispatch_ready_tasks_steps.
Qed.

Lemma sinv_created run_id trigger reads : sinv sd (create_run sd run_id trigger [] reads) [].
Proof.
  assert (forall e, e ∈ execution_of <$> pl_tasks plan -> exists t, e = execution_of t) as Hex.
  { intros e (t & -> & _)%list_elem_of_fmap. by eexists. }
  split; cbn.
  - rewrite <-list_fmap_compose. by apply list_fmap_ext.
  - by intros e [t ->]%Hex.
  - by intros e [t ->]%Hex.
  - by intros e [t ->]%Hex.
  - by intros e [t ->]%Hex.
  - by intros e [t ->]%Hex.
  - apply NoDup_singleton.
  - intros i ->%list_elem_of_singleton. split; [done|]. by intros r [= <-].
  - intros [|j] ev Hj; [|done]. by injection Hj as <-.
  - by intros ev ->%list_elem_of_singleton.
  - done.
Qed.

Lemma reachable_sinv s : sched_reachable sd s -> sinv sd s [].
Proof.
  intros (run_id & trigger & reads & Hs). pose proof (sinv_created run_id trigger reads) as H0.
  induction Hs as [|s s1 s2 Hop _ IH] in H0 |- *; [done|]. apply IH.
  destruct (op_step_gsteps _ _ Hop) as [pend Hg].
  assert (gsteps plan (fun _ => True) (s, []) (s1, [])) as Hg' by (eapply rtc_r; [exact Hg|apply g_drop]).
  by eapply sinv_gsteps.
Qed.

(** Every operation keeps a run flowing. *)
Lemma op_step_flowing s s' :
  cf_continue_on_failure (sd_config sd) = true -> op_step sd s s' -> flowing sd s -> flowing sd s'.
Proof.
  intros Hcont Hop Hf.
  assert (forall st, blocking st = false -> st <> Pending -> harmless st) as Hal by done.
  assert (forall A (m : sched A), takes_steps plan harmless m s [] (fun _ _ p => p = []) -> flowing sd (m s).2) as H.
  { intros A m Hm. by eapply (flowing_takes sd). }
  destruct Hop as [s|s t|s t w|s t r|s t|s|s st Hst|s|s now|s t now|s now|Q M HQ HM s q m].
  - apply H, start_run_steps. exact Hnd.
  - by apply H, queue_task_steps.
  - by apply H, (start_task_steps sd).
  - by apply record_result_flowing.
  - apply process_completion_flowing; [done|done|apply Hf| |by left].
    intros e u He Hu Hb _. apply (fl_unblocked _ _ Hf e u He Hu Hb). tauto.
  - apply H, (maybe_complete_run_steps sd). exact Hnd.
  - by apply H, (complete_run_steps sd).
  - by apply cancel_run_flowing.
  - by apply H, process_retries_steps.
  - by apply H, (record_heartbeat_steps sd).
  - apply (collect_flowing sd); [done|done| |done]. intros t s1 Hs1. by apply process_stale_flowing.
  - destruct (dispatch_ready_tasks_steps sd harmless Hnd) with (s := s) (q := q) (m := m) as [pend Hg]; [done..|].
    by eapply (flowing_gsteps sd).
Qed.

Lemma reachable_flowing s :
  cf_continue_on_failure (sd_config sd) = true -> sched_reachable sd s -> flowing sd s.
Proof.
  intros Hcont (run_id & trigger & reads & Hs).
  assert (flowing sd (create_run sd run_id trigger [] reads)) as H0.
  { split; cbn.
    - rewrite <-list_fmap_compose. by apply list_fmap_ext.
    - intros e u (t & -> & _)%list_elem_of_fmap _ Hb. done. }
  induction Hs as [|s s1 s2 Hop _ IH] in H0 |- *; [done|]. apply IH. by eapply op_step_flowing.
Qed.
End Reachable.

(** ** Keys of events *)

(** ULIDs are printed one to one, without a colon. *)
Class DisplayLaws `{Display N} := {
  display_inj : forall x y : N, to_string x = to_string y -> x = y;
  display_colon : forall x : N, str_contains ":" (to_string x) = false
}.

Section Keys.
Context `{HD : Display N} `{HDL : !DisplayLaws}.
#[local] Set Default Proof Using "All".

(** The segments of the key of a lifecycle event. *)
Definition key_segments (d : ExecutionEventData) : list string :=
  match d with
  | RunCreated r _ _ _ => ["run_created"; to_string r]
  | RunStarted r _ => ["run_started"; to_string r]
  | RunCompleted r _ _ _ _ _ => ["run_completed"; to_string r]
  | TaskQueued r t a => ["task_queued"; to_string r; to_string t; pretty a]
  | TaskDispatched r t a _ => ["task_dispatched"; to_string r; to_string t; pretty a]
  | TaskStarted r t a _ => ["task_started"; to_string r; to_string t; pretty a]
  | TaskCompleted r t st a =>
      ["task_completed"; to_string r; to_string t; pretty a; task_state_string st]
  | TaskFailed r t _ a => ["task_failed"; to_string r; to_string t; pretty a]
  | TaskRetryScheduled r t a _ _ => ["task_retry_scheduled"; to_string r; to_string t; pretty a]
  | TaskRetried r t a a' => ["task_retried"; to_string r; to_string t; pretty a; pretty a']
  | _ => []
  end.

Lemma attempt_key_split kind r t a :
  str_contains ":" kind = false ->
  split_on ":" (attempt_key kind r t a) = [kind; to_string r; to_string t; pretty a] /\
  forall rest, split_on ":" (attempt_key kind r t a +:+ String ":" rest) =
    [kind; to_string r; to_string t; pretty a] ++ split_on ":" rest.
Proof.
  intros Hk. unfold attempt_key. split; [|intros rest; rewrite !str_app_assoc];
    rewrite !str_app_cons, !str_app_nil; rewrite !(split_on_app ":") by (done || apply display_colon || apply pretty_N_no_char; done);
    rewrite ?split_on_no_sep by (apply pretty_N_no_char; done); done.
Qed.

Lemma key_split d i :
  event_ident d = Some i -> exists key, data_idempotency_key d = Some key /\ split_on ":" key = key_segments d.
Proof.
  assert (forall kind r, str_contains ":" kind = false ->
    split_on ":" (kind +:+ String ":" (to_string r)) = [kind; to_string r]) as Hrun.
  { intros kind r Hk. rewrite split_on_app, split_on_no_sep by (done || apply display_colon). done. }
  destruct d as [r ? ? ?|r ?|r ? ? ? ? ?|r t a|r t a ?|r t a ?|r t st a|r t ? ? ?|r t ? a|r t a ? ?|r t a a'|r t a|r t ?];
    cbn; intros Hi; try done; eexists; (split; [done|]).
  - exact (Hrun "run_created" r eq_refl).
  - exact (Hrun "run_started" r eq_refl).
  - exact (Hrun "run_completed" r eq_refl).
  - by apply attempt_key_split.
  - by apply attempt_key_split.
  - by apply attempt_key_split.
  - rewrite str_app_cons, str_app_nil, (proj2 (attempt_key_split "task_completed" r t a eq_refl)).
    by destruct st.
  - by apply attempt_key_split.
  - by apply attempt_key_split.
  - rewrite str_app_cons, str_app_nil, (proj2 (attempt_key_split "task_retried" r t a eq_refl)).
    by rewrite split_on_no_sep by (by apply pretty_N_no_char).
Qed.

(** Events with the same key announce the same thing. *)
Lemma key_ident d d' i i' :
  event_ident d = Some i -> event_ident d' = Some i' ->
  data_idempotency_key d = data_idempotency_key d' -> i = i'.
Proof.
  intros Hi Hi' E. destruct (key_split d i Hi) as (k & Hk & Hs), (key_split d' i' Hi') as (k' & Hk' & Hs').
  assert (k = k') as <- by congruence. rewrite Hs in Hs'. clear Hk Hk' Hs E.
  assert (forall a b : N, pretty a = pretty b -> a = b) as Hp by (intros; by apply (inj pretty)).
  pose proof display_inj as Hd.
  destruct d, d'; cbn in Hi, Hi', Hs'; simplify_eq; try done;
    repeat match goal with
    | H : to_string _ = to_string _ |- _ => apply Hd in H
    | H : pretty _ = pretty _ |- _ => apply Hp in H
    end; subst; try done.
  f_equal. match goal with H : task_state_string ?a = task_state_string ?b |- _ => by destruct a, b end.
Qed.
End Keys.

Lemma omap_nodup_lookup {A B} (f : A -> option B) l j j' x y b :
  NoDup (omap f l) -> l !! j = Some x -> l !! j' = Some y -> f x = Some b -> f y = Some b -> j = j'.
Proof.
  revert j j'. induction l as [|z l IH]; intros j j' Hn Hj Hj' Hx Hy; [done|]. cbn in Hn.
  assert (forall k w, l !! k = Some w -> f w = Some b -> b ∈ omap f l) as Hin.
  { intros k w Hk Hw. apply list_elem_of_omap. exists w. split; [by eapply list_elem_of_lookup_2|done]. }
  destruct j as [|j], j' as [|j']; cbn in *; simplify_eq; [done|..].
  - rewrite Hx in Hn. apply NoDup_cons in Hn as [Hn _]. exfalso. by eapply Hn, Hin.
  - rewrite Hy in Hn. apply NoDup_cons in Hn as [Hn _]. exfalso. by eapply Hn, Hin.
  - f_equal. apply IH; try done. destruct (f z); [by apply NoDup_cons in Hn as [_ ?]|done].
Qed.

(** ** Claims *)

Section Claims.
Context `{HB : Base64} `{HG : DiGraph N} `{!DiGraphLaws N} `{HD : Display N}
        `{HJ : JsonString} `{HH : Hashes} `{HS : Supply}.
#[local] Set Default Proof Using "All".

Lemma build_sound b plan_id now p : build b plan_id now = Ok p -> plan_sound p.
Proof.
  intros Hb. pose proof (build_spec b plan_id now) as H. rewrite Hb in H. destruct H as [Hac Hok].
  by eapply plan_ok_sound.
Qed.
End Claims.

(** C11: no task runs before the tasks it depends on.  Take a plan [build] returns, any
    configuration and any sequence of operations of the scheduler on a run of it: runs
    started, completed or cancelled, tasks queued, started, reported, retried, found
    stale, dispatched through any queue and any quota manager, in any order, whether
    each succeeds or fails.  Then the run still has the tasks of the plan in its order;
    a task that is or was ready in its current attempt (from READY to SUCCEEDED, FAILED
    or RETRY_WAIT) has only dependencies that succeeded; and every task is in one of its
    three attempts. *)
Theorem scheduler_respects_dependencies `{HB : Base64} `{HG : DiGraph N} `{!DiGraphLaws N} `{HD : Display N}
    `{HJ : JsonString} `{HH : Hashes} `{HS : Supply}
    (b : PlanBuilder) (plan_id : string) (now : DateTime) (p : Plan) (config : SchedulerConfig) (s : SchedState) :
  build b plan_id now = Ok p -> sched_reachable (with_config p config) s ->
  ex_task_id <$> ru_task_executions (ss_run s) = sp_task_id <$> pl_tasks p /\
  forall e, e ∈ ru_task_executions (ss_run s) ->
    (1 <= ex_attempt e <= 3)%N /\
    (advanced (ex_state e) = true ->
     forall spec dep, spec ∈ pl_tasks p -> sp_task_id spec = ex_task_id e -> dep ∈ sp_upstream_task_ids spec ->
       exists d, get_task (ss_run s) dep = Some d /\ ex_state d = Succeeded).
Proof.
  intros [Hnd _]%build_sound Hr. pose proof (reachable_sinv (with_config p config) Hnd s Hr) as Hi.
  split; [apply Hi|]. intros e He. split; [by apply (si_attempt _ _ _ Hi)|]. intros Hadv spec dep Hspec Hid Hdep.
  destruct (si_deps _ _ _ Hi e He Hadv spec dep Hspec Hid Hdep) as (d & Hd & Hdid & Hst). exists d. split; [|done].
  apply list_elem_of_split in Hd as (l1 & l2 & Hl). apply get_task_split. exists l1, l2. split_and!; [done|done|].
  pose proof (sinv_tasks_nodup (with_config p config) Hnd _ _ Hi) as Hn.
  rewrite Hl, fmap_app, fmap_cons, Hdid in Hn. apply NoDup_app in Hn as (_ & Hdis & _). intros H1. apply (Hdis _ H1). set_solver.
Qed.


(** C22: a failure skips exactly what depends on it.  On a run of the tasks of a plan,
    [skip_downstream_tasks] returns, within its bound of turns; the tasks that become
    SKIPPED are the PENDING tasks that depend on the given task directly or through
    other tasks, it returns their ids, each once, and no other task changes; nothing is
    emitted. *)
Theorem skip_downstream_correct `{HD : Display N} `{HH : Hashes} `{HS : Supply} (sd : Scheduler) (failed : TaskId) (s : SchedState) :
  NoDup (ex_task_id <$> ru_task_executions (ss_run s)) ->
  let below t := tc (depends (pl_tasks (sd_plan sd))) failed t in
  exists skipped s', skip_downstream_tasks sd failed s = (Ok skipped, s') /\
    Forall2 (skipped_if below) (ru_task_executions (ss_run s)) (ru_task_executions (ss_run s')) /\
    ss_outbox s' = ss_outbox s /\ NoDup skipped /\
    forall t, t ∈ skipped <-> below t /\
      exists e, e ∈ ru_task_executions (ss_run s) /\ ex_task_id e = t /\ ex_state e = Pending.
Proof. intros Hn below. by apply skip_downstream_exact. Qed.

(** the events of a run are numbered and told once.  In every state the operations
    reach from a new run, the events of the sink carry the sequence numbers 1, 2, 3 and
    so on (up to the largest [u64]) in order; two lifecycle events (of runs and tasks:
    all but outputs, heartbeats and metrics) with the same idempotency key are the same
    event: no transition is announced twice. *)
Theorem scheduler_events_once `{HB : Base64} `{HG : DiGraph N} `{!DiGraphLaws N} `{HD : Display N} `{!DisplayLaws}
    `{HJ : JsonString} `{HH : Hashes} `{HS : Supply}
    (b : PlanBuilder) (plan_id : string) (now : DateTime) (p : Plan) (config : SchedulerConfig) (s : SchedState) :
  build b plan_id now = Ok p -> sched_reachable (with_config p config) s ->
  (forall j ev, ss_outbox s !! j = Some ev -> en_sequence ev = Some (N.min (N.of_nat j + 1) u64_max)) /\
  (forall j j' ev ev' i i', ss_outbox s !! j = Some ev -> ss_outbox s !! j' = Some ev' ->
     event_ident (en_data ev) = Some i -> event_ident (en_data ev') = Some i' ->
     en_idempotency_key ev = en_idempotency_key ev' -> j = j').
Proof.
  intros [Hnd _]%build_sound Hr. pose proof (reachable_sinv (with_config p config) Hnd s Hr) as Hi.
  split; [apply (si_sequence _ _ _ Hi)|]. intros j j' ev ev' i i' Hj Hj' Hd Hd' Hkey.
  pose proof (si_nodup _ _ _ Hi) as Hn. rewrite app_nil_r in Hn.
  rewrite (si_keys _ _ _ Hi ev), (si_keys _ _ _ Hi ev') in Hkey by by eapply list_elem_of_lookup_2.
  destruct (key_split _ _ Hd) as (k & Hk & _), (key_split _ _ Hd') as (k' & Hk' & _).
  assert (i = i') as <-.
  { apply (key_ident _ _ _ _ Hd Hd'). rewrite Hk, Hk'. rewrite Hk, Hk' in Hkey. simpl in Hkey. by subst. }
  by eapply (omap_nodup_lookup _ _ _ _ _ _ _ Hn Hj Hj').
Qed.

(** ** A run *)

Import PlanSample.

Module SchedSample.
#[export] Instance sample_supply : Supply := {| clock n := (Z.of_N n * 1000000000)%Z; ulid n := pretty n |}.

#[export] Instance sample_display : DisplayLaws.
Proof.
  split.
  - intros x y H. by apply (inj pretty).
  - intros x. by apply pretty_N_no_char.
Qed.

Definition plan : Plan :=
  match build diamond "plan" 0 with Ok p => p | Err _ => mkPlan "" "" "" 0 0 "" "" [] [] end.
Definition sd : Scheduler := scheduler_new plan.

(** The source is dispatched through the queue in memory and started. *)
Abbreviation created :=
  (create_run sd 77 (trigger_manual "me" 0) [] 0) (only parsing).
Abbreviation started :=
  ((start_run created).2) (only parsing).
Definition quotas : InMemoryQuotaManager := with_default_quota (mkTenantQuota 5 1).
Abbreviation dispatched_source :=
  (ds_sched (dispatch_ready_tasks sd started (memory_queue_new "q") quotas).2) (only parsing).
Abbreviation running :=
  ((start_task 1 "worker" dispatched_source).2) (only parsing).

(** It fails in user code: everything behind it is skipped. *)
Abbreviation failed :=
  ((record_task_result sd 1 (ResultFailed (task_error_new CatUserCode "bad")) running).2) (only parsing).
(** It times out: it will be retried. *)
Abbreviation stale :=
  ((process_stale_heartbeats_at sd 1000000000000 running).2) (only parsing).
Abbreviation retried :=
  ((process_retries_at sd 9000000000000 stale).2) (only parsing).

Definition states (s : SchedState) : list (TaskId * TaskState * u32) :=
  (fun e => (ex_task_id e, ex_state e, ex_attempt e)) <$> ru_task_executions (ss_run s).

(** The run up to the start of the source. *)
Lemma running_reachable : sched_reachable sd running.
Proof.
  exists 77%N, (trigger_manual "me" 0), 0%N.
  refine (rtc_l _ created started _ (op_start_run sd created) _).
  refine (rtc_l _ started dispatched_source _
    (op_dispatch sd _ _ memory_task_queue memory_quota_manager started (memory_queue_new "q") quotas) _).
  exact (rtc_once _ _ (op_start_task sd dispatched_source 1 "worker")).
Qed.

Lemma reachable_step s s' : sched_reachable sd s -> op_step sd s s' -> sched_reachable sd s'.
Proof. intros (r & t & n & Hs) Hop. exists r, t, n. by eapply rtc_r. Qed.

Lemma failed_reachable : sched_reachable sd failed.
Proof.
  exact (reachable_step running failed running_reachable
    (op_result sd running 1 (ResultFailed (task_error_new CatUserCode "bad")))).
Qed.

Lemma retried_reachable : sched_reachable sd retried.
Proof.
  refine (reachable_step stale retried _ (op_retries sd stale 9000000000000)).
  exact (reachable_step running stale running_reachable (op_stale sd running 1000000000000)).
Qed.

Lemma built : build diamond "plan" 0 = Ok plan.
Proof. vm_compute. reflexivity. Qed.
End SchedSample.
Import SchedSample.

Lemma scheduler_respects_dependencies_witness :
  states retried = [(1, Ready, 2); (2, Pending, 1); (3, Pending, 1); (4, Pending, 1)]%N /\
  ex_task_id <$> ru_task_executions (ss_run retried) = sp_task_id <$> pl_tasks SchedSample.plan.
Proof.
  split; [vm_compute; reflexivity|].
  exact (proj1 (scheduler_respects_dependencies diamond "plan" 0 _ scheduler_config_default retried
    SchedSample.built SchedSample.retried_reachable)).
Defined.


Lemma skip_downstream_correct_witness :
  states failed = [(1, Failed, 1); (2, Skipped, 1); (3, Skipped, 1); (4, Skipped, 1)]%N /\
  exists skipped s', skip_downstream_tasks sd 1 running = (Ok skipped, s') /\ NoDup skipped.
Proof.
  split; [vm_compute; reflexivity|].
  destruct (skip_downstream_correct sd 1 running) as (skipped & s' & H & _ & _ & Hn & _); [|eauto].
  apply (bool_decide_eq_true_1 (NoDup _)). vm_compute. reflexivity.
Defined.

Lemma scheduler_events_once_witness :
  en_idempotency_key <$> ss_outbox failed =
    ["run_created:77"; "run_started:77"; "task_queued:77:1:1"; "task_dispatched:77:1:1"; "task_started:77:1:1";
     "task_failed:77:1:1"; "task_completed:77:1:1:FAILED"; "task_completed:77:2:1:SKIPPED";
     "task_completed:77:3:1:SKIPPED"; "task_completed:77:4:1:SKIPPED"] /\
  forall j ev, ss_outbox failed !! j = Some ev -> en_sequence ev = Some (N.min (N.of_nat j + 1) u64_max).
Proof.
  split; [vm_compute; reflexivity|].
  exact (proj1 (scheduler_events_once diamond "plan" 0 _ scheduler_config_default failed
    SchedSample.built SchedSample.failed_reachable)).
Defined.

(** ** What the rules of the tables leave open *)

(** [succeed] overwrites the output and the error before the transition is checked: a
    success reported for a task that cannot take it fails, and the failure the task had
    is gone. *)
Lemma rejected_success_overwrites now out e :
  can_transition_to (ex_state e) Succeeded = false ->
  exists err, succeed now out e = (Err err, e <| ex_error := None |> <| ex_output := Some out |>).
Proof. intros H. unfold succeed, transition_to. cbn. rewrite H. by eexists. Qed.

Example late_success_clears_error :
  let '(r, s) := record_task_result sd 1 (ResultSucceeded (mkTaskOutput "m" [] 0 0)) failed in
  let e := get_task (ss_run s) 1 in
  (match r with Ok _ => false | Err _ => true end, ex_state <$> e, ex_error <$> e,
   ou_materialization_id <$> (e ≫= ex_output)) = (true, Some Failed, Some None, Some "m").
Proof. vm_compute. reflexivity. Qed.

(** A running run with a cancelled task cannot be completed: its final state would be
    CANCELLED, which RUNNING does not lead to. *)
Lemma cancelled_task_blocks_completion `{HD : Display N} `{HS : Supply} s :
  ru_state (ss_run s) = RunRunning -> all_tasks_terminal (ss_run s) = true -> 0 < tasks_cancelled (ss_run s) ->
  exists err, (maybe_complete_run s).1 = Err err.
Proof.
  intros Hst Ht Hc. unfold maybe_complete_run, sbind at 1. cbn [get_run]. unfold check_run_completion, compute_final_state.
  rewrite Ht. cbn [negb]. rewrite (proj2 (Nat.ltb_lt _ _) Hc). unfold complete_run, sbind, with_run, run_transition_to.
  rewrite Hst. cbn. by eexists.
Qed.

(** [cancel_run] leaves a task that waits for a retry; the run is CANCELLED, and the
    task is still retried and dispatched. *)
Example cancelled_run_dispatches :
  let cancelled := (cancel_run stale).2 in
  let later := (process_retries_at sd 9000000000000 cancelled).2 in
  (ru_state (ss_run cancelled), ex_state <$> get_task (ss_run cancelled) 1, sp_task_id <$> get_ready_tasks sd (ss_run later))
  = (RunCancelled, Some RetryWait, [1%N]).
Proof. vm_compute. reflexivity. Qed.
