(* ===== verification/TaskTokens.v ===== *)
(** Callback ids and task tokens: [crates/arco-worker-contract/src/lib.rs] and
    [crates/arco-core/src/task_tokens.rs].

    A worker addresses its callbacks by an opaque id of run and task, and authenticates
    them with a signed token scoped to one attempt.  Signing is the [jsonwebtoken]
    crate's, a parameter here. *)

From S2P Require Import Prelude Storage Scoped Canonical.
From stdpp Require Import options.

(** ** Callback ids *)

Definition CALLBACK_TASK_ID_PREFIX : string := "ct1_".

Record ParsedCallbackTaskId := mkParsedCallbackTaskId {
  pc_run_id : string;
  pc_task_key : string
}.

(** The message of a base64 error is left out. *)
Inductive CallbackTaskIdError :=
  | MissingPrefix
  | InvalidBase64
  | InvalidPayload
  | CallbackInvalidUtf8.

Definition nul : ascii := "000".

Section CallbackIds.
Context `{HB : Base64}.

Definition callback_task_id (run_id task_key : string) : string :=
  CALLBACK_TASK_ID_PREFIX +:+ b64_encode (run_id +:+ String nul task_key).

Definition parse_callback_task_id (task_id : string) : result CallbackTaskIdError ParsedCallbackTaskId :=
  match strip_prefix CALLBACK_TASK_ID_PREFIX task_id with
  | None => Err MissingPrefix
  | Some encoded =>
      match b64_decode encoded with
      | None => Err InvalidBase64
      | Some decoded =>
          match split_on nul decoded with
          | [run_id; task_key] =>
              if negb (utf8_valid run_id) then Err CallbackInvalidUtf8
              else if negb (utf8_valid task_key) then Err CallbackInvalidUtf8
              else if str_is_empty run_id || str_is_empty task_key then Err InvalidPayload
              else Ok (mkParsedCallbackTaskId run_id task_key)
          | _ => Err InvalidPayload
          end
      end
  end.
End CallbackIds.

(** ** Token configuration *)

Definition DEFAULT_TASK_TOKEN_TTL_SECONDS : u64 := 3600.
Definition TASK_TOKEN_CALLBACK_GRACE_SECONDS : u64 := 300.
Definition MAX_TASK_TOKEN_TTL_SECONDS : u64 := 86400.

Record TaskTokenConfig := mkTaskTokenConfig {
  tt_hs256_secret : string;
  tt_issuer : option string;
  tt_audience : option string;
  tt_ttl_seconds : u64
}.

Definition task_token_config_default : TaskTokenConfig :=
  mkTaskTokenConfig "" None None DEFAULT_TASK_TOKEN_TTL_SECONDS.

Definition byte_is (n : N) (c : ascii) : bool := byte_in n n c.

(** The encoding of a whitespace character of one, two or three bytes. *)
Definition white1 (a : ascii) : bool := byte_in 9 13 a || byte_is 32 a.
Definition white2 (a b : ascii) : bool := byte_is 194 a && (byte_is 133 b || byte_is 160 b).
Definition white3 (a b c : ascii) : bool :=
  (byte_is 225 a && byte_is 154 b && byte_is 128 c) ||
  (byte_is 226 a && byte_is 128 b && (byte_in 128 138 c || byte_is 168 c || byte_is 169 c || byte_is 175 c)) ||
  (byte_is 226 a && byte_is 129 b && byte_is 159 c) ||
  (byte_is 227 a && byte_is 128 b && byte_is 128 c).

(** [s.trim().is_empty()] *)
Fixpoint is_blank (s : string) : bool :=
  match s with
  | EmptyString => true
  | String a s1 =>
      if white1 a then is_blank s1
      else match s1 with
           | EmptyString => false
           | String b s2 =>
               if white2 a b then is_blank s2
               else match s2 with
                    | EmptyString => false
                    | String c s3 => white3 a b c && is_blank s3
                    end
           end
  end.

Definition token_ttl (config : TaskTokenConfig) : Z :=
  (Z.min (Z.of_N (tt_ttl_seconds config)) i64_max * 1000000000)%Z.

Definition is_configured (config : TaskTokenConfig) : bool := negb (is_blank (tt_hs256_secret config)).

Definition validate_config (config : TaskTokenConfig) : result Error unit :=
  if is_blank (tt_hs256_secret config) then Err (EInvalidInput "task_token.hs256_secret is required")
  else if (tt_ttl_seconds config =? 0)%N then
    Err (EInvalidInput "task_token.ttl_seconds must be greater than zero")
  else if (MAX_TASK_TOKEN_TTL_SECONDS <? tt_ttl_seconds config)%N then
    Err (EInvalidInput ("task_token.ttl_seconds must be at most " +:+ pretty MAX_TASK_TOKEN_TTL_SECONDS))
  else Ok tt.

(** [value.is_none_or(|v| v.trim().is_empty())] *)
Definition blank_or_none (value : option string) : bool :=
  match value with Some v => is_blank v | None => true end.

Definition validate_for_dispatch (config : TaskTokenConfig) (task_timeout_seconds : u64)
    (require_issuer_audience : bool) : result Error unit :=
  match validate_config config with
  | Err e => Err e
  | Ok _ =>
      if (task_timeout_seconds =? 0)%N then
        Err (EInvalidInput "dispatch task timeout must be greater than zero")
      else if require_issuer_audience && blank_or_none (tt_issuer config) then
        Err (EInvalidInput "task_token.issuer is required for dispatch token validation")
      else if require_issuer_audience && blank_or_none (tt_audience config) then
        Err (EInvalidInput "task_token.audience is required for dispatch token validation")
      else
        let required_ttl := N.min (task_timeout_seconds + TASK_TOKEN_CALLBACK_GRACE_SECONDS) u64_max in
        if (tt_ttl_seconds config <? required_ttl)%N then
          Err (EInvalidInput
                 ("task_token.ttl_seconds (" +:+ pretty (tt_ttl_seconds config) +:+
                  ") must be at least task timeout + callback grace (" +:+ pretty required_ttl +:+ ")"))
        else Ok tt
  end.

(** ** Claims *)

Record TaskTokenClaims := mkTaskTokenClaims {
  cl_task_id : string;
  cl_tenant_id : string;
  cl_workspace_id : string;
  cl_run_id : option string;
  cl_attempt : option u32;
  cl_attempt_id : option string;
  cl_exp : u64;
  cl_nbf : option u64;
  cl_iat : option u64;
  cl_iss : option string;
  cl_aud : option string
}.

Record MintedTaskToken := mkMintedTaskToken {
  mt_token : string;
  mt_expires_at : DateTime
}.

(** What the code uses of [jsonwebtoken]: HS256 signing with a secret and decoding with
    a validation, at a time in seconds. *)
Record Validation := mkValidation {
  va_validate_nbf : bool;
  va_iss : option string;
  va_aud : option string
}.

Class Jwt := {
  jwt_encode : string -> TaskTokenClaims -> result string string;
  jwt_decode : string -> Validation -> Z -> string -> result string TaskTokenClaims
}.

(** A token decodes, under the secret it was signed with, to the claims that were signed
    while they are in force and if the issuer and the audience are those required. *)
Class JwtLaws `{Jwt} := {
  jwt_in_force secret v now claims token :
    jwt_encode secret claims = Ok token ->
    (now <= Z.of_N (cl_exp claims))%Z ->
    (forall nbf, cl_nbf claims = Some nbf -> (Z.of_N nbf <= now)%Z) ->
    va_iss v = cl_iss claims -> va_aud v = cl_aud claims ->
    jwt_decode secret v now token = Ok claims
}.

(** [DateTime::timestamp]: seconds since the epoch. *)
Definition timestamp_secs (t : DateTime) : Z := (t / 1000000000)%Z.

Definition timestamp_to_usize (value : Z) (field : string) : result Error u64 :=
  if (value <? 0)%Z then Err (EInvalidInput (field +:+ " timestamp out of range"))
  else Ok (Z.to_N value).

Section Tokens.
Context `{HJ : Jwt}.

Definition mint_task_token_with_scope (config : TaskTokenConfig) (task_id tenant_id workspace_id : string)
    (run_id : option string) (attempt : option u32) (attempt_id : option string) (now : DateTime) :
    result Error MintedTaskToken :=
  match validate_config config with
  | Err e => Err e
  | Ok _ =>
      let expires_at := (now + token_ttl config)%Z in
      match timestamp_to_usize (timestamp_secs expires_at) "exp" with
      | Err e => Err e
      | Ok exp =>
          match timestamp_to_usize (timestamp_secs now) "nbf" with
          | Err e => Err e
          | Ok nbf =>
              match timestamp_to_usize (timestamp_secs now) "iat" with
              | Err e => Err e
              | Ok iat =>
                  let claims :=
                    mkTaskTokenClaims task_id tenant_id workspace_id run_id attempt attempt_id exp
                      (Some nbf) (Some iat) (tt_issuer config) (tt_audience config) in
                  match jwt_encode (tt_hs256_secret config) claims with
                  | Err e => Err (EInvalidInput ("task token minting failed: " +:+ e))
                  | Ok token => Ok (mkMintedTaskToken token expires_at)
                  end
              end
          end
      end
  end.

Definition mint_task_token (config : TaskTokenConfig) (task_id tenant_id workspace_id : string)
    (now : DateTime) : result Error MintedTaskToken :=
  mint_task_token_with_scope config task_id tenant_id workspace_id None None None now.

Definition mint_task_token_for_attempt (config : TaskTokenConfig)
    (task_id tenant_id workspace_id run_id : string) (attempt : u32) (attempt_id : string)
    (now : DateTime) : result Error MintedTaskToken :=
  mint_task_token_with_scope config task_id tenant_id workspace_id (Some run_id) (Some attempt)
    (Some attempt_id) now.

(** [now] is what the crate reads from the clock. *)
Definition decode_task_token (config : TaskTokenConfig) (now : DateTime) (token : string) :
    result Error TaskTokenClaims :=
  match validate_config config with
  | Err e => Err e
  | Ok _ =>
      let validation := mkValidation true (tt_issuer config) (tt_audience config) in
      match jwt_decode (tt_hs256_secret config) validation (timestamp_secs now) token with
      | Err e => Err (EInvalidInput ("invalid task token: " +:+ e))
      | Ok claims => Ok claims
      end
  end.
End Tokens.

(** ** Round trips *)

Lemma strip_prefix_app pre s : strip_prefix pre (pre +:+ s) = Some s.
Proof.
  induction pre as [|a pre IH]; [by destruct s|]. rewrite str_app_cons. cbn [strip_prefix].
  by rewrite decide_True.
Qed.

(** An id parses back to its run and task, when both are texts without NUL. *)
Lemma callback_id_parses `{HB : Base64} `{!Base64Laws} run_id task_key :
  run_id <> "" -> task_key <> "" -> str_contains nul run_id = false -> str_contains nul task_key = false ->
  utf8_valid run_id = true -> utf8_valid task_key = true ->
  parse_callback_task_id (callback_task_id run_id task_key) = Ok (mkParsedCallbackTaskId run_id task_key).
Proof.
  intros Hr Ht Nr Nt Ur Ut. unfold parse_callback_task_id, callback_task_id.
  rewrite strip_prefix_app, b64_roundtrip, split_on_app, split_on_no_sep, Ur, Ut by done. cbn.
  by destruct run_id, task_key.
Qed.

Section Minted.
Context `{HJ : Jwt} `{!JwtLaws}.
#[local] Set Default Proof Using "All".

(** A minted token decodes to its scope until it expires. *)
Lemma minted_decodes config task_id tenant workspace run_id attempt attempt_id minted_at token expires now :
  mint_task_token_for_attempt config task_id tenant workspace run_id attempt attempt_id minted_at
    = Ok (mkMintedTaskToken token expires) ->
  (minted_at <= now <= expires)%Z ->
  exists claims, decode_task_token config now token = Ok claims /\
    cl_task_id claims = task_id /\ cl_tenant_id claims = tenant /\ cl_workspace_id claims = workspace /\
    cl_run_id claims = Some run_id /\ cl_attempt claims = Some attempt /\ cl_attempt_id claims = Some attempt_id.
Proof.
  unfold mint_task_token_for_attempt, mint_task_token_with_scope, decode_task_token, timestamp_to_usize.
  destruct (validate_config config) as [[]|e]; [|done].
  destruct (Z.ltb_spec (timestamp_secs (minted_at + token_ttl config)) 0) as [|Hexp]; [done|].
  destruct (Z.ltb_spec (timestamp_secs minted_at) 0) as [|Hnbf]; [done|]. cbn [negb].
  match goal with |- context [jwt_encode _ ?c] => set (claims := c) end.
  destruct (jwt_encode (tt_hs256_secret config) claims) as [tok|e] eqn:Henc; [|done]. intros [= -> <-] [H1 H2].
  exists claims. split; [|done]. erewrite jwt_in_force; [done|exact Henc|..]; cbn; try done.
  - unfold timestamp_secs in *. rewrite Z2N.id by done. by apply Z.div_le_mono.
  - intros nbf [= <-]. unfold timestamp_secs in *. rewrite Z2N.id by done. by apply Z.div_le_mono.
Qed.
End Minted.
