(* ===== verification/Callbacks.v ===== *)
(** Worker callbacks: [crates/arco-flow/src/orchestration/callbacks/] and their routes,
    [crates/arco-api/src/routes/tasks.rs].

    A worker reports that its task started, is alive, or completed.  The handler looks
    up the task in the folded state, checks the token and the attempt, and writes one
    event to the ledger.  Metrics and tracing are left out. *)

From S2P Require Import Prelude Storage Scoped Canonical Events FoldTypes TaskTokens.
From stdpp Require Import options.

(** ** The worker contract *)

Record TaskStartedRequest := mkTaskStartedRequest {
  sr_attempt : u32;
  sr_attempt_id : string;
  sr_worker_id : string;
  sr_traceparent : option string;
  sr_started_at : option DateTime
}.

Record TaskStartedResponse := mkTaskStartedResponse {
  sp_acknowledged : bool;
  sp_server_time : DateTime
}.

Record HeartbeatRequest := mkHeartbeatRequest {
  hr_attempt : u32;
  hr_attempt_id : string;
  hr_worker_id : string;
  hr_traceparent : option string;
  hr_heartbeat_at : option DateTime;
  hr_progress_pct : option N;
  hr_message : option string
}.

Record HeartbeatResponse := mkHeartbeatResponse {
  hp_acknowledged : bool;
  hp_should_cancel : bool;
  hp_cancel_reason : option string;
  hp_server_time : DateTime
}.

Inductive WorkerOutcome := WorkerSucceeded | WorkerFailed | WorkerCancelled.

(** [partial_progress] is a JSON value: [J]. *)
Record TaskCompletedRequest (J : Type) := mkTaskCompletedRequest {
  cr_attempt : u32;
  cr_attempt_id : string;
  cr_worker_id : string;
  cr_traceparent : option string;
  cr_outcome : WorkerOutcome;
  cr_completed_at : option DateTime;
  cr_output : option TaskOutput;
  cr_error : option TaskError;
  cr_metrics : option TaskMetrics;
  cr_cancelled_during_phase : option string;
  cr_partial_progress : option J
}.
Arguments mkTaskCompletedRequest {J}.
Arguments cr_attempt {J}.
Arguments cr_attempt_id {J}.
Arguments cr_worker_id {J}.
Arguments cr_traceparent {J}.
Arguments cr_outcome {J}.
Arguments cr_completed_at {J}.
Arguments cr_output {J}.
Arguments cr_error {J}.
Arguments cr_metrics {J}.
Arguments cr_cancelled_during_phase {J}.
Arguments cr_partial_progress {J}.

Record TaskCompletedResponse := mkTaskCompletedResponse {
  tr_acknowledged : bool;
  tr_final_state : string;
  tr_server_time : DateTime
}.

Definition default_retryable (c : ErrorCategory) : bool :=
  match c with CatUserCode | CatInfrastructure | CatTimeout => true | _ => false end.

Definition effective_retryable (e : TaskError) : bool :=
  default (default_retryable (te_category e)) (te_retryable e).

(** ** Results *)

Record CallbackError := mkCallbackError {
  ce_error : string;
  ce_message : string;
  ce_state : option string;
  ce_expected_attempt : option u32;
  ce_received_attempt : option u32;
  ce_expected_attempt_id : option string;
  ce_received_attempt_id : option string
}.
#[export] Instance eta_CallbackError : Eta CallbackError := fun r =>
  mkCallbackError (ce_error r) (ce_message r) (ce_state r) (ce_expected_attempt r)
    (ce_received_attempt r) (ce_expected_attempt_id r) (ce_received_attempt_id r).

Definition invalid_argument (field message : string) : CallbackError :=
  mkCallbackError "invalid_argument" ("Invalid " +:+ field +:+ ": " +:+ message) None None None None None.
Definition task_already_terminal (state : string) : CallbackError :=
  mkCallbackError "task_already_terminal" ("Task is already in terminal state: " +:+ state)
    (Some state) None None None None.
Definition attempt_mismatch (expected received : u32) : CallbackError :=
  mkCallbackError "attempt_mismatch"
    ("Expected attempt " +:+ pretty expected +:+ ", received " +:+ pretty received)
    None (Some expected) (Some received) None None.
Definition attempt_id_mismatch (expected received : string) : CallbackError :=
  mkCallbackError "attempt_id_mismatch"
    ("Expected attempt_id " +:+ expected +:+ ", received " +:+ received)
    None None None (Some expected) (Some received).
Definition task_expired : CallbackError :=
  mkCallbackError "task_expired" "Task is no longer active" None None None None None.
Definition invalid_token (reason : string) : CallbackError :=
  mkCallbackError "invalid_token" reason None None None None None.
Definition callback_task_not_found (task_id : string) : CallbackError :=
  mkCallbackError "task_not_found" ("Task not found: " +:+ task_id) None None None None None.
Definition task_id_ambiguous (task_id : string) : CallbackError :=
  mkCallbackError "task_id_ambiguous"
    ("Legacy task id is ambiguous; use opaque taskId: " +:+ task_id) None None None None None.

Inductive CallbackResult (T : Type) :=
  | CbOk (response : T)
  | CbBadRequest (error : CallbackError)
  | CbConflict (error : CallbackError)
  | CbGone (error : CallbackError)
  | CbUnauthorized (error : CallbackError)
  | CbNotFound (error : CallbackError)
  | CbInternalError (message : string).
Arguments CbOk {T}.
Arguments CbBadRequest {T}.
Arguments CbConflict {T}.
Arguments CbGone {T}.
Arguments CbUnauthorized {T}.
Arguments CbNotFound {T}.
Arguments CbInternalError {T}.

Definition status_code {T} (r : CallbackResult T) : N :=
  match r with
  | CbOk _ => 200
  | CbBadRequest _ => 400
  | CbConflict _ => 409
  | CbGone _ => 410
  | CbUnauthorized _ => 401
  | CbNotFound _ => 404
  | CbInternalError _ => 500
  end.

(** ** What the handlers depend on *)

(** [callbacks::TaskState] *)
Record CallbackTaskState := mkCallbackTaskState {
  ct_state : string;
  ct_attempt : u32;
  ct_attempt_id : string;
  ct_run_id : string;
  ct_task_key : string;
  ct_asset_key : option string;
  ct_partition_key : option string;
  ct_code_version : option string;
  ct_cancel_requested : bool
}.

Definition callback_is_terminal (s : CallbackTaskState) : bool :=
  bool_decide (ct_state s ∈ ["SUCCEEDED"; "FAILED"; "SKIPPED"; "CANCELLED"]).

Class TaskStateLookup (L : Type) :=
  get_task_state : L -> string -> result string (option CallbackTaskState).

(** [validate_task_token task_id run_id attempt attempt_id token] *)
Class TaskTokenValidator (V : Type) :=
  validate_task_token : V -> string -> string -> u32 -> string -> string -> result string unit.

Class OrchestrationLedgerWriter (W : Type) := {
  write_event : OrchestrationEvent -> W -> result string unit * W;
  write_events : list OrchestrationEvent -> W -> result string unit * W
}.

(** [serde_json::to_string] on a JSON value. *)
Class ValueText (J : Type) := value_to_string : J -> result string string.

Record CallbackContext (V : Type) := mkCallbackContext {
  cx_token_validator : V;
  cx_tenant_id : string;
  cx_workspace_id : string
}.
Arguments mkCallbackContext {V}.
Arguments cx_token_validator {V}.
Arguments cx_tenant_id {V}.
Arguments cx_workspace_id {V}.

#[export] Instance eta_OrchestrationEvent : Eta OrchestrationEvent := fun e =>
  mkOrchestrationEvent (ev_event_id e) (ev_event_type e) (ev_event_version e) (ev_timestamp e)
    (ev_source e) (ev_tenant_id e) (ev_workspace_id e) (ev_idempotency_key e)
    (ev_correlation_id e) (ev_causation_id e) (ev_data e).

#[export] Instance eta_TaskError : Eta TaskError := fun e =>
  mkTaskError (te_category e) (te_message e) (te_stack_trace e) (te_retryable e).

Definition map_output_visibility_state (s : TaskOutputVisibilityState) : OutputVisibilityState :=
  match s with TovPending => VisPending | TovVisible => VisVisible | TovFailed => VisFailed end.

Definition map_outcome (o : WorkerOutcome) : TaskOutcome :=
  match o with
  | WorkerSucceeded => OutSucceeded | WorkerFailed => OutFailed | WorkerCancelled => OutCancelled
  end.

Definition final_state (o : WorkerOutcome) : string :=
  match o with WorkerSucceeded => "SUCCEEDED" | WorkerFailed => "FAILED" | WorkerCancelled => "CANCELLED" end.

(** The normalised error of a completion. *)
Definition normalize_error (e : TaskError) : TaskError :=
  match te_retryable e with
  | None => e <| te_retryable := Some (effective_retryable e) |>
  | Some _ => e
  end.

(** [s.starts_with(pre)] *)
Definition starts_with (pre s : string) : bool := bool_decide (is_Some (strip_prefix pre s)).

Definition lookup_error {T} (task_id error : string) : CallbackResult T :=
  if starts_with "task_id_ambiguous:" error then CbBadRequest (task_id_ambiguous task_id)
  else CbInternalError error.

(** ** Handlers

    [clk k] is the [k]-th reading of the clock, [event_id] the ULID the event draws; the
    ledger is threaded through. *)

Section Handlers.
Context `{HB : Base64} `{HH : Hashes} `{HC : Chrono}.
Context `{HL : TaskStateLookup L} `{HV : TaskTokenValidator V} `{HW : OrchestrationLedgerWriter W}.
Context `{HJ : ValueText J}.

(** [None] when the token is good. *)
Definition validate_task_token_for_state {T} (validator : V) (path_task_id : string)
    (state : CallbackTaskState) (attempt : u32) (task_token : string) : option (CallbackResult T) :=
  let canonical_task_id := callback_task_id (ct_run_id state) (ct_task_key state) in
  let validate id :=
    validate_task_token validator id (ct_run_id state) attempt (ct_attempt_id state) task_token in
  match validate canonical_task_id with
  | Ok _ => None
  | Err reason =>
      if bool_decide (reason = "task_id_mismatch") && negb (bool_decide (path_task_id = canonical_task_id)) then
        match validate path_task_id with
        | Ok _ => None
        | Err legacy_reason =>
            let reason := if bool_decide (legacy_reason = "task_id_mismatch") then reason else legacy_reason in
            Some (CbUnauthorized (invalid_token reason))
        end
      else Some (CbUnauthorized (invalid_token reason))
  end.

(** [OrchestrationEvent::new], then [event.timestamp = ..]. *)
Definition callback_event (ctx : CallbackContext V) (event_id : string) (now : DateTime)
    (data : OrchestrationEventData) (timestamp : DateTime) : OrchestrationEvent :=
  (new_with_timestamp event_id (cx_tenant_id ctx) (cx_workspace_id ctx) data now)
    <| ev_timestamp := timestamp |>.

(** The checks the three handlers share, up to the state of a task whose token is good. *)
Definition with_valid_task {T} (ctx : CallbackContext V) (lookup : L) (task_id task_token : string)
    (k : CallbackTaskState -> W -> CallbackResult T * W) (w : W) : CallbackResult T * W :=
  match get_task_state lookup task_id with
  | Ok None => (CbNotFound (callback_task_not_found task_id), w)
  | Err e => (lookup_error task_id e, w)
  | Ok (Some state) =>
      match validate_task_token_for_state (cx_token_validator ctx) task_id state (ct_attempt state) task_token with
      | Some r => (r, w)
      | None => k state w
      end
  end.

(** Attempt number and attempt id. *)
Definition with_current_attempt {T} (state : CallbackTaskState) (attempt : u32) (attempt_id : string)
    (k : W -> CallbackResult T * W) (w : W) : CallbackResult T * W :=
  if negb (attempt =? ct_attempt state)%N then
    (CbConflict (attempt_mismatch (ct_attempt state) attempt), w)
  else if negb (bool_decide (attempt_id = ct_attempt_id state)) then
    (CbConflict (attempt_id_mismatch (ct_attempt_id state) attempt_id), w)
  else k w.

Definition zero_attempt {T} : CallbackResult T :=
  CbBadRequest (invalid_argument "attempt" "must be >= 1").

Definition handle_task_started (clk : N -> DateTime) (event_id : string) (ctx : CallbackContext V)
    (task_id task_token : string) (request : TaskStartedRequest) (lookup : L) (w : W) :
    CallbackResult TaskStartedResponse * W :=
  if (sr_attempt request =? 0)%N then (zero_attempt, w)
  else
    with_valid_task ctx lookup task_id task_token (fun state w =>
      if callback_is_terminal state then (CbConflict (task_already_terminal (ct_state state)), w)
      else
        with_current_attempt state (sr_attempt request) (sr_attempt_id request) (fun w =>
          if ct_cancel_requested state then (CbConflict (task_already_terminal "CANCELLED"), w)
          else
            let event :=
              callback_event ctx event_id (clk 0%N)
                (TaskStarted (ct_run_id state) (ct_task_key state) (sr_attempt request)
                   (ct_attempt_id state) (sr_worker_id request))
                (default (clk 1%N) (sr_started_at request)) in
            match write_event event w with
            | (Err e, w) => (CbInternalError ("Failed to write event: " +:+ e), w)
            | (Ok _, w) => (CbOk (mkTaskStartedResponse true (clk 2%N)), w)
            end) w) w.

Definition handle_heartbeat (clk : N -> DateTime) (event_id : string) (ctx : CallbackContext V)
    (task_id task_token : string) (request : HeartbeatRequest) (lookup : L) (w : W) :
    CallbackResult HeartbeatResponse * W :=
  let event_timestamp := default (clk 0%N) (hr_heartbeat_at request) in
  if (hr_attempt request =? 0)%N then (zero_attempt, w)
  else if match hr_progress_pct request with Some p => (100 <? p)%N | None => false end then
    (CbBadRequest (invalid_argument "progressPct" "must be between 0 and 100"), w)
  else
    with_valid_task ctx lookup task_id task_token (fun state w =>
      if callback_is_terminal state then (CbGone (task_expired <| ce_state := Some (ct_state state) |>), w)
      else
        with_current_attempt state (hr_attempt request) (hr_attempt_id request) (fun w =>
          let event :=
            callback_event ctx event_id (clk 1%N)
              (TaskHeartbeat (ct_run_id state) (ct_task_key state) (hr_attempt request)
                 (ct_attempt_id state) (hr_worker_id request) (Some event_timestamp)
                 (hr_progress_pct request) (hr_message request))
              event_timestamp in
          match write_event event w with
          | (Err e, w) => (CbInternalError ("Failed to write event: " +:+ e), w)
          | (Ok _, w) =>
              let '(should_cancel, cancel_reason) :=
                if ct_cancel_requested state then (true, Some "user_requested") else (false, None) in
              (CbOk (mkHeartbeatResponse true should_cancel cancel_reason (clk 2%N)), w)
          end) w) w.

(** The visibility a successful completion carries. *)
Definition completion_visibility (outcome : TaskOutcome) (output : option TaskOutput) :
    option OutputVisibilityUpdate :=
  match outcome, output with
  | OutSucceeded, Some output =>
      (fun state => mkOutputVisibilityUpdate (map_output_visibility_state state)
                      (to_published_at output) (to_publish_error output))
        <$> to_output_visibility_state output
  | _, _ => None
  end.

Definition completion_data (state : CallbackTaskState) (request : TaskCompletedRequest J)
    (partial_progress_json : option string) : OrchestrationEventData :=
  let outcome := map_outcome (cr_outcome request) in
  TaskCompletionRecorded
    (mkTaskFinishedData (ct_run_id state) (ct_task_key state) (cr_attempt request) (ct_attempt_id state)
       (cr_worker_id request) outcome (cr_output request ≫= to_materialization_id)
       (te_message <$> cr_error request) (cr_output request) (normalize_error <$> cr_error request)
       (cr_metrics request) (cr_cancelled_during_phase request) partial_progress_json
       (ct_asset_key state) (ct_partition_key state) (ct_code_version state))
    (completion_visibility outcome (cr_output request)).

Definition handle_task_completed (clk : N -> DateTime) (event_id : string) (ctx : CallbackContext V)
    (task_id task_token : string) (request : TaskCompletedRequest J) (lookup : L) (w : W) :
    CallbackResult TaskCompletedResponse * W :=
  if (cr_attempt request =? 0)%N then (zero_attempt, w)
  else
    with_valid_task ctx lookup task_id task_token (fun state w =>
      if callback_is_terminal state then (CbConflict (task_already_terminal (ct_state state)), w)
      else
        with_current_attempt state (cr_attempt request) (cr_attempt_id request) (fun w =>
          let write partial_progress_json :=
            let finished_at := default (clk 0%N) (cr_completed_at request) in
            let event :=
              callback_event ctx event_id (clk 1%N)
                (completion_data state request partial_progress_json) finished_at in
            match write_events [event] w with
            | (Err e, w) => (CbInternalError ("Failed to write event: " +:+ e), w)
            | (Ok _, w) =>
                (CbOk (mkTaskCompletedResponse true (final_state (cr_outcome request)) (clk 2%N)), w)
            end in
          match cr_partial_progress request with
          | None => write None
          | Some value =>
              match value_to_string value with
              | Err e => (CbInternalError ("Failed to serialize partial progress JSON: " +:+ e), w)
              | Ok payload => write (Some payload)
              end
          end) w) w.
End Handlers.

(** ** The wiring of the API *)

(** [Error]'s [Display] *)
Definition error_string (e : Error) : string :=
  match e with
  | EInvalidId m => "invalid identifier: " +:+ m
  | ETenantIsolation m => "tenant isolation violation: " +:+ m
  | EStorage m => "storage error: " +:+ m
  | ESerialization m => "serialization error: " +:+ m
  | EResourceNotFound resource_type id => "not found: " +:+ resource_type +:+ " with id " +:+ id
  | ENotFound path => "not found: " +:+ path
  | EInvalidInput m => "invalid input: " +:+ m
  | EPreconditionFailed m => "precondition failed: " +:+ m
  | EInternal m => "internal error: " +:+ m
  | EValidation m => "validation error: " +:+ m
  end.

Record JwtTaskTokenValidator := mkJwtTaskTokenValidator {
  jv_config : TaskTokenConfig;
  jv_tenant : string;
  jv_workspace : string;
  jv_debug : bool
}.

(** An [ApiError] is its message. *)
Definition jwt_validator_new (config : TaskTokenConfig) (tenant workspace : string) (debug : bool) :
    result string JwtTaskTokenValidator :=
  if debug then Ok (mkJwtTaskTokenValidator config tenant workspace true)
  else match validate_config config with
       | Err e => Err (error_string e)
       | Ok _ => Ok (mkJwtTaskTokenValidator config tenant workspace debug)
       end.

(** The validator, when the clock reads [now]. *)
Definition jwt_validate `{Jwt} (now : DateTime) (v : JwtTaskTokenValidator)
    (task_id run_id : string) (attempt : u32) (attempt_id token : string) : result string unit :=
  if jv_debug v then if str_is_empty token then Err "missing token" else Ok tt
  else
    match decode_task_token (jv_config v) now token with
    | Err e => Err ("invalid token: " +:+ error_string e)
    | Ok claims =>
        if negb (bool_decide (cl_task_id claims = task_id)) then Err "task_id_mismatch"
        else if negb (bool_decide (cl_tenant_id claims = jv_tenant v)) then Err "tenant_mismatch"
        else if negb (bool_decide (cl_workspace_id claims = jv_workspace v)) then Err "workspace_mismatch"
        else if bool_decide (cl_run_id claims = None) || bool_decide (cl_attempt claims = None)
                || bool_decide (cl_attempt_id claims = None) then Err "missing_scope_claims"
        else if negb (bool_decide (cl_run_id claims = Some run_id)) then Err "run_id_mismatch"
        else if negb (bool_decide (cl_attempt claims = Some attempt)) then Err "attempt_mismatch"
        else if negb (bool_decide (cl_attempt_id claims = Some attempt_id)) then Err "attempt_id_mismatch"
        else Ok tt
    end.

Record ParquetTaskStateLookup := mkParquetTaskStateLookup {
  pq_state : FoldState;
  pq_run_id_scope : option string
}.

Definition fold_task_state_label (s : TaskState) : string :=
  match s with
  | TsPlanned => "PLANNED" | TsBlocked => "BLOCKED" | TsReady => "READY"
  | TsDispatched => "DISPATCHED" | TsRunning => "RUNNING" | TsRetryWait => "RETRY_WAIT"
  | TsSkipped => "SKIPPED" | TsCancelled => "CANCELLED" | TsFailed => "FAILED"
  | TsSucceeded => "SUCCEEDED"
  end.

Definition callback_task_state_from_row (state : FoldState) (row : TaskRow) : CallbackTaskState :=
  let run := fs_runs state !! tk_run_id row in
  mkCallbackTaskState (fold_task_state_label (tk_state row)) (tk_attempt row)
    (default "" (tk_attempt_id row)) (tk_run_id row) (tk_task_key row) (tk_asset_key row)
    (tk_partition_key row) (run ≫= rn_code_version) (option_bool rn_cancel_requested run).

(** The rows the id may mean when the token names no run. *)
Definition lookup_matches (state : FoldState) (parsed : option ParsedCallbackTaskId) (task_id : string) :
    list TaskRow :=
  List.filter (fun row =>
    match parsed with
    | None => bool_decide (tk_task_key row = task_id)
    | Some p => bool_decide (tk_run_id row = pc_run_id p) && bool_decide (tk_task_key row = pc_task_key p)
    end) (snd <$> map_to_list (fs_tasks state)).

#[export] Instance parquet_lookup `{Base64} : TaskStateLookup ParquetTaskStateLookup :=
  fun l task_id =>
    let state := pq_state l in
    let parsed := match parse_callback_task_id task_id with Ok p => Some p | Err _ => None end in
    let found row := Ok (callback_task_state_from_row state <$> row) in
    match pq_run_id_scope l with
    | Some run_id =>
        match parsed with
        | Some p =>
            if bool_decide (pc_run_id p = run_id) then found (fs_tasks state !! (run_id, pc_task_key p))
            else Ok None
        | None => found (fs_tasks state !! (run_id, task_id))
        end
    | None =>
        let matches := lookup_matches state parsed task_id in
        if bool_decide (parsed = None) && (1 <? length matches) then
          Err ("task_id_ambiguous: " +:+ task_id)
        else found (head matches)
    end.

(** The middleware: the tenant and the workspace a request speaks for, and the claims of
    its token.  [auth] is the bearer token of the request, [headers] the tenant and the
    workspace a debug request names. *)
Definition task_auth_middleware `{Jwt} (config : TaskTokenConfig) (debug : bool) (now : DateTime)
    (auth : option string) (headers : string * string) :
    result string (string * string * option TaskTokenClaims) :=
  match auth with
  | None => Err "missing bearer token"
  | Some token =>
      if debug then
        if str_is_empty headers.1 || str_is_empty headers.2 then Err "missing tenant/workspace headers"
        else Ok (headers.1, headers.2, None)
      else
        match decode_task_token config now token with
        | Err e => Err (error_string e)
        | Ok claims => Ok (cl_tenant_id claims, cl_workspace_id claims, Some claims)
        end
  end.

Definition scoped_run_id_from_claims (claims : option TaskTokenClaims) (task_id : string) :
    result CallbackError (option string) :=
  match claims with
  | None => Ok None
  | Some claims =>
      if negb (bool_decide (cl_task_id claims = task_id)) then Err (invalid_token "task_id_mismatch")
      else Ok (cl_run_id claims)
  end.

Section Routes.
Context `{HB : Base64} `{HH : Hashes} `{HC : Chrono} `{HT : Jwt}.
Context `{HW : OrchestrationLedgerWriter W} `{HJ : ValueText J}.
(** The state loaded from the store of a tenant's workspace, and the ledger of it. *)
Context (config : TaskTokenConfig) (debug : bool) (load : string -> string -> result string FoldState).

(** The middleware and what the three routes do before they call their handler, for a
    request that arrives at [now]. *)
Definition with_callback_dependencies {T} (now : DateTime) (auth : option string)
    (headers : string * string) (task_id : string)
    (handle : CallbackContext JwtTaskTokenValidator -> string -> ParquetTaskStateLookup -> W ->
              CallbackResult T * W) (w : W) : CallbackResult T * W :=
  match task_auth_middleware config debug now auth headers with
  | Err message => (CbUnauthorized (invalid_token message), w)
  | Ok (tenant, workspace, claims) =>
      match auth with
      | None => (CbUnauthorized (invalid_token "missing bearer token"), w)
      | Some token =>
          match scoped_run_id_from_claims claims task_id with
          | Err error => (CbUnauthorized error, w)
          | Ok run_id_scope =>
              match load tenant workspace with
              | Err e => (CbInternalError ("failed to load orchestration state: " +:+ e), w)
              | Ok state =>
                  match jwt_validator_new config tenant workspace debug with
                  | Err e => (CbInternalError e, w)
                  | Ok validator =>
                      handle (mkCallbackContext validator tenant workspace) token
                        (mkParquetTaskStateLookup state run_id_scope) w
                  end
              end
          end
      end
  end.

Definition task_started (clk : N -> DateTime) (event_id : string) (auth : option string)
    (headers : string * string) (task_id : string) (request : TaskStartedRequest) :
    W -> CallbackResult TaskStartedResponse * W :=
  with_callback_dependencies (clk 3%N) auth headers task_id (fun ctx token lookup =>
    handle_task_started (HV := jwt_validate (clk 4%N)) clk event_id ctx task_id token request lookup).

Definition task_heartbeat (clk : N -> DateTime) (event_id : string) (auth : option string)
    (headers : string * string) (task_id : string) (request : HeartbeatRequest) :
    W -> CallbackResult HeartbeatResponse * W :=
  with_callback_dependencies (clk 3%N) auth headers task_id (fun ctx token lookup =>
    handle_heartbeat (HV := jwt_validate (clk 4%N)) clk event_id ctx task_id token request lookup).

Definition task_completed (clk : N -> DateTime) (event_id : string) (auth : option string)
    (headers : string * string) (task_id : string) (request : TaskCompletedRequest J) :
    W -> CallbackResult TaskCompletedResponse * W :=
  with_callback_dependencies (clk 3%N) auth headers task_id (fun ctx token lookup =>
    handle_task_completed (HV := jwt_validate (clk 4%N)) clk event_id ctx task_id token request lookup).
End Routes.
