(* ===== verification/CallbacksProps.v ===== *)
(** Callbacks are heard from the current attempt, and from nobody else. *)

From S2P Require Import Prelude Storage Scoped Canonical CanonicalProps Events FoldTypes FoldTasks Fold Sample TaskTokens Callbacks.
From stdpp Require Import options.

(** ** The three callbacks as one service *)

Inductive callback (J : Type) :=
  | CStarted (r : TaskStartedRequest)
  | CHeartbeat (r : HeartbeatRequest)
  | CCompleted (r : TaskCompletedRequest J).
Arguments CStarted {J}.
Arguments CHeartbeat {J}.
Arguments CCompleted {J}.

Definition cb_attempt {J} (c : callback J) : u32 :=
  match c with CStarted r => sr_attempt r | CHeartbeat r => hr_attempt r | CCompleted r => cr_attempt r end.
Definition cb_attempt_id {J} (c : callback J) : string :=
  match c with CStarted r => sr_attempt_id r | CHeartbeat r => hr_attempt_id r | CCompleted r => cr_attempt_id r end.

(** What a callback tells of a task. *)
Definition cb_tells {J} (c : callback J) (row : TaskRow) (d : OrchestrationEventData) : Prop :=
  match c, d with
  | CStarted r, TaskStarted run_id task_key attempt attempt_id worker =>
      run_id = tk_run_id row /\ task_key = tk_task_key row /\ attempt = tk_attempt row /\
      attempt_id = sr_attempt_id r /\ worker = sr_worker_id r
  | CHeartbeat r, TaskHeartbeat run_id task_key attempt attempt_id worker _ progress message =>
      run_id = tk_run_id row /\ task_key = tk_task_key row /\ attempt = tk_attempt row /\
      attempt_id = hr_attempt_id r /\ worker = hr_worker_id r /\
      progress = hr_progress_pct r /\ message = hr_message r
  | CCompleted r, TaskCompletionRecorded f _ =>
      tf_run_id f = tk_run_id row /\ tf_task_key f = tk_task_key row /\ tf_attempt f = tk_attempt row /\
      tf_attempt_id f = cr_attempt_id r /\ tf_worker_id f = cr_worker_id r /\
      tf_outcome f = map_outcome (cr_outcome r)
  | _, _ => False
  end.

(** The claims of a token are those of the current attempt of a task. *)
Record speaks_for (claims : TaskTokenClaims) (row : TaskRow) : Prop := {
  sf_run : cl_run_id claims = Some (tk_run_id row);
  sf_attempt : cl_attempt claims = Some (tk_attempt row);
  sf_attempt_id : cl_attempt_id claims = Some (default "" (tk_attempt_id row))
}.

(** Rows are filed under their run and key. *)
Definition tasks_keyed (s : FoldState) : Prop :=
  forall k row, fs_tasks s !! k = Some row -> k = (tk_run_id row, tk_task_key row).

Lemma label_terminal s row :
  callback_is_terminal (callback_task_state_from_row s row) = task_is_terminal (tk_state row).
Proof. unfold callback_is_terminal, callback_task_state_from_row. cbn. by destruct (tk_state row). Qed.

Lemma lookup_row `{HB : Base64} l task_id st :
  tasks_keyed (pq_state l) -> get_task_state l task_id = Ok (Some st) ->
  exists row, fs_tasks (pq_state l) !! (tk_run_id row, tk_task_key row) = Some row /\
    st = callback_task_state_from_row (pq_state l) row.
Proof.
  intros Hk. unfold get_task_state, parquet_lookup.
  assert (forall o : option TaskRow, (forall row, o = Some row -> exists k, fs_tasks (pq_state l) !! k = Some row) ->
    Ok (callback_task_state_from_row (pq_state l) <$> o) = Ok (E := string) (Some st) ->
    exists row, fs_tasks (pq_state l) !! (tk_run_id row, tk_task_key row) = Some row /\
      st = callback_task_state_from_row (pq_state l) row) as Hfound.
  { intros [row|] Ho [= <-]. destruct (Ho row eq_refl) as [k Hr]. exists row. by rewrite <-(Hk _ _ Hr). }
  destruct (pq_run_id_scope l) as [run_id|].
  - destruct (parse_callback_task_id task_id); [case_bool_decide; [|done]|]; apply Hfound; eauto.
  - case_match; [done|]. apply Hfound. intros row Hrow. apply head_Some_elem_of in Hrow.
    unfold lookup_matches in Hrow. rewrite list_elem_of_In, filter_In, <-list_elem_of_In in Hrow.
    destruct Hrow as [([k row'] & -> & Hin%elem_of_map_to_list)%list_elem_of_fmap _]. eauto.
Qed.

Section Service.
Context `{HB : Base64} `{HH : Hashes} `{HC : Chrono} `{HT : Jwt}.
Context `{HW : OrchestrationLedgerWriter W} `{HJ : ValueText J}.
Context (config : TaskTokenConfig) (debug : bool) (load : string -> string -> result string FoldState).
#[local] Set Default Proof Using "All".

(** The status a callback is answered with, and the ledger after it. *)
Definition serve (clk : N -> DateTime) (event_id : string) (auth : option string) (headers : string * string)
    (task_id : string) (c : callback J) (w : W) : N * W :=
  match c with
  | CStarted r => let '(a, w) := task_started config debug load clk event_id auth headers task_id r w in (status_code a, w)
  | CHeartbeat r => let '(a, w) := task_heartbeat config debug load clk event_id auth headers task_id r w in (status_code a, w)
  | CCompleted r => let '(a, w) := task_completed config debug load clk event_id auth headers task_id r w in (status_code a, w)
  end.

(** The ledger call of a callback. *)
Definition cb_write (c : callback J) (e : OrchestrationEvent) (w : W) : result string unit * W :=
  match c with CCompleted _ => write_events [e] w | _ => write_event e w end.

Lemma jwt_validate_claims now v id run attempt attempt_id token :
  jv_debug v = false -> jwt_validate now v id run attempt attempt_id token = Ok tt ->
  exists claims, decode_task_token (jv_config v) now token = Ok claims /\ cl_task_id claims = id /\
    cl_tenant_id claims = jv_tenant v /\ cl_workspace_id claims = jv_workspace v /\
    cl_run_id claims = Some run /\ cl_attempt claims = Some attempt /\ cl_attempt_id claims = Some attempt_id.
Proof.
  intros Hd. unfold jwt_validate. rewrite Hd.
  destruct (decode_task_token (jv_config v) now token) as [claims|e]; [|done]. intros H.
  repeat (case_bool_decide; cbn in H; try done). exists claims. by split_and!.
Qed.

(** A good token is good for the attempt. *)
Lemma validated_claims {T} now v path st token :
  jv_debug v = false ->
  validate_task_token_for_state (HV := jwt_validate now) (T := T) v path st (ct_attempt st) token = None ->
  exists claims, decode_task_token (jv_config v) now token = Ok claims /\
    cl_tenant_id claims = jv_tenant v /\ cl_workspace_id claims = jv_workspace v /\
    cl_run_id claims = Some (ct_run_id st) /\ cl_attempt claims = Some (ct_attempt st) /\
    cl_attempt_id claims = Some (ct_attempt_id st).
Proof.
  intros Hd. unfold validate_task_token_for_state, validate_task_token.
  destruct (jwt_validate now v (callback_task_id _ _) _ _ _ _) as [[]|reason] eqn:E1.
  { intros _. destruct (jwt_validate_claims _ _ _ _ _ _ _ Hd E1) as (c & H1 & _ & H2). eauto. }
  case_match; [|done]. destruct (jwt_validate now v path _ _ _ _) as [[]|] eqn:E2; [|done].
  intros _. destruct (jwt_validate_claims _ _ _ _ _ _ _ Hd E2) as (c & H1 & _ & H2). eauto.
Qed.

(** The row of the task and the token, when a handler gets as far as its own checks. *)
Lemma valid_task_cases {T} now v tenant ws l path token (k : CallbackTaskState -> W -> CallbackResult T * W) w r w' :
  jv_debug v = false -> tasks_keyed (pq_state l) ->
  with_valid_task (HV := jwt_validate now) (mkCallbackContext v tenant ws) l path token k w = (r, w') ->
  (w' = w /\ status_code r <> 200%N) \/
  exists row claims, fs_tasks (pq_state l) !! (tk_run_id row, tk_task_key row) = Some row /\
    decode_task_token (jv_config v) now token = Ok claims /\ cl_tenant_id claims = jv_tenant v /\
    cl_workspace_id claims = jv_workspace v /\ speaks_for claims row /\
    k (callback_task_state_from_row (pq_state l) row) w = (r, w').
Proof.
  intros Hd Hk. unfold with_valid_task. cbn [cx_token_validator].
  destruct (get_task_state l path) as [[st|]|e] eqn:Hl.
  - destruct (validate_task_token_for_state v path st _ token) as [res|] eqn:Hv; [intros [= <- <-]; left|].
    + split; [done|]. revert Hv. unfold validate_task_token_for_state. repeat case_match; by intros [= <-].
    + intros Hr. right. destruct (lookup_row _ _ _ Hk Hl) as (row & Hrow & ->).
      destruct (validated_claims _ _ _ _ _ Hd Hv) as (claims & H1 & H2 & H3 & H4 & H5 & H6).
      exists row, claims. split_and!; try done.
  - intros [= <- <-]. by left.
  - intros [= <- <-]. left. split; [done|]. unfold lookup_error. by case_match.
Qed.

Lemma current_attempt_cases {T} st attempt attempt_id (k : W -> CallbackResult T * W) w r w' :
  with_current_attempt st attempt attempt_id k w = (r, w') ->
  (w' = w /\ status_code r <> 200%N) \/ (attempt = ct_attempt st /\ attempt_id = ct_attempt_id st /\ k w = (r, w')).
Proof.
  unfold with_current_attempt. destruct (N.eqb_spec attempt (ct_attempt st)); cbn [negb]; [|by intros [= <- <-]; left].
  case_bool_decide; cbn [negb]; [by right|by intros [= <- <-]; left].
Qed.

(** A callback reached the ledger: with [token], whose claims are [claims], it told [e]
    of the task of [row] in the state [s] of the tenant. *)
Record told (clk : N -> DateTime) (auth : option string) (c : callback J) (s : FoldState) (row : TaskRow)
    (e : OrchestrationEvent) : Prop := {
  td_claims : exists token claims, auth = Some token /\ decode_task_token config (clk 4%N) token = Ok claims /\
    speaks_for claims row /\ load (cl_tenant_id claims) (cl_workspace_id claims) = Ok s /\
    ev_tenant_id e = cl_tenant_id claims /\ ev_workspace_id e = cl_workspace_id claims;
  td_row : fs_tasks s !! (tk_run_id row, tk_task_key row) = Some row;
  td_active : task_is_terminal (tk_state row) = false;
  td_attempt : cb_attempt c = tk_attempt row /\ cb_attempt c <> 0%N;
  td_attempt_id : cb_attempt_id c = default "" (tk_attempt_id row);
  td_data : cb_tells c row (ev_data e)
}.

(** What the handlers have in common, from the route down to their own checks: [own] is
    what a handler does with the state of a current task that is not terminal. *)
Lemma route_cases {T} clk auth headers task_id (c : callback J)
    (own : CallbackContext JwtTaskTokenValidator -> CallbackTaskState -> W -> CallbackResult T * W)
    (terminal : CallbackTaskState -> CallbackResult T)
    (early : bool) (refusal : CallbackResult T) w r w' :
  debug = false -> (forall tenant ws s, load tenant ws = Ok s -> tasks_keyed s) ->
  (forall st, status_code (terminal st) <> 200%N) -> status_code refusal <> 200%N ->
  with_callback_dependencies config debug load (clk 3%N) auth headers task_id (fun ctx token lookup w =>
    if (cb_attempt c =? 0)%N then (zero_attempt, w)
    else if early then (refusal, w)
    else
      with_valid_task (HV := jwt_validate (clk 4%N)) ctx lookup task_id token (fun state w =>
        if callback_is_terminal state then (terminal state, w)
        else with_current_attempt state (cb_attempt c) (cb_attempt_id c) (own ctx state) w) w) w = (r, w') ->
  (w' = w /\ status_code r <> 200%N) \/
  exists s row ctx, own ctx (callback_task_state_from_row s row) w = (r, w') /\
    cb_attempt c = tk_attempt row /\ cb_attempt_id c = default "" (tk_attempt_id row) /\
    forall e, ev_tenant_id e = cx_tenant_id ctx -> ev_workspace_id e = cx_workspace_id ctx ->
      cb_tells c row (ev_data e) -> told clk auth c s row e.
Proof.
  intros Hd Hk Hterm Hearly. unfold with_callback_dependencies, task_auth_middleware. rewrite Hd.
  destruct auth as [token|]; [|by intros [= <- <-]; left].
  destruct (decode_task_token config (clk 3%N) token) as [claims|e]; [|by intros [= <- <-]; left].
  destruct (scoped_run_id_from_claims (Some claims) task_id) as [scope|e]; [|by intros [= <- <-]; left].
  destruct (load (cl_tenant_id claims) (cl_workspace_id claims)) as [s|e] eqn:Hload; [|by intros [= <- <-]; left].
  unfold jwt_validator_new. destruct (validate_config config) as [u|e]; [|by intros [= <- <-]; left].
  destruct (N.eqb_spec (cb_attempt c) 0) as [|Hz]; [by intros [= <- <-]; left|].
  destruct early; [by intros [= <- <-]; left|].
  intros H. apply valid_task_cases in H as [H|(row & claims' & Hrow & Hdec & Ht & Hw & Hsf & H)];
    [by left| |done|by eapply Hk]. cbn in Hrow, Hdec, Ht, Hw, H.
  destruct (callback_is_terminal (callback_task_state_from_row s row)) eqn:Hter;
    [injection H as <- <-; left; split; [done|apply Hterm]|].
  apply current_attempt_cases in H as [H|(Ha & Hai & H)]; [by left|]. right.
  exists s, row, (mkCallbackContext (mkJwtTaskTokenValidator config (cl_tenant_id claims) (cl_workspace_id claims) false)
    (cl_tenant_id claims) (cl_workspace_id claims)). split_and!; [done..|].
  intros e Ete Ewe Etell. cbn in Ete, Ewe. split; try done.
  - exists token, claims'. rewrite Ht, Hw. by split_and!.
  - by rewrite <-(label_terminal s).
Qed.

(** Either nothing is written and the answer is not 200, or the ledger is asked to write
    what the callback tells, and the answer is 200 if and only if that succeeded. *)
Definition outcome_ok (clk : N -> DateTime) (event_id : string) (auth : option string) (c : callback J)
    (w : W) (status : N) (w' : W) : Prop :=
  (w' = w /\ status <> 200%N) \/
  exists s row e, told clk auth c s row e /\ ev_idempotency_key e = idempotency_key (ev_data e) /\
    ev_event_id e = event_id /\ w' = (cb_write c e w).2 /\ (status = 200%N <-> (cb_write c e w).1 = Ok tt).

Lemma outcome_written clk event_id auth c w status w' (s : FoldState) row
    (ctx : CallbackContext JwtTaskTokenValidator) d ts now :
  (forall e, ev_tenant_id e = cx_tenant_id ctx -> ev_workspace_id e = cx_workspace_id ctx ->
     cb_tells c row (ev_data e) -> told clk auth c s row e) -> cb_tells c row d ->
  w' = (cb_write c (callback_event ctx event_id now d ts) w).2 ->
  (status = 200%N <-> (cb_write c (callback_event ctx event_id now d ts) w).1 = Ok tt) ->
  outcome_ok clk event_id auth c w status w'.
Proof.
  intros Htold Htell Hw Hst. right. exists s, row, (callback_event ctx event_id now d ts).
  split_and!; [|done..]. by apply Htold.
Qed.

Context (Hd : debug = false) (Hk : forall tenant ws s, load tenant ws = Ok s -> tasks_keyed s).

Lemma started_cases clk event_id auth headers task_id rq w r w' :
  task_started config debug load clk event_id auth headers task_id rq w = (r, w') ->
  outcome_ok clk event_id auth (CStarted rq) w (status_code r) w'.
Proof.
  intros Hr. apply (route_cases clk auth headers task_id (CStarted rq)
    (fun ctx state w =>
        if ct_cancel_requested state then (CbConflict (task_already_terminal "CANCELLED"), w)
        else match write_event (callback_event ctx event_id (clk 0%N)
              (TaskStarted (ct_run_id state) (ct_task_key state) (sr_attempt rq) (ct_attempt_id state) (sr_worker_id rq))
              (default (clk 1%N) (sr_started_at rq))) w with
          | (Err e, w) => (CbInternalError ("Failed to write event: " +:+ e), w)
          | (Ok _, w) => (CbOk (mkTaskStartedResponse true (clk 2%N)), w)
          end)
    (fun state => CbConflict (task_already_terminal (ct_state state))) false zero_attempt) in Hr; [|done..].
  destruct Hr as [Hr|(s & row & ctx & Hown & Ha & Hi & Htold)]; [by left|]. cbn in Ha, Hi.
  destruct (ct_cancel_requested _); [injection Hown as <- <-; by left|].
  match type of Hown with context [callback_event ctx event_id ?now ?d ?ts] =>
    apply (outcome_written _ _ _ _ _ _ _ s row ctx d ts now) end; [exact Htold|by split_and!|..];
    destruct (write_event _ w) as [[[]|err] w2] eqn:Hw; injection Hown as <- <-; cbn [cb_write]; by rewrite Hw.
Qed.

Lemma heartbeat_cases clk event_id auth headers task_id rq w r w' :
  task_heartbeat config debug load clk event_id auth headers task_id rq w = (r, w') ->
  outcome_ok clk event_id auth (CHeartbeat rq) w (status_code r) w'.
Proof.
  intros Hr. apply (route_cases clk auth headers task_id (CHeartbeat rq)
    (fun ctx state w =>
        match write_event (callback_event ctx event_id (clk 1%N)
              (TaskHeartbeat (ct_run_id state) (ct_task_key state) (hr_attempt rq) (ct_attempt_id state) (hr_worker_id rq)
                 (Some (default (clk 0%N) (hr_heartbeat_at rq))) (hr_progress_pct rq) (hr_message rq))
              (default (clk 0%N) (hr_heartbeat_at rq))) w with
          | (Err e, w) => (CbInternalError ("Failed to write event: " +:+ e), w)
          | (Ok _, w) =>
            let '(should_cancel, cancel_reason) :=
              if ct_cancel_requested state then (true, Some "user_requested") else (false, None) in
            (CbOk (mkHeartbeatResponse true should_cancel cancel_reason (clk 2%N)), w)
          end)
    (fun state => CbGone (task_expired <| ce_state := Some (ct_state state) |>))
    match hr_progress_pct rq with Some p => (100 <? p)%N | None => false end
    (CbBadRequest (invalid_argument "progressPct" "must be between 0 and 100"))) in Hr; [|done..].
  destruct Hr as [Hr|(s & row & ctx & Hown & Ha & Hi & Htold)]; [by left|]. cbn in Ha, Hi.
  match type of Hown with context [callback_event ctx event_id ?now ?d ?ts] =>
    apply (outcome_written _ _ _ _ _ _ _ s row ctx d ts now) end; [exact Htold|by split_and!|..];
    destruct (write_event _ w) as [[[]|err] w2] eqn:Hw; cbn [cb_write]; rewrite Hw;
    destruct (ct_cancel_requested (callback_task_state_from_row s row)); injection Hown as <- <-; done.
Qed.

Lemma completed_cases clk event_id auth headers task_id rq w r w' :
  task_completed config debug load clk event_id auth headers task_id rq w = (r, w') ->
  outcome_ok clk event_id auth (CCompleted rq) w (status_code r) w'.
Proof.
  intros Hr. set (write (ctx : CallbackContext JwtTaskTokenValidator) state partial w0 :=
    match write_events [callback_event ctx event_id (clk 1%N) (completion_data state rq partial)
            (default (clk 0%N) (cr_completed_at rq))] w0 with
    | (Err e, w1) => (CbInternalError ("Failed to write event: " +:+ e), w1)
    | (Ok _, w1) => (CbOk (mkTaskCompletedResponse true (final_state (cr_outcome rq)) (clk 2%N)), w1)
    end : CallbackResult TaskCompletedResponse * W).
  apply (route_cases clk auth headers task_id (CCompleted rq)
    (fun ctx state w0 =>
       match cr_partial_progress rq with
       | None => write ctx state None w0
       | Some value =>
           match value_to_string value with
           | Err e => (CbInternalError ("Failed to serialize partial progress JSON: " +:+ e), w0)
           | Ok payload => write ctx state (Some payload) w0
           end
       end)
    (fun state => CbConflict (task_already_terminal (ct_state state))) false zero_attempt) in Hr; [|done..].
  destruct Hr as [Hr|(s & row & ctx & Hown & Ha & Hi & Htold)]; [by left|]. cbn in Ha, Hi.
  assert (forall partial, write ctx (callback_task_state_from_row s row) partial w = (r, w') ->
    outcome_ok clk event_id auth (CCompleted rq) w (status_code r) w') as Hwrite.
  { intros partial Hp. unfold write in Hp.
    match type of Hp with context [callback_event ctx event_id ?now ?d ?ts] =>
      apply (outcome_written _ _ _ _ _ _ _ s row ctx d ts now) end; [exact Htold|by split_and!|..];
      destruct (write_events _ w) as [[[]|err] w2] eqn:Hw; cbn [cb_write]; rewrite Hw; injection Hp as <- <-; done. }
  destruct (cr_partial_progress rq) as [value|]; [|by apply (Hwrite None)].
  destruct (value_to_string value) as [payload|e]; [by apply (Hwrite (Some payload))|].
  injection Hown as <- <-. by left.
Qed.

Lemma serve_cases clk event_id auth headers task_id c w status w' :
  serve clk event_id auth headers task_id c w = (status, w') -> outcome_ok clk event_id auth c w status w'.
Proof.
  destruct c as [rq|rq|rq]; cbn [serve].
  - destruct (task_started _ _ _ _ _ _ _ _ _ w) as [r w1] eqn:Hr. intros [= <- <-]. by eapply started_cases.
  - destruct (task_heartbeat _ _ _ _ _ _ _ _ _ w) as [r w1] eqn:Hr. intros [= <- <-]. by eapply heartbeat_cases.
  - destruct (task_completed _ _ _ _ _ _ _ _ _ w) as [r w1] eqn:Hr. intros [= <- <-]. by eapply completed_cases.
Qed.
End Service.

(** ** What is told is applied *)

Section Applied.
Context `{HB : Base64} `{HH : Hashes} `{HC : Chrono} `{HT : Jwt} `{HS : SerdeJson}.
Context `{HJ : ValueText J}.
Context (config : TaskTokenConfig) (load : string -> string -> result string FoldState).
#[local] Set Default Proof Using "All".

Lemma refresh_applied e run_id r : (refresh_if_changed e run_id r).2 = r.2.
Proof. destruct r as [s []]; done. Qed.

Lemma told_applies clk auth (c : callback J) s row e :
  cb_attempt_id c <> "" -> told config load clk auth c s row e -> (apply_event s e).2 = true.
Proof.
  intros Hne [_ Hrow Hact [Ha _] Hi Htell].
  assert (tk_attempt_id row = Some (cb_attempt_id c)) as Hid by (destruct (tk_attempt_id row); cbn in Hi; congruence).
  unfold apply_event, cb_tells in *. destruct c as [rq|rq|rq], (ev_data e) eqn:Hd; try done; cbn in Hid.
  - destruct Htell as (-> & -> & -> & -> & _). rewrite refresh_applied. unfold fold_task_started.
    rewrite Hrow, Hact, N.leb_refl, N.eqb_refl, Hid, bool_decide_true by done. done.
  - destruct Htell as (-> & -> & -> & -> & _). rewrite refresh_applied. unfold fold_task_heartbeat.
    by rewrite Hrow, Hact, N.eqb_refl, bool_decide_true.
  - destruct Htell as (E1 & E2 & E3 & E4 & _). rewrite refresh_applied. unfold fold_task_completion.
    match goal with |- context [fold_task_finished ?a ?b ?x ?y ?z ?u] =>
      assert ((fold_task_finished a b x y z u).2 = true) as Hfin end.
    { unfold fold_task_finished. rewrite E1, E2, E3, E4, Hrow. unfold is_current_attempt.
      by rewrite Hact, Hid, N.eqb_refl, bool_decide_true. }
    destruct (fold_task_finished _ _ _ _ _ _) as [s1 b]. cbn in Hfin. subst b. by case_match.
Qed.
End Applied.

(** ** A dispatched worker is heard *)

Section Heard.
Context `{HB : Base64} `{!Base64Laws} `{HH : Hashes} `{HC : Chrono} `{HT : Jwt} `{!JwtLaws}.
Context `{HW : OrchestrationLedgerWriter W} `{HJ : ValueText J}.
Context (config : TaskTokenConfig) (load : string -> string -> result string FoldState).
#[local] Set Default Proof Using "All".

(** A text that can be part of an id. *)
Record id_text (x : string) : Prop := {
  it_nonempty : x <> "";
  it_nul : str_contains nul x = false;
  it_utf8 : utf8_valid x = true
}.

(** What a handler asks of the request beyond the attempt. *)
Definition well_formed (c : callback J) (s : FoldState) (run_id : string) : Prop :=
  match c with
  | CStarted _ => option_bool rn_cancel_requested (fs_runs s !! run_id) = false
  | CHeartbeat r => forall p, hr_progress_pct r = Some p -> (p <= 100)%N
  | CCompleted r => forall v, cr_partial_progress r = Some v -> is_ok (value_to_string v) = true
  end.

(** The token the dispatcher mints for an attempt passes every check. *)
Lemma minted_token_valid tenant ws row minted_at token expires now now' :
  mint_task_token_for_attempt config (callback_task_id (tk_run_id row) (tk_task_key row)) tenant ws
    (tk_run_id row) (tk_attempt row) (default "" (tk_attempt_id row)) minted_at = Ok (mkMintedTaskToken token expires) ->
  (minted_at <= now <= expires)%Z -> (minted_at <= now' <= expires)%Z ->
  validate_config config = Ok tt /\
  (exists claims, decode_task_token config now token = Ok claims /\ cl_tenant_id claims = tenant /\
     cl_workspace_id claims = ws /\ cl_task_id claims = callback_task_id (tk_run_id row) (tk_task_key row) /\
     cl_run_id claims = Some (tk_run_id row)) /\
  jwt_validate now' (mkJwtTaskTokenValidator config tenant ws false)
    (callback_task_id (tk_run_id row) (tk_task_key row)) (tk_run_id row) (tk_attempt row)
    (default "" (tk_attempt_id row)) token = Ok tt.
Proof.
  intros Hm Hn Hn'. split_and!.
  - unfold mint_task_token_for_attempt, mint_task_token_with_scope in Hm. by destruct (validate_config config) as [[]|].
  - destruct (minted_decodes _ _ _ _ _ _ _ _ _ _ _ Hm Hn) as (claims & H1 & H2 & H3 & H4 & H5 & _). eauto 10.
  - destruct (minted_decodes _ _ _ _ _ _ _ _ _ _ _ Hm Hn') as (claims & H1 & H2 & H3 & H4 & H5 & H6 & H7).
    unfold jwt_validate. cbn [jv_debug jv_config jv_tenant jv_workspace]. rewrite H1. cbv beta iota.
    rewrite H2, H3, H4, H5, H6, H7.
    rewrite !(bool_decide_eq_true_2 (_ = _) eq_refl). by rewrite !bool_decide_false.
Qed.

Lemma lookup_scoped s row :
  fs_tasks s !! (tk_run_id row, tk_task_key row) = Some row -> id_text (tk_run_id row) -> id_text (tk_task_key row) ->
  get_task_state (mkParquetTaskStateLookup s (Some (tk_run_id row))) (callback_task_id (tk_run_id row) (tk_task_key row))
    = Ok (Some (callback_task_state_from_row s row)).
Proof.
  intros Hrow [Hr1 Hr2 Hr3] [Ht1 Ht2 Ht3]. unfold get_task_state, parquet_lookup. cbn [pq_run_id_scope pq_state].
  rewrite callback_id_parses by done. cbn [pc_run_id pc_task_key]. by rewrite bool_decide_true, Hrow.
Qed.

Lemma serve_heard clk event_id headers tenant ws s row c minted_at token expires w :
  load tenant ws = Ok s -> fs_tasks s !! (tk_run_id row, tk_task_key row) = Some row ->
  id_text (tk_run_id row) -> id_text (tk_task_key row) ->
  task_is_terminal (tk_state row) = false -> tk_attempt row <> 0%N ->
  cb_attempt c = tk_attempt row -> cb_attempt_id c = default "" (tk_attempt_id row) ->
  well_formed c s (tk_run_id row) ->
  mint_task_token_for_attempt config (callback_task_id (tk_run_id row) (tk_task_key row)) tenant ws
    (tk_run_id row) (tk_attempt row) (default "" (tk_attempt_id row)) minted_at = Ok (mkMintedTaskToken token expires) ->
  (minted_at <= clk 3%N <= expires)%Z -> (minted_at <= clk 4%N <= expires)%Z ->
  (forall e, (cb_write c e w).1 = Ok tt) ->
  (serve config false load clk event_id (Some token) headers (callback_task_id (tk_run_id row) (tk_task_key row)) c w).1
    = 200%N.
Proof.
  intros Hload Hrow Hr Ht Hact Hz Ha Hi Hwf Hm Hn Hn' Hw.
  destruct (minted_token_valid _ _ _ _ _ _ _ _ Hm Hn Hn') as (Hv & (claims & Hc & H1 & H2 & H3 & H4) & Hj).
  pose proof (lookup_scoped s row Hrow Hr Ht) as Hlook. apply N.eqb_neq in Hz.
  pose proof (label_terminal s row) as Hterm. rewrite Hact in Hterm.
  assert (forall T (k : CallbackTaskState -> W -> CallbackResult T * W),
    with_valid_task (HV := jwt_validate (clk 4%N)) (mkCallbackContext (mkJwtTaskTokenValidator config tenant ws false) tenant ws)
      (mkParquetTaskStateLookup s (Some (tk_run_id row))) (callback_task_id (tk_run_id row) (tk_task_key row)) token k w
    = k (callback_task_state_from_row s row) w) as Hvalid.
  { intros T k. unfold with_valid_task. rewrite Hlook. unfold validate_task_token_for_state, validate_task_token.
    cbn [cx_token_validator callback_task_state_from_row ct_run_id ct_task_key ct_attempt ct_attempt_id]. by rewrite Hj. }
  assert (forall T (handle : CallbackContext JwtTaskTokenValidator -> string -> ParquetTaskStateLookup -> W -> CallbackResult T * W),
    with_callback_dependencies config false load (clk 3%N) (Some token) headers
      (callback_task_id (tk_run_id row) (tk_task_key row)) handle w
    = handle (mkCallbackContext (mkJwtTaskTokenValidator config tenant ws false) tenant ws) token
        (mkParquetTaskStateLookup s (Some (tk_run_id row))) w) as Hdeps.
  { intros T handle. unfold with_callback_dependencies, task_auth_middleware. rewrite Hc. cbv beta iota.
    unfold scoped_run_id_from_claims. rewrite H1, H2, H3, H4, bool_decide_true by done. cbn [negb].
    rewrite Hload. unfold jwt_validator_new. by rewrite Hv. }
  assert (forall T (k : W -> CallbackResult T * W),
    with_current_attempt (callback_task_state_from_row s row) (cb_attempt c) (cb_attempt_id c) k w = k w) as Hcur.
  { intros T k. unfold with_current_attempt. cbn [callback_task_state_from_row ct_attempt ct_attempt_id].
    by rewrite Ha, Hi, N.eqb_refl, bool_decide_true. }
  destruct c as [rq|rq|rq]; cbn [cb_attempt cb_attempt_id cb_write well_formed] in *; cbn [serve];
    unfold task_started, task_heartbeat, task_completed; rewrite Hdeps;
    unfold handle_task_started, handle_heartbeat, handle_task_completed; rewrite Ha, Hz, <-Ha.
  - rewrite Hvalid, Hterm, Hcur. cbn [callback_task_state_from_row ct_cancel_requested]. rewrite Hwf.
    match goal with |- context [write_event ?e w] => specialize (Hw e); destruct (write_event e w) as [r w2] end.
    cbn in Hw. by subst r.
  - destruct (match hr_progress_pct rq with Some p => _ | None => _ end) eqn:Hp.
    { destruct (hr_progress_pct rq) as [p|]; [|done]. apply N.ltb_lt in Hp. specialize (Hwf p eq_refl). lia. }
    rewrite Hvalid, Hterm, Hcur.
    match goal with |- context [write_event ?e w] => specialize (Hw e); destruct (write_event e w) as [r w2] end.
    cbn in Hw. subst r. by destruct (ct_cancel_requested _).
  - rewrite Hvalid, Hterm, Hcur.
    assert (forall e, exists w2, write_events [e] w = (Ok tt, w2)) as Hw'.
    { intros e. specialize (Hw e). destruct (write_events [e] w) as [r w2]. exists w2. cbn in Hw. by subst r. }
    destruct (cr_partial_progress rq) as [v|].
    + specialize (Hwf v eq_refl). destruct (value_to_string v) as [x|]; [|done].
      match goal with |- context [write_events [?e] w] => by destruct (Hw' e) as [w2 ->] end.
    + match goal with |- context [write_events [?e] w] => by destruct (Hw' e) as [w2 ->] end.
Qed.
End Heard.

(** ** Claims *)


(** C27: what is acknowledged is applied, and a dispatched worker is heard.  When a
    callback with an attempt id is answered 200, folding its event into the state it was
    checked against applies it, unless an event with its idempotency key was folded
    already.  And the token the dispatcher mints for the current attempt of a task that
    is not terminal gets a well-formed callback of that attempt answered 200 for as long
    as it lasts, when the ledger accepts the write. *)
Theorem callback_heard_and_applied `{HB : Base64} `{!Base64Laws} `{HH : Hashes} `{HC : Chrono} `{HT : Jwt}
    `{!JwtLaws} `{HS : SerdeJson} `{HW : OrchestrationLedgerWriter W} `{HJ : ValueText J}
    (config : TaskTokenConfig) (load : string -> string -> result string FoldState)
    (clk : N -> DateTime) (event_id : string) (headers : string * string) (c : callback J) (w : W) :
  (forall tenant ws s, load tenant ws = Ok s -> tasks_keyed s) -> cb_attempt_id c <> "" ->
  (forall auth task_id w', serve config false load clk event_id auth headers task_id c w = (200%N, w') ->
     exists s row e, told config load clk auth c s row e /\ w' = (cb_write c e w).2 /\
       (fs_idempotency_keys s !! ev_idempotency_key e = None ->
        fold_event s e = record_idempotency_key (apply_event s e).1 e)) /\
  (forall tenant ws s row minted_at token expires,
     load tenant ws = Ok s -> fs_tasks s !! (tk_run_id row, tk_task_key row) = Some row ->
     id_text (tk_run_id row) -> id_text (tk_task_key row) -> task_is_terminal (tk_state row) = false ->
     cb_attempt c = tk_attempt row -> tk_attempt row <> 0%N -> cb_attempt_id c = default "" (tk_attempt_id row) ->
     well_formed c s (tk_run_id row) ->
     let task_id := callback_task_id (tk_run_id row) (tk_task_key row) in
     mint_task_token_for_attempt config task_id tenant ws (tk_run_id row) (tk_attempt row) (cb_attempt_id c) minted_at
       = Ok (mkMintedTaskToken token expires) ->
     (minted_at <= clk 3%N <= expires)%Z -> (minted_at <= clk 4%N <= expires)%Z ->
     (forall e, (cb_write c e w).1 = Ok tt) ->
     (serve config false load clk event_id (Some token) headers task_id c w).1 = 200%N).
Proof.
  intros Hk Hne. split.
  - intros auth task_id w' Hs. destruct (serve_cases config false load eq_refl Hk _ _ _ _ _ _ _ _ _ Hs) as [[_ Hn]|Hor]; [done|].
    destruct Hor as (s & row & e & Ht & _ & _ & Hw & _). exists s, row, e. split_and!; [done|done|].
    intros Hkey. unfold fold_event. rewrite Hkey. pose proof (told_applies config load clk auth c s row e Hne Ht) as Ha.
    destruct (apply_event s e) as [s1 b]. cbn in Ha. by subst b.
  - intros tenant ws s row minted_at token expires Hl Hr I1 I2 Hact Ha Hz Hi Hwf task_id Hm H1 H2 Hw.
    rewrite Hi in Hm. by eapply serve_heard.
Qed.

(** ** A worker's run *)

Lemma ok_inj {E A} (x y : A) : Ok (E := E) x = Ok y -> x = y.
Proof. by intros [= ->]. Qed.

Module CallbackSample.
#[export] Instance words : Base64 := letters_base64.
#[export] Instance words_laws : Base64Laws := letters_base64_laws.

#[export] Instance claims_eq_dec : EqDecision TaskTokenClaims.
Proof. solve_decision. Defined.

#[export] Instance claims_countable : Countable TaskTokenClaims.
Proof.
  refine (inj_countable'
    (fun c => (cl_task_id c, cl_tenant_id c, cl_workspace_id c, cl_run_id c, cl_attempt c, cl_attempt_id c,
               cl_exp c, cl_nbf c, cl_iat c, cl_iss c, cl_aud c))
    (fun '(a, b, c, d, e, f, g, h, i, j, k) => mkTaskTokenClaims a b c d e f g h i j k) _).
  by intros [].
Defined.

(** A token is its secret and claims in two letters, checked as the laws say. *)
Definition in_force (v : Validation) (now : Z) (c : TaskTokenClaims) : bool :=
  (now <=? Z.of_N (cl_exp c))%Z &&
  match cl_nbf c with Some nbf => (Z.of_N nbf <=? now)%Z | None => true end &&
  bool_decide (va_iss v = cl_iss c) && bool_decide (va_aud v = cl_aud c).

#[export] Instance letters_jwt : Jwt := {|
  jwt_encode secret claims := Ok (letters (encode (secret, claims)));
  jwt_decode secret v now token :=
    match unletters token ≫= decode with
    | Some (secret', claims) =>
        if bool_decide (secret' = secret) && in_force v now claims then Ok claims else Err "InvalidToken"
    | None => Err "InvalidToken"
    end
|}.

#[export] Instance letters_jwt_laws : JwtLaws.
Proof.
  split. intros secret v now claims token [= <-] Hexp Hnbf Hiss Haud. cbn.
  rewrite unletters_letters. cbn. rewrite decode_encode, bool_decide_true by done. cbn. unfold in_force.
  rewrite (proj2 (Z.leb_le _ _) Hexp), Hiss, Haud, !bool_decide_true by done.
  destruct (cl_nbf claims) as [nbf|]; [|done]. by rewrite (proj2 (Z.leb_le _ _) (Hnbf nbf eq_refl)).
Qed.

(** A ledger in memory, and JSON values without content. *)
#[export] Instance memory_ledger : OrchestrationLedgerWriter (list OrchestrationEvent) := {|
  write_event e w := (Ok tt, w ++ [e]);
  write_events es w := (Ok tt, w ++ es)
|}.
#[export] Instance null_text : ValueText unit := fun _ => Ok "null".

Definition config : TaskTokenConfig := mkTaskTokenConfig "secret" (Some "arco") None 3600.

(** [b] was dispatched after [a] succeeded. *)
Definition dispatched : FoldState := fold_events sample_state [sample_dispatch "06" "b" 1].
Definition load (tenant ws : string) : result string FoldState :=
  if bool_decide (tenant = "t") && bool_decide (ws = "w") then Ok dispatched else Err "no such workspace".

Definition clk (k : N) : DateTime := (Z.of_N (100 + k) * 1000000000)%Z.
Definition path : string := callback_task_id "r" "b".
Definition mint (attempt : u32) : result Error MintedTaskToken :=
  mint_task_token_for_attempt config path "t" "w" "r" attempt ("b" +:+ pretty attempt) 50000000000.
Definition token (attempt : u32) : string :=
  match mint attempt with Ok t => mt_token t | Err _ => "" end.

Definition start (attempt : u32) : callback unit :=
  CStarted (mkTaskStartedRequest attempt ("b" +:+ pretty attempt) "worker" None None).

Lemma load_keyed tenant ws s : load tenant ws = Ok s -> tasks_keyed s.
Proof.
  unfold load. destruct (_ && _); [|discriminate]. intros <-%ok_inj.
  assert (map_Forall (fun k row => k = (tk_run_id row, tk_task_key row)) (fs_tasks dispatched)) as Hm by by_computation.
  exact Hm.
Qed.

Lemma started_heard :
  (serve config false load clk "07" (Some (token 1)) ("", "") path (start 1) []).1 = 200%N.
Proof. vm_compute. reflexivity. Qed.

Lemma start_id : cb_attempt_id (start 1) <> "".
Proof. vm_compute. discriminate. Qed.
End CallbackSample.
Import CallbackSample.


Lemma callback_heard_and_applied_witness :
  exists w' s row e,
    serve CallbackSample.config false CallbackSample.load CallbackSample.clk "07" (Some (CallbackSample.token 1)) ("", "")
      CallbackSample.path (CallbackSample.start 1) [] = (200%N, w') /\
    told CallbackSample.config CallbackSample.load CallbackSample.clk (Some (CallbackSample.token 1))
      (CallbackSample.start 1) s row e /\ w' = (cb_write (CallbackSample.start 1) e []).2.
Proof.
  pose proof CallbackSample.started_heard as H1.
  destruct (serve CallbackSample.config false CallbackSample.load CallbackSample.clk "07" (Some (CallbackSample.token 1))
    ("", "") CallbackSample.path (CallbackSample.start 1) []) as [st w'] eqn:Hs.
  cbn [fst] in H1. subst st.
  destruct (proj1 (callback_heard_and_applied CallbackSample.config CallbackSample.load CallbackSample.clk "07" ("", "")
    (CallbackSample.start 1) [] CallbackSample.load_keyed CallbackSample.start_id)
    (Some (CallbackSample.token 1)) CallbackSample.path w' Hs) as (s & row & e & Ht & Hw & _).
  exists w', s, row, e. split; [reflexivity|]. split; [exact Ht|exact Hw].
Defined.

(** The retryability of an error is recorded and not looked at: a configuration error,
    which the contract says is not retried, leaves the task waiting for a retry. *)
Definition configuration_error : TaskCompletedRequest unit :=
  mkTaskCompletedRequest 1 "b1" "worker" None WorkerFailed None None
    (Some (mkTaskError CatConfiguration "no such secret" None None)) None None None.

Example configuration_error_retried :
  let '(status, events) :=
    serve CallbackSample.config false CallbackSample.load CallbackSample.clk "07" (Some (CallbackSample.token 1)) ("", "")
      CallbackSample.path (CCompleted configuration_error) [] in
  (status, tk_state <$> fs_tasks (fold_events CallbackSample.dispatched events) !! ("r", "b"),
   (fun e => match ev_data e with TaskCompletionRecorded d _ => te_retryable <$> tf_error d | _ => None end) <$> events)
  = (200%N, Some TsRetryWait, [Some (Some false)]).
Proof. vm_compute. reflexivity. Qed.
