(* ===== verification/Timers.v ===== *)
(** Durable timers and the handlers of fired timers.

    [controllers/timer.rs] turns scheduled timer rows into Cloud Tasks,
    [controllers/timer_handlers.rs] decides what a fired heartbeat or retry timer
    means for its task, and [process_fired_timers] of the automation reconciler
    ([bin/arco_flow_automation_reconciler.rs]) turns the decisions into events.
    Durations are nanoseconds. *)

From S2P Require Import Prelude Events FoldTypes FoldTasks FoldDispatch Fold Compactor Manifest ReadyDispatch.
From stdpp Require Import options.

(** [chrono::Duration::seconds], [::minutes] and [::num_seconds] *)
Definition seconds (n : Z) : Z := (n * 1000000000)%Z.
Definition minutes (n : Z) : Z := seconds (n * 60).
Definition num_seconds (d : Z) : Z := Z.quot d 1000000000.

(** [{:?}] of a task state. *)
Definition task_state_debug (s : TaskState) : string :=
  match s with
  | TsPlanned => "Planned"
  | TsBlocked => "Blocked"
  | TsReady => "Ready"
  | TsDispatched => "Dispatched"
  | TsRunning => "Running"
  | TsRetryWait => "RetryWait"
  | TsSkipped => "Skipped"
  | TsCancelled => "Cancelled"
  | TsFailed => "Failed"
  | TsSucceeded => "Succeeded"
  end.

(** ** Creating timers *)

Inductive TimerAction :=
  | CreateTimer (timer_id cloud_task_id : string) (timer_type : TimerType) (fire_at : DateTime)
      (run_id task_key : option string) (attempt : option u32)
  | TimerSkip (timer_id reason : string).

Section TimerController.
Context `{Hashes} `{Chrono}.

(** [TimerController::reconcile_row] *)
Definition reconcile_timer_row (row : TimerRow) : TimerAction :=
  match ti_state row with
  | TimScheduled =>
      match ti_cloud_task_id row with
      | Some _ => TimerSkip (ti_timer_id row) "already_has_cloud_task_id"
      | None =>
          let cloud_id := cloud_task_id "t" (ti_timer_id row) in
          CreateTimer (ti_timer_id row) cloud_id (ti_timer_type row) (ti_fire_at row)
            (ti_run_id row) (ti_task_key row) (ti_attempt row)
      end
  | TimFired => TimerSkip (ti_timer_id row) "already_fired"
  | TimCancelled => TimerSkip (ti_timer_id row) "cancelled"
  end.

Definition awaits_cloud_task (row : TimerRow) : bool :=
  match ti_state row, ti_cloud_task_id row with
  | TimScheduled, None => true
  | _, _ => false
  end.

(** [TimerController::reconcile] *)
Definition timer_reconcile (max_compaction_lag : Z) (manifest : OrchestrationManifest)
    (timer_rows : list TimerRow) : list TimerAction :=
  if is_fresh (mf_watermarks manifest) max_compaction_lag then reconcile_timer_row <$> timer_rows
  else
    (fun row => TimerSkip (ti_timer_id row) "compaction_lag") <$>
      List.filter awaits_cloud_task timer_rows.
End TimerController.

Definition timer_enqueued_idempotency_key (timer_id : string) : string :=
  "timer_enqueued:" +:+ timer_id.

(** ** Fired timers *)

Definition MAX_COMPACTION_LAG_SECS : i64 := 30.

Inductive HeartbeatAction :=
  | HbReschedule (delay : Z) (reason : string)
  | HbFailTask (run_id task_key : string) (attempt : u32) (attempt_id reason : string)
  | HbNoOp (reason : string).

Record HeartbeatHandler := mkHeartbeatHandler {
  hh_max_compaction_lag : Z;
  hh_grace_period : Z
}.

Definition heartbeat_handler_new (max_compaction_lag_secs : i64) : HeartbeatHandler :=
  mkHeartbeatHandler (seconds max_compaction_lag_secs) (seconds 30).

Definition heartbeat_with_defaults : HeartbeatHandler :=
  heartbeat_handler_new MAX_COMPACTION_LAG_SECS.

Definition lag_reason (compaction_lag max_compaction_lag : Z) : string :=
  "compaction_lag_guard: " +:+ pretty (num_seconds compaction_lag) +:+ "s lag (max " +:+
  pretty (num_seconds max_compaction_lag) +:+ "s)".

(** [HeartbeatHandler::check] *)
Definition heartbeat_check (h : HeartbeatHandler) (watermarks : Watermarks) (task : TaskRow)
    (now : DateTime) : HeartbeatAction :=
  if task_is_terminal (tk_state task) then
    HbNoOp ("task is terminal: " +:+ task_state_debug (tk_state task))
  else if negb (bool_decide (tk_state task = TsRunning)) then
    HbNoOp ("task is not running: " +:+ task_state_debug (tk_state task))
  else
    let compaction_lag := (now - wm_last_processed_at watermarks)%Z in
    if (hh_max_compaction_lag h <? compaction_lag)%Z then
      HbReschedule (seconds 10) (lag_reason compaction_lag (hh_max_compaction_lag h))
    else
      match tk_last_heartbeat_at task with
      | None => HbReschedule (seconds 30) "no_heartbeat_yet"
      | Some last_heartbeat =>
          let heartbeat_age := (now - last_heartbeat)%Z in
          let timeout := seconds (Z.of_N (tk_heartbeat_timeout_sec task)) in
          let deadline := (timeout + hh_grace_period h)%Z in
          if (deadline <? heartbeat_age)%Z then
            match tk_attempt_id task with
            | None => HbReschedule (seconds 10) "missing_attempt_id"
            | Some attempt_id =>
                HbFailTask (tk_run_id task) (tk_task_key task) (tk_attempt task) attempt_id
                  ("heartbeat_timeout: " +:+ pretty (num_seconds heartbeat_age) +:+
                   "s since last heartbeat (timeout: " +:+ pretty (num_seconds timeout) +:+ "s + " +:+
                   pretty (num_seconds (hh_grace_period h)) +:+ "s grace)")
            end
          else
            let next_check := (timeout - heartbeat_age + hh_grace_period h)%Z in
            HbReschedule (Z.max next_check (seconds 10)) "task_healthy"
      end.

Inductive RetryAction :=
  | RtReschedule (delay : Z) (reason : string)
  | RtIncrementAttempt (run_id task_key : string) (new_attempt : u32) (new_attempt_id : string)
  | RtNoOp (reason : string).

Definition retry_with_defaults : Z := seconds MAX_COMPACTION_LAG_SECS.

Section Handlers.
Context `{Hashes}.

(** [RetryHandler::fire]; the handler is its bound on the compaction lag. *)
Definition retry_fire (max_compaction_lag : Z) (watermarks : Watermarks) (task : TaskRow)
    (now : DateTime) : RetryAction :=
  if task_is_terminal (tk_state task) then
    RtNoOp ("task is terminal: " +:+ task_state_debug (tk_state task))
  else if negb (bool_decide (tk_state task = TsRetryWait)) then
    RtNoOp ("task is not in RetryWait: " +:+ task_state_debug (tk_state task))
  else
    let compaction_lag := (now - wm_last_processed_at watermarks)%Z in
    if (max_compaction_lag <? compaction_lag)%Z then
      RtReschedule (seconds 10) (lag_reason compaction_lag max_compaction_lag)
    else if (tk_max_attempts task <=? tk_attempt task)%N then
      RtNoOp ("max_attempts_reached: " +:+ pretty (tk_attempt task) +:+ " >= " +:+
              pretty (tk_max_attempts task))
    else
      let new_attempt := u32_add (tk_attempt task) 1 in
      let dispatch_id := dispatch_id (tk_run_id task) (tk_task_key task) new_attempt in
      let new_attempt_id := deterministic_attempt_id dispatch_id in
      RtIncrementAttempt (tk_run_id task) (tk_task_key task) new_attempt new_attempt_id.

(** ** The events of fired timers *)

Definition DEFAULT_WORKER_QUEUE : string := "default-queue".

Definition event_timer_type (t : TimerType) : EventTimerType :=
  match t with
  | TtRetry => EvRetry
  | TtHeartbeatCheck => EvHeartbeatCheck
  | TtCron => EvCron
  | TtSlaCheck => EvSlaCheck
  end.

(** [reschedule_timer_event] *)
Definition reschedule_timer_data (timer : TimerRow) (fire_at : DateTime) (suffix : string) :
    OrchestrationEventData :=
  TimerRequested (ti_timer_id timer +:+ ":" +:+ suffix) (event_timer_type (ti_timer_type timer))
    (ti_run_id timer) (ti_task_key timer) (ti_attempt timer) fire_at.

(** The task a timer is about. *)
Definition timer_task (state : FoldState) (timer : TimerRow) : option TaskRow :=
  run_id ← ti_run_id timer; task_key ← ti_task_key timer; fs_tasks state !! (run_id, task_key).

Definition heartbeat_failure_data (state : FoldState) (run_id task_key : string) (attempt : u32)
    (attempt_id reason : string) : OrchestrationEventData :=
  let task_row := fs_tasks state !! (run_id, task_key) in
  let code_version := run ← fs_runs state !! run_id; rn_code_version run in
  TaskFinished
    (mkTaskFinishedData run_id task_key attempt attempt_id "arco_flow_automation_reconciler"
       OutFailed None (Some reason) None None None None None
       (row ← task_row; tk_asset_key row) (row ← task_row; tk_partition_key row) code_version).

(** The body of the loop of [process_fired_timers]. *)
Definition fired_timer_data (state : FoldState) (watermarks : Watermarks) (now : DateTime)
    (timer : TimerRow) : option OrchestrationEventData :=
  match ti_timer_type timer with
  | TtHeartbeatCheck =>
      task ← timer_task state timer;
      match heartbeat_check heartbeat_with_defaults watermarks task now with
      | HbReschedule delay _ =>
          Some (reschedule_timer_data timer (now + delay)%Z "heartbeat_reschedule")
      | HbFailTask run_id task_key attempt attempt_id reason =>
          Some (heartbeat_failure_data state run_id task_key attempt attempt_id reason)
      | HbNoOp _ => None
      end
  | TtRetry =>
      task ← timer_task state timer;
      match retry_fire retry_with_defaults watermarks task now with
      | RtReschedule delay _ =>
          Some (reschedule_timer_data timer (now + delay)%Z "retry_reschedule")
      | RtIncrementAttempt run_id task_key new_attempt new_attempt_id =>
          let dispatch_id := dispatch_id run_id task_key new_attempt in
          Some (DispatchRequested run_id task_key new_attempt new_attempt_id DEFAULT_WORKER_QUEUE
                  dispatch_id)
      | RtNoOp _ => None
      end
  | TtCron | TtSlaCheck => None
  end.

Definition timer_has_fired (timer : TimerRow) : bool :=
  match ti_state timer with TimFired => true | _ => false end.

(** [process_fired_timers]: the payloads of its events, in order. *)
Definition process_fired_timers (state : FoldState) (watermarks : Watermarks) (now : DateTime) :
    list OrchestrationEventData :=
  omap (fired_timer_data state watermarks now)
    (List.filter timer_has_fired (snd <$> map_to_list (fs_timers state))).
End Handlers.
