(* ===== verification/AntiEntropy.v ===== *)
(** The anti-entropy sweeper.

    [controllers/anti_entropy.rs] looks for tasks that the normal flow has lost and
    names a repair for each.  The sweeper service, which turns the repairs into events,
    is in [Services]. *)

From S2P Require Import Prelude Events FoldTypes FoldTasks FoldDispatch Fold Compactor Manifest ReadyDispatch Timers.
From stdpp Require Import options.

Inductive Repair :=
  | CreateDispatchOutbox (run_id task_key : string) (attempt : u32) (reason : string)
  | RedispatchStuckTask (run_id task_key : string) (attempt : u32)
      (original_dispatch_id reason : string)
  | FailStaleRunningTask (run_id task_key : string) (attempt : u32) (attempt_id reason : string)
  | SkippedDueToLag (run_id task_key : string) (compaction_lag_secs : i64).

Record AntiEntropySweeper := mkAntiEntropySweeper {
  ae_ready_timeout : Z;
  ae_dispatch_timeout : Z;
  ae_max_compaction_lag : Z
}.

Definition sweeper_with_defaults : AntiEntropySweeper :=
  mkAntiEntropySweeper (minutes 5) (minutes 10) (minutes 5).

Definition running_task_is_stale (task : TaskRow) (now : DateTime) : bool :=
  match option_or (tk_last_heartbeat_at task) (tk_started_at task) with
  | None => false
  | Some reference_time =>
      let timeout := seconds (Z.of_N (tk_heartbeat_timeout_sec task)) in
      let grace := seconds 30 in
      (timeout + grace <? now - reference_time)%Z
  end.

Definition needs_repair (w : AntiEntropySweeper) (task : TaskRow) (now : DateTime) : bool :=
  match tk_state task with
  | TsReady => option_bool (fun ready_at => (ae_ready_timeout w <? now - ready_at)%Z) (tk_ready_at task)
  | TsDispatched => true
  | TsRetryWait =>
      (tk_attempt task <? tk_max_attempts task)%N &&
      option_bool (fun deadline => (deadline <=? now)%Z) (tk_retry_not_before task)
  | TsRunning => running_task_is_stale task now
  | _ => false
  end.

(** [dispatched_tasks]: the attempts with a dispatch that is pending or created,
    that is every row's, as a dispatch has no other status. *)
Definition active_dispatch (o : DispatchOutboxRow) : bool :=
  match ob_status o with DispPending | DispCreated => true end.

Definition dispatched_tasks (outbox : list DispatchOutboxRow) : gset (string * string * u32) :=
  list_to_set ((fun o => (ob_run_id o, ob_task_key o, ob_attempt o)) <$> List.filter active_dispatch outbox).

Definition check_ready_task (w : AntiEntropySweeper) (task : TaskRow)
    (dispatched : gset (string * string * u32)) (now : DateTime) : option Repair :=
  ready_at ← tk_ready_at task;
  if (now - ready_at <=? ae_ready_timeout w)%Z then None
  else
    let next_attempt := N.max (tk_attempt task) 1 in
    let key := (tk_run_id task, tk_task_key task, next_attempt) in
    if decide (key ∈ dispatched) then None
    else
      Some (CreateDispatchOutbox (tk_run_id task) (tk_task_key task) next_attempt
              ("stuck_ready_" +:+ pretty (num_seconds (now - ready_at)) +:+ "s")).

Definition is_dispatch_of (task : TaskRow) (o : DispatchOutboxRow) : bool :=
  String.eqb (ob_run_id o) (tk_run_id task) && String.eqb (ob_task_key o) (tk_task_key task) &&
  (ob_attempt o =? tk_attempt task)%N.

Definition check_dispatched_task (w : AntiEntropySweeper) (task : TaskRow)
    (outbox : list DispatchOutboxRow) (now : DateTime) : option Repair :=
  match List.find (is_dispatch_of task) outbox with
  | None =>
      Some (CreateDispatchOutbox (tk_run_id task) (tk_task_key task) (tk_attempt task)
              "missing_dispatch_outbox")
  | Some dispatch =>
      if (now - ob_created_at dispatch <=? ae_dispatch_timeout w)%Z then None
      else
        Some (RedispatchStuckTask (tk_run_id task) (tk_task_key task) (tk_attempt task)
                (ob_dispatch_id dispatch)
                ("stuck_dispatched_" +:+ pretty (num_seconds (now - ob_created_at dispatch)) +:+ "s"))
  end.

Definition check_retry_wait_task (task : TaskRow) (dispatched : gset (string * string * u32))
    (now : DateTime) : option Repair :=
  if (tk_max_attempts task <=? tk_attempt task)%N then None
  else if match tk_retry_not_before task with None => true | Some deadline => (now <? deadline)%Z end
  then None
  else
    let next_attempt := u32_add (tk_attempt task) 1 in
    let key := (tk_run_id task, tk_task_key task, next_attempt) in
    if decide (key ∈ dispatched) then None
    else
      Some (CreateDispatchOutbox (tk_run_id task) (tk_task_key task) next_attempt
              "retry_wait_bootstrap").

Definition check_running_task (task : TaskRow) (now : DateTime) : option Repair :=
  if negb (running_task_is_stale task now) then None
  else
    attempt_id ← tk_attempt_id task;
    Some (FailStaleRunningTask (tk_run_id task) (tk_task_key task) (tk_attempt task) attempt_id
            "heartbeat_timeout_anti_entropy").

Definition check_task (w : AntiEntropySweeper) (dispatched : gset (string * string * u32))
    (outbox : list DispatchOutboxRow) (now : DateTime) (task : TaskRow) : option Repair :=
  match tk_state task with
  | TsReady => check_ready_task w task dispatched now
  | TsDispatched => check_dispatched_task w task outbox now
  | TsRetryWait => check_retry_wait_task task dispatched now
  | TsRunning => check_running_task task now
  | _ => None
  end.

(** [AntiEntropySweeper::scan] *)
Definition scan (w : AntiEntropySweeper) (watermarks : Watermarks) (tasks : list TaskRow)
    (outbox : list DispatchOutboxRow) (now : DateTime) : list Repair :=
  let compaction_lag := (now - wm_last_processed_at watermarks)%Z in
  if (ae_max_compaction_lag w <? compaction_lag)%Z then
    (fun t => SkippedDueToLag (tk_run_id t) (tk_task_key t) (num_seconds compaction_lag)) <$>
      List.filter (fun t => needs_repair w t now) tasks
  else omap (check_task w (dispatched_tasks outbox) outbox now) tasks.

(** The scan of a loaded state, as the sweeper's [run_handler] calls it. *)
Definition sweep (w : AntiEntropySweeper) (watermarks : Watermarks) (state : FoldState)
    (now : DateTime) : list Repair :=
  scan w watermarks (snd <$> map_to_list (fs_tasks state))
    (snd <$> map_to_list (fs_dispatch_outbox state)) now.
