(* ===== verification/BackfillControl.v ===== *)
(** The backfill controller ([controllers/backfill.rs]).

    Previewing and creating a backfill, planning its chunks under a bound on the
    runs in flight, its state transitions and the retry of its failed chunks.  The
    resolver of partition ranges is an interface ([PartitionResolver]), a parameter.
    Event ids are drawn by [next_event_id], a function of the payload here; [utc_now]
    is [Utc::now()]. *)

From S2P Require Import Prelude Events FoldTypes FoldTasks FoldDispatch FoldAutomation Fold Compactor Manifest Timers TaskTokens.
From stdpp Require Import options.

(** [trait PartitionResolver] *)
Class PartitionResolver := {
  count_range : string -> string -> string -> u32;
  list_range_chunk : string -> string -> string -> u32 -> u32 -> list string
}.

Record BackfillPreview := mkBackfillPreview {
  bp_total_partitions : u32;
  bp_total_chunks : u32;
  bp_first_chunk_partitions : list string;
  bp_estimated_runs : u32
}.

Record CreateBackfillRequest := mkCreateBackfillRequest {
  cb_backfill_id : string;
  cb_tenant_id : string;
  cb_workspace_id : string;
  cb_asset_selection : list string;
  cb_partition_start : string;
  cb_partition_end : string;
  cb_chunk_size : u32;
  cb_max_concurrent_runs : u32;
  cb_client_request_id : string
}.

Record PlanBackfillChunkRequest := mkPlanBackfillChunkRequest {
  pb_backfill_id : string;
  pb_chunk_index : u32;
  pb_partition_keys : list string;
  pb_asset_selection : list string;
  pb_code_version : option string;
  pb_tenant_id : string;
  pb_workspace_id : string
}.

Inductive BackfillError :=
  | BeVersionConflict (expected actual : u32)
  | BeInvalidTransition (from to : BackfillState)
  | BeNotFound (id : string)
  | BeInvalidRequest (message : string).

(** [Result<A, BackfillError>] *)
Inductive bresult (A : Type) :=
  | BOk (a : A)
  | BErr (e : BackfillError).
Arguments BOk {A} a.
Arguments BErr {A} e.

Definition bbind {A B} (r : bresult A) (f : A -> bresult B) : bresult B :=
  match r with BOk a => f a | BErr e => BErr e end.
Notation "x <-b r ; k" := (bbind r (fun x => k))
  (at level 60, r at next level, right associativity) : arco_scope.

Definition invalid_request {A} (message : string) : bresult A := BErr (BeInvalidRequest message).

Record BackfillController := mkBackfillController {
  bk_default_chunk_size : u32;
  bk_default_max_concurrent : u32;
  bk_max_compaction_lag : Z
}.

(** [BackfillController::new] *)
Definition backfill_controller_new : BackfillController :=
  mkBackfillController 10 2 (seconds 30).

(** [a.div_ceil(b)], for a positive [b] *)
Definition div_ceil (a b : u32) : u32 :=
  (if a mod b =? 0 then a / b else a / b + 1)%N.
Definition u32_saturating_mul (a b : u32) : u32 := N.min (a * b) u32_max.
(** [len() as u32] *)
Definition as_u32 (n : nat) : u32 := (N.of_nat n mod u32_modulus)%N.

(** ** Validation *)

Definition validate_asset_key (asset_key : string) : bresult unit :=
  if is_blank asset_key then invalid_request "asset_key cannot be empty" else BOk tt.

Definition validate_range (partition_start partition_end : string) : bresult unit :=
  if is_blank partition_start || is_blank partition_end then
    invalid_request "partition_start and partition_end are required"
  else BOk tt.

Definition validate_request_id (value field : string) : bresult unit :=
  if is_blank value then invalid_request (field +:+ " cannot be empty") else BOk tt.

Definition ensure_single_asset (asset_selection : list string) : bresult string :=
  match asset_selection with
  | [] => invalid_request "asset_selection cannot be empty"
  | [asset_key] => _ <-b validate_asset_key asset_key; BOk asset_key
  | _ => invalid_request "multi-asset backfills are not supported yet"
  end.

Definition resolve_chunk_size (c : BackfillController) (chunk_size : u32) : bresult u32 :=
  let resolved := if (chunk_size =? 0)%N then bk_default_chunk_size c else chunk_size in
  if (resolved =? 0)%N then invalid_request "chunk_size must be greater than zero"
  else BOk resolved.

Definition resolve_max_concurrent (c : BackfillController) (max_concurrent_runs : u32) : bresult u32 :=
  let resolved := if (max_concurrent_runs =? 0)%N then bk_default_max_concurrent c
                  else max_concurrent_runs in
  if (resolved =? 0)%N then invalid_request "max_concurrent_runs must be greater than zero"
  else BOk resolved.

Definition filter_key_known (key : string) : bool :=
  bool_decide (key ∈ ["start"; "end"; "partition_start"; "partition_end"]).

Definition filter_start_end (filters : gmap string string) : option (string * string) :=
  if existsb (fun kv => negb (filter_key_known kv.1)) (map_to_list filters) then None
  else
    start ← option_or (filters !! "start") (filters !! "partition_start");
    end_ ← option_or (filters !! "end") (filters !! "partition_end");
    Some (start, end_).

Section Controller.
Context `{Hashes} `{Chrono} `{PartitionResolver}.
Context (next_event_id : OrchestrationEventData -> string).

(** [OrchestrationEvent::new] *)
Definition event_now (tenant_id workspace_id : string) (d : OrchestrationEventData) :
    OrchestrationEvent :=
  new_with_timestamp (next_event_id d) tenant_id workspace_id d utc_now.

(** ** Preview and creation *)

Definition preview (c : BackfillController) (asset_key partition_start partition_end : string)
    (chunk_size : u32) : bresult BackfillPreview :=
  _ <-b validate_asset_key asset_key;
  _ <-b validate_range partition_start partition_end;
  let total_partitions := count_range asset_key partition_start partition_end in
  if (total_partitions =? 0)%N then
    invalid_request "partition range resolves to zero partitions"
  else
    chunk_size <-b resolve_chunk_size c chunk_size;
    let total_chunks := div_ceil total_partitions chunk_size in
    let first_chunk := list_range_chunk asset_key partition_start partition_end 0 chunk_size in
    match first_chunk with
    | [] => invalid_request "partition range returned no partitions for preview"
    | _ => BOk (mkBackfillPreview total_partitions total_chunks first_chunk total_chunks)
    end.

Definition create (c : BackfillController) (request : CreateBackfillRequest) :
    bresult OrchestrationEvent :=
  asset_key <-b ensure_single_asset (cb_asset_selection request);
  _ <-b validate_range (cb_partition_start request) (cb_partition_end request);
  _ <-b validate_request_id (cb_client_request_id request) "client_request_id";
  _ <-b validate_request_id (cb_backfill_id request) "backfill_id";
  let total_partitions :=
    count_range asset_key (cb_partition_start request) (cb_partition_end request) in
  if (total_partitions =? 0)%N then
    invalid_request "partition range resolves to zero partitions"
  else
    match list_range_chunk asset_key (cb_partition_start request) (cb_partition_end request) 0 1 with
    | [] => invalid_request "partition range returned no partitions"
    | _ =>
        chunk_size <-b resolve_chunk_size c (cb_chunk_size request);
        max_concurrent_runs <-b resolve_max_concurrent c (cb_max_concurrent_runs request);
        BOk (event_now (cb_tenant_id request) (cb_workspace_id request)
               (BackfillCreated (cb_backfill_id request) (cb_client_request_id request)
                  (cb_asset_selection request) None
                  (SelRange (cb_partition_start request) (cb_partition_end request))
                  total_partitions chunk_size max_concurrent_runs None))
    end.

(** ** Planning chunks *)

Definition total_chunks (backfill : BackfillRow) : u32 :=
  if (bf_chunk_size backfill =? 0)%N then 0%N
  else
    match ensure_single_asset (bf_asset_selection backfill) with
    | BErr _ => 0%N
    | BOk asset_key =>
        let total_partitions :=
          match bf_partition_selector backfill with
          | SelExplicit partition_keys => as_u32 (length partition_keys)
          | SelRange start end_ => count_range asset_key start end_
          | SelFilter filters =>
              match filter_start_end filters with
              | Some (start, end_) => count_range asset_key start end_
              | None => bf_total_partitions backfill
              end
          end in
        div_ceil total_partitions (bf_chunk_size backfill)
    end.

Definition get_chunk_partitions (backfill : BackfillRow) (chunk_index : u32) : bresult (list string) :=
  let offset := u32_saturating_mul chunk_index (bf_chunk_size backfill) in
  let limit := bf_chunk_size backfill in
  if (limit =? 0)%N then BOk []
  else
    asset_key <-b ensure_single_asset (bf_asset_selection backfill);
    match bf_partition_selector backfill with
    | SelRange start end_ => BOk (list_range_chunk asset_key start end_ offset limit)
    | SelExplicit partition_keys =>
        BOk (take (N.to_nat limit) (drop (N.to_nat offset) partition_keys))
    | SelFilter filters =>
        match filter_start_end filters with
        | None => invalid_request "filter selector requires start/end bounds"
        | Some (start, end_) => BOk (list_range_chunk asset_key start end_ offset limit)
        end
    end.

(** [compute_request_fingerprint] of the backfill controller *)
Definition partition_fingerprint (partition_keys : list string) : string :=
  let hash := sha256 (foldr (fun key rest => key +:+ "|" +:+ rest) "" partition_keys) in
  hex_encode (default hash (str_get_to 16 hash)).

Definition chunk_run_key (backfill_id : string) (chunk_index : u32) : string :=
  "backfill:" +:+ backfill_id +:+ ":chunk:" +:+ pretty chunk_index.

Definition plan_chunk (request : PlanBackfillChunkRequest) : list OrchestrationEvent :=
  match pb_partition_keys request with
  | [] => []
  | _ =>
      let chunk_id := chunk_id_of (pb_backfill_id request) (pb_chunk_index request) in
      let run_key := chunk_run_key (pb_backfill_id request) (pb_chunk_index request) in
      let fingerprint := partition_fingerprint (pb_partition_keys request) in
      [event_now (pb_tenant_id request) (pb_workspace_id request)
         (BackfillChunkPlanned (pb_backfill_id request) chunk_id (pb_chunk_index request)
            (pb_partition_keys request) run_key fingerprint);
       event_now (pb_tenant_id request) (pb_workspace_id request)
         (RunRequested run_key fingerprint (pb_asset_selection request)
            (Some (pb_partition_keys request)) (RefBackfill (pb_backfill_id request) chunk_id) ∅
            (pb_code_version request))]
  end.

(** The chunk counts against the concurrency limit. *)
Definition chunk_is_active (runs : gmap string RunRow) (c : BackfillChunkRow) : bool :=
  match bc_state c with
  | ChunkPlanned | ChunkRunning => true
  | _ => option_bool (fun id => option_bool (fun r => negb (run_is_terminal (rn_state r))) (runs !! id))
           (bc_run_id c)
  end.

Definition count_active_chunks (backfill_id : string) (chunks : gmap string BackfillChunkRow)
    (runs : gmap string RunRow) : u32 :=
  as_u32 (mcount (fun _ c => bool_decide (bc_backfill_id c = backfill_id) && chunk_is_active runs c)
            chunks).

(** The loop of [reconcile] over one backfill, from [next_chunk_index], with [planned]
    chunks already planned in this pass.  The index grows with every turn and stays
    below [total_chunks]. *)
Fixpoint plan_chunks (fuel : nat) (backfill_id : string) (backfill : BackfillRow)
    (chunks : gmap string BackfillChunkRow) (chunks_to_plan total planned next_chunk_index : u32) :
    list OrchestrationEvent :=
  match fuel with
  | O => []
  | S fuel =>
      if (planned <? chunks_to_plan)%N && (next_chunk_index <? total)%N then
        match chunks !! chunk_id_of backfill_id next_chunk_index with
        | Some _ =>
            plan_chunks fuel backfill_id backfill chunks chunks_to_plan total planned
              (next_chunk_index + 1)
        | None =>
            match get_chunk_partitions backfill next_chunk_index with
            | BErr _ => []
            | BOk [] => []
            | BOk partition_keys =>
                let chunk_events :=
                  plan_chunk
                    (mkPlanBackfillChunkRequest backfill_id next_chunk_index partition_keys
                       (bf_asset_selection backfill) (bf_code_version backfill)
                       (bf_tenant_id backfill) (bf_workspace_id backfill)) in
                let planned := match chunk_events with [] => planned | _ => (planned + 1)%N end in
                chunk_events ++
                plan_chunks fuel backfill_id backfill chunks chunks_to_plan total planned
                  (next_chunk_index + 1)
            end
        end
      else []
  end.

(** The body of the loop of [reconcile] over the backfills. *)
Definition reconcile_backfill (chunks : gmap string BackfillChunkRow) (runs : gmap string RunRow)
    (backfill_id : string) (backfill : BackfillRow) : list OrchestrationEvent :=
  if negb (bool_decide (bf_state backfill = BfRunning)) then []
  else if (bf_chunk_size backfill =? 0)%N || (bf_max_concurrent_runs backfill =? 0)%N then []
  else
    let active_chunks := count_active_chunks backfill_id chunks runs in
    let chunks_to_plan := (bf_max_concurrent_runs backfill - active_chunks)%N in
    let total := total_chunks backfill in
    if (total =? 0)%N || (chunks_to_plan =? 0)%N then []
    else
      plan_chunks (N.to_nat total) backfill_id backfill chunks chunks_to_plan total 0
        (bf_planned_chunks backfill).

(** [BackfillController::reconcile] *)
Definition backfill_reconcile (c : BackfillController) (watermarks : Watermarks)
    (backfills : gmap string BackfillRow) (chunks : gmap string BackfillChunkRow)
    (runs : gmap string RunRow) : list OrchestrationEvent :=
  if negb (is_fresh watermarks (bk_max_compaction_lag c)) then []
  else map_to_list backfills ≫= fun kb => reconcile_backfill chunks runs kb.1 kb.2.

(** ** Transitions *)

Definition transition (backfill_id : string) (current : BackfillRow) (to_state : BackfillState)
    (tenant_id workspace_id : string) (changed_by : option string) : bresult OrchestrationEvent :=
  if negb (is_valid_transition (bf_state current) to_state) then
    BErr (BeInvalidTransition (bf_state current) to_state)
  else
    let new_version := u32_add (bf_state_version current) 1 in
    BOk (event_now tenant_id workspace_id
           (BackfillStateChanged backfill_id (bf_state current) to_state new_version changed_by)).

Definition transition_with_version (backfill_id : string) (expected_version : u32)
    (current : BackfillRow) (to_state : BackfillState) : bresult OrchestrationEvent :=
  if negb (bf_state_version current =? expected_version)%N then
    BErr (BeVersionConflict expected_version (bf_state_version current))
  else
    transition backfill_id current to_state (bf_tenant_id current) (bf_workspace_id current) None.

Definition pause (backfill_id : string) (current : BackfillRow) (tenant_id workspace_id : string) :
    bresult OrchestrationEvent :=
  transition backfill_id current BfPaused tenant_id workspace_id None.

Definition resume (backfill_id : string) (current : BackfillRow) (tenant_id workspace_id : string) :
    bresult OrchestrationEvent :=
  transition backfill_id current BfRunning tenant_id workspace_id None.

Definition cancel (backfill_id : string) (current : BackfillRow) (tenant_id workspace_id : string) :
    bresult OrchestrationEvent :=
  transition backfill_id current BfCancelled tenant_id workspace_id None.

Definition pause_with_version (backfill_id : string) (expected_version : u32)
    (current : BackfillRow) : bresult OrchestrationEvent :=
  transition_with_version backfill_id expected_version current BfPaused.

Definition resume_with_version (backfill_id : string) (expected_version : u32)
    (current : BackfillRow) : bresult OrchestrationEvent :=
  transition_with_version backfill_id expected_version current BfRunning.

Definition cancel_with_version (backfill_id : string) (expected_version : u32)
    (current : BackfillRow) : bresult OrchestrationEvent :=
  transition_with_version backfill_id expected_version current BfCancelled.

(** ** Retrying failed chunks *)

Fixpoint add_partitions (keys : list string) (partitions : list string) : bresult (list string) :=
  match keys with
  | [] => BOk partitions
  | key :: keys =>
      if str_is_empty key then invalid_request "partition key cannot be empty"
      else add_partitions keys (btree_insert key partitions)
  end.

Fixpoint failed_partitions (parent : BackfillRow) (failed_chunks : list BackfillChunkRow)
    (partitions : list string) : bresult (list string) :=
  match failed_chunks with
  | [] => BOk partitions
  | chunk :: rest =>
      if negb (String.eqb (bc_backfill_id chunk) (bf_backfill_id parent)) then
        invalid_request "failed chunk does not belong to parent backfill"
      else
        match bc_state chunk with
        | ChunkFailed =>
            partitions <-b add_partitions (bc_partition_keys chunk) partitions;
            failed_partitions parent rest partitions
        | _ => invalid_request "retry_failed requires failed chunks only"
        end
  end.

Definition retry_failed (new_backfill_id : string) (parent : BackfillRow)
    (failed_chunks : list BackfillChunkRow) (retry_request_id tenant_id workspace_id : string) :
    bresult OrchestrationEvent :=
  _ <-b validate_request_id new_backfill_id "backfill_id";
  _ <-b validate_request_id retry_request_id "retry_request_id";
  if negb (String.eqb (bf_tenant_id parent) tenant_id) ||
     negb (String.eqb (bf_workspace_id parent) workspace_id)
  then invalid_request "parent backfill tenant/workspace mismatch"
  else if negb (bool_decide (bf_state parent = BfFailed)) then
    invalid_request "retry_failed requires parent backfill in FAILED state"
  else
    match failed_chunks with
    | [] => invalid_request "retry_failed requires at least one failed chunk"
    | _ =>
        partitions <-b failed_partitions parent failed_chunks [];
        match partitions with
        | [] => invalid_request "retry_failed resolved zero partitions"
        | _ =>
            let d :=
              BackfillCreated new_backfill_id retry_request_id (bf_asset_selection parent)
                (bf_code_version parent) (SelExplicit partitions) (as_u32 (length partitions))
                (bf_chunk_size parent) (bf_max_concurrent_runs parent)
                (Some (bf_backfill_id parent)) in
            BOk (new_with_timestamp_and_idempotency_key (next_event_id d) tenant_id workspace_id d
                   ("backfill_retry:" +:+ bf_backfill_id parent +:+ ":" +:+ retry_request_id) utc_now)
        end
    end.
End Controller.
