(* ===== verification/BackfillProps.v ===== *)
(** Planning backfills.

    The chunks of a backfill tile its partitions; a pass of the controller plans
    missing chunks only, each with its partitions, and keeps the runs in flight below
    the limit.  Also what folding makes of it: chunks never leave the state they are
    planned in, so that a backfill stops after its first [max_concurrent_runs] chunks. *)

From S2P Require Import Prelude Events FoldTypes FoldTasks FoldDispatch FoldAutomation Fold FoldIdempotence FoldAutoProps Compactor Manifest Timers TaskTokens BackfillControl Sample.
From Stdlib Require Import Sorting.Sorted.
From stdpp Require Import options.

(** ** Tiling *)

(** What the resolver documents: a range has a list of partitions, [count_range] is its
    length and [list_range_chunk] one page of it. *)
Class PartitionResolverLaws `{PartitionResolver} := {
  range_partitions : string -> string -> string -> list string;
  count_range_length a b e : count_range a b e = N.of_nat (length (range_partitions a b e));
  list_range_page a b e offset limit :
    list_range_chunk a b e offset limit =
    take (N.to_nat limit) (drop (N.to_nat offset) (range_partitions a b e))
}.

Lemma div_ceil_spec a b i : (0 < b)%N -> (i < div_ceil a b)%N <-> (i * b < a)%N.
Proof.
  intros Hb. unfold div_ceil. pose proof (N.div_mod a b ltac:(lia)) as E.
  pose proof (N.mod_lt a b ltac:(lia)) as Hr.
  revert E Hr. generalize (a / b)%N (a mod b)%N. intros q r -> Hr.
  destruct (N.eqb_spec r 0) as [->|Hz].
  - rewrite N.add_0_r, (N.mul_comm b q). by rewrite <- N.mul_lt_mono_pos_r.
  - rewrite (N.mul_comm b q). split; intros Hi.
    + assert (i * b <= q * b)%N by (apply N.mul_le_mono_r; lia). lia.
    + apply N.nle_gt. intros Hq. assert ((q + 1) * b <= i * b)%N by (by apply N.mul_le_mono_r). lia.
Qed.

(** Pages of [n] elements, [k] of them, are the list when they reach its end. *)
Lemma pages_tile {A} (l : list A) n k :
  length l <= k * n ->
  concat ((fun i => take n (drop (i * n) l)) <$> seq 0 k) = l.
Proof.
  revert l. induction k as [|k IH]; intros l Hl; simpl.
  - destruct l; [done|]. simpl in Hl. lia.
  - rewrite <- fmap_S_seq, <- list_fmap_compose.
    transitivity (take n l ++ drop n l); [|apply take_drop]. f_equal.
    rewrite <- (IH (drop n l)) by (rewrite length_drop; lia). f_equal.
    apply list_fmap_ext. intros _ i _. cbn. by rewrite drop_drop.
Qed.

Section Tiling.
Context `{Hashes} `{Chrono} `{HR : PartitionResolver} `{!PartitionResolverLaws}.

(** The partitions a backfill selects: those it lists, or those of its range. *)
Definition selected_partitions (row : BackfillRow) : option (list string) :=
  match ensure_single_asset (bf_asset_selection row) with
  | BErr _ => None
  | BOk a =>
      match bf_partition_selector row with
      | SelExplicit keys => Some keys
      | SelRange b e => Some (range_partitions a b e)
      | SelFilter filters =>
          '(b, e) ← filter_start_end filters; Some (range_partitions a b e)
      end
  end.

Lemma total_chunks_selected row keys :
  selected_partitions row = Some keys -> (0 < bf_chunk_size row)%N ->
  (N.of_nat (length keys) < u32_modulus)%N ->
  total_chunks row = div_ceil (N.of_nat (length keys)) (bf_chunk_size row).
Proof.
  intros Hk Hs Hl. unfold total_chunks, selected_partitions in *.
  destruct (N.eqb_spec (bf_chunk_size row) 0); [lia|].
  destruct (ensure_single_asset _) as [a|]; [|done].
  destruct (bf_partition_selector row) as [b e|ks|filters]; simplify_eq/=.
  - by rewrite count_range_length.
  - unfold as_u32. by rewrite N.mod_small.
  - destruct (filter_start_end filters) as [[b e]|]; simplify_eq/=. by rewrite count_range_length.
Qed.

Lemma chunk_partitions_selected row keys i :
  selected_partitions row = Some keys -> (0 < bf_chunk_size row)%N ->
  (i * bf_chunk_size row < u32_modulus)%N ->
  get_chunk_partitions row i =
  BOk (take (N.to_nat (bf_chunk_size row)) (drop (N.to_nat (i * bf_chunk_size row)) keys)).
Proof.
  intros Hk Hs Hi. unfold get_chunk_partitions, selected_partitions in *.
  destruct (N.eqb_spec (bf_chunk_size row) 0); [lia|].
  assert (u32_saturating_mul i (bf_chunk_size row) = (i * bf_chunk_size row)%N) as ->.
  { unfold u32_saturating_mul, u32_max, u32_modulus in *. lia. }
  destruct (ensure_single_asset _) as [a|]; [|done]. simpl.
  destruct (bf_partition_selector row) as [b e|ks|filters]; simplify_eq/=.
  - by rewrite list_range_page.
  - done.
  - destruct (filter_start_end filters) as [[b e]|]; simplify_eq/=. by rewrite list_range_page.
Qed.

(** The chunk of index [i], or nothing when it does not resolve. *)
Definition chunk_keys (row : BackfillRow) (i : u32) : list string :=
  match get_chunk_partitions row i with BOk keys => keys | BErr _ => [] end.

Lemma chunk_keys_tile row keys :
  selected_partitions row = Some keys -> (0 < bf_chunk_size row)%N ->
  (N.of_nat (length keys) < u32_modulus)%N ->
  concat ((fun i => chunk_keys row (N.of_nat i)) <$> seq 0 (N.to_nat (total_chunks row))) = keys /\
  (forall i, (i < total_chunks row)%N ->
     get_chunk_partitions row i = BOk (chunk_keys row i) /\
     0 < length (chunk_keys row i) <= N.to_nat (bf_chunk_size row)).
Proof.
  intros Hk Hs Hl. pose proof (total_chunks_selected row keys Hk Hs Hl) as Ht.
  set (n := bf_chunk_size row) in *. set (T := total_chunks row) in *.
  assert (forall i, (i < T)%N -> get_chunk_partitions row i =
    BOk (take (N.to_nat n) (drop (N.to_nat (i * n)) keys)) /\ (i * n < N.of_nat (length keys))%N) as Hc.
  { intros i Hi. rewrite Ht, div_ceil_spec in Hi by done. split; [|done].
    apply chunk_partitions_selected; [done..|]. fold n. lia. }
  split.
  - rewrite <- (pages_tile keys (N.to_nat n) (N.to_nat T)) at 1.
    + f_equal. apply list_fmap_ext. intros j i Hi. apply lookup_seq in Hi as [-> Hi]. simpl.
      unfold chunk_keys. destruct (Hc (N.of_nat j)) as [-> _]; [lia|].
      by rewrite N2Nat.inj_mul, Nat2N.id.
    + destruct (decide (N.of_nat (length keys) <= T * n)%N); [lia|].
      assert (T < T)%N; [|lia]. rewrite Ht at 2. apply div_ceil_spec; [done|]. lia.
  - intros i Hi. unfold chunk_keys. destruct (Hc i Hi) as [-> Hlt]. split; [done|].
    rewrite length_take, length_drop. lia.
Qed.
End Tiling.

(** ** The events of a pass *)

Section Pass.
Context `{Hashes} `{Chrono} `{SerdeJson} `{HR : PartitionResolver}.
Context (next_event_id : OrchestrationEventData -> string).

(** The two events of chunk [i] of backfill [b]. *)
Definition chunk_events (b : string) (row : BackfillRow) (i : u32) (keys : list string) :
    list OrchestrationEvent :=
  plan_chunk next_event_id
    (mkPlanBackfillChunkRequest b i keys (bf_asset_selection row) (bf_code_version row)
       (bf_tenant_id row) (bf_workspace_id row)).

(** The indices the loop plans: missing chunks whose partitions resolve, below
    [total], at most [n] of them, in increasing order from [from]. *)
Definition plannable (chunks : gmap string BackfillChunkRow) (b : string) (row : BackfillRow)
    (total from : u32) (ix : list u32) : Prop :=
  StronglySorted N.lt ix /\
  Forall (fun i => (from <= i < total)%N /\ chunks !! chunk_id_of b i = None /\
                   exists k keys, get_chunk_partitions row i = BOk (k :: keys)) ix.

Lemma plannable_weaken chunks b row total from from' ix :
  (from <= from')%N -> plannable chunks b row total from' ix -> plannable chunks b row total from ix.
Proof. intros Hle [Hs Hf]. split; [done|]. eapply Forall_impl; [done|]. naive_solver lia. Qed.

Lemma plan_chunks_spec fuel b row chunks to_plan total planned from :
  exists ix,
    plan_chunks next_event_id fuel b row chunks to_plan total planned from =
      (ix ≫= fun i => chunk_events b row i (chunk_keys row i)) /\
    plannable chunks b row total from ix /\
    (N.of_nat (length ix) <= to_plan - planned)%N /\
    ((forall i, (from <= i < total)%N -> exists k keys, get_chunk_partitions row i = BOk (k :: keys)) ->
     (total - from <= N.of_nat fuel)%N ->
     N.of_nat (length ix) = (to_plan - planned)%N \/
     forall i, (from <= i < total)%N -> chunks !! chunk_id_of b i = None -> i ∈ ix).
Proof.
  assert (plannable chunks b row total from []) as Hnil by (split; constructor).
  revert planned from Hnil. induction fuel as [|fuel IH]; intros planned from Hnil; simpl.
  { exists []. split_and!; [done|done|simpl; lia|]. right. intros i ?. simpl in *. lia. }
  destruct (N.ltb_spec planned to_plan) as [Hp|Hp]; simpl.
  2:{ exists []. split_and!; [done|done|simpl; lia|]. left. simpl. lia. }
  destruct (N.ltb_spec from total) as [Hf|Hf]; simpl.
  2:{ exists []. split_and!; [done|done|simpl; lia|]. right. intros i ?. lia. }
  destruct (chunks !! chunk_id_of b from) as [c|] eqn:Ec.
  { destruct (IH planned (from + 1)%N) as (ix & -> & Hpl & Hlen & Hmax); [split; constructor|].
    exists ix. split_and!; [done|by eapply plannable_weaken, Hpl; lia|done|].
    intros Hall Hfuel. destruct Hmax as [?|Hmax]; [intros i ?; apply Hall; lia|lia|by left|].
    right. intros i Hi Hn. apply Hmax; [|done]. destruct (decide (i = from)) as [->|]; [congruence|lia]. }
  destruct (get_chunk_partitions row from) as [keys|err] eqn:Eg.
  2:{ exists []. split_and!; [done|done|simpl; lia|]. intros Hall.
      destruct (Hall from) as (? & ? & ?); [lia|congruence]. }
  destruct keys as [|k keys].
  { exists []. split_and!; [done|done|simpl; lia|]. intros Hall.
    destruct (Hall from) as (? & ? & ?); [lia|congruence]. }
  simpl. destruct (IH (planned + 1)%N (from + 1)%N) as (ix & -> & Hpl & Hlen & Hmax); [split; constructor|].
  exists (from :: ix). split_and!.
  - assert (chunk_keys row from = k :: keys) as Hk by (unfold chunk_keys; by rewrite Eg).
    simpl. by rewrite Hk.
  - destruct Hpl as [Hs Hfa]. split.
    + constructor; [done|]. eapply Forall_impl; [done|]. naive_solver lia.
    + constructor; [split_and!; try done; eauto|]. eapply Forall_impl; [done|]. naive_solver lia.
  - simpl. lia.
  - intros Hall Hfuel. destruct Hmax as [Hm|Hmax]; [intros i ?; apply Hall; lia|lia| |].
    + left. simpl. lia.
    + right. intros i Hi Hn. apply elem_of_cons. destruct (decide (i = from)) as [->|]; [by left|].
      right. apply Hmax; [lia|done].
Qed.

(** ** Folding a pass *)

Section FoldPass.

(** The chunks of [b] that count against its limit. *)
Definition active_of (b : string) (runs : gmap string RunRow) (_ : string) (c : BackfillChunkRow) : bool :=
  bool_decide (bc_backfill_id c = b) && chunk_is_active runs c.

Definition active_chunks (b : string) (s : FoldState) : nat :=
  mcount (active_of b (fs_runs s)) (fs_backfill_chunks s).

(** What is known of the chunks at the ids [fresh]: backfill, index and partitions. *)
Context (fresh : string -> Prop) (Q : string -> string -> u32 -> list string -> Prop).

(** An event that plans a chunk of [Q], or requests its run, whose id is one of [fresh]. *)
Definition plans_chunk (e : OrchestrationEvent) : Prop :=
  match ev_data e with
  | BackfillChunkPlanned b cid i keys _ _ => fresh cid /\ Q cid b i keys
  | RunRequested _ _ _ _ (RefBackfill _ cid) _ _ => fresh cid
  | _ => False
  end.

Definition is_plan_of (b : string) (e : OrchestrationEvent) : bool :=
  match ev_data e with
  | BackfillChunkPlanned b' _ _ _ _ _ => bool_decide (b' = b)
  | _ => false
  end.

Definition planned_chunks_at (s : FoldState) : Prop :=
  forall cid c, fresh cid -> fs_backfill_chunks s !! cid = Some c ->
    bc_state c = ChunkPlanned /\ Q cid (bc_backfill_id c) (bc_chunk_index c) (bc_partition_keys c).

Lemma alter_chunk_run (m : gmap string BackfillChunkRow) cid run_id runs b :
  (forall c, m !! cid = Some c -> bc_state c = ChunkPlanned) ->
  let m' := alter (fun chunk => chunk <| bc_run_id := Some run_id |>) cid m in
  mcount (active_of b runs) m' = mcount (active_of b runs) m /\
  (forall k c', m' !! k = Some c' -> exists c, m !! k = Some c /\
     (bc_state c', bc_backfill_id c', bc_chunk_index c', bc_partition_keys c') =
     (bc_state c, bc_backfill_id c, bc_chunk_index c, bc_partition_keys c)).
Proof.
  intros Hp. destruct (m !! cid) as [c|] eqn:Ec.
  - pose proof (Hp c eq_refl) as Hs.
    assert (alter (fun chunk => chunk <| bc_run_id := Some run_id |>) cid m =
            <[cid := c <| bc_run_id := Some run_id |>]> m) as ->.
    { apply map_eq. intros k. rewrite lookup_alter, lookup_insert. case_decide; [|done]. subst. by rewrite Ec. }
    split.
    + apply (mcount_insert_same _ _ _ c); [done|]. unfold active_of, chunk_is_active. simpl. by rewrite Hs.
    + intros k c'. rewrite lookup_insert. case_decide; [intros [= <-]; subst; eauto|eauto].
  - assert (alter (fun chunk => chunk <| bc_run_id := Some run_id |>) cid m = m) as ->; [|eauto].
    apply map_eq. intros k. rewrite lookup_alter. case_decide; [|done]. subst. by rewrite Ec.
Qed.

Lemma pass_event s e b :
  plans_chunk e -> planned_chunks_at s ->
  planned_chunks_at (fold_event s e) /\ fs_runs (fold_event s e) = fs_runs s /\
  active_chunks b (fold_event s e) <= Nat.b2n (is_plan_of b e) + active_chunks b s.
Proof.
  intros He Hp. unfold fold_event.
  destruct (fs_idempotency_keys s !! _) eqn:Ek; [split_and!; [done|done|lia]|].
  enough (planned_chunks_at (apply_event s e).1 /\ fs_runs (apply_event s e).1 = fs_runs s /\
    active_chunks b (apply_event s e).1 <= Nat.b2n (is_plan_of b e) + active_chunks b s) as Ha.
  { destruct (apply_event s e) as [s1 [|]]; [|done]. unfold record_idempotency_key. by case_match. }
  unfold plans_chunk in He. unfold apply_event, is_plan_of.
  destruct (ev_data e) as [| | | | | | | | | | | | | | | |rk fp asel psel src lb cv
    |bid crid asel cv sel tp cs mcr pbid|bid cid idx pks rk fp|bid fs ts sv cb|] eqn:Ed; try done.
  - destruct src as [| |bid cid|]; try done.
    destruct (should_drop_run_requested_for_stale_sensor_eval s _); [split_and!; [done|done|simpl; lia]|].
    unfold fold_run_requested. destruct (fs_run_key_index s !! rk); [case_match; split_and!; simpl; try done; lia|].
    cbn [correlate_run_to_source fst]. unfold planned_chunks_at, active_chunks. simpl.
    destruct (alter_chunk_run (fs_backfill_chunks s) cid
      (run_id_from_run_key (ev_tenant_id e) (ev_workspace_id e) rk (fs_tenant_secret s)) (fs_runs s) b)
      as [Hc Hst]; [by intros c; apply Hp|]. simpl in Hc, Hst. rewrite Hc. split_and!; [|done|lia].
    intros k c' Hk (c & Hc' & [= -> -> -> ->])%Hst. by eapply Hp.
  - unfold fold_backfill_chunk_planned. case_match; [split_and!; [done|done|simpl; lia]|].
    unfold planned_chunks_at, active_chunks. simpl. split_and!; [|done|].
    + intros k c Hk. rewrite lookup_insert. case_decide; [intros [= <-]; subst; simpl; by destruct He|by apply Hp].
    + set (row := mkBackfillChunkRow _ _ _ _ _ _ _ _ _ _).
      assert (Nat.b2n (active_of b (fs_runs s) cid row) <= Nat.b2n (bool_decide (bid = b))) as Hb.
      { unfold active_of. simpl. by case_bool_decide. }
      destruct (fs_backfill_chunks s !! cid) as [old|] eqn:Eo.
      * pose proof (mcount_insert_old (active_of b (fs_runs s)) (fs_backfill_chunks s) cid old row Eo). lia.
      * rewrite mcount_insert_new by done. lia.
Qed.

Lemma pass_events s es b :
  Forall plans_chunk es -> planned_chunks_at s ->
  planned_chunks_at (fold_events s es) /\ fs_runs (fold_events s es) = fs_runs s /\
  active_chunks b (fold_events s es) <= length (List.filter (is_plan_of b) es) + active_chunks b s.
Proof.
  revert s. induction es as [|e es IH]; intros s Hes Hp; [split_and!; [done|done|simpl; lia]|].
  apply Forall_cons in Hes as [He Hes].
  destruct (pass_event s e b He Hp) as (Hp1 & Hr1 & Hc1).
  destruct (IH (fold_event s e) Hes Hp1) as (Hp2 & Hr2 & Hc2).
  split_and!; [done|simpl; congruence|]. simpl. destruct (is_plan_of b e); simpl in *; lia.
Qed.
End FoldPass.

(** ** Counting the events of a pass *)

Lemma filter_bind_le {A B} (f : B -> bool) (g : A -> list B) (l : list A) (n : nat) :
  (forall a, a ∈ l -> length (List.filter f (g a)) <= n) ->
  length (List.filter f (l ≫= g)) <= length l * n.
Proof.
  induction l as [|a l IH]; intros Hn; [done|]. rewrite bind_cons, List.filter_app, length_app.
  pose proof (Hn a (list_elem_of_here _ _)). specialize (IH (fun a' Ha' => Hn a' (list_elem_of_further _ _ _ Ha'))).
  simpl. lia.
Qed.

Lemma chunk_events_plans b row i keys b' :
  length (List.filter (is_plan_of b') (chunk_events b row i keys)) <= Nat.b2n (bool_decide (b = b')).
Proof.
  unfold chunk_events, plan_chunk. simpl. destruct keys; simpl; [lia|].
  unfold is_plan_of. simpl. case_bool_decide; simpl; lia.
Qed.

(** The events of one backfill: its indices, and how many they are. *)
Lemma reconcile_backfill_spec chunks runs b row :
  exists ix,
    reconcile_backfill next_event_id chunks runs b row =
      (ix ≫= fun i => chunk_events b row i (chunk_keys row i)) /\
    plannable chunks b row (total_chunks row) (bf_planned_chunks row) ix /\
    (ix <> [] -> bf_state row = BfRunning) /\
    (N.of_nat (length ix) <= bf_max_concurrent_runs row - count_active_chunks b chunks runs)%N /\
    (bf_state row = BfRunning -> (0 < bf_chunk_size row)%N ->
     (forall i, (bf_planned_chunks row <= i < total_chunks row)%N ->
        exists k keys, get_chunk_partitions row i = BOk (k :: keys)) ->
     N.of_nat (length ix) = (bf_max_concurrent_runs row - count_active_chunks b chunks runs)%N \/
     forall i, (bf_planned_chunks row <= i < total_chunks row)%N ->
       chunks !! chunk_id_of b i = None -> i ∈ ix).
Proof.
  assert (plannable chunks b row (total_chunks row) (bf_planned_chunks row) []) as Hnil by (split; constructor).
  unfold reconcile_backfill. case_bool_decide as Hs; simpl.
  2:{ exists []. split_and!; try done; simpl; lia. }
  destruct (N.eqb_spec (bf_chunk_size row) 0); simpl.
  { exists []. split_and!; try done; simpl; lia. }
  destruct (N.eqb_spec (bf_max_concurrent_runs row) 0) as [E|]; simpl.
  { exists []. split_and!; try done; simpl; [lia|]. left. lia. }
  destruct (N.eqb_spec (total_chunks row) 0); simpl.
  { exists []. split_and!; try done; simpl; [lia|]. right. lia. }
  destruct (N.eqb_spec (bf_max_concurrent_runs row - count_active_chunks b chunks runs) 0); simpl.
  { exists []. split_and!; try done; simpl; [lia|]. left. lia. }
  destruct (plan_chunks_spec (N.to_nat (total_chunks row)) b row chunks
    (bf_max_concurrent_runs row - count_active_chunks b chunks runs) (total_chunks row) 0
    (bf_planned_chunks row)) as (ix & -> & Hpl & Hlen & Hmax).
  exists ix. split_and!; try done; [lia|]. intros _ _ Hall.
  destruct Hmax as [?|?]; [done|lia|left; lia|by right].
Qed.

Lemma reconcile_plans chunks runs b row b' :
  length (List.filter (is_plan_of b') (reconcile_backfill next_event_id chunks runs b row)) <=
  if decide (b = b') then N.to_nat (bf_max_concurrent_runs row - count_active_chunks b chunks runs) else 0.
Proof.
  destruct (reconcile_backfill_spec chunks runs b row) as (ix & -> & _ & _ & Hlen & _).
  etrans; [apply (filter_bind_le _ _ _ (Nat.b2n (bool_decide (b = b')))); intros; apply chunk_events_plans|].
  case_decide; [rewrite bool_decide_true by done|rewrite bool_decide_false by done]; simpl; lia.
Qed.

Lemma pass_plans c w (backfills : gmap string BackfillRow) chunks runs b row :
  backfills !! b = Some row ->
  length (List.filter (is_plan_of b) (backfill_reconcile next_event_id c w backfills chunks runs)) <=
  N.to_nat (bf_max_concurrent_runs row - count_active_chunks b chunks runs).
Proof.
  intros Hb. unfold backfill_reconcile. destruct (is_fresh _ _); simpl; [|lia].
  assert (forall kv, kv ∈ map_to_list backfills -> kv.1 = b -> kv.2 = row) as Hin.
  { intros [k v] Hkv%elem_of_map_to_list; simpl. intros ->. congruence. }
  pose proof (NoDup_fst_map_to_list backfills) as Hnd. revert Hin Hnd.
  induction (map_to_list backfills) as [|[k v] l IH]; intros Hin Hnd; [simpl; lia|].
  rewrite bind_cons, List.filter_app, length_app. apply NoDup_cons in Hnd as [Hk Hnd].
  pose proof (reconcile_plans chunks runs k v b) as Hh. case_decide as E.
  - subst k. assert (v = row) as -> by exact (Hin (b, v) (list_elem_of_here _ _) eq_refl).
    enough (length (List.filter (is_plan_of b) (l ≫= fun kb => reconcile_backfill next_event_id chunks runs kb.1 kb.2)) <= 0) as H0' by (simpl in *; lia).
    rewrite <- (Nat.mul_0_r (length l)). apply filter_bind_le. intros [k' v'] Hk'.
    pose proof (reconcile_plans chunks runs k' v' b) as Hr. case_decide; [|simpl; lia]. subst k'.
    destruct Hk. by apply (list_elem_of_fmap_2 fst) in Hk'.
  - specialize (IH (fun kv Hkv => Hin kv (list_elem_of_further _ _ _ Hkv)) Hnd). simpl in *. lia.
Qed.

(** Every event of a pass plans a missing chunk of a running backfill, with the
    partitions of its index. *)
Definition planned_right (s : FoldState) (cid b : string) (i : u32) (keys : list string) : Prop :=
  exists row, fs_backfills s !! b = Some row /\ bf_state row = BfRunning /\
    cid = chunk_id_of b i /\ (bf_planned_chunks row <= i < total_chunks row)%N /\
    get_chunk_partitions row i = BOk keys.

Lemma pass_plans_right c w s :
  Forall (plans_chunk (fun cid => fs_backfill_chunks s !! cid = None) (planned_right s))
    (backfill_reconcile next_event_id c w (fs_backfills s) (fs_backfill_chunks s) (fs_runs s)).
Proof.
  unfold backfill_reconcile. destruct (is_fresh _ _); simpl; [|constructor].
  apply Forall_forall. intros e ([b row] & He & Hb%elem_of_map_to_list)%list_elem_of_bind. simpl in He.
  destruct (reconcile_backfill_spec (fs_backfill_chunks s) (fs_runs s) b row)
    as (ix & Hev & [_ Hf] & Hrun & _). rewrite Hev in He.
  apply list_elem_of_bind in He as (i & He & Hi). rewrite Forall_forall in Hf.
  destruct (Hf i Hi) as (Hbd & Hn & k & keys & Hg).
  assert (bf_state row = BfRunning) as Hst by (apply Hrun; intros ->; by apply elem_of_nil in Hi).
  assert (chunk_keys row i = k :: keys) as Hk by (unfold chunk_keys; by rewrite Hg).
  unfold chunk_events, plan_chunk in He. simpl in He. rewrite Hk in He. rewrite !elem_of_cons in He.
  unfold plans_chunk. destruct He as [->|[->|He]]; [| |by apply elem_of_nil in He]; simpl; [|done].
  split; [done|]. exists row. done.
Qed.
End Pass.

Section Claims.
Context `{Hashes} `{Chrono} `{SerdeJson} `{HR : PartitionResolver} `{!PartitionResolverLaws}.

(** C18: planning a backfill.  Take a pass of the controller over a state, with a fresh
    watermark, and a running backfill whose partitions resolve.  The chunks of its indices, put end to
    end, are exactly the partitions it selects, none empty and none above the chunk size.
    Folding the events of the pass never takes the chunks in flight above
    [max_concurrent_runs] (nor above what they were).  Every chunk row the pass adds, of any
    backfill, is a missing chunk of a running backfill with the partitions of its index.  And
    the pass does not hold back: it plans as many chunks as the limit leaves, or all that are
    missing. *)
Theorem backfill_pass_correct next_event_id c w s b row keys :
  let events := backfill_reconcile next_event_id c w (fs_backfills s) (fs_backfill_chunks s) (fs_runs s) in
  let s' := fold_events s events in
  fs_backfills s !! b = Some row -> bf_state row = BfRunning -> (0 < bf_chunk_size row)%N ->
  selected_partitions row = Some keys -> (N.of_nat (length keys) < u32_modulus)%N ->
  (N.of_nat (size (fs_backfill_chunks s)) < u32_modulus)%N ->
  is_fresh w (bk_max_compaction_lag c) = true ->
  (concat ((fun i => chunk_keys row (N.of_nat i)) <$> seq 0 (N.to_nat (total_chunks row))) = keys /\
   forall i, (i < total_chunks row)%N -> 0 < length (chunk_keys row i) <= N.to_nat (bf_chunk_size row)) /\
  (N.of_nat (active_chunks b s') <= N.max (N.of_nat (active_chunks b s)) (bf_max_concurrent_runs row))%N /\
  (forall cid ch, fs_backfill_chunks s' !! cid = Some ch -> fs_backfill_chunks s !! cid = None ->
     bc_state ch = ChunkPlanned /\
     planned_right s cid (bc_backfill_id ch) (bc_chunk_index ch) (bc_partition_keys ch)) /\
  (exists ix, NoDup ix /\
     (forall i, i ∈ ix -> exists e rk fp, e ∈ events /\
        ev_data e = BackfillChunkPlanned b (chunk_id_of b i) i (chunk_keys row i) rk fp) /\
     (N.of_nat (length ix) = bf_max_concurrent_runs row - N.of_nat (active_chunks b s) \/
      forall i, (bf_planned_chunks row <= i < total_chunks row)%N ->
        fs_backfill_chunks s !! chunk_id_of b i = None -> i ∈ ix)%N).
Proof.
  intros events s' Hb Hrun Hcs Hk Hl Hsz Hfresh.
  destruct (chunk_keys_tile row keys Hk Hcs Hl) as [Htile Hlen].
  assert (count_active_chunks b (fs_backfill_chunks s) (fs_runs s) = N.of_nat (active_chunks b s)) as Hact.
  { change (as_u32 (active_chunks b s) = N.of_nat (active_chunks b s)). unfold as_u32.
    apply N.mod_small. unfold active_chunks.
    pose proof (mcount_le_size (active_of b (fs_runs s)) (fs_backfill_chunks s)). lia. }
  destruct (pass_events (fun cid => fs_backfill_chunks s !! cid = None) (planned_right s) s events b)
    as (Hpl & _ & Hcnt); [apply pass_plans_right|intros cid ch Hn Hs; congruence|].
  pose proof (pass_plans next_event_id c w (fs_backfills s) (fs_backfill_chunks s) (fs_runs s) b row Hb) as Hpp.
  fold events in Hpp. fold s' in Hcnt, Hpl. rewrite Hact in Hpp. split_and!.
  - done.
  - intros i Hi. by apply Hlen.
  - lia.
  - intros cid ch Hs Hn. by apply Hpl.
  - destruct (reconcile_backfill_spec next_event_id (fs_backfill_chunks s) (fs_runs s) b row)
      as (ix & Hev & [Hsort Hfa] & _ & _ & Hmax). exists ix.
    assert (forall i, (i < total_chunks row)%N -> exists k ks, get_chunk_partitions row i = BOk (k :: ks)) as Hres.
    { intros i Hi. destruct (Hlen i Hi) as [-> Hpos]. destruct (chunk_keys row i); [simpl in Hpos; lia|eauto]. }
    rewrite Hact in Hmax. split_and!.
    + clear -Hsort. induction Hsort as [|i ix Hs IH Hf]; constructor; [|done].
      rewrite Forall_forall in Hf. intros Hi%Hf. lia.
    + intros i Hi. rewrite Forall_forall in Hfa. destruct (Hfa i Hi) as (_ & _ & k & ks & Hg).
      assert (chunk_keys row i = k :: ks) as Hck by (unfold chunk_keys; by rewrite Hg).
      eexists _, (chunk_run_key b i), (partition_fingerprint (k :: ks)). split.
      * unfold events, backfill_reconcile. rewrite Hfresh. simpl. apply list_elem_of_bind.
        exists (b, row). split; [|by apply elem_of_map_to_list]. simpl. rewrite Hev.
        apply list_elem_of_bind. exists i. split; [|done]. unfold chunk_events, plan_chunk. simpl.
        rewrite Hck. apply list_elem_of_here.
      * simpl. by rewrite Hck.
    + apply Hmax; [done|done|]. intros i Hi. apply Hres. lia.
Qed.

(** ** A backfill stops after its first chunks *)

Definition all_planned (s : FoldState) : Prop :=
  forall cid ch, fs_backfill_chunks s !! cid = Some ch -> bc_state ch = ChunkPlanned.

Lemma all_planned_event s e : all_planned s -> all_planned (fold_event s e).
Proof.
  intros Hp. destruct (fold_event_tables s e) as [->|(s1 & b & Ha & _ & _ & _ & _ & _ & Hc & _)]; [done|].
  assert (s1 = (apply_event s e).1) as -> by by rewrite Ha.
  enough (all_planned (apply_event s e).1) as H' by (intros cid ch; rewrite Hc; apply H').
  clear Hc Ha. destruct (ev_data e) as [| | | | | | | | | | | | | | | |rk fp asel psel src lb cv
    |bid crid asel cv sel tp cs mcr pbid|bid cid idx pks rk fp|bid fs ts sv cb|] eqn:He;
    try (intros cid' ch; rewrite backfill_chunks_frame by (by rewrite He); apply Hp).
  - unfold apply_event. rewrite He. case_match; [done|]. unfold fold_run_requested.
    case_match; [by case_match|]. destruct src as [| |b' cid|]; try done.
    intros k ch. simpl. rewrite lookup_alter. case_decide; [|apply Hp]. subst.
    destruct (fs_backfill_chunks s !! k) as [ch0|] eqn:Ec; [|done]. intros [= <-]. exact (Hp k ch0 Ec).
  - unfold apply_event. rewrite He. unfold fold_backfill_chunk_planned. case_match; [done|].
    intros k ch. simpl. rewrite lookup_insert. case_decide; [by intros [= <-]|apply Hp].
Qed.

Lemma all_planned_fold s es : all_planned s -> all_planned (fold_events s es).
Proof. revert s. induction es as [|e es IH]; intros s Hs; [done|]. apply IH, all_planned_event, Hs. Qed.

(** No event moves a chunk out of the state it is planned in.  In every state folded from
    the ledger, once a backfill has [max_concurrent_runs] chunks, no pass plans another one,
    whatever became of the runs of those chunks: the backfill stops there, although partitions
    are left, and stays RUNNING. *)
Theorem backfill_stalls next_event_id secret es runs b row :
  let s := fold_events (fold_state_new secret) es in
  fs_backfills s !! b = Some row -> (N.of_nat (size (fs_backfill_chunks s)) < u32_modulus)%N ->
  (bf_max_concurrent_runs row <=
     N.of_nat (mcount (fun _ ch => bool_decide (bc_backfill_id ch = b)) (fs_backfill_chunks s)))%N ->
  reconcile_backfill next_event_id (fs_backfill_chunks s) runs b row = [].
Proof.
  intros s Hb Hsz Hn.
  assert (count_active_chunks b (fs_backfill_chunks s) runs =
    N.of_nat (mcount (fun _ ch => bool_decide (bc_backfill_id ch = b)) (fs_backfill_chunks s))) as Ha.
  { unfold count_active_chunks, as_u32.
    rewrite (mcount_ext _ (fun _ ch => bool_decide (bc_backfill_id ch = b)) (fs_backfill_chunks s)).
    - apply N.mod_small. pose proof (mcount_le_size (fun _ ch => bool_decide (bc_backfill_id ch = b))
        (fs_backfill_chunks s)). lia.
    - intros cid ch Hc. unfold chunk_is_active.
      rewrite (all_planned_fold (fold_state_new secret) es (fun cid ch Hc => ltac:(done)) cid ch Hc).
      apply andb_true_r. }
  unfold reconcile_backfill. rewrite Ha. case_bool_decide; [simpl|done]. case_match; [done|].
  replace (_ - _)%N with 0%N by lia. by rewrite orb_true_r.
Qed.

(** ** Commands *)

(** Of the commands issued on the same row of a backfill, the first one folded takes effect,
    under the next version, and the others never do: the state they start from is gone. *)
Theorem backfill_commands_serialize next_event_id next_event_id' s b row to to' t w t' w' by_ by' e e' :
  fs_backfills s !! b = Some row -> (bf_state_version row + 1 < u32_modulus)%N ->
  transition next_event_id b row to t w by_ = BOk e ->
  transition next_event_id' b row to' t' w' by' = BOk e' ->
  ~ claimed s e -> str_leb (ev_event_id e) (bf_row_version row) = false ->
  let s1 := fold_event s e in
  (exists row1, fs_backfills s1 !! b = Some row1 /\ bf_state row1 = to /\
     bf_state_version row1 = (bf_state_version row + 1)%N) /\
  fs_backfills (fold_event s1 e') = fs_backfills s1.
Proof.
  intros Hb Hv Ht Ht' Hc Hid s1. unfold transition in Ht, Ht'.
  destruct (is_valid_transition (bf_state row) to) eqn:E1; [|done].
  destruct (is_valid_transition (bf_state row) to') eqn:E2; [|done]. simpl in Ht, Ht'.
  rewrite u32_add_small in Ht, Ht' by done.
  set (d := BackfillStateChanged b (bf_state row) to (bf_state_version row + 1) by_) in Ht.
  set (d' := BackfillStateChanged b (bf_state row) to' (bf_state_version row + 1) by') in Ht'.
  assert (ev_data e = d) as Hd by (by inversion Ht). assert (ev_data e' = d') as Hd' by (by inversion Ht').
  assert (fs_backfills s1 = <[b := row <| bf_state := to |> <| bf_state_version := (bf_state_version row + 1)%N |>
    <| bf_row_version := ev_event_id e |>]> (fs_backfills s)) as Hs1.
  { unfold s1, fold_event. apply eq_None_not_Some in Hc. rewrite Hc. unfold apply_event. rewrite Hd. unfold d.
    unfold fold_backfill_state_changed. rewrite Hb, Hid, bool_decide_true, E1 by done. simpl.
    rewrite u32_saturating_add_small, N.eqb_refl by done. simpl. unfold record_idempotency_key. by case_match. }
  split; [eexists; rewrite Hs1, lookup_insert_eq; done|].
  unfold fold_event. destruct (fs_idempotency_keys s1 !! _); [done|].
  unfold apply_event. rewrite Hd'. unfold d', fold_backfill_state_changed. rewrite Hs1, lookup_insert_eq. simpl.
  destruct (str_leb (ev_event_id e') (ev_event_id e)); [simpl; by rewrite Hs1|].
  case_bool_decide as E3; [|simpl; by rewrite Hs1].
  exfalso. rewrite E3 in E1. by destruct (bf_state row).
Qed.
End Claims.

(** ** Evaluation *)

Module BackfillSample.
(** Every range holds five partitions. *)
#[export] Instance five_partitions : PartitionResolver := {|
  count_range := fun _ _ _ => 5%N;
  list_range_chunk := fun _ _ _ offset limit =>
    take (N.to_nat limit) (drop (N.to_nat offset) ["p0"; "p1"; "p2"; "p3"; "p4"])
|}.

#[export] Instance five_partitions_laws : PartitionResolverLaws.
Proof. by exists (fun _ _ _ => ["p0"; "p1"; "p2"; "p3"; "p4"]). Defined.

Definition new_id : OrchestrationEventData -> string := fun _ => "09".

(** Created through the controller: chunks of two partitions, two runs at a time. *)
Definition request : CreateBackfillRequest :=
  mkCreateBackfillRequest "bf" "t" "w" ["ns.asset"] "p0" "p4" 2 2 "req".

Definition started : FoldState :=
  match create new_id backfill_controller_new request with
  | BOk e => fold_event sample_new e
  | BErr _ => sample_new
  end.

Definition fresh_watermarks : Watermarks := mkWatermarks None None None None 0.

Definition one_pass (s : FoldState) : list OrchestrationEvent :=
  backfill_reconcile new_id backfill_controller_new fresh_watermarks (fs_backfills s)
    (fs_backfill_chunks s) (fs_runs s).

(** The first pass plans chunks 0 and 1; no later pass plans chunk 2. *)
Example stalls_after_two :
  length (one_pass started) = 4 /\
  let s := fold_events started (one_pass started) in
  one_pass s = [] /\ fs_backfill_chunks s !! chunk_id_of "bf" 2 = None.
Proof. vm_compute. split_and!; reflexivity. Qed.

Lemma pass_witness :
  (N.of_nat (active_chunks "bf" (fold_events started (one_pass started))) <= 2)%N.
Proof.
  take (fs_backfills started !! "bf") as row with Hrow.
  assert ((fun r => (bf_state r, bf_chunk_size r, bf_max_concurrent_runs r, selected_partitions r)) <$>
    fs_backfills started !! "bf" = Some (BfRunning, 2%N, 2%N, Some ["p0"; "p1"; "p2"; "p3"; "p4"])) as Hr
    by (vm_compute; reflexivity).
  rewrite Hrow in Hr. injection Hr as Hs Hc Hm Hk.
  destruct (backfill_pass_correct new_id backfill_controller_new fresh_watermarks started "bf" row
    ["p0"; "p1"; "p2"; "p3"; "p4"]) as (_ & Hlim & _).
  - exact Hrow.
  - exact Hs.
  - rewrite Hc. reflexivity.
  - exact Hk.
  - vm_compute. reflexivity.
  - vm_compute. reflexivity.
  - reflexivity.
  - rewrite Hm in Hlim. refine (N.le_trans _ _ _ Hlim _). vm_compute. discriminate.
Defined.
End BackfillSample.
