(* ===== verification/AutomationControl.v ===== *)
(** The schedule and sensor controllers, and partition staleness:
    [controllers/schedule.rs], [controllers/sensor.rs], [controllers/sensor_evaluator.rs]
    and [controllers/partition_status.rs].

    Cron expressions and time zones are those of the [cron] and [chrono-tz] crates, and what
    a sensor finds is up to its evaluator: both are parameters.  Event ids are a function of
    the payload, [utc_now] is [Utc::now()]. *)

From S2P Require Import Prelude Events FoldTypes FoldTasks FoldDispatch FoldAutomation Fold Compactor Manifest Timers TaskTokens BackfillControl.
From stdpp Require Import options.

(** ** Cron expressions *)

(** [Schedule::from_str], [Tz::from_str] and the iterator [Schedule::after], by its next
    element: the first time of the schedule after an instant. *)
Class Cron := {
  Schedule : Type;
  Tz : Type;
  schedule_from_str : string -> Schedule + string;
  tz_from_str : string -> option Tz;
  next_after : Schedule -> Tz -> DateTime -> option DateTime
}.

(** [s.split_whitespace().count()]: a field starts where a character that is not white
    follows the beginning or white space. *)
Fixpoint count_fields (in_field : bool) (s : string) : nat :=
  let other rest := (if in_field then 0 else 1) + rest in
  match s with
  | EmptyString => 0
  | String a s1 =>
      if white1 a then count_fields false s1
      else match s1 with
           | EmptyString => other 0
           | String b s2 =>
               if white2 a b then count_fields false s2
               else match s2 with
                    | EmptyString => other (count_fields true s1)
                    | String c s3 =>
                        if white3 a b c then count_fields false s3
                        else other (count_fields true s1)
                    end
           end
  end.

Section Schedules.
Context `{Hashes} `{Chrono} `{Cron}.

Definition parse_cron_expression (expression : string) : Schedule + string :=
  let parse normalized :=
    match schedule_from_str normalized with
    | inl schedule => inl schedule
    | inr e => inr ("invalid cron expression: " +:+ e)
    end in
  match count_fields false expression with
  | 5 => parse ("0 " +:+ expression)
  | 6 => parse expression
  | _ => inr ("invalid cron expression (expected 5 or 6 fields): " +:+ expression)
  end.

(** [schedule.after(&start).take_while(|t| t <= now).take(n)] *)
Fixpoint ticks_after (schedule : Schedule) (tz : Tz) (now : DateTime) (n : nat) (start : DateTime) :
    list DateTime :=
  match n with
  | O => []
  | S n =>
      match next_after schedule tz start with
      | None => []
      | Some t => if (t <=? now)%Z then t :: ticks_after schedule tz now n t else []
      end
  end.

Definition due_start (last_scheduled_for : option DateTime) (now : DateTime) (catchup_window : Z) :
    DateTime :=
  let start := match last_scheduled_for with
               | None => (now - catchup_window)%Z
               | Some t => (t + seconds 1)%Z
               end in
  let min_start := (now - catchup_window)%Z in
  if (start <? min_start)%Z then min_start else start.

Definition compute_due_ticks (schedule : Schedule) (last_scheduled_for : option DateTime)
    (now : DateTime) (max_catchup : u32) (catchup_window : Z) (tz : Tz) : list DateTime :=
  ticks_after schedule tz now (N.to_nat max_catchup) (due_start last_scheduled_for now catchup_window).

(** [compute_request_fingerprint] of the schedule controller *)
Definition selection_fingerprint (asset_selection : list string)
    (partition_selection : option (list string)) : string :=
  let input := join "," (sort_strings asset_selection) in
  sha256_hex
    match partition_selection with
    | None => input
    | Some partitions => input +:+ ";partitions:" +:+ join "," (sort_strings partitions)
    end.

Definition tick_id_at (schedule_id : string) (scheduled_for : DateTime) : string :=
  schedule_id +:+ ":" +:+ pretty (timestamp_secs scheduled_for).

Definition tick_run_key (schedule_id : string) (scheduled_for : DateTime) : string :=
  "sched:" +:+ schedule_id +:+ ":" +:+ pretty (timestamp_secs scheduled_for).

Context (next_event_id : OrchestrationEventData -> string).

Definition definition_event (def : ScheduleDefinitionRow) (d : OrchestrationEventData)
    (emitted_at : DateTime) : OrchestrationEvent :=
  new_with_timestamp (next_event_id d) (sd_tenant_id def) (sd_workspace_id def) d emitted_at.

Definition create_tick_event (def : ScheduleDefinitionRow) (scheduled_for emitted_at : DateTime) :
    OrchestrationEvent :=
  let tick_id := tick_id_at (sd_schedule_id def) scheduled_for in
  let run_key := tick_run_key (sd_schedule_id def) scheduled_for in
  let fingerprint := selection_fingerprint (sd_asset_selection def) None in
  definition_event def
    (ScheduleTicked (sd_schedule_id def) scheduled_for tick_id (sd_row_version def)
       (sd_asset_selection def) None TickTriggered (Some run_key) (Some fingerprint)) emitted_at.

Definition create_paused_tick_event (def : ScheduleDefinitionRow)
    (scheduled_for emitted_at : DateTime) : OrchestrationEvent :=
  let tick_id := tick_id_at (sd_schedule_id def) scheduled_for in
  definition_event def
    (ScheduleTicked (sd_schedule_id def) scheduled_for tick_id (sd_row_version def)
       (sd_asset_selection def) None (TickSkipped "paused") None None) emitted_at.

Definition error_tick (def : ScheduleDefinitionRow) (error : string) (now : DateTime) :
    OrchestrationEvent :=
  let tick_id := tick_id_at (sd_schedule_id def) now in
  definition_event def
    (ScheduleTicked (sd_schedule_id def) now tick_id (sd_row_version def) (sd_asset_selection def)
       None (TickFailed error) None None) now.

Definition build_run_request (def : ScheduleDefinitionRow) (tick_event : OrchestrationEvent) :
    option OrchestrationEvent :=
  match ev_data tick_event with
  | ScheduleTicked _ _ tick_id _ asset_selection partition_selection TickTriggered run_key
      request_fingerprint =>
      run_key ← run_key;
      Some (definition_event def
              (RunRequested run_key (default "" request_fingerprint) asset_selection
                 partition_selection (RefSchedule (sd_schedule_id def) tick_id) ∅
                 (sd_code_version def)) (ev_timestamp tick_event))
  | _ => None
  end.

(** [ScheduleController]: the default catch-up window. *)
Definition schedule_controller_new : Z := seconds (24 * 3600).

Definition catchup_window (default_catchup_window : Z) (def : ScheduleDefinitionRow) : Z :=
  if (sd_catchup_window_minutes def =? 0)%N then default_catchup_window
  else minutes (Z.of_N (sd_catchup_window_minutes def)).

(** The events of one due tick. *)
Definition tick_events (def : ScheduleDefinitionRow) (scheduled_for : DateTime) :
    list OrchestrationEvent :=
  let tick_event :=
    if sd_enabled def then create_tick_event def scheduled_for utc_now
    else create_paused_tick_event def scheduled_for utc_now in
  tick_event :: match build_run_request def tick_event with Some run_req => [run_req] | None => [] end.

Definition reconcile_definition (default_catchup_window : Z) (def : ScheduleDefinitionRow)
    (state_map : gmap string ScheduleStateRow) (now : DateTime) : list OrchestrationEvent :=
  match parse_cron_expression (sd_cron_expression def) with
  | inr e => [error_tick def e now]
  | inl schedule =>
      match tz_from_str (sd_timezone def) with
      | None => [error_tick def ("invalid timezone: " +:+ sd_timezone def) now]
      | Some tz =>
          let last_scheduled_for :=
            s ← state_map !! sd_schedule_id def; ss_last_scheduled_for s in
          let ticks :=
            compute_due_ticks schedule last_scheduled_for now (sd_max_catchup_ticks def)
              (catchup_window default_catchup_window def) tz in
          ticks ≫= tick_events def
      end
  end.

(** [ScheduleController::reconcile] *)
Definition schedule_reconcile (default_catchup_window : Z) (definitions : list ScheduleDefinitionRow)
    (state : list ScheduleStateRow) (now : DateTime) : list OrchestrationEvent :=
  let state_map := insert_all ((fun s => (ss_schedule_id s, s)) <$> state) ∅ in
  definitions ≫= fun def => reconcile_definition default_catchup_window def state_map now.

Definition manual_trigger (def : ScheduleDefinitionRow) (now : DateTime) : list OrchestrationEvent :=
  let tick_id := sd_schedule_id def +:+ ":manual:" +:+ pretty (timestamp_secs now) in
  let run_key := "sched:" +:+ sd_schedule_id def +:+ ":manual:" +:+ pretty (timestamp_secs now) in
  let fingerprint := selection_fingerprint (sd_asset_selection def) None in
  [definition_event def
     (ScheduleTicked (sd_schedule_id def) now tick_id (sd_row_version def) (sd_asset_selection def)
        None TickTriggered (Some run_key) (Some fingerprint)) utc_now;
   definition_event def
     (RunRequested run_key fingerprint (sd_asset_selection def) None
        (RefSchedule (sd_schedule_id def) tick_id) ∅ (sd_code_version def)) utc_now].
End Schedules.

(** ** Sensors *)

Record PubSubMessage := mkPubSubMessage {
  pm_message_id : string;
  pm_data : string;
  pm_attributes : gmap string string;
  pm_publish_time : DateTime
}.

Record PollSensorResult := mkPollSensorResult {
  pr_cursor_after : option string;
  pr_run_requests : list RunRequest
}.

(** [trait SensorEvaluator]; the error is its message. *)
Class SensorEvaluator := {
  evaluate_push : string -> PubSubMessage -> list RunRequest + string;
  evaluate_poll : string -> option string -> PollSensorResult + string
}.

Definition NoopSensorEvaluator : SensorEvaluator := {|
  evaluate_push := fun _ _ => inl [];
  evaluate_poll := fun _ cursor_before =>
    inl (mkPollSensorResult ((fun cursor => cursor +:+ "_advanced") <$> cursor_before) [])
|}.

Definition sensor_is_stopped (status : SensorStatus) : bool :=
  match status with SensorPaused | SensorError => true | SensorActive => false end.

Definition status_of_requests (run_requests : list RunRequest) : SensorEvalStatus :=
  match run_requests with [] => EvalNoNewData | _ => EvalTriggered end.

Section Sensors.
Context `{Hashes} `{Chrono} `{SensorEvaluator}.
Context (next_event_id : OrchestrationEventData -> string).

(** The [RunRequested] event of a request of an evaluation. *)
Definition sensor_run_request (sensor_id tenant_id workspace_id eval_id : string) (req : RunRequest) :
    OrchestrationEvent :=
  let d := RunRequested (rr_run_key req) (rr_request_fingerprint req) (rr_asset_selection req)
             (rr_partition_selection req) (RefSensor sensor_id eval_id) ∅ (rr_code_version req) in
  new_with_timestamp (next_event_id d) tenant_id workspace_id d utc_now.

(** [PushSensorHandler::handle_message]; [ulid] is drawn for the evaluation. *)
Definition handle_message (ulid sensor_id tenant_id workspace_id : string)
    (sensor_status : SensorStatus) (message : PubSubMessage) : list OrchestrationEvent :=
  if sensor_is_stopped sensor_status then []
  else
    let eval_id := "eval_" +:+ sensor_id +:+ "_" +:+ ulid in
    let '(run_requests, status) :=
      match evaluate_push sensor_id message with
      | inl run_requests => (run_requests, status_of_requests run_requests)
      | inr err => ([], EvalError err)
      end in
    let d := SensorEvaluated sensor_id eval_id None (Some (pm_message_id message)) None
               (SrcPush (pm_message_id message)) run_requests status in
    new_with_timestamp (next_event_id d) tenant_id workspace_id d utc_now ::
    (sensor_run_request sensor_id tenant_id workspace_id eval_id <$> run_requests).

(** [PushSensorHandler::manual_evaluate]; [payload] is the serialized sample. *)
Definition manual_evaluate (ulid message_ulid sensor_id tenant_id workspace_id payload : string) :
    list OrchestrationEvent :=
  let message := mkPubSubMessage ("manual_" +:+ message_ulid) payload ∅ utc_now in
  handle_message ulid sensor_id tenant_id workspace_id SensorActive message.

(** [PollSensorController::should_evaluate] *)
Definition should_evaluate (min_poll_interval : Z) (state : SensorStateRow) (now : DateTime) : bool :=
  if sensor_is_stopped (se_status state) then false
  else
    match se_last_evaluation_at state with
    | Some last_eval => negb (now - last_eval <? min_poll_interval)%Z
    | None => true
    end.

(** [PollSensorController::evaluate] *)
Definition evaluate (ulid sensor_id tenant_id workspace_id : string) (state : SensorStateRow)
    (poll_epoch : i64) : list OrchestrationEvent :=
  if sensor_is_stopped (se_status state) then []
  else
    let eval_id := "eval_" +:+ sensor_id +:+ "_" +:+ ulid in
    let cursor_before := se_cursor state in
    let '(cursor_after, run_requests, status) :=
      match evaluate_poll sensor_id cursor_before with
      | inl (mkPollSensorResult cursor_after run_requests) =>
          (cursor_after, run_requests, status_of_requests run_requests)
      | inr err => (cursor_before, [], EvalError err)
      end in
    let d := SensorEvaluated sensor_id eval_id cursor_before cursor_after
               (Some (se_state_version state)) (SrcPoll poll_epoch) run_requests status in
    new_with_timestamp (next_event_id d) tenant_id workspace_id d utc_now ::
    (sensor_run_request sensor_id tenant_id workspace_id eval_id <$> run_requests).
End Sensors.

(** ** Staleness of partitions *)

(** [FreshnessPolicy]: [maximum_lag_minutes]. *)
Definition freshness_policy_default : u32 := (60 * 24)%N.

Inductive StalenessReason :=
  | NeverMaterialized
  | FreshnessPolicy
  | UpstreamChanged
  | UpstreamNeverMaterialized
  | CodeChanged.

Record StalenessResult := mkStalenessResult {
  sr_is_stale : bool;
  sr_reason : option StalenessReason;
  sr_stale_since : option DateTime
}.

Definition code_changed (partition : PartitionStatusRow) (current_code_version : option string) : bool :=
  match current_code_version, ps_last_materialization_code_version partition with
  | Some current, Some last => negb (String.eqb current last)
  | _, _ => false
  end.

Definition policy_staleness (last_mat : DateTime) (maximum_lag_minutes : u32) (now : DateTime) :
    StalenessResult :=
  let deadline := (last_mat + minutes (Z.of_N maximum_lag_minutes))%Z in
  if (deadline <? now)%Z then mkStalenessResult true (Some FreshnessPolicy) (Some deadline)
  else mkStalenessResult false None None.

Definition compute_staleness (partition : PartitionStatusRow) (maximum_lag_minutes : u32)
    (current_code_version : option string) (now : DateTime) : StalenessResult :=
  match ps_last_materialization_at partition with
  | None => mkStalenessResult true (Some NeverMaterialized) None
  | Some last_mat =>
      if code_changed partition current_code_version then
        mkStalenessResult true (Some CodeChanged) (Some now)
      else policy_staleness last_mat maximum_lag_minutes now
  end.

(** The loop over the upstreams: the first one materialized after [last_mat]. *)
Fixpoint first_newer (last_mat : DateTime) (upstreams : list PartitionStatusRow) : option DateTime :=
  match upstreams with
  | [] => None
  | upstream :: rest =>
      match ps_last_materialization_at upstream with
      | Some upstream_mat =>
          if (last_mat <? upstream_mat)%Z then Some upstream_mat else first_newer last_mat rest
      | None => first_newer last_mat rest
      end
  end.

Definition compute_staleness_with_upstreams (partition : PartitionStatusRow)
    (upstreams : list PartitionStatusRow) (maximum_lag_minutes : u32)
    (current_code_version : option string) (now : DateTime) : StalenessResult :=
  match ps_last_materialization_at partition with
  | None => mkStalenessResult true (Some NeverMaterialized) None
  | Some last_mat =>
      if code_changed partition current_code_version then
        mkStalenessResult true (Some CodeChanged) (Some now)
      else if existsb (fun u => bool_decide (ps_last_materialization_at u = None)) upstreams then
        mkStalenessResult true (Some UpstreamNeverMaterialized) None
      else
        match first_newer last_mat upstreams with
        | Some upstream_mat => mkStalenessResult true (Some UpstreamChanged) (Some upstream_mat)
        | None => policy_staleness last_mat maximum_lag_minutes now
        end
  end.
