(* ===== verification/ScheduleProps.v ===== *)
(** Schedules tick once and miss nothing.

    The schedule controller composed with the fold: over any sequence of passes, with
    whatever other events in between, the ticks emitted for a schedule are its times after
    the first one it starts from, in order, each once, and each has its run. *)

From S2P Require Import Prelude Events FoldTypes FoldTasks FoldDispatch FoldAutomation Fold FoldIdempotence FoldAutoProps Compactor Manifest Timers TaskTokens BackfillControl AutomationControl Sample.
From Stdlib Require Import Sorting.Sorted.
From stdpp Require Import options.

Lemma last_shift {A} (l : list A) (u d : A) : List.last (u :: l) d = List.last l u.
Proof. revert u d. induction l as [|v l IH]; intros u d; [done|]. change (List.last (v :: l) d = List.last (v :: l) u). by rewrite !IH. Qed.

Lemma last_elem {A} (l : list A) (d : A) : List.last l d = d \/ List.last l d ∈ l.
Proof.
  revert d. induction l as [|u l IH]; intros d; [by left|]. rewrite last_shift. right.
  destruct (IH u) as [->|?]; [apply list_elem_of_here|by apply list_elem_of_further].
Qed.

Lemma sorted_last (l : list Z) d u : StronglySorted Z.lt l -> u ∈ l -> (u <= List.last l d)%Z.
Proof.
  intros Hs. revert d. induction Hs as [|v l Hs IH Hf]; intros d Hu; [by apply elem_of_nil in Hu|].
  rewrite last_shift. apply elem_of_cons in Hu as [->|Hu]; [|by apply IH].
  destruct (last_elem l v) as [->|Hin]; [done|]. rewrite Forall_forall in Hf. specialize (Hf _ Hin). lia.
Qed.

Lemma sorted_app (l1 l2 : list Z) :
  StronglySorted Z.lt l1 -> StronglySorted Z.lt l2 ->
  (forall u v, u ∈ l1 -> v ∈ l2 -> (u < v)%Z) -> StronglySorted Z.lt (l1 ++ l2).
Proof.
  intros H1 H2 Hlt. induction H1 as [|u l1 H1 IH Hf]; [done|]. simpl. constructor.
  - apply IH. intros a b Ha. apply Hlt. by apply list_elem_of_further.
  - apply Forall_app. split; [done|]. apply Forall_forall. intros v Hv. apply Hlt; [apply list_elem_of_here|done].
Qed.

(** A bound run key stays bound. *)
Lemma run_key_stays `{Hashes} `{Chrono} `{SerdeJson} s es k :
  is_Some (fs_run_key_index s !! k) -> is_Some (fs_run_key_index (fold_events s es) !! k).
Proof.
  revert s. induction es as [|e es IH]; intros s [row Hk]; [by eexists|].
  apply IH. exists row. by apply run_key_index_stable.
Qed.

(** The map of a well-keyed table is the table. *)
Lemma rekeyed_map {V} (key : V -> string) (m : gmap string V) :
  (forall k v, m !! k = Some v -> key v = k) ->
  insert_all ((fun v => (key v, v)) <$> (snd <$> map_to_list m)) ∅ = m.
Proof.
  intros Hk.
  assert ((fun v => (key v, v)) <$> (snd <$> map_to_list m) = map_to_list m) as ->.
  { rewrite <- list_fmap_compose. rewrite <- (list_fmap_id (map_to_list m)) at 2.
    apply list_fmap_ext. intros i [k v] Hi. apply list_elem_of_lookup_2, elem_of_map_to_list in Hi.
    simpl. by rewrite (Hk k v Hi). }
  apply map_eq. intros k. apply option_eq. intros v.
  rewrite insert_all_Some, elem_of_map_to_list by apply NoDup_fst_map_to_list.
  rewrite lookup_empty. naive_solver.
Qed.

(** Only its ticks write the row of a schedule. *)
Lemma schedule_state_frame `{Hashes} `{Chrono} `{SerdeJson} s e :
  (forall k row, fs_schedule_state s !! k = Some row -> ss_schedule_id row = k) ->
  (forall k row, fs_schedule_state (fold_event s e) !! k = Some row -> ss_schedule_id row = k) /\
  forall sid, match ev_data e with ScheduleTicked sid' _ _ _ _ _ _ _ _ => sid' <> sid | _ => True end ->
    fs_schedule_state (fold_event s e) !! sid = fs_schedule_state s !! sid.
Proof.
  intros Hk.
  enough ((forall k row, fs_schedule_state (apply_event s e).1 !! k = Some row -> ss_schedule_id row = k) /\
    forall sid, match ev_data e with ScheduleTicked sid' _ _ _ _ _ _ _ _ => sid' <> sid | _ => True end ->
    fs_schedule_state (apply_event s e).1 !! sid = fs_schedule_state s !! sid) as Ha.
  { unfold fold_event. destruct (fs_idempotency_keys s !! _); [done|].
    destruct (apply_event s e) as [s1 [|]]; [|done]. unfold record_idempotency_key. by destruct (_ !! _). }
  destruct (automation_event (ev_data e)) eqn:Ea.
  2:{ assert (fs_schedule_state (apply_event s e).1 = fs_schedule_state s) as ->; [|done].
      pose proof (rest_apply_event s e Ea) as Hr. unfold rest in Hr. congruence. }
  unfold apply_event. destruct (ev_data e) as [| | | | | | | | | | | | | |sid sf tid dv asel psel st rk fp
    |sid eid cb ca esv src rrs st|rk fp asel psel src lb cv|bid crid asel cv sel tp cs mcr pbid
    |bid cid idx pks rk fp|bid fs ts sv cb|] eqn:Ed; try done.
  - unfold fold_schedule_definition_upserted. case_match; done.
  - rewrite fold_schedule_ticked_eq. simpl. unfold tick_state. split.
    + intros k row. rewrite lookup_insert. case_decide; [|apply Hk]. subst k. intros [= <-].
      destruct (fs_schedule_state s !! sid) as [r|] eqn:Er; simpl;
        destruct (str_ltb _ _); try done; exact (Hk sid r Er).
    + intros sid' Hne. by rewrite lookup_insert_ne.
  - assert (fs_schedule_state (fold_sensor_evaluated s (ev_tenant_id e) (ev_workspace_id e) sid eid cb ca esv
      src rrs st (ev_timestamp e) (ev_event_id e)).1 = fs_schedule_state s) as ->; [|done].
    unfold fold_sensor_evaluated, upsert_sensor_eval. simpl. repeat (case_match; simplify_eq/=; try done).
  - case_match; [done|]. unfold fold_run_requested. case_match; [by case_match|]. by destruct src.
  - unfold fold_backfill_created. by case_match.
  - unfold fold_backfill_chunk_planned. by case_match.
  - unfold fold_backfill_state_changed. by repeat case_match.
Qed.

(** What the [cron] crate documents: the times of a schedule are whole seconds, and the
    iterator gives the first one strictly after the instant. *)
Class CronLaws `{Cron} := {
  cron_time : Schedule -> Tz -> DateTime -> Prop;
  cron_time_seconds sch tz t : cron_time sch tz t -> exists n, t = seconds n;
  next_after_some sch tz t u :
    next_after sch tz t = Some u ->
    (t < u)%Z /\ cron_time sch tz u /\ forall v, (t < v < u)%Z -> ~ cron_time sch tz v;
  next_after_none sch tz t :
    next_after sch tz t = None -> forall v, (t < v)%Z -> ~ cron_time sch tz v
}.

Section Ticks.
Context `{HCr : Cron} `{!CronLaws}.

Lemma ticks_after_spec sch tz now n start :
  let l := ticks_after sch tz now n start in
  StronglySorted Z.lt l /\ length l <= n /\
  Forall (fun u => (start < u <= now)%Z /\ cron_time sch tz u) l /\
  (forall v, cron_time sch tz v -> (start < v <= now)%Z ->
     v ∈ l \/ (length l = n /\ Forall (fun u => (u < v)%Z) l)).
Proof.
  revert start. induction n as [|n IH]; intros start; simpl.
  { split_and!; [constructor|done|constructor|]. intros v _ _. right. split; [done|constructor]. }
  destruct (next_after sch tz start) as [t|] eqn:E.
  2:{ split_and!; [constructor|simpl; lia|constructor|]. intros v Hv Hb.
      destruct (next_after_none _ _ _ E v); [lia|done]. }
  apply next_after_some in E as (Hlt & Ht & Hmin).
  destruct (Z.leb_spec t now) as [Hle|Hle].
  2:{ split_and!; [constructor|simpl; lia|constructor|]. intros v Hv Hb.
      destruct (Hmin v); [lia|done]. }
  destruct (IH t) as (Hs & Hlen & Hf & Hc). split_and!.
  - constructor; [done|]. eapply Forall_impl; [done|]. naive_solver lia.
  - simpl. lia.
  - constructor; [split; [lia|done]|]. eapply Forall_impl; [done|]. naive_solver lia.
  - intros v Hv Hb. destruct (decide (v = t)) as [->|Hne]; [left; apply list_elem_of_here|].
    destruct (decide (v < t)%Z); [destruct (Hmin v); [lia|done]|].
    destruct (Hc v Hv) as [?|[? ?]]; [lia|left; by apply list_elem_of_further|].
    right. split; [simpl; lia|]. constructor; [lia|done].
Qed.
End Ticks.

(** ** Identifiers of ticks *)

Lemma timestamp_secs_seconds n : timestamp_secs (seconds n) = n.
Proof. unfold timestamp_secs, seconds. by rewrite Z.div_mul. Qed.

Lemma tick_id_at_inj sid u v n m :
  u = seconds n -> v = seconds m -> tick_id_at sid u = tick_id_at sid v -> u = v.
Proof.
  intros -> -> E. unfold tick_id_at in E. rewrite !timestamp_secs_seconds in E.
  apply str_app_inj_l, str_app_inj_l in E. apply (inj pretty) in E. by rewrite E.
Qed.

Lemma tick_run_key_inj sid u v n m :
  u = seconds n -> v = seconds m -> tick_run_key sid u = tick_run_key sid v -> u = v.
Proof.
  intros -> -> E. unfold tick_run_key in E. rewrite !timestamp_secs_seconds in E.
  apply str_app_inj_l, str_app_inj_l, str_app_inj_l in E. apply (inj pretty) in E. by rewrite E.
Qed.

(** ** Folding the events of a tick *)

Section Passes.
Context `{HH : Hashes} `{HC : Chrono} `{HJ : SerdeJson} `{HCr : Cron} `{!CronLaws}.
Context (next_event_id : OrchestrationEventData -> string) (default_window : Z).
Context (def : ScheduleDefinitionRow) (sch : Schedule) (tz : Tz).
Hypothesis Hcron : parse_cron_expression (sd_cron_expression def) = inl sch.
Hypothesis Htz : tz_from_str (sd_timezone def) = Some tz.

Abbreviation sid := (sd_schedule_id def).

Definition tick_event_of (u : DateTime) : OrchestrationEvent :=
  if sd_enabled def then create_tick_event next_event_id def u utc_now
  else create_paused_tick_event next_event_id def u utc_now.

Definition request_of (u : DateTime) : OrchestrationEvent :=
  definition_event next_event_id def
    (RunRequested (tick_run_key sid u) (selection_fingerprint (sd_asset_selection def) None)
       (sd_asset_selection def) None (RefSchedule sid (tick_id_at sid u)) ∅ (sd_code_version def)) utc_now.

Lemma tick_events_eq u :
  tick_events next_event_id def u =
  tick_event_of u :: if sd_enabled def then [request_of u] else [].
Proof. unfold tick_events, tick_event_of. by destruct (sd_enabled def). Qed.

(** Later ticks get larger event ids: ids are drawn in order. *)
Hypothesis ids_increase : forall u v, cron_time sch tz u -> cron_time sch tz v -> (u < v)%Z ->
  str_ltb (ev_event_id (tick_event_of u)) (ev_event_id (tick_event_of v)) = true.

(** The last time a schedule ticked for, and what the fold still accepts after it. *)
Definition last_tick (s : FoldState) : option DateTime :=
  row ← fs_schedule_state s !! sid; ss_last_scheduled_for row.

Definition row_older (s : FoldState) (u : DateTime) : Prop :=
  forall row, fs_schedule_state s !! sid = Some row ->
    str_ltb (ss_row_version row) (ev_event_id (tick_event_of u)) = true.

Record open_after (s : FoldState) (last : DateTime) : Prop := {
  oa_keyed : forall k row, fs_schedule_state s !! k = Some row -> ss_schedule_id row = k;
  oa_last : last_tick s = Some last;
  oa_older : forall v, cron_time sch tz v -> (last < v)%Z -> row_older s v;
  oa_free : forall v, cron_time sch tz v -> (last < v)%Z ->
    ~ claimed s (tick_event_of v) /\ ~ claimed s (request_of v)
}.

Lemma event_id_of u : ev_event_id (tick_event_of u) = next_event_id (ev_data (tick_event_of u)).
Proof. unfold tick_event_of. by destruct (sd_enabled def). Qed.

Lemma tick_key u : ev_idempotency_key (tick_event_of u) = "sched_tick:" +:+ tick_id_at sid u.
Proof. unfold tick_event_of. by destruct (sd_enabled def). Qed.

Lemma request_key u :
  ev_idempotency_key (request_of u) =
  "runreq:" +:+ (tick_run_key sid u +:+ ":" +:+
                 sha256_hex (selection_fingerprint (sd_asset_selection def) None)).
Proof. done. Qed.

(** The tick itself: the schedule is now at [u], and only the tick's key is claimed. *)
Lemma fold_tick s u row0 :
  ~ claimed s (tick_event_of u) -> fs_schedule_state s !! sid = Some row0 -> row_older s u ->
  let s1 := fold_event s (tick_event_of u) in
  (exists row, fs_schedule_state s1 = <[sid := row]> (fs_schedule_state s) /\
     ss_schedule_id row = ss_schedule_id row0 /\
     ss_last_scheduled_for row = Some u /\ ss_row_version row = ev_event_id (tick_event_of u)) /\
  fs_run_key_index s1 = fs_run_key_index s /\
  exists kr, fs_idempotency_keys s1 = <[ev_idempotency_key (tick_event_of u) := kr]> (fs_idempotency_keys s).
Proof.
  intros Hc Hrow Ho. apply eq_None_not_Some in Hc. unfold fold_event. rewrite Hc.
  assert (exists st rk fp, ev_data (tick_event_of u) = ScheduleTicked sid u (tick_id_at sid u)
    (sd_row_version def) (sd_asset_selection def) None st rk fp) as (st & rk & fp & Hd).
  { unfold tick_event_of. destruct (sd_enabled def); eauto. }
  unfold apply_event. rewrite Hd.
  set (r := fold_schedule_ticked _ _ _ _ _ _ _ _ _ _ _ _ _).
  pose proof (Ho row0 Hrow) as Hnew.
  assert (r.2 = true) as Hr2.
  { unfold r, fold_schedule_ticked. rewrite Hrow. simpl. rewrite Hnew. simpl. by case_match. }
  pose proof (fold_schedule_ticked_eq s (ev_tenant_id (tick_event_of u)) (ev_workspace_id (tick_event_of u)) sid u
    (tick_id_at sid u) (sd_row_version def) (sd_asset_selection def) None st rk fp (ev_event_id (tick_event_of u)))
    as Hr1. fold r in Hr1. destruct r as [s1 b]. simpl in Hr1, Hr2. subst b.
  unfold record_idempotency_key. subst s1. simpl. rewrite Hc. simpl. split_and!; [|done|by eexists].
  unfold tick_state. rewrite Hrow. simpl. rewrite Hnew. eexists. split_and!; [reflexivity|done..].
Qed.

Lemma record_tables s e :
  fs_idempotency_keys s !! ev_idempotency_key e = None ->
  let s1 := record_idempotency_key s e in
  fs_schedule_state s1 = fs_schedule_state s /\ fs_run_key_index s1 = fs_run_key_index s /\
  fs_idempotency_keys s1 = <[ev_idempotency_key e := idempotency_key_row e]> (fs_idempotency_keys s).
Proof. intros Hc. unfold record_idempotency_key. by rewrite Hc. Qed.

(** The request of the tick's run: its key is bound. *)
Lemma fold_request s u :
  ~ claimed s (request_of u) ->
  let s1 := fold_event s (request_of u) in
  fs_schedule_state s1 = fs_schedule_state s /\ is_Some (fs_run_key_index s1 !! tick_run_key sid u) /\
  exists kr, fs_idempotency_keys s1 = <[ev_idempotency_key (request_of u) := kr]> (fs_idempotency_keys s).
Proof.
  intros Hc. apply eq_None_not_Some in Hc. unfold fold_event. rewrite Hc.
  change (apply_event s (request_of u)) with
    (fold_run_requested s (sd_tenant_id def) (sd_workspace_id def) (tick_run_key sid u)
       (selection_fingerprint (sd_asset_selection def) None) (RefSchedule sid (tick_id_at sid u))
       (sd_code_version def) utc_now (ev_event_id (request_of u))).
  set (r := fold_run_requested _ _ _ _ _ _ _ _ _).
  assert (r.2 = true /\ fs_schedule_state r.1 = fs_schedule_state s /\
    fs_idempotency_keys r.1 = fs_idempotency_keys s /\
    is_Some (fs_run_key_index r.1 !! tick_run_key sid u)) as (H2 & Hs & Hk & Hi).
  { unfold r, fold_run_requested. destruct (fs_run_key_index s !! tick_run_key sid u) as [row|] eqn:Ei.
    - case_bool_decide; simpl; rewrite Ei; eauto.
    - simpl. rewrite lookup_insert_eq. eauto. }
  clearbody r. destruct r as [s1 b]. simpl in *. subst b. rewrite <- Hk in Hc.
  destruct (record_tables s1 (request_of u) Hc) as (-> & -> & ->). rewrite Hk. eauto.
Qed.

(** The keys of a tick and of its request are of different shapes, and of different ticks
    differ. *)
Lemma keys_apart u v :
  cron_time sch tz u -> cron_time sch tz v -> u <> v ->
  ev_idempotency_key (tick_event_of u) <> ev_idempotency_key (tick_event_of v) /\
  ev_idempotency_key (request_of u) <> ev_idempotency_key (request_of v).
Proof.
  intros Hu Hv Hne. destruct (cron_time_seconds _ _ _ Hu) as [n Hn], (cron_time_seconds _ _ _ Hv) as [m Hm].
  rewrite !tick_key, !request_key. split; intros E; apply Hne; apply str_app_inj_l in E.
  - by eapply tick_id_at_inj.
  - apply str_app_inj_r in E. by eapply tick_run_key_inj.
Qed.

Lemma keys_shapes u v : ev_idempotency_key (tick_event_of u) <> ev_idempotency_key (request_of v).
Proof. rewrite tick_key, request_key. by str_simpl. Qed.

Lemma open_after_row s last : open_after s last -> exists row, fs_schedule_state s !! sid = Some row.
Proof. intros [_ Hl _ _]. unfold last_tick in Hl. destruct (fs_schedule_state s !! sid); [eauto|done]. Qed.

(** After the tick at [u] the schedule is open after [u]. *)
Lemma open_after_tick s last u :
  open_after s last -> cron_time sch tz u -> (last < u)%Z ->
  let s1 := fold_events s (tick_events next_event_id def u) in
  open_after s1 u /\ (sd_enabled def = true -> is_Some (fs_run_key_index s1 !! tick_run_key sid u)).
Proof using ids_increase.
  intros Ho Hu Hlt. destruct (open_after_row s last Ho) as [row0 Hrow0].
  destruct Ho as [Hk Hl Hold Hfree]. rewrite tick_events_eq. cbn [fold_events fold_left].
  destruct (Hfree u Hu Hlt) as [Hft Hfr].
  destruct (fold_tick s u row0 Hft Hrow0 (Hold u Hu Hlt)) as ((row & Hs & Hsid & Hrl & Hrv) & Hi & kr & Hkeys).
  set (s1 := fold_event s (tick_event_of u)) in *.
  assert (open_after s1 u) as Ho1.
  { split.
    - intros k r. rewrite Hs, lookup_insert. case_decide; [|apply Hk]. subst k. intros [= <-].
      rewrite Hsid. by apply Hk.
    - unfold last_tick. by rewrite Hs, lookup_insert_eq.
    - intros v Hv Huv r. rewrite Hs, lookup_insert_eq. intros [= <-]. rewrite Hrv. by apply ids_increase.
    - intros v Hv Huv. destruct (Hfree v Hv ltac:(lia)) as [H1 H2].
      destruct (keys_apart u v Hu Hv ltac:(lia)) as [Hn1 _]. unfold claimed in *. rewrite Hkeys.
      rewrite !lookup_insert_ne; [done|apply keys_shapes|done]. }
  destruct (sd_enabled def); [|done]. cbn [fold_left].
  assert (~ claimed s1 (request_of u)) as Hfr1.
  { unfold claimed in *. rewrite Hkeys, lookup_insert_ne by apply keys_shapes. done. }
  destruct (fold_request s1 u Hfr1) as (Hs2 & Hi2 & kr2 & Hkeys2). split; [|done].
  destruct Ho1 as [Hk1 Hl1 Hold1 Hfree1]. split.
  - rewrite Hs2. exact Hk1.
  - unfold last_tick. rewrite Hs2. exact Hl1.
  - intros v Hv Huv r. rewrite Hs2. by apply Hold1.
  - intros v Hv Huv. destruct (Hfree1 v Hv Huv) as [H1 H2].
    destruct (keys_apart u v Hu Hv ltac:(lia)) as [_ Hn2]. unfold claimed in *. rewrite Hkeys2.
    rewrite !lookup_insert_ne; [done|done|]. apply not_eq_sym, keys_shapes.
Qed.

Lemma open_after_ticks s last l :
  open_after s last -> StronglySorted Z.lt l ->
  Forall (fun u => (last < u)%Z /\ cron_time sch tz u) l ->
  let s1 := fold_events s (l ≫= tick_events next_event_id def) in
  open_after s1 (List.last l last) /\
  (sd_enabled def = true -> Forall (fun u => is_Some (fs_run_key_index s1 !! tick_run_key sid u)) l).
Proof using ids_increase.
  revert s last. induction l as [|u l IH]; intros s last Ho Hs Hf; [done|].
  apply StronglySorted_inv in Hs as [Hs Hu]. apply Forall_cons in Hf as [[Hlt Ht] Hf].
  rewrite bind_cons. unfold fold_events. rewrite fold_left_app. fold (fold_events s (tick_events next_event_id def u)).
  destruct (open_after_tick s last u Ho Ht Hlt) as [Ho1 Hi1].
  destruct (IH _ u Ho1 Hs) as [Ho2 Hi2].
  { apply Forall_forall. intros v Hv. rewrite Forall_forall in Hu, Hf. split; [by apply Hu|by apply Hf]. }
  rewrite last_shift.
  split; [done|]. intros He. constructor; [|by apply Hi2].
  apply run_key_stays. by apply Hi1.
Qed.

(** ** Passes *)

Abbreviation window := (catchup_window default_window def).

(** One pass over a state. *)
Definition pass_at (s : FoldState) (now : DateTime) : list OrchestrationEvent :=
  schedule_reconcile next_event_id default_window [def] (snd <$> map_to_list (fs_schedule_state s)) now.

(** The times the events of a pass tick this schedule for. *)
Definition ticked_for (e : OrchestrationEvent) : option DateTime :=
  match ev_data e with
  | ScheduleTicked sid' u _ _ _ _ _ _ _ => if String.eqb sid' sid then Some u else None
  | _ => None
  end.

Lemma ticked_for_ticks l : omap ticked_for (l ≫= tick_events next_event_id def) = l.
Proof.
  induction l as [|u l IH]; [done|]. rewrite bind_cons, omap_app, IH, tick_events_eq.
  unfold tick_event_of, ticked_for. destruct (sd_enabled def); simpl; by rewrite String.eqb_refl.
Qed.

Lemma pass_at_eq s now :
  (forall k row, fs_schedule_state s !! k = Some row -> ss_schedule_id row = k) ->
  pass_at s now =
  compute_due_ticks sch (last_tick s) now (sd_max_catchup_ticks def) window tz ≫= tick_events next_event_id def.
Proof using Hcron Htz.
  intros Hk. unfold pass_at, schedule_reconcile. cbn [mbind list_bind]. rewrite app_nil_r.
  unfold reconcile_definition. rewrite Hcron, Htz. unfold last_tick.
  by rewrite (rekeyed_map ss_schedule_id (fs_schedule_state s) Hk).
Qed.

(** An event of something else: not a tick of this schedule, nor a key of its ticks. *)
Definition unrelated (e : OrchestrationEvent) : Prop :=
  ticked_for e = None /\
  forall v, cron_time sch tz v ->
    ev_idempotency_key e <> ev_idempotency_key (tick_event_of v) /\
    ev_idempotency_key e <> ev_idempotency_key (request_of v).

Lemma open_after_unrelated s last e : unrelated e -> open_after s last -> open_after (fold_event s e) last.
Proof.
  intros [Ht Hkey] [Hk Hl Ho Hf].
  destruct (schedule_state_frame s e Hk) as (Hk' & Hsid).
  assert (fs_schedule_state (fold_event s e) !! sid = fs_schedule_state s !! sid) as E.
  { apply Hsid. unfold ticked_for in Ht. destruct (ev_data e); try done.
    destruct (String.eqb_spec schedule_id sid); done. }
  split.
  - exact Hk'.
  - unfold last_tick. by rewrite E.
  - intros v Hv Hlt row. rewrite E. by apply Ho.
  - intros v Hv Hlt. destruct (Hf v Hv Hlt) as [H1 H2], (Hkey v Hv) as [N1 N2]. unfold claimed in *.
    by rewrite !fold_event_key_other by done.
Qed.

(** Passes of the controller, with the ticks they emit, and other events between them.
    A pass is in time when the catch-up window reaches back to the last tick. *)
Inductive passes : FoldState -> list DateTime -> FoldState -> Prop :=
  | passes_done s : passes s [] s
  | passes_other s e l s' : unrelated e -> passes (fold_event s e) l s' -> passes s l s'
  | passes_tick s now last l s' :
      last_tick s = Some last -> (now - window <= last + seconds 1)%Z ->
      passes (fold_events s (pass_at s now)) l s' ->
      passes s (omap ticked_for (pass_at s now) ++ l) s'.

(** Times of the schedule are more than a second apart: true of every expression of five
    fields, whose times are whole minutes. *)
Definition spaced : Prop :=
  forall u v, cron_time sch tz u -> cron_time sch tz v -> (u < v)%Z -> (seconds 1 < v - u)%Z.

(** What the next pass will tick for, from a state whose last tick is [last]. *)
Lemma pass_ticks s last now :
  open_after s last -> cron_time sch tz last -> (now - window <= last + seconds 1)%Z ->
  exists l, pass_at s now = l ≫= tick_events next_event_id def /\
    StronglySorted Z.lt l /\ Forall (fun u => (last < u <= now)%Z /\ cron_time sch tz u) l /\
    (spaced -> forall v, cron_time sch tz v -> (last < v <= now)%Z ->
       v ∈ l \/ (N.of_nat (length l) = sd_max_catchup_ticks def /\ Forall (fun u => (u < v)%Z) l)).
Proof using Hcron Htz.
  intros Ho Hlast Hw. rewrite (pass_at_eq s now (oa_keyed _ _ Ho)), (oa_last _ _ Ho).
  eexists. split; [reflexivity|]. unfold compute_due_ticks.
  assert (due_start (Some last) now window = (last + seconds 1)%Z) as ->.
  { unfold due_start. destruct (Z.ltb_spec (last + seconds 1) (now - window)); [lia|done]. }
  destruct (ticks_after_spec sch tz now (N.to_nat (sd_max_catchup_ticks def)) (last + seconds 1)) as (Hs & _ & Hf & Hc).
  split_and!; [done| |].
  - eapply Forall_impl; [done|]. unfold seconds. naive_solver lia.
  - intros Hsp v Hv Hb. destruct (Hc v Hv) as [?|[Hl ?]]; [|by left|right; split; [rewrite Hl; lia|done]].
    pose proof (Hsp last v Hlast Hv ltac:(lia)). lia.
Qed.

Lemma passes_inv s l s' : passes s l s' -> forall last,
  open_after s last -> cron_time sch tz last -> spaced ->
  exists last', open_after s' last' /\ cron_time sch tz last' /\ (last <= last')%Z /\
    StronglySorted Z.lt l /\ (forall u, u ∈ l <-> cron_time sch tz u /\ (last < u <= last')%Z) /\
    (sd_enabled def = true -> Forall (fun u => is_Some (fs_run_key_index s' !! tick_run_key sid u)) l) /\
    (forall k, is_Some (fs_run_key_index s !! k) -> is_Some (fs_run_key_index s' !! k)).
Proof using Hcron Htz ids_increase.
  induction 1 as [s|s e l s' Hu _ IH|s now last0 l s' Hl0 Hw _ IH]; intros last Ho Hc Hsp.
  - exists last. split_and!; try done; [constructor|]. intros u. rewrite elem_of_nil. naive_solver lia.
  - destruct (IH last (open_after_unrelated _ _ _ Hu Ho) Hc Hsp) as (last' & Ho' & Hc' & Hle & Hs & Hel & Hr & Hm).
    exists last'. split_and!; try done. intros k Hk. apply Hm. by apply (run_key_stays s [e]).
  - rewrite (oa_last _ _ Ho) in Hl0. injection Hl0 as ->.
    destruct (pass_ticks s last0 now Ho Hc Hw) as (due & Hp & Hsd & Hfd & Hcd). rewrite Hp in *.
    rewrite ticked_for_ticks in *.
    destruct (open_after_ticks s last0 due Ho Hsd) as [Ho1 Hi1].
    { eapply Forall_impl; [done|]. naive_solver lia. }
    set (s1 := fold_events s (due ≫= tick_events next_event_id def)) in *. set (m := List.last due last0) in *.
    assert (Hm : m = last0 \/ m ∈ due) by apply last_elem.
    assert (cron_time sch tz m /\ (last0 <= m)%Z) as [Hcm Hlm].
    { destruct Hm as [->|Hm]; [split; [done|lia]|]. rewrite Forall_forall in Hfd.
      destruct (Hfd m Hm). split; [done|lia]. }
    assert (Hdue : forall u, u ∈ due <-> cron_time sch tz u /\ (last0 < u <= m)%Z).
    { intros u. rewrite Forall_forall in Hfd. split.
      - intros Hu. destruct (Hfd u Hu). split; [done|]. pose proof (sorted_last due last0 u Hsd Hu) as Hul. fold m in Hul. lia.
      - intros [Hcu Hb]. destruct Hm as [Hm|Hm]; [lia|]. destruct (Hfd m Hm).
        destruct (Hcd Hsp u Hcu) as [?|[_ Hlt]]; [lia|done|]. rewrite Forall_forall in Hlt.
        specialize (Hlt m Hm). lia. }
    destruct (IH m Ho1 Hcm Hsp) as (last' & Ho' & Hc' & Hle & Hs & Hel & Hr & Hmono).
    exists last'. split_and!; try done; [lia| | | |].
    + apply sorted_app; [done|done|]. intros u v [_ Hu]%Hdue [_ Hv]%Hel. lia.
    + intros u. rewrite elem_of_app, Hdue, Hel. split; [naive_solver lia|].
      intros [Hu Hb]. destruct (decide (u <= m)%Z); [left|right]; (split; [done|lia]).
    + intros He. apply Forall_app. split; [|by apply Hr]. eapply Forall_impl; [by apply Hi1|]. auto.
    + intros k Hk. apply Hmono. by apply run_key_stays.
Qed.

End Passes.

(** ** Evaluation *)

Module ScheduleSample.
(** Toy expressions: a schedule is its period in seconds, a minute for five fields. *)
#[export] Instance periods : Cron := {|
  Schedule := positive;
  Tz := unit;
  schedule_from_str := fun e => inl match e with String "0" _ => 60%positive | _ => 1%positive end;
  tz_from_str := fun _ => Some tt;
  next_after := fun p _ t => Some ((t / seconds (Z.pos p) + 1) * seconds (Z.pos p))%Z
|}.

Lemma seconds_pos p : (0 < seconds (Z.pos p))%Z.
Proof. unfold seconds. lia. Qed.

Lemma seconds_mul a p : (a * seconds (Z.pos p))%Z = seconds (a * Z.pos p).
Proof. unfold seconds. lia. Qed.

#[export] Instance periods_laws : CronLaws.
Proof.
  exists (fun p _ t => exists k, t = (k * seconds (Z.pos p))%Z).
  - intros p _ t [k ->]. exists (k * Z.pos p)%Z. apply seconds_mul.
  - intros p _ t u [= <-]. pose proof (seconds_pos p) as Hp.
    pose proof (Z.div_mod t (seconds (Z.pos p)) ltac:(lia)) as E.
    pose proof (Z.mod_pos_bound t (seconds (Z.pos p)) Hp) as Hr. revert E Hr Hp.
    generalize (seconds (Z.pos p)). intros d. generalize (t / d)%Z (t mod d)%Z. intros q r E Hr Hd. rewrite (Z.mul_comm d q) in E. split_and!; [lia|by eexists|].
    intros v Hv [k ->]. assert (k < q + 1)%Z by (apply (Z.mul_lt_mono_pos_r d); lia).
    assert (k * d <= q * d)%Z by (apply Z.mul_le_mono_nonneg_r; lia). lia.
  - done.
Defined.

(** Ids in the order of the times. *)
Definition time_id (k : Z) : string :=
  if (k <? 0)%Z then zeros (Z.to_nat (- k)) +:+ "1" else "2" +:+ zeros (Z.to_nat k).

Definition id_of (d : OrchestrationEventData) : string :=
  match d with ScheduleTicked _ u _ _ _ _ _ _ _ => time_id (timestamp_secs u) | _ => "3" end.

Lemma str_ltb_cons c x y : str_ltb (String c x) (String c y) = str_ltb x y.
Proof.
  unfold str_ltb, String.leb. simpl. unfold Ascii.compare. by rewrite N.compare_refl.
Qed.

Lemma zeros_lt n m : n < m -> str_ltb (zeros n) (zeros m) = true.
Proof.
  revert m. induction n as [|n IH]; intros [|m] Hlt; try lia; [done|]. simpl. rewrite str_ltb_cons.
  apply IH. lia.
Qed.

Lemma zeros_one_lt n m : n < m -> str_ltb (zeros m +:+ "1") (zeros n +:+ "1") = true.
Proof.
  revert m. induction n as [|n IH]; intros [|m] Hlt; try lia; [done|]. simpl. str_simpl.
  rewrite str_ltb_cons. apply IH. lia.
Qed.

Lemma time_id_lt j k : (j < k)%Z -> str_ltb (time_id j) (time_id k) = true.
Proof.
  intros Hlt. unfold time_id.
  destruct (Z.ltb_spec j 0), (Z.ltb_spec k 0); try lia.
  - apply zeros_one_lt. lia.
  - destruct (Z.to_nat (- j)) eqn:E; [lia|done].
  - str_simpl. rewrite str_ltb_cons. apply zeros_lt. lia.
Qed.

Definition every_minute : ScheduleDefinitionRow :=
  mkScheduleDefinitionRow "t" "w" "sched" "* * * * *" "UTC" 60 ["ns.asset"] None 2 true 0 "v1".

Definition ticked_at_zero : FoldState :=
  fold_event sample_new (create_tick_event id_of every_minute 0 0).

Lemma sample_ids u v : cron_time (60%positive : Schedule) (tt : Tz) u -> cron_time (60%positive : Schedule) (tt : Tz) v -> (u < v)%Z ->
  str_ltb (ev_event_id (tick_event_of id_of every_minute u)) (ev_event_id (tick_event_of id_of every_minute v)) = true.
Proof.
  intros [j ->] [k ->] Hlt. simpl. rewrite !(seconds_mul _ 60), !timestamp_secs_seconds.
  apply time_id_lt. rewrite !seconds_mul in Hlt. unfold seconds in Hlt. lia.
Qed.

Definition zero_row : ScheduleStateRow :=
  mkScheduleStateRow "t" "w" "sched" (Some 0%Z) (Some "sched:0") (Some "sched:sched:0") (time_id 0).

Lemma sample_open : open_after id_of every_minute (60%positive : Schedule) (tt : Tz) ticked_at_zero 0.
Proof.
  assert (fs_schedule_state ticked_at_zero = {["sched" := zero_row]}) as Hs by (vm_compute; reflexivity).
  assert (cron_time (60%positive : Schedule) (tt : Tz) 0) as H0 by by exists 0%Z.
  split.
  - intros k row. rewrite Hs. intros [<- <-]%lookup_singleton_Some. done.
  - unfold last_tick. by rewrite Hs.
  - intros v Hv Hlt row. rewrite Hs. intros [_ <-]%lookup_singleton_Some. by apply (sample_ids 0 v).
  - intros v Hv Hlt. destruct (keys_apart id_of every_minute _ _ 0 v H0 Hv ltac:(lia)) as [Hn _].
    unfold claimed, ticked_at_zero. rewrite !fold_event_key_other; [done|exact (keys_shapes id_of every_minute 0 v)|exact Hn].
Qed.

(** A pass at 3 minutes emits the ticks of the first two, a second pass the third. *)
Abbreviation pass3 s := (pass_at id_of 0 every_minute s (minutes 3)).
Abbreviation after_one := (fold_events ticked_at_zero (pass3 ticked_at_zero)).
Abbreviation after_two := (fold_events after_one (pass3 after_one)).


(** A schedule of every second loses one tick at every pass: the pass starts one second
    after the last tick, and takes the times strictly after that. *)
Definition every_second : ScheduleDefinitionRow :=
  mkScheduleDefinitionRow "t" "w" "sched" "* * * * * *" "UTC" 60 ["ns.asset"] None 10 true 0 "v1".

Example second_after_last_skipped :
  let due := omap (ticked_for every_second) (pass_at id_of 0 every_second ticked_at_zero (seconds 3)) in
  last_tick every_second ticked_at_zero = Some 0%Z /\
  cron_time (1%positive : Schedule) (tt : Tz) (seconds 1) /\ due = [seconds 2; seconds 3].
Proof. split_and!; [reflexivity|by exists 1%Z|vm_compute; reflexivity]. Qed.
End ScheduleSample.
