(* ===== verification/Selection.v ===== *)
(** Asset selection: [orchestration/selection.rs].

    The dependency graph of assets, the closure of a selection, and the tasks planned for
    it.  Asset keys are bytes of valid UTF-8. *)

From S2P Require Import Prelude Events FoldTypes TaskTokens.
From stdpp Require Import options.

Record SelectionOptions := mkSelectionOptions {
  so_include_upstream : bool;
  so_include_downstream : bool
}.

Definition selection_none : SelectionOptions := mkSelectionOptions false false.

(** ** The graph *)

Record AssetGraph := mkAssetGraph {
  ag_upstream : gmap string (list string);
  ag_downstream : gmap string (list string)
}.

Definition asset_graph_new : AssetGraph := mkAssetGraph ∅ ∅.

(** [entry(key).or_default().push(x)] *)
Definition push_asset (key x : string) (m : gmap string (list string)) : gmap string (list string) :=
  <[key := default [] (m !! key) ++ [x]]> m.

Definition insert_asset (asset_key : string) (upstream_deps : list string) (g : AssetGraph) : AssetGraph :=
  let downstream := <[asset_key := default [] (ag_downstream g !! asset_key)]> (ag_downstream g) in
  let downstream := fold_left (fun m upstream => push_asset upstream asset_key m) upstream_deps downstream in
  mkAssetGraph (<[asset_key := upstream_deps]> (ag_upstream g)) downstream.

Definition upstream_of (g : AssetGraph) (asset_key : string) : list string :=
  default [] (ag_upstream g !! asset_key).

Definition downstream_of (g : AssetGraph) (asset_key : string) : list string :=
  default [] (ag_downstream g !! asset_key).

(** ** Closing a selection *)

(** The inner loop: [for next in neighbours(current) { if selected.insert(next) { queue.push_back(next) } }] *)
Definition select_next (st : list string * list string) (next : string) : list string * list string :=
  let '(selected, queue) := st in
  if decide (next ∈ selected) then (selected, queue)
  else (btree_insert next selected, queue ++ [next]).

(** The outer loop, [while let Some(current) = queue.pop_front()]. *)
Fixpoint close_loop (fuel : nat) (neighbours : string -> list string) (selected queue : list string) :
    list string :=
  match fuel, queue with
  | O, _ => selected
  | _, [] => selected
  | S fuel, current :: queue =>
      let '(selected, queue) := fold_left select_next (neighbours current) (selected, queue) in
      close_loop fuel neighbours selected queue
  end.

(** Every turn takes an element of the queue, and an asset enters it at most once. *)
Definition close_fuel (m : gmap string (list string)) (roots : list string) : nat :=
  length roots + length (concat (snd <$> map_to_list m)).

Definition close_selection (g : AssetGraph) (roots : list string) (options : SelectionOptions) : list string :=
  let selected := btree_of roots in
  let selected :=
    if so_include_upstream options
    then close_loop (close_fuel (ag_upstream g) roots) (upstream_of g) selected roots
    else selected in
  if so_include_downstream options
  then close_loop (close_fuel (ag_downstream g) roots) (downstream_of g) selected roots
  else selected.

(** ** Asset keys *)

(** What is left after a whitespace character at the front. *)
Definition strip_white (s : string) : option string :=
  match s with
  | String a s1 =>
      if white1 a then Some s1
      else match s1 with
           | String b s2 =>
               if white2 a b then Some s2
               else match s2 with
                    | String c s3 => if white3 a b c then Some s3 else None
                    | EmptyString => None
                    end
           | EmptyString => None
           end
  | EmptyString => None
  end.

Fixpoint contains_white (s : string) : bool :=
  bool_decide (is_Some (strip_white s)) ||
  match s with EmptyString => false | String _ s' => contains_white s' end.

Fixpoint ends_white (s : string) : bool :=
  bool_decide (strip_white s = Some EmptyString) ||
  match s with EmptyString => false | String _ s' => ends_white s' end.

(** [s.trim() != s] *)
Definition trims (s : string) : bool := bool_decide (is_Some (strip_white s)) || ends_white s.

Definition is_ascii_lowercase (c : ascii) : bool :=
  let n := N_of_ascii c in (97 <=? n)%N && (n <=? 122)%N.

Fixpoint all_chars (f : ascii -> bool) (s : string) : bool :=
  match s with EmptyString => true | String c s' => f c && all_chars f s' end.

Definition is_valid_asset_segment (segment : string) : bool :=
  match segment with
  | EmptyString => false
  | String first chars =>
      is_ascii_lowercase first &&
      all_chars (fun c => is_ascii_lowercase c || is_ascii_digit c || bool_decide (c = "_"%char)) chars
  end.

Definition is_valid_asset_namespace (namespace : string) : bool := is_valid_asset_segment namespace.

Definition is_valid_asset_name (name : string) : bool :=
  let segments := split_on "." name in
  if bool_decide (segments = []) || existsb str_is_empty segments then false
  else forallb is_valid_asset_segment segments.

Definition canonicalize_asset_key (input : string) : string + string :=
  if is_blank input then inr "asset key cannot be empty"
  else if trims input then inr "asset key cannot have leading/trailing whitespace"
  else if contains_white input then inr "asset key cannot contain whitespace"
  else
    let invalid why := "invalid asset key '" +:+ input +:+ "': " +:+ why in
    let check namespace name :=
      if str_is_empty namespace || str_is_empty name then
        inr (invalid "namespace and name must be non-empty")
      else if negb (is_valid_asset_namespace namespace) then
        inr (invalid ("invalid namespace '" +:+ namespace +:+ "'"))
      else if negb (is_valid_asset_name name) then inr (invalid ("invalid name '" +:+ name +:+ "'"))
      else inl (namespace +:+ "." +:+ name) in
    if str_contains "/" input then
      match split_once "/" input with
      | Some (namespace, name) => check namespace name
      | None => inr (invalid "expected 'namespace/name'")
      end
    else if str_contains "." input then
      match split_once "." input with
      | Some (namespace, name) => check namespace name
      | None => check input ""
      end
    else inr (invalid "expected 'namespace.name' or 'namespace/name'").

(** [iter().map(f).collect::<Result<_, _>>()] *)
Fixpoint collect_ok {A B E} (f : A -> B + E) (l : list A) : list B + E :=
  match l with
  | [] => inl []
  | x :: r =>
      match f x with
      | inr e => inr e
      | inl y => match collect_ok f r with inr e => inr e | inl ys => inl (y :: ys) end
      end
  end.

(** ** Planning a selection *)

Definition selection_task (g : AssetGraph) (planned_assets : list string) (partition_key : option string)
    (asset_key : string) : TaskDef :=
  let depends_on :=
    sort_strings (List.filter (fun upstream => bool_decide (upstream ∈ planned_assets)) (upstream_of g asset_key)) in
  mkTaskDef asset_key depends_on (Some asset_key) partition_key 3 300 true.

(** [tasks.sort_by(|a, b| a.key.cmp(&b.key))] *)
Fixpoint insert_task (t : TaskDef) (l : list TaskDef) : list TaskDef :=
  match l with
  | [] => [t]
  | u :: r => if str_leb (td_key t) (td_key u) then t :: l else u :: insert_task t r
  end.

Definition sort_tasks (l : list TaskDef) : list TaskDef := fold_right insert_task [] l.

Definition build_task_defs_for_selection (g : AssetGraph) (roots : list string) (options : SelectionOptions)
    (partition_key : option string) : list TaskDef + string :=
  match collect_ok canonicalize_asset_key roots with
  | inr e => inr e
  | inl canonical_roots =>
      let planned_assets := close_selection g canonical_roots options in
      inl (sort_tasks (selection_task g planned_assets partition_key <$> planned_assets))
  end.

(** ** Fingerprints *)

Definition double_quote : ascii := "034".
Definition json_string (s : string) : string := String double_quote (s +:+ String double_quote EmptyString).
Definition json_bool (b : bool) : string := if b then "true" else "false".

(** [dedup] of a sorted vector. *)
Fixpoint dedup (l : list string) : list string :=
  match l with
  | x :: ((y :: _) as r) => if String.eqb x y then dedup r else x :: dedup r
  | l => l
  end.

(** The serialized payload; canonical keys have no character to escape. *)
Definition selection_payload (canonical : list string) (options : SelectionOptions) : string :=
  "{" +:+ json_string "selection" +:+ ":[" +:+ join "," (json_string <$> canonical) +:+ "]," +:+
  json_string "include_upstream" +:+ ":" +:+ json_bool (so_include_upstream options) +:+ "," +:+
  json_string "include_downstream" +:+ ":" +:+ json_bool (so_include_downstream options) +:+ "}".

Definition compute_selection_fingerprint `{Hashes} (selection : list string) (options : SelectionOptions) :
    string + string :=
  match collect_ok canonicalize_asset_key selection with
  | inr e => inr e
  | inl canonical => inl (sha256_hex (selection_payload (dedup (sort_strings canonical)) options))
  end.
