(* ===== verification/SelectionProps.v ===== *)
(** Selections are closed exactly.

    The breadth-first closure of a selection terminates within its bound and yields the
    assets reachable from the roots; with both directions requested at once it may stop
    short.  The tasks planned for a selection form a well-formed plan. *)

From S2P Require Import Prelude Events FoldTypes TaskTokens Selection FoldTasks FoldDispatch FoldAutomation Fold FoldMachine Sample.
From stdpp Require Import relations options.

(** [x] is reachable from the roots along the edges. *)
Definition reaches (neighbours : string -> list string) (roots : list string) (x : string) : Prop :=
  exists r, r ∈ roots /\ rtc (fun a b => b ∈ neighbours a) r x.

Section Closure.
Context (m : gmap string (list string)).

Definition entry (x : string) : list string := default [] (m !! x).

(** The names on the right of the edges. *)
Definition targets : list string := remove_dups (concat (snd <$> map_to_list m)).

Lemma entry_targets x y : y ∈ entry x -> y ∈ targets.
Proof.
  unfold entry, targets. intros Hy. apply elem_of_remove_dups, list_elem_of_In, in_concat.
  setoid_rewrite <- list_elem_of_In.
  destruct (m !! x) as [l|] eqn:E; [|by apply elem_of_nil in Hy]. exists l. split; [|done].
  apply list_elem_of_fmap. exists (x, l). split; [done|]. by apply elem_of_map_to_list.
Qed.

Lemma targets_length : length targets <= length (concat (snd <$> map_to_list m)).
Proof. unfold targets. generalize (concat (snd <$> map_to_list m)). intros l. induction l; simpl; [done|]. case_decide; simpl; lia. Qed.

(** Names not selected yet. *)
Definition unselected (selected : list string) : list string :=
  filter (fun x => x ∉ selected) targets.

Lemma select_fold l selected queue :
  exists new, fold_left select_next l (selected, queue) =
    ((fold_left select_next l (selected, queue)).1, queue ++ new) /\
    NoDup new /\ (forall y, y ∈ new -> y ∈ l /\ y ∉ selected) /\
    (forall y, y ∈ (fold_left select_next l (selected, queue)).1 <-> y ∈ selected \/ y ∈ new) /\
    (forall y, y ∈ l -> y ∈ selected \/ y ∈ new) /\
    (increasing selected -> increasing (fold_left select_next l (selected, queue)).1).
Proof.
  revert selected queue. induction l as [|x l IH]; intros selected queue; simpl.
  { exists []. rewrite app_nil_r. split_and!; try done; [constructor|intros y []%elem_of_nil|set_solver|intros y []%elem_of_nil]. }
  case_decide as Hx.
  - destruct (IH selected queue) as (new & E & Hnd & Hnew & Hsel & Hall & Hinc). exists new.
    split_and!; try done; [intros y Hy; apply Hnew in Hy; set_solver|].
    intros y [->|Hy]%elem_of_cons; [by left|by apply Hall].
  - destruct (IH (btree_insert x selected) (queue ++ [x])) as (new & E & Hnd & Hnew & Hsel & Hall & Hinc).
    exists (x :: new). split_and!.
    + rewrite E at 1. by rewrite <- app_assoc.
    + constructor; [|done]. intros Hin. apply Hnew in Hin as [_ Hin]. apply Hin, btree_insert_elem. by left.
    + intros y [->|Hy]%elem_of_cons; [set_solver|]. apply Hnew in Hy as [Hy Hn]. split; [set_solver|].
      intros Hy'. apply Hn, btree_insert_elem. by right.
    + intros y. rewrite Hsel, btree_insert_elem, elem_of_cons. naive_solver.
    + intros y [->|Hy]%elem_of_cons; [right; apply list_elem_of_here|].
      destruct (Hall y Hy) as [[->|?]%btree_insert_elem|?]; [right; apply list_elem_of_here|by left|].
      right. by apply list_elem_of_further.
    + intros Hi. by apply Hinc, btree_insert_increasing.
Qed.

(** Selecting the new names of a turn leaves that many fewer unselected. *)
Lemma unselected_step selected selected' new :
  NoDup new -> (forall y, y ∈ new -> y ∈ targets /\ y ∉ selected) ->
  (forall y, y ∈ selected' <-> y ∈ selected \/ y ∈ new) ->
  length (unselected selected') + length new <= length (unselected selected).
Proof.
  intros Hnd Hnew Hsel. rewrite <- length_app, Nat.add_comm || rewrite <- length_app.
  apply submseteq_length, NoDup_submseteq.
  - apply NoDup_app. split_and!; [|intros x [Hx _]%list_elem_of_filter Hn; apply Hx, Hsel; by right|done].
    apply NoDup_filter, NoDup_remove_dups.
  - intros x [[Hx Ht]%list_elem_of_filter|Hx]%elem_of_app; apply list_elem_of_filter.
    + split; [|done]. intros Hs. apply Hx, Hsel. by left.
    + apply Hnew in Hx as [Ht Hs]. done.
Qed.

(** The loop, with enough fuel and every selected asset either queued or expanded: its
    result is closed, contains the selection, and adds what the queue reaches only. *)
Lemma close_loop_closed fuel selected queue :
  length queue + length (unselected selected) <= fuel ->
  (forall x, x ∈ queue -> x ∈ selected) ->
  (forall x, x ∈ selected -> x ∈ queue \/ forall y, y ∈ entry x -> y ∈ selected) ->
  let result := close_loop fuel entry selected queue in
  (forall x, x ∈ selected -> x ∈ result) /\
  (forall x y, x ∈ result -> y ∈ entry x -> y ∈ result).
Proof.
  revert selected queue. induction fuel as [|fuel IH]; intros selected queue Hf Hq Hs; simpl.
  - destruct queue; [|simpl in Hf; lia]. split; [done|]. intros x y Hx Hy.
    destruct (Hs x Hx) as [[]%elem_of_nil|Hall]. by apply Hall.
  - destruct queue as [|x queue].
    { split; [done|]. intros x y Hx Hy. destruct (Hs x Hx) as [[]%elem_of_nil|Hall]. by apply Hall. }
    destruct (select_fold (entry x) selected queue) as (new & E & Hnd & Hnew & Hsel & Hall & _).
    destruct (fold_left select_next (entry x) (selected, queue)) as [selected' queue'] eqn:Ef.
    simpl in E, Hsel. injection E as ->.
    assert (length (unselected selected') + length new <= length (unselected selected)) as Hu.
    { apply unselected_step; [done| |done]. intros y Hy. apply Hnew in Hy as [Hy ?]. split; [|done].
      by eapply entry_targets. }
    destruct (IH selected' (queue ++ new)) as [H1 H2].
    + rewrite length_app. simpl in Hf. lia.
    + intros y [Hy|Hy]%elem_of_app; apply Hsel; [left; apply Hq; by apply list_elem_of_further|by right].
    + intros y Hy. apply Hsel in Hy as [Hy|Hy]; [|left; apply elem_of_app; by right].
      destruct (Hs y Hy) as [[->|Hy']%elem_of_cons|Hy'].
      * right. intros z Hz. apply Hsel. by apply Hall.
      * left. apply elem_of_app. by left.
      * right. intros z Hz. apply Hsel. left. by apply Hy'.
    + split; [|done]. intros y Hy. apply H1, Hsel. by left.
Qed.

Lemma close_loop_sound fuel selected queue x :
  x ∈ close_loop fuel entry selected queue -> x ∈ selected \/ reaches entry queue x.
Proof.
  revert selected queue. induction fuel as [|fuel IH]; intros selected queue; simpl; [by left|].
  destruct queue as [|c queue]; [by left|].
  destruct (select_fold (entry c) selected queue) as (new & E & _ & Hnew & Hsel & _ & _).
  destruct (fold_left select_next (entry c) (selected, queue)) as [selected' queue'] eqn:Ef.
  simpl in E, Hsel. injection E as ->. intros Hx. destruct (IH _ _ Hx) as [[?|Hn]%Hsel|(r & Hr & Hrx)].
  - by left.
  - right. exists c. split; [apply list_elem_of_here|]. apply rtc_once. by apply Hnew in Hn as [? _].
  - right. apply elem_of_app in Hr as [Hr|Hr].
    + exists r. split; [by apply list_elem_of_further|done].
    + exists c. split; [apply list_elem_of_here|]. eapply rtc_l; [|done]. by apply Hnew in Hr as [? _].
Qed.

Lemma close_loop_increasing fuel selected queue :
  increasing selected -> increasing (close_loop fuel entry selected queue).
Proof.
  revert selected queue. induction fuel as [|fuel IH]; intros selected queue Hi; simpl; [done|].
  destruct queue as [|c queue]; [done|].
  destruct (select_fold (entry c) selected queue) as (new & _ & _ & _ & _ & _ & Hinc).
  destruct (fold_left select_next (entry c) (selected, queue)) as [selected' queue']. by apply IH, Hinc.
Qed.

Lemma close_loop_keeps fuel selected queue x : x ∈ selected -> x ∈ close_loop fuel entry selected queue.
Proof.
  revert selected queue. induction fuel as [|fuel IH]; intros selected queue Hx; simpl; [done|].
  destruct queue as [|c queue]; [done|].
  destruct (select_fold (entry c) selected queue) as (new & _ & _ & _ & Hsel & _ & _).
  destruct (fold_left select_next (entry c) (selected, queue)) as [selected' queue']. apply IH, Hsel. by left.
Qed.

(** Started from the roots, the loop yields exactly what they reach. *)
Lemma close_roots roots x :
  x ∈ close_loop (close_fuel m roots) entry (btree_of roots) roots <-> reaches entry roots x.
Proof.
  destruct (close_loop_closed (close_fuel m roots) (btree_of roots) roots) as [Hsub Hcl].
  - unfold close_fuel. pose proof targets_length.
    assert (length (unselected (btree_of roots)) <= length targets) by apply length_filter. lia.
  - intros y Hy. by apply btree_of_elem.
  - intros y Hy. left. by apply btree_of_elem.
  - split.
    + intros [Hx|?]%close_loop_sound; [|done]. exists x. split; [by apply (proj1 (btree_of_elem _ _))|apply rtc_refl].
    + intros (r & Hr & Hrx). assert (r ∈ close_loop (close_fuel m roots) entry (btree_of roots) roots) as Hin
        by (by apply Hsub, btree_of_elem).
      clear Hr. induction Hrx as [|a b c Hab _ IH]; [done|]. by apply IH, (Hcl a).
Qed.
End Closure.

(** ** Selections *)

Lemma upstream_entry g : upstream_of g = entry (ag_upstream g).
Proof. done. Qed.
Lemma downstream_entry g : downstream_of g = entry (ag_downstream g).
Proof. done. Qed.

(** The closure of a selection is exact.  Without options it is the selection; with one of them it
    is everything the selection reaches upstream, or downstream, and nothing else: in particular
    nothing downstream is selected unless it is asked for.  The result is in order, without
    repetition. *)
Theorem close_selection_exact g roots (up down : bool) x :
  let closed := close_selection g roots (mkSelectionOptions up down) in
  increasing closed /\
  (up = false -> down = false -> x ∈ closed <-> x ∈ roots) /\
  (up = true -> down = false -> x ∈ closed <-> reaches (upstream_of g) roots x) /\
  (up = false -> down = true -> x ∈ closed <-> reaches (downstream_of g) roots x) /\
  (up = true -> down = true ->
     (reaches (upstream_of g) roots x -> x ∈ closed) /\
     (x ∈ closed -> reaches (upstream_of g) roots x \/ reaches (downstream_of g) roots x)).
Proof.
  intros closed. unfold closed, close_selection. simpl. rewrite upstream_entry, downstream_entry. split_and!.
  - destruct up, down; repeat apply close_loop_increasing; apply btree_of_increasing.
  - intros -> ->. apply btree_of_elem.
  - intros -> ->. apply close_roots.
  - intros -> ->. apply close_roots.
  - intros -> ->. split.
    + intros Hx. apply close_roots in Hx. by apply close_loop_keeps.
    + intros [Hx|?]%close_loop_sound; [left; by apply close_roots|by right].
Qed.

(** With both options the downstream search does not pass through an asset that the upstream
    search has already selected: [e] is downstream of the root [a], by way of [b], and is left out
    because [b] is also upstream of the root [c]. *)
Example both_options_stop_short :
  let g := insert_asset "e" ["b"] (insert_asset "c" ["b"] (insert_asset "b" ["a"] (insert_asset "a" [] asset_graph_new))) in
  close_selection g ["a"; "c"] (mkSelectionOptions true true) = ["a"; "b"; "c"] /\
  close_selection g ["a"; "c"] (mkSelectionOptions false true) = ["a"; "b"; "c"; "e"] /\
  reaches (downstream_of g) ["a"; "c"] "e".
Proof.
  split_and!; [vm_compute; reflexivity..|]. exists "a". split; [apply list_elem_of_here|].
  apply (rtc_l _ _ "b"); [|apply rtc_once]; by_computation.
Qed.

(** ** Plans of selections *)

Lemma insert_task_perm t l : insert_task t l ≡ₚ t :: l.
Proof. induction l as [|u l IH]; simpl; [done|]. case_match; [done|]. by rewrite IH, Permutation_swap. Qed.

Lemma sort_tasks_perm l : sort_tasks l ≡ₚ l.
Proof. induction l as [|t l IH]; simpl; [done|]. by rewrite insert_task_perm, IH. Qed.

Lemma insert_sorted_perm x l : insert_sorted x l ≡ₚ x :: l.
Proof. induction l as [|y l IH]; simpl; [done|]. case_match; [done|]. by rewrite IH, Permutation_swap. Qed.

Lemma sort_strings_perm l : sort_strings l ≡ₚ l.
Proof. induction l as [|x l IH]; simpl; [done|]. by rewrite insert_sorted_perm, IH. Qed.

Lemma list_filter_NoDup {A} (f : A -> bool) (l : list A) : NoDup l -> NoDup (List.filter f l).
Proof.
  induction 1 as [|x l Hx _ IH]; simpl; [constructor|]. case_match; [|done]. constructor; [|done].
  intros Hin. apply Hx. apply list_elem_of_In, filter_In in Hin as [Hin _]. by apply list_elem_of_In.
Qed.

(** The tasks planned for a selection: one per asset of the closure, depending on the upstream
    assets that are planned too.  When no asset lists a dependency twice, and there are fewer
    than 2^32 assets and dependencies, the plan is well formed, as the fold expects it. *)
Theorem selection_plan_correct g roots options pk tasks :
  build_task_defs_for_selection g roots options pk = inl tasks ->
  exists canonical, collect_ok canonicalize_asset_key roots = inl canonical /\
    let closed := close_selection g canonical options in
    (forall k, k ∈ td_key <$> tasks <-> k ∈ closed) /\
    (forall t, t ∈ tasks -> forall d, d ∈ td_depends_on t <-> d ∈ upstream_of g (td_key t) /\ d ∈ closed) /\
    ((N.of_nat (length closed) < u32_modulus)%N ->
     (forall k, NoDup (upstream_of g k) /\ (N.of_nat (length (upstream_of g k)) < u32_modulus)%N) ->
     plan_wf tasks).
Proof.
  unfold build_task_defs_for_selection. destruct (collect_ok _ roots) as [canonical|e]; [|done].
  intros [= <-]. exists canonical. split; [done|]. set (closed := close_selection g canonical options).
  set (mk := selection_task g closed pk).
  assert (td_key <$> sort_tasks (mk <$> closed) ≡ₚ closed) as Hk.
  { rewrite (sort_tasks_perm (mk <$> closed)), <- list_fmap_compose. by rewrite list_fmap_id. }
  assert (forall t, t ∈ sort_tasks (mk <$> closed) -> exists k, t = mk k) as Ht.
  { intros t. rewrite (sort_tasks_perm (mk <$> closed)). intros (k & -> & _)%list_elem_of_fmap. eauto. }
  split_and!.
  - intros k. by rewrite Hk.
  - intros t Hin d. destruct (Ht t Hin) as [k ->]. simpl. rewrite sort_strings_perm.
    rewrite !list_elem_of_In, filter_In, bool_decide_eq_true, <- !list_elem_of_In. done.
  - intros Hlen Hdeps. split_and!.
    + rewrite Hk. apply increasing_NoDup.
      destruct options as [up down]. apply (close_selection_exact g canonical up down "").
    + rewrite sort_tasks_perm, length_fmap. done.
    + apply Forall_forall. intros t Hin. destruct (Ht t Hin) as [k ->]. simpl.
      destruct (Hdeps k) as [Hnd Hl]. rewrite sort_strings_perm. split; [by apply list_filter_NoDup|].
      pose proof (List.filter_length_le (fun u => bool_decide (u ∈ closed)) (upstream_of g k)). lia.
Qed.
