(* ===== verification/RunRequests.v ===== *)
(** From requested runs to plans: [controllers/run_request_processor.rs].

    The processor finds, for a run key of the index, the tick, the sensor evaluation or the
    backfill chunk that asked for it, and emits the [RunTriggered] and [PlanCreated] events of
    its run.  A [HashMap] is iterated in the order of [map_to_list]. *)

From S2P Require Import Prelude Events FoldTypes FoldTasks FoldDispatch FoldAutomation Fold Compactor Manifest Timers TaskTokens BackfillControl Selection.
From stdpp Require Import options.

(** [state.x.values()] *)
Definition values {K V} `{Countable K} (m : gmap K V) : list V := snd <$> map_to_list m.

Record ResolvedRunRequest := mkResolvedRunRequest {
  rq_tenant_id : string;
  rq_workspace_id : string;
  rq_asset_selection : list string;
  rq_partition_selection : option (list string);
  rq_trigger : TriggerInfo;
  rq_labels : gmap string string
}.

(** [iter().max_by(f)]: the last of the greatest elements.  [le a b] is [f(a, b) != Greater]. *)
Definition max_by {A} (le : A -> A -> bool) (l : list A) : option A :=
  fold_left (fun best x => match best with
                           | None => Some x
                           | Some b => if le b x then Some x else Some b
                           end) l None.

(** [a.x.cmp(&b.x).then_with(|| a.v.cmp(&b.v)) != Greater], on instants and on numbers. *)
Definition time_then_version_le (x y : DateTime) (v w : string) : bool :=
  (x <? y)%Z || ((x =? y)%Z && str_leb v w).

Definition index_then_version_le (x y : u32) (v w : string) : bool :=
  (x <? y)%N || ((x =? y)%N && str_leb v w).

Definition resolve_from_schedule_ticks (state : FoldState) (key : RunKeyIndexRow) :
    option ResolvedRunRequest :=
  let candidates :=
    List.filter (fun tick =>
      bool_decide (st_run_key tick = Some (rk_run_key key)) &&
      bool_decide (st_request_fingerprint tick = Some (rk_request_fingerprint key)))
      (values (fs_schedule_ticks state)) in
  tick ← max_by (fun a b => time_then_version_le (st_scheduled_for a) (st_scheduled_for b)
                              (st_row_version a) (st_row_version b)) candidates;
  Some (mkResolvedRunRequest (st_tenant_id tick) (st_workspace_id tick) (st_asset_selection tick)
          (st_partition_selection tick) (TrigCron (st_schedule_id tick)) ∅).

Definition request_matches (key : RunKeyIndexRow) (req : RunRequest) : bool :=
  String.eqb (rr_run_key req) (rk_run_key key) &&
  String.eqb (rr_request_fingerprint req) (rk_request_fingerprint key).

Definition resolve_from_sensor_evals (state : FoldState) (key : RunKeyIndexRow) :
    option ResolvedRunRequest :=
  let candidates :=
    List.filter (fun eval => existsb (request_matches key) (sv_run_requests eval))
      (values (fs_sensor_evals state)) in
  eval ← max_by (fun a b => time_then_version_le (sv_evaluated_at a) (sv_evaluated_at b)
                              (sv_row_version a) (sv_row_version b)) candidates;
  request ← List.find (request_matches key) (sv_run_requests eval);
  let cursor := default "" (option_or (sv_cursor_after eval) (sv_cursor_before eval)) in
  Some (mkResolvedRunRequest (sv_tenant_id eval) (sv_workspace_id eval) (rr_asset_selection request)
          (rr_partition_selection request) (TrigSensor (sv_sensor_id eval) cursor) ∅).

(** [backfill_chunk_order(a, b) != Greater] *)
Definition backfill_chunk_order (a b : BackfillChunkRow) : bool :=
  index_then_version_le (bc_chunk_index a) (bc_chunk_index b) (bc_row_version a) (bc_row_version b).

Definition resolve_from_backfill_chunks (state : FoldState) (key : RunKeyIndexRow) :
    option ResolvedRunRequest :=
  let candidates :=
    List.filter (fun chunk => String.eqb (bc_run_key chunk) (rk_run_key key))
      (values (fs_backfill_chunks state)) in
  chunk ← max_by backfill_chunk_order candidates;
  backfill ← fs_backfills state !! bc_backfill_id chunk;
  let labels := <["arco.backfill_chunk_id" := bc_chunk_id chunk]>
                  {["arco.backfill_id" := bc_backfill_id chunk]} in
  Some (mkResolvedRunRequest (bf_tenant_id backfill) (bf_workspace_id backfill)
          (bf_asset_selection backfill) (Some (bc_partition_keys chunk)) (TrigManual "backfill") labels).

Definition resolve_request_payload (state : FoldState) (key : RunKeyIndexRow) :
    option ResolvedRunRequest :=
  option_or (resolve_from_schedule_ticks state key)
    (option_or (resolve_from_sensor_evals state key) (resolve_from_backfill_chunks state key)).

Definition deterministic_plan_id (run_id : string) : string := "plan_" +:+ run_id.

Record Processor := mkProcessor {
  pr_default_max_attempts : u32;
  pr_default_heartbeat_timeout_sec : u32
}.

Definition processor_new : Processor := mkProcessor 3 300.

Definition build_tasks (p : Processor) (asset_selection : list string)
    (partition_selection : option (list string)) : list TaskDef :=
  let assets := btree_of (List.filter (fun asset => negb (is_blank asset)) asset_selection) in
  let partition_key := match partition_selection with Some [single] => Some single | _ => None end in
  (fun asset => mkTaskDef asset [] (Some asset) partition_key (pr_default_max_attempts p)
                  (pr_default_heartbeat_timeout_sec p) true) <$> assets.

Section Processor.
Context `{Hashes} `{Chrono}.
Context (next_event_id : OrchestrationEventData -> string).

(** The body of the loop of [reconcile]. *)
Definition reconcile_key (p : Processor) (state : FoldState) (key : RunKeyIndexRow) :
    list OrchestrationEvent :=
  let run_exists := bool_decide (is_Some (fs_runs state !! rk_run_id key)) in
  let has_tasks := run_has_tasks state (rk_run_id key) in
  if run_exists && has_tasks then []
  else
    match resolve_request_payload state key with
    | None => []
    | Some resolved =>
        match build_tasks p (rq_asset_selection resolved) (rq_partition_selection resolved) with
        | [] => []
        | tasks =>
            let plan_id := deterministic_plan_id (rk_run_id key) in
            (if run_exists then []
             else [event_now next_event_id (rq_tenant_id resolved) (rq_workspace_id resolved)
                     (RunTriggered (rk_run_id key) plan_id (rq_trigger resolved)
                        (rq_asset_selection resolved) (Some (rk_run_key key)) (rq_labels resolved)
                        (rk_code_version key))]) ++
            (if has_tasks then []
             else [event_now next_event_id (rq_tenant_id resolved) (rq_workspace_id resolved)
                     (PlanCreated (rk_run_id key) plan_id tasks)])
        end
    end.

(** [keys.sort_by(|a, b| a.run_key.cmp(&b.run_key))] *)
Fixpoint insert_key (k : RunKeyIndexRow) (l : list RunKeyIndexRow) : list RunKeyIndexRow :=
  match l with
  | [] => [k]
  | k' :: r => if str_leb (rk_run_key k) (rk_run_key k') then k :: l else k' :: insert_key k r
  end.

Definition sort_keys (l : list RunKeyIndexRow) : list RunKeyIndexRow := fold_right insert_key [] l.

(** [RunRequestProcessor::reconcile] *)
Definition reconcile (p : Processor) (state : FoldState) : list OrchestrationEvent :=
  sort_keys (values (fs_run_key_index state)) ≫= reconcile_key p state.
End Processor.
