(* ===== verification/RunBridge.v ===== *)
(** From requested runs to plans, through asset selection: [controllers/run_bridge.rs].

    The bridge does what the processor of [RunRequests] does, but indexes the requests by run
    key and fingerprint first, plans through [Selection] and waits for a fresh compaction. *)

From S2P Require Import Prelude Events FoldTypes FoldTasks FoldDispatch FoldAutomation Fold Compactor Manifest Timers TaskTokens BackfillControl Selection RunRequests.
From stdpp Require Import options.

Inductive RunBridgeAction :=
  | EmitRunEvents (run_triggered plan_created : OrchestrationEventData)
  | Skip (run_key reason : string).

Record ResolvedRunRequest := mkResolvedRunRequest {
  rq_trigger : TriggerInfo;
  rq_asset_selection : list string;
  rq_partition_selection : option (list string)
}.

Record RunRequestLookupEntry := mkRunRequestLookupEntry {
  le_row_version : string;
  le_request : ResolvedRunRequest
}.

Abbreviation RunKeyLookup := (gmap string (gmap string RunRequestLookupEntry)).

Record RunRequestLookup := mkRunRequestLookup {
  rl_schedule : RunKeyLookup;
  rl_sensor : RunKeyLookup;
  rl_backfill : RunKeyLookup
}.

Definition upsert_latest (run_key request_fingerprint row_version : string) (request : ResolvedRunRequest)
    (source : RunKeyLookup) : RunKeyLookup :=
  let by_fingerprint := default ∅ (source !! run_key) in
  let newer_known :=
    option_bool (fun existing => str_leb row_version (le_row_version existing))
      (by_fingerprint !! request_fingerprint) in
  <[run_key := if newer_known then by_fingerprint
               else <[request_fingerprint := mkRunRequestLookupEntry row_version request]> by_fingerprint]>
    source.

Section Bridge.
Context `{Hashes} `{Chrono}.

Definition add_tick (source : RunKeyLookup) (tick : ScheduleTickRow) : RunKeyLookup :=
  match st_run_key tick, st_request_fingerprint tick with
  | Some run_key, Some request_fingerprint =>
      upsert_latest run_key request_fingerprint (st_row_version tick)
        (mkResolvedRunRequest (TrigCron (st_schedule_id tick)) (st_asset_selection tick)
           (st_partition_selection tick)) source
  | _, _ => source
  end.

Definition add_eval (source : RunKeyLookup) (eval : SensorEvalRow) : RunKeyLookup :=
  let cursor := default "unknown" (option_or (sv_cursor_after eval) (sv_cursor_before eval)) in
  fold_left (fun source req =>
    upsert_latest (rr_run_key req) (rr_request_fingerprint req) (sv_row_version eval)
      (mkResolvedRunRequest (TrigSensor (sv_sensor_id eval) cursor) (rr_asset_selection req)
         (rr_partition_selection req)) source) (sv_run_requests eval) source.

Definition add_chunk (backfills : gmap string BackfillRow) (source : RunKeyLookup) (chunk : BackfillChunkRow) :
    RunKeyLookup :=
  let request_fingerprint := partition_fingerprint (bc_partition_keys chunk) in
  let assets := match backfills !! bc_backfill_id chunk with
                | Some row => bf_asset_selection row
                | None => []
                end in
  upsert_latest (bc_run_key chunk) request_fingerprint (bc_row_version chunk)
    (mkResolvedRunRequest (TrigManual ("backfill:" +:+ bc_backfill_id chunk)) assets
       (Some (bc_partition_keys chunk))) source.

(** [RunRequestLookup::build] *)
Definition build_lookup (state : FoldState) : RunRequestLookup :=
  mkRunRequestLookup (fold_left add_tick (values (fs_schedule_ticks state)) ∅)
    (fold_left add_eval (values (fs_sensor_evals state)) ∅)
    (fold_left (add_chunk (fs_backfills state)) (values (fs_backfill_chunks state)) ∅).

(** [RunRequestLookup::get] *)
Definition lookup_get (source : RunKeyLookup) (run_key request_fingerprint : string) :
    option ResolvedRunRequest :=
  by_fingerprint ← source !! run_key; le_request <$> by_fingerprint !! request_fingerprint.

Definition resolve_run_request (run_key request_fingerprint : string) (lookup : RunRequestLookup) :
    option ResolvedRunRequest :=
  option_or (lookup_get (rl_schedule lookup) run_key request_fingerprint)
    (option_or (lookup_get (rl_sensor lookup) run_key request_fingerprint)
       (lookup_get (rl_backfill lookup) run_key request_fingerprint)).

(** The task of a selection that plans nothing. *)
Definition fallback_task : TaskDef := mkTaskDef "materialize" [] None None 3 300 false.

Definition add_root (acc : AssetGraph * list string) (asset : string) : AssetGraph * list string :=
  match canonicalize_asset_key asset with
  | inl canonical => (insert_asset canonical [] acc.1, acc.2 ++ [canonical])
  | inr _ => acc
  end.

Definition build_tasks (asset_selection : list string) (partition_selection : option (list string)) :
    list TaskDef :=
  let '(graph, roots) := fold_left add_root asset_selection (asset_graph_new, []) in
  let partition_key := match partition_selection with Some [single] => Some single | _ => None end in
  match roots with
  | [] => [fallback_task]
  | _ =>
      match build_task_defs_for_selection graph (dedup (sort_strings roots)) selection_none partition_key with
      | inl ((_ :: _) as tasks) => tasks
      | _ => [fallback_task]
      end
  end.

Definition reconcile_run_key (state : FoldState) (lookup : RunRequestLookup) (run_key : string) :
    option RunBridgeAction :=
  index ← fs_run_key_index state !! run_key;
  match fs_runs state !! rk_run_id index with
  | Some _ => Some (Skip run_key "run_already_exists")
  | None =>
      match resolve_run_request run_key (rk_request_fingerprint index) lookup with
      | None => Some (Skip run_key "run_request_source_not_found")
      | Some request =>
          let plan_id := "plan:" +:+ rk_run_id index in
          let tasks := build_tasks (rq_asset_selection request) (rq_partition_selection request) in
          Some (EmitRunEvents
                  (RunTriggered (rk_run_id index) plan_id (rq_trigger request) (rq_asset_selection request)
                     (Some run_key) ∅ (rk_code_version index))
                  (PlanCreated (rk_run_id index) plan_id tasks))
      end
  end.

(** [RunBridgeController::reconcile]; [with_defaults] allows a lag of 30 seconds. *)
Definition reconcile (max_compaction_lag : Z) (manifest : OrchestrationManifest) (state : FoldState) :
    list RunBridgeAction :=
  let run_keys := sort_strings (fst <$> map_to_list (fs_run_key_index state)) in
  let lookup := build_lookup state in
  if is_fresh (mf_watermarks manifest) max_compaction_lag then
    omap (reconcile_run_key state lookup) run_keys
  else (fun run_key => Skip run_key "compaction_lag") <$> run_keys.
End Bridge.
