(* ===== verification/RunRequestProps.v ===== *)
(** Requested runs come to life.

    A pass of the run request processor, folded: every requested run that resolves exists,
    with a ready task for each of its assets, and the next pass has nothing to do. *)

From S2P Require Import Prelude Events FoldTypes FoldTasks FoldDispatch FoldAutomation Fold FoldIdempotence FoldMachine FoldInvariant FoldReach FoldProps FoldAutoProps Compactor Manifest Timers TaskTokens BackfillControl Selection RunRequests Sample.
From stdpp Require Import options.

Section Processor.
Context `{Hashes} `{Chrono} `{SerdeJson}.
Context (next_event_id : OrchestrationEventData -> string) (p : Processor).

(** ** What a run and its sources look like *)

Definition same_run (r : string) (s s' : FoldState) : Prop :=
  fs_runs s' !! r = fs_runs s !! r /\ forall k, fs_tasks s' !! (r, k) = fs_tasks s !! (r, k).

Lemma same_run_refl r s : same_run r s s.
Proof. done. Qed.

Lemma same_run_trans r s1 s2 s3 : same_run r s1 s2 -> same_run r s2 s3 -> same_run r s1 s3.
Proof. intros [E1 F1] [E2 F2]. split; [congruence|]. intros k. by rewrite F2, F1. Qed.

Lemma run_has_tasks_spec s r : run_has_tasks s r = true <-> exists k, is_Some (fs_tasks s !! (r, k)).
Proof.
  unfold run_has_tasks. rewrite existsb_exists. split.
  - intros ([[r' k] t] & Hin & Hr). apply bool_decide_eq_true in Hr. simpl in Hr. subst.
    apply list_elem_of_In, elem_of_map_to_list in Hin. by exists k, t.
  - intros (k & t & Hk). exists ((r, k), t). split; [by apply list_elem_of_In, elem_of_map_to_list|].
    by apply bool_decide_eq_true.
Qed.

Lemma same_run_has_tasks r s s' : same_run r s s' -> run_has_tasks s' r = run_has_tasks s r.
Proof.
  intros [_ Ht]. apply eq_true_iff_eq. rewrite !run_has_tasks_spec. by setoid_rewrite Ht.
Qed.

(** The tables a request is resolved from. *)
Definition sources (s : FoldState) :=
  (fs_schedule_ticks s, fs_sensor_evals s, fs_backfills s, fs_backfill_chunks s, fs_run_key_index s).

Lemma sources_resolve s s' k :
  sources s' = sources s -> resolve_request_payload s' k = resolve_request_payload s k.
Proof.
  unfold sources. intros [= E1 E2 E3 E4 E5].
  unfold resolve_request_payload, resolve_from_schedule_ticks, resolve_from_sensor_evals, resolve_from_backfill_chunks.
  by rewrite E1, E2, E3, E4.
Qed.

Lemma sources_event s e : automation_event (ev_data e) = false -> sources (fold_event s e) = sources s.
Proof.
  intros Ha. unfold fold_event. case_match; [done|].
  pose proof (rest_apply_event s e Ha) as Hr. destruct (apply_event s e) as [s1 b]. simpl in Hr.
  assert (sources s1 = sources s) as Hs by (unfold rest in Hr; unfold sources; congruence).
  destruct b; [|done]. unfold record_idempotency_key. by case_match.
Qed.

(** ** The two events *)

Lemma refresh_record_core s e r :
  let s' := record_idempotency_key (refresh_catalog_run_index_for_run s (ev_tenant_id e) (ev_workspace_id e) r (ev_timestamp e)) e in
  fs_runs s' = fs_runs s /\ fs_tasks s' = fs_tasks s.
Proof.
  unfold record_idempotency_key, refresh_catalog_run_index_for_run. by repeat case_match.
Qed.

Lemma fold_trigger s e r plan trig roots rk lb cv :
  ev_data e = RunTriggered r plan trig roots rk lb cv -> ~ claimed s e -> fs_runs s !! r = None ->
  let s' := fold_event s e in
  is_Some (fs_runs s' !! r) /\ fs_tasks s' = fs_tasks s /\ (forall r', r' <> r -> fs_runs s' !! r' = fs_runs s !! r').
Proof.
  intros Hd Hc Hr. apply eq_None_not_Some in Hc. unfold fold_event. rewrite Hc. unfold apply_event. rewrite Hd.
  unfold fold_run_triggered. rewrite Hr. cbn [refresh_if_changed].
  match goal with |- context [refresh_catalog_run_index_for_run ?st _ _ _ _] =>
    destruct (refresh_record_core st e r) as [-> ->] end.
  simpl. split_and!; [by rewrite lookup_insert_eq|done|]. intros r' Hne. by rewrite lookup_insert_ne.
Qed.

Lemma fold_plan s e r plan defs :
  ev_data e = PlanCreated r plan defs -> ~ claimed s e -> run_has_tasks s r = false -> defs <> [] ->
  let s' := fold_event s e in
  (is_Some (fs_runs s' !! r) <-> is_Some (fs_runs s !! r)) /\
  fs_tasks s' = insert_all (plan_task_list r (ev_event_id e) (ev_timestamp e) defs) (fs_tasks s) /\
  (forall r', r' <> r -> fs_runs s' !! r' = fs_runs s !! r').
Proof.
  intros Hd Hc Hnt Hne. apply eq_None_not_Some in Hc. unfold fold_event. rewrite Hc. unfold apply_event. rewrite Hd.
  destruct (plan_parts s r (ev_event_id e) (ev_timestamp e) defs Hnt) as (Er & Et & _ & _).
  assert ((fold_plan_created s r defs (ev_event_id e) (ev_timestamp e)).2 = true) as Ha.
  { unfold fold_plan_created. rewrite Hnt. simpl. rewrite (bool_decide_false (defs = [])) by done. apply orb_true_r. }
  destruct (fold_plan_created s r defs (ev_event_id e) (ev_timestamp e)) as [s1 b]. simpl in *. subst b.
  cbn [refresh_if_changed]. destruct (refresh_record_core s1 e r) as [-> ->]. rewrite Er, Et. split_and!; [|done|].
  - rewrite lookup_alter. case_decide; [|done]. by rewrite fmap_is_Some.
  - intros r' Hr'. by rewrite lookup_alter_ne.
Qed.

(** ** One run key *)

(** What the pass makes of a request that resolves to some tasks. *)
Definition alive (s : FoldState) (k : RunKeyIndexRow) (s' : FoldState) : Prop :=
  forall resolved, resolve_request_payload s k = Some resolved ->
  let tasks := build_tasks p (rq_asset_selection resolved) (rq_partition_selection resolved) in
  tasks <> [] ->
  is_Some (fs_runs s' !! rk_run_id k) /\ run_has_tasks s' (rk_run_id k) = true /\
  (run_has_tasks s (rk_run_id k) = false -> forall d, d ∈ tasks ->
     exists t, fs_tasks s' !! (rk_run_id k, td_key d) = Some t /\ tk_state t = TsReady /\ tk_attempt t = 0%N).

Lemma build_tasks_spec asel psel :
  NoDup (td_key <$> build_tasks p asel psel) /\
  (forall d, d ∈ build_tasks p asel psel -> td_depends_on d = []) /\
  (forall a, a ∈ td_key <$> build_tasks p asel psel <-> a ∈ asel /\ is_blank a = false).
Proof.
  unfold build_tasks. set (assets := btree_of _).
  assert (td_key <$> ((fun asset => mkTaskDef asset [] (Some asset)
    (match psel with Some [single] => Some single | _ => None end) (pr_default_max_attempts p)
    (pr_default_heartbeat_timeout_sec p) true) <$> assets) = assets) as Hk.
  { rewrite <- list_fmap_compose. apply list_fmap_id. }
  rewrite Hk. split_and!.
  - apply increasing_NoDup, btree_of_increasing.
  - by intros d (a & -> & _)%list_elem_of_fmap.
  - intros a. unfold assets. rewrite btree_of_elem, list_elem_of_In, filter_In, <- list_elem_of_In.
    by rewrite negb_true_iff.
Qed.

Lemma build_tasks_wf asel psel :
  (N.of_nat (length asel) < u32_modulus)%N -> plan_wf (build_tasks p asel psel).
Proof.
  intros Hl. destruct (build_tasks_spec asel psel) as (Hnd & Hdeps & Hel). split_and!; [done| |].
  - assert (length (td_key <$> build_tasks p asel psel) <= length asel) as Hle.
    { apply submseteq_length, NoDup_submseteq; [done|]. by intros a [? _]%Hel. }
    rewrite length_fmap in Hle. lia.
  - apply Forall_forall. intros d Hd. rewrite (Hdeps d Hd). split; [constructor|done].
Qed.

(** The triggering part: the run exists afterwards, and nothing else has moved. *)
Lemma trigger_part s st e r plan trig roots rk lb cv (exists_ : bool) :
  exists_ = bool_decide (is_Some (fs_runs s !! r)) -> same_run r s st ->
  ev_data e = RunTriggered r plan trig roots rk lb cv ->
  let es := if exists_ then [] else [e] in
  Forall (fun e => ~ claimed st e) es ->
  let s' := fold_events st es in
  is_Some (fs_runs s' !! r) /\ fs_tasks s' = fs_tasks st /\
  (forall r', r' <> r -> fs_runs s' !! r' = fs_runs st !! r') /\ sources s' = sources st.
Proof.
  intros -> [Hr _] Hd. case_bool_decide as Hs; simpl.
  - intros _. by rewrite Hr.
  - intros Hc%(proj1 (Forall_singleton _ _)). destruct (fold_trigger st e r plan trig roots rk lb cv Hd Hc) as (H1' & H2' & H3').
    { rewrite Hr. by apply eq_None_not_Some. }
    split_and!; try done. apply sources_event. by rewrite Hd.
Qed.

(** The planning part: every task of the plan is ready when the run had none. *)
Lemma plan_part s st e r plan tasks (has_tasks : bool) :
  has_tasks = run_has_tasks s r -> same_run r s st -> ev_data e = PlanCreated r plan tasks ->
  tasks <> [] -> NoDup (td_key <$> tasks) -> (forall d, d ∈ tasks -> td_depends_on d = []) ->
  let es := if has_tasks then [] else [e] in
  Forall (fun e => ~ claimed st e) es ->
  let s' := fold_events st es in
  (is_Some (fs_runs s' !! r) <-> is_Some (fs_runs st !! r)) /\ run_has_tasks s' r = true /\
  (has_tasks = false -> forall d, d ∈ tasks ->
     exists t, fs_tasks s' !! (r, td_key d) = Some t /\ tk_state t = TsReady /\ tk_attempt t = 0%N) /\
  (forall r', r' <> r -> fs_runs s' !! r' = fs_runs st !! r') /\
  (forall r' k, r' <> r -> fs_tasks s' !! (r', k) = fs_tasks st !! (r', k)) /\ sources s' = sources st.
Proof.
  intros -> Hsame Hd Hne Hnd Hdeps. rewrite <- (same_run_has_tasks r s st Hsame).
  destruct (run_has_tasks st r) eqn:Et; simpl; [done|].
  intros Hc%(proj1 (Forall_singleton _ _)).
  destruct (fold_plan st e r plan tasks Hd Hc Et Hne) as (H1' & H2' & H3').
  assert (forall d, d ∈ tasks -> fs_tasks (fold_event st e) !! (r, td_key d) =
    Some (plan_task_row r (ev_event_id e) (ev_timestamp e) d)) as Hnew.
  { intros d Hin. rewrite H2'. apply insert_all_in; [by apply plan_task_keys_NoDup|].
    apply list_elem_of_fmap. by exists d. }
  split_and!; [done| | |done| |by apply sources_event; rewrite Hd].
  - destruct tasks as [|d tasks]; [done|]. apply run_has_tasks_spec. exists (td_key d).
    rewrite (Hnew d) by apply list_elem_of_here. by eexists.
  - intros _ d Hin. eexists. split; [by apply Hnew|]. unfold plan_task_row. by rewrite (Hdeps d Hin).
  - intros r' k Hr'. rewrite H2'. apply insert_all_not_in. rewrite plan_task_keys.
    by intros (d & [= ? ?] & _)%list_elem_of_fmap.
Qed.

Lemma process_key s st k :
  same_run (rk_run_id k) s st ->
  let events := reconcile_key next_event_id p s k in
  NoDup (ev_idempotency_key <$> events) -> Forall (fun e => ~ claimed st e) events ->
  let s' := fold_events st events in
  alive s k s' /\ (forall r, r <> rk_run_id k -> same_run r st s') /\ sources s' = sources st.
Proof.
  intros Hsame events Hnd Hc s'. set (r := rk_run_id k) in *.
  destruct (bool_decide (is_Some (fs_runs s !! r)) && run_has_tasks s r) eqn:Eboth.
  { assert (events = []) as Ev by (unfold events, reconcile_key; fold r; by rewrite Eboth).
    unfold s'. rewrite Ev. change (fold_events st []) with st. apply andb_true_iff in Eboth as [Er Et]. bool_hyps. destruct Hsame as [Hr Ht].
    split_and!; [|done|done]. intros resolved _ tasks _. fold r.
    split_and!; [by rewrite Hr|by rewrite (same_run_has_tasks r s st)|by rewrite Et]. }
  destruct (resolve_request_payload s k) as [resolved|] eqn:Eres.
  2:{ assert (events = []) as Ev by (unfold events, reconcile_key; fold r; by rewrite Eboth, Eres).
      unfold s'. rewrite Ev. change (fold_events st []) with st. split_and!; [|done|done]. intros resolved. by rewrite Eres. }
  set (tasks := build_tasks p (rq_asset_selection resolved) (rq_partition_selection resolved)).
  destruct (decide (tasks = [])) as [Eb|Eb].
  { assert (events = []) as Ev by (unfold events, reconcile_key; fold r; rewrite Eboth, Eres; fold tasks; by rewrite Eb).
    unfold s'. rewrite Ev. change (fold_events st []) with st. split_and!; [|done|done]. intros resolved'. rewrite Eres. by intros [= <-]. }
  set (trig := event_now next_event_id (rq_tenant_id resolved) (rq_workspace_id resolved)
    (RunTriggered r (deterministic_plan_id r) (rq_trigger resolved) (rq_asset_selection resolved)
       (Some (rk_run_key k)) (rq_labels resolved) (rk_code_version k))).
  set (plan := event_now next_event_id (rq_tenant_id resolved) (rq_workspace_id resolved)
    (PlanCreated r (deterministic_plan_id r) tasks)).
  set (ex := bool_decide (is_Some (fs_runs s !! r))) in *. set (ht := run_has_tasks s r) in *.
  assert (events = (if ex then [] else [trig]) ++ (if ht then [] else [plan])) as Ev.
  { unfold events, reconcile_key. fold r ex ht. rewrite Eboth, Eres. fold tasks. unfold plan.
    by destruct tasks. }
  unfold s'. rewrite Ev in *. unfold fold_events. rewrite fold_left_app.
  fold (fold_events st (if ex then [] else [trig])). apply Forall_app in Hc as [Hc1 Hc2].
  destruct (trigger_part s st trig r _ _ _ _ _ _ ex eq_refl Hsame eq_refl Hc1) as (T1 & T2 & T3 & T4).
  set (st1 := fold_events st (if ex then [] else [trig])) in *.
  destruct (build_tasks_spec (rq_asset_selection resolved) (rq_partition_selection resolved)) as (Hn & Hdeps & _).
  fold tasks in Hn, Hdeps.
  assert (Forall (fun e => ~ claimed st1 e) (if ht then [] else [plan])) as Hc2'.
  { destruct ht; [done|]. apply Forall_singleton. apply (proj1 (Forall_singleton _ _)) in Hc2. unfold st1, claimed in *.
    destruct ex; [done|]. simpl. rewrite fold_event_key_other; [done|].
    simpl. by str_simpl. }
  assert (run_has_tasks st1 r = ht) as Hht.
  { unfold ht. rewrite <- (same_run_has_tasks r s st Hsame). unfold run_has_tasks. by rewrite T2. }
  destruct (plan_part st1 st1 plan r _ tasks ht (eq_sym Hht) (same_run_refl r st1) eq_refl Eb Hn Hdeps Hc2')
    as (P1 & P2 & P3 & P4 & P5 & P6).
  split_and!.
  - intros resolved'. rewrite Eres. intros [= <-] tasks' _. fold r. split_and!; [by apply P1|exact P2|exact P3].
  - intros r' Hr'. split; [by rewrite P4, T3|]. intros k'. by rewrite P5, T2.
  - transitivity (sources st1); [exact P6|exact T4].
Qed.

(** ** A whole pass *)

Lemma key_events_data s k e :
  e ∈ reconcile_key next_event_id p s k ->
  exists resolved, resolve_request_payload s k = Some resolved /\
    ((exists trig roots lb cv, ev_data e = RunTriggered (rk_run_id k) (deterministic_plan_id (rk_run_id k)) trig roots
        (Some (rk_run_key k)) lb cv) \/
     ev_data e = PlanCreated (rk_run_id k) (deterministic_plan_id (rk_run_id k))
       (build_tasks p (rq_asset_selection resolved) (rq_partition_selection resolved))).
Proof.
  unfold reconcile_key. destruct (_ && _); [by intros []%elem_of_nil|].
  destruct (resolve_request_payload s k) as [resolved|]; [|by intros []%elem_of_nil].
  intros He. exists resolved. split; [done|].
  destruct (build_tasks p (rq_asset_selection resolved) (rq_partition_selection resolved)) as [|d tasks] eqn:Eb;
    [by apply elem_of_nil in He|].
  apply elem_of_app in He as [He|He].
  - left. destruct (bool_decide _); [by apply elem_of_nil in He|].
    apply list_elem_of_singleton in He as ->. eauto.
  - right. destruct (run_has_tasks _ _); [by apply elem_of_nil in He|].
    apply list_elem_of_singleton in He as ->. done.
Qed.

Lemma process_keys s ks st :
  (forall k, k ∈ ks -> same_run (rk_run_id k) s st) -> NoDup (rk_run_id <$> ks) ->
  let events := ks ≫= reconcile_key next_event_id p s in
  NoDup (ev_idempotency_key <$> events) -> Forall (fun e => ~ claimed st e) events ->
  let s' := fold_events st events in
  (forall k, k ∈ ks -> alive s k s') /\ (forall r, r ∉ rk_run_id <$> ks -> same_run r st s') /\
  sources s' = sources st.
Proof.
  revert st. induction ks as [|k ks IH]; intros st Hsame Hnr events Hnd Hc; simpl.
  { split_and!; [by intros ? []%elem_of_nil|done|done]. }
  unfold events in *. clear events. rewrite bind_cons in *. rewrite fmap_app in Hnd.
  apply NoDup_app in Hnd as (Hnd1 & Hdisj & Hnd2). apply Forall_app in Hc as [Hc1 Hc2].
  rewrite fmap_cons in Hnr. apply NoDup_cons in Hnr as [Hk Hnr].
  unfold fold_events. rewrite fold_left_app. fold (fold_events st (reconcile_key next_event_id p s k)).
  destruct (process_key s st k (Hsame k (list_elem_of_here _ _)) Hnd1 Hc1) as (Ha & Ho & Hs).
  set (st1 := fold_events st (reconcile_key next_event_id p s k)) in *.
  destruct (IH st1) as (Ha2 & Ho2 & Hs2); [| |done| |].
  - intros k' Hk'. eapply same_run_trans; [by apply Hsame, list_elem_of_further|]. apply Ho.
    intros E. apply Hk. rewrite <- E. by apply list_elem_of_fmap_2.
  - done.
  - apply Forall_forall. intros e He. rewrite Forall_forall in Hc2. specialize (Hc2 e He).
    unfold claimed, st1 in *. rewrite fold_events_key_other; [done|].
    intros e' He' E. apply (Hdisj (ev_idempotency_key e')); [by apply list_elem_of_fmap_2|].
    rewrite E. by apply list_elem_of_fmap_2.
  - split_and!.
    + intros k' [->|Hk']%elem_of_cons; [|by apply Ha2]. intros resolved Hr tasks Hne.
      destruct (Ha resolved Hr Hne) as (A1 & A2 & A3). destruct (Ho2 (rk_run_id k)) as [E1 E2]; [done|].
      split_and!.
      * unfold fold_events in E1. by rewrite E1.
      * rewrite <- A2. by apply same_run_has_tasks, Ho2.
      * intros Hf d Hd. destruct (A3 Hf d Hd) as (t & Ht & ?). exists t. split; [|done].
        unfold fold_events in E2. by rewrite E2.
    + intros r Hr. apply not_elem_of_cons in Hr as [Hr1 Hr2].
      eapply same_run_trans; [by apply Ho|by apply Ho2].
    + transitivity (sources st1); [exact Hs2|exact Hs].
Qed.

Lemma insert_key_perm k l : insert_key k l ≡ₚ k :: l.
Proof. induction l as [|k' l IH]; simpl; [done|]. case_match; [done|]. by rewrite IH, Permutation_swap. Qed.

Lemma sort_keys_perm l : sort_keys l ≡ₚ l.
Proof. induction l as [|k l IH]; simpl; [done|]. by rewrite insert_key_perm, IH. Qed.

(** C16: requested runs come to life, once.  Fold a pass of the processor over a reachable
    state in which different run keys stand for different runs, none of the keys of its events being claimed.
    The state is reachable again.  Every run key whose request resolves to at least one asset
    that is not blank now has its run, with tasks: when the run had none, one for each such asset,
    ready for its first attempt.  And another pass over the resulting state emits nothing. *)
Theorem run_requests_converge s :
  let events := reconcile next_event_id p s in
  let s' := fold_events s events in
  reachable s -> NoDup (rk_run_id <$> values (fs_run_key_index s)) ->
  NoDup (ev_idempotency_key <$> events) -> Forall (fun e => ~ claimed s e) events ->
  (forall k resolved, k ∈ values (fs_run_key_index s) -> resolve_request_payload s k = Some resolved ->
     (N.of_nat (length (rq_asset_selection resolved)) < u32_modulus)%N) ->
  reachable s' /\
  (forall rk k resolved a, fs_run_key_index s !! rk = Some k -> resolve_request_payload s k = Some resolved ->
     a ∈ rq_asset_selection resolved -> is_blank a = false ->
     is_Some (fs_runs s' !! rk_run_id k) /\
     (run_has_tasks s (rk_run_id k) = false ->
        exists t, fs_tasks s' !! (rk_run_id k, a) = Some t /\ tk_state t = TsReady /\ tk_attempt t = 0%N)) /\
  reconcile next_event_id p s' = [].
Proof.
  intros events s' Hre Hnr Hnd Hc Hsz.
  set (ks := sort_keys (values (fs_run_key_index s))).
  pose proof (sort_keys_perm (values (fs_run_key_index s))) as Hperm. fold ks in Hperm.
  assert (NoDup (rk_run_id <$> ks)) as Hnr' by (by rewrite Hperm).
  destruct (process_keys s ks s (fun k _ => same_run_refl _ s) Hnr' Hnd Hc) as (Ha & _ & Hs).
  change (fold_events s (ks ≫= reconcile_key next_event_id p s)) with s' in Ha, Hs. split_and!.
  - destruct Hre as (secret & es & Hwf & ->). exists secret, (es ++ events). split.
    + apply Forall_app. split; [done|]. apply Forall_forall. intros e (k & He & Hk)%list_elem_of_bind.
      apply key_events_data in He as (resolved & Hr & [(? & ? & ? & ? & Hd)|Hd]); unfold event_wf; rewrite Hd; [done|].
      fold ks in Hk. rewrite Hperm in Hk.
      apply build_tasks_wf, (Hsz k resolved Hk Hr).
    + unfold s', fold_events. by rewrite fold_left_app.
  - intros rk k resolved a Hk Hr Hin Hb.
    assert (k ∈ ks) as Hks.
    { rewrite Hperm. apply list_elem_of_fmap. exists (rk, k). split; [done|]. by apply elem_of_map_to_list. }
    destruct (build_tasks_spec (rq_asset_selection resolved) (rq_partition_selection resolved)) as (_ & _ & Hel).
    pose proof (proj2 (Hel a) (conj Hin Hb)) as (d & -> & Hd)%list_elem_of_fmap.
    destruct (Ha k Hks resolved Hr) as (A1 & _ & A3).
    { intros E. rewrite E in Hd. by apply elem_of_nil in Hd. }
    split; [done|]. intros Hf. by apply A3.
  - apply elem_of_nil_inv. intros e He. unfold reconcile in He.
    assert (fs_run_key_index s' = fs_run_key_index s) as Ei by (unfold sources in Hs; congruence).
    rewrite Ei in He. fold ks in He. apply list_elem_of_bind in He as (k & He & Hk).
    unfold reconcile_key in He. rewrite (sources_resolve s s' k Hs) in He.
    destruct (resolve_request_payload s k) as [resolved|] eqn:Er; [|by destruct (_ && _); apply elem_of_nil in He].
    destruct (build_tasks p (rq_asset_selection resolved) (rq_partition_selection resolved)) as [|d0 tasks] eqn:Eb;
      [by destruct (_ && _); apply elem_of_nil in He|].
    destruct (Ha k Hk resolved Er) as (A1 & A2 & _); [by rewrite Eb|].
    rewrite A2, bool_decide_true in He by done. by apply elem_of_nil in He.
Qed.
End Processor.

(** ** Evaluation *)

Module RequestSample.
Definition new_id : OrchestrationEventData -> string := fun d =>
  match d with RunTriggered _ _ _ _ _ _ _ => "11" | _ => "12" end.

(** A tick has asked for a run over two assets, one of them twice, and a blank name. *)
Definition ledger : list OrchestrationEvent :=
  [sample_event "01" (ScheduleTicked "sched" 0 "sched:0" "v1" ["ns.b"; "ns.a"; " "; "ns.b"] None TickTriggered
                        (Some "sched:sched:0") (Some "fp"));
   sample_event "02" (RunRequested "sched:sched:0" "fp" ["ns.b"; "ns.a"; " "; "ns.b"] None
                        (RefSchedule "sched" "sched:0") ∅ None)].

Definition requested : FoldState := fold_events sample_new ledger.

Abbreviation one_pass := (reconcile new_id processor_new requested).
Abbreviation after_pass := (fold_events requested one_pass).

Lemma requested_reachable : reachable requested.
Proof. exists "secret", ledger. split; [|done]. repeat constructor. Qed.

(** The pass triggers the run and plans two tasks. *)
Example two_events : (fun e => event_type (ev_data e)) <$> one_pass = ["RunTriggered"; "PlanCreated"].
Proof. vm_compute. reflexivity. Qed.

Lemma requests_witness :
  exists k t, fs_run_key_index requested !! "sched:sched:0" = Some k /\
    fs_tasks after_pass !! (rk_run_id k, "ns.a") = Some t /\ tk_state t = TsReady.
Proof.
  take (fs_run_key_index requested !! "sched:sched:0") as k with Hk.
  assert (fs_run_key_index requested !! "sched:sched:0" ≫= resolve_request_payload requested =
    Some (mkResolvedRunRequest "t" "w" ["ns.b"; "ns.a"; " "; "ns.b"] None (TrigCron "sched") ∅)) as Hr
    by (vm_compute; reflexivity).
  rewrite Hk in Hr. cbn [mbind option_bind] in Hr.
  assert (option_bool (fun k => run_has_tasks requested (rk_run_id k)) (fs_run_key_index requested !! "sched:sched:0") =
    false) as Hnt by (vm_compute; reflexivity).
  rewrite Hk in Hnt. cbn [option_bool] in Hnt.
  destruct (run_requests_converge new_id processor_new requested) as (_ & Hall & _).
  - exact requested_reachable.
  - by_computation.
  - by_computation.
  - by_computation.
  - intros k' resolved Hk' Hres.
    assert (values (fs_run_key_index requested) = [k]) as Hv.
    { assert (values (fs_run_key_index requested) = option_list (fs_run_key_index requested !! "sched:sched:0")) as Hv
        by (vm_compute; reflexivity). by rewrite Hk in Hv. }
    rewrite Hv in Hk'. apply list_elem_of_singleton in Hk' as ->. rewrite Hr in Hres. injection Hres as <-.
    reflexivity.
  - destruct (Hall _ _ _ "ns.a" Hk Hr ltac:(by_computation) eq_refl) as (_ & Ht).
    destruct (Ht Hnt) as (t & Ht1 & Ht2 & _). exists k, t. exact (conj Hk (conj Ht1 Ht2)).
Defined.
End RequestSample.
