(* ===== verification/Envelope.v ===== *)
(** What is sent through Cloud Tasks: the dispatch envelope of [arco-worker-contract]
    and the timer payloads of the dispatcher and of the timer ingest service.

    A body is a JSON value, the text of which is serde_json's.  Reading a value follows
    the code serde derives: a field is found under its name or an alias, an unknown
    field is ignored, a field that comes twice is an error. *)

From S2P Require Import Prelude Events FoldTypes Storage Canonical TaskTokens.
From stdpp Require Import options.

(** ** Reading objects *)

Inductive field :=
  | FieldMissing
  | FieldOnce (v : Value)
  | FieldTwice.

Definition find_field (names : list string) (members : list (string * Value)) : field :=
  match List.filter (fun m => existsb (String.eqb m.1) names) members with
  | [] => FieldMissing
  | [m] => FieldOnce m.2
  | _ => FieldTwice
  end.

(** A field that must be there. *)
Definition required {A} (read : Value -> option A) (names : list string) (members : list (string * Value)) :
    option A :=
  match find_field names members with FieldOnce v => read v | _ => None end.

(** A field of type [Option<T>]: absent and [null] are [None]. *)
Definition optional {A} (read : Value -> option A) (names : list string) (members : list (string * Value)) :
    option (option A) :=
  match find_field names members with
  | FieldMissing => Some None
  | FieldOnce VNull => Some None
  | FieldOnce v => Some <$> read v
  | FieldTwice => None
  end.

Definition read_string (v : Value) : option string := match v with VString s => Some s | _ => None end.

Definition read_u32 (v : Value) : option u32 :=
  match v with
  | VInt z => if ((0 <=? z) && (z <? Z.of_N u32_modulus))%Z then Some (Z.to_N z) else None
  | _ => None
  end.

(** A [serde_json::Value] with [#[serde(default)]]. *)
Definition read_payload (members : list (string * Value)) : option Value :=
  match find_field ["payload"] members with
  | FieldMissing => Some VNull
  | FieldOnce v => Some v
  | FieldTwice => None
  end.

(** chrono's serde form of an instant. *)
Class Rfc3339 := {
  rfc3339 : DateTime -> string;
  parse_rfc3339 : string -> option DateTime
}.

Class Rfc3339Laws `{Rfc3339} := parse_rfc3339_print t : parse_rfc3339 (rfc3339 t) = Some t.

(** ** The dispatch envelope *)

Record WorkerDispatchEnvelope := mkWorkerDispatchEnvelope {
  we_tenant_id : string;
  we_workspace_id : string;
  we_task_id : string;
  we_task_key : string;
  we_run_id : string;
  we_attempt : u32;
  we_attempt_id : string;
  we_dispatch_id : string;
  we_execution_location_id : option string;
  we_worker_queue : string;
  we_callback_base_url : string;
  we_task_token : string;
  we_token_expires_at : DateTime;
  we_traceparent : option string;
  we_payload : Value
}.

(** [skip_serializing_if = "Option::is_none"] *)
Definition if_some (name : string) (v : option string) : list (string * Value) :=
  match v with Some s => [(name, VString s)] | None => [] end.

Section Codec.
Context `{HT : Rfc3339}.

Definition read_time (v : Value) : option DateTime := s ← read_string v; parse_rfc3339 s.

(** [WorkerDispatchEnvelope::to_json] *)
Definition to_json (e : WorkerDispatchEnvelope) : Value :=
  VObject
    ([("tenantId", VString (we_tenant_id e)); ("workspaceId", VString (we_workspace_id e));
      ("taskId", VString (we_task_id e)); ("taskKey", VString (we_task_key e));
      ("runId", VString (we_run_id e)); ("attempt", VInt (Z.of_N (we_attempt e)));
      ("attemptId", VString (we_attempt_id e)); ("dispatchId", VString (we_dispatch_id e))] ++
     if_some "executionLocationId" (we_execution_location_id e) ++
     [("workerQueue", VString (we_worker_queue e)); ("callbackBaseUrl", VString (we_callback_base_url e));
      ("taskToken", VString (we_task_token e)); ("tokenExpiresAt", VString (rfc3339 (we_token_expires_at e)))] ++
     if_some "traceparent" (we_traceparent e) ++
     [("payload", we_payload e)]).

(** [WorkerDispatchEnvelope::from_json]: the fields of [RawWorkerDispatchEnvelope], and the
    task key in the place of a task id that is not there. *)
Definition from_json (v : Value) : option WorkerDispatchEnvelope :=
  match v with
  | VObject members =>
      tenant_id ← required read_string ["tenantId"; "tenant_id"] members;
      workspace_id ← required read_string ["workspaceId"; "workspace_id"] members;
      task_id ← optional read_string ["taskId"; "task_id"] members;
      task_key ← required read_string ["taskKey"; "task_key"] members;
      run_id ← required read_string ["runId"; "run_id"] members;
      attempt ← required read_u32 ["attempt"] members;
      attempt_id ← required read_string ["attemptId"; "attempt_id"] members;
      dispatch_id ← required read_string ["dispatchId"; "dispatch_id"] members;
      execution_location_id ← optional read_string ["executionLocationId"; "execution_location_id"] members;
      worker_queue ← required read_string ["workerQueue"; "worker_queue"] members;
      callback_base_url ← required read_string ["callbackBaseUrl"; "callback_base_url"] members;
      task_token ← required read_string ["taskToken"; "task_token"] members;
      token_expires_at ← required read_time ["tokenExpiresAt"; "token_expires_at"] members;
      traceparent ← optional read_string ["traceparent"] members;
      payload ← read_payload members;
      Some (mkWorkerDispatchEnvelope tenant_id workspace_id (default task_key task_id) task_key run_id attempt
              attempt_id dispatch_id execution_location_id worker_queue callback_base_url task_token
              token_expires_at traceparent payload)
  | _ => None
  end.

(** ** Timer payloads *)

(** The dispatcher's. *)
Record TimerPayload := mkTimerPayload {
  tp_timer_id : string;
  tp_run_id : option string;
  tp_task_key : option string;
  tp_attempt : option u32;
  tp_fire_at : DateTime
}.

Definition or_null (v : option Value) : Value := default VNull v.

(** [serde_json::to_vec(&payload)]: the names are the fields' own. *)
Definition timer_payload_value (p : TimerPayload) : Value :=
  VObject
    [("timer_id", VString (tp_timer_id p)); ("run_id", or_null (VString <$> tp_run_id p));
     ("task_key", or_null (VString <$> tp_task_key p));
     ("attempt", or_null ((fun a => VInt (Z.of_N a)) <$> tp_attempt p));
     ("fire_at", VString (rfc3339 (tp_fire_at p)))].

(** The ingest service's. *)
Record TimerFiredRequest := mkTimerFiredRequest {
  tfr_timer_id : string;
  tfr_timer_type : option TimerType;
  tfr_run_id : option string;
  tfr_task_key : option string;
  tfr_attempt : option u32;
  tfr_fire_at : option DateTime
}.

Definition read_timer_type (v : Value) : option TimerType :=
  match v with
  | VString s =>
      if String.eqb s "RETRY" then Some TtRetry
      else if String.eqb s "HEARTBEAT_CHECK" then Some TtHeartbeatCheck
      else if String.eqb s "CRON" then Some TtCron
      else if String.eqb s "SLA_CHECK" then Some TtSlaCheck
      else None
  | _ => None
  end.

(** The extractor [Json<TimerFiredRequest>]: [rename_all = "camelCase"], no aliases. *)
Definition timer_fired_request (v : Value) : option TimerFiredRequest :=
  match v with
  | VObject members =>
      timer_id ← required read_string ["timerId"] members;
      timer_type ← optional read_timer_type ["timerType"] members;
      run_id ← optional read_string ["runId"] members;
      task_key ← optional read_string ["taskKey"] members;
      attempt ← optional read_u32 ["attempt"] members;
      fire_at ← optional read_time ["fireAt"] members;
      Some (mkTimerFiredRequest timer_id timer_type run_id task_key attempt fire_at)
  | _ => None
  end.

(** ** Round trips *)

(** The envelope the dispatcher sends is the one a worker reads. *)
Theorem envelope_roundtrip `{!Rfc3339Laws} e :
  (we_attempt e < u32_modulus)%N -> from_json (to_json e) = Some e.
Proof.
  intros Ha. destruct e as [tid wid task key run att attid did loc q cb tok exp trace payload]. simpl in Ha.
  assert (read_u32 (VInt (Z.of_N att)) = Some att) as Hu.
  { unfold read_u32. rewrite N2Z.id.
    replace ((0 <=? Z.of_N att)%Z && (Z.of_N att <? Z.of_N u32_modulus)%Z) with true; [done|].
    symmetry. apply andb_true_iff. split; [apply Z.leb_le|apply Z.ltb_lt]; lia. }
  assert (read_time (VString (rfc3339 exp)) = Some exp) as Ht by apply parse_rfc3339_print.
  unfold to_json, from_json.
  destruct loc, trace; cbn -[read_u32 read_time]; rewrite Hu; cbn -[read_time]; rewrite Ht; reflexivity.
Qed.

(** The dispatcher's timer payload is not a request the ingest service accepts: it has no
    field [timerId]. *)
Theorem timer_payload_rejected p : timer_fired_request (timer_payload_value p) = None.
Proof. reflexivity. Qed.
End Codec.
