(* ===== verification/Services.v ===== *)
(** The flow services: [bin/arco_flow_dispatcher.rs], [bin/arco_flow_sweeper.rs],
    [bin/arco_flow_automation_reconciler.rs] and [bin/arco_flow_timer_ingest.rs].

    A run loads the state, lets its controllers decide, creates Cloud Tasks and appends
    events.  The Cloud Tasks client, the ledger with its compaction and fresh ULIDs are an
    interface on a world [W]; a handler is a function of the world that may fail, and a
    failure keeps what was done before it. *)

From S2P Require Import Prelude Events FoldTypes FoldTasks FoldDispatch FoldAutomation Fold Compactor Manifest ReadyDispatch Timers AntiEntropy BackfillControl AutomationControl RunRequests Storage Dag Plan Quota TaskQueue Canonical TaskTokens Envelope.
From stdpp Require Import options.

(** ** The interface *)

(** The arguments of [CloudTasksDispatcher::enqueue_http]. *)
Record HttpTask := mkHttpTask {
  ht_task_id : string;
  ht_target_url : string;
  ht_body : Value;
  ht_options : EnqueueOptions;
  ht_audience : option string;
  ht_headers : option (gmap string string)
}.

Class Cloud (W : Type) := {
  enqueue_http : HttpTask -> W -> (EnqueueResult + string) * W;
  append_events_and_compact : list OrchestrationEvent -> W -> (unit + string) * W;
  ulid_new : W -> string * W
}.

(** Code that awaits the interface; [?] ends it with an error. *)
Definition service (W A : Type) : Type := W -> (A + string) * W.

Definition service_ret {W A} (a : A) : service W A := fun w => (inl a, w).

Definition service_bind {W A B} (m : service W A) (k : A -> service W B) : service W B := fun w =>
  match m w with
  | (inl a, w) => k a w
  | (inr e, w) => (inr e, w)
  end.

Notation "x <-s m ; k" := (service_bind m (fun x => k))
  (at level 20, m at level 100, k at level 200, only parsing).

(** [for x in l { .. }], the loop's variables in [acc]. *)
Fixpoint service_fold {W A B} (f : A -> B -> service W A) (l : list B) (acc : A) : service W A :=
  match l with
  | [] => service_ret acc
  | x :: l => acc <-s f acc x; service_fold f l acc
  end.

Record RunError := mkRunError {
  re_kind : string;
  re_id : string;
  re_message : string
}.

(** [Error::..] of a run, or the summary of one that met errors. *)
Inductive ApiError (S : Type) :=
  | ApiMessage (message : string)
  | ApiSummary (summary : S).
Arguments ApiMessage {S} _.
Arguments ApiSummary {S} _.

(** [Ok(Json(summary))] if there were no errors. *)
Definition respond {W S} (errors : S -> list RunError) (m : service W S) (w : W) :
    (S + ApiError S) * W :=
  match m w with
  | (inl summary, w) => (match errors summary with [] => inl summary | _ => inr (ApiSummary summary) end, w)
  | (inr e, w) => (inr (ApiMessage e), w)
  end.

(** What a loop over Cloud Tasks collects. *)
Record Tally := mkTally {
  ta_events : list OrchestrationEvent;
  ta_enqueued : nat;
  ta_deduplicated : nat;
  ta_failed : nat;
  ta_errors : list RunError
}.

Definition tally_empty : Tally := mkTally [] 0 0 0 [].

(** The arms of [match result]: [acknowledgement] is the event of a task that the queue has. *)
Definition tally_result (kind id : string) (acknowledgement : OrchestrationEvent) (t : Tally)
    (result : EnqueueResult + string) : Tally :=
  match result with
  | inl (Enqueued _) =>
      mkTally (ta_events t ++ [acknowledgement]) (S (ta_enqueued t)) (ta_deduplicated t) (ta_failed t) (ta_errors t)
  | inl (Deduplicated _) =>
      mkTally (ta_events t ++ [acknowledgement]) (ta_enqueued t) (S (ta_deduplicated t)) (ta_failed t) (ta_errors t)
  | inl QueueFull =>
      mkTally (ta_events t) (ta_enqueued t) (ta_deduplicated t) (S (ta_failed t))
        (ta_errors t ++ [mkRunError (kind +:+ "_queue_full") id "queue full"])
  | inr err =>
      mkTally (ta_events t) (ta_enqueued t) (ta_deduplicated t) (S (ta_failed t))
        (ta_errors t ++ [mkRunError (kind +:+ "_enqueue_failed") id err])
  end.

Record AppState := mkAppState {
  ap_tenant_id : string;
  ap_workspace_id : string;
  ap_worker_dispatch_headers : gmap string string;
  ap_dispatch_target_url : string;
  ap_dispatch_target_audience : string;
  ap_callback_base_url : string;
  ap_task_token_config : TaskTokenConfig;
  ap_timer_target_url : option string;
  ap_timer_target_audience : option string;
  ap_timer_queue : option string
}.

#[export] Instance eta_OrchestrationEvent : Eta OrchestrationEvent := fun e =>
  mkOrchestrationEvent (ev_event_id e) (ev_event_type e) (ev_event_version e) (ev_timestamp e) (ev_source e)
    (ev_tenant_id e) (ev_workspace_id e) (ev_idempotency_key e) (ev_correlation_id e) (ev_causation_id e)
    (ev_data e).

Section Services.
Context {W : Type} `{Hashes} `{Chrono} `{Cloud W} `{HB : Base64} `{HJ : Jwt} `{HT : Rfc3339}.
Context (next_event_id : OrchestrationEventData -> string).
Context (error_string : Error -> string).

Definition new_event (app : AppState) (d : OrchestrationEventData) : OrchestrationEvent :=
  event_now next_event_id (ap_tenant_id app) (ap_workspace_id app) d.

(** [if !events.is_empty() { append_events_and_compact(..).await? }] *)
Definition append_unless_empty (events : list OrchestrationEvent) : service W unit :=
  match events with [] => service_ret tt | _ => append_events_and_compact events end.

Definition enqueue_task (task : HttpTask) : service W (EnqueueResult + string) := fun w =>
  let '(r, w) := enqueue_http task w in (inl r, w).

(** ** Dispatching attempts *)

Definition dispatch_envelope (app : AppState) (minted : MintedTaskToken)
    (run_id task_key : string) (attempt : u32) (attempt_id dispatch_id worker_queue : string) :
    WorkerDispatchEnvelope :=
  mkWorkerDispatchEnvelope (ap_tenant_id app) (ap_workspace_id app) (callback_task_id run_id task_key) task_key
    run_id attempt attempt_id dispatch_id None worker_queue (ap_callback_base_url app) (mt_token minted)
    (mt_expires_at minted) None (VObject []).

Definition mint_for (app : AppState) (run_id task_key : string) (attempt : u32) (attempt_id : string) :
    service W MintedTaskToken := fun w =>
  match mint_task_token_for_attempt (ap_task_token_config app) (callback_task_id run_id task_key)
          (ap_tenant_id app) (ap_workspace_id app) run_id attempt attempt_id utc_now with
  | Ok minted => (inl minted, w)
  | Err e => (inr ("configuration error: task token minting failed: " +:+ error_string e), w)
  end.

Definition dispatch_options (worker_queue : string) : EnqueueOptions :=
  if String.eqb worker_queue "default-queue" then enqueue_options_new
  else with_routing_key enqueue_options_new worker_queue.

Definition dispatch_task (app : AppState) (cloud_task_id : string) (options : EnqueueOptions)
    (envelope : WorkerDispatchEnvelope) : HttpTask :=
  mkHttpTask cloud_task_id (ap_dispatch_target_url app) (to_json envelope) options
    (Some (ap_dispatch_target_audience app)) (Some (ap_worker_dispatch_headers app)).

Definition dispatch_enqueued_event (app : AppState) (dispatch_id run_id task_key : string) (attempt : u32)
    (cloud_task_id : string) : OrchestrationEvent :=
  new_event app (DispatchEnqueued dispatch_id (Some run_id) (Some task_key) (Some attempt) cloud_task_id).

(** The body of the loop over dispatch actions. *)
Definition create_cloud_task (app : AppState) (t : Tally) (action : DispatchAction) : service W Tally :=
  match action with
  | DispatchSkip _ _ => service_ret t
  | CreateCloudTask dispatch_id cloud_task_id run_id task_key attempt attempt_id worker_queue =>
      minted <-s mint_for app run_id task_key attempt attempt_id;
      result <-s enqueue_task
        (dispatch_task app cloud_task_id (dispatch_options worker_queue)
           (dispatch_envelope app minted run_id task_key attempt attempt_id dispatch_id worker_queue));
      service_ret
        (tally_result "dispatch" dispatch_id
           (dispatch_enqueued_event app dispatch_id run_id task_key attempt cloud_task_id) t result)
  end.

(** [duration.to_std().ok()], in nanoseconds. *)
Definition to_std (d : Z) : option N := if (d <? 0)%Z then None else Some (Z.to_N d).

Definition timer_options (app : AppState) (fire_at now : DateTime) : EnqueueOptions :=
  let options := match to_std (fire_at - now)%Z with
                 | Some delay => with_delay enqueue_options_new delay
                 | None => enqueue_options_new
                 end in
  match ap_timer_queue app with Some queue => with_routing_key options queue | None => options end.

(** The body of the loop over timer actions. *)
Definition create_timer_task (app : AppState) (t : Tally) (action : TimerAction) : service W Tally :=
  match action with
  | TimerSkip _ _ => service_ret t
  | CreateTimer timer_id cloud_task_id _ fire_at run_id task_key attempt =>
      match ap_timer_target_url app with
      | None =>
          service_ret (mkTally (ta_events t) (ta_enqueued t) (ta_deduplicated t) (S (ta_failed t)) (ta_errors t))
      | Some target_url =>
          result <-s enqueue_task
            (mkHttpTask cloud_task_id target_url
               (timer_payload_value (mkTimerPayload timer_id run_id task_key attempt fire_at))
               (timer_options app fire_at utc_now)
               (Some (default target_url (ap_timer_target_audience app))) None);
          service_ret
            (tally_result "timer" timer_id
               (new_event app (TimerEnqueued timer_id run_id task_key attempt cloud_task_id)) t result)
      end
  end.

Record DispatcherSummary := mkDispatcherSummary {
  ds_ready_dispatch_emitted : nat;
  ds_ready_dispatch_skipped : nat;
  ds_dispatch_actions : nat;
  ds_dispatch : Tally;
  ds_timer_actions : nat;
  ds_timer : Tally;
  ds_errors : list RunError
}.

Definition timer_target_missing (app : AppState) (actions : list TimerAction) : list RunError :=
  match actions, ap_timer_target_url app with
  | _ :: _, None => [mkRunError "timer_target_missing" "timers" "ARCO_FLOW_TIMER_TARGET_URL is not set"]
  | _, _ => []
  end.

(** [run_handler] of the dispatcher after [load_state]; the tallies hold the counters of its
    summary. *)
Definition dispatcher_steps (app : AppState) (manifest : OrchestrationManifest) (state : FoldState) :
    service W DispatcherSummary :=
  let ready_actions := ready_reconcile ready_with_defaults manifest state in
  let ready_events := emitted (new_event app) ready_actions in
  _ <-s append_unless_empty ready_events;
  let dispatch_actions :=
    dispatcher_reconcile DEFAULT_MAX_COMPACTION_LAG manifest (values (fs_dispatch_outbox state)) in
  dispatched <-s service_fold (create_cloud_task app) dispatch_actions tally_empty;
  _ <-s append_unless_empty (ta_events dispatched);
  let timer_actions :=
    timer_reconcile (seconds 30) manifest (values (fs_timers state)) in
  timed <-s service_fold (create_timer_task app) timer_actions tally_empty;
  _ <-s append_unless_empty (ta_events timed);
  service_ret
    (mkDispatcherSummary (length ready_events) (length ready_actions - length ready_events)
       (length dispatch_actions) dispatched (length timer_actions) timed
       (ta_errors dispatched ++ timer_target_missing app timer_actions ++ ta_errors timed)).

Definition dispatcher_run (app : AppState) (manifest : OrchestrationManifest) (state : FoldState) :=
  respond ds_errors (dispatcher_steps app manifest state).

(** ** Repairing *)

Definition redispatch_cloud_task_id (original_dispatch_id repair_epoch repair_attempt_id : string) : string :=
  cloud_task_id "d" (original_dispatch_id +:+ ":repair:" +:+ repair_epoch +:+ ":" +:+ repair_attempt_id).

Record SweeperTally := mkSweeperTally {
  sw_repairs_created : nat;
  sw_redispatch_attempted : nat;
  sw_skipped_due_to_lag : nat;
  sw_redispatch : Tally
}.

Definition sweeper_tally_empty : SweeperTally := mkSweeperTally 0 0 0 tally_empty.

Definition repair_event (t : SweeperTally) (e : OrchestrationEvent) : SweeperTally :=
  let r := sw_redispatch t in
  mkSweeperTally (S (sw_repairs_created t)) (sw_redispatch_attempted t) (sw_skipped_due_to_lag t)
    (mkTally (ta_events r ++ [e]) (ta_enqueued r) (ta_deduplicated r) (ta_failed r) (ta_errors r)).

Definition created_dispatch_data (run_id task_key : string) (attempt : u32) : OrchestrationEventData :=
  let dispatch_id := dispatch_id run_id task_key attempt in
  DispatchRequested run_id task_key attempt (deterministic_attempt_id dispatch_id) "default-queue" dispatch_id.

Definition stale_failure_data (run_id task_key : string) (attempt : u32) (attempt_id reason : string) :
    OrchestrationEventData :=
  TaskFinished
    (mkTaskFinishedData run_id task_key attempt attempt_id "anti-entropy" OutFailed None (Some reason)
       None None None None None None None None).

(** The attempt id of the outbox row, unless it has none. *)
Definition redispatch_attempt_id (outbox : gmap string DispatchOutboxRow) (original_dispatch_id : string) :
    string :=
  match outbox !! original_dispatch_id with
  | Some row =>
      if str_is_empty (ob_attempt_id row) then deterministic_attempt_id original_dispatch_id
      else ob_attempt_id row
  | None => deterministic_attempt_id original_dispatch_id
  end.

Definition repair_epoch (outbox : gmap string DispatchOutboxRow) (original_dispatch_id : string) : string :=
  match outbox !! original_dispatch_id with
  | Some row => ob_row_version row
  | None => "missing_dispatch_outbox"
  end.

Definition new_ulid : service W string := fun w => let '(u, w) := ulid_new w in (inl u, w).

(** The body of the loop over repairs. *)
Definition repair_step (app : AppState) (outbox : gmap string DispatchOutboxRow) (t : SweeperTally)
    (repair : Repair) : service W SweeperTally :=
  match repair with
  | CreateDispatchOutbox run_id task_key attempt _ =>
      service_ret (repair_event t (new_event app (created_dispatch_data run_id task_key attempt)))
  | RedispatchStuckTask run_id task_key attempt original_dispatch_id _ =>
      let attempt_id := redispatch_attempt_id outbox original_dispatch_id in
      minted <-s mint_for app run_id task_key attempt attempt_id;
      repair_attempt_id <-s new_ulid;
      let cloud_id := redispatch_cloud_task_id original_dispatch_id (repair_epoch outbox original_dispatch_id)
                        repair_attempt_id in
      result <-s enqueue_task
        (dispatch_task app cloud_id enqueue_options_new
           (dispatch_envelope app minted run_id task_key attempt attempt_id original_dispatch_id "default-queue"));
      service_ret
        (mkSweeperTally (sw_repairs_created t) (S (sw_redispatch_attempted t)) (sw_skipped_due_to_lag t)
           (tally_result "redispatch" original_dispatch_id
              (dispatch_enqueued_event app original_dispatch_id run_id task_key attempt cloud_id)
              (sw_redispatch t) result))
  | FailStaleRunningTask run_id task_key attempt attempt_id reason =>
      service_ret (repair_event t (new_event app (stale_failure_data run_id task_key attempt attempt_id reason)))
  | SkippedDueToLag _ _ _ =>
      service_ret (mkSweeperTally (sw_repairs_created t) (sw_redispatch_attempted t) (S (sw_skipped_due_to_lag t))
                     (sw_redispatch t))
  end.

(** [run_handler] of the sweeper after [load_state]. *)
Definition sweeper_steps (app : AppState) (manifest : OrchestrationManifest) (state : FoldState) :
    service W SweeperTally :=
  let rows := values (fs_dispatch_outbox state) in
  let outbox_by_id : gmap string DispatchOutboxRow :=
    list_to_map (rev ((fun row => (ob_dispatch_id row, row)) <$> rows)) in
  let repairs := AntiEntropy.scan sweeper_with_defaults (mf_watermarks manifest) (values (fs_tasks state)) rows utc_now in
  t <-s service_fold (repair_step app outbox_by_id) repairs sweeper_tally_empty;
  _ <-s append_unless_empty (ta_events (sw_redispatch t));
  service_ret t.

Definition sweeper_run (app : AppState) (manifest : OrchestrationManifest) (state : FoldState) :=
  respond (fun t => ta_errors (sw_redispatch t)) (sweeper_steps app manifest state).

(** ** Automation *)

(** [ProjectionPartitionResolver]: no partition is known. *)
Definition projection_partition_resolver : PartitionResolver := {|
  count_range := fun _ _ _ => 0%N;
  list_range_chunk := fun _ _ _ _ _ => []
|}.

Section Reconciler.
Context `{HC : Cron}.

(** The poll sensors that are due, each evaluated under a fresh id ([PollSensorController::new]
    has the evaluator that finds nothing). *)
Definition poll_sensors (manifest : OrchestrationManifest) (state : FoldState) (now : DateTime) :
    service W (list OrchestrationEvent) :=
  let poll_epoch := timestamp_secs (wm_last_processed_at (mf_watermarks manifest)) in
  service_fold (fun events row =>
    if should_evaluate (seconds 30) row now then
      ulid <-s new_ulid;
      service_ret
        (events ++ evaluate (H1 := NoopSensorEvaluator) next_event_id ulid (se_sensor_id row) (se_tenant_id row) (se_workspace_id row) row
                     poll_epoch)
    else service_ret events) (values (fs_sensor_state state)) [].

(** The counters of the summary. *)
Record AutomationSummary := mkAutomationSummary {
  as_schedule_events : nat;
  as_sensor_events : nat;
  as_backfill_events : nat;
  as_timer_events : nat;
  as_run_request_events : nat;
  as_total_events : nat
}.

(** [run_handler] of the automation reconciler after [load_state]. *)
Definition automation_steps (app : AppState) (manifest : OrchestrationManifest) (state : FoldState) :
    service W AutomationSummary :=
  let now := utc_now in
  let schedule_events :=
    schedule_reconcile next_event_id schedule_controller_new (values (fs_schedule_definitions state))
      (values (fs_schedule_state state)) now in
  sensor_events <-s poll_sensors manifest state now;
  let backfill_events :=
    backfill_reconcile (H1 := projection_partition_resolver) next_event_id backfill_controller_new
      (mf_watermarks manifest) (fs_backfills state) (fs_backfill_chunks state) (fs_runs state) in
  let timer_events := new_event app <$> process_fired_timers state (mf_watermarks manifest) now in
  let run_request_events := RunRequests.reconcile next_event_id processor_new state in
  let pending := schedule_events ++ sensor_events ++ backfill_events ++ timer_events ++ run_request_events in
  _ <-s append_unless_empty pending;
  service_ret
    (mkAutomationSummary (length schedule_events) (length sensor_events) (length backfill_events)
       (length timer_events) (length run_request_events) (length pending)).
End Reconciler.

(** ** Fired timers *)

Definition resolve_timer_type (timer_type : option TimerType) (timer_id : string) : option EventTimerType :=
  match timer_type with
  | Some timer_type => Some (event_timer_type timer_type)
  | None =>
      match split_on ":" timer_id with
      | prefix :: type_part :: _ =>
          if negb (String.eqb prefix "timer") then None
          else if String.eqb type_part "retry" then Some EvRetry
          else if String.eqb type_part "heartbeat" then Some EvHeartbeatCheck
          else if String.eqb type_part "cron" then Some EvCron
          else if String.eqb type_part "sla" then Some EvSlaCheck
          else None
      | _ => None
      end
  end.

(** A refusal with its status, or [Internal] for an append that failed. *)
Inductive IngestError :=
  | BadRequest (message : string)
  | Internal (message : string).

Definition timer_fired_event (app : AppState) (request : TimerFiredRequest) (timer_type : EventTimerType) :
    OrchestrationEvent :=
  let event :=
    new_event app (TimerFired (tfr_timer_id request) timer_type (tfr_run_id request) (tfr_task_key request)
                     (tfr_attempt request)) in
  match tfr_fire_at request with
  | Some fire_at => event <| ev_timestamp := fire_at |>
  | None => event
  end.

(** The answer is [acknowledged] and [effective_once], both true. *)
Definition timer_fired_handler (app : AppState) (request : TimerFiredRequest) (w : W) :
    (unit + IngestError) * W :=
  if is_blank (tfr_timer_id request) then (inr (BadRequest "timer_id must not be empty"), w)
  else if bool_decide (tfr_attempt request = Some 0%N) then
    (inr (BadRequest "attempt must be >= 1 when present"), w)
  else
    match resolve_timer_type (tfr_timer_type request) (tfr_timer_id request) with
    | None => (inr (BadRequest "unable to resolve timer_type from payload"), w)
    | Some timer_type =>
        match append_events_and_compact [timer_fired_event app request timer_type] w with
        | (inl _, w) => (inl tt, w)
        | (inr e, w) => (inr (Internal e), w)
        end
    end.
End Services.
