(* ===== verification/DispatcherProps.v ===== *)
(** The dispatcher service delivers.

    Whatever Cloud Tasks and the ledger answer, a run of the dispatcher creates at most one
    Cloud Task per dispatch, acknowledges what the queue has and reports what it has not;
    what a worker finds in the task is the attempt, with a token for it. *)

From S2P Require Import Prelude Events FoldTypes FoldTasks FoldDispatch FoldAutomation Fold FoldIdempotence Sample Compactor Manifest ReadyDispatch ReadyDispatchProps Timers AntiEntropy BackfillControl RunRequests Storage Dag Plan Quota TaskQueue Canonical TaskTokens Envelope CallbacksProps Services.
From stdpp Require Import options.

(** ** What the services rely on *)

(** A Cloud Task is known by its queue and its id. *)
Definition task_name (t : HttpTask) : option string * string :=
  (eo_routing_key (ht_options t), ht_task_id t).

(** The queue keeps the tasks it accepted and accepts a name once; a call that fails may have
    taken effect.  The ledger keeps the batches appended to it, and an append that fails may
    have written some of its events. *)
Class CloudLaws (W : Type) `{Cloud W} := {
  accepted : W -> list HttpTask;
  batches : W -> list (list OrchestrationEvent);
  enqueue_http_law task w : let '(r, w') := enqueue_http task w in
    batches w' = batches w /\
    match r with
    | inl (Enqueued _) => (task_name task ∉ task_name <$> accepted w) /\ accepted w' = accepted w ++ [task]
    | inl (Deduplicated _) => (task_name task ∈ task_name <$> accepted w) /\ accepted w' = accepted w
    | inl QueueFull => accepted w' = accepted w
    | inr _ => accepted w' = accepted w \/
        ((task_name task ∉ task_name <$> accepted w) /\ accepted w' = accepted w ++ [task])
    end;
  append_law events w : let '(r, w') := append_events_and_compact events w in
    accepted w' = accepted w /\
    match r with
    | inl _ => batches w' = batches w ++ [events]
    | inr _ => exists written, written `prefix_of` events /\ batches w' = batches w ++ [written]
    end;
  ulid_law w : accepted (ulid_new w).2 = accepted w /\ batches (ulid_new w).2 = batches w
}.

(** ** Loops *)

Lemma service_fold_ind {W A B} (f : A -> B -> service W A) (I : list B -> A -> W -> Prop) (P : W -> Prop) l acc w :
  I [] acc w -> (forall d a w, I d a w -> P w) ->
  (forall d x a w, x ∈ l -> I d a w ->
     match f a x w with (inl a', w') => I (d ++ [x]) a' w' | (inr _, w') => P w' end) ->
  match service_fold f l acc w with (inl a', w') => I l a' w' | (inr _, w') => P w' end.
Proof.
  intros Hi HP Hf.
  enough (forall d, I d acc w ->
    match service_fold f l acc w with (inl a', w') => I (d ++ l) a' w' | (inr _, w') => P w' end) as Hall by by apply (Hall []).
  clear Hi. revert acc w Hf. induction l as [|x l IH]; intros acc w Hf d Hi; simpl.
  - unfold service_ret. by rewrite app_nil_r.
  - unfold service_bind. pose proof (Hf d x acc w (list_elem_of_here _ _) Hi) as Hx.
    destruct (f acc x w) as [[a'|e] w']; [|done].
    replace (d ++ x :: l) with ((d ++ [x]) ++ l) by by rewrite <- app_assoc.
    apply IH; [|exact Hx]. intros d' y a1 w1 Hy. apply Hf. by apply list_elem_of_further.
Qed.

Section Dispatcher.
Context {W : Type} `{Hashes} `{Chrono} `{HW : Cloud W} `{HL : !CloudLaws W} `{HB : Base64} `{HJ : Jwt} `{HT : Rfc3339}.
Context (next_event_id : OrchestrationEventData -> string) (error_string : Error -> string).
Context (app : AppState).

Abbreviation names w := (task_name <$> accepted w).

(** The Cloud Task of an attempt, with a token minted for it. *)
Definition is_dispatch (dispatch_id cloud_task_id run_id task_key : string) (attempt : u32)
    (attempt_id worker_queue : string) (t : HttpTask) : Prop :=
  exists minted,
    mint_task_token_for_attempt (ap_task_token_config app) (callback_task_id run_id task_key)
      (ap_tenant_id app) (ap_workspace_id app) run_id attempt attempt_id utc_now = Ok minted /\
    t = Services.dispatch_task app cloud_task_id (dispatch_options worker_queue)
          (dispatch_envelope app minted run_id task_key attempt attempt_id dispatch_id worker_queue).

(** The Cloud Task of a timer. *)
Definition is_timer (timer_id cloud_task_id : string) (fire_at : DateTime) (run_id task_key : option string)
    (attempt : option u32) (t : HttpTask) : Prop :=
  exists target_url, ap_timer_target_url app = Some target_url /\
    t = mkHttpTask cloud_task_id target_url
          (timer_payload_value (mkTimerPayload timer_id run_id task_key attempt fire_at))
          (timer_options app fire_at utc_now) (Some (default target_url (ap_timer_target_audience app))) None.

(** What a task sent to the queue leaves behind: only new tasks that satisfy [sent]. *)
Definition grows (sent : HttpTask -> Prop) (w w' : W) : Prop :=
  NoDup (names w') /\ exists new, accepted w' = accepted w ++ new /\ Forall sent new.

Lemma grows_refl (sent : HttpTask -> Prop) w : NoDup (names w) -> grows sent w w.
Proof using Type. split; [done|]. exists []. by rewrite app_nil_r. Qed.

Lemma grows_trans (sent : HttpTask -> Prop) w1 w2 w3 : grows sent w1 w2 -> grows sent w2 w3 -> grows sent w1 w3.
Proof using Type.
  intros [_ (n1 & E1 & F1)] [Hn (n2 & E2 & F2)]. split; [done|]. exists (n1 ++ n2).
  rewrite E2, E1, app_assoc. by split; [|apply Forall_app].
Qed.

Lemma grows_same (sent : HttpTask -> Prop) w w1 w' : accepted w' = accepted w1 -> grows sent w w1 -> grows sent w w'.
Proof using Type. unfold grows. by intros ->. Qed.

Lemma grows_weaken (P Q : HttpTask -> Prop) w w' : (forall t, P t -> Q t) -> grows P w w' -> grows Q w w'.
Proof using Type. intros HPQ [Hn (new & E & F)]. split; [done|]. exists new. split; [done|]. by eapply Forall_impl. Qed.

Lemma grows_elem (sent : HttpTask -> Prop) w w' x : grows sent w w' -> x ∈ names w -> x ∈ names w'.
Proof using Type. intros [_ (new & -> & _)] Hx. rewrite fmap_app. apply elem_of_app. by left. Qed.

Lemma enqueue_grows (sent : HttpTask -> Prop) task w : sent task -> NoDup (names w) ->
  let '(r, w') := enqueue_http task w in
  grows sent w w' /\ batches w' = batches w /\
  match r with inl (Enqueued _ | Deduplicated _) => task_name task ∈ names w' | _ => True end.
Proof using HL.
  intros Hs Hn. pose proof (enqueue_http_law task w) as Hl. destruct (enqueue_http task w) as [r w'].
  destruct Hl as [Hb Hl]. split_and!; [|done|].
  - assert (accepted w' = accepted w \/ ((task_name task ∉ names w) /\ accepted w' = accepted w ++ [task])) as [E|[Hni E]].
    { destruct r as [[?|?|]|?]; naive_solver. }
    + by eapply grows_same, grows_refl.
    + split; [|exists [task]; split; [done|by apply Forall_singleton]].
      rewrite E, fmap_app. apply NoDup_app. split_and!; [done| |apply NoDup_singleton].
      intros x Hx ->%list_elem_of_singleton. done.
  - destruct r as [[?|?|]|?]; [|by destruct Hl as [? ->]|done|done].
    destruct Hl as [_ ->]. rewrite fmap_app. apply elem_of_app. right. by apply list_elem_of_singleton.
Qed.

(** ** Loops over Cloud Tasks *)

(** [plan] says which task an action creates, by what id its failure is reported and which
    event acknowledges it; [todo] are the actions done so far. *)
Section Loop.
Context {A : Type} (plan : A -> option (string * OrchestrationEvent * (option string * string))).

Record delivered (w0 : W) (todo : list A) (t : Tally) (w : W) : Prop := {
  dl_batches : batches w = batches w0;
  dl_done a id e name : a ∈ todo -> plan a = Some (id, e, name) ->
    (name ∈ names w /\ e ∈ ta_events t) \/ exists err, err ∈ ta_errors t /\ re_id err = id;
  dl_events e : e ∈ ta_events t -> exists a id name,
    a ∈ todo /\ plan a = Some (id, e, name) /\ name ∈ names w
}.

Lemma delivered_start w : delivered w [] tally_empty w.
Proof using Type. split; [done|by intros ???? ?%elem_of_nil|by intros ? ?%elem_of_nil]. Qed.

Lemma delivered_skip w0 todo t t' w a :
  plan a = None -> ta_events t' = ta_events t -> ta_errors t' = ta_errors t ->
  delivered w0 todo t w -> delivered w0 (todo ++ [a]) t' w.
Proof using Type.
  intros Ha E1 E2 [D1 D2 D3]. split; [done| |].
  - rewrite E1, E2. intros b id e name [Hin| ->%list_elem_of_singleton]%elem_of_app; [by eauto|congruence].
  - rewrite E1. intros e He. destruct (D3 e He) as (b & id & name & ? & ? & ?).
    exists b, id, name. split_and!; [apply elem_of_app; by left|done|done].
Qed.

Lemma tally_result_spec kind id ack t result :
  let t' := tally_result kind id ack t result in
  match result with
  | inl (Enqueued _ | Deduplicated _) => ta_events t' = ta_events t ++ [ack] /\ ta_errors t' = ta_errors t
  | _ => ta_events t' = ta_events t /\ exists err, ta_errors t' = ta_errors t ++ [err] /\ re_id err = id
  end.
Proof using Type. destruct result as [[?|?|]|?]; simpl; eauto. Qed.

Lemma delivered_next w0 w1 todo t w' a kind id ack name result :
  plan a = Some (id, ack, name) -> delivered w0 todo t w1 -> batches w' = batches w1 ->
  (forall x, x ∈ names w1 -> x ∈ names w') ->
  match result with inl (Enqueued _ | Deduplicated _) => name ∈ names w' | _ => True end ->
  delivered w0 (todo ++ [a]) (tally_result kind id ack t result) w'.
Proof using Type.
  intros Ha [D1 D2 D3] Hb Hmono Hr. pose proof (tally_result_spec kind id ack t result) as Ht.
  set (t' := tally_result kind id ack t result) in *.
  assert ((ta_events t' = ta_events t ++ [ack] /\ ta_errors t' = ta_errors t /\ name ∈ names w') \/
    (ta_events t' = ta_events t /\ exists err, ta_errors t' = ta_errors t ++ [err] /\ re_id err = id)) as Hcase.
  { destruct result as [[?|?|]|?]; naive_solver. }
  assert (forall e, e ∈ ta_events t -> e ∈ ta_events t') as He.
  { intros e Hin. destruct Hcase as [[-> _]|[-> _]]; [apply elem_of_app; by left|done]. }
  assert (forall e, e ∈ ta_errors t -> e ∈ ta_errors t') as Hx.
  { intros e Hin. destruct Hcase as [(_ & -> & _)|(_ & err & -> & _)]; [done|apply elem_of_app; by left]. }
  clear Ht Hr. split; [congruence| |].
  - intros b id' e name' [Hin| ->%list_elem_of_singleton]%elem_of_app Hp.
    + destruct (D2 _ _ _ _ Hin Hp) as [[? ?]|(err & ? & ?)]; [left; eauto|right; eauto].
    + rewrite Ha in Hp. injection Hp as <- <- <-. destruct Hcase as [(-> & _ & Hn)|(_ & err & -> & Hid)].
      * left. split; [done|]. apply elem_of_app. right. by apply list_elem_of_singleton.
      * right. exists err. split; [apply elem_of_app; right; by apply list_elem_of_singleton|done].
  - intros e Hin.
    assert (e ∈ ta_events t \/ (e = ack /\ name ∈ names w')) as [Ho|[-> Hn]].
    { destruct Hcase as [(E & _ & Hn)|[E _]]; rewrite E in Hin; [|by left].
      apply elem_of_app in Hin as [?|?%list_elem_of_singleton]; [by left|by right]. }
    + destruct (D3 e Ho) as (b & id' & name' & ? & ? & ?).
      exists b, id', name'. split_and!; [apply elem_of_app; by left|done|by apply Hmono].
    + exists a, id, name. split_and!; [apply elem_of_app; right; by apply list_elem_of_singleton|done|done].
Qed.

(** A loop whose body creates the task of its action, or skips it. *)
Lemma delivery_loop (f : Tally -> A -> service W Tally) (sent : HttpTask -> Prop) actions w0 :
  NoDup (names w0) ->
  (forall a t w, a ∈ actions ->
     (plan a = None /\ exists t', ta_events t' = ta_events t /\ ta_errors t' = ta_errors t /\ f t a w = (inl t', w)) \/
     (exists e, f t a w = (inr e, w)) \/
     (exists task id ack name kind, plan a = Some (id, ack, name) /\ task_name task = name /\ sent task /\
        f t a w = (inl (tally_result kind id ack t (enqueue_http task w).1), (enqueue_http task w).2))) ->
  match service_fold f actions tally_empty w0 with
  | (inl t, w') => delivered w0 actions t w' /\ grows sent w0 w'
  | (inr _, w') => batches w' = batches w0 /\ grows sent w0 w'
  end.
Proof using HL.
  intros Hn0 Hf.
  apply (service_fold_ind _ (fun d t w => delivered w0 d t w /\ grows sent w0 w)
           (fun w => batches w = batches w0 /\ grows sent w0 w)).
  - split; [apply delivered_start|by apply grows_refl].
  - intros d t w [[? _ _] ?]. done.
  - intros d a t w Hin [Hd Hg].
    destruct (Hf a t w Hin) as [(Hp & t' & E1 & E2 & ->)|[(e & ->)|(task & id & ack & name & kind & Hp & Hnm & Hs & ->)]].
    + split; [by eapply delivered_skip|done].
    + split; [apply (dl_batches _ _ _ _ Hd)|done].
    + pose proof (enqueue_grows sent task w Hs (proj1 Hg)) as He.
      destruct (enqueue_http task w) as [result w']. destruct He as (Hg' & Hb & Hres). simpl.
      split; [|by eapply grows_trans]. eapply delivered_next; [exact Hp|exact Hd|exact Hb| |].
      * intros x. by eapply grows_elem.
      * by rewrite <- Hnm.
Qed.
End Loop.

(** ** The two loops of the dispatcher *)

Definition dispatch_plan (action : DispatchAction) : option (string * OrchestrationEvent * (option string * string)) :=
  match action with
  | CreateCloudTask did cid r k n aid q =>
      Some (did, dispatch_enqueued_event next_event_id app did r k n cid, (eo_routing_key (dispatch_options q), cid))
  | DispatchSkip _ _ => None
  end.

Definition timer_plan (action : TimerAction) : option (string * OrchestrationEvent * (option string * string)) :=
  match action, ap_timer_target_url app with
  | CreateTimer tid cid _ fire_at r k n, Some _ =>
      Some (tid, new_event next_event_id app (TimerEnqueued tid r k n cid),
            (eo_routing_key (timer_options app fire_at utc_now), cid))
  | _, _ => None
  end.

(** A task that one of the actions creates. *)
Definition sent_dispatch (actions : list DispatchAction) (t : HttpTask) : Prop :=
  exists did cid r k n aid q, CreateCloudTask did cid r k n aid q ∈ actions /\ is_dispatch did cid r k n aid q t.

Definition sent_timer (actions : list TimerAction) (t : HttpTask) : Prop :=
  exists tid cid ty fire_at r k n, CreateTimer tid cid ty fire_at r k n ∈ actions /\ is_timer tid cid fire_at r k n t.

Lemma dispatch_loop actions w0 : NoDup (names w0) ->
  match service_fold (create_cloud_task next_event_id error_string app) actions tally_empty w0 with
  | (inl t, w') => delivered dispatch_plan w0 actions t w' /\ grows (sent_dispatch actions) w0 w'
  | (inr _, w') => batches w' = batches w0 /\ grows (sent_dispatch actions) w0 w'
  end.
Proof using HL.
  intros Hn. apply delivery_loop; [done|]. intros a t w Hin.
  destruct a as [did cid r k n aid q|did reason]; [|left; split; [done|by exists t]].
  unfold create_cloud_task, service_bind, mint_for.
  destruct (mint_task_token_for_attempt _ _ _ _ _ _ _ _) as [minted|e] eqn:Hm; [|right; left; by eexists].
  right; right. unfold enqueue_task. set (task := Services.dispatch_task _ _ _ _).
  exists task, did. eexists _, _, "dispatch". split_and!; [reflexivity|done| |].
  - exists did, cid, r, k, n, aid, q. split; [done|]. by exists minted.
  - by destruct (enqueue_http task w).
Qed.

Lemma timer_loop actions w0 : NoDup (names w0) ->
  match service_fold (create_timer_task next_event_id app) actions tally_empty w0 with
  | (inl t, w') => delivered timer_plan w0 actions t w' /\ grows (sent_timer actions) w0 w'
  | (inr _, w') => batches w' = batches w0 /\ grows (sent_timer actions) w0 w'
  end.
Proof using HL.
  intros Hn. apply delivery_loop; [done|]. intros a t w Hin.
  destruct a as [tid cid ty fire_at r k n|tid reason]; [|left; split; [done|by exists t]].
  unfold create_timer_task, timer_plan. destruct (ap_timer_target_url app) as [url|] eqn:Hu.
  2:{ left. split; [done|]. eexists. split_and!; [| |reflexivity]; done. }
  right; right. unfold service_bind, enqueue_task.
  set (task := mkHttpTask _ _ _ _ _ _).
  exists task, tid. eexists _, _, "timer". split_and!; [reflexivity|done| |].
  - exists tid, cid, ty, fire_at, r, k, n. split; [done|]. by exists url.
  - by destruct (enqueue_http task w).
Qed.

(** ** A whole run *)

(** The name of the Cloud Task of an outbox row or a timer, and the event that acknowledges it. *)
Definition row_name (row : DispatchOutboxRow) : option string * string :=
  (eo_routing_key (dispatch_options (ob_worker_queue row)), cloud_task_id "d" (ob_dispatch_id row)).

Definition row_ack (row : DispatchOutboxRow) : OrchestrationEvent :=
  dispatch_enqueued_event next_event_id app (ob_dispatch_id row) (ob_run_id row) (ob_task_key row) (ob_attempt row)
    (cloud_task_id "d" (ob_dispatch_id row)).

Definition timer_name (row : TimerRow) : option string * string :=
  (ap_timer_queue app, cloud_task_id "t" (ti_timer_id row)).

Definition timer_ack (row : TimerRow) : OrchestrationEvent :=
  new_event next_event_id app
    (TimerEnqueued (ti_timer_id row) (ti_run_id row) (ti_task_key row) (ti_attempt row)
       (cloud_task_id "t" (ti_timer_id row))).

Lemma timer_options_queue fire_at now : eo_routing_key (timer_options app fire_at now) = ap_timer_queue app.
Proof using Type. unfold timer_options. destruct (to_std _), (ap_timer_queue app); done. Qed.

(** The task delivers a dispatch that is pending in [s], or a timer that has no Cloud Task. *)
Definition delivers (s : FoldState) (t : HttpTask) : Prop :=
  (exists did row, fs_dispatch_outbox s !! did = Some row /\ ob_status row = DispPending /\
     is_dispatch (ob_dispatch_id row) (cloud_task_id "d" (ob_dispatch_id row)) (ob_run_id row) (ob_task_key row)
       (ob_attempt row) (ob_attempt_id row) (ob_worker_queue row) t) \/
  (exists tid row, fs_timers s !! tid = Some row /\ awaits_cloud_task row = true /\
     is_timer (ti_timer_id row) (cloud_task_id "t" (ti_timer_id row)) (ti_fire_at row) (ti_run_id row)
       (ti_task_key row) (ti_attempt row) t).

(** The event requests a dispatch, or acknowledges a task that the queue has. *)
Definition justified (s : FoldState) (w : W) (e : OrchestrationEvent) : Prop :=
  (exists r k n aid q did, ev_data e = DispatchRequested r k n aid q did) \/
  (exists did row, fs_dispatch_outbox s !! did = Some row /\ ob_status row = DispPending /\
     e = row_ack row /\ row_name row ∈ names w) \/
  (exists tid row, fs_timers s !! tid = Some row /\ awaits_cloud_task row = true /\
     e = timer_ack row /\ timer_name row ∈ names w).

Record advances (s : FoldState) (w w' : W) : Prop := {
  ad_grows : grows (delivers s) w w';
  ad_events : exists new, batches w' = batches w ++ new /\ Forall (justified s w') (concat new)
}.

Lemma justified_mono s w w' e : (forall x, x ∈ names w -> x ∈ names w') -> justified s w e -> justified s w' e.
Proof using Type. intros Hm [?|[(d & r & ? & ? & ? & ?)|(d & r & ? & ? & ? & ?)]]; [by left|right; left|right; right]; eauto 8. Qed.

Lemma advances_trans s w1 w2 w3 : advances s w1 w2 -> advances s w2 w3 -> advances s w1 w3.
Proof using Type.
  intros [G1 (n1 & E1 & F1)] [G2 (n2 & E2 & F2)]. split; [by eapply grows_trans|].
  exists (n1 ++ n2). rewrite E2, E1, app_assoc, concat_app. split; [done|]. apply Forall_app. split; [|done].
  eapply Forall_impl; [exact F1|]. intros e. apply justified_mono. intros x. by eapply grows_elem.
Qed.

Lemma append_advances s events w : NoDup (names w) -> Forall (justified s w) events ->
  let '(r, w') := append_unless_empty events w in
  advances s w w' /\ accepted w' = accepted w /\
  match r with
  | inl _ => forall e, e ∈ events -> e ∈ concat (batches w')
  | inr _ => True
  end.
Proof using HL.
  intros Hn Hj. destruct (decide (events = [])) as [->|Hne]; simpl.
  { split_and!; [|done|by intros e ?%elem_of_nil]. split; [by apply grows_refl|]. exists []. by rewrite app_nil_r. }
  replace (append_unless_empty events) with (append_events_and_compact events) by by destruct events.
  pose proof (append_law events w) as Hl.
  destruct (append_events_and_compact events w) as [[[]|e] w']; destruct Hl as [Ha Hb].
  - assert (forall e, justified s w e -> justified s w' e) as Hjw by (intros e; apply justified_mono; by rewrite Ha).
    split_and!; [|done|].
    + split; [eapply grows_same; [exact Ha|by apply grows_refl]|].
      exists [events]. split; [done|]. simpl. rewrite app_nil_r. by eapply Forall_impl; [exact Hj|].
    + intros e He. rewrite Hb, concat_app. apply elem_of_app. right. simpl. by rewrite app_nil_r.
  - destruct Hb as (written & [rest ->] & Hb). apply Forall_app in Hj as [Hj _].
    assert (forall e, justified s w e -> justified s w' e) as Hjw by (intros x; apply justified_mono; by rewrite Ha).
    split_and!; [|done|done]. split; [eapply grows_same; [exact Ha|by apply grows_refl]|].
    exists [written]. split; [done|]. simpl. rewrite app_nil_r. by eapply Forall_impl; [exact Hj|].
Qed.

Lemma loop_advances s w w' (sent : HttpTask -> Prop) :
  batches w' = batches w -> (forall t, sent t -> delivers s t) -> grows sent w w' -> advances s w w'.
Proof using Type.
  intros Hb Hs Hg. split; [by eapply grows_weaken|]. exists []. by rewrite app_nil_r.
Qed.

Lemma values_elem {K V} `{Countable K} (m : gmap K V) v : v ∈ values m <-> exists k, m !! k = Some v.
Proof using Type.
  unfold values. rewrite list_elem_of_fmap. split.
  - intros ([k v'] & -> & Hin%elem_of_map_to_list). by exists k.
  - intros (k & Hk). exists (k, v). split; [done|]. by apply elem_of_map_to_list.
Qed.

Lemma dispatch_actions_elem lag manifest rows did cid r k n aid q :
  CreateCloudTask did cid r k n aid q ∈ dispatcher_reconcile lag manifest rows <->
  is_fresh (mf_watermarks manifest) lag = true /\
  exists row, row ∈ rows /\ ob_status row = DispPending /\ did = ob_dispatch_id row /\
    cid = cloud_task_id "d" (ob_dispatch_id row) /\ r = ob_run_id row /\ k = ob_task_key row /\
    n = ob_attempt row /\ aid = ob_attempt_id row /\ q = ob_worker_queue row.
Proof using Type.
  unfold dispatcher_reconcile. destruct (is_fresh _ _); rewrite list_elem_of_fmap.
  - unfold reconcile_row. split.
    + intros (row & Hr & Hin). split; [done|]. exists row.
      destruct (ob_status row); [|done]. injection Hr as -> -> -> -> -> -> ->. by split_and!.
    + intros [_ (row & Hin & Hs & -> & -> & -> & -> & -> & -> & ->)]. exists row. by rewrite Hs.
  - split; [by intros (? & [=] & _)|by intros [[=] _]].
Qed.

Lemma timer_actions_elem lag manifest rows tid cid ty fire_at r k n :
  CreateTimer tid cid ty fire_at r k n ∈ timer_reconcile lag manifest rows <->
  is_fresh (mf_watermarks manifest) lag = true /\
  exists row, row ∈ rows /\ awaits_cloud_task row = true /\ tid = ti_timer_id row /\
    cid = cloud_task_id "t" (ti_timer_id row) /\ ty = ti_timer_type row /\ fire_at = ti_fire_at row /\
    r = ti_run_id row /\ k = ti_task_key row /\ n = ti_attempt row.
Proof using Type.
  unfold timer_reconcile. destruct (is_fresh _ _); rewrite list_elem_of_fmap.
  - unfold reconcile_timer_row, awaits_cloud_task. split.
    + intros (row & Hr & Hin). split; [done|]. exists row.
      destruct (ti_state row), (ti_cloud_task_id row); try done. injection Hr as -> -> -> -> -> -> ->. by split_and!.
    + intros [_ (row & Hin & Hs & -> & -> & -> & -> & -> & -> & ->)]. exists row. split; [|done].
      by destruct (ti_state row), (ti_cloud_task_id row).
  - split; [by intros (? & [=] & _)|by intros [[=] _]].
Qed.

Section Run.
Context (manifest : OrchestrationManifest) (state : FoldState).

Abbreviation dispatch_actions :=
  (dispatcher_reconcile DEFAULT_MAX_COMPACTION_LAG manifest (values (fs_dispatch_outbox state))).
Abbreviation timer_actions := (timer_reconcile (seconds 30) manifest (values (fs_timers state))).

Lemma sent_dispatch_delivers t : sent_dispatch dispatch_actions t -> delivers state t.
Proof using Type.
  intros (did & cid & r & k & n & aid & q & Hin & Hd).
  apply dispatch_actions_elem in Hin as [_ (row & Hv & Hs & -> & -> & -> & -> & -> & -> & ->)].
  apply values_elem in Hv as [key Hk]. left. by exists key, row.
Qed.

Lemma sent_timer_delivers t : sent_timer timer_actions t -> delivers state t.
Proof using Type.
  intros (tid & cid & ty & fire_at & r & k & n & Hin & Hd).
  apply timer_actions_elem in Hin as [_ (row & Hv & Hs & -> & -> & -> & -> & -> & -> & ->)].
  apply values_elem in Hv as [key Hk]. right. by exists key, row.
Qed.

Lemma dispatch_acks_justified w0 t w :
  delivered dispatch_plan w0 dispatch_actions t w -> Forall (justified state w) (ta_events t).
Proof using Type.
  intros [_ _ D3]. apply Forall_forall. intros e He. destruct (D3 e He) as (a & id & name & Hin & Hp & Hn).
  destruct a as [did cid r k n aid q|]; [|done]. injection Hp as <- <- <-.
  apply dispatch_actions_elem in Hin as [_ (row & Hv & Hs & -> & -> & -> & -> & -> & -> & ->)].
  apply values_elem in Hv as [key Hk]. right. left. by exists key, row.
Qed.

Lemma timer_acks_justified w0 t w :
  delivered timer_plan w0 timer_actions t w -> Forall (justified state w) (ta_events t).
Proof using Type.
  intros [_ _ D3]. apply Forall_forall. intros e He. destruct (D3 e He) as (a & id & name & Hin & Hp & Hn).
  unfold timer_plan in Hp. destruct a as [tid cid ty fire_at r k n|]; [|done]. destruct (ap_timer_target_url app); [|done].
  injection Hp as <- <- <-. rewrite timer_options_queue in Hn.
  apply timer_actions_elem in Hin as [_ (row & Hv & Hs & -> & -> & -> & -> & -> & -> & ->)].
  apply values_elem in Hv as [key Hk]. right. right. by exists key, row.
Qed.

Lemma ready_justified c w : Forall (justified state w) (emitted (new_event next_event_id app) (ready_reconcile c manifest state)).
Proof using Type.
  apply Forall_forall. intros e He. apply list_elem_of_fmap in He as (d & -> & Hd).
  apply list_elem_of_omap in Hd as (a & _ & Ha). left. destruct a; simpl in Ha; [|done]. injection Ha as <-. eauto 10.
Qed.

(** What a run that ends with a summary has done for every row that waits. *)
Definition settled (w' : W) (summary : DispatcherSummary) : Prop :=
  (forall did row, is_fresh (mf_watermarks manifest) DEFAULT_MAX_COMPACTION_LAG = true ->
     fs_dispatch_outbox state !! did = Some row -> ob_status row = DispPending ->
     (row_name row ∈ names w' /\ row_ack row ∈ concat (batches w')) \/
     exists err, err ∈ ds_errors summary /\ re_id err = ob_dispatch_id row) /\
  (forall tid row, is_fresh (mf_watermarks manifest) (seconds 30) = true ->
     fs_timers state !! tid = Some row -> awaits_cloud_task row = true ->
     (timer_name row ∈ names w' /\ timer_ack row ∈ concat (batches w')) \/
     exists err, err ∈ ds_errors summary /\ (re_id err = ti_timer_id row \/ re_id err = "timers")).

Lemma dispatcher_steps_spec w : NoDup (names w) ->
  match dispatcher_steps next_event_id error_string app manifest state w with
  | (inl summary, w') => advances state w w' /\ settled w' summary
  | (inr _, w') => advances state w w'
  end.
Proof using HL.
  intros Hn. unfold dispatcher_steps, service_bind.
  pose proof (append_advances state _ w Hn (ready_justified ready_with_defaults w)) as H1.
  destruct (append_unless_empty _ w) as [[[]|e] w1]; destruct H1 as (A1 & _ & _); [|done].
  pose proof (dispatch_loop dispatch_actions w1 (proj1 (ad_grows _ _ _ A1))) as H2.
  destruct (service_fold (create_cloud_task _ _ _) _ _ w1) as [[dispatched|e] w2].
  2:{ destruct H2 as [Hb Hg]. eapply advances_trans; [exact A1|].
      by eapply loop_advances; [|apply sent_dispatch_delivers|]. }
  destruct H2 as [D2 G2].
  assert (advances state w w2) as A2.
  { eapply advances_trans; [exact A1|]. by eapply loop_advances; [apply D2|apply sent_dispatch_delivers|]. }
  pose proof (append_advances state _ w2 (proj1 G2) (dispatch_acks_justified _ _ _ D2)) as H3.
  destruct (append_unless_empty _ w2) as [[[]|e] w3]; destruct H3 as (A3 & E3 & B3); [|by eapply advances_trans].
  pose proof (timer_loop timer_actions w3 (proj1 (ad_grows _ _ _ A3))) as H4.
  destruct (service_fold (create_timer_task _ _) _ _ w3) as [[timed|e] w4].
  2:{ destruct H4 as [Hb Hg]. do 2 (eapply advances_trans; [eassumption|]).
      by eapply loop_advances; [|apply sent_timer_delivers|]. }
  destruct H4 as [D4 G4].
  assert (advances state w w4) as A4.
  { do 2 (eapply advances_trans; [eassumption|]). by eapply loop_advances; [apply D4|apply sent_timer_delivers|]. }
  pose proof (append_advances state _ w4 (proj1 G4) (timer_acks_justified _ _ _ D4)) as H5.
  destruct (append_unless_empty _ w4) as [[[]|e] w5]; destruct H5 as (A5 & E5 & B5); [|by eapply advances_trans].
  split; [by eapply advances_trans|]. split; simpl.
  - intros did row Hf Ho Hs.
    destruct (dl_done _ _ _ _ _ D2 (reconcile_row row) (ob_dispatch_id row) (row_ack row) (row_name row)) as [[Hin He]|(err & He & Hid)].
    + unfold dispatcher_reconcile. rewrite Hf. apply list_elem_of_fmap_2, values_elem. by exists did.
    + unfold reconcile_row. by rewrite Hs.
    + left. split.
      * rewrite E5. eapply grows_elem; [exact G4|]. by rewrite E3.
      * destruct A5 as [_ (n5 & -> & _)]. rewrite (dl_batches _ _ _ _ _ D4), concat_app. apply elem_of_app. left. by apply B3.
    + right. exists err. split; [apply elem_of_app; by left|done].
  - intros tid row Hf Ho Hs. destruct (ap_timer_target_url app) as [url|] eqn:Hu.
    + destruct (dl_done _ _ _ _ _ D4 (reconcile_timer_row row) (ti_timer_id row) (timer_ack row) (timer_name row)) as [[Hin He]|(err & He & Hid)].
      * unfold timer_reconcile. rewrite Hf. apply list_elem_of_fmap_2, values_elem. by exists tid.
      * unfold reconcile_timer_row, awaits_cloud_task, timer_plan in *.
        destruct (ti_state row), (ti_cloud_task_id row); try done. rewrite Hu, timer_options_queue. done.
      * left. rewrite E5. split; [done|by apply B5].
      * right. exists err. split; [|by left]. rewrite !elem_of_app. by right; right.
    + right. exists (mkRunError "timer_target_missing" "timers" "ARCO_FLOW_TIMER_TARGET_URL is not set").
      split; [|by right]. rewrite !elem_of_app. right. left. unfold timer_target_missing. rewrite Hu.
      assert (reconcile_timer_row row ∈ timer_actions) as Hin.
      { unfold timer_reconcile. rewrite Hf. apply list_elem_of_fmap_2, values_elem. by exists tid. }
      destruct timer_actions; [by apply elem_of_nil in Hin|]. by apply list_elem_of_singleton.
Qed.

End Run.
End Dispatcher.

(** ** What the worker receives *)

(** The body of a dispatch is an envelope the worker reads back, addressed to the attempt;
    until it expires, the token in it decodes to that attempt alone, and the callback id to the
    run and the task. *)
Theorem dispatch_received `{HB : Base64} `{!Base64Laws} `{HJ : Jwt} `{!JwtLaws} `{HT : Rfc3339} `{!Rfc3339Laws}
    `{Chrono} app did cid r k n aid q t now :
  is_dispatch app did cid r k n aid q t -> (n < u32_modulus)%N ->
  r <> "" -> k <> "" -> str_contains nul r = false -> str_contains nul k = false ->
  utf8_valid r = true -> utf8_valid k = true ->
  exists e, from_json (ht_body t) = Some e /\
    we_run_id e = r /\ we_task_key e = k /\ we_attempt e = n /\ we_attempt_id e = aid /\ we_dispatch_id e = did /\
    parse_callback_task_id (we_task_id e) = Ok (mkParsedCallbackTaskId r k) /\
    ((utc_now <= now <= we_token_expires_at e)%Z ->
     exists claims, decode_task_token (ap_task_token_config app) now (we_task_token e) = Ok claims /\
       cl_run_id claims = Some r /\ cl_attempt claims = Some n /\ cl_attempt_id claims = Some aid /\
       cl_task_id claims = we_task_id e /\ cl_tenant_id claims = ap_tenant_id app).
Proof.
  intros (minted & Hm & ->) Hn Hr Hk Nr Nk Ur Uk. eexists.
  split; [by apply envelope_roundtrip|]. split_and!; try done; [by apply callback_id_parses|].
  simpl. intros Hnow. destruct minted as [token expires]. simpl in *.
  destruct (minted_decodes _ _ _ _ _ _ _ _ _ _ _ Hm Hnow) as (claims & -> & ? & ? & ? & ? & ? & ?).
  exists claims. by split_and!.
Qed.

(** ** Evaluation *)

Module DispatcherSample.
Import CallbacksProps.CallbackSample.

(** A queue that loses the answer for some ids, and a ledger in memory. *)
Record World := mkWorld {
  wd_lossy : list string;
  wd_accepted : list HttpTask;
  wd_batches : list (list OrchestrationEvent)
}.

Definition world_enqueue (task : HttpTask) (w : World) : (EnqueueResult + string) * World :=
  if decide (task_name task ∈ (task_name <$> wd_accepted w)) then (inl (Deduplicated (ht_task_id task)), w)
  else
    (if decide (ht_task_id task ∈ wd_lossy w) then inr "timed out" else inl (Enqueued (ht_task_id task)),
     mkWorld (wd_lossy w) (wd_accepted w ++ [task]) (wd_batches w)).

#[export] Instance world_cloud : Cloud World := {|
  enqueue_http := world_enqueue;
  append_events_and_compact := fun events w =>
    (inl tt, mkWorld (wd_lossy w) (wd_accepted w) (wd_batches w ++ [events]));
  ulid_new := fun w => ("ulid", w)
|}.

#[export] Instance world_laws : CloudLaws World.
Proof.
  refine {| accepted := wd_accepted; batches := wd_batches |}.
  - intros task w. unfold enqueue_http, world_cloud, world_enqueue. case_decide as Hin; [done|].
    split; [done|]. case_decide; simpl; [by right|done].
  - done.
  - done.
Defined.

#[export] Instance decimal_time : Rfc3339 := {|
  rfc3339 := fun t => pretty t;
  parse_rfc3339 := fun _ => None
|}.

Definition app : AppState :=
  mkAppState "t" "w" ∅ "https://worker" "https://worker" "https://api" config None None None.

Definition new_id : OrchestrationEventData -> string := fun _ => "09".

(** [b] has been dispatched and waits for its Cloud Task. *)
Definition waiting : FoldState := fold_event sample_state (sample_dispatch "06" "b" 1).

Definition run_on (w : World) :=
  dispatcher_run new_id (fun _ => "error") app ReadyDispatchProps.sample_manifest waiting w.

Definition quiet : World := mkWorld [] [] [].

(** The queue has the task but its answer is lost: the run reports an error; the next one
    finds the task there, and acknowledges it. *)
Definition lossy : World := mkWorld [cloud_task_id "d" (dispatch_id "r" "b" 1)] [] [].

Example lost_answer_recovers :
  let w1 := (run_on lossy).2 in
  let w2 := (run_on w1).2 in
  length (accepted w1) = 1 /\ batches w1 = [] /\ length (accepted w2) = 1 /\ length (concat (batches w2)) = 1.
Proof. vm_compute. split_and!; reflexivity. Qed.

End DispatcherSample.
