(* ===== verification/SweepProps.v ===== *)
(** Who starts a timer, and what the sweeper heals.

    A task that failed with attempts left waits for a retry timer, or for the sweeper once the
    timer's deadline has passed.  No event but [TimerRequested], [TimerEnqueued] and
    [TimerFired] adds a timer or a deadline, and no service emits one of these unless a timer
    is there already: from a state without timers there will never be one.

    Each repair of a scan names a task that is stuck, each stuck task gets a repair, and the
    event the service makes of a repair moves the task on.  The exception is the redispatch of
    a task, which is never acknowledged. *)

From S2P Require Import Prelude Events FoldTypes FoldTasks FoldDispatch FoldAutomation Fold FoldMachine FoldInvariant FoldReach FoldProps Sample Compactor Manifest ReadyDispatch ReadyDispatchProps Timers AntiEntropy BackfillControl AutomationControl RunRequests Storage Dag Plan Quota TaskQueue Canonical TaskTokens Envelope Services DispatcherProps FoldIdempotence.
From stdpp Require Import options.

(** ** Events that start no timer *)

Definition undated (s : FoldState) : Prop :=
  forall key t, fs_tasks s !! key = Some t -> tk_retry_not_before t = None.

Record calm (s s' : FoldState) : Prop := {
  ca_timers : fs_timers s' = fs_timers s;
  ca_undated : undated s -> undated s'
}.

Definition timer_event (d : OrchestrationEventData) : bool :=
  match d with
  | TimerRequested _ _ _ _ _ _ | TimerEnqueued _ _ _ _ _ | TimerFired _ _ _ _ _ => true
  | _ => false
  end.

Lemma calm_refl s : calm s s.
Proof. by split. Qed.

Lemma calm_trans s1 s2 s3 : calm s1 s2 -> calm s2 s3 -> calm s1 s3.
Proof. intros [] []. split; [congruence|auto]. Qed.

Lemma calm_same s s' : fs_timers s' = fs_timers s -> fs_tasks s' = fs_tasks s -> calm s s'.
Proof. intros Ht Hk. split; [done|]. unfold undated. by rewrite Hk. Qed.

(** A row that gets no deadline it did not have. *)
Abbreviation no_deadline t t' := (tk_retry_not_before t = None -> tk_retry_not_before t' = None).

Lemma calm_insert s s' key t t' :
  fs_timers s' = fs_timers s -> fs_tasks s' = <[key := t']> (fs_tasks s) ->
  fs_tasks s !! key = Some t -> no_deadline t t' -> calm s s'.
Proof.
  intros Ht Hk Hl Hn. split; [done|]. intros Hu key' x. rewrite Hk.
  intros [[<- <-]|[_ Hx]]%lookup_insert_Some; [by apply Hn, (Hu key)|by apply (Hu key')].
Qed.

Lemma calm_alter s s' key f :
  fs_timers s' = fs_timers s -> fs_tasks s' = alter f key (fs_tasks s) -> (forall t, no_deadline t (f t)) -> calm s s'.
Proof.
  intros Ht Hk Hf. destruct (fs_tasks s !! key) as [t|] eqn:E.
  - eapply (calm_insert s s' key t (f t)); [done| |done|apply Hf].
    rewrite Hk. apply map_eq. intros i. rewrite lookup_alter, lookup_insert. case_decide; [|done]. subst. by rewrite E.
  - apply calm_same; [done|]. rewrite Hk. apply map_eq. intros i. rewrite lookup_alter. case_decide; [|done]. subst. by rewrite E.
Qed.

Lemma calm_fold_left {B} (f : FoldState -> B -> FoldState) l s :
  (forall s b, calm s (f s b)) -> calm s (fold_left f l s).
Proof.
  intros Hf. revert s. induction l as [|b l IH]; intros s; simpl; [apply calm_refl|]. by eapply calm_trans.
Qed.

Lemma calm_propagate_edge id r u res ts sq d : calm sq.1 (propagate_edge r u res id ts sq d).1.
Proof.
  destruct sq as [s q]. unfold propagate_edge. cbn [fst snd].
  destruct (fs_tasks (put_field fs_dep_satisfaction _ s) !! (r, d)) as [t|] eqn:Et;
    [case_match|]; try by apply calm_same.
  destruct (propagated res) as [ns nr]. cbn [fst]. by eapply calm_insert; [| |exact Et|].
Qed.

Lemma calm_propagate_loop id n r ts s q : calm s (propagate_loop n r id ts s q).
Proof.
  revert s q. induction n as [|n IH]; intros s [|[u res] q]; try apply calm_refl. simpl.
  destruct (propagate_node _ _ _ _ _ _ _) as [s' q'] eqn:E.
  eapply calm_trans; [|apply IH]. change s' with ((s', q').1). rewrite <- E. unfold propagate_node.
  clear E. change s with ((s, q).1) at 1. generalize (s, q) as sq.
  induction (dependents s r u) as [|d l IHl]; intros sq; simpl; [apply calm_refl|].
  eapply calm_trans; [apply calm_propagate_edge|apply IHl].
Qed.

Lemma calm_satisfy s r u res n id ts : calm s (satisfy_downstream_edges s r u res n id ts).
Proof.
  apply calm_fold_left. intros s' d. unfold satisfy_edge. case_match; [by apply calm_same|].
  eapply calm_alter; [done|reflexivity|]. intros t. unfold satisfy_task_row. by case_match.
Qed.

Section Handlers.
Context `{Hashes} `{Chrono} `{SerdeJson}.

Lemma calm_finish_downstream s d md pk ns id ts t w : calm s (finish_downstream s d md pk ns id ts t w).
Proof.
  unfold finish_downstream, propagate_failure.
  repeat case_match; try apply calm_propagate_loop; try apply calm_satisfy; try apply calm_refl.
  eapply calm_trans; [apply calm_satisfy|]. unfold update_partition_materialization. case_match; by apply calm_same.
Qed.

Lemma calm_finished s d id ts t w : calm s (fold_task_finished s d id ts t w).1.
Proof.
  unfold fold_task_finished. destruct (fs_tasks s !! _) as [x|] eqn:Ex; [|apply calm_refl].
  case_match; [apply calm_refl|]. case_match; [apply calm_refl|]. cbn [fst].
  set (md := extract_execution_metadata _ _ _). set (pk := option_or (tf_partition_key d) _).
  assert (calm s (s <| fs_tasks := <[(tf_run_id d, tf_task_key d) := finished_task_row d md pk id ts x]> (fs_tasks s) |>)) as Hw.
  { eapply calm_insert; [done|reflexivity|exact Ex|]. unfold finished_task_row. repeat case_match; done. }
  set (s1 := s <| fs_tasks := _ |>) in *.
  assert (calm s (finish_downstream (if task_is_terminal (finished_state (tf_outcome d) x)
    then modify_run (tf_run_id d) (finished_run_row (finished_state (tf_outcome d) x) id ts) s1 else s1)
    d md pk (finished_state (tf_outcome d) x) id ts t w)) as Hd.
  { eapply calm_trans; [|apply calm_finish_downstream]. eapply calm_trans; [exact Hw|]. case_match; by apply calm_same. }
  repeat case_match; try exact Hd; (eapply calm_trans; [exact Hd|]); unfold update_partition_attempt; case_match; by apply calm_same.
Qed.

Lemma calm_visibility s r k n aid v p pe id ts : calm s (fold_task_output_visibility_changed s r k n aid v p pe id ts).1.
Proof.
  unfold fold_task_output_visibility_changed. destruct (fs_tasks s !! _) as [x|] eqn:Ex; [|apply calm_refl].
  case_match; [apply calm_refl|]. case_match; [apply calm_refl|]. cbn [fst].
  eapply calm_insert; [done|reflexivity|exact Ex|]. unfold visibility_task_row. by case_match.
Qed.

Lemma calm_completion s d ov id ts t w : calm s (fold_task_completion s d ov id ts t w).1.
Proof.
  unfold fold_task_completion. pose proof (calm_finished s d id ts t w) as Hf.
  destruct (fold_task_finished s d id ts t w) as [s1 b]. simpl in Hf.
  destruct (b && _); [|done]. destruct ov as [u|]; [|done].
  match goal with |- context [fold_task_output_visibility_changed ?a ?b ?c ?d ?e ?f ?g ?h ?i ?j] =>
    pose proof (calm_visibility a b c d e f g h i j) as Hv;
    destruct (fold_task_output_visibility_changed a b c d e f g h i j) as [s2 b2] end.
  simpl in *. by eapply calm_trans.
Qed.

Lemma calm_cancel s r id ts : calm s (fold_run_cancel_requested s r id ts).1.
Proof.
  unfold fold_run_cancel_requested. case_match; cbn [fst]; [apply calm_refl|].
  set (s1 := modify_run r (request_cancel id) s). set (s2 := fold_left _ _ s1).
  apply (calm_trans s s2); [|by apply calm_same]. apply (calm_trans s s1); [by apply calm_same|].
  apply calm_fold_left. intros s' key. unfold cancel_one, modify_run.
  eapply calm_alter; [done|reflexivity|]. done.
Qed.

Lemma calm_plan s r defs id ts : calm s (fold_plan_created s r defs id ts).1.
Proof.
  unfold fold_plan_created. case_match; cbn [fst]; [apply calm_refl|].
  match goal with |- calm s (fold_left _ _ (fold_left ?f ?l ?s0)) =>
    apply (calm_trans s s0); [by apply calm_same|]; apply (calm_trans s0 (fold_left f l s0)) end.
  - apply calm_fold_left. intros s' d. by apply calm_same.
  - apply calm_fold_left. intros s' d. split; [done|]. intros Hu key x. unfold add_plan_task. cbn.
    intros [[<- <-]|[_ Hx]]%lookup_insert_Some; [done|by apply (Hu key)].
Qed.

Lemma calm_started s r k n aid ts id : calm s (fold_task_started s r k n aid ts id).1.
Proof.
  unfold fold_task_started. destruct (fs_tasks s !! _) as [x|] eqn:Ex; [|apply calm_refl].
  repeat (case_match; [try apply calm_refl|try apply calm_refl]); cbn [fst];
    by eapply calm_insert; [|reflexivity|exact Ex|].
Qed.

Lemma calm_dispatch_task s r k n aid id : calm s (FoldDispatch.dispatch_task s r k n aid id).1.
Proof.
  unfold FoldDispatch.dispatch_task. destruct (fs_tasks s !! _) as [x|] eqn:Ex; [|apply calm_refl].
  case_match; [|apply calm_refl]. case_match; [|apply calm_refl]. cbn [fst].
  by eapply calm_insert; [|reflexivity|exact Ex|].
Qed.

Lemma calm_dispatch_requested s r k n aid wq did id ts :
  calm s (fold_dispatch_requested s r k n aid wq did id ts).1.
Proof.
  unfold fold_dispatch_requested. case_match; cbn [fst]; [by apply calm_same|].
  destruct (fs_dispatch_outbox s !! did) as [x|]; [destruct (complete_outbox_row aid wq x) as [x' c]|].
  all: match goal with |- context [FoldDispatch.dispatch_task ?st ?a ?b ?c ?d ?e] =>
      pose proof (calm_dispatch_task st a b c d e) as HK;
      destruct (FoldDispatch.dispatch_task st a b c d e) as [s1 b1] end; cbn [fst] in *.
  - eapply calm_trans; [|exact HK]. by apply calm_same.
  - eapply calm_trans; [exact HK|]. by apply calm_same.
Qed.

Lemma calm_refresh s e r x : calm s x.1 -> calm s (refresh_if_changed e r x).1.
Proof.
  destruct x as [s1 [|]]; simpl; [|done]. intros Hs. eapply calm_trans; [exact Hs|].
  unfold refresh_catalog_run_index_for_run. case_match; by apply calm_same.
Qed.

Lemma calm_apply s e : timer_event (ev_data e) = false -> calm s (apply_event s e).1.
Proof.
  unfold apply_event. destruct (ev_data e); try done; intros _; try apply calm_refresh.
  all: try first [ apply calm_cancel | apply calm_plan | apply calm_started | apply calm_finished
    | apply calm_completion | apply calm_visibility | apply calm_dispatch_requested ].
  - unfold fold_run_triggered. case_match; by apply calm_same.
  - unfold fold_task_heartbeat. destruct (fs_tasks s !! _) as [x|] eqn:Ex; [|apply calm_refl].
    case_match; [apply calm_refl|]. case_match; [|apply calm_refl]. by eapply calm_insert; [|reflexivity|exact Ex|].
  - unfold fold_dispatch_enqueued, upsert_enqueued. repeat case_match; by apply calm_same.
  - unfold fold_schedule_definition_upserted. repeat case_match; by apply calm_same.
  - unfold fold_schedule_ticked. repeat case_match; by apply calm_same.
  - unfold fold_sensor_evaluated, upsert_sensor_eval. simpl. repeat (case_match; simplify_eq/=; try by apply calm_same).
  - unfold fold_run_requested, correlate_run_to_source. repeat case_match; by apply calm_same.
  - unfold fold_backfill_created. repeat case_match; by apply calm_same.
  - unfold fold_backfill_chunk_planned. repeat case_match; by apply calm_same.
  - unfold fold_backfill_state_changed. repeat case_match; by apply calm_same.
Qed.

Lemma calm_event s e : timer_event (ev_data e) = false -> calm s (fold_event s e).
Proof.
  intros He. unfold fold_event. case_match; [apply calm_refl|].
  pose proof (calm_apply s e He) as Hs. destruct (apply_event s e) as [s1 [|]]; simpl in *; [|done].
  eapply calm_trans; [exact Hs|]. unfold record_idempotency_key. case_match; by apply calm_same.
Qed.

Lemma calm_events s es : Forall (fun e => timer_event (ev_data e) = false) es -> calm s (fold_events s es).
Proof.
  revert s. induction es as [|e es IH]; intros s Hes; [apply calm_refl|]. apply Forall_cons in Hes as [He Hes].
  eapply calm_trans; [by apply calm_event|]. by apply IH.
Qed.

(** ** A retry without a timer *)

(** What a repair is about. *)
Definition repairs_task (repair : Repair) (run_id task_key : string) : Prop :=
  match repair with
  | CreateDispatchOutbox r k _ _ | RedispatchStuckTask r k _ _ _ | FailStaleRunningTask r k _ _ _ =>
      r = run_id /\ k = task_key
  | SkippedDueToLag _ _ _ => False
  end.

Lemma check_task_about w d o now t repair r k :
  check_task w d o now t = Some repair -> repairs_task repair r k -> tk_run_id t = r /\ tk_task_key t = k.
Proof.
  unfold check_task, check_ready_task, check_dispatched_task, check_retry_wait_task, check_running_task.
  intros Hc. repeat (case_match || simplify_option_eq); simpl; naive_solver.
Qed.

(** A retry that no timer drives never comes.  In a state with no timer and no deadline, which
    every event that is not itself about a timer leaves so, the dispatcher has no timer to
    create and the reconciler no fired timer to act on; and a task that waits for its retry gets
    neither a repair from the sweeper nor a dispatch from the ready controller.  In the
    repository, timers are requested by the reconciler alone, for timers that have fired. *)
Theorem retry_never_starts s r k t :
  reachable s -> fs_timers s = ∅ -> undated s ->
  fs_tasks s !! (r, k) = Some t -> tk_state t = TsRetryWait ->
  (forall es, Forall (fun e => timer_event (ev_data e) = false) es ->
     fs_timers (fold_events s es) = ∅ /\ undated (fold_events s es)) /\
  (forall lag m, timer_reconcile lag m (values (fs_timers s)) = []) /\
  (forall wm now, process_fired_timers s wm now = []) /\
  (forall w wm now repair, repair ∈ sweep w wm s now -> ~ repairs_task repair r k) /\
  (forall c m n aid wq did, EmitDispatchRequested r k n aid wq did ∉ ready_reconcile c m s).
Proof.
  intros Hre Hti Hu Ht Hs.
  pose proof (inv_task_key s (inv_base s (reachable_inv s Hre))) as Hkey. split_and!.
  - intros es Hes. destruct (calm_events s es Hes) as [E Hc]. split; [congruence|by apply Hc].
  - intros lag m. unfold timer_reconcile. rewrite Hti. by case_match.
  - intros wm now. unfold process_fired_timers. by rewrite Hti.
  - intros w wm now repair Hin Hr. unfold sweep, AntiEntropy.scan in Hin. case_match.
    { apply list_elem_of_fmap in Hin as (x & -> & _). done. }
    apply list_elem_of_omap in Hin as (x & Hx & Hc).
    apply list_elem_of_fmap in Hx as ([key x'] & -> & Hx). apply elem_of_map_to_list in Hx. simpl in Hc.
    destruct (check_task_about _ _ _ _ _ _ _ _ Hc Hr) as [Er Ek]. destruct (Hkey _ _ Hx) as [Er' Ek'].
    assert (key = (r, k)) as -> by (destruct key; simpl in *; congruence).
    rewrite Ht in Hx. injection Hx as <-. unfold check_task, check_retry_wait_task in Hc. rewrite Hs, (Hu _ _ Ht) in Hc.
    by destruct (_ <=? _)%N.
  - intros c m n aid wq did Hin. unfold ready_reconcile in Hin. case_match.
    2:{ by apply list_elem_of_fmap in Hin as (x & [=] & _). }
    apply list_elem_of_omap in Hin as (x & Hx & Hc).
    apply list_elem_of_fmap in Hx as ([key x'] & -> & Hx). apply elem_of_map_to_list in Hx. simpl in Hc.
    apply reconcile_task_emit in Hc as (-> & -> & (Hsx & _) & _). destruct (Hkey _ _ Hx) as [Er Ek].
    rewrite Er, Ek in Ht. destruct key. simpl in Ht. congruence.
Qed.
End Handlers.

(** [a] fails its first attempt, of two. *)
Definition retrying : FoldState :=
  fold_events sample_new
    [sample_trigger; sample_planned; sample_dispatch "03" "a" 1; sample_start "04" "a" 1;
     sample_finish "05" "a" 1 OutFailed].

Example retry_waits_for_ever :
  (tk_state <$> fs_tasks retrying !! ("r", "a")) = Some TsRetryWait /\ fs_timers retrying = ∅ /\
  forall now, Forall (fun x => match x with SkippedDueToLag _ _ _ => True | _ => False end)
    (sweep sweeper_with_defaults (mf_watermarks sample_manifest) retrying now).
Proof.
  split_and!; [vm_compute; reflexivity|vm_compute; reflexivity|]. intros now.
  unfold sweep, AntiEntropy.scan.
  match goal with |- context [omap (check_task ?w ?d ?o now) ?ts] =>
    assert (omap (check_task w d o now) ts = []) as -> by (vm_compute; reflexivity) end.
  case_match; [|done]. apply Forall_fmap, Forall_forall. done.
Qed.

(** ** The sweeper *)

(** ** What is stuck *)

(** The attempt has an outbox row. *)
Definition in_outbox (s : FoldState) (r k : string) (n : u32) : Prop :=
  exists did o, fs_dispatch_outbox s !! did = Some o /\ ob_run_id o = r /\ ob_task_key o = k /\ ob_attempt o = n.

(** The task waits for a dispatch of attempt [n] that nobody has requested. *)
Definition undispatched (w : AntiEntropySweeper) (s : FoldState) (now : DateTime) (t : TaskRow) (n : u32) : Prop :=
  (tk_state t = TsReady /\ n = N.max (tk_attempt t) 1 /\
   exists ready_at, tk_ready_at t = Some ready_at /\ (ae_ready_timeout w < now - ready_at)%Z) \/
  (tk_state t = TsDispatched /\ n = tk_attempt t) \/
  (tk_state t = TsRetryWait /\ n = u32_add (tk_attempt t) 1 /\ (tk_attempt t < tk_max_attempts t)%N /\
   exists deadline, tk_retry_not_before t = Some deadline /\ (deadline <= now)%Z).

(** A worker took the attempt and has not been heard of. *)
Definition silent (now : DateTime) (t : TaskRow) : Prop :=
  tk_state t = TsRunning /\ exists since,
    option_or (tk_last_heartbeat_at t) (tk_started_at t) = Some since /\
    (seconds (Z.of_N (tk_heartbeat_timeout_sec t)) + seconds 30 < now - since)%Z.

(** The attempt was handed to the queue and no worker took it. *)
Definition unanswered (w : AntiEntropySweeper) (s : FoldState) (now : DateTime) (t : TaskRow) (did : string) : Prop :=
  tk_state t = TsDispatched /\ exists key o, fs_dispatch_outbox s !! key = Some o /\ ob_dispatch_id o = did /\
    ob_run_id o = tk_run_id t /\ ob_task_key o = tk_task_key t /\ ob_attempt o = tk_attempt t /\
    (ae_dispatch_timeout w < now - ob_created_at o)%Z.

Section Scan.
Context (w : AntiEntropySweeper) (s : FoldState) (now : DateTime).
Abbreviation rows := (values (fs_dispatch_outbox s)).

Lemma in_dispatched r k n : (r, k, n) ∈ dispatched_tasks rows <-> in_outbox s r k n.
Proof using Type.
  unfold dispatched_tasks, in_outbox. rewrite elem_of_list_to_set, list_elem_of_fmap. split.
  - intros (o & [= -> -> ->] & Ho). rewrite list_elem_of_In, filter_In, <- list_elem_of_In in Ho.
    destruct Ho as [Ho _]. apply values_elem in Ho as [did Hd]. by exists did, o.
  - intros (did & o & Ho & <- & <- & <-). exists o. split; [done|].
    rewrite list_elem_of_In, filter_In, <- list_elem_of_In. split; [apply values_elem; by exists did|].
    unfold active_dispatch. by destruct (ob_status o).
Qed.

Lemma find_dispatch_none t :
  List.find (is_dispatch_of t) rows = None <-> ~ in_outbox s (tk_run_id t) (tk_task_key t) (tk_attempt t).
Proof using Type.
  split.
  - intros Hf (did & o & Ho & Hr & Hk & Hn).
    assert (o ∈ rows) as Hin by (apply values_elem; by exists did).
    apply list_elem_of_In in Hin. apply (find_none _ _ Hf) in Hin. unfold is_dispatch_of in Hin.
    by rewrite Hr, Hk, Hn, !String.eqb_refl, N.eqb_refl in Hin.
  - intros Hn. destruct (List.find _ _) as [o|] eqn:Hf; [|done]. exfalso. apply Hn.
    apply find_some in Hf as [Hin Hd]. apply list_elem_of_In, values_elem in Hin as [did Hd']. unfold is_dispatch_of in Hd.
    rewrite !andb_true_iff, !String.eqb_eq, N.eqb_eq in Hd. destruct Hd as [[? ?] ?]. by exists did, o.
Qed.

(** Exactly the stuck tasks are repaired. *)
Lemma create_dispatch_spec t n :
  (exists reason, check_task w (dispatched_tasks rows) rows now t =
     Some (CreateDispatchOutbox (tk_run_id t) (tk_task_key t) n reason)) <->
  undispatched w s now t n /\ ~ in_outbox s (tk_run_id t) (tk_task_key t) n.
Proof using Type.
  unfold check_task, undispatched. destruct (tk_state t) eqn:Hs.
  all: try (split; [by intros [? [=]]|by intros [[[[=] _]|[[[=] _]|[[=] _]]] _]]).
  - unfold check_ready_task. destruct (tk_ready_at t) as [ra|]; simpl.
    2:{ split; [by intros [? [=]]|]. intros [[(_ & _ & ? & [=] & _)|[[[=] _]|[[=] _]]] _]. }
    destruct (Z.leb_spec (now - ra) (ae_ready_timeout w)).
    { split; [by intros [? [=]]|]. intros [[(_ & _ & ? & [= <-] & ?)|[[[=] _]|[[=] _]]] _]. lia. }
    case_decide as Hd; rewrite in_dispatched in Hd.
    + split; [by intros [? [=]]|]. by intros [[(_ & -> & _)|[[[=] _]|[[=] _]]] ?].
    + split.
      * intros [reason [= <- _]]. split; [|done]. left. split_and!; [done|done|]. eauto with lia.
      * intros [[(_ & -> & _)|[[[=] _]|[[=] _]]] _]. by eexists.
  - unfold check_dispatched_task. destruct (List.find _ _) as [o|] eqn:Hf.
    + split; [intros [? ?]; by case_match|]. intros [[[[=] _]|[[_ ->]|[[=] _]]] Hn].
      apply find_dispatch_none in Hn. congruence.
    + apply find_dispatch_none in Hf. split.
      * intros [reason [= <- _]]. split; [|done]. right. by left.
      * intros [[[[=] _]|[[_ ->]|[[=] _]]] _]. by eexists.
  - split; [|by intros [[[[=] _]|[[[=] _]|[[=] _]]] _]]. intros [? Hc]. unfold check_running_task in Hc.
    by repeat (case_match || simplify_option_eq).
  - unfold check_retry_wait_task. destruct (N.leb_spec (tk_max_attempts t) (tk_attempt t)).
    { split; [by intros [? [=]]|]. intros [[[[=] _]|[[[=] _]|(_ & _ & ? & _)]] _]. lia. }
    destruct (tk_retry_not_before t) as [dl|]; simpl.
    2:{ split; [by intros [? [=]]|]. by intros [[[[=] _]|[[[=] _]|(_ & _ & _ & ? & [=] & _)]] _]. }
    destruct (Z.ltb_spec now dl).
    { split; [by intros [? [=]]|]. intros [[[[=] _]|[[[=] _]|(_ & _ & _ & ? & [= <-] & ?)]] _]. lia. }
    case_decide as Hd; rewrite in_dispatched in Hd.
    + split; [by intros [? [=]]|]. by intros [[[[=] _]|[[[=] _]|(_ & -> & _)]] ?].
    + split.
      * intros [reason [= <- _]]. split; [|done]. right. right. split_and!; [done|done|done|]. by exists dl.
      * intros [[[[=] _]|[[[=] _]|(_ & -> & _)]] _]. by eexists.
Qed.

Lemma fail_stale_spec t aid :
  (exists reason, check_task w (dispatched_tasks rows) rows now t =
     Some (FailStaleRunningTask (tk_run_id t) (tk_task_key t) (tk_attempt t) aid reason)) <->
  silent now t /\ tk_attempt_id t = Some aid.
Proof using Type.
  unfold check_task, silent. destruct (tk_state t) eqn:Hs.
  all: try (split; [|by intros [[[=] _] _]]; intros [? Hc];
    unfold check_ready_task, check_dispatched_task, check_retry_wait_task in Hc;
    by repeat (case_match || simplify_option_eq)).
  unfold check_running_task, running_task_is_stale. cbv zeta. generalize (seconds 30) as grace. intros grace.
  destruct (option_or _ _) as [since|]; simpl.
  2:{ split; [by intros [? [=]]|]. by intros [[_ (? & [=] & _)] _]. }
  destruct (Z.ltb_spec (seconds (Z.of_N (tk_heartbeat_timeout_sec t)) + grace) (now - since)); simpl.
  - destruct (tk_attempt_id t) as [a|]; simpl.
    + split; [intros [? [= <- _]]; eauto 6|]. intros [_ [= <-]]. by eexists.
    + split; [by intros [? [=]]|by intros [_ [=]]].
  - split; [by intros [? [=]]|]. intros [[_ (? & [= <-] & ?)] _]. lia.
Qed.
End Scan.

(** ** Redispatches *)

Section Redispatch.
Context (w : AntiEntropySweeper) (s : FoldState) (now : DateTime).
Abbreviation rows := (values (fs_dispatch_outbox s)).

Lemma find_dispatch_some t o :
  List.find (is_dispatch_of t) rows = Some o ->
  exists did, fs_dispatch_outbox s !! did = Some o /\
    ob_run_id o = tk_run_id t /\ ob_task_key o = tk_task_key t /\ ob_attempt o = tk_attempt t.
Proof using Type.
  intros [Hin Hd]%find_some. apply list_elem_of_In, values_elem in Hin as [did Ho]. unfold is_dispatch_of in Hd.
  rewrite !andb_true_iff, !String.eqb_eq, N.eqb_eq in Hd. destruct Hd as [[? ?] ?]. by exists did.
Qed.

Lemma redispatch_sound t n did reason r k :
  check_task w (dispatched_tasks rows) rows now t = Some (RedispatchStuckTask r k n did reason) ->
  r = tk_run_id t /\ k = tk_task_key t /\ n = tk_attempt t /\ unanswered w s now t did.
Proof using Type.
  unfold check_task. destruct (tk_state t) eqn:Hs; try done.
  - unfold check_ready_task. intros Hc. by repeat (case_match || simplify_option_eq).
  - unfold check_dispatched_task. destruct (List.find _ _) as [o|] eqn:Hf; [|done].
    destruct (Z.leb_spec (now - ob_created_at o) (ae_dispatch_timeout w)) as [|Hlt]; [done|]. intros [= <- <- <- <- _].
    destruct (find_dispatch_some t o Hf) as (key & Ho & Hr & Hk & Hn).
    do 3 (split; [done|]). split; [done|]. by exists key, o.
  - unfold check_running_task. intros Hc. by repeat (case_match || simplify_option_eq).
  - unfold check_retry_wait_task. intros Hc. by repeat (case_match || simplify_option_eq).
Qed.

(** The task is redispatched if every row of its attempt is old. *)
Lemma redispatch_complete t did :
  unanswered w s now t did ->
  (forall key o, fs_dispatch_outbox s !! key = Some o -> ob_run_id o = tk_run_id t -> ob_task_key o = tk_task_key t ->
     ob_attempt o = tk_attempt t -> ob_dispatch_id o = did /\ (ae_dispatch_timeout w < now - ob_created_at o)%Z) ->
  exists reason, check_task w (dispatched_tasks rows) rows now t =
    Some (RedispatchStuckTask (tk_run_id t) (tk_task_key t) (tk_attempt t) did reason).
Proof using Type.
  intros [Hs (key & o & Ho & Hd & Hr & Hk & Hn & Hold)] Hall. unfold check_task, check_dispatched_task. rewrite Hs.
  destruct (List.find _ _) as [o'|] eqn:Hf.
  - destruct (find_dispatch_some t o' Hf) as (key' & Ho' & Hr' & Hk' & Hn').
    destruct (Hall key' o' Ho' Hr' Hk' Hn') as [-> Hlt].
    destruct (Z.leb_spec (now - ob_created_at o') (ae_dispatch_timeout w)) as [?|_]; [lia|]. by eexists.
  - apply find_dispatch_none in Hf. exfalso. apply Hf. by exists key, o.
Qed.
End Redispatch.

(** ** Healing *)

Section Healing.
Context `{Hashes} `{Chrono} `{SerdeJson}.

Lemma undispatched_open w s now t n :
  undispatched w s now t n -> (tk_max_attempts t < u32_modulus)%N ->
  may_dispatch t n = true /\ attempt_consumed t n = false.
Proof.
  unfold may_dispatch, attempt_consumed.
  intros [(Hs & -> & _)|[(Hs & ->)|(Hs & -> & Hlt & _)]] Hm; rewrite Hs; simpl.
  - split; [apply N.leb_le; lia|]. rewrite andb_false_r, orb_false_r. apply N.ltb_ge. lia.
  - split; [apply N.leb_le; lia|]. rewrite andb_false_r, orb_false_r. apply N.ltb_ge. lia.
  - assert (u32_add (tk_attempt t) 1 = (tk_attempt t + 1)%N) as -> by (unfold u32_add; apply N.mod_small; lia).
    split; [apply N.leb_le; lia|]. rewrite (proj2 (N.eqb_neq _ _)) by lia. simpl. rewrite orb_false_r. apply N.ltb_ge. lia.
Qed.

(** The dispatch a repair creates puts the attempt under way. *)
Lemma heal_dispatch w s now r k t n e :
  fs_tasks s !! (r, k) = Some t -> undispatched w s now t n -> (tk_max_attempts t < u32_modulus)%N ->
  fs_dispatch_outbox s !! dispatch_id r k n = None ->
  ev_data e = created_dispatch_data r k n -> ~ claimed s e ->
  exists t' row, fs_tasks (fold_event s e) !! (r, k) = Some t' /\ tk_state t' = TsDispatched /\ tk_attempt t' = n /\
    tk_attempt_id t' = Some (deterministic_attempt_id (dispatch_id r k n)) /\
    fs_dispatch_outbox (fold_event s e) !! dispatch_id r k n = Some row /\ ob_status row = DispPending.
Proof.
  intros Ht Hu Hm Ho Hd Hc. destruct (undispatched_open _ _ _ _ _ Hu Hm) as [Hmay Hcons].
  apply eq_None_not_Some in Hc. unfold fold_event. rewrite Hc. unfold apply_event. rewrite Hd.
  unfold created_dispatch_data. cbv zeta. set (did := dispatch_id r k n). set (aid := deterministic_attempt_id did).
  unfold fold_dispatch_requested, dispatch_attempt_consumed. rewrite Ht. cbn [option_bool]. rewrite Hcons. fold did in Ho. rewrite Ho.
  unfold FoldDispatch.dispatch_task. rewrite Ht, Hmay.
  destruct (negb _ || _ || _) eqn:Eu; cbn [refresh_if_changed];
    (match goal with |- context [refresh_catalog_run_index_for_run ?st ?o ?ws ?rr ?ts] =>
      destruct (record_refresh st o ws rr ts e Hc) as (_ & Et & Eo & _) end); rewrite Et, Eo; simpl.
  - eexists _, _. rewrite !lookup_insert_eq. by split_and!.
  - rewrite !orb_false_iff, !negb_false_iff, N.eqb_eq in Eu. destruct Eu as [[Es En] Ea].
    apply bool_decide_eq_true in Es, Ea. eexists t, _. rewrite lookup_insert_eq. by split_and!.
Qed.

Lemma stale_failure_row s r k t aid reason id ts tn ws :
  fs_tasks s !! (r, k) = Some t -> tk_state t = TsRunning -> tk_attempt_id t = Some aid ->
  let d := mkTaskFinishedData r k (tk_attempt t) aid "anti-entropy" OutFailed None (Some reason)
             None None None None None None None None in
  let p := fold_task_finished s d id ts tn ws in
  p.2 = true /\ exists t', fs_tasks p.1 !! (r, k) = Some t' /\
    tk_state t' = if (tk_attempt t <? tk_max_attempts t)%N then TsRetryWait else TsFailed.
Proof.
  intros Ht Hs Ha d p. unfold p, fold_task_finished.
  change (fs_tasks s !! (Events.tf_run_id d, Events.tf_task_key d)) with (fs_tasks s !! (r, k)).
  rewrite Ht, Hs. unfold is_current_attempt. change (tf_attempt_id d) with aid. change (Events.tf_attempt d) with (tk_attempt t).
  rewrite Ha, bool_decide_true, N.eqb_refl by done. cbn [andb negb task_is_terminal].
  set (md := extract_execution_metadata _ _ _). set (pk := option_or _ _).
  set (ns := finished_state _ t). set (s2 := if task_is_terminal ns then _ else _).
  change (tf_asset_key d) with (@None string). split; [done|]. cbn [fst].
  assert (exists t1, fs_tasks s2 !! (r, k) = Some t1 /\ tk_state t1 = ns) as (t1 & Ht1 & Hs1).
  { exists (finished_task_row d md pk id ts t).
    split; [|apply (finished_task_row_identity d md pk id ts t)]. unfold s2.
    destruct (task_is_terminal ns); simpl; by rewrite lookup_insert_eq. }
  change (if (tk_attempt t <? tk_max_attempts t)%N then TsRetryWait else TsFailed) with ns.
  destruct (steps_moves (r, k) s2 _ (finish_downstream_steps s2 d md pk ns id ts tn ws t1 Ht1 Hs1
    ltac:(done) ltac:(done) ltac:(done)) t1 Ht1) as (t2 & Ht2 & [Hm _]).
  destruct (task_is_terminal ns) eqn:En.
  - exists t2. split; [done|]. rewrite <- Hs1 in En. pose proof (task_step_frozen _ _ Hm En) as Heq.
    unfold lifecycle in Heq. injection Heq as -> _. done.
  - exists t1. split; [|done]. unfold finish_downstream. rewrite bool_decide_false; [done|]. by intros E; rewrite E in En.
Qed.

(** The failure a repair reports ends the silent attempt. *)
Lemma heal_failure s now r k t aid reason e :
  fs_tasks s !! (r, k) = Some t -> silent now t -> tk_attempt_id t = Some aid ->
  ev_data e = stale_failure_data r k (tk_attempt t) aid reason -> ~ claimed s e ->
  exists t', fs_tasks (fold_event s e) !! (r, k) = Some t' /\
    tk_state t' = if (tk_attempt t <? tk_max_attempts t)%N then TsRetryWait else TsFailed.
Proof.
  intros Ht [Hs _] Ha Hd Hc. apply eq_None_not_Some in Hc. unfold fold_event. rewrite Hc. unfold apply_event. rewrite Hd.
  unfold stale_failure_data.
  destruct (stale_failure_row s r k t aid reason (ev_event_id e) (ev_timestamp e) (ev_tenant_id e) (ev_workspace_id e) Ht Hs Ha)
    as (Hb & t' & Ht' & Hs').
  pose proof (rest_fold_task_finished s (mkTaskFinishedData r k (tk_attempt t) aid "anti-entropy" OutFailed None (Some reason)
    None None None None None None None None) (ev_event_id e) (ev_timestamp e) (ev_tenant_id e) (ev_workspace_id e)) as Hrest.
  destruct (fold_task_finished _ _ _ _ _ _) as [s1 b]. simpl in Hb, Ht', Hrest. subst b.
  unfold rest in Hrest. injection Hrest as _ _ _ _ _ _ _ _ _ Hk _. rewrite <- Hk in Hc. cbn [refresh_if_changed].
  match goal with |- context [refresh_catalog_run_index_for_run ?st ?o ?ws ?rr ?ts] =>
    destruct (record_refresh st o ws rr ts e Hc) as (_ & -> & _ & _) end.
  by exists t'.
Qed.

(** ** The sweep *)

(** An outbox row under the id of an attempt is that attempt's. *)
Definition outbox_canonical (s : FoldState) : Prop :=
  forall r k n o, fs_dispatch_outbox s !! dispatch_id r k n = Some o -> in_outbox s r k n.

Lemma sweep_elem w wm s now repair :
  reachable s -> (now - wm_last_processed_at wm <= ae_max_compaction_lag w)%Z ->
  repair ∈ sweep w wm s now <-> exists r k t, fs_tasks s !! (r, k) = Some t /\ tk_run_id t = r /\ tk_task_key t = k /\
    check_task w (dispatched_tasks (values (fs_dispatch_outbox s))) (values (fs_dispatch_outbox s)) now t = Some repair.
Proof.
  intros Hre Hlag. pose proof (inv_task_key s (inv_base s (reachable_inv s Hre))) as Hkey.
  unfold sweep, AntiEntropy.scan.
  destruct (Z.ltb_spec (ae_max_compaction_lag w) (now - wm_last_processed_at wm)) as [?|_]; [lia|].
  rewrite list_elem_of_omap. split.
  - intros (t & Hin & Hc). apply (values_elem (fs_tasks s)) in Hin as [[r k] Ht].
    destruct (Hkey _ _ Ht) as [Hr Hk]. by exists r, k, t.
  - intros (r & k & t & Ht & _ & _ & Hc). exists t. split; [|done]. apply (values_elem (fs_tasks s)). by exists (r, k).
Qed.


(** ** The redispatch that is never acknowledged *)

(** The acknowledgement of a redispatch carries the key of the original one: folded after it,
    it changes nothing, and the next sweep redispatches the task again. *)
Theorem redispatch_never_acknowledged w s now did r k n cid original e :
  ev_data original = DispatchEnqueued did (Some r) (Some k) (Some n) cid ->
  ev_idempotency_key original = idempotency_key (ev_data original) -> claimed s original ->
  (exists cid', ev_data e = DispatchEnqueued did (Some r) (Some k) (Some n) cid') ->
  ev_idempotency_key e = idempotency_key (ev_data e) ->
  fold_event s e = s /\ forall wm, sweep w wm (fold_event s e) now = sweep w wm s now.
Proof.
  intros Hd Hk Hc [cid' Hd'] Hk'.
  assert (fold_event s e = s) as ->.
  { apply fold_event_claimed. unfold claimed in Hc. rewrite Hk', Hd'. rewrite Hk, Hd in Hc. exact Hc. }
  done.
Qed.
End Healing.

(** ** Evaluation *)

Module SweepSample.
Definition later : DateTime := minutes 6.
Definition processed : Watermarks := mkWatermarks None None None None later.

End SweepSample.
