(* ===== verification/IcebergTypes.v ===== *)
(** Iceberg tables: what is stored and what is asked for.

    The records of [crates/arco-iceberg/src/types/table.rs], [types/commit.rs],
    [types/ids.rs], [pointer.rs], [idempotency.rs], [transactions.rs] and [events.rs],
    the errors of [error.rs] and the object paths ([paths.rs], [IcebergPaths] of
    [crates/arco-core/src/flow_paths.rs]), with the pure operations on them. *)

From S2P Require Import Prelude Storage Events Canonical Scoped.
From stdpp Require Import options.

(** ** UUIDs

    A UUID is its canonical text: groups of 8, 4, 4, 4 and 12 lower-case hexadecimal
    digits.  Two UUIDs compare as their texts do. *)

Definition is_lower_hex (c : ascii) : bool :=
  byte_in 48 57 c || byte_in 97 102 c.

Fixpoint uuid_groups (i : nat) (s : string) : bool :=
  match s with
  | EmptyString => bool_decide (i = 36)
  | String c s =>
      (if decide (i ∈ [8; 13; 18; 23]) then bool_decide (c = "-"%char) else is_lower_hex c)
      && uuid_groups (S i) s
  end.

Definition uuid_canonical (s : string) : bool := uuid_groups 0 s.

Record Uuid := mkUuid { uuid_text : string; uuid_text_canonical : uuid_canonical uuid_text = true }.

Definition uuid_of (s : string) : option Uuid :=
  match decide (uuid_canonical s = true) with
  | left H => Some (mkUuid s H)
  | right _ => None
  end.

Lemma uuid_eq (u v : Uuid) : uuid_text u = uuid_text v -> u = v.
Proof.
  destruct u as [s Hs], v as [t Ht]; simpl. intros ->. f_equal. apply proof_irrel.
Qed.

#[export] Instance uuid_eq_dec : EqDecision Uuid.
Proof.
  intros u v. destruct (decide (uuid_text u = uuid_text v)) as [E|E].
  - left. by apply uuid_eq.
  - right. by intros ->.
Defined.

(** [Ord for Uuid] *)
Definition uuid_leb (u v : Uuid) : bool := str_leb (uuid_text u) (uuid_text v).

(** The [uuid] crate: parsing, the variant and the version of a UUID. *)
Inductive UuidVariant := VariantNCS | VariantRFC4122 | VariantMicrosoft | VariantFuture.
#[export] Instance uuid_variant_eq_dec : EqDecision UuidVariant.
Proof. solve_decision. Defined.

(** [Debug for Variant] *)
Definition uuid_variant_name (v : UuidVariant) : string :=
  match v with
  | VariantNCS => "NCS"
  | VariantRFC4122 => "RFC4122"
  | VariantMicrosoft => "Microsoft"
  | VariantFuture => "Future"
  end.

Class UuidCrate := {
  uuid_parse_str : string -> option Uuid;
  uuid_get_variant : Uuid -> UuidVariant;
  uuid_version_num : Uuid -> N
}.

(** ** Errors ([error.rs]) *)

Inductive IcebergError :=
  | IBadRequest (message error_type : string)
  | IUnsupportedOperation (message : string)
  | IUnauthorized (message : string)
  | IForbidden (message : string)
  | INotFound (message error_type : string)
  | IConflict (message error_type : string)
  | IUnprocessableEntity (message : string)
  | IServiceUnavailable (message : string) (retry_after_seconds : option u32)
  | ITooManyRequests (message : string) (retry_after_seconds : option u64)
  | IInternal (message : string).

Abbreviation iresult A := (result IcebergError A) (only parsing).

Definition table_not_found (namespace table : string) : IcebergError :=
  INotFound ("Table does not exist: " +:+ namespace +:+ "." +:+ table) "NoSuchTableException".

Definition commit_conflict (details : string) : IcebergError :=
  IConflict details "CommitFailedException".

Definition idempotency_key_conflict : IcebergError :=
  IConflict "Idempotency-Key reused with different request payload" "CommitFailedException".

Definition bad_request (message : string) : IcebergError :=
  IBadRequest message "BadRequestException".

Definition status_code (e : IcebergError) : N :=
  match e with
  | IBadRequest _ _ => 400
  | IUnsupportedOperation _ => 406
  | IUnauthorized _ => 401
  | IForbidden _ => 403
  | INotFound _ _ => 404
  | IConflict _ _ => 409
  | IUnprocessableEntity _ => 422
  | IServiceUnavailable _ _ => 503
  | ITooManyRequests _ _ => 429
  | IInternal _ => 500
  end.

(** [StatusCode::is_client_error] *)
Definition is_client_error (code : N) : bool := (400 <=? code)%N && (code <? 500)%N.

Definition error_type (e : IcebergError) : string :=
  match e with
  | IBadRequest _ t | INotFound _ t | IConflict _ t => t
  | IUnsupportedOperation _ => "UnsupportedOperationException"
  | IUnauthorized _ => "UnauthorizedException"
  | IForbidden _ => "ForbiddenException"
  | IUnprocessableEntity _ => "UnprocessableEntityException"
  | IServiceUnavailable _ _ => "ServiceUnavailableException"
  | ITooManyRequests _ _ => "TooManyRequestsException"
  | IInternal _ => "InternalServerException"
  end.

Definition error_message (e : IcebergError) : string :=
  match e with
  | IBadRequest m _ | IUnsupportedOperation m | IUnauthorized m | IForbidden m | INotFound m _
  | IConflict m _ | IUnprocessableEntity m | IServiceUnavailable m _ | ITooManyRequests m _
  | IInternal m => m
  end.

(** [Display for IcebergError], the [#[error]] attributes. *)
Definition error_display (e : IcebergError) : string :=
  match e with
  | IBadRequest m _ => "Bad request: " +:+ m
  | IUnsupportedOperation m => "Unsupported: " +:+ m
  | IUnauthorized m => "Unauthorized: " +:+ m
  | IForbidden m => "Forbidden: " +:+ m
  | INotFound m _ => "Not found: " +:+ m
  | IConflict m _ => "Conflict: " +:+ m
  | IUnprocessableEntity m => "Unprocessable: " +:+ m
  | IServiceUnavailable m _ => "Service unavailable: " +:+ m
  | ITooManyRequests m _ => "Too many requests: " +:+ m
  | IInternal m => "Internal error: " +:+ m
  end.

Record IcebergErrorDetail := mkIcebergErrorDetail {
  ed_message : string;
  ed_error_type : string;
  ed_code : N
}.
Record IcebergErrorResponse := mkIcebergErrorResponse { er_error : IcebergErrorDetail }.

(** [From<&IcebergError> for IcebergErrorResponse] *)
Definition error_response (e : IcebergError) : IcebergErrorResponse :=
  mkIcebergErrorResponse (mkIcebergErrorDetail (error_message e) (error_type e) (status_code e)).

(** ** Table metadata ([types/table.rs]) *)

Record SchemaField := mkSchemaField {
  sf_id : Z;
  sf_name : string;
  sf_required : bool;
  sf_field_type : Value
}.

Record Schema := mkSchema {
  sch_schema_id : Z;
  sch_schema_type : string;
  sch_fields : list SchemaField
}.

Record Snapshot := mkSnapshot {
  sn_snapshot_id : i64;
  sn_parent_snapshot_id : option i64;
  sn_sequence_number : i64;
  sn_timestamp_ms : i64;
  sn_manifest_list : string;
  sn_summary : gmap string string;
  sn_schema_id : option Z
}.

Record SnapshotLogEntry := mkSnapshotLogEntry { sl_snapshot_id : i64; sl_timestamp_ms : i64 }.

Record MetadataLogEntry := mkMetadataLogEntry { ml_metadata_file : string; ml_timestamp_ms : i64 }.

Record PartitionField := mkPartitionField {
  pf_field_id : Z;
  pf_source_id : Z;
  pf_name : string;
  pf_transform : string
}.

Record PartitionSpec := mkPartitionSpec { ps_spec_id : Z; ps_fields : list PartitionField }.

Record SnapshotRefMetadata := mkSnapshotRefMetadata { rm_snapshot_id : i64; rm_ref_type : string }.

Record SortField := mkSortField {
  so_source_id : Z;
  so_transform : string;
  so_direction : string;
  so_null_order : string
}.

Record SortOrder := mkSortOrder { so_order_id : Z; so_fields : list SortField }.

(** [i32] fields are [Z]. *)
Record TableMetadata := mkTableMetadata {
  tm_format_version : Z;
  tm_table_uuid : Uuid;
  tm_location : string;
  tm_last_sequence_number : i64;
  tm_last_updated_ms : i64;
  tm_last_column_id : Z;
  tm_current_schema_id : Z;
  tm_schemas : list Schema;
  tm_current_snapshot_id : option i64;
  tm_snapshots : list Snapshot;
  tm_snapshot_log : list SnapshotLogEntry;
  tm_metadata_log : list MetadataLogEntry;
  tm_properties : gmap string string;
  tm_default_spec_id : Z;
  tm_partition_specs : list PartitionSpec;
  tm_last_partition_id : Z;
  tm_refs : gmap string SnapshotRefMetadata;
  tm_default_sort_order_id : Z;
  tm_sort_orders : list SortOrder
}.
#[export] Instance eta_TableMetadata : Eta TableMetadata := fun r =>
  mkTableMetadata (tm_format_version r) (tm_table_uuid r) (tm_location r)
    (tm_last_sequence_number r) (tm_last_updated_ms r) (tm_last_column_id r)
    (tm_current_schema_id r) (tm_schemas r) (tm_current_snapshot_id r) (tm_snapshots r)
    (tm_snapshot_log r) (tm_metadata_log r) (tm_properties r) (tm_default_spec_id r)
    (tm_partition_specs r) (tm_last_partition_id r) (tm_refs r) (tm_default_sort_order_id r)
    (tm_sort_orders r).

(** ** Commit requests ([types/commit.rs]) *)

Inductive SnapshotRefType := RefBranch | RefTag.

Inductive UpdateRequirement :=
  | AssertTableUuid (uuid : Uuid)
  | AssertRefSnapshotId (ref_name : string) (snapshot_id : option i64)
  | AssertLastAssignedFieldId (last_assigned_field_id : Z)
  | AssertCurrentSchemaId (current_schema_id : Z)
  | AssertLastAssignedPartitionId (last_assigned_partition_id : Z)
  | AssertDefaultSpecId (default_spec_id : Z)
  | AssertDefaultSortOrderId (default_sort_order_id : Z).

Inductive TableUpdate :=
  | AssignUuid (uuid : Uuid)
  | UpgradeFormatVersion (format_version : Z)
  | AddSchema (schema : Schema) (last_column_id : option Z)
  | SetCurrentSchema (schema_id : Z)
  | AddPartitionSpec (spec : PartitionSpec)
  | SetDefaultSpec (spec_id : Z)
  | AddSortOrder (sort_order : SortOrder)
  | SetDefaultSortOrder (sort_order_id : Z)
  | AddSnapshot (snapshot : Snapshot)
  | SetSnapshotRef (ref_name : string) (ref_type : SnapshotRefType) (snapshot_id : i64)
      (max_ref_age_ms max_snapshot_age_ms : option i64) (min_snapshots_to_keep : option Z)
  | RemoveSnapshotRef (ref_name : string)
  | RemoveSnapshots (snapshot_ids : list i64)
  | SetLocation (location : string)
  | SetProperties (updates : gmap string string)
  | RemoveProperties (removals : list string).

Record TableIdent := mkTableIdent { ti_namespace : list string; ti_name : string }.

Record CommitTableRequest := mkCommitTableRequest {
  ct_identifier : option TableIdent;
  ct_requirements : list UpdateRequirement;
  ct_updates : list TableUpdate
}.

Record CommitTableResponse := mkCommitTableResponse {
  cr_metadata_location : string;
  cr_metadata : Value
}.

(** ** Table pointers ([pointer.rs]) *)

Record SnapshotRef := mkSnapshotRef {
  sr_snapshot_id : i64;
  sr_ref_type : SnapshotRefType;
  sr_max_ref_age_ms : option i64;
  sr_max_snapshot_age_ms : option i64;
  sr_min_snapshots_to_keep : option Z
}.

Record PendingPointerUpdate := mkPendingPointerUpdate {
  pp_tx_id : string;
  pp_metadata_location : string;
  pp_snapshot_id : option i64;
  pp_last_sequence_number : i64;
  pp_prepared_at : DateTime
}.

Inductive UpdateSource :=
  | SourceArcoFlow (run_id task_id : string)
  | SourceIcebergRest (client_info principal : option string)
  | SourceAdminApi (user_id : string)
  | SourceUnknown.

Record IcebergTablePointer := mkIcebergTablePointer {
  tp_version : u32;
  tp_table_uuid : Uuid;
  tp_current_metadata_location : string;
  tp_current_snapshot_id : option i64;
  tp_refs : gmap string SnapshotRef;
  tp_last_sequence_number : i64;
  tp_previous_metadata_location : option string;
  tp_updated_at : DateTime;
  tp_updated_by : UpdateSource;
  tp_pending : option PendingPointerUpdate
}.
#[export] Instance eta_IcebergTablePointer : Eta IcebergTablePointer := fun r =>
  mkIcebergTablePointer (tp_version r) (tp_table_uuid r) (tp_current_metadata_location r)
    (tp_current_snapshot_id r) (tp_refs r) (tp_last_sequence_number r)
    (tp_previous_metadata_location r) (tp_updated_at r) (tp_updated_by r) (tp_pending r).

Definition MAX_READABLE_VERSION : u32 := 2.
Definition MIN_SUPPORTED_VERSION : u32 := 1.
Definition CURRENT_VERSION : u32 := 1.

Definition pointer_new (table_uuid : Uuid) (current_metadata_location : string) (now : DateTime) :
    IcebergTablePointer :=
  mkIcebergTablePointer CURRENT_VERSION table_uuid current_metadata_location None ∅ 0 None now
    SourceUnknown None.

(** The message of [PointerVersionError], [None] when the version is readable. *)
Definition validate_version (p : IcebergTablePointer) : option string :=
  let unsupported :=
    "Unsupported pointer version " +:+ pretty (tp_version p) +:+ ", max supported is "
      +:+ pretty MAX_READABLE_VERSION in
  if (MAX_READABLE_VERSION <? tp_version p)%N then Some unsupported
  else if (tp_version p <? MIN_SUPPORTED_VERSION)%N then Some unsupported
  else None.

Definition finalize_pending_with_source (p : IcebergTablePointer) (source : UpdateSource)
    (now : DateTime) : IcebergTablePointer :=
  match tp_pending p with
  | None => p
  | Some pending =>
      mkIcebergTablePointer (tp_version p) (tp_table_uuid p) (pp_metadata_location pending)
        (match pp_snapshot_id pending with
         | Some snapshot_id => Some snapshot_id
         | None => tp_current_snapshot_id p
         end)
        (tp_refs p) (pp_last_sequence_number pending) (Some (tp_current_metadata_location p))
        now source None
  end.

Definition finalize_pending (p : IcebergTablePointer) (now : DateTime) : IcebergTablePointer :=
  finalize_pending_with_source p SourceUnknown now.

Definition with_pending (p : IcebergTablePointer) (pending : PendingPointerUpdate) :
    IcebergTablePointer :=
  p <| tp_version := 2%N |> <| tp_pending := Some pending |>.

Definition without_pending (p : IcebergTablePointer) : IcebergTablePointer :=
  p <| tp_pending := None |>.

Record EffectivePointer := mkEffectivePointer {
  ep_metadata_location : string;
  ep_snapshot_id : option i64;
  ep_last_sequence_number : i64;
  ep_is_pending : bool
}.

(** [CasResult], [FinalizeResult] and [TransactionCasResult]. *)
Inductive CasResult :=
  | CasSuccess (new_version : string)
  | CasConflict (current_version : string).

(** ** Idempotency markers ([idempotency.rs]) *)

Inductive IdempotencyStatus := MInProgress | MCommitted | MFailed.
#[export] Instance idempotency_status_eq_dec : EqDecision IdempotencyStatus.
Proof. solve_decision. Defined.

Record IdempotencyMarker := mkIdempotencyMarker {
  im_status : IdempotencyStatus;
  im_idempotency_key : string;
  im_idempotency_key_hash : string;
  im_table_uuid : Uuid;
  im_request_hash : string;
  im_started_at : DateTime;
  im_committed_at : option DateTime;
  im_failed_at : option DateTime;
  im_error_http_status : option N;
  im_error_payload : option IcebergErrorResponse;
  im_event_id : string;
  im_base_metadata_location : string;
  im_metadata_location : string;
  im_response_metadata_location : option string
}.
#[export] Instance eta_IdempotencyMarker : Eta IdempotencyMarker := fun r =>
  mkIdempotencyMarker (im_status r) (im_idempotency_key r) (im_idempotency_key_hash r)
    (im_table_uuid r) (im_request_hash r) (im_started_at r) (im_committed_at r) (im_failed_at r)
    (im_error_http_status r) (im_error_payload r) (im_event_id r) (im_base_metadata_location r)
    (im_metadata_location r) (im_response_metadata_location r).

Inductive ClaimResult :=
  | ClaimSuccess (version : string)
  | ClaimExists (marker : IdempotencyMarker) (version : string).

(** [IdempotencyMarker::hash_key] and [CommitKey::from_metadata_location]. *)
Definition hash_key `{Hashes} (key : string) : string := sha256_hex key.
Definition commit_key_from_metadata_location `{Hashes} (location : string) : string :=
  sha256_hex location.

(** [new_in_progress], with the time and the ULID it draws. *)
Definition new_in_progress `{Hashes} (now : DateTime) (event_id : string)
    (idempotency_key : string) (table_uuid : Uuid)
    (request_hash base_metadata_location metadata_location : string) : IdempotencyMarker :=
  mkIdempotencyMarker MInProgress idempotency_key (hash_key idempotency_key) table_uuid request_hash
    now None None None None event_id base_metadata_location metadata_location None.

Definition finalize_committed (m : IdempotencyMarker) (response_metadata_location : string)
    (now : DateTime) : IdempotencyMarker :=
  m <| im_status := MCommitted |> <| im_committed_at := Some now |> <| im_failed_at := None |>
    <| im_error_http_status := None |> <| im_error_payload := None |>
    <| im_response_metadata_location := Some response_metadata_location |>.

Definition finalize_failed (m : IdempotencyMarker) (http_status : N) (error : IcebergErrorResponse)
    (now : DateTime) : IdempotencyMarker :=
  m <| im_status := MFailed |> <| im_failed_at := Some now |>
    <| im_error_http_status := Some http_status |> <| im_error_payload := Some error |>
    <| im_committed_at := None |> <| im_response_metadata_location := None |>.

(** [IdempotencyMarker::is_stale] *)
Definition marker_is_stale (m : IdempotencyMarker) (timeout : Z) (now : DateTime) : bool :=
  bool_decide (im_status m = MInProgress) && (im_started_at m + timeout <? now)%Z.

(** The message of an [IdempotencyKeyError], or the UUID. *)
Definition validate_uuidv7 `{UuidCrate} (key : string) : result string Uuid :=
  match uuid_parse_str key with
  | None => Err "Idempotency-Key must be a valid UUID"
  | Some uuid =>
      if negb (bool_decide (uuid_get_variant uuid = VariantRFC4122)) then
        Err ("Idempotency-Key must use RFC4122 variant, found "
               +:+ uuid_variant_name (uuid_get_variant uuid))
      else if negb (uuid_version_num uuid =? 7)%N then
        Err ("Idempotency-Key must be UUIDv7 (RFC 9562), found version "
               +:+ pretty (uuid_version_num uuid))
      else if negb (bool_decide (uuid_text uuid = key)) then
        Err "Idempotency-Key must be a canonical lowercase UUID string"
      else Ok uuid
  end.

(** ** Transaction records ([transactions.rs]) *)

Inductive TransactionStatus := TxPreparing | TxCommitted | TxAborted.
#[export] Instance transaction_status_eq_dec : EqDecision TransactionStatus.
Proof. solve_decision. Defined.

Record TransactionTableEntry := mkTransactionTableEntry {
  te_table_uuid : Uuid;
  te_namespace : string;
  te_table_name : string;
  te_base_pointer_version : string;
  te_new_metadata_location : string;
  te_new_snapshot_id : option i64;
  te_new_last_sequence_number : i64
}.

Record TransactionRecord := mkTransactionRecord {
  tr_tx_id : string;
  tr_request_hash : string;
  tr_status : TransactionStatus;
  tr_tables : list TransactionTableEntry;
  tr_started_at : DateTime;
  tr_committed_at : option DateTime;
  tr_aborted_at : option DateTime;
  tr_abort_reason : option string
}.
#[export] Instance eta_TransactionRecord : Eta TransactionRecord := fun r =>
  mkTransactionRecord (tr_tx_id r) (tr_request_hash r) (tr_status r) (tr_tables r)
    (tr_started_at r) (tr_committed_at r) (tr_aborted_at r) (tr_abort_reason r).

Definition new_preparing (tx_id request_hash : string) (now : DateTime) : TransactionRecord :=
  mkTransactionRecord tx_id request_hash TxPreparing [] now None None None.

(** [TransactionRecord::commit] *)
Definition tx_commit (r : TransactionRecord) (now : DateTime) : TransactionRecord :=
  r <| tr_status := TxCommitted |> <| tr_committed_at := Some now |> <| tr_aborted_at := None |>
    <| tr_abort_reason := None |>.

(** [TransactionRecord::abort] *)
Definition tx_abort (r : TransactionRecord) (reason : string) (now : DateTime) : TransactionRecord :=
  r <| tr_status := TxAborted |> <| tr_aborted_at := Some now |>
    <| tr_abort_reason := Some reason |> <| tr_committed_at := None |>.

(** [TransactionRecord::is_stale] *)
Definition tx_is_stale (r : TransactionRecord) (timeout : Z) (now : DateTime) : bool :=
  bool_decide (tr_status r = TxPreparing) && (tr_started_at r + timeout <? now)%Z.

Definition includes_table (r : TransactionRecord) (table_uuid : Uuid) : bool :=
  existsb (fun t => bool_decide (te_table_uuid t = table_uuid)) (tr_tables r).

Definition get_table_entry (r : TransactionRecord) (table_uuid : Uuid) :
    option TransactionTableEntry :=
  List.find (fun t => bool_decide (te_table_uuid t = table_uuid)) (tr_tables r).

Inductive CreateTransactionResult :=
  | CreateSuccess (version : string)
  | CreateExists (record : TransactionRecord) (version : string).

Definition minutes (n : Z) : Z := (n * 60 * 1000000000)%Z.
Definition DEFAULT_TRANSACTION_TIMEOUT : Z := minutes 15.
Definition MAX_TABLES_PER_TRANSACTION : nat := 10.

(** ** Receipts ([events.rs]) *)

Record PendingReceipt := mkPendingReceipt {
  pr_table_uuid : Uuid;
  pr_commit_key : string;
  pr_event_id : string;
  pr_metadata_location : string;
  pr_base_metadata_location : string;
  pr_snapshot_id : option i64;
  pr_source : UpdateSource;
  pr_started_at : DateTime
}.

Record CommittedReceipt := mkCommittedReceipt {
  cm_table_uuid : Uuid;
  cm_commit_key : string;
  cm_event_id : string;
  cm_metadata_location : string;
  cm_snapshot_id : option i64;
  cm_previous_metadata_location : option string;
  cm_source : UpdateSource;
  cm_committed_at : DateTime
}.

(** ** Paths *)

(** [date.format("%Y-%m-%d")] of an instant's UTC date. *)
Class DateFormat := format_date : DateTime -> string.

Definition pointer_path (table_uuid : Uuid) : string :=
  "_catalog/iceberg_pointers/" +:+ uuid_text table_uuid +:+ ".json".

Definition idempotency_marker_path (table_uuid : Uuid) (key_hash : string) : string :=
  let pre := String.substring 0 (Nat.min 2 (String.length key_hash)) key_hash in
  "_catalog/iceberg_idempotency/" +:+ uuid_text table_uuid +:+ "/" +:+ pre +:+ "/" +:+ key_hash
    +:+ ".json".

Definition transaction_record_path (tx_id : string) : string :=
  "_catalog/iceberg_transactions/" +:+ tx_id +:+ ".json".

Definition pending_receipt_path `{DateFormat} (date : DateTime) (commit_key : string) : string :=
  "events/" +:+ format_date date +:+ "/iceberg/pending/" +:+ commit_key +:+ ".json".

Definition committed_receipt_path `{DateFormat} (date : DateTime) (commit_key : string) : string :=
  "events/" +:+ format_date date +:+ "/iceberg/committed/" +:+ commit_key +:+ ".json".

(** [s.split_once(pat)] *)
Fixpoint split_once_str (pat s : string) : option (string * string) :=
  match strip_prefix pat s with
  | Some rest => Some (EmptyString, rest)
  | None =>
      match s with
      | EmptyString => None
      | String a s =>
          match split_once_str pat s with
          | Some (l, r) => Some (String a l, r)
          | None => None
          end
      end
  end.

(** [resolve_metadata_path] *)
Definition resolve_metadata_path (location tenant workspace : string) : iresult string :=
  let invalid := IInternal ("Invalid metadata location: " +:+ location) in
  let path :=
    match split_once_str "://" location with
    | Some (_, rest) => snd <$> split_once "/" rest
    | None => Some location
    end in
  match path with
  | None => Err invalid
  | Some path =>
      let scoped_prefix := "tenant=" +:+ tenant +:+ "/workspace=" +:+ workspace +:+ "/" in
      let relative := default path (strip_prefix scoped_prefix path) in
      if str_is_empty relative then Err invalid else Ok relative
  end.

(** [s.trim_end_matches(c)] *)
Fixpoint trim_end_matches (c : ascii) (s : string) : string :=
  match s with
  | EmptyString => EmptyString
  | String a s =>
      match trim_end_matches c s with
      | EmptyString => if decide (a = c) then EmptyString else String a EmptyString
      | s => String a s
      end
  end.
