(* ===== verification/IcebergMeta.v ===== *)
(** Iceberg table metadata: requirements and updates.

    The pure part of a commit ([crates/arco-iceberg/src/commit.rs]): the requirements a
    client asserts of the metadata it read, the updates, and what a commit adds to the
    result; the guardrails of [types/commit.rs]; and the copies of the updates that the
    multi-table coordinator has of its own ([coordinator.rs]).  A function that reads
    the clock takes the time as an argument. *)

From S2P Require Import Prelude Storage Events Canonical Scoped IcebergTypes.
From stdpp Require Import options.

(** ** Requirements *)

(** How the messages print an optional snapshot ([{:?}]). *)
Definition show_opt (o : option i64) : string :=
  match o with None => "None" | Some z => "Some(" +:+ pretty z +:+ ")" end.

Definition ref_snapshot_id (metadata : TableMetadata) (ref_name : string) : option i64 :=
  match rm_snapshot_id <$> tm_refs metadata !! ref_name with
  | Some id => Some id
  | None => if decide (ref_name = "main") then tm_current_snapshot_id metadata else None
  end.

Definition mismatch (what : string) (expected found : Z) : IcebergError :=
  commit_conflict (what +:+ " mismatch: expected " +:+ pretty expected +:+ ", found "
                     +:+ pretty found).

Definition validate_requirement (metadata : TableMetadata) (requirement : UpdateRequirement) :
    iresult unit :=
  match requirement with
  | AssertTableUuid uuid =>
      if decide (tm_table_uuid metadata <> uuid) then
        Err (commit_conflict ("Table UUID mismatch: expected " +:+ uuid_text uuid +:+ ", found "
                                +:+ uuid_text (tm_table_uuid metadata)))
      else Ok tt
  | AssertRefSnapshotId ref_name snapshot_id =>
      let current_snapshot_id := ref_snapshot_id metadata ref_name in
      if decide (current_snapshot_id <> snapshot_id) then
        Err (commit_conflict ("Ref '" +:+ ref_name +:+ "' snapshot mismatch: expected "
                                +:+ show_opt snapshot_id +:+ ", found "
                                +:+ show_opt current_snapshot_id))
      else Ok tt
  | AssertCurrentSchemaId id =>
      if decide (tm_current_schema_id metadata <> id)
      then Err (mismatch "Current schema ID" id (tm_current_schema_id metadata)) else Ok tt
  | AssertLastAssignedFieldId id =>
      if decide (tm_last_column_id metadata <> id)
      then Err (mismatch "Last assigned field ID" id (tm_last_column_id metadata)) else Ok tt
  | AssertDefaultSpecId id =>
      if decide (tm_default_spec_id metadata <> id)
      then Err (mismatch "Default spec ID" id (tm_default_spec_id metadata)) else Ok tt
  | AssertDefaultSortOrderId id =>
      if decide (tm_default_sort_order_id metadata <> id)
      then Err (mismatch "Default sort order ID" id (tm_default_sort_order_id metadata)) else Ok tt
  | AssertLastAssignedPartitionId id =>
      if decide (tm_last_partition_id metadata <> id)
      then Err (mismatch "Last assigned partition ID" id (tm_last_partition_id metadata)) else Ok tt
  end.

Fixpoint validate_requirements (metadata : TableMetadata) (requirements : list UpdateRequirement) :
    iresult unit :=
  match requirements with
  | [] => Ok tt
  | requirement :: requirements =>
      match validate_requirement metadata requirement with
      | Err e => Err e
      | Ok _ => validate_requirements metadata requirements
      end
  end.

(** ** Updates *)

(** [iter().max()] *)
Definition list_max_opt (l : list Z) : option Z :=
  match l with [] => None | x :: l => Some (fold_left Z.max l x) end.

(** [if max > last { last = max }] for the largest id, if there is one. *)
Definition raise_to (ids : list Z) (last : Z) : Z :=
  match list_max_opt ids with
  | Some max_id => if (last <? max_id)%Z then max_id else last
  | None => last
  end.

(** Entries before a removed snapshot go with it. *)
Definition prune_snapshot_log_after_snapshot_removal (metadata : TableMetadata) : TableMetadata :=
  let retained := list_to_set (C := gset Z) (sn_snapshot_id <$> tm_snapshots metadata) in
  metadata <| tm_snapshot_log :=
    fold_left (fun pruned entry =>
      if decide (sl_snapshot_id entry ∈ retained) then pruned ++ [entry] else [])
      (tm_snapshot_log metadata) [] |>.

Section Chrono.
Context `{Chrono}.

Definition apply_update (now : DateTime) (metadata : TableMetadata) (update : TableUpdate) :
    iresult TableMetadata :=
  match update with
  | AssignUuid uuid => Ok (metadata <| tm_table_uuid := uuid |>)
  | UpgradeFormatVersion format_version =>
      if (format_version <? tm_format_version metadata)%Z then
        Err (bad_request "format-version cannot be downgraded")
      else Ok (metadata <| tm_format_version := format_version |>)
  | AddSchema schema last_column_id =>
      let metadata := metadata <| tm_schemas := tm_schemas metadata ++ [schema] |>
        <| tm_last_column_id := raise_to (sf_id <$> sch_fields schema) (tm_last_column_id metadata) |> in
      match last_column_id with
      | None => Ok metadata
      | Some id =>
          if (id <? tm_last_column_id metadata)%Z then
            Err (bad_request "last-column-id cannot move backwards")
          else Ok (metadata <| tm_last_column_id := id |>)
      end
  | SetCurrentSchema schema_id =>
      if negb (existsb (fun s => (sch_schema_id s =? schema_id)%Z) (tm_schemas metadata)) then
        Err (bad_request ("Schema " +:+ pretty schema_id +:+ " does not exist"))
      else Ok (metadata <| tm_current_schema_id := schema_id |>)
  | AddPartitionSpec spec =>
      Ok (metadata
        <| tm_last_partition_id := raise_to (pf_field_id <$> ps_fields spec) (tm_last_partition_id metadata) |>
        <| tm_partition_specs := tm_partition_specs metadata ++ [spec] |>)
  | SetDefaultSpec spec_id =>
      if negb (existsb (fun s => (ps_spec_id s =? spec_id)%Z) (tm_partition_specs metadata)) then
        Err (bad_request ("Partition spec " +:+ pretty spec_id +:+ " does not exist"))
      else Ok (metadata <| tm_default_spec_id := spec_id |>)
  | AddSortOrder sort_order =>
      Ok (metadata <| tm_sort_orders := tm_sort_orders metadata ++ [sort_order] |>)
  | SetDefaultSortOrder sort_order_id =>
      if negb (existsb (fun o => (so_order_id o =? sort_order_id)%Z) (tm_sort_orders metadata)) then
        Err (bad_request ("Sort order " +:+ pretty sort_order_id +:+ " does not exist"))
      else Ok (metadata <| tm_default_sort_order_id := sort_order_id |>)
  | AddSnapshot snapshot =>
      Ok (metadata
        <| tm_last_sequence_number :=
             Z.max (tm_last_sequence_number metadata) (sn_sequence_number snapshot) |>
        <| tm_snapshots := tm_snapshots metadata ++ [snapshot] |>)
  | SetSnapshotRef ref_name ref_type snapshot_id _ _ _ =>
      let ref_type := match ref_type with RefBranch => "branch" | RefTag => "tag" end in
      let metadata := metadata
        <| tm_refs := <[ref_name := mkSnapshotRefMetadata snapshot_id ref_type]> (tm_refs metadata) |> in
      if decide (ref_name = "main") then
        Ok (metadata <| tm_current_snapshot_id := Some snapshot_id |>
              <| tm_snapshot_log :=
                   tm_snapshot_log metadata ++ [mkSnapshotLogEntry snapshot_id (timestamp_millis now)] |>)
      else Ok metadata
  | RemoveSnapshotRef ref_name =>
      let metadata := metadata <| tm_refs := delete ref_name (tm_refs metadata) |> in
      if decide (ref_name = "main") then Ok (metadata <| tm_current_snapshot_id := None |>)
      else Ok metadata
  | RemoveSnapshots snapshot_ids =>
      let ids := list_to_set (C := gset Z) snapshot_ids in
      let metadata := metadata
        <| tm_snapshots := filter (fun s => sn_snapshot_id s ∉ ids) (tm_snapshots metadata) |> in
      let metadata := prune_snapshot_log_after_snapshot_removal metadata in
      let metadata := metadata
        <| tm_refs := filter (fun kr => rm_snapshot_id kr.2 ∉ ids) (tm_refs metadata) |> in
      if option_bool (fun id => bool_decide (id ∈ ids)) (tm_current_snapshot_id metadata) then
        Ok (metadata <| tm_current_snapshot_id := None |>)
      else Ok metadata
  | SetLocation _ => Err (bad_request "SetLocation is not permitted")
  | SetProperties updates => Ok (metadata <| tm_properties := updates ∪ tm_properties metadata |>)
  | RemoveProperties removals =>
      Ok (metadata
        <| tm_properties := fold_left (fun props key => delete key props) removals
                              (tm_properties metadata) |>)
  end.

(** The updates in order, each at the time the clock then shows. *)
Fixpoint apply_updates (metadata : TableMetadata) (updates : list TableUpdate) :
    io (iresult TableMetadata) :=
  match updates with
  | [] => Ret (Ok metadata)
  | update :: updates =>
      now ← utc_now_io;
      match apply_update now metadata update with
      | Err e => Ret (Err e)
      | Ok metadata => apply_updates metadata updates
      end
  end.

Definition finalize_metadata (now : DateTime) (metadata base_metadata : TableMetadata)
    (pointer : IcebergTablePointer) (next_sequence : i64) : TableMetadata :=
  let previous := tp_current_metadata_location pointer in
  let metadata :=
    if option_bool (fun entry => bool_decide (ml_metadata_file entry = previous))
         (last (tm_metadata_log metadata))
    then metadata
    else metadata <| tm_metadata_log :=
           tm_metadata_log metadata ++ [mkMetadataLogEntry previous (tm_last_updated_ms base_metadata)] |> in
  metadata
    <| tm_last_sequence_number := Z.max (tm_last_sequence_number metadata) next_sequence |>
    <| tm_last_updated_ms := timestamp_millis now |>.
End Chrono.

(** ** The pointer of the new metadata *)

Definition pointer_ref (r : SnapshotRefMetadata) : iresult SnapshotRef :=
  if decide (rm_ref_type r = "branch") then
    Ok (mkSnapshotRef (rm_snapshot_id r) RefBranch None None None)
  else if decide (rm_ref_type r = "tag") then
    Ok (mkSnapshotRef (rm_snapshot_id r) RefTag None None None)
  else Err (IInternal ("Unsupported snapshot ref type: " +:+ rm_ref_type r)).

(** [iter().map(..).collect::<Result<HashMap, _>>()] *)
Fixpoint pointer_refs (refs : list (string * SnapshotRefMetadata)) :
    iresult (gmap string SnapshotRef) :=
  match refs with
  | [] => Ok ∅
  | (name, r) :: refs =>
      match pointer_ref r with
      | Err e => Err e
      | Ok r => match pointer_refs refs with Err e => Err e | Ok m => Ok (<[name := r]> m) end
      end
  end.

Definition pointer_from_metadata (now : DateTime) (pointer : IcebergTablePointer)
    (metadata : TableMetadata) (marker : IdempotencyMarker) (source : UpdateSource) :
    iresult IcebergTablePointer :=
  match pointer_refs (map_to_list (tm_refs metadata)) with
  | Err e => Err e
  | Ok refs =>
      Ok (mkIcebergTablePointer (tp_version pointer) (tp_table_uuid pointer)
            (im_metadata_location marker) (tm_current_snapshot_id metadata) refs
            (tm_last_sequence_number metadata) (Some (tp_current_metadata_location pointer))
            now source None)
  end.

(** ** Metadata locations *)

Definition build_metadata_location (table_location : string) (sequence_number : i64)
    (idempotency_key_hash : string) : iresult string :=
  let base := trim_end_matches "/" table_location in
  if str_is_empty base then Err (IInternal "Table location is empty")
  else Ok (base +:+ "/metadata/" +:+ pretty sequence_number +:+ "-" +:+ idempotency_key_hash
             +:+ ".metadata.json").

Definition build_takeover_metadata_location (table_location : string) (sequence_number : i64)
    (idempotency_key_hash event_id : string) : iresult string :=
  let base := trim_end_matches "/" table_location in
  if str_is_empty base then Err (IInternal "Table location is empty")
  else Ok (base +:+ "/metadata/" +:+ pretty sequence_number +:+ "-" +:+ idempotency_key_hash
             +:+ "-" +:+ event_id +:+ ".metadata.json").

(** ** Guardrails ([types/commit.rs]) *)

Definition ascii_lowercase (c : ascii) : ascii :=
  if byte_in 65 90 c then ascii_of_N (N_of_ascii c + 32) else c.

Fixpoint str_lowercase (s : string) : string :=
  match s with EmptyString => EmptyString | String c s => String (ascii_lowercase c) (str_lowercase s) end.

(** [key.get(..5)]: there is one when five bytes end at the boundary of a character. *)
Definition is_char_boundary (n : nat) (s : string) : bool :=
  match String.get n s with
  | Some c => negb (continuation c)
  | None => bool_decide (String.length s = n)
  end.

Definition is_reserved_key (key : string) : bool :=
  is_char_boundary 5 key &&
  bool_decide (str_lowercase (String.substring 0 5 key) = "arco.").

Definition is_rejected_by_guardrails (update : TableUpdate) : option string :=
  match update with
  | SetLocation _ => Some "SetLocationUpdate is rejected: Arco owns storage location"
  | SetProperties updates =>
      (fun key => "SetPropertiesUpdate with reserved key '" +:+ key
                    +:+ "' is rejected: Arco owns the 'arco.' namespace")
        <$> List.find is_reserved_key (map_to_list updates).*1
  | RemoveProperties removals =>
      (fun key => "RemovePropertiesUpdate with reserved key '" +:+ key
                    +:+ "' is rejected: Arco owns the 'arco.' namespace")
        <$> List.find is_reserved_key removals
  | _ => None
  end.

(** [find_map] *)
Fixpoint find_map {A B} (f : A -> option B) (l : list A) : option B :=
  match l with
  | [] => None
  | x :: l => match f x with Some y => Some y | None => find_map f l end
  end.

Definition check_guardrails (request : CommitTableRequest) : option string :=
  find_map is_rejected_by_guardrails (ct_updates request).
