(* ===== verification/IcebergStore.v ===== *)
(** The three stores under an Iceberg table, as programs over the object store, and the
    readers.

    Table pointers ([PointerStoreImpl] of [crates/arco-iceberg/src/pointer.rs]),
    idempotency markers ([IdempotencyStoreImpl] of [idempotency.rs]) and transaction
    records ([TransactionStoreImpl] of [transactions.rs]): one JSON object each, created
    with a does-not-exist write and replaced with a conditional write.  A load reads the
    version of an object and then its contents, in two calls.

    [load_table] of [routes/tables.rs] is what the handler does once the catalog has named
    the table's UUID: the pointer's version against the client's [If-None-Match], the
    pointer, the effective metadata, the snapshots the client asked for.
    [new_table_metadata] is the metadata [create_table] starts a table with.  Credentials,
    the catalog lookup and the creation of the catalog entry are not here.  Error messages
    leave out the text of a storage error. *)

From S2P Require Import Prelude Storage Events Canonical Scoped IcebergTypes IcebergMeta.
From stdpp Require Import options.

Definition internal {A} (what : string) : A -> IcebergError := fun _ => IInternal what.

(** A pure result in a program: [f(..)?;] *)
Definition lift {E A} (r : result E A) : io (result E A) := Ret r.

(** Read an object's version, then its contents, then parse them. *)
Definition load_object {A} `{Json A} (what path : string) : io (iresult (option (A * string))) :=
  try_with (internal ("Failed to check " +:+ what +:+ " existence")) (head_object path) (fun meta =>
    match meta with
    | None => Ret (Ok None)
    | Some meta =>
        try_with (internal ("Failed to read " +:+ what)) (get_object path) (fun bytes =>
          match from_slice bytes with
          | None => Ret (Err (IInternal ("Failed to parse " +:+ what)))
          | Some a => Ret (Ok (Some (a, om_version meta)))
          end)
    end).

(** Serialize a value and write it under a precondition. *)
Definition write_object {A} `{Json A} (verb what path : string) (a : A) (pre : WritePrecondition) :
    io (iresult WriteResult) :=
  match to_vec a with
  | None => Ret (Err (IInternal ("Failed to serialize " +:+ what)))
  | Some bytes =>
      try_with (internal ("Failed to " +:+ verb +:+ " " +:+ what)) (put_object path bytes pre)
        (fun w => Ret (Ok w))
  end.

Definition cas_result (w : WriteResult) : CasResult :=
  match w with
  | WriteSuccess version => CasSuccess version
  | WritePreconditionFailed current_version => CasConflict current_version
  end.

(** ** Pointers *)

Section Pointers.
Context `{Json IcebergTablePointer}.

Definition pointer_load (table_uuid : Uuid) : io (iresult (option (IcebergTablePointer * string))) :=
  load_object "pointer" (pointer_path table_uuid).

Definition pointer_create (table_uuid : Uuid) (pointer : IcebergTablePointer) :
    io (iresult CasResult) :=
  let? w := write_object "create" "pointer" (pointer_path table_uuid) pointer DoesNotExist in
  Ret (Ok (cas_result w)).

Definition pointer_compare_and_swap (table_uuid : Uuid) (expected_version : string)
    (new_pointer : IcebergTablePointer) : io (iresult CasResult) :=
  let? w := write_object "CAS" "pointer" (pointer_path table_uuid) new_pointer
              (MatchesVersion expected_version) in
  Ret (Ok (cas_result w)).

(** Read, compare, delete: the store has no conditional delete. *)
Definition pointer_delete (table_uuid : Uuid) (expected_version : string) : io (iresult CasResult) :=
  let path := pointer_path table_uuid in
  try_with (internal "Failed to check pointer") (head_object path) (fun meta =>
    match meta with
    | None => Ret (Ok (CasConflict "0"))
    | Some meta =>
        if decide (om_version meta <> expected_version) then Ret (Ok (CasConflict (om_version meta)))
        else try_with (internal "Failed to delete pointer") (delete_object path)
               (fun _ => Ret (Ok (CasSuccess "0")))
    end).

Context `{UuidCrate}.

(** [IcebergPaths::pointer_uuid_from_path] *)
Definition pointer_uuid_from_path (path : string) : option Uuid :=
  filename ← strip_prefix "_catalog/iceberg_pointers/" path;
  uuid ← strip_suffix ".json" filename;
  uuid_parse_str uuid.

Definition pointer_list_all : io (iresult (list Uuid)) :=
  try_with (internal "Failed to list pointers") (list_objects "_catalog/iceberg_pointers/")
    (fun entries => Ret (Ok (omap (fun m => pointer_uuid_from_path (om_path m)) entries))).
End Pointers.

(** ** Markers *)

Section Markers.
Context `{Json IdempotencyMarker}.

Definition marker_path (m : IdempotencyMarker) : string :=
  idempotency_marker_path (im_table_uuid m) (im_idempotency_key_hash m).

(** [IdempotencyStoreImpl::load] *)
Definition marker_load (table_uuid : Uuid) (idempotency_key_hash : string) :
    io (iresult (option (IdempotencyMarker * string))) :=
  load_object "idempotency marker" (idempotency_marker_path table_uuid idempotency_key_hash).

Definition claim (marker : IdempotencyMarker) : io (iresult ClaimResult) :=
  let? w := write_object "claim" "idempotency marker" (marker_path marker) marker DoesNotExist in
  match w with
  | WriteSuccess version => Ret (Ok (ClaimSuccess version))
  | WritePreconditionFailed current_version =>
      let? existing := marker_load (im_table_uuid marker) (im_idempotency_key_hash marker) in
      match existing with
      | Some (existing_marker, _) => Ret (Ok (ClaimExists existing_marker current_version))
      | None => Ret (Err (IInternal "Idempotency marker disappeared during claim"))
      end
  end.

(** [IdempotencyStoreImpl::finalize] *)
Definition marker_finalize (marker : IdempotencyMarker) (expected_version : string) :
    io (iresult CasResult) :=
  let? w := write_object "finalize" "idempotency marker" (marker_path marker) marker
              (MatchesVersion expected_version) in
  Ret (Ok (cas_result w)).
End Markers.

(** ** Transactions *)

Section Transactions.
Context `{Json TransactionRecord}.

(** [TransactionStoreImpl::load] *)
Definition tx_load (tx_id : string) : io (iresult (option (TransactionRecord * string))) :=
  load_object "transaction record" (transaction_record_path tx_id).

(** [TransactionStoreImpl::create] *)
Definition tx_create (record : TransactionRecord) : io (iresult CreateTransactionResult) :=
  let? w := write_object "create" "transaction record"
              (transaction_record_path (tr_tx_id record)) record DoesNotExist in
  match w with
  | WriteSuccess version => Ret (Ok (CreateSuccess version))
  | WritePreconditionFailed current_version =>
      let? existing := tx_load (tr_tx_id record) in
      match existing with
      | Some (existing_record, _) => Ret (Ok (CreateExists existing_record current_version))
      | None => Ret (Err (IInternal "Transaction record disappeared during create"))
      end
  end.

(** [TransactionStoreImpl::compare_and_swap] *)
Definition tx_compare_and_swap (record : TransactionRecord) (expected_version : string) :
    io (iresult CasResult) :=
  let? w := write_object "CAS" "transaction record"
              (transaction_record_path (tr_tx_id record)) record (MatchesVersion expected_version) in
  Ret (Ok (cas_result w)).

(** ** What a reader takes for current *)

Definition effective_current (pointer : IcebergTablePointer) : EffectivePointer :=
  mkEffectivePointer (tp_current_metadata_location pointer) (tp_current_snapshot_id pointer)
    (tp_last_sequence_number pointer) false.

Definition resolve_effective_metadata_location (pointer : IcebergTablePointer) :
    io (iresult EffectivePointer) :=
  match tp_pending pointer with
  | None => Ret (Ok (effective_current pointer))
  | Some pending =>
      let? tx := tx_load (pp_tx_id pending) in
      match tx with
      | Some (tx_record, _) =>
          if decide (tr_status tx_record = TxCommitted) then
            Ret (Ok (mkEffectivePointer (pp_metadata_location pending) (pp_snapshot_id pending)
                       (pp_last_sequence_number pending) true))
          else Ret (Ok (effective_current pointer))
      | None => Ret (Ok (effective_current pointer))
      end
  end.
End Transactions.

(** ** Routes *)

(** ** ETags *)

(** [trim_start_matches], [trim_matches] with a predicate. *)
Fixpoint trim_start (f : ascii -> bool) (s : string) : string :=
  match s with
  | EmptyString => EmptyString
  | String c s' => if f c then trim_start f s' else s
  end.

Fixpoint trim_end (f : ascii -> bool) (s : string) : string :=
  match s with
  | EmptyString => EmptyString
  | String c s =>
      match trim_end f s with
      | EmptyString => if f c then EmptyString else String c EmptyString
      | s => String c s
      end
  end.

Definition trim_matches (f : ascii -> bool) (s : string) : string := trim_end f (trim_start f s).

(** [str::trim] of a header value, which is ASCII. *)
Definition ascii_white (c : ascii) : bool := byte_in 9 13 c || bool_decide (c = " "%char).
Definition trim (s : string) : string := trim_matches ascii_white s.

Definition double_quote : ascii := ascii_of_N 34.

Definition normalize_etag (value : string) : string :=
  let value := trim value in
  let value := default value (strip_prefix "W/" value) in
  trim_matches (fun c => bool_decide (c = double_quote)) value.

Definition etag_matches (if_none_match version : string) : bool :=
  let expected := normalize_etag version in
  existsb (fun etag =>
    let normalized := normalize_etag etag in
    bool_decide (normalized = "*") || bool_decide (normalized = expected))
    (trim <$> split_on "," if_none_match).

(** ** Loading a table *)

Inductive SnapshotsFilter := SnapshotsAll | SnapshotsRefs.
#[export] Instance SnapshotsFilter_eq_dec : EqDecision SnapshotsFilter.
Proof. solve_decision. Defined.

Record LoadTableCall := mkLoadTableCall {
  lt_table_uuid : Uuid;
  lt_namespace : string;
  lt_table : string;
  lt_if_none_match : option string;
  lt_snapshots : option SnapshotsFilter;
  lt_tenant : string;
  lt_workspace : string
}.

(** [304 Not Modified], or the body and the [ETag] header. *)
Inductive LoadTableResult :=
  | NotModified
  | Loaded (metadata_location : string) (metadata : TableMetadata) (etag : string).

(** Keep the snapshots that a ref names. *)
Definition retain_referenced (metadata : TableMetadata) : TableMetadata :=
  let referenced_ids :=
    list_to_set (C := gset Z) (rm_snapshot_id <$> (map_to_list (tm_refs metadata)).*2) in
  metadata <| tm_snapshots := filter (fun s => sn_snapshot_id s ∈ referenced_ids) (tm_snapshots metadata) |>.

Definition filter_snapshots (q : option SnapshotsFilter) (metadata : TableMetadata) : TableMetadata :=
  if decide (q = Some SnapshotsRefs) then retain_referenced metadata else metadata.

Section Routes.
Context `{Json IcebergTablePointer, Json TransactionRecord, Json TableMetadata}.

Definition load_table (c : LoadTableCall) : io (iresult LoadTableResult) :=
  let pointer_path := pointer_path (lt_table_uuid c) in
  try_with (internal "") (head_object pointer_path) (fun pointer_meta =>
  match pointer_meta with
  | None => Ret (Err (table_not_found (lt_namespace c) (lt_table c)))
  | Some pointer_meta =>
  let pointer_etag := default (om_version pointer_meta) (om_etag pointer_meta) in
  if option_bool (fun if_none_match => etag_matches if_none_match pointer_etag) (lt_if_none_match c)
  then Ret (Ok NotModified)
  else
    try_with (internal "") (get_object pointer_path) (fun pointer_bytes =>
    match from_slice pointer_bytes with
    | None => Ret (Err (IInternal "Failed to parse pointer"))
    | Some pointer =>
    match validate_version pointer with
    | Some message => Ret (Err (IInternal message))
    | None =>
    let? effective := resolve_effective_metadata_location pointer in
    let? metadata_path :=
      lift (resolve_metadata_path (ep_metadata_location effective) (lt_tenant c) (lt_workspace c)) in
    try_with (internal "") (get_object metadata_path) (fun metadata_bytes =>
    match from_slice metadata_bytes with
    | None => Ret (Err (IInternal "Failed to parse table metadata"))
    | Some metadata =>
        Ret (Ok (Loaded (ep_metadata_location effective)
                   (filter_snapshots (lt_snapshots c) metadata) pointer_etag))
    end)
    end
    end)
  end).

(** ** [IcebergPointerStore] *)

Definition pointer_not_found (table_uuid : Uuid) : IcebergError :=
  INotFound ("Table pointer does not exist: " +:+ uuid_text table_uuid) "NoSuchTableException".

Definition map_get_error (table_uuid : Uuid) (err : Error) : IcebergError :=
  match err with
  | ENotFound _ | EResourceNotFound _ _ => pointer_not_found table_uuid
  | _ => IInternal ("Failed to read pointer for table " +:+ uuid_text table_uuid)
  end.

(** [IcebergPointerStore::get] *)
Definition pointer_store_get (table_uuid : Uuid) : io (iresult (IcebergTablePointer * string)) :=
  let path := pointer_path table_uuid in
  try_with (internal ("Failed to head pointer for table " +:+ uuid_text table_uuid)) (head_object path)
    (fun meta =>
  match meta with
  | None => Ret (Err (pointer_not_found table_uuid))
  | Some meta =>
      try_with (map_get_error table_uuid) (get_object path) (fun pointer_bytes =>
      match from_slice pointer_bytes with
      | None => Ret (Err (IInternal ("Failed to decode pointer for table " +:+ uuid_text table_uuid)))
      | Some pointer =>
          match validate_version pointer with
          | Some message =>
              Ret (Err (IInternal ("Invalid pointer version for table " +:+ uuid_text table_uuid
                                     +:+ ": " +:+ message)))
          | None => Ret (Ok (pointer, om_version meta))
          end
      end)
  end).

(** [IcebergPointerStore::exists] *)
Definition pointer_store_exists (table_uuid : Uuid) : io (iresult bool) :=
  try_with (internal ("Failed to check pointer existence for table " +:+ uuid_text table_uuid))
    (head_object (pointer_path table_uuid)) (fun meta => Ret (Ok (bool_decide (is_Some meta)))).
End Routes.

(** ** New tables *)

(** The metadata [create_table] writes for a table at [location]. *)
Definition new_table_metadata (now_ms : i64) (table_uuid : Uuid) (location : string) (schema : Schema)
    (partition_spec : option PartitionSpec) (write_order : option SortOrder)
    (properties : gmap string string) : TableMetadata :=
  mkTableMetadata 2 table_uuid location 0 now_ms
    (default 0%Z (list_max_opt (sf_id <$> sch_fields schema))) (sch_schema_id schema) [schema]
    None [] [] [] properties
    (default 0%Z (ps_spec_id <$> partition_spec)) (option_list partition_spec) 0 ∅
    (default 0%Z (so_order_id <$> write_order)) (option_list write_order).
