(* ===== verification/IcebergCommit.v ===== *)
(** The single-table commit: [CommitService] of [crates/arco-iceberg/src/commit.rs].

    A commit claims an idempotency marker, computes the new metadata from the metadata
    the table's pointer names, writes it to a file of its own, and moves the pointer with
    a conditional write; then the marker is finalized.  A retry with the same key is
    answered from the marker; a marker left in progress for ten minutes is taken over.  A
    pointer on which a multi-table transaction is pending is settled first. *)

From S2P Require Import Prelude Storage Events Canonical Scoped IcebergTypes IcebergMeta IcebergStore.
From stdpp Require Import options.

(** [serde_json::to_value] of the metadata. *)
Class ToValue := to_value : TableMetadata -> option Value.

Inductive CommitError :=
  | CIceberg (e : IcebergError)
  | CCachedFailure (status : N) (payload : IcebergErrorResponse)
  | CRetryAfter (seconds : u32).

Abbreviation cresult A := (result CommitError A) (only parsing).

Inductive PendingHandleAction := PRetry | PRetryAfter (seconds : u32).

Definition IN_PROGRESS_TIMEOUT : Z := minutes 10.
Definition MAX_TAKEOVER_ATTEMPTS : nat := 3.

(** How an existing marker is settled: the answer, another attempt, or going on with the
    marker that was taken over. *)
Inductive ExistingOutcome :=
  | EReturn (response : CommitTableResponse)
  | EContinue
  | EProceed (marker : IdempotencyMarker) (marker_version : string).

(** What one commit is called with.  [cc_ulids] are the ULIDs it draws: at each attempt
    one for the marker and one for a take-over. *)
Record CommitCall := mkCommitCall {
  cc_table_uuid : Uuid;
  cc_namespace : string;
  cc_table : string;
  cc_request : CommitTableRequest;
  cc_request_hash : string;
  cc_idempotency_key : string;
  cc_source : UpdateSource;
  cc_tenant : string;
  cc_workspace : string;
  cc_ulids : nat -> string * string
}.

Section Commit.
Context `{Hashes, Chrono, DateFormat, ToValue}.
Context `{Json IcebergTablePointer, Json IdempotencyMarker, Json TransactionRecord}.
Context `{Json TableMetadata, Json Value, Json PendingReceipt, Json CommittedReceipt}.
(** [CommitService::in_progress_timeout], in nanoseconds. *)
Context (in_progress_timeout : Z).

(** [?] on a result of the stores, in code that returns a [CommitError]. *)
Definition try_commit {A B} (p : io (iresult A)) (f : A -> io (cresult B)) : io (cresult B) :=
  try_with CIceberg p f.

Definition retry_after_seconds : u32 :=
  let seconds := Z.to_N (Z.max (in_progress_timeout ÷ 1000000000) 0) in
  if (seconds <=? u32_max)%N then seconds else u32_max.

(** [pointer_store.load(..).await?.ok_or_else(|| table_not_found(..))?] *)
Definition load_pointer (c : CommitCall) : io (iresult (IcebergTablePointer * string)) :=
  let? found := pointer_load (cc_table_uuid c) in
  match found with
  | Some pv => Ret (Ok pv)
  | None => Ret (Err (table_not_found (cc_namespace c) (cc_table c)))
  end.

Definition handle_pending_transaction (table_uuid : Uuid) (pointer : IcebergTablePointer)
    (pointer_version : string) : io (cresult (option PendingHandleAction)) :=
  match tp_pending pointer with
  | None => Ret (Ok None)
  | Some pending =>
      let clear_pending :=
        _ ← pointer_compare_and_swap table_uuid pointer_version (without_pending pointer);
        Ret (Ok (Some PRetry)) in
      try_commit (tx_load (pp_tx_id pending)) (fun tx_result =>
        match tx_result with
        | None => clear_pending
        | Some (tx_record, tx_version) =>
            match tr_status tx_record with
            | TxCommitted =>
                now ← utc_now_io;
                try_commit (pointer_compare_and_swap table_uuid pointer_version
                              (finalize_pending pointer now)) (fun _ => Ret (Ok (Some PRetry)))
            | TxPreparing =>
                now ← utc_now_io;
                if tx_is_stale tx_record DEFAULT_TRANSACTION_TIMEOUT now then
                  now ← utc_now_io;
                  let aborted_record :=
                    tx_abort tx_record "Stale transaction aborted by single-table commit" now in
                  try_commit (tx_compare_and_swap aborted_record tx_version) (fun r =>
                    match r with
                    | CasSuccess _ => clear_pending
                    | CasConflict _ => Ret (Ok (Some PRetry))
                    end)
                else Ret (Ok (Some (PRetryAfter 30)))
            | TxAborted => clear_pending
            end
        end)
  end.

Definition load_metadata (location tenant workspace : string) : io (iresult TableMetadata) :=
  let? path := lift (resolve_metadata_path location tenant workspace) in
  try_with (internal "Failed to read table metadata") (get_object path) (fun bytes =>
    match from_slice bytes with
    | None => Ret (Err (IInternal "Failed to parse table metadata"))
    | Some metadata => Ret (Ok metadata)
    end).

Definition response_from_location (location tenant workspace : string) :
    io (iresult CommitTableResponse) :=
  let? path := lift (resolve_metadata_path location tenant workspace) in
  try_with (internal "Failed to read table metadata") (get_object path) (fun bytes =>
    match from_slice bytes with
    | None => Ret (Err (IInternal "Failed to parse metadata response"))
    | Some metadata => Ret (Ok (mkCommitTableResponse location metadata))
    end).

Definition response_from_marker (marker : IdempotencyMarker) (tenant workspace : string) :
    io (iresult CommitTableResponse) :=
  response_from_location
    (default (im_metadata_location marker) (im_response_metadata_location marker)) tenant workspace.

Definition write_pending_receipt (marker : IdempotencyMarker) (commit_key : string)
    (snapshot_id : option i64) (source : UpdateSource) : io (iresult unit) :=
  let receipt :=
    mkPendingReceipt (im_table_uuid marker) commit_key (im_event_id marker)
      (im_metadata_location marker) (im_base_metadata_location marker) snapshot_id source
      (im_started_at marker) in
  now ← utc_now_io;
  match to_vec receipt with
  | None => Ret (Err (IInternal "Failed to serialize pending receipt"))
  | Some bytes =>
      _ ← put_object (pending_receipt_path now commit_key) bytes DoesNotExist;
      Ret (Ok tt)
  end.

Definition write_committed_receipt (marker : IdempotencyMarker) (metadata_location : string)
    (previous_metadata_location : option string) (snapshot_id : option i64)
    (source : UpdateSource) : io (iresult unit) :=
  let commit_key := commit_key_from_metadata_location metadata_location in
  committed_at ← utc_now_io;
  let receipt :=
    mkCommittedReceipt (im_table_uuid marker) commit_key (im_event_id marker) metadata_location
      snapshot_id previous_metadata_location source committed_at in
  now ← utc_now_io;
  match to_vec receipt with
  | None => Ret (Err (IInternal "Failed to serialize committed receipt"))
  | Some bytes =>
      _ ← put_object (committed_receipt_path now commit_key) bytes DoesNotExist;
      Ret (Ok tt)
  end.

Definition finalize_failed_marker (marker : IdempotencyMarker) (marker_version : string)
    (err : IcebergError) : io (cresult unit) :=
  if negb (is_client_error (status_code err)) then Ret (Ok tt)
  else
    now ← utc_now_io;
    let failed := finalize_failed marker (status_code err) (error_response err) now in
    try_commit (marker_finalize failed marker_version) (fun r =>
      match r with
      | CasSuccess _ => Ret (Ok tt)
      | CasConflict _ => Ret (Err (CRetryAfter retry_after_seconds))
      end).

Definition finalize_committed_marker (marker : IdempotencyMarker) (marker_version : string) :
    io (cresult unit) :=
  try_commit (marker_finalize marker marker_version) (fun r =>
    match r with
    | CasSuccess _ => Ret (Ok tt)
    | CasConflict _ =>
        try_commit (marker_load (im_table_uuid marker) (im_idempotency_key_hash marker))
          (fun existing =>
            if option_bool (fun m => bool_decide (im_status m.1 = MCommitted)) existing
            then Ret (Ok tt)
            else Ret (Err (CRetryAfter retry_after_seconds)))
    end).

(** Record the failure in the marker and return it. *)
Definition fail_commit {A} (marker : IdempotencyMarker) (marker_version : string)
    (err : IcebergError) : io (cresult A) :=
  let? _ := finalize_failed_marker marker marker_version err in
  Ret (Err (CIceberg err)).

Section One.
Context (c : CommitCall).

(** The key was used before. *)
Definition settle_existing (attempt : nat) (pointer : IcebergTablePointer)
    (base_metadata : TableMetadata) (existing : IdempotencyMarker) (marker_version : string) :
    io (cresult ExistingOutcome) :=
  let key_hash := hash_key (cc_idempotency_key c) in
  if decide (im_request_hash existing <> cc_request_hash c) then
    Ret (Err (CIceberg idempotency_key_conflict))
  else
    match im_status existing with
    | MCommitted =>
        try_commit (response_from_marker existing (cc_tenant c) (cc_workspace c))
          (fun response => Ret (Ok (EReturn response)))
    | MFailed =>
        Ret (Err (CCachedFailure (default 409%N (im_error_http_status existing))
          (default (error_response idempotency_key_conflict) (im_error_payload existing))))
    | MInProgress =>
        try_commit (load_pointer c) (fun pv =>
          let current_pointer := pv.1 in
          try_commit (resolve_effective_metadata_location current_pointer) (fun effective =>
            if decide (ep_metadata_location effective = im_metadata_location existing) then
              try_commit (response_from_location (im_metadata_location existing) (cc_tenant c)
                            (cc_workspace c)) (fun response =>
                now ← utc_now_io;
                let finalized := finalize_committed existing (cr_metadata_location response) now in
                _ ← marker_finalize finalized marker_version;
                _ ← write_committed_receipt finalized (cr_metadata_location response)
                      (tp_previous_metadata_location current_pointer)
                      (tp_current_snapshot_id current_pointer) (cc_source c);
                Ret (Ok (EReturn response)))
            else
              now ← utc_now_io;
              if marker_is_stale existing in_progress_timeout now then
                let event_id := (cc_ulids c attempt).2 in
                try_commit (lift (build_takeover_metadata_location (tm_location base_metadata)
                                    (i64_succ (tm_last_sequence_number base_metadata)) key_hash
                                    event_id)) (fun metadata_location =>
                  now ← utc_now_io;
                  let marker :=
                    existing <| im_started_at := now |> <| im_event_id := event_id |>
                      <| im_base_metadata_location := tp_current_metadata_location pointer |>
                      <| im_metadata_location := metadata_location |> in
                  try_commit (marker_finalize marker marker_version) (fun r =>
                    match r with
                    | CasSuccess version => Ret (Ok (EProceed marker version))
                    | CasConflict _ => Ret (Ok EContinue)
                    end))
              else Ret (Err (CRetryAfter retry_after_seconds))))
    end.

(** Steps 9 to 12: move the pointer and finalize. *)
Definition publish_commit (pointer : IcebergTablePointer) (pointer_version : string)
    (marker : IdempotencyMarker) (marker_version : string) (new_metadata : TableMetadata) :
    io (cresult CommitTableResponse) :=
  now ← utc_now_io;
  try_commit (lift (pointer_from_metadata now pointer new_metadata marker (cc_source c)))
    (fun new_pointer =>
  try_commit (pointer_compare_and_swap (cc_table_uuid c) pointer_version new_pointer) (fun r =>
    match r with
    | CasConflict _ =>
        fail_commit marker marker_version
          (commit_conflict "Table pointer was updated by another writer")
    | CasSuccess _ =>
        let metadata_location := im_metadata_location marker in
        _ ← write_committed_receipt marker metadata_location
              (tp_previous_metadata_location pointer) (tm_current_snapshot_id new_metadata)
              (cc_source c);
        now ← utc_now_io;
        let finalized := finalize_committed marker metadata_location now in
        let? _ := finalize_committed_marker finalized marker_version in
        match to_value new_metadata with
        | None => Ret (Err (CIceberg (IInternal "Failed to serialize metadata response")))
        | Some value => Ret (Ok (mkCommitTableResponse metadata_location value))
        end
    end)).

(** Steps 5 to 8, with the marker in hand: validate, compute, write the metadata file. *)
Definition commit_claimed (pointer : IcebergTablePointer) (pointer_version : string)
    (base_metadata : TableMetadata) (marker : IdempotencyMarker) (marker_version : string) :
    io (cresult CommitTableResponse) :=
  match validate_requirements base_metadata (ct_requirements (cc_request c)) with
  | Err err => fail_commit marker marker_version err
  | Ok _ =>
      applied ← apply_updates base_metadata (ct_updates (cc_request c));
      match applied with
      | Err err => fail_commit marker marker_version err
      | Ok new_metadata =>
          now ← utc_now_io;
          let new_metadata :=
            finalize_metadata now new_metadata base_metadata pointer
              (i64_succ (tm_last_sequence_number base_metadata)) in
          try_commit (lift (resolve_metadata_path (im_metadata_location marker) (cc_tenant c)
                              (cc_workspace c))) (fun metadata_path =>
            match to_vec new_metadata with
            | None => Ret (Err (CIceberg (IInternal "Failed to serialize table metadata")))
            | Some metadata_bytes =>
                written ← put_object metadata_path metadata_bytes DoesNotExist;
                match written with
                | Err _ => Ret (Err (CIceberg (IInternal "Failed to write metadata file")))
                | Ok (WritePreconditionFailed _) =>
                    fail_commit marker marker_version
                      (commit_conflict "Metadata file already exists for this commit")
                | Ok (WriteSuccess _) =>
                    _ ← write_pending_receipt marker
                          (commit_key_from_metadata_location (im_metadata_location marker))
                          (tm_current_snapshot_id new_metadata) (cc_source c);
                    publish_commit pointer pointer_version marker marker_version new_metadata
                end
            end)
      end
  end.

(** The loop of [commit_table], with the number of attempts left. *)
Fixpoint commit_loop (attempts : nat) : io (cresult CommitTableResponse) :=
  match attempts with
  | O => Ret (Err (CRetryAfter retry_after_seconds))
  | S attempts =>
      try_commit (load_pointer c) (fun pv =>
      let '(pointer, pointer_version) := pv in
      match validate_version pointer with
      | Some message => Ret (Err (CIceberg (IInternal message)))
      | None =>
      let? action := handle_pending_transaction (cc_table_uuid c) pointer pointer_version in
      match action with
      | Some PRetry => commit_loop attempts
      | Some (PRetryAfter seconds) => Ret (Err (CRetryAfter seconds))
      | None =>
      try_commit (load_metadata (tp_current_metadata_location pointer) (cc_tenant c) (cc_workspace c))
        (fun base_metadata =>
      try_commit (lift (build_metadata_location (tm_location base_metadata)
                          (i64_succ (tm_last_sequence_number base_metadata))
                          (hash_key (cc_idempotency_key c)))) (fun new_metadata_location =>
      now ← utc_now_io;
      let marker :=
        new_in_progress now (cc_ulids c attempts).1 (cc_idempotency_key c) (cc_table_uuid c)
          (cc_request_hash c) (tp_current_metadata_location pointer) new_metadata_location in
      try_commit (claim marker) (fun claimed =>
        match claimed with
        | ClaimSuccess version =>
            commit_claimed pointer pointer_version base_metadata marker version
        | ClaimExists existing version =>
            let? outcome := settle_existing attempts pointer base_metadata existing version in
            match outcome with
            | EReturn response => Ret (Ok response)
            | EContinue => commit_loop attempts
            | EProceed marker version =>
                commit_claimed pointer pointer_version base_metadata marker version
            end
        end)))
      end
      end)
  end.

Definition commit_table : io (cresult CommitTableResponse) := commit_loop MAX_TAKEOVER_ATTEMPTS.
End One.
End Commit.
