(* ===== verification/IcebergTx.v ===== *)
(** Multi-table transactions: [MultiTableTransactionCoordinator] of
    [crates/arco-iceberg/src/coordinator.rs].

    A transaction writes its record, prepares each of its tables by putting a pending
    update on the table's pointer, checks that all of them are still in place, and commits
    by one conditional write of the record; afterwards the pending updates are folded into
    the pointers.  The coordinator has copies of [apply_updates] and [finalize_metadata]
    that are those of the single-table commit, line for line: the definitions of
    [IcebergMeta] stand for both. *)

From S2P Require Import Prelude Storage Events Canonical Scoped Dag IcebergTypes IcebergMeta IcebergStore IcebergCommit.
From stdpp Require Import options.

Inductive MultiTableCommitError :=
  | TIceberg (e : IcebergError)
  | TRetryAfter (seconds : u32)
  | TAborted (reason : string).

Abbreviation tresult A := (result MultiTableCommitError A) (only parsing).

(** [Display for MultiTableCommitError] *)
Definition tx_error_display (e : MultiTableCommitError) : string :=
  match e with
  | TIceberg e => error_display e
  | TRetryAfter seconds => "Retry after " +:+ pretty seconds +:+ " seconds"
  | TAborted reason => "Transaction aborted: " +:+ reason
  end.

Record TableCommitInput := mkTableCommitInput {
  tc_table_uuid : Uuid;
  tc_namespace : string;
  tc_table_name : string;
  tc_request : CommitTableRequest
}.

Record TableCommitOutput := mkTableCommitOutput {
  to_table_uuid : Uuid;
  to_metadata_location : string
}.

Record MultiTableCommitResult := mkMultiTableCommitResult {
  mr_tx_id : string;
  mr_tables : list TableCommitOutput
}.

Record CoordinatorConfig := mkCoordinatorConfig {
  co_max_tables : nat;
  co_transaction_timeout : Z
}.

Definition coordinator_config_default : CoordinatorConfig :=
  mkCoordinatorConfig MAX_TABLES_PER_TRANSACTION DEFAULT_TRANSACTION_TIMEOUT.

Record PreparedTable := mkPreparedTable {
  pt_table_uuid : Uuid;
  pt_namespace : string;
  pt_table_name : string;
  pt_pointer_version : string;
  pt_new_metadata_location : string;
  pt_new_snapshot_id : option i64;
  pt_new_last_sequence_number : i64
}.

(** What one transaction is called with. *)
Record TxCall := mkTxCall {
  tx_tx_id : string;
  tx_request_hash : string;
  tx_tables : list TableCommitInput;
  tx_source : UpdateSource;
  tx_tenant : string;
  tx_workspace : string
}.

(** [format!("{n:05}")] of an [i64]: the sign counts. *)
Definition pad_i64 (width : nat) (z : i64) : string :=
  if (z <? 0)%Z then "-" +:+ zero_pad (width - 1) (Z.to_N (- z)) else zero_pad width (Z.to_N z).

(** [build_metadata_location] of the coordinator. *)
Definition tx_metadata_location (table_location : string) (sequence_number : i64)
    (tx_id : string) (table_uuid : Uuid) : string :=
  trim_end_matches "/" table_location +:+ "/metadata/" +:+ pad_i64 5 sequence_number +:+ "-"
    +:+ tx_id +:+ "-" +:+ uuid_text table_uuid +:+ ".metadata.json".

Definition entry_output (t : TransactionTableEntry) : TableCommitOutput :=
  mkTableCommitOutput (te_table_uuid t) (te_new_metadata_location t).

Definition prepared_output (p : PreparedTable) : TableCommitOutput :=
  mkTableCommitOutput (pt_table_uuid p) (pt_new_metadata_location p).

Definition prepared_entry (p : PreparedTable) : TransactionTableEntry :=
  mkTransactionTableEntry (pt_table_uuid p) (pt_namespace p) (pt_table_name p)
    (pt_pointer_version p) (pt_new_metadata_location p) (pt_new_snapshot_id p)
    (pt_new_last_sequence_number p).

Section Coordinator.
Context `{Chrono, UuidCrate}.
Context `{Json IcebergTablePointer, Json TransactionRecord, Json TableMetadata}.
Context (config : CoordinatorConfig).

Definition try_tx {A B} (p : io (iresult A)) (f : A -> io (tresult B)) : io (tresult B) :=
  try_with TIceberg p f.

(** A pending update that is in the way: settle it as far as the other transaction
    allows, and ask the client to come back. *)
Definition settle_pending (table_uuid : Uuid) (pointer : IcebergTablePointer)
    (pointer_version : string) (pending : PendingPointerUpdate) : io (tresult PreparedTable) :=
  let clear_pending :=
    _ ← pointer_compare_and_swap table_uuid pointer_version (without_pending pointer);
    Ret (Err (TRetryAfter 5)) in
  try_tx (tx_load (pp_tx_id pending)) (fun other =>
    match other with
    | None => clear_pending
    | Some (other_tx, other_tx_version) =>
        match tr_status other_tx with
        | TxCommitted =>
            now ← utc_now_io;
            _ ← pointer_compare_and_swap table_uuid pointer_version (finalize_pending pointer now);
            Ret (Err (TRetryAfter 1))
        | TxPreparing =>
            now ← utc_now_io;
            if tx_is_stale other_tx (co_transaction_timeout config) now then
              now ← utc_now_io;
              let aborted := tx_abort other_tx "Stale transaction aborted during prepare" now in
              try_tx (tx_compare_and_swap aborted other_tx_version) (fun r =>
                match r with
                | CasSuccess _ => clear_pending
                | CasConflict _ => Ret (Err (TRetryAfter 5))
                end)
            else Ret (Err (TRetryAfter 30))
        | TxAborted => clear_pending
        end
    end).

Definition prepare_table (input : TableCommitInput) (tx_id tenant workspace : string) :
    io (tresult PreparedTable) :=
  try_tx (pointer_load (tc_table_uuid input)) (fun found =>
  match found with
  | None =>
      Ret (Err (TIceberg (INotFound ("Table not found: " +:+ tc_namespace input +:+ "."
                                       +:+ tc_table_name input) "NoSuchTableException")))
  | Some (pointer, pointer_version) =>
  match tp_pending pointer with
  | Some pending => settle_pending (tc_table_uuid input) pointer pointer_version pending
  | None =>
  try_tx (load_metadata (tp_current_metadata_location pointer) tenant workspace) (fun base_metadata =>
  try_tx (lift (validate_requirements base_metadata (ct_requirements (tc_request input)))) (fun _ =>
  try_tx (apply_updates base_metadata (ct_updates (tc_request input))) (fun new_metadata =>
  let new_sequence := i64_succ (tm_last_sequence_number new_metadata) in
  now ← utc_now_io;
  let new_metadata := finalize_metadata now new_metadata base_metadata pointer new_sequence in
  let new_metadata_location :=
    tx_metadata_location (tm_location new_metadata) new_sequence tx_id (tc_table_uuid input) in
  try_tx (lift (resolve_metadata_path new_metadata_location tenant workspace)) (fun metadata_path =>
  match to_vec new_metadata with
  | None => Ret (Err (TIceberg (IInternal "Failed to serialize metadata")))
  | Some metadata_bytes =>
  try_with (fun e => TIceberg (internal "Failed to write metadata" e))
    (put_object metadata_path metadata_bytes DoesNotExist) (fun _ =>
  now ← utc_now_io;
  let pending :=
    mkPendingPointerUpdate tx_id new_metadata_location (tm_current_snapshot_id new_metadata)
      (tm_last_sequence_number new_metadata) now in
  try_tx (pointer_compare_and_swap (tc_table_uuid input) pointer_version
            (with_pending pointer pending)) (fun r =>
  match r with
  | CasConflict _ =>
      Ret (Err (TIceberg (commit_conflict ("Pointer conflict while preparing table "
                                             +:+ uuid_text (tc_table_uuid input)))))
  | CasSuccess _ =>
      Ret (Ok (mkPreparedTable (tc_table_uuid input) (tc_namespace input) (tc_table_name input)
                 pointer_version new_metadata_location (tm_current_snapshot_id new_metadata)
                 (tm_last_sequence_number new_metadata)))
  end))
  end))))
  end
  end).

Fixpoint verify_commit_barrier (prepared : list PreparedTable) (tx_id : string) :
    io (tresult unit) :=
  match prepared with
  | [] => Ret (Ok tt)
  | prep :: prepared =>
      try_tx (pointer_load (pt_table_uuid prep)) (fun found =>
        match found with
        | None =>
            Ret (Err (TIceberg (IInternal ("Table pointer disappeared: "
                                             +:+ uuid_text (pt_table_uuid prep)))))
        | Some (pointer, _) =>
            match tp_pending pointer with
            | None =>
                Ret (Err (TIceberg (commit_conflict ("Table " +:+ uuid_text (pt_table_uuid prep)
                  +:+ " pending state was cleared before commit"))))
            | Some pending =>
                if decide (pp_tx_id pending <> tx_id) then
                  Ret (Err (TIceberg (commit_conflict ("Table " +:+ uuid_text (pt_table_uuid prep)
                    +:+ " pending state was taken over by another transaction"))))
                else if decide (pp_metadata_location pending <> pt_new_metadata_location prep) then
                  Ret (Err (TIceberg (IInternal ("Table " +:+ uuid_text (pt_table_uuid prep)
                    +:+ " pending metadata location mismatch"))))
                else verify_commit_barrier prepared tx_id
            end
        end)
  end.

(** Rewrite the pointers that still hold the transaction's update, ignoring failures. *)
Fixpoint rewrite_pending (tx_id : string)
    (f : DateTime -> IcebergTablePointer -> IcebergTablePointer) (prepared : list PreparedTable) :
    io unit :=
  match prepared with
  | [] => Ret tt
  | prep :: prepared =>
      found ← pointer_load (pt_table_uuid prep);
      _ ← match found with
          | Ok (Some (pointer, version)) =>
              if option_bool (fun p => bool_decide (pp_tx_id p = tx_id)) (tp_pending pointer) then
                now ← utc_now_io;
                _ ← pointer_compare_and_swap (pt_table_uuid prep) version (f now pointer);
                Ret tt
              else Ret tt
          | _ => Ret tt
          end;
      rewrite_pending tx_id f prepared
  end.

Definition abort_transaction (record : TransactionRecord) (version : string)
    (prepared : list PreparedTable) (reason : string) : io unit :=
  now ← utc_now_io;
  _ ← tx_compare_and_swap (tx_abort record reason now) version;
  rewrite_pending (tr_tx_id record) (fun _ p => without_pending p) prepared.

Definition finalize_pointers (prepared : list PreparedTable) (tx_id : string)
    (source : UpdateSource) : io unit :=
  rewrite_pending tx_id (fun now p => finalize_pending_with_source p source now) prepared.

Definition committed_result (r : TransactionRecord) : MultiTableCommitResult :=
  mkMultiTableCommitResult (tr_tx_id r) (entry_output <$> tr_tables r).

Definition handle_existing_transaction (existing : TransactionRecord) :
    tresult MultiTableCommitResult :=
  match tr_status existing with
  | TxCommitted => Ok (committed_result existing)
  | TxAborted => Err (TAborted (default "" (tr_abort_reason existing)))
  | TxPreparing => Err (TRetryAfter 30)
  end.

(** Step 4: the tables in order, until one fails. *)
Fixpoint prepare_tables (inputs : list TableCommitInput) (tx_id tenant workspace : string)
    (prepared : list PreparedTable) :
    io (list PreparedTable * tresult unit) :=
  match inputs with
  | [] => Ret (prepared, Ok tt)
  | input :: inputs =>
      prep ← prepare_table input tx_id tenant workspace;
      match prep with
      | Err e => Ret (prepared, Err e)
      | Ok prep => prepare_tables inputs tx_id tenant workspace (prepared ++ [prep])
      end
  end.

Section One.
Context (c : TxCall).

Definition prepared_result (prepared : list PreparedTable) : MultiTableCommitResult :=
  mkMultiTableCommitResult (tx_tx_id c) (prepared_output <$> prepared).

(** Steps 4 to 7, with the record created. *)
Definition run_transaction (tx_record : TransactionRecord) (tx_version : string) :
    io (tresult MultiTableCommitResult) :=
  let sorted_tables :=
    sort_by (fun a b => uuid_leb (tc_table_uuid a) (tc_table_uuid b)) (tx_tables c) in
  prep ← prepare_tables sorted_tables (tx_tx_id c) (tx_tenant c) (tx_workspace c) [];
  let '(prepared, outcome) := prep in
  match outcome with
  | Err e =>
      _ ← abort_transaction tx_record tx_version prepared (tx_error_display e);
      Ret (Err e)
  | Ok _ =>
  let tx_record := tx_record <| tr_tables := prepared_entry <$> prepared |> in
  try_tx (tx_compare_and_swap tx_record tx_version) (fun r =>
  match r with
  | CasConflict _ =>
      _ ← abort_transaction tx_record tx_version prepared "CAS conflict on tx record";
      Ret (Err (TRetryAfter 5))
  | CasSuccess tx_version =>
  barrier ← verify_commit_barrier prepared (tx_tx_id c);
  match barrier with
  | Err e =>
      _ ← abort_transaction tx_record tx_version prepared (tx_error_display e);
      Ret (Err e)
  | Ok _ =>
  now ← utc_now_io;
  try_tx (tx_compare_and_swap (tx_commit tx_record now) tx_version) (fun r =>
  match r with
  | CasConflict _ =>
      try_tx (tx_load (tx_tx_id c)) (fun current =>
        if option_bool (fun r => bool_decide (tr_status r.1 = TxCommitted)) current
        then Ret (Ok (prepared_result prepared))
        else Ret (Err (TRetryAfter 5)))
  | CasSuccess _ =>
      _ ← finalize_pointers prepared (tx_tx_id c) (tx_source c);
      Ret (Ok (prepared_result prepared))
  end)
  end
  end)
  end.

(** An earlier request with the same id. *)
Definition replay_transaction (existing : TransactionRecord) (existing_version : string) :
    io (tresult MultiTableCommitResult) :=
  if decide (tr_request_hash existing <> tx_request_hash c) then
    Ret (Err (TIceberg (commit_conflict "Idempotency key reused with different request")))
  else
    match tr_status existing with
    | TxCommitted => Ret (Ok (committed_result existing))
    | TxAborted => Ret (Err (TAborted (default "" (tr_abort_reason existing))))
    | TxPreparing =>
        now ← utc_now_io;
        if tx_is_stale existing (co_transaction_timeout config) now then
          now ← utc_now_io;
          try_tx (tx_compare_and_swap (tx_abort existing "Stale transaction aborted by retry" now)
                    existing_version) (fun _ => Ret (Err (TRetryAfter 1)))
        else Ret (Err (TRetryAfter 30))
    end.

(** [MultiTableTransactionCoordinator::commit] *)
Definition tx_run : io (tresult MultiTableCommitResult) :=
  match validate_uuidv7 (tx_tx_id c) with
  | Err e => Ret (Err (TIceberg (bad_request ("Invalid transaction ID: " +:+ e))))
  | Ok _ =>
  if (co_max_tables config <? length (tx_tables c)) then
    Ret (Err (TIceberg (bad_request ("Transaction exceeds maximum table limit ("
      +:+ pretty (length (tx_tables c)) +:+ " > " +:+ pretty (co_max_tables config) +:+ ")"))))
  else if bool_decide (tx_tables c = []) then
    Ret (Err (TIceberg (bad_request "Transaction must include at least one table")))
  else
  try_tx (tx_load (tx_tx_id c)) (fun found =>
  match found with
  | Some (existing, existing_version) => replay_transaction existing existing_version
  | None =>
      now ← utc_now_io;
      let tx_record := new_preparing (tx_tx_id c) (tx_request_hash c) now in
      try_tx (tx_create tx_record) (fun created =>
        match created with
        | CreateExists record _ => Ret (handle_existing_transaction record)
        | CreateSuccess tx_version => run_transaction tx_record tx_version
        end)
  end)
  end.
End One.
End Coordinator.
