(* ===== verification/IcebergMetaProps.v ===== *)
(** Table metadata stays well formed.

    [well_typed] is what the Iceberg format asks of a metadata file as far as the commit
    path maintains it; [updated] is a whole single-table update: requirements checked,
    updates applied one after the other, bookkeeping added.  [RemoveSnapshots] cuts the
    snapshot log to its longest tail of retained snapshots, and the guardrails keep the
    table's location and reserved properties out of a client's reach. *)

From S2P Require Import Prelude Storage Events Canonical Scoped Sample IcebergTypes IcebergMeta IcebergStore.
From stdpp Require Import options.

(** ** Well-formed metadata *)

Record well_typed (md : TableMetadata) : Prop := {
  wt_columns s f :
    s ∈ tm_schemas md -> f ∈ sch_fields s -> (sf_id f <= tm_last_column_id md)%Z;
  wt_partitions s f :
    s ∈ tm_partition_specs md -> f ∈ ps_fields s -> (pf_field_id f <= tm_last_partition_id md)%Z;
  wt_sequence s :
    s ∈ tm_snapshots md -> (sn_sequence_number s <= tm_last_sequence_number md)%Z;
  wt_schema : exists s, s ∈ tm_schemas md /\ sch_schema_id s = tm_current_schema_id md;
  wt_spec :
    tm_default_spec_id md = 0%Z \/
    exists s, s ∈ tm_partition_specs md /\ ps_spec_id s = tm_default_spec_id md;
  wt_order :
    tm_default_sort_order_id md = 0%Z \/
    exists o, o ∈ tm_sort_orders md /\ so_order_id o = tm_default_sort_order_id md;
  wt_main r :
    tm_refs md !! "main" = Some r -> tm_current_snapshot_id md = Some (rm_snapshot_id r);
  wt_refs name r :
    tm_refs md !! name = Some r -> rm_ref_type r = "branch" \/ rm_ref_type r = "tag"
}.

(** What no commit takes back. *)
Record counters_grow (md md' : TableMetadata) : Prop := {
  cg_column : (tm_last_column_id md <= tm_last_column_id md')%Z;
  cg_partition : (tm_last_partition_id md <= tm_last_partition_id md')%Z;
  cg_sequence : (tm_last_sequence_number md <= tm_last_sequence_number md')%Z;
  cg_format : (tm_format_version md <= tm_format_version md')%Z;
  cg_location : tm_location md' = tm_location md
}.

#[export] Instance counters_grow_preorder : PreOrder counters_grow.
Proof.
  split.
  - intros md. by split.
  - intros md1 md2 md3 [] []. split; try (by etrans); congruence.
Qed.

(** ** One update *)

Lemma fold_max_ge l x y : (x <= y)%Z -> (x <= fold_left Z.max l y)%Z.
Proof. revert y. induction l as [|z l IH]; intros y Hy; simpl; [done|]. apply IH. lia. Qed.

Lemma list_max_opt_ge l z : z ∈ l -> exists m, list_max_opt l = Some m /\ (z <= m)%Z.
Proof.
  destruct l as [|x l]; [by intros ?%not_elem_of_nil|]. intros Hz. eexists. split; [done|].
  revert x Hz. induction l as [|y l IH]; intros x Hz; simpl.
  - apply list_elem_of_singleton in Hz. lia.
  - apply elem_of_cons in Hz as [->|[->|Hz]%elem_of_cons]; try (apply fold_max_ge; lia).
    apply IH. by right.
Qed.

Lemma raise_to_ge ids last : (last <= raise_to ids last)%Z.
Proof. unfold raise_to. destruct (list_max_opt ids); [|lia]. destruct (Z.ltb_spec last z); lia. Qed.

Lemma raise_to_elem ids last z : z ∈ ids -> (z <= raise_to ids last)%Z.
Proof.
  intros (m & Hm & Hz)%list_max_opt_ge. unfold raise_to. rewrite Hm.
  destruct (Z.ltb_spec last m); lia.
Qed.

(** A schema's fields after [AddSchema], a spec's after [AddPartitionSpec]. *)
Lemma raised_fields {A B} (id : B -> Z) (fields : A -> list B) (xs : list A) x last :
  (forall a f, a ∈ xs -> f ∈ fields a -> (id f <= last)%Z) ->
  forall a f, a ∈ xs ++ [x] -> f ∈ fields a -> (id f <= raise_to (id <$> fields x) last)%Z.
Proof.
  intros Hxs a f [Ha| ->%list_elem_of_singleton]%elem_of_app Hf.
  - etrans; [by eapply Hxs|apply raise_to_ge].
  - apply raise_to_elem. by apply list_elem_of_fmap_2.
Qed.

Lemma existsb_id {A} (id : A -> Z) (l : list A) n :
  existsb (fun a => (id a =? n)%Z) l = true -> exists a, a ∈ l /\ id a = n.
Proof.
  intros (a & Ha%list_elem_of_In & E%Z.eqb_eq)%existsb_exists. by exists a.
Qed.

Lemma more_ids {A} (id : A -> Z) (l : list A) x n :
  (exists a, a ∈ l /\ id a = n) -> exists a, a ∈ l ++ [x] /\ id a = n.
Proof. intros (a & ? & ?). exists a. set_solver. Qed.

Section Updates.
Context `{Chrono}.

Lemma apply_update_well_typed now md u md' :
  well_typed md -> apply_update now md u = Ok md' -> well_typed md' /\ counters_grow md md'.
Proof.
  intros [Hcol Hpart Hseq Hsch Hspec Hord Hmain Hrefs].
  destruct u as [uuid|v|schema last|id|spec|id|order|id|snapshot|name ty sid|name|ids|loc|ups|rems];
    cbn [apply_update].
  - intros [= <-]. by split.
  - destruct (Z.ltb_spec v (tm_format_version md)); [done|]. intros [= <-]. by split.
  - set (last_id := raise_to _ _).
    assert (tm_last_column_id md <= last_id)%Z by apply raise_to_ge.
    assert (forall n, (last_id <= n)%Z -> let md1 := md <| tm_schemas := tm_schemas md ++ [schema] |>
      <| tm_last_column_id := n |> in well_typed md1 /\ counters_grow md md1) as Hgo.
    { intros n Hn. split; split; cbn; try done; [|by apply more_ids|lia].
      intros s f Hs Hf. etrans; [by eapply (raised_fields sf_id sch_fields)|exact Hn]. }
    destruct last as [n|]; cbn.
    + destruct (Z.ltb_spec n last_id) as [|Hn]; [done|]. intros [= <-]. by apply (Hgo n).
    + intros [= <-]. by apply (Hgo last_id).
  - destruct (existsb _ _) eqn:E; [|done]. intros [= <-]. split; [|by split].
    split; cbn; try done. by apply existsb_id in E.
  - intros [= <-]. split; split; cbn; try done.
    + by apply (raised_fields pf_field_id ps_fields).
    + destruct Hspec; [by left|right]. by apply more_ids.
    + apply raise_to_ge.
  - destruct (existsb _ _) eqn:E; [|done]. intros [= <-]. split; [|by split].
    split; cbn; try done. right. by apply existsb_id in E.
  - intros [= <-]. split; [|by split]. split; cbn; try done.
    destruct Hord; [by left|right]. by apply more_ids.
  - destruct (existsb _ _) eqn:E; [|done]. intros [= <-]. split; [|by split].
    split; cbn; try done. right. by apply existsb_id in E.
  - intros [= <-]. split; split; cbn; try done; try lia.
    intros s [Hs| ->%list_elem_of_singleton]%elem_of_app; [|lia]. specialize (Hseq s Hs). lia.
  - assert (forall r name', <[name := mkSnapshotRefMetadata sid
      (match ty with RefBranch => "branch" | RefTag => "tag" end)]> (tm_refs md) !! name' = Some r ->
      rm_ref_type r = "branch" \/ rm_ref_type r = "tag") as Hr.
    { intros r name' [[_ <-]|[_ ?]]%lookup_insert_Some; [destruct ty; auto|by eapply Hrefs]. }
    case_decide as Hn; intros [= <-]; (split; [|by split]); split; cbn; try done; try (intros; by eapply Hr).
    + intros r. rewrite Hn, lookup_insert_eq. by intros [= <-].
    + intros r. rewrite lookup_insert_ne by done. apply Hmain.
  - case_decide as Hn; intros [= <-]; (split; [|by split]); split; cbn; try done;
      try (intros ? r [_ ?]%lookup_delete_Some; by eapply Hrefs).
    + intros r. subst name. by rewrite lookup_delete_eq.
    + intros r [_ ?]%lookup_delete_Some. by apply Hmain.
  - set (gone := list_to_set ids : gset Z).
    assert (forall r name', filter (fun kr => rm_snapshot_id kr.2 ∉ gone) (tm_refs md) !! name' = Some r ->
      tm_refs md !! name' = Some r /\ rm_snapshot_id r ∉ gone) as Hr.
    { by intros r name' [? ?]%map_lookup_filter_Some. }
    destruct (option_bool _ _) eqn:E; intros [= <-]; (split; [|by split]); split; cbn in *; try done;
      try (intros s [_ ?]%list_elem_of_filter; by apply Hseq);
      try (intros ? r [? _]%Hr; by eapply Hrefs).
    + intros r [Hm Hn]%Hr. rewrite (Hmain _ Hm) in E. simpl in E.
      by apply bool_decide_eq_true in E.
    + intros r [Hm _]%Hr. by apply Hmain.
  - done.
  - intros [= <-]. by split.
  - intros [= <-]. by split.
Qed.

(** ** A whole update *)

(** The updates in order, each at some time. *)
Inductive applies : TableMetadata -> list TableUpdate -> TableMetadata -> Prop :=
  | applies_nil md : applies md [] md
  | applies_cons now md u md1 us md2 :
      apply_update now md u = Ok md1 -> applies md1 us md2 -> applies md (u :: us) md2.

Lemma applies_well_typed md us md' :
  applies md us md' -> well_typed md -> well_typed md' /\ counters_grow md md'.
Proof.
  induction 1 as [|now md u md1 us md2 Hu _ IH]; intros Hwt; [by split|].
  destruct (apply_update_well_typed _ _ _ _ Hwt Hu) as [Hwt1 Hg1].
  destruct (IH Hwt1) as [Hwt2 Hg2]. split; [done|by etrans].
Qed.

Lemma finalize_well_typed now md base p n :
  well_typed md ->
  let md' := finalize_metadata now md base p n in
  well_typed md' /\ counters_grow md md' /\ (n <= tm_last_sequence_number md')%Z.
Proof.
  intros [Hcol Hpart Hseq Hsch Hspec Hord Hmain Hrefs] md'. unfold md', finalize_metadata.
  destruct (option_bool _ _); cbn; split_and!; try lia;
    try (split; cbn; try done; lia);
    (split; cbn; try done; intros s Hs; etrans; [by apply Hseq|apply Z.le_max_l]).
Qed.

(** The metadata of a commit on [base]. *)
Definition updated (base : TableMetadata) (request : CommitTableRequest) (md : TableMetadata) : Prop :=
  validate_requirements base (ct_requirements request) = Ok tt /\
  exists md0 now pointer, applies base (ct_updates request) md0 /\
    md = finalize_metadata now md0 base pointer (i64_succ (tm_last_sequence_number base)).

(** The pointer of well-formed metadata can be built. *)
Lemma pointer_refs_total refs :
  (forall name r, (name, r) ∈ refs -> rm_ref_type r = "branch" \/ rm_ref_type r = "tag") ->
  exists m, pointer_refs refs = Ok m.
Proof.
  induction refs as [|[name r] refs IH]; intros Hr; [by eexists|].
  destruct IH as [m Hm]; [intros; eapply Hr; by right|]. cbn [pointer_refs]. rewrite Hm.
  unfold pointer_ref. destruct (Hr name r) as [->| ->]; [by left| |]; simpl; eauto.
Qed.

Lemma pointer_from_metadata_total now p md m src :
  well_typed md -> exists q, pointer_from_metadata now p md m src = Ok q.
Proof.
  intros Hwt. unfold pointer_from_metadata.
  destruct (pointer_refs_total (map_to_list (tm_refs md))) as [refs ->]; [|by eexists].
  intros name r Hr%elem_of_map_to_list. by eapply wt_refs.
Qed.

(** C28: A commit keeps table metadata well formed.  If the base metadata is, so is what
    any request that passes its requirements makes of it: no field or partition field has
    an id above the last assigned one, no snapshot a sequence number above the last, the
    current schema exists, the default spec and sort order exist or are 0, the main
    branch names the current snapshot, every ref is a branch or a tag.  The counters and
    the format version do not go back, the sequence number advances, the location stays,
    and the table's new pointer can always be built. *)
Theorem commit_metadata_well_typed base request md :
  well_typed base -> (tm_last_sequence_number base < i64_max)%Z -> updated base request md ->
  well_typed md /\ counters_grow base md /\
  (tm_last_sequence_number base < tm_last_sequence_number md)%Z /\
  forall now p m src, is_ok (pointer_from_metadata now p md m src) = true.
Proof.
  intros Hwt Hmax (_ & md0 & now & p & Happ & ->).
  destruct (applies_well_typed _ _ _ Happ Hwt) as [Hwt0 Hg0].
  destruct (finalize_well_typed now md0 base p (i64_succ (tm_last_sequence_number base)) Hwt0)
    as (Hwt1 & Hg1 & Hn).
  split_and!; [done|by etrans| |].
  - pose proof (i64_succ_small _ Hmax). lia.
  - intros. destruct (pointer_from_metadata_total now0 p0 _ m src Hwt1) as [q ->]. done.
Qed.
(** ** Removing snapshots *)

(** [k] is the longest tail of [l] whose elements all satisfy [P]. *)
Definition longest_tail {A} (P : A -> Prop) (l k : list A) : Prop :=
  Forall P k /\ exists front, l = front ++ k /\
    (front = [] \/ exists before x, front = before ++ [x] /\ ~ P x).

Lemma longest_tail_iff {A} (P Q : A -> Prop) l k :
  (forall a, P a <-> Q a) -> longest_tail P l k -> longest_tail Q l k.
Proof.
  intros E [Hf (front & Hl & Hn)]. split; [by eapply Forall_impl; [|intros ? ?; apply E]|].
  exists front. split; [done|]. destruct Hn as [?|(b & x & ? & Hx)]; [by left|right].
  exists b, x. by rewrite <- E.
Qed.

Lemma prune_longest_tail {A} (P : A -> Prop) `{forall a, Decision (P a)} (l : list A) :
  longest_tail P l (fold_left (fun pruned a => if decide (P a) then pruned ++ [a] else []) l []).
Proof.
  induction l as [|a l [IHf (front & IHl & IHn)]] using rev_ind.
  { split; [constructor|]. exists []. auto. }
  rewrite fold_left_app. cbn [fold_left]. case_decide as Ha.
  - split; [apply Forall_app; by repeat constructor|]. exists front. split; [|done].
    by rewrite app_assoc, <- IHl.
  - split; [constructor|]. exists (l ++ [a]). split; [by rewrite app_nil_r|]. right. by exists l, a.
Qed.

(** ** Guardrails *)

Lemma find_map_none {A B} (f : A -> option B) l : find_map f l = None -> Forall (fun a => f a = None) l.
Proof.
  induction l as [|a l IH]; simpl; [constructor|]. destruct (f a) eqn:E; [done|]. constructor; auto.
Qed.

Lemma find_none_in {A} (f : A -> bool) l x : List.find f l = None -> f x = true -> x ∉ l.
Proof. intros Hf Hx Hin%list_elem_of_In. pose proof (find_none f l Hf x Hin). congruence. Qed.

Lemma delete_all_lookup (keys : list string) (m : gmap string string) key :
  key ∉ keys -> fold_left (fun props k => delete k props) keys m !! key = m !! key.
Proof.
  revert m. induction keys as [|k keys IH]; intros m; simpl; [done|].
  intros [Hne Hin]%not_elem_of_cons. rewrite IH by done. by rewrite lookup_delete_ne.
Qed.

Lemma guarded_update now md u md' key :
  is_rejected_by_guardrails u = None -> apply_update now md u = Ok md' -> is_reserved_key key = true ->
  tm_properties md' !! key = tm_properties md !! key.
Proof.
  intros Hg Hu Hk. destruct u; cbn [apply_update] in Hu; repeat case_match; simplify_eq/=; try done.
  - apply fmap_None in Hg. rewrite lookup_union_r; [done|].
    apply (find_none_in _ _ key) in Hg; [|done]. destruct (updates !! key) eqn:E; [|done]. exfalso.
    apply Hg. apply list_elem_of_fmap. exists (key, s). split; [done|]. by apply elem_of_map_to_list.
  - apply fmap_None in Hg. apply delete_all_lookup. by apply (find_none_in _ _ key) in Hg.
Qed.

Lemma guarded_applies request base md key :
  check_guardrails request = None -> applies base (ct_updates request) md -> is_reserved_key key = true ->
  tm_properties md !! key = tm_properties base !! key /\ tm_location md = tm_location base.
Proof.
  intros Hg%find_map_none Happ Hk. revert Hg.
  induction Happ as [|now md u md1 us md2 Hu _ IH]; [done|]. intros [Hg Hgs]%Forall_cons.
  destruct (IH Hgs) as [-> ->]. split; [by eapply guarded_update|].
  destruct u; cbn [apply_update] in Hu; repeat case_match; by simplify_eq/=.
Qed.

Lemma remove_snapshots_effect now base ids :
  exists md, apply_update now base (RemoveSnapshots ids) = Ok md /\
    (forall s, s ∈ tm_snapshots md <-> s ∈ tm_snapshots base /\ sn_snapshot_id s ∉ ids) /\
    longest_tail (fun e => exists s, s ∈ tm_snapshots md /\ sn_snapshot_id s = sl_snapshot_id e)
      (tm_snapshot_log base) (tm_snapshot_log md) /\
    (forall name r, tm_refs md !! name = Some r <->
       tm_refs base !! name = Some r /\ rm_snapshot_id r ∉ ids) /\
    (forall id, tm_current_snapshot_id md = Some id <->
       tm_current_snapshot_id base = Some id /\ id ∉ ids).
Proof.
  set (gone := list_to_set ids : gset Z).
  assert (forall z, z ∈ gone <-> z ∈ ids) as Hgone by (intros; apply elem_of_list_to_set).
  set (kept := filter (fun s => sn_snapshot_id s ∉ gone) (tm_snapshots base)).
  assert (forall s, s ∈ kept <-> s ∈ tm_snapshots base /\ sn_snapshot_id s ∉ ids) as Hkept.
  { intros s. unfold kept. rewrite list_elem_of_filter, Hgone. tauto. }
  assert (forall e, sl_snapshot_id e ∈ (list_to_set (sn_snapshot_id <$> kept) : gset Z) <->
    exists s, s ∈ kept /\ sn_snapshot_id s = sl_snapshot_id e) as Hret.
  { intros e. rewrite elem_of_list_to_set, list_elem_of_fmap. naive_solver. }
  pose proof (longest_tail_iff _ _ _ _ Hret (prune_longest_tail _ (tm_snapshot_log base))) as Htail.
  cbn [apply_update]. fold gone. destruct (option_bool _ _) eqn:Ecur; eexists; (split; [reflexivity|]);
    cbn in *; (split; [exact Hkept|]); (split; [exact Htail|]);
    (split; [intros name r; rewrite map_lookup_filter_Some, Hgone; done|]); intros id.
  + destruct (tm_current_snapshot_id base) as [c|]; [|done]. simpl in Ecur.
    apply bool_decide_eq_true in Ecur. rewrite Hgone in Ecur. naive_solver.
  + destruct (tm_current_snapshot_id base) as [c|]; [|naive_solver]. simpl in Ecur.
    apply bool_decide_eq_false in Ecur. rewrite Hgone in Ecur. naive_solver.
Qed.

(** C33: What clients may not touch and what removing snapshots does.  The updates of a
    request that passes the guardrails leave every reserved property ([arco.] in any
    case) and the table's location as they were; and [RemoveSnapshots] keeps the
    snapshots and refs that were not named, clears the current snapshot when it was, and
    cuts the snapshot log to its longest tail of retained snapshots. *)
Theorem client_updates_confined :
  (forall request base md key, check_guardrails request = None -> applies base (ct_updates request) md ->
     is_reserved_key key = true ->
     tm_properties md !! key = tm_properties base !! key /\ tm_location md = tm_location base) /\
  (forall now base ids, exists md, apply_update now base (RemoveSnapshots ids) = Ok md /\
     (forall s, s ∈ tm_snapshots md <-> s ∈ tm_snapshots base /\ sn_snapshot_id s ∉ ids) /\
     longest_tail (fun e => exists s, s ∈ tm_snapshots md /\ sn_snapshot_id s = sl_snapshot_id e)
       (tm_snapshot_log base) (tm_snapshot_log md) /\
     (forall name r, tm_refs md !! name = Some r <->
        tm_refs base !! name = Some r /\ rm_snapshot_id r ∉ ids) /\
     (forall id, tm_current_snapshot_id md = Some id <->
        tm_current_snapshot_id base = Some id /\ id ∉ ids)).
Proof. split; [exact guarded_applies|exact remove_snapshots_effect]. Qed.
End Updates.

(** The metadata of a new table is well formed when its partition fields have no ids. *)
Lemma new_table_well_typed now t location schema spec order props :
  (forall s f, spec = Some s -> f ∈ ps_fields s -> (pf_field_id f <= 0)%Z) ->
  well_typed (new_table_metadata now t location schema spec order props).
Proof.
  intros Hspec. split; cbn; try (by intros; set_solver).
  - intros s f ->%list_elem_of_singleton Hf. destruct (list_max_opt_ge (sf_id <$> sch_fields schema) (sf_id f))
      as (m & Hm & Hle); [by apply list_elem_of_fmap_2|]. by rewrite Hm.
  - intros s f Hs Hf. destruct spec as [s'|]; [|by apply not_elem_of_nil in Hs].
    apply list_elem_of_singleton in Hs as ->. by eapply Hspec.
  - destruct spec as [s|]; [right; exists s; set_solver|by left].
  - destruct order as [o|]; [right; exists o; set_solver|by left].
Qed.

Module MetaSample.
Definition t : Uuid := mkUuid "aaaaaaaa-0000-7000-8000-000000000000" eq_refl.
Definition field (id : Z) : SchemaField := mkSchemaField id "c" false (VString "long").
Definition base : TableMetadata :=
  new_table_metadata 0 t "wh/a" (mkSchema 0 "struct" [field 1; field 2]) None None
    {[ "arco.owner" := "x" ]}.
Definition snapshot (id seq : Z) : Snapshot := mkSnapshot id None seq 0 "list" ∅ None.

(** A writer adds a column and a snapshot. *)
Definition request : CommitTableRequest :=
  mkCommitTableRequest None [AssertCurrentSchemaId 0; AssertRefSnapshotId "main" None]
    [AddSchema (mkSchema 1 "struct" [field 1; field 2; field 3]) None; SetCurrentSchema 1;
     AddSnapshot (snapshot 10 1); SetSnapshotRef "main" RefBranch 10 None None None].

Fixpoint apply_all (md : TableMetadata) (us : list TableUpdate) : option TableMetadata :=
  match us with
  | [] => Some md
  | u :: us => match apply_update 0 md u with Ok md => apply_all md us | Err _ => None end
  end.

Lemma apply_all_applies md us md' : apply_all md us = Some md' -> applies md us md'.
Proof.
  revert md. induction us as [|u us IH]; intros md; simpl.
  - intros [= <-]. constructor.
  - destruct (apply_update 0 md u) eqn:E; [|done]. intros. econstructor; [done|by apply IH].
Qed.

Definition after : TableMetadata := default base (apply_all base (ct_updates request)).
Definition pointer : IcebergTablePointer := pointer_new t "wh/a/metadata/0.metadata.json" 0.

Lemma well_typed_witness :
  let md := finalize_metadata 0 after base pointer 1 in
  well_typed md /\ tm_last_column_id md = 3%Z /\ (0 < tm_last_sequence_number md)%Z.
Proof.
  intros md.
  destruct (commit_metadata_well_typed base request md) as (Hwt & Hg & Hseq & _).
  - apply new_table_well_typed. done.
  - by vm_compute.
  - split; [done|]. exists after, 0%Z, pointer. split; [|done]. by apply apply_all_applies.
  - split_and!; [exact Hwt|done|exact Hseq].
Defined.

Definition log_entry (id : Z) : SnapshotLogEntry := mkSnapshotLogEntry id 0.
Definition busy : TableMetadata :=
  base <| tm_snapshots := [snapshot 1 1; snapshot 2 2; snapshot 3 3] |>
       <| tm_snapshot_log := [log_entry 1; log_entry 2; log_entry 3] |>.

Lemma confined_witness :
  tm_properties after !! "arco.owner" = Some "x" /\
  exists md, apply_update 0 busy (RemoveSnapshots [2%Z]) = Ok md /\
    longest_tail (fun e => exists s, s ∈ tm_snapshots md /\ sn_snapshot_id s = sl_snapshot_id e)
      (tm_snapshot_log busy) (tm_snapshot_log md) /\ tm_snapshot_log md = [log_entry 3].
Proof.
  destruct client_updates_confined as [Hprops Hrem]. split.
  - destruct (Hprops request base after "arco.owner") as [-> _]; [done| |done|done].
    by apply apply_all_applies.
  - destruct (Hrem 0%Z busy [2%Z]) as (md & Hmd & _ & Htail & _).
    exists md. split; [done|]. split; [done|]. vm_compute in Hmd. by injection Hmd as <-.
Defined.
End MetaSample.
