(* ===== verification/IcebergInvariant.v ===== *)
(** What is always true of the Iceberg catalog's objects.

    Pointers, transaction records and markers are told apart by their paths, one object
    per table, transaction and key; metadata files and receipts are none of these.  The
    invariant is a property of the history of writes: every write was [legal] when it
    happened.  [effective] is what a reader takes for a table's metadata, the abstraction
    the commits are explained by; [visible_step] says what one write does to it. *)

From S2P Require Import Prelude Storage Events Canonical Scoped TaskTokens IcebergTypes IcebergMeta IcebergTx Interleave IcebergMetaProps IcebergStore IcebergCommit.
From stdpp Require Import options.

Lemma uuid_groups_no_char i s c :
  uuid_groups i s = true -> is_lower_hex c = false -> c <> "-"%char -> str_contains c s = false.
Proof.
  revert i. induction s as [|a s IH]; intros i Hs Hc Hd; [done|]. cbn [uuid_groups] in Hs.
  apply andb_true_iff in Hs as [Ha Hs]. cbn [str_contains]. rewrite (IH _ Hs Hc Hd), orb_false_r.
  apply bool_decide_eq_false. intros ->. case_decide; bool_hyps; congruence.
Qed.

Lemma canonical_no_char s c :
  uuid_canonical s = true -> is_lower_hex c = false -> c <> "-"%char -> str_contains c s = false.
Proof. apply uuid_groups_no_char. Qed.

Lemma uuid_no_char (u : Uuid) c :
  is_lower_hex c = false -> c <> "-"%char -> str_contains c (uuid_text u) = false.
Proof. apply canonical_no_char, uuid_text_canonical. Qed.

(** ** One object each *)

Lemma pointer_path_inj t t' : pointer_path t = pointer_path t' -> t = t'.
Proof. intros E%str_app_inj_l%str_app_inj_r. by apply uuid_eq. Qed.

Lemma transaction_record_path_inj T T' :
  transaction_record_path T = transaction_record_path T' -> T = T'.
Proof. by intros ?%str_app_inj_l%str_app_inj_r. Qed.

Lemma pointer_not_transaction t T : pointer_path t <> transaction_record_path T.
Proof. intros E. by apply (f_equal (String.get 17)) in E. Qed.

Lemma pointer_not_marker t t' kh : pointer_path t <> idempotency_marker_path t' kh.
Proof. intros E. by apply (f_equal (String.get 17)) in E. Qed.

Lemma transaction_not_marker T t' kh :
  transaction_record_path T <> idempotency_marker_path t' kh.
Proof. intros E. by apply (f_equal (String.get 17)) in E. Qed.

Lemma str_app_inj_len (a b x y : string) :
  String.length a = String.length b -> a +:+ x = b +:+ y -> x = y.
Proof.
  revert b. induction a as [|c a IH]; intros [|d b]; str_simpl; try done.
  intros [= Hl] [= -> E]. by apply (IH b).
Qed.

Lemma length_substring n s : String.length (String.substring 0 n s) = Nat.min n (String.length s).
Proof. revert n. induction s as [|c s IH]; intros [|n]; simpl; auto. Qed.

Lemma iceberg_marker_path_inj t t' kh kh' :
  idempotency_marker_path t kh = idempotency_marker_path t' kh' -> t = t' /\ kh = kh'.
Proof.
  unfold idempotency_marker_path. intros E%str_app_inj_l. rewrite !str_app_cons, !str_app_nil in E.
  apply str_sep_inj_first in E as [Et E]; [|by apply uuid_no_char..].
  split; [by apply uuid_eq|].
  assert (String.length kh = String.length kh') as Hl.
  { apply (f_equal String.length) in E. rewrite !str_length_app in E. cbn [String.length] in E.
    rewrite !str_length_app, !length_substring in E. lia. }
  apply str_app_inj_len in E; [|rewrite !length_substring; lia].
  injection E as E. by apply str_app_inj_r in E.
Qed.

(** ** Metadata files *)

(** [s] ends with [suf]. *)
Definition ends_with (suf s : string) : Prop := exists p, s = p +:+ suf.

Lemma ends_with_app_r suf a s : ends_with suf s -> ends_with suf (a +:+ s).
Proof. intros [p ->]. exists (a +:+ p). by rewrite str_app_assoc. Qed.

Lemma split_once_str_Some pat s l r : split_once_str pat s = Some (l, r) -> ends_with r s.
Proof.
  revert l. induction s as [|a s IH]; intros l; cbn [split_once_str].
  - destruct (strip_prefix pat "") as [rest|] eqn:E; [|done]. intros [= <- <-].
    apply strip_prefix_Some in E. by exists pat.
  - destruct (strip_prefix pat (String a s)) as [rest|] eqn:E.
    + intros [= <- <-]. apply strip_prefix_Some in E. by exists pat.
    + destruct (split_once_str pat s) as [[l' r']|]; [|done]. intros [= <- ->].
      destruct (IH l' eq_refl) as [p ->]. by exists (String a p).
Qed.

Lemma split_once_Some c s l r : split_once c s = Some (l, r) -> ends_with r s.
Proof.
  revert l. induction s as [|a s IH]; intros l; cbn [split_once]; [done|].
  case_decide; [intros [= <- <-]; by exists (String a "")|].
  destruct (split_once c s) as [[l' r']|]; [|done]. intros [= <- ->].
  destruct (IH l' eq_refl) as [p ->]. by exists (String a p).
Qed.

Lemma ends_with_trans a b c : ends_with a b -> ends_with b c -> ends_with a c.
Proof. intros Ha [p ->]. by apply ends_with_app_r. Qed.

(** What a location resolves to is the end of it. *)
Lemma resolve_metadata_path_suffix location tenant workspace path :
  resolve_metadata_path location tenant workspace = Ok path -> ends_with path location.
Proof.
  unfold resolve_metadata_path.
  destruct (match split_once_str "://" location with
            | Some (_, rest) => snd <$> split_once "/" rest
            | None => Some location end) as [full|] eqn:Ef; [|done].
  assert (ends_with full location) as Hfull.
  { destruct (split_once_str "://" location) as [[l rest]|] eqn:E.
    - destruct (split_once "/" rest) as [[l' r]|] eqn:E'; [|done]. simpl in Ef. injection Ef as <-.
      eapply ends_with_trans; [by eapply split_once_Some|by eapply split_once_str_Some].
    - injection Ef as <-. by exists "". }
  cbv zeta. generalize ("tenant=" +:+ tenant +:+ "/workspace=" +:+ workspace +:+ "/"). intros pre.
  destruct (str_is_empty _); [done|]. intros [= <-].
  destruct (strip_prefix pre full) as [rest|] eqn:E; [|done]. simpl.
  apply strip_prefix_Some in E. eapply ends_with_trans; [|exact Hfull]. by eexists.
Qed.

(** Two ends of a text: the shorter is an end of the longer. *)
Lemma ends_with_shorter a b s :
  ends_with a s -> ends_with b s -> String.length a <= String.length b -> ends_with a b.
Proof.
  intros [p ->] [q E] Hl. revert q E. induction p as [|c p IH]; intros q E.
  - destruct q as [|d q]; [by exists ""; rewrite str_app_nil in *; rewrite E|].
    apply (f_equal String.length) in E. rewrite !str_length_app in E. simpl in E. lia.
  - destruct q as [|d q]; rewrite ?str_app_cons, ?str_app_nil in E.
    + exists (String c p). by rewrite str_app_cons, E.
    + injection E as _ E. by apply (IH q).
Qed.

(** A location the catalog builds ends in [.metadata.json]; the objects it keeps beside
    the tables do not. *)
Lemma metadata_path_not (location tenant workspace path pre name : string) :
  ends_with ".metadata.json" location ->
  resolve_metadata_path location tenant workspace = Ok path ->
  str_contains "." pre = false -> str_contains "." name = false -> 9 <= String.length pre ->
  path <> pre +:+ name +:+ ".json".
Proof.
  intros Hl Hr%resolve_metadata_path_suffix Hpre Hname Hlen ->.
  assert (ends_with ".metadata.json" (pre +:+ name +:+ ".json")) as [p E].
  { eapply ends_with_shorter; [exact Hl|exact Hr|]. rewrite !str_length_app. simpl. lia. }
  change ".metadata.json" with (".metadata" +:+ ".json") in E.
  rewrite <- !str_app_assoc in E. apply str_app_inj_r in E.
  apply (f_equal (str_contains ".")) in E. by rewrite !str_contains_app, Hpre, Hname, orb_true_r in E.
Qed.

Lemma build_metadata_location_suffix l n k loc :
  build_metadata_location l n k = Ok loc -> ends_with ".metadata.json" loc.
Proof.
  unfold build_metadata_location. destruct (str_is_empty _); [done|]. intros [= <-].
  repeat apply ends_with_app_r. by exists "".
Qed.

Lemma build_takeover_metadata_location_suffix l n k ev loc :
  build_takeover_metadata_location l n k ev = Ok loc -> ends_with ".metadata.json" loc.
Proof.
  unfold build_takeover_metadata_location. destruct (str_is_empty _); [done|]. intros [= <-].
  repeat apply ends_with_app_r. by exists "".
Qed.

Lemma tx_metadata_location_suffix l n T t :
  ends_with ".metadata.json" (tx_metadata_location l n T t).
Proof. unfold tx_metadata_location. repeat apply ends_with_app_r. by exists "". Qed.

Section Protected.
Context `{Hashes}.

(** The objects that are replaced: pointers, transaction records, markers. *)
Inductive protected : string -> Prop :=
  | protected_pointer t : protected (pointer_path t)
  | protected_transaction T : uuid_canonical T = true -> protected (transaction_record_path T)
  | protected_marker t k : protected (idempotency_marker_path t (hash_key k)).

Lemma receipt_not_protected rest : ~ protected ("events/" +:+ rest).
Proof. intros Hp. inversion Hp as [t E|T _ E|t k E]; by destruct rest. Qed.

(** Hexadecimal digits have no dot. *)
Context (hex_no_dot : forall k, str_contains "." (sha256_hex k) = false).

Lemma substring_contains c n s : str_contains c s = false -> str_contains c (String.substring 0 n s) = false.
Proof.
  revert n. induction s as [|a s IH]; intros [|n]; simpl; intros Hs; bool_hyps; auto.
  rewrite IH by done. rewrite bool_decide_false by done. done.
Qed.

Lemma metadata_not_protected location tenant workspace path :
  ends_with ".metadata.json" location ->
  resolve_metadata_path location tenant workspace = Ok path -> ~ protected path.
Proof using hex_no_dot.
  intros Hl Hr Hp. destruct Hp as [t|T HT|t k].
  - eapply (metadata_path_not _ _ _ _ "_catalog/iceberg_pointers/" (uuid_text t)); [done..| |simpl; lia|done].
    by apply uuid_no_char.
  - eapply (metadata_path_not _ _ _ _ "_catalog/iceberg_transactions/" T); [done..| |simpl; lia|done].
    by apply canonical_no_char.
  - set (pre := "_catalog/iceberg_idempotency/" +:+ uuid_text t +:+ "/" +:+
      String.substring 0 (Nat.min 2 (String.length (hash_key k))) (hash_key k) +:+ "/").
    eapply (metadata_path_not _ _ _ _ pre (hash_key k)); [done..| |apply hex_no_dot| |].
    + unfold pre. rewrite !str_contains_app, (uuid_no_char t), substring_contains;
        [done|apply hex_no_dot|done|done].
    + unfold pre. rewrite !str_length_app. simpl. lia.
    + unfold pre, idempotency_marker_path. by rewrite !str_app_assoc.
Qed.
End Protected.

(** ** Histories *)

Import Ownership.

#[local] Opaque pointer_path transaction_record_path idempotency_marker_path.

Abbreviation objects := (gmap string StoredObject) (only parsing).

Section Invariant.
Context `{Hashes, Chrono}.
Context `{Json IcebergTablePointer, Json IdempotencyMarker, Json TransactionRecord}.
Context `{Json TableMetadata}.
(** The scope all locations are resolved in. *)
Context (tenant workspace : string).

(** ** Reading the objects *)

Definition pointer_of (m : objects) (t : Uuid) : option IcebergTablePointer :=
  o ← m !! pointer_path t; from_slice (so_data o).

Definition record_of (m : objects) (T : string) : option TransactionRecord :=
  o ← m !! transaction_record_path T; from_slice (so_data o).

Definition marker_of (m : objects) (t : Uuid) (k : string) : option IdempotencyMarker :=
  o ← m !! idempotency_marker_path t (hash_key k); from_slice (so_data o).

Definition tx_status (m : objects) (T : string) : option TransactionStatus :=
  tr_status <$> record_of m T.

(** The metadata of a table: the pending update's once its transaction is committed. *)
Definition effective (m : objects) (t : Uuid) : option string :=
  p ← pointer_of m t;
  match tp_pending p with
  | Some pd =>
      if decide (tx_status m (pp_tx_id pd) = Some TxCommitted) then Some (pp_metadata_location pd)
      else Some (tp_current_metadata_location p)
  | None => Some (tp_current_metadata_location p)
  end.

(** A location names a metadata file that is there. *)
Definition stored (m : objects) (location : string) : Prop :=
  exists path, resolve_metadata_path location tenant workspace = Ok path /\
    is_Some (m !! path) /\ ~ protected path.

Definition metadata_at (m : objects) (location : string) : option TableMetadata :=
  match resolve_metadata_path location tenant workspace with
  | Ok path => o ← m !! path; from_slice (so_data o)
  | Err _ => None
  end.

(** The metadata at [location'] is an update of the metadata at [location]. *)
Definition derives (m : objects) (location location' : string) : Prop :=
  exists base request md, metadata_at m location = Some base /\
    metadata_at m location' = Some md /\ updated base request md.

Definition was_effective (h : list change) (t : Uuid) (location : string) : Prop :=
  exists h1, h1 `prefix_of` h /\ effective (replay h1) t = Some location.

(** ** Legal writes *)

Inductive pointer_step (m : objects) (p q : IcebergTablePointer) : Prop :=
  | step_commit :
      tp_pending p = None -> tp_pending q = None ->
      tp_previous_metadata_location q = Some (tp_current_metadata_location p) ->
      stored m (tp_current_metadata_location q) ->
      derives m (tp_current_metadata_location p) (tp_current_metadata_location q) ->
      pointer_step m p q
  | step_prepare pd st :
      tp_pending p = None -> q = with_pending p pd -> uuid_canonical (pp_tx_id pd) = true ->
      tx_status m (pp_tx_id pd) = Some st -> st <> TxCommitted ->
      stored m (pp_metadata_location pd) -> pointer_step m p q
  | step_clear pd :
      tp_pending p = Some pd -> q = without_pending p ->
      tx_status m (pp_tx_id pd) <> Some TxCommitted -> pointer_step m p q
  | step_finalize pd source now :
      tp_pending p = Some pd -> q = finalize_pending_with_source p source now ->
      tx_status m (pp_tx_id pd) = Some TxCommitted -> pointer_step m p q.

(** The update of [T] that a written pointer holds. *)
Definition holds (T : string) (o : StoredObject) (pd : PendingPointerUpdate) : Prop :=
  exists q : IcebergTablePointer,
    from_slice (so_data o) = Some q /\ tp_pending q = Some pd /\ pp_tx_id pd = T.

(** When a transaction commits, every update it ever placed is in place, and these are
    its tables'. *)
Record commit_point (h : list change) (T : string) (r : TransactionRecord) : Prop := {
  cp_in_place t o pd :
    Wrote (pointer_path t) o ∈ h -> holds T o pd ->
    exists p, pointer_of (replay h) t = Some p /\ tp_pending p = Some pd;
  cp_listed t o pd :
    Wrote (pointer_path t) o ∈ h -> holds T o pd ->
    exists e, e ∈ tr_tables r /\ te_table_uuid e = t /\
      te_new_metadata_location e = pp_metadata_location pd;
  cp_placed e :
    e ∈ tr_tables r -> exists o pd, Wrote (pointer_path (te_table_uuid e)) o ∈ h /\ holds T o pd /\
      te_new_metadata_location e = pp_metadata_location pd
}.

(** A record leaves [Preparing] once. *)
Record record_step (h : list change) (T : string) (r r' : TransactionRecord) : Prop := {
  rs_from : tr_status r = TxPreparing;
  rs_commit : tr_status r' = TxCommitted -> commit_point h T r'
}.

Definition marker_for (t : Uuid) (k : string) (m : IdempotencyMarker) : Prop :=
  im_table_uuid m = t /\ im_idempotency_key_hash m = hash_key k.

Definition marker_sound (h : list change) (t : Uuid) (m : IdempotencyMarker) : Prop :=
  im_status m = MCommitted ->
  exists location, im_response_metadata_location m = Some location /\ was_effective h t location.

Inductive legal (h : list change) : change -> Prop :=
  | legal_other path o : ~ protected path -> replay h !! path = None -> legal h (Wrote path o)
  | legal_pointer_new path t o q :
      path = pointer_path t ->
      replay h !! pointer_path t = None -> from_slice (so_data o) = Some q -> tp_pending q = None ->
      stored (replay h) (tp_current_metadata_location q) -> legal h (Wrote path o)
  | legal_pointer path t o p q :
      path = pointer_path t ->
      pointer_of (replay h) t = Some p -> from_slice (so_data o) = Some q ->
      pointer_step (replay h) p q -> legal h (Wrote path o)
  | legal_record_new path T o r :
      path = transaction_record_path T -> uuid_canonical T = true ->
      replay h !! transaction_record_path T = None ->
      from_slice (so_data o) = Some r -> tr_tx_id r = T -> tr_status r = TxPreparing ->
      legal h (Wrote path o)
  | legal_record path T o r r' :
      path = transaction_record_path T -> uuid_canonical T = true ->
      record_of (replay h) T = Some r ->
      from_slice (so_data o) = Some r' -> tr_tx_id r' = T -> record_step h T r r' ->
      legal h (Wrote path o)
  | legal_marker_new path t k o m :
      path = idempotency_marker_path t (hash_key k) ->
      replay h !! idempotency_marker_path t (hash_key k) = None ->
      from_slice (so_data o) = Some m -> marker_for t k m -> im_status m = MInProgress ->
      legal h (Wrote path o)
  | legal_marker path t k o m m' :
      path = idempotency_marker_path t (hash_key k) ->
      marker_of (replay h) t k = Some m -> im_status m = MInProgress ->
      from_slice (so_data o) = Some m' -> marker_for t k m' -> marker_sound h t m' ->
      legal h (Wrote path o).

Definition iceberg_inv (h : list change) : Prop :=
  forall h1 e h2, h = h1 ++ e :: h2 -> legal h1 e.

Lemma iceberg_inv_nil : iceberg_inv [].
Proof. by intros [|? ?] e h2. Qed.

Lemma iceberg_inv_snoc h e : iceberg_inv (h ++ [e]) <-> iceberg_inv h /\ legal h e.
Proof.
  split.
  - intros Hi. split; [|by apply (Hi h e [])].
    intros h1 e' h2 ->. apply (Hi h1 e' (h2 ++ [e])). by rewrite <- app_assoc.
  - intros [Hi He] h1 e' h2 E.
    destruct h2 as [|x h2 _] using rev_ind.
    + apply app_inj_tail_iff in E as [-> ->]. done.
    + rewrite app_comm_cons, app_assoc in E. apply app_inj_tail_iff in E as [-> ->]. by apply (Hi h1 e' h2).
Qed.

Lemma iceberg_inv_prefix h h' : h `prefix_of` h' -> iceberg_inv h' -> iceberg_inv h.
Proof.
  intros [k ->] Hi h1 e h2 ->. apply (Hi h1 e (h2 ++ k)). by rewrite <- app_assoc.
Qed.

(** ** Inversions *)

Lemma legal_no_delete h p : ~ legal h (Deleted p).
Proof. inversion 1. Qed.

Lemma legal_pointer_inv h path t o :
  path = pointer_path t -> legal h (Wrote path o) ->
  exists q, from_slice (so_data o) = Some q /\
    ((replay h !! pointer_path t = None /\ tp_pending q = None /\
      stored (replay h) (tp_current_metadata_location q)) \/
     exists p, pointer_of (replay h) t = Some p /\ pointer_step (replay h) p q).
Proof.
  intros Ep Hl.
  inversion Hl as [?? Hp|? t' ? q E|? t' ? p q E|? T ?? E|? T ??? E|? t' k ?? E|? t' k ??? E];
    try rewrite Ep in E.
  - destruct Hp. rewrite Ep. constructor.
  - apply pointer_path_inj in E as ->. eauto 10.
  - apply pointer_path_inj in E as ->. eauto 10.
  - by destruct (pointer_not_transaction t T).
  - by destruct (pointer_not_transaction t T).
  - by destruct (pointer_not_marker t t' (hash_key k)).
  - by destruct (pointer_not_marker t t' (hash_key k)).
Qed.

Lemma legal_record_inv h path T o :
  path = transaction_record_path T -> uuid_canonical T = true -> legal h (Wrote path o) ->
  exists r', from_slice (so_data o) = Some r' /\ tr_tx_id r' = T /\
    ((replay h !! transaction_record_path T = None /\ tr_status r' = TxPreparing) \/
     exists r, record_of (replay h) T = Some r /\ record_step h T r r').
Proof.
  intros Ep HT Hl.
  inversion Hl as [?? Hp|? t' ? q E|? t' ? p q E|? T' ? r E|? T' ? r r' E|? t' k ?? E|? t' k ??? E];
    try rewrite Ep in E.
  - destruct Hp. rewrite Ep. by constructor.
  - by destruct (pointer_not_transaction t' T).
  - by destruct (pointer_not_transaction t' T).
  - apply transaction_record_path_inj in E as ->. eauto 10.
  - apply transaction_record_path_inj in E as ->. eauto 10.
  - by destruct (transaction_not_marker T t' (hash_key k)).
  - by destruct (transaction_not_marker T t' (hash_key k)).
Qed.

Lemma legal_marker_inv h path t k o :
  path = idempotency_marker_path t (hash_key k) -> legal h (Wrote path o) ->
  exists m', from_slice (so_data o) = Some m' /\ marker_for t k m' /\
    ((replay h !! idempotency_marker_path t (hash_key k) = None /\ im_status m' = MInProgress) \/
     exists m, marker_of (replay h) t k = Some m /\ im_status m = MInProgress /\ marker_sound h t m').
Proof.
  intros Ep Hl.
  inversion Hl as [?? Hp|? t' ? q E|? t' ? p q E|? T' ? r E|? T' ? r r' E|? t' k' ? m' E|? t' k' ? m m' E];
    try rewrite Ep in E.
  - destruct Hp. rewrite Ep. by constructor.
  - by destruct (pointer_not_marker t' t (hash_key k)).
  - by destruct (pointer_not_marker t' t (hash_key k)).
  - by destruct (transaction_not_marker T' t (hash_key k)).
  - by destruct (transaction_not_marker T' t (hash_key k)).
  - apply iceberg_marker_path_inj in E as [-> Ek]. unfold marker_for in *. rewrite Ek. eauto 10.
  - apply iceberg_marker_path_inj in E as [-> Ek]. unfold marker_for, marker_of in *. rewrite Ek. eauto 10.
Qed.

Lemma legal_other_inv h path o :
  ~ protected path -> legal h (Wrote path o) -> replay h !! path = None.
Proof. intros Hp Hl. inversion Hl; subst; try done; by destruct Hp; constructor. Qed.

(** ** The history *)

Lemma inv_written h e :
  iceberg_inv h -> e ∈ h -> exists h1 h2, h = h1 ++ e :: h2 /\ legal h1 e.
Proof. intros Hi (h1 & h2 & ->)%list_elem_of_split. exists h1, h2. split; [done|]. by eapply Hi. Qed.

Lemma inv_no_delete h p : iceberg_inv h -> Deleted p ∉ h.
Proof. intros Hi (h1 & h2 & _ & Hl)%inv_written; [|done]. by eapply legal_no_delete. Qed.

(** Objects stay. *)
Lemma inv_stays h h' p :
  iceberg_inv h' -> h `prefix_of` h' -> is_Some (replay h !! p) -> is_Some (replay h' !! p).
Proof.
  intros Hi [k ->] [o Ho%replay_elem]. eapply written_stored; [|by apply inv_no_delete].
  apply elem_of_app. by left.
Qed.

Lemma inv_written_stays h p o : iceberg_inv h -> Wrote p o ∈ h -> is_Some (replay h !! p).
Proof. intros Hi Hin. eapply written_stored; [done|by apply inv_no_delete]. Qed.

Lemma stored_mono h h' location :
  iceberg_inv h' -> h `prefix_of` h' -> stored (replay h) location -> stored (replay h') location.
Proof. intros Hi Hp (path & Hr & Hs & Hn). exists path. split_and!; [done| |done]. by eapply inv_stays. Qed.

(** Files do not change. *)
Lemma inv_file_same h h' p o :
  iceberg_inv h' -> h `prefix_of` h' -> ~ protected p -> replay h !! p = Some o ->
  replay h' !! p = Some o.
Proof.
  intros Hi [k ->] Hp Ho. induction k as [|e k IH] using rev_ind; [by rewrite app_nil_r|].
  rewrite app_assoc in *. pose proof Hi as [Hi1 Hl]%iceberg_inv_snoc. specialize (IH Hi1).
  destruct e as [path o'|path]; [|by apply legal_no_delete in Hl].
  rewrite replay_snoc. destruct (decide (path = p)) as [->|]; [|by rewrite lookup_insert_ne].
  apply legal_other_inv in Hl; [congruence|done].
Qed.

Lemma metadata_at_mono h h' location md :
  iceberg_inv h' -> h `prefix_of` h' -> stored (replay h) location ->
  metadata_at (replay h) location = Some md -> metadata_at (replay h') location = Some md.
Proof.
  intros Hi Hp (path & Hr & [o Ho] & Hn). unfold metadata_at. rewrite Hr, Ho. simpl.
  by rewrite (inv_file_same _ _ _ _ Hi Hp Hn Ho).
Qed.

Lemma derives_mono h h' l l' :
  iceberg_inv h' -> h `prefix_of` h' -> stored (replay h) l -> stored (replay h) l' ->
  derives (replay h) l l' -> derives (replay h') l l'.
Proof.
  intros Hi Hp Hl Hl' (base & request & md & Hb & Hm & Hu). exists base, request, md.
  split_and!; [by eapply metadata_at_mono..|done].
Qed.

(** Objects that are not replaced are written once. *)
Lemma inv_write_once h1 h2 p o o' :
  iceberg_inv (h1 ++ Wrote p o :: h2) -> Wrote p o' ∈ h2 -> protected p.
Proof.
  intros Hi Hin. destruct (list_elem_of_split _ _ Hin) as (k1 & k2 & ->).
  pose proof (Hi (h1 ++ Wrote p o :: k1) (Wrote p o') k2) as Hl.
  rewrite <- app_assoc in Hl. specialize (Hl eq_refl).
  assert (is_Some (replay (h1 ++ Wrote p o :: k1) !! p)) as Hs.
  { eapply (inv_written_stays _ p o); [|set_solver].
    eapply iceberg_inv_prefix; [|exact Hi]. exists (Wrote p o' :: k2).
    by rewrite <- app_assoc. }
  inversion Hl; subst; try constructor; try done. by destruct Hs; congruence.
Qed.

Lemma pointer_of_write m t path o :
  path <> pointer_path t -> pointer_of (<[path := o]> m) t = pointer_of m t.
Proof. intros. unfold pointer_of. by rewrite lookup_insert_ne. Qed.

Lemma pointer_of_written m t o : pointer_of (<[pointer_path t := o]> m) t = from_slice (so_data o).
Proof. unfold pointer_of. by rewrite lookup_insert_eq. Qed.

Lemma record_of_write m T path o :
  path <> transaction_record_path T -> record_of (<[path := o]> m) T = record_of m T.
Proof. intros. unfold record_of. by rewrite lookup_insert_ne. Qed.

Lemma record_of_written m T o :
  record_of (<[transaction_record_path T := o]> m) T = from_slice (so_data o).
Proof. unfold record_of. by rewrite lookup_insert_eq. Qed.

Lemma marker_of_write m t k path o :
  path <> idempotency_marker_path t (hash_key k) -> marker_of (<[path := o]> m) t k = marker_of m t k.
Proof. intros. unfold marker_of. by rewrite lookup_insert_ne. Qed.

Lemma inv_pointer h t o :
  iceberg_inv h -> Wrote (pointer_path t) o ∈ h ->
  exists p : IcebergTablePointer, from_slice (so_data o) = Some p.
Proof.
  intros Hi (h1 & h2 & _ & Hl)%inv_written; [|done].
  apply (legal_pointer_inv _ _ t) in Hl as (q & Hq & _); [by exists q|done].
Qed.

Lemma inv_record h T o :
  iceberg_inv h -> uuid_canonical T = true -> Wrote (transaction_record_path T) o ∈ h ->
  exists r, from_slice (so_data o) = Some r /\ tr_tx_id r = T.
Proof.
  intros Hi HT (h1 & h2 & _ & Hl)%inv_written; [|done].
  apply (legal_record_inv _ _ T) in Hl as (r & Hr & Hid & _); [by exists r|done..].
Qed.

Lemma inv_marker h t k o :
  iceberg_inv h -> Wrote (idempotency_marker_path t (hash_key k)) o ∈ h ->
  exists m, from_slice (so_data o) = Some m /\ marker_for t k m /\ marker_sound h t m.
Proof.
  intros Hi (h1 & h2 & -> & Hl)%inv_written; [|done].
  apply (legal_marker_inv _ _ t k) in Hl as (m & Hm & Hf & Hc); [|done]. exists m.
  split_and!; [done..|]. destruct Hc as [[_ Hst]|(m0 & _ & _ & Hs)]; intros Hcm; [congruence|].
  destruct (Hs Hcm) as (loc & Hloc & k1 & Hk1 & He). exists loc. split; [done|]. exists k1.
  split; [|done]. etrans; [done|]. by apply prefix_app_r.
Qed.

(** A pending update was placed by a transaction that has a record. *)
Lemma inv_holds h t o T pd :
  iceberg_inv h -> Wrote (pointer_path t) o ∈ h -> holds T o pd ->
  uuid_canonical T = true /\ stored (replay h) (pp_metadata_location pd) /\
  exists h1 h2 st, h = h1 ++ Wrote (pointer_path t) o :: h2 /\ tx_status (replay h1) T = Some st.
Proof.
  intros Hi Hin (q & Hq & Hpd & <-). pose proof Hi as Hi0.
  apply inv_written in Hin as (h1 & h2 & -> & Hl); [|done].
  apply (legal_pointer_inv _ _ t) in Hl as (q' & Hq' & Hc); [|done]. simplify_eq.
  destruct Hc as [(_ & ? & _)|(p & _ & Hs)]; [congruence|].
  assert (h1 `prefix_of` h1 ++ Wrote (pointer_path t) o :: h2) by (by apply prefix_app_r).
  destruct Hs as [? Hno|pd' st ? -> ?? ? Hst|? ? ->|??? Hp ->]; simpl in *.
  - congruence.
  - simplify_eq. split_and!; [done|by eapply stored_mono|]. eauto.
  - done.
  - unfold finalize_pending_with_source in Hpd. rewrite Hp in Hpd. done.
Qed.

(** *** Transactions settle once *)

Lemma status_snoc h e T st :
  iceberg_inv (h ++ [e]) -> uuid_canonical T = true -> tx_status (replay h) T = Some st ->
  exists st', tx_status (replay (h ++ [e])) T = Some st' /\ (st = TxPreparing \/ st' = st).
Proof.
  intros [Hi Hl]%iceberg_inv_snoc HT Hst. rewrite replay_snoc.
  destruct e as [path o|path]; [|by apply legal_no_delete in Hl].
  unfold tx_status in *. destruct (decide (path = transaction_record_path T)) as [->|Hne].
  - apply (legal_record_inv _ _ T) in Hl as (r' & Hr' & _ & Hc); [|done..].
    rewrite record_of_written, Hr'. simpl. exists (tr_status r'). split; [done|]. left.
    destruct Hc as [[Hno _]|(r & Hr & [Hf _])].
    + unfold record_of in Hst. by rewrite Hno in Hst.
    + rewrite Hr in Hst. simpl in Hst. congruence.
  - rewrite record_of_write by done. eauto.
Qed.

Lemma status_mono h h' T st :
  iceberg_inv h' -> h `prefix_of` h' -> uuid_canonical T = true -> tx_status (replay h) T = Some st ->
  exists st', tx_status (replay h') T = Some st' /\ (st = TxPreparing \/ st' = st).
Proof.
  intros Hi [k ->] HT Hst. induction k as [|e k IH] using rev_ind.
  - rewrite app_nil_r. eauto.
  - rewrite app_assoc in *. destruct IH as (st1 & Hst1 & Hc1); [by apply iceberg_inv_snoc in Hi as [? _]|].
    destruct (status_snoc _ _ _ _ Hi HT Hst1) as (st2 & Hst2 & Hc2). exists st2.
    split; [done|]. destruct Hc1, Hc2; subst; auto.
Qed.

(** The write that committed a transaction. *)
Lemma commit_seen h h' T :
  iceberg_inv h' -> h `prefix_of` h' -> uuid_canonical T = true ->
  tx_status (replay h') T = Some TxCommitted ->
  tx_status (replay h) T = Some TxCommitted \/
  exists h1 o r, h `prefix_of` h1 /\ h1 ++ [Wrote (transaction_record_path T) o] `prefix_of` h' /\
    from_slice (so_data o) = Some r /\ tr_status r = TxCommitted /\ commit_point h1 T r.
Proof.
  intros Hi [k ->] HT. induction k as [|e k IH] using rev_ind; intros Hst.
  - rewrite app_nil_r in Hst. by left.
  - rewrite app_assoc in *. pose proof Hi as [Hi1 Hl]%iceberg_inv_snoc.
    destruct e as [path o|path]; [|by apply legal_no_delete in Hl].
    rewrite replay_snoc in Hst. destruct (decide (path = transaction_record_path T)) as [->|Hne].
    + right. apply (legal_record_inv _ _ T) in Hl as (r & Hr & _ & Hc); [|done..].
      unfold tx_status in Hst. rewrite record_of_written, Hr in Hst. injection Hst as Hst.
      exists (h ++ k), o, r. split_and!; [by apply prefix_app_r|done|done|done|].
      destruct Hc as [[_ ?]|(r0 & _ & [_ Hcp])]; [congruence|by apply Hcp].
    + unfold tx_status in Hst. rewrite record_of_write in Hst by done.
      destruct (IH Hi1 Hst) as [?|(h1 & o1 & r & ? & Hp & ?)]; [by left|right].
      exists h1, o1, r. split_and!; [done| |naive_solver..]. by apply prefix_app_r.
Qed.

(** A settled marker stays as it is. *)
Lemma marker_settled h h' t k m :
  iceberg_inv h' -> h `prefix_of` h' -> marker_of (replay h) t k = Some m ->
  im_status m <> MInProgress -> marker_of (replay h') t k = Some m.
Proof.
  intros Hi [l ->] Hm Hst. induction l as [|e l IH] using rev_ind; [by rewrite app_nil_r|].
  rewrite app_assoc in *. pose proof Hi as [Hi1 Hl]%iceberg_inv_snoc. specialize (IH Hi1).
  destruct e as [path o|path]; [|by apply legal_no_delete in Hl]. rewrite replay_snoc.
  destruct (decide (path = idempotency_marker_path t (hash_key k))) as [->|];
    [|by rewrite marker_of_write].
  apply (legal_marker_inv _ _ t k) in Hl as (m' & _ & _ & Hc); [|done].
  destruct Hc as [[Hno _]|(m0 & Hm0 & ? & _)]; [|congruence].
  unfold marker_of in IH. by rewrite Hno in IH.
Qed.

(** ** What readers see *)

Lemma pointer_written h t p :
  pointer_of (replay h) t = Some p ->
  exists o, Wrote (pointer_path t) o ∈ h /\ from_slice (so_data o) = Some p.
Proof.
  unfold pointer_of. intros (o & Ho & Hp)%bind_Some. exists o. split; [|done]. by apply replay_elem.
Qed.

Lemma pending_written h t p pd :
  pointer_of (replay h) t = Some p -> tp_pending p = Some pd ->
  exists o, Wrote (pointer_path t) o ∈ h /\ holds (pp_tx_id pd) o pd.
Proof. intros (o & Ho & Hp)%pointer_written Hpd. exists o. split; [done|]. by exists p. Qed.

Lemma effective_same h m' t :
  iceberg_inv h -> pointer_of m' t = pointer_of (replay h) t ->
  (forall T, uuid_canonical T = true ->
     tx_status m' T = Some TxCommitted <-> tx_status (replay h) T = Some TxCommitted) ->
  effective m' t = effective (replay h) t.
Proof.
  intros Hi Hp HT. unfold effective. rewrite Hp.
  destruct (pointer_of (replay h) t) as [p|] eqn:Ep; [|done]. simpl.
  destruct (tp_pending p) as [pd|] eqn:Epd; [|done].
  destruct (pending_written _ _ _ _ Ep Epd) as (o & Ho & Hh).
  destruct (inv_holds _ _ _ _ _ Hi Ho Hh) as (Hc & _). specialize (HT _ Hc).
  repeat case_decide; naive_solver.
Qed.

Lemma effective_no_pending m t p :
  pointer_of m t = Some p -> tp_pending p = None ->
  effective m t = Some (tp_current_metadata_location p).
Proof. intros Hp Hn. unfold effective. rewrite Hp. simpl. by rewrite Hn. Qed.

Lemma effective_pending m t p pd :
  pointer_of m t = Some p -> tp_pending p = Some pd ->
  effective m t = Some (if decide (tx_status m (pp_tx_id pd) = Some TxCommitted)
                        then pp_metadata_location pd else tp_current_metadata_location p).
Proof. intros Hp Hn. unfold effective. rewrite Hp. simpl. rewrite Hn. by case_decide. Qed.

(** Every location a table shows names a file that is there. *)
Lemma pointer_stored h t p :
  iceberg_inv h -> pointer_of (replay h) t = Some p ->
  stored (replay h) (tp_current_metadata_location p).
Proof.
  revert p. induction h as [|e h IH] using rev_ind; intros p Hi Hp.
  { apply pointer_written in Hp as (o & Ho & _). by apply not_elem_of_nil in Ho. }
  pose proof Hi as [Hi1 Hl]%iceberg_inv_snoc.
  assert (forall loc, stored (replay h) loc -> stored (replay (h ++ [e])) loc) as Hmono.
  { intros loc. apply stored_mono; [done|by apply prefix_app_r]. }
  destruct e as [path o|path]; [|by apply legal_no_delete in Hl].
  rewrite replay_snoc in Hp. destruct (decide (path = pointer_path t)) as [->|Hne].
  - rewrite pointer_of_written in Hp.
    apply (legal_pointer_inv _ _ t) in Hl as (q & Hq & Hc); [|done]. apply Hmono.
    rewrite Hq in Hp. injection Hp as ->.
    destruct Hc as [(_ & _ & ?)|(p0 & Hp0 & [|pd st ? -> |pd ? ->|pd src now Hpd -> _])]; [done|done| | |].
    + by apply (IH p0).
    + by apply (IH p0).
    + destruct (pending_written _ _ _ _ Hp0 Hpd) as (o' & Ho' & Hh).
      destruct (inv_holds _ _ _ _ _ Hi1 Ho' Hh) as (_ & Hs & _).
      unfold finalize_pending_with_source. by rewrite Hpd.
  - rewrite pointer_of_write in Hp by done. by apply Hmono, IH.
Qed.

Lemma effective_stored h t loc :
  iceberg_inv h -> effective (replay h) t = Some loc -> stored (replay h) loc.
Proof.
  intros Hi. unfold effective. destruct (pointer_of (replay h) t) as [p|] eqn:Hp; [|done]. simpl.
  pose proof (pointer_stored _ _ _ Hi Hp) as Hs.
  destruct (tp_pending p) as [pd|] eqn:Hpd; [|by intros [= <-]].
  case_decide; intros [= <-]; [|done].
  destruct (pending_written _ _ _ _ Hp Hpd) as (o & Ho & Hh).
  by destruct (inv_holds _ _ _ _ _ Hi Ho Hh) as (_ & ? & _).
Qed.

(** One write, as readers see it: nothing changes; a table appears; one table moves on
    from what it was; or all the tables of a transaction do, at once. *)
Inductive visible_step (m m' : objects) : change -> Prop :=
  | visible_silent e : (forall t, effective m' t = effective m t) -> visible_step m m' e
  | visible_create path t o (q : IcebergTablePointer) :
      path = pointer_path t -> from_slice (so_data o) = Some q -> effective m t = None ->
      effective m' t = Some (tp_current_metadata_location q) ->
      (forall t', t' <> t -> effective m' t' = effective m t') -> visible_step m m' (Wrote path o)
  | visible_commit path t o (q : IcebergTablePointer) :
      path = pointer_path t -> from_slice (so_data o) = Some q ->
      effective m' t = Some (tp_current_metadata_location q) ->
      (exists location, effective m t = Some location /\
         tp_previous_metadata_location q = Some location /\
         derives m location (tp_current_metadata_location q)) ->
      (forall t', t' <> t -> effective m' t' = effective m t') -> visible_step m m' (Wrote path o)
  | visible_transaction path T o r :
      path = transaction_record_path T -> from_slice (so_data o) = Some r ->
      tr_status r = TxCommitted ->
      (forall e, e ∈ tr_tables r -> effective m' (te_table_uuid e) = Some (te_new_metadata_location e)) ->
      (forall t, (forall e, e ∈ tr_tables r -> te_table_uuid e <> t) -> effective m' t = effective m t) ->
      visible_step m m' (Wrote path o).

Lemma visible_pointer_step h t o p q :
  iceberg_inv h -> pointer_of (replay h) t = Some p -> from_slice (so_data o) = Some q ->
  pointer_step (replay h) p q ->
  visible_step (replay h) (<[pointer_path t := o]> (replay h)) (Wrote (pointer_path t) o).
Proof.
  intros Hi Hp Hq Hs. set (m := replay h) in *. set (m' := <[_ := o]> m).
  assert (forall T, tx_status m' T = tx_status m T) as Hst.
  { intros T. unfold tx_status, m'. rewrite record_of_write; [done|apply pointer_not_transaction]. }
  assert (forall t', t' <> t -> effective m' t' = effective m t') as Hother.
  { intros t' Hne. apply effective_same; [done| |by intros; rewrite Hst].
    apply pointer_of_write. by intros ?%pointer_path_inj. }
  assert (pointer_of m' t = Some q) as Hq' by (by unfold m'; rewrite pointer_of_written).
  assert (effective m' t = effective m t -> visible_step m m' (Wrote (pointer_path t) o)) as Hsilent.
  { intros E. constructor. intros t'. destruct (decide (t' = t)) as [->|]; auto. }
  destruct Hs as [Hn Hn' Hprev _ Hder|pd st Hn -> _ Hpd Hne _|pd Hn -> Hpd|pd src now Hn -> Hpd].
  - eapply visible_commit; [done|done|by apply effective_no_pending| |done].
    exists (tp_current_metadata_location p). split; [by apply effective_no_pending|done].
  - apply Hsilent. rewrite (effective_no_pending m t p) by done.
    rewrite (effective_pending m' t _ pd Hq') by done. rewrite Hst, Hpd.
    rewrite decide_False by congruence. done.
  - apply Hsilent. rewrite (effective_pending m t p pd), decide_False by done.
    by rewrite (effective_no_pending m' t _ Hq').
  - apply Hsilent. rewrite (effective_pending m t p pd), decide_True by done.
    rewrite (effective_no_pending m' t _ Hq'); unfold finalize_pending_with_source; by rewrite Hn.
Qed.

Lemma visible_commit_point h T o r :
  iceberg_inv h -> uuid_canonical T = true -> from_slice (so_data o) = Some r ->
  tr_status r = TxCommitted -> commit_point h T r ->
  visible_step (replay h) (<[transaction_record_path T := o]> (replay h))
    (Wrote (transaction_record_path T) o).
Proof.
  intros Hi HT Hr Hst [Hplace Hlist Hput]. set (m := replay h) in *. set (m' := <[_ := o]> m).
  assert (forall t, pointer_of m' t = pointer_of m t) as Hptr.
  { intros t. apply pointer_of_write. apply not_eq_sym, pointer_not_transaction. }
  assert (tx_status m' T = Some TxCommitted) as HT'.
  { unfold tx_status, m'. rewrite record_of_written, Hr. simpl. congruence. }
  eapply visible_transaction; [done|done|done| |].
  - intros e He. destruct (Hput e He) as (o' & pd & Hin & Hh & Hloc).
    destruct (Hplace _ _ _ Hin Hh) as (p & Hp & Hpd). destruct Hh as (_ & _ & _ & <-).
    rewrite (effective_pending m' _ p pd), decide_True, Hloc; [done|done|by rewrite Hptr|done].
  - intros t Hno. unfold effective. rewrite Hptr.
    destruct (pointer_of m t) as [p|] eqn:Ep; [|done]. simpl.
    destruct (tp_pending p) as [pd|] eqn:Epd; [|done].
    destruct (decide (pp_tx_id pd = T)) as [E|Hne].
    + destruct (pending_written _ _ _ _ Ep Epd) as (o' & Ho' & Hh). rewrite E in Hh.
      destruct (Hlist _ _ _ Ho' Hh) as (e & He & Ht & _). by destruct (Hno e).
    + unfold tx_status, m'. rewrite record_of_write; [done|].
      by intros ?%transaction_record_path_inj.
Qed.

Lemma visible_legal h e :
  iceberg_inv h -> legal h e -> visible_step (replay h) (replay (h ++ [e])) e.
Proof.
  intros Hi Hl. rewrite replay_snoc.
  assert (forall path o, ~ protected path \/ (exists t k, path = idempotency_marker_path t (hash_key k)) ->
    visible_step (replay h) (<[path := o]> (replay h)) (Wrote path o)) as Hquiet.
  { intros path o Hpath. constructor. intros t. apply effective_same; [done| |].
    - apply pointer_of_write. intros ->. destruct Hpath as [Hn|(t' & k & E)].
      + by destruct Hn; constructor.
      + by destruct (pointer_not_marker t t' (hash_key k)).
    - intros T HT. unfold tx_status. rewrite record_of_write; [done|]. intros ->.
      destruct Hpath as [Hn|(t' & k & E)]; [by destruct Hn; constructor|].
      by destruct (transaction_not_marker T t' (hash_key k)). }
  destruct Hl as [path o Hp|path t o q -> Hno Hq Hn|path t o p q -> Hp Hq Hs
    |path T o r -> HT Hno Hr Hid Hst|path T o r r' -> HT Hr Hr' Hid [Hf Hc]|path t k o m -> |path t k o m m' ->].
  - apply Hquiet. by left.
  - eapply visible_create; [done|done| | |].
    + unfold effective, pointer_of. by rewrite Hno.
    + apply effective_no_pending; [|done]. by rewrite pointer_of_written.
    + intros t' Hne. apply effective_same; [done|apply pointer_of_write; by intros ?%pointer_path_inj|].
      intros T _. unfold tx_status. by rewrite record_of_write by apply pointer_not_transaction.
  - by eapply visible_pointer_step.
  - constructor. intros t. apply effective_same; [done| |].
    + apply pointer_of_write, not_eq_sym, pointer_not_transaction.
    + intros T' _. unfold tx_status. destruct (decide (T' = T)) as [->|Hne].
      * rewrite record_of_written, Hr. unfold record_of. rewrite Hno. simpl. rewrite Hst. naive_solver.
      * rewrite record_of_write; [done|]. by intros ?%transaction_record_path_inj.
  - destruct (decide (tr_status r' = TxCommitted)) as [Hcm|Hncm].
    { eapply visible_commit_point; eauto. }
    constructor. intros t. apply effective_same; [done| |].
    + apply pointer_of_write, not_eq_sym, pointer_not_transaction.
    + intros T' _. unfold tx_status. destruct (decide (T' = T)) as [->|Hne].
      * rewrite record_of_written, Hr', Hr. simpl. split; intros; simplify_eq; congruence.
      * rewrite record_of_write; [done|]. by intros ?%transaction_record_path_inj.
  - apply Hquiet. right. eauto.
  - apply Hquiet. right. eauto.
Qed.

(** A reader that finds a pointer at one time and the transaction's status later takes a
    location that was the table's in between. *)
Lemma effective_between h h' t p pd :
  iceberg_inv h' -> h `prefix_of` h' -> pointer_of (replay h) t = Some p -> tp_pending p = Some pd ->
  exists h1, h `prefix_of` h1 /\ h1 `prefix_of` h' /\
    effective (replay h1) t =
      Some (if decide (tx_status (replay h') (pp_tx_id pd) = Some TxCommitted)
            then pp_metadata_location pd else tp_current_metadata_location p).
Proof.
  intros Hi Hpre Hp Hpd. set (T := pp_tx_id pd).
  destruct (pending_written _ _ _ _ Hp Hpd) as (o & Ho & Hh).
  assert (iceberg_inv h) as Hi0 by (by eapply iceberg_inv_prefix).
  destruct (inv_holds _ _ _ _ _ Hi0 Ho Hh) as (HT & _).
  destruct (decide (tx_status (replay h') T = Some TxCommitted)) as [Hc|Hnc].
  - destruct (commit_seen h h' T) as [Hc0|(h1 & o1 & r & Hp1 & Hp2 & Hr & Hst & Hcp)]; [done..| |].
    + exists h. split_and!; [done..|]. by rewrite (effective_pending _ t p pd), decide_True.
    + exists (h1 ++ [Wrote (transaction_record_path T) o1]).
      split_and!; [by apply prefix_app_r|done|]. rewrite replay_snoc.
      destruct (cp_in_place _ _ _ Hcp t o pd) as (p' & Hp' & Hpd'); [|done|].
      { destruct Hp1 as [k ->]. apply elem_of_app. by left. }
      rewrite (effective_pending _ t p' pd), decide_True; [done| | |done].
      * unfold tx_status. rewrite record_of_written, Hr. simpl. congruence.
      * rewrite pointer_of_write; [done|]. apply not_eq_sym, pointer_not_transaction.
  - exists h. split_and!; [done..|]. rewrite (effective_pending _ t p pd), decide_False; [done| |done..].
    intros Hc. destruct (status_mono _ _ _ _ Hi Hpre HT Hc) as (st & Hst & [?|E]); [done|]. by subst st.
Qed.
End Invariant.
