(* ===== verification/IcebergSafety.v ===== *)
(** The single-table commit keeps the invariant.

    Specifications of the stores and of [commit_table], for a process that shares the
    catalog with any others.  Every program of this file is polite: it respects the
    tokens of all transactions, so that a coordinator can call it too. *)

From S2P Require Import Prelude Storage Interleave Events Canonical Scoped IcebergTypes IcebergMeta IcebergMetaProps IcebergStore IcebergCommit IcebergTx IcebergInvariant.
From stdpp Require Import options.
Import Ownership.

(** A transaction's token exists once its record does. *)
Definition tx_claimed (h : list change) (T : string) : Prop :=
  exists o, Wrote (transaction_record_path T) o ∈ h.

Lemma tx_claimed_mono h h' T : tx_claimed h T -> h `prefix_of` h' -> tx_claimed h' T.
Proof. intros [o Ho] [k ->]. exists o. set_solver. Qed.

(** Follow what happened from one world to the next. *)
Ltac chain :=
  cbv beta in *;
  lazymatch goal with
  | |- Ownership.rely _ _ ?w ?w => reflexivity
  | |- Ownership.rely _ _ _ _ =>
      match goal with
      | H : Ownership.rely _ _ ?w ?w1 |- Ownership.rely _ _ ?w _ => etrans; [exact H|chain]
      end
  | |- world_le ?w ?w => reflexivity
  | |- world_le _ _ =>
      match goal with
      | H : world_le ?w ?w1 |- world_le ?w _ => etrans; [exact H|chain]
      | H : Ownership.rely _ _ ?w ?w1 |- world_le ?w _ =>
          etrans; [exact (rl_le _ _ _ _ H)|chain]
      end
  | |- w_history ?w `prefix_of` w_history ?w' =>
      apply wl_history; chain
  end.

Section Safety.
Context `{Hashes, Chrono, DateFormat, ToValue}.
Context `{PJ : Json IcebergTablePointer, MJ : Json IdempotencyMarker, TJ : Json TransactionRecord}.
Context `{DJ : Json TableMetadata, VJ : Json Value, RJ : Json PendingReceipt, CJ : Json CommittedReceipt}.
Context (tenant workspace : string) (timeout : Z).

(** What a process may write that does not hold the token of [T]: it may abort the
    transaction; it does not place the transaction's updates, and it leaves those that
    are in place alone while the transaction is being prepared. *)
Definition others_may (T : string) (h : list change) (e : change) : Prop :=
  match e with
  | Deleted _ => True
  | Wrote path o =>
      uuid_canonical T = true ->
      (path = transaction_record_path T -> is_Some (replay h !! path) ->
         exists r : TransactionRecord, from_slice (so_data o) = Some r /\ tr_status r = TxAborted) /\
      (forall t, path = pointer_path t ->
         (forall pd, ~ holds T o pd) /\
         (forall p pd, pointer_of (replay h) t = Some p -> tp_pending p = Some pd ->
            pp_tx_id pd = T -> tx_status (replay h) T <> Some TxPreparing))
  end.

Abbreviation inv := (iceberg_inv tenant workspace).
Abbreviation world_ok := (world_ok inv).
Abbreviation rely := (rely others_may).
Abbreviation wp := (wpo inv tx_claimed others_may).
Abbreviation spec := (spec inv tx_claimed others_may).
Implicit Types (own : string -> Prop) (w : world).

Lemma world_ok_objects w : world_ok w -> w_objects w = replay (w_history w).
Proof. intros [Hwf _]. apply (ww_replay w Hwf). Qed.

Lemma rely_le own w w' : rely own w w' -> world_le w w'.
Proof. apply rl_le. Qed.
Hint Resolve rely_le : core.

Lemma others_may_unprotected T h path o : ~ protected path -> others_may T h (Wrote path o).
Proof.
  intros Hp HT. split.
  - intros ->. by destruct Hp; constructor.
  - intros t ->. by destruct Hp; constructor.
Qed.

Lemma others_may_marker T h t k o : others_may T h (Wrote (idempotency_marker_path t k) o).
Proof.
  intros _. split.
  - intros E. by apply eq_sym, transaction_not_marker in E.
  - intros t' E. by apply eq_sym, pointer_not_marker in E.
Qed.

(** ** What a process knows of an object it loaded *)

(** [v] is a version the object had, [a] contents it had then or later. *)
Definition knows {A} `{Json A} (path : string) (a : A) (v : string) (w : world) : Prop :=
  exists o1 o2, v = pretty (so_version o1) /\ Wrote path o1 ∈ w_history w /\
    Wrote path o2 ∈ w_history w /\ (so_version o1 <= so_version o2)%Z /\
    from_slice (so_data o2) = Some a.

Lemma knows_le {A} `{Json A} path (a : A) v w w' :
  knows path a v w -> world_le w w' -> knows path a v w'.
Proof.
  intros (o1 & o2 & -> & Ho1 & Ho2 & Hv & Ha) Hle. exists o1, o2.
  split_and!; [done|by eapply written_le|by eapply written_le|done|done].
Qed.

(** A conditional write that succeeds replaces what was loaded. *)
Lemma knows_cas {A} `{Json A} path (a : A) v w :
  world_ok w -> (w_counter w < i64_max)%Z -> knows path a v w ->
  precondition_failure (w_objects w !! path) (MatchesVersion v) = None ->
  exists o, w_objects w !! path = Some o /\ from_slice (so_data o) = Some a.
Proof.
  intros [Hwf _] Hc (o1 & o2 & -> & Ho1 & Ho2 & Hv & Ha) Hpre.
  destruct (cas_current_read w path o1 o2) as [Hcur ->]; [done|lia|done..|]. by exists o1.
Qed.

Lemma knows_pointer t p v w :
  world_ok w -> (w_counter w < i64_max)%Z -> knows (pointer_path t) p v w ->
  precondition_failure (w_objects w !! pointer_path t) (MatchesVersion v) = None ->
  pointer_of (replay (w_history w)) t = Some p.
Proof.
  intros Hok Hc Hk Hpre. destruct (knows_cas _ _ _ _ Hok Hc Hk Hpre) as (o & Ho & Hp).
  unfold pointer_of. rewrite <- world_ok_objects by done. by rewrite Ho.
Qed.

Lemma pointer_of_knows t p w0 w :
  world_ok w0 -> world_le w0 w -> pointer_of (replay (w_history w0)) t = Some p ->
  exists v, knows (pointer_path t) p v w.
Proof.
  intros Hok Hle (o & Ho & Hp)%pointer_written. exists (pretty (so_version o)), o, o.
  split_and!; [done| | |lia|done]; by eapply written_le.
Qed.

Lemma knows_record T r v w :
  world_ok w -> (w_counter w < i64_max)%Z -> knows (transaction_record_path T) r v w ->
  precondition_failure (w_objects w !! transaction_record_path T) (MatchesVersion v) = None ->
  record_of (replay (w_history w)) T = Some r.
Proof.
  intros Hok Hc Hk Hpre. destruct (knows_cas _ _ _ _ Hok Hc Hk Hpre) as (o & Ho & Hp).
  unfold record_of. rewrite <- world_ok_objects by done. by rewrite Ho.
Qed.

Lemma knows_marker t k m v w :
  world_ok w -> (w_counter w < i64_max)%Z -> knows (idempotency_marker_path t (hash_key k)) m v w ->
  precondition_failure (w_objects w !! idempotency_marker_path t (hash_key k)) (MatchesVersion v) = None ->
  marker_of (replay (w_history w)) t k = Some m.
Proof.
  intros Hok Hc Hk Hpre. destruct (knows_cas _ _ _ _ Hok Hc Hk Hpre) as (o & Ho & Hp).
  unfold marker_of. rewrite <- world_ok_objects by done. by rewrite Ho.
Qed.

(** The object was there with these contents at a time between two worlds. *)
Definition read_between {A} `{Json A} own path w (a : A) w' : Prop :=
  exists w1 o, world_ok w1 /\ rely own w w1 /\ rely own w1 w' /\
    w_objects w1 !! path = Some o /\ from_slice (so_data o) = Some a.

(** ** The stores *)

Lemma load_spec {A} `{Json A} sk own what path w :
  world_ok w ->
  spec sk own (load_object (A := A) what path) (fun r w' => rely own w w' /\
    match r with
    | Ok (Some (a, v)) => knows path a v w' /\ read_between own path w a w'
    | Ok None => exists w1, world_ok w1 /\ rely own w w1 /\ rely own w1 w' /\
                   w_objects w1 !! path = None
    | Err _ => True
    end) w.
Proof.
  intros Hw. unfold load_object. apply wpo_head. intros w1 Hok1 Hle1. cbv beta.
  split; [|intros w2 Hok2 Hle2; split; [done|split; [by etrans|done]]].
  destruct (w_objects w1 !! path) as [o1|] eqn:Ho1; cbn [fmap option_fmap option_map].
  2:{ intros w2 Hok2 Hle2. split; [done|]. split; [by etrans|]. eauto. }
  apply wpo_get. intros w2 Hok2 Hle2.
  split; [|intros w3 Hok3 Hle3; split; [done|split; [by do 2 (etrans; [done|])|done]]].
  unfold mb_get. destruct (mb_objects (w_backend w2) !! path) as [o2|] eqn:Ho2.
  2:{ intros w3 Hok3 Hle3. split; [done|split; [by do 2 (etrans; [done|])|done]]. }
  destruct (from_slice (so_data o2)) as [a|] eqn:Ea.
  2:{ intros w3 Hok3 Hle3. split; [done|split; [by do 2 (etrans; [done|])|done]]. }
  intros w3 Hok3 Hle3. split; [done|]. split; [by do 2 (etrans; [done|])|]. split.
  - exists o1, o2. cbn [om_version object_meta]. destruct Hok1 as [Hwf1 _], Hok2 as [Hwf2 _].
    assert (Wrote path o1 ∈ w_history w2).
    { eapply written_le; [by eapply rely_le|]. by apply stored_written. }
    split_and!; [done| | | |done].
    + by eapply written_le; [by eapply rely_le|].
    + eapply written_le; [by eapply rely_le|]. by apply stored_written.
    + by eapply (stored_newest w2 path).
  - exists w2, o2. split_and!; [done|by etrans|done..].
Qed.

(** What a successful write leaves: the world it was made in and the one after it. *)
Definition wrote {A} `{Json A} own path (a : A) (pre : WritePrecondition) w v w' : Prop :=
  exists w0 w1 o, world_ok w0 /\ world_ok w1 /\ rely own w w0 /\ world_le w0 w1 /\
    w_history w1 = w_history w0 ++ [Wrote path o] /\
    ((w_counter w0 < i64_max)%Z /\ precondition_failure (w_objects w0 !! path) pre = None) /\
    from_slice (so_data o) = Some a /\ v = pretty (so_version o) /\ rely own w1 w'.

Lemma wrote_knows {A} `{Json A} own path (a : A) pre w v w' :
  wrote own path a pre w v w' -> knows path a v w'.
Proof.
  intros (w0 & w1 & o & _ & _ & _ & _ & Hh & _ & Ha & -> & Hle). exists o, o.
  assert (Wrote path o ∈ w_history w').
  { eapply written_le; [by eapply rely_le|]. rewrite Hh. set_solver. }
  split_and!; [done..|lia|done].
Qed.

(** A polite write. *)
Lemma write_spec {A} `{HJ : Json A, !JsonLaws A} sk own verb what path (a : A) pre w :
  (forall w' o, world_ok w' -> rely own w w' -> (w_counter w' < i64_max)%Z ->
     precondition_failure (w_objects w' !! path) pre = None -> from_slice (so_data o) = Some a ->
     legal tenant workspace (w_history w') (Wrote path o) /\
     forall T, others_may T (w_history w') (Wrote path o)) ->
  spec sk own (write_object verb what path a pre) (fun r w' => rely own w w' /\
    match r with
    | Ok (WriteSuccess v) => wrote own path a pre w v w'
    | Ok (WritePreconditionFailed cur) => exists w1 o, world_ok w1 /\ rely own w w1 /\ rely own w1 w' /\
        precondition_failure (w_objects w1 !! path) pre = Some cur /\ (pre = DoesNotExist ->
          w_objects w1 !! path = Some o /\ cur = pretty (so_version o))
    | Err _ => True
    end) w.
Proof.
  intros Hlegal. unfold write_object. destruct (to_vec a) as [bytes|] eqn:Ea.
  2:{ intros w' Hok Hle. done. }
  apply wpo_put.
  - intros w1 cur Hok1 Hle1 Hpre w' Hok' Hle'. split; [done|]. split; [by etrans|].
    destruct (w_objects w1 !! path) as [o|] eqn:Ho.
    + exists w1, o. split_and!; [done..|by rewrite Ho|]. intros ->. simpl in Hpre. by simplify_eq.
    + exists w1, (mkStoredObject "" 0 0). split_and!; [done..|by rewrite Ho|]. by intros ->.
  - intros w1 Hok1 Hle1 w' Hok' Hle'. split; [done|]. split; [by etrans|done].
  - intros w1 o Hok1 Hle1 Hc Hpre Hdata Hver.
    assert (from_slice (so_data o) = Some a) as Hread.
    { rewrite Hdata. by apply from_slice_to_vec. }
    destruct (Hlegal w1 o Hok1 Hle1 Hc Hpre Hread) as [Hl Ho].
    split_and!; [apply iceberg_inv_snoc; split; [apply Hok1|done]|by intros|].
    intros w2 Hok2 Hle2 Hh Hobj.
    assert (rely own w w2) by (etrans; [done|]; by eapply rely_snoc).
    split.
    + exists own. split; [apply acquires_refl|]. intros w' Hok' Hle'. split; [done|].
      split; [by etrans|]. exists w1, w2, o. by split_and!.
    + intros w' Hok' Hle'. split; [done|]. split; [by etrans|done].
Qed.

(** A file written once. *)
Lemma put_once_spec sk own path data w :
  ~ protected path ->
  spec sk own (put_object path data DoesNotExist) (fun r w' => rely own w w' /\
    match r with
    | Ok (WriteSuccess _) => exists o, w_objects w' !! path = Some o /\ so_data o = data
    | Ok _ => is_Some (w_objects w' !! path)
    | Err _ => True
    end) w.
Proof.
  intros Hp.
  assert (forall w1 w', world_ok w1 -> world_ok w' -> world_le w1 w' -> is_Some (w_objects w1 !! path) ->
    is_Some (w_objects w' !! path)) as Hstay.
  { intros w1 w' Hok1 Hok' Hle. rewrite !world_ok_objects by done.
    eapply inv_stays; [apply Hok'|apply Hle]. }
  apply (wpo_put _ _ _ sk own path data DoesNotExist Ret).
  - intros w1 cur Hok1 Hle1 Hpre w' Hok' Hle'. split; [done|]. split; [by etrans|].
    eapply (Hstay w1); [done..|by eapply rely_le|]. simpl in Hpre. by destruct (w_objects w1 !! path).
  - intros w1 Hok1 Hle1 w' Hok' Hle'. split; [done|]. split; [by etrans|done].
  - intros w1 o Hok1 Hle1 Hc Hpre Hdata _.
    assert (w_objects w1 !! path = None) as Hnone.
    { simpl in Hpre. by destruct (w_objects w1 !! path). }
    assert (forall T, others_may T (w_history w1) (Wrote path o)).
    { intros T. by apply others_may_unprotected. }
    split_and!; [|by intros|].
    { apply iceberg_inv_snoc. split; [apply Hok1|]. apply legal_other; [done|].
      by rewrite <- world_ok_objects. }
    intros w2 Hok2 Hle2 Hh Hobj.
    assert (rely own w w2) by (etrans; [done|]; by eapply rely_snoc).
    split.
    + exists own. split; [apply acquires_refl|]. intros w' Hok' Hle'. split; [done|].
      split; [by etrans|]. exists o. split; [|done]. rewrite world_ok_objects by done.
      eapply (inv_file_same _ _ (w_history w2)); [apply Hok'|by apply wl_history, (rely_le own)|done|].
      rewrite <- world_ok_objects by done. by rewrite Hobj, lookup_insert_eq.
    + intros w' Hok' Hle'. split; [done|]. split; [by etrans|done].
Qed.
(** ** Transactions that are pending on a table *)

Lemma status_rely own w w' T st :
  world_ok w' -> rely own w w' -> uuid_canonical T = true -> st <> TxPreparing ->
  tx_status (replay (w_history w)) T = Some st -> tx_status (replay (w_history w')) T = Some st.
Proof.
  intros [_ Hi] Hle HT Hne Hst.
  destruct (status_mono _ _ _ _ _ _ Hi (wl_history _ _ (rely_le _ _ _ Hle)) HT Hst)
    as (st' & Hst' & Hor).
  destruct Hor; congruence.
Qed.

Lemma knows_pending t p v w pd :
  world_ok w -> knows (pointer_path t) p v w -> tp_pending p = Some pd ->
  uuid_canonical (pp_tx_id pd) = true /\ tx_claimed (w_history w) (pp_tx_id pd).
Proof.
  intros [_ Hi] (o1 & o2 & _ & _ & Ho & _ & Hp) Hpd.
  assert (holds (pp_tx_id pd) o2 pd) as Hh by (by exists p).
  destruct (inv_holds _ _ _ _ _ _ _ Hi Ho Hh) as (HT & _ & h1 & h2 & st & -> & Hst).
  split; [done|]. unfold tx_status, record_of in Hst.
  destruct (replay h1 !! _) as [o|] eqn:E; [|done]. apply replay_elem in E.
  exists o. set_solver.
Qed.

Lemma tx_load_spec sk own T w :
  world_ok w -> uuid_canonical T = true -> tx_claimed (w_history w) T ->
  spec sk own (tx_load T) (fun r w' => rely own w w' /\
    match r with
    | Ok (Some (rec, v)) =>
        knows (transaction_record_path T) rec v w' /\ tr_tx_id rec = T /\
        (exists w1, world_ok w1 /\ rely own w w1 /\ rely own w1 w' /\
           record_of (replay (w_history w1)) T = Some rec)
    | Ok None => False
    | Err _ => True
    end) w.
Proof.
  intros Hw HT [o Ho]. eapply spec_mono; [|by apply load_spec]. cbv beta.
  intros [[[rec v]|]|e] w' Hok' [Hle Hr]; [|split; [done|]|done].
  - destruct Hr as [Hk (w1 & o1 & Hok1 & Hle1 & Hle1' & Ho1 & Hp1)]. split_and!; [done|done| |].
    + destruct Hok1 as [Hwf1 Hi1]. apply stored_written in Ho1; [|done].
      destruct (inv_record _ _ _ _ _ Hi1 HT Ho1) as (r & Hr & <-). congruence.
    + exists w1. split_and!; [done..|]. unfold record_of.
      rewrite <- world_ok_objects, Ho1 by done. done.
  - destruct Hr as (w1 & Hok1 & Hle1 & _ & Hnone).
    assert (is_Some (w_objects w1 !! transaction_record_path T)) as [? ?]; [|congruence].
    rewrite world_ok_objects by done. eapply inv_written_stays; [apply Hok1|].
    by eapply written_le; [by eapply rely_le|].
Qed.

(** A record that was read as settled is so from then on. *)
Lemma read_settled own T rec w1 w' :
  uuid_canonical T = true -> world_ok w' -> rely own w1 w' ->
  record_of (replay (w_history w1)) T = Some rec -> tr_status rec <> TxPreparing ->
  tx_status (replay (w_history w')) T = Some (tr_status rec).
Proof.
  intros HT Hok Hle Hrec Hne. eapply status_rely; [done..|].
  unfold tx_status. by rewrite Hrec.
Qed.

Context `{PL : !JsonLaws IcebergTablePointer, ML : !JsonLaws IdempotencyMarker}.
Context `{TL : !JsonLaws TransactionRecord, DL : !JsonLaws TableMetadata}.

(** A polite conditional write of a pointer. *)
Lemma pointer_cas_spec sk own t v (p q : IcebergTablePointer) w :
  knows (pointer_path t) p v w -> tp_pending q = None ->
  (forall w', world_ok w' -> rely own w w' -> pointer_of (replay (w_history w')) t = Some p ->
     pointer_step tenant workspace (replay (w_history w')) p q /\
     (forall pd, tp_pending p = Some pd ->
        tx_status (replay (w_history w')) (pp_tx_id pd) <> Some TxPreparing)) ->
  world_ok w ->
  spec sk own (pointer_compare_and_swap t v q) (fun r w' => rely own w w' /\
    match r with
    | Ok (CasSuccess _) => exists w1, world_le w w1 /\ world_le w1 w' /\
        pointer_of (replay (w_history w1)) t = Some q
    | _ => True
    end) w.
Proof using PL ML TL.
  intros Hk Hq Hstep Hw. unfold pointer_compare_and_swap.
  eapply spec_try; [done|eapply (write_spec (A := IcebergTablePointer))| |].
  - intros w1 o Hok1 Hle1 Hc Hpre Ho.
    assert (pointer_of (replay (w_history w1)) t = Some p) as Hp.
    { eapply knows_pointer; [done..| |done]. eapply knows_le; [done|by eapply rely_le]. }
    destruct (Hstep w1 Hok1 Hle1 Hp) as [Hs Hno]. split; [by eapply legal_pointer|].
    intros T HT. split; [by intros ?%pointer_not_transaction|].
    intros t' ->%pointer_path_inj. split.
    + intros pd (q' & Hq' & Hpd & _). congruence.
    + intros p' pd Hp' Hpd <-. rewrite Hp in Hp'. simplify_eq. by apply Hno.
  - intros res w' Hok' [Hle Hr] w2 Hok2 Hle2. split; [done|]. split; [by etrans|].
    destruct res as [v'|cur]; [|done]. simpl.
    destruct Hr as (w0 & w1 & o & Hok0 & Hok1 & Hle0 & Hle1 & Hh & _ & Ho & _ & Hle3).
    exists w1. split_and!.
    + etrans; [by eapply rely_le|done].
    + etrans; by eapply rely_le.
    + rewrite Hh, replay_snoc. by rewrite pointer_of_written.
  - intros e w' Hok' [Hle _] w2 Hok2 Hle2. split; [done|]. split; [by etrans|done].
Qed.

Section Pending.
Context (t : Uuid) (p : IcebergTablePointer) (v : string) (pd : PendingPointerUpdate).
Context (Hpd : tp_pending p = Some pd).

Lemma clear_spec sk own w :
  world_ok w -> knows (pointer_path t) p v w ->
  tx_status (replay (w_history w)) (pp_tx_id pd) = Some TxAborted ->
  spec sk own (pointer_compare_and_swap t v (without_pending p)) (fun _ w' => rely own w w') w.
Proof using PL ML TL Hpd.
  intros Hw Hk Hst. destruct (knows_pending _ _ _ _ _ Hw Hk Hpd) as [HT _].
  eapply spec_mono; [|apply (pointer_cas_spec sk own t v p); [done|done| |done]].
  { by intros r w' _ [Hle _]. }
  intros w' Hok' Hle' Hp.
  assert (tx_status (replay (w_history w')) (pp_tx_id pd) = Some TxAborted) as Hst'.
  { by eapply status_rely. }
  split; [eapply step_clear; [done|done|by rewrite Hst']|].
  intros pd' Hpd'. simplify_eq. by rewrite Hst'.
Qed.

Lemma finalize_spec sk own source now w :
  world_ok w -> knows (pointer_path t) p v w ->
  tx_status (replay (w_history w)) (pp_tx_id pd) = Some TxCommitted ->
  spec sk own (pointer_compare_and_swap t v (finalize_pending_with_source p source now))
    (fun _ w' => rely own w w') w.
Proof using PL ML TL Hpd.
  intros Hw Hk Hst. destruct (knows_pending _ _ _ _ _ Hw Hk Hpd) as [HT _].
  eapply spec_mono; [|apply (pointer_cas_spec sk own t v p); [done| | |done]].
  { by intros r w' _ [Hle _]. }
  { unfold finalize_pending_with_source. by rewrite Hpd. }
  intros w' Hok' Hle' Hp.
  assert (tx_status (replay (w_history w')) (pp_tx_id pd) = Some TxCommitted) as Hst'.
  { by eapply status_rely. }
  split; [by eapply step_finalize|]. intros pd' Hpd'. simplify_eq. by rewrite Hst'.
Qed.
End Pending.

(** Aborting a transaction that was being prepared at the version named. *)
Lemma abort_spec sk own T r0 r v reason now w :
  world_ok w -> uuid_canonical T = true -> tr_tx_id r = T -> tr_status r0 = TxPreparing ->
  knows (transaction_record_path T) r0 v w ->
  spec sk own (tx_compare_and_swap (tx_abort r reason now) v) (fun res w' => rely own w w' /\
    match res with
    | Ok (CasSuccess _) => tx_status (replay (w_history w')) T = Some TxAborted
    | _ => True
    end) w.
Proof using PL ML TL.
  intros Hw HT Hid Hst Hk. unfold tx_compare_and_swap.
  eapply spec_try; [done|eapply (write_spec (A := TransactionRecord))| |].
  - cbn [tx_abort tr_tx_id put_field]. rewrite Hid. intros w1 o Hok1 Hle1 Hc Hpre Ho.
    assert (record_of (replay (w_history w1)) T = Some r0) as Hr.
    { eapply knows_record; [done..| |done]. eapply knows_le; [done|by eapply rely_le]. }
    split.
    + eapply legal_record; [done..|]. by split.
    + intros T' HT'. split.
      * intros _ _. by exists (tx_abort r reason now).
      * intros t' E. by apply eq_sym, pointer_not_transaction in E.
  - intros res w' Hok' [Hle Hr] w2 Hok2 Hle2. split; [done|]. split; [by etrans|].
    destruct res as [v'|cur]; [|done]. simpl.
    destruct Hr as (w0 & w1 & o & Hok0 & Hok1 & Hle0 & Hle1 & Hh & _ & Ho & _ & Hle3).
    cbn [tx_abort tr_tx_id put_field] in Hh. rewrite Hid in Hh.
    eapply (status_rely own w1); [done|by etrans|done|done|].
    rewrite Hh, replay_snoc. unfold tx_status. by rewrite record_of_written, Ho.
  - intros e w' Hok' [Hle _] w2 Hok2 Hle2. split; [done|]. split; [by etrans|done].
Qed.

(** A program that ends here keeps what its caller knew. *)
Lemma ret_spec sk {A} own (a : A) (P : A -> world -> Prop) w :
  (forall w', world_ok w' -> rely own w w' -> P a w') -> spec sk own (Ret a) P w.
Proof. intros HP w' Hok Hle. split; [done|]. by apply HP. Qed.

(** [f(..)?] in a program. *)
Lemma try_lift {E F A B} (conv : E -> F) (r : result E A) (f : A -> io (result F B)) :
  try_with conv (lift r) f = match r with Ok a => f a | Err e => Ret (Err (conv e)) end.
Proof. by destruct r. Qed.

Lemma handle_pending_spec sk own t p v w :
  world_ok w -> knows (pointer_path t) p v w ->
  spec sk own (handle_pending_transaction t p v) (fun r w' => rely own w w' /\
    match r with Ok None => tp_pending p = None | _ => True end) w.
Proof using PL ML TL.
  intros Hw Hk. unfold handle_pending_transaction.
  destruct (tp_pending p) as [pd|] eqn:Hpd; [|by apply ret_spec].
  destruct (knows_pending _ _ _ _ _ Hw Hk Hpd) as [HT Hcl].
  assert (forall w1, world_ok w1 -> rely own w w1 ->
    tx_status (replay (w_history w1)) (pp_tx_id pd) = Some TxAborted ->
    spec sk own (_ ← pointer_compare_and_swap t v (without_pending p); Ret (Ok (E := CommitError) (Some PRetry)))
      (fun r w' => rely own w w' /\ match r with Ok None => Some pd = None | _ => True end) w1) as Hclear.
  { intros w1 Hok1 Hle1 Hst. eapply spec_bind; [done|eapply (clear_spec t p v pd); [done|done| |done]|].
    - eapply knows_le; [done|chain].
    - intros ? w2 Hok2 Hle2. apply ret_spec. intros w3 Hok3 Hle3. split; [chain|done]. }
  eapply spec_try; [done|by eapply tx_load_spec| |].
  2:{ intros e w1 Hok1 [Hle1 _]. apply ret_spec. intros w2 Hok2 Hle2. split; [chain|done]. }
  intros [[rec tv]|] w1 Hok1 [Hle1 Hr]; [|done].
  destruct Hr as (Hkr & Hid & w0 & Hok0 & Hle0 & Hle01 & Hrec).
  assert (knows (pointer_path t) p v w1) as Hk1 by (eapply knows_le; [done|chain]).
  destruct (tr_status rec) eqn:Est.
  - apply wpo_now. intros w2 Hok2 Hle2. destruct (tx_is_stale _ _ _).
    2:{ apply ret_spec. intros w3 Hok3 Hle3. split; [chain|done]. }
    apply wpo_now. intros w3 Hok3 Hle3.
    eapply spec_try; [done|eapply (abort_spec sk own (pp_tx_id pd)); [done..|]| |].
    + eapply knows_le; [done|chain].
    + intros [v'|cur] w4 Hok4 [Hle4 Hst].
      * apply Hclear; [done| |done]. chain.
      * apply ret_spec. intros w5 Hok5 Hle5. split; [chain|done].
    + intros e w4 Hok4 [Hle4 _]. apply ret_spec. intros w5 Hok5 Hle5.
      split; [chain|done].
  - assert (tx_status (replay (w_history w1)) (pp_tx_id pd) = Some TxCommitted) as Hst.
    { rewrite <- Est. eapply (read_settled own); [done..|by rewrite Est]. }
    apply wpo_now. intros w2 Hok2 Hle2.
    eapply spec_try; [done|eapply (finalize_spec t p v pd); [done|done| |]| |].
    + eapply knows_le; [done|chain].
    + by eapply status_rely.
    + intros res w3 Hok3 Hle3. apply ret_spec. intros w4 Hok4 Hle4. split; [chain|done].
    + intros e w3 Hok3 Hle3. apply ret_spec. intros w4 Hok4 Hle4. split; [chain|done].
  - apply Hclear; [done..|]. rewrite <- Est. eapply (read_settled own); [done..|by rewrite Est].
Qed.

(** ** Readers *)

Lemma resolve_spec sk own t p w0 w :
  world_ok w0 -> world_ok w -> rely own w0 w -> pointer_of (replay (w_history w0)) t = Some p ->
  spec sk own (resolve_effective_metadata_location p) (fun r w' => rely own w w' /\
    match r with
    | Ok eff => exists h1, w_history w0 `prefix_of` h1 /\ h1 `prefix_of` w_history w' /\
        effective (replay h1) t = Some (ep_metadata_location eff)
    | Err _ => True
    end) w.
Proof using PL ML TL.
  intros Hok0 Hw Hle0 Hp. unfold resolve_effective_metadata_location.
  destruct (tp_pending p) as [pd|] eqn:Hpd.
  2:{ apply ret_spec. intros w' Hok Hle. split; [done|]. exists (w_history w0). split_and!; [done| |].
      - chain.
      - by apply effective_no_pending. }
  destruct (pointer_of_knows _ _ _ w Hok0 (rely_le _ _ _ Hle0) Hp) as [v Hk].
  destruct (knows_pending _ _ _ _ _ Hw Hk Hpd) as [HT Hcl].
  eapply spec_try; [done|by eapply tx_load_spec| |].
  2:{ intros e w1 Hok1 [Hle1 _]. apply ret_spec. intros w2 Hok2 Hle2. split; [chain|done]. }
  intros [[rec tv]|] w1 Hok1 [Hle1 Hr]; [|done].
  destruct Hr as (_ & _ & w2 & Hok2 & Hle2 & Hle21 & Hrec).
  assert (w_history w0 `prefix_of` w_history w2) as Hpre02 by chain.
  destruct (effective_between tenant workspace _ _ t p pd (proj2 Hok2) Hpre02 Hp Hpd)
    as (h1 & Hh1 & Hh2 & He).
  assert (forall w3, rely own w1 w3 -> h1 `prefix_of` w_history w3) as Hpre.
  { intros w3 Hle3. etrans; [done|]. chain. }
  unfold tx_status in He. rewrite Hrec in He. simpl in He.
  destruct (decide (tr_status rec = TxCommitted)) as [Hst|Hst];
    apply ret_spec; intros w3 Hok3 Hle3; (split; [chain|]);
    exists h1; (split_and!; [done|by apply Hpre|]).
  - by rewrite decide_True in He by congruence.
  - rewrite decide_False in He by congruence. done.
Qed.

(** ** Markers *)

Lemma was_effective_le w w' t loc :
  was_effective (w_history w) t loc -> world_le w w' -> was_effective (w_history w') t loc.
Proof. intros (h1 & Hp & He) Hle. exists h1. split; [|done]. etrans; [done|apply Hle]. Qed.

Lemma marker_cas_spec sk own t k m m' v w :
  world_ok w -> knows (idempotency_marker_path t (hash_key k)) m v w -> im_status m = MInProgress ->
  marker_for t k m' -> marker_sound (w_history w) t m' ->
  spec sk own (marker_finalize m' v) (fun r w' => rely own w w' /\
    match r with
    | Ok (CasSuccess v') => knows (idempotency_marker_path t (hash_key k)) m' v' w'
    | _ => True
    end) w.
Proof using PL ML TL.
  intros Hw Hk Hst [Ht Hkh] Hs. unfold marker_finalize, marker_path. rewrite Ht, Hkh.
  eapply spec_try; [done|eapply (write_spec (A := IdempotencyMarker))| |].
  - intros w1 o Hok1 Hle1 Hc Hpre Ho. split; [|intros T; apply others_may_marker].
    eapply legal_marker; [done| |done|done|done|].
    + eapply knows_marker; [done..| |done]. eapply knows_le; [done|chain].
    + intros Hcm. destruct (Hs Hcm) as (loc & Hloc & He). exists loc. split; [done|].
      by eapply was_effective_le; [done|chain].
  - intros res w' Hok' [Hle Hr] w2 Hok2 Hle2. split; [done|]. split; [chain|].
    destruct res as [v'|cur]; [|done]. eapply knows_le; [by eapply wrote_knows|chain].
  - intros e w' Hok' [Hle _] w2 Hok2 Hle2. split; [done|]. split; [chain|done].
Qed.

Lemma claim_spec sk own t k m w :
  world_ok w -> marker_for t k m -> im_status m = MInProgress ->
  spec sk own (claim m) (fun r w' => rely own w w' /\
    match r with
    | Ok (ClaimSuccess v) => knows (idempotency_marker_path t (hash_key k)) m v w'
    | Ok (ClaimExists m' v) => knows (idempotency_marker_path t (hash_key k)) m' v w' /\
        marker_for t k m' /\ marker_sound (w_history w') t m'
    | Err _ => True
    end) w.
Proof using PL ML TL.
  intros Hw [Ht Hkh] Hst. unfold claim, marker_path, marker_load. rewrite Ht, Hkh.
  set (path := idempotency_marker_path t (hash_key k)).
  eapply spec_try; [done|eapply (write_spec (A := IdempotencyMarker))| |].
  - intros w1 o Hok1 Hle1 Hc Hpre Ho. split; [|intros T; apply others_may_marker].
    eapply legal_marker_new; [done| |done|by split|done].
    rewrite <- world_ok_objects by done. simpl in Hpre. unfold path in Hpre.
    by destruct (w_objects w1 !! _).
  - intros [v|cur] w1 Hok1 [Hle1 Hr].
    { apply ret_spec. intros w2 Hok2 Hle2. split; [chain|].
      eapply knows_le; [by eapply wrote_knows|chain]. }
    destruct Hr as (w0 & o & Hok0 & Hle0 & Hle01 & _ & Hcur).
    destruct (Hcur eq_refl) as [Ho ->]. clear Hcur.
    eapply spec_try; [done|by apply load_spec| |].
    2:{ intros e w2 Hok2 [Hle2 _]. apply ret_spec. intros w3 Hok3 Hle3.
        split; [chain|done]. }
    intros [[m' v']|] w2 Hok2 [Hle2 Hr]; apply ret_spec; intros w3 Hok3 Hle3;
      (split; [chain|]); [|done].
    destruct Hr as [_ (w4 & o4 & Hok4 & Hle4 & Hle42 & Ho4 & Hm')].
    assert (Wrote path o4 ∈ w_history w3) as Hin4.
    { eapply (written_le w4); [chain|]. apply stored_written; [apply Hok4|done]. }
    assert (Wrote path o ∈ w_history w4) as Hin.
    { eapply (written_le w0); [chain|]. apply stored_written; [apply Hok0|done]. }
    split.
    + exists o, o4. split_and!; [done| |done| |done].
      * eapply (written_le w4); [chain|done].
      * eapply (stored_newest w4); [apply Hok4|done..].
    + destruct (inv_marker _ _ _ _ _ _ (proj2 Hok3) Hin4) as (m2 & Hm2 & Hf & Hs).
      rewrite Hm2 in Hm'. by simplify_eq.
  - intros e w' Hok' [Hle _] w2 Hok2 Hle2. split; [done|]. split; [chain|done].
Qed.

(** ** Programs that only read or write files of their own *)

Lemma apply_updates_spec sk own m us w :
  world_ok w -> spec sk own (apply_updates m us) (fun r w' => rely own w w' /\
    match r with Ok m' => applies m us m' | Err _ => True end) w.
Proof.
  revert m w. induction us as [|u us IH]; intros m w Hw; simpl.
  { apply ret_spec. intros w' _ Hle'. split; [done|constructor]. }
  apply wpo_now. intros w1 Hok1 Hle1. destruct (apply_update _ m u) as [m'|e] eqn:Eu.
  - eapply spec_mono; [|by apply IH]. intros r w' _ [Hle' Hr]. split; [chain|].
    destruct r; [by econstructor|done].
  - apply ret_spec. intros w' _ Hle'. split; [chain|done].
Qed.

Lemma read_spec sk own {A B} path (conv : Error -> B) (f : Bytes -> io (result B A))
    (P : result B A -> world -> Prop) w :
  (forall e w', world_ok w' -> rely own w w' -> P (Err (conv e)) w') ->
  (forall bytes w', world_ok w' -> rely own w w' -> spec sk own (f bytes) P w') ->
  spec sk own (try_with conv (get_object path) f) P w.
Proof.
  intros Herr Hf. apply wpo_get. intros w1 Hok1 Hle1. split.
  - destruct (mb_get _ _) as [bytes|e]; [by apply Hf|]. apply ret_spec. intros w2 Hok2 Hle2.
    apply Herr; [done|]. chain.
  - apply ret_spec. intros w2 Hok2 Hle2. apply Herr; [done|]. chain.
Qed.

Lemma load_metadata_spec sk own loc ten ws w :
  world_ok w -> spec sk own (load_metadata loc ten ws) (fun _ w' => rely own w w') w.
Proof.
  intros Hw. unfold load_metadata. destruct (resolve_metadata_path loc ten ws) as [path|e];
    [|by apply ret_spec]. apply read_spec; [done|].
  intros bytes w1 Hok1 Hle1. destruct (from_slice bytes); apply ret_spec; intros w2 Hok2 Hle2; chain.
Qed.

(** Reading a metadata file that is there. *)
Lemma read_stored_spec sk own {A B} loc path (conv : Error -> B) (f : Bytes -> io (result B A))
    (P : result B A -> world -> Prop) w :
  world_ok w -> stored tenant workspace (replay (w_history w)) loc ->
  resolve_metadata_path loc tenant workspace = Ok path ->
  (forall e w', world_ok w' -> rely own w w' -> P (Err (conv e)) w') ->
  (forall bytes w', world_ok w' -> rely own w w' ->
     (forall md w2, from_slice bytes = Some md -> world_ok w2 -> rely own w' w2 ->
        metadata_at tenant workspace (replay (w_history w2)) loc = Some md) ->
     spec sk own (f bytes) P w') ->
  spec sk own (try_with conv (get_object path) f) P w.
Proof.
  intros Hw Hst Hr Herr Hf. pose proof Hst as (path' & Hr' & [o Ho] & Hp).
  rewrite Hr in Hr'. injection Hr' as <-.
  apply wpo_get. intros w1 Hok1 Hle1.
  split; [|apply ret_spec; intros w2 Hok2 Hle2; apply Herr; [done|chain]].
  assert (replay (w_history w1) !! path = Some o) as Ho1.
  { eapply inv_file_same; [apply Hok1|by apply wl_history, (rely_le own)|done..]. }
  unfold mb_get. rewrite <- world_ok_objects in Ho1 by done. unfold w_objects in Ho1. rewrite Ho1.
  apply Hf; [done..|]. intros md w2 E Hok2 Hle2.
  eapply (metadata_at_mono _ _ (w_history w)); [apply Hok2|chain|done|].
  unfold metadata_at. by rewrite Hr, Ho.
Qed.

Lemma load_base_spec sk own loc w :
  world_ok w -> stored tenant workspace (replay (w_history w)) loc ->
  spec sk own (load_metadata loc tenant workspace) (fun r w' => rely own w w' /\
    match r with
    | Ok md => metadata_at tenant workspace (replay (w_history w')) loc = Some md
    | Err _ => True
    end) w.
Proof.
  intros Hw Hst. pose proof Hst as (path & Hr & _). unfold load_metadata. rewrite Hr.
  apply (read_stored_spec sk own loc); [done..|].
  intros bytes w1 Hok1 Hle1 Hmd. destruct (from_slice bytes) as [md|] eqn:E; apply ret_spec;
    intros w2 Hok2 Hle2; (split; [chain|]); [|done]. by apply Hmd.
Qed.

Lemma response_spec sk own loc ten ws w :
  world_ok w -> spec sk own (response_from_location loc ten ws) (fun r w' => rely own w w' /\
    match r with Ok resp => cr_metadata_location resp = loc | Err _ => True end) w.
Proof.
  intros Hw. unfold response_from_location. destruct (resolve_metadata_path loc ten ws) as [path|e];
    [|by apply ret_spec]. apply read_spec; [done|].
  intros bytes w1 Hok1 Hle1. destruct (from_slice bytes); apply ret_spec; intros w2 Hok2 Hle2;
    (split; [chain|done]).
Qed.

Lemma pending_receipt_spec sk own m k sid src w :
  world_ok w -> spec sk own (write_pending_receipt m k sid src) (fun _ w' => rely own w w') w.
Proof.
  intros Hw. apply wpo_now. intros w1 Hok1 Hle1. destruct (to_vec _) as [bytes|].
  - eapply spec_bind; [done|apply put_once_spec, receipt_not_protected|].
    intros r w2 Hok2 [Hle2 _]. apply ret_spec. intros w3 Hok3 Hle3. chain.
  - apply ret_spec. intros w2 Hok2 Hle2. chain.
Qed.

Lemma committed_receipt_spec sk own m loc prev sid src w :
  world_ok w -> spec sk own (write_committed_receipt m loc prev sid src) (fun _ w' => rely own w w') w.
Proof.
  intros Hw. apply wpo_now. intros w0 Hok0 Hle0. apply wpo_now. intros w1 Hok1 Hle1.
  destruct (to_vec _) as [bytes|].
  - eapply spec_bind; [done|apply put_once_spec, receipt_not_protected|].
    intros r w2 Hok2 [Hle2 _]. apply ret_spec. intros w3 Hok3 Hle3. chain.
  - apply ret_spec. intros w2 Hok2 Hle2. chain.
Qed.

Lemma load_pointer_spec sk own c w :
  world_ok w -> spec sk own (load_pointer c) (fun r w' => rely own w w' /\
    match r with
    | Ok (p, v) => knows (pointer_path (cc_table_uuid c)) p v w' /\
        exists w0, world_ok w0 /\ rely own w w0 /\ rely own w0 w' /\
          pointer_of (replay (w_history w0)) (cc_table_uuid c) = Some p
    | Err _ => True
    end) w.
Proof.
  intros Hw. unfold load_pointer. eapply spec_try; [done|by apply load_spec| |].
  - intros [[p v]|] w1 Hok1 [Hle1 Hr]; apply ret_spec; intros w2 Hok2 Hle2; (split; [chain|]); [|done].
    destruct Hr as [Hk (w0 & o & Hok0 & Hle0 & Hle01 & Ho & Hp)].
    split; [eapply knows_le; [done|chain]|]. exists w0. split_and!; [done..|chain|].
    unfold pointer_of. by rewrite <- world_ok_objects, Ho by done.
  - intros e w1 Hok1 [Hle1 _]. apply ret_spec. intros w2 Hok2 Hle2. split; [chain|done].
Qed.

(** ** The commit *)

Section One.
Context (c : CommitCall).

Abbreviation t := (cc_table_uuid c).
Abbreviation k := (cc_idempotency_key c).
Abbreviation mpath := (idempotency_marker_path t (hash_key k)).

(** The marker in hand: ours, in progress, for a location the catalog built. *)
Record holds_marker (m : IdempotencyMarker) (v : string) (w : world) : Prop := {
  hm_knows : knows mpath m v w;
  hm_status : im_status m = MInProgress;
  hm_for : marker_for t k m;
  hm_location : ends_with ".metadata.json" (im_metadata_location m)
}.

Lemma holds_marker_le m v w w' : holds_marker m v w -> world_le w w' -> holds_marker m v w'.
Proof. intros [] Hle. split; [by eapply knows_le|done..]. Qed.

Definition committed_ok (r : cresult CommitTableResponse) (w : world) : Prop :=
  match r with
  | Ok resp => was_effective (w_history w) t (cr_metadata_location resp)
  | Err _ => True
  end.

Lemma finalize_failed_spec sk own m v err w :
  world_ok w -> holds_marker m v w ->
  spec sk own (finalize_failed_marker timeout m v err) (fun _ w' => rely own w w') w.
Proof using PL ML TL.
  intros Hw Hm. unfold finalize_failed_marker. destruct (negb _); [by apply ret_spec|].
  apply wpo_now. intros w1 Hok1 Hle1. destruct Hm as [Hk Hs Hf Hl].
  eapply spec_try; [done|eapply (marker_cas_spec sk own t k m); [done| |done|by destruct Hf|done]| |].
  - eapply knows_le; [done|chain].
  - intros [v'|cur] w2 Hok2 [Hle2 _]; apply ret_spec; intros w3 Hok3 Hle3; chain.
  - intros e w2 Hok2 [Hle2 _]. apply ret_spec. intros w3 Hok3 Hle3. chain.
Qed.

Lemma fail_commit_spec sk own m v err w :
  world_ok w -> holds_marker m v w ->
  spec sk own (fail_commit timeout m v err) (fun r w' => rely own w w' /\ committed_ok r w') w.
Proof using PL ML TL.
  intros Hw Hm. eapply spec_try; [done|by apply finalize_failed_spec| |].
  - intros ? w1 Hok1 Hle1. apply ret_spec. intros w2 Hok2 Hle2. split; [chain|done].
  - intros e w1 Hok1 Hle1. apply ret_spec. intros w2 Hok2 Hle2. split; [chain|done].
Qed.

Lemma finalize_committed_spec sk own m v now w :
  world_ok w -> holds_marker m v w -> was_effective (w_history w) t (im_metadata_location m) ->
  spec sk own (finalize_committed_marker timeout (finalize_committed m (im_metadata_location m) now) v)
    (fun _ w' => rely own w w') w.
Proof using PL ML TL.
  intros Hw [Hk Hs Hf Hl] He. unfold finalize_committed_marker.
  eapply spec_try; [done|eapply (marker_cas_spec sk own t k m); [done..|by destruct Hf|]| |].
  - intros _. by exists (im_metadata_location m).
  - intros [v'|cur] w2 Hok2 [Hle2 _]; [apply ret_spec; intros w3 Hok3 Hle3; chain|].
    eapply spec_try; [done|by apply load_spec| |].
    + intros ex w3 Hok3 [Hle3 _]. destruct (option_bool _ ex); apply ret_spec;
        intros w4 Hok4 Hle4; chain.
    + intros e w3 Hok3 [Hle3 _]. apply ret_spec. intros w4 Hok4 Hle4. chain.
  - intros e w2 Hok2 [Hle2 _]. apply ret_spec. intros w3 Hok3 Hle3. chain.
Qed.

Lemma publish_spec sk own p v m mv md w :
  world_ok w -> knows (pointer_path t) p v w -> tp_pending p = None -> holds_marker m mv w ->
  stored tenant workspace (replay (w_history w)) (tp_current_metadata_location p) ->
  stored tenant workspace (replay (w_history w)) (im_metadata_location m) ->
  derives tenant workspace (replay (w_history w)) (tp_current_metadata_location p)
    (im_metadata_location m) ->
  spec sk own (publish_commit timeout c p v m mv md) (fun r w' => rely own w w' /\ committed_ok r w') w.
Proof using PL ML TL.
  intros Hw Hk Hn Hm Hsp Hst Hder. unfold publish_commit. apply wpo_now. intros w1 Hok1 Hle1.
  unfold try_commit at 1. rewrite try_lift.
  destruct (pointer_from_metadata _ p md m _) as [q|e] eqn:Hq.
  2:{ apply ret_spec. intros w2 Hok2 Hle2. split; [chain|done]. }
  assert (tp_pending q = None /\ tp_current_metadata_location q = im_metadata_location m /\
    tp_previous_metadata_location q = Some (tp_current_metadata_location p)) as (Hqn & Hqc & Hqp).
  { unfold pointer_from_metadata in Hq. destruct (pointer_refs _); by simplify_eq. }
  eapply spec_try; [done|eapply (pointer_cas_spec sk own t v p q); [|done| |done]| |].
  - eapply knows_le; [done|chain].
  - intros w2 Hok2 Hle2 Hp. split; [|by rewrite Hn]. apply step_commit; [done..| |].
    + rewrite Hqc. eapply stored_mono; [apply Hok2| |done]. chain.
    + rewrite Hqc. eapply derives_mono; [apply Hok2| |done..]. chain.
  - intros [v'|cur] w2 Hok2 [Hle2 Hr].
    2:{ eapply spec_mono; [|apply fail_commit_spec; [done|]].
        - intros r w3 _ [Hle3 Hr3]. split; [chain|done].
        - eapply holds_marker_le; [done|chain]. }
    destruct Hr as (w3 & Hle3 & Hle32 & Hp3).
    assert (was_effective (w_history w2) t (im_metadata_location m)) as He.
    { exists (w_history w3). split; [apply Hle32|]. rewrite <- Hqc. by apply effective_no_pending. }
    eapply spec_bind; [done|by apply committed_receipt_spec|]. intros r4 w4 Hok4 Hle4.
    apply wpo_now. intros w5 Hok5 Hle5.
    eapply spec_try; [done|apply finalize_committed_spec; [done| |]| |].
    + eapply holds_marker_le; [done|chain].
    + eapply was_effective_le; [done|chain].
    + intros ? w6 Hok6 Hle6. destruct (to_value md) as [value|]; apply ret_spec;
        intros w7 Hok7 Hle7; (split; [chain|]); [|done].
      eapply was_effective_le; [done|chain].
    + intros e w6 Hok6 Hle6. apply ret_spec. intros w7 Hok7 Hle7. split; [chain|done].
  - intros e w2 Hok2 [Hle2 _]. apply ret_spec. intros w3 Hok3 Hle3. split; [chain|done].
Qed.
Context (Htenant : cc_tenant c = tenant) (Hworkspace : cc_workspace c = workspace).
Context (hex_no_dot : forall k, str_contains "." (sha256_hex k) = false).

Lemma commit_claimed_spec sk own p v base m mv w :
  world_ok w -> knows (pointer_path t) p v w -> tp_pending p = None ->
  stored tenant workspace (replay (w_history w)) (tp_current_metadata_location p) ->
  metadata_at tenant workspace (replay (w_history w)) (tp_current_metadata_location p) = Some base ->
  holds_marker m mv w ->
  spec sk own (commit_claimed timeout c p v base m mv)
    (fun r w' => rely own w w' /\ committed_ok r w') w.
Proof using PL ML TL DL Htenant Hworkspace hex_no_dot.
  intros Hw Hk Hn Hsp Hbase Hm. unfold commit_claimed.
  assert (forall err w1, world_ok w1 -> rely own w w1 ->
    spec sk own (fail_commit timeout m mv err) (fun r w' => rely own w w' /\ committed_ok r w') w1)
    as Hfail.
  { intros err w1 Hok1 Hle1. eapply spec_mono; [|apply fail_commit_spec; [done|]].
    - intros r w2 _ [Hle2 Hr]. split; [chain|done].
    - eapply holds_marker_le; [done|chain]. }
  destruct (validate_requirements base _) as [[]|err] eqn:Hreq; [|by apply Hfail].
  eapply spec_bind; [done|by apply apply_updates_spec|]. intros [md|err] w1 Hok1 [Hle1 Happ];
    [|by apply Hfail].
  apply wpo_now. intros w2 Hok2 Hle2. unfold try_commit. rewrite try_lift.
  destruct (resolve_metadata_path _ _ _) as [path|e] eqn:Hpath.
  2:{ apply ret_spec. intros w3 Hok3 Hle3. split; [chain|done]. }
  destruct (to_vec _) as [bytes|] eqn:Hbytes.
  2:{ apply ret_spec. intros w3 Hok3 Hle3. split; [chain|done]. }
  rewrite Htenant, Hworkspace in Hpath.
  assert (~ protected path) as Hprot.
  { eapply metadata_not_protected; [done|by eapply hm_location|done]. }
  eapply spec_bind; [done|by apply put_once_spec|]. intros [[v'|cur]|e] w3 Hok3 [Hle3 Hr].
  - eapply spec_bind; [done|by apply pending_receipt_spec|]. intros ? w4 Hok4 Hle4.
    destruct Hr as (o & Ho & Hdata). rewrite (world_ok_objects w3 Hok3) in Ho.
    assert (stored tenant workspace (replay (w_history w3)) (im_metadata_location m)) as Hst3.
    { exists path. split_and!; [done|by rewrite Ho|done]. }
    assert (stored tenant workspace (replay (w_history w3)) (tp_current_metadata_location p)) as Hsp3.
    { eapply stored_mono; [apply Hok3| |done]. chain. }
    eapply spec_mono; [|apply publish_spec; [done| |done| | | |]].
    + intros r w5 _ [Hle5 Hr5]. split; [chain|done].
    + eapply knows_le; [done|chain].
    + eapply holds_marker_le; [done|chain].
    + eapply stored_mono; [apply Hok4| |done]. chain.
    + eapply stored_mono; [apply Hok4| |done]. chain.
    + eapply (derives_mono _ _ (w_history w3)); [apply Hok4|chain|done..|].
      eexists base, (cc_request c), _. split_and!.
      * eapply (metadata_at_mono _ _ (w_history w)); [apply Hok3|chain|done..].
      * unfold metadata_at. rewrite Hpath, Ho. simpl. rewrite Hdata. by apply from_slice_to_vec.
      * split; [done|]. eexists md, _, p. by split.
  - apply Hfail; [done|chain].
  - apply ret_spec. intros w4 Hok4 Hle4. split; [chain|done].
Qed.

Lemma settle_existing_spec sk own n p base m mv w :
  world_ok w -> knows mpath m mv w -> marker_for t k m -> marker_sound (w_history w) t m ->
  spec sk own (settle_existing timeout c n p base m mv) (fun r w' => rely own w w' /\
    match r with
    | Ok (EReturn resp) => was_effective (w_history w') t (cr_metadata_location resp)
    | Ok (EProceed m' v') => holds_marker m' v' w'
    | _ => True
    end) w.
Proof using PL ML TL Htenant Hworkspace hex_no_dot.
  intros Hw Hk Hf Hs. unfold settle_existing.
  case_decide; [by apply ret_spec|]. destruct (im_status m) eqn:Est.
  - eapply spec_try; [done|by apply load_pointer_spec| |].
    2:{ intros e w1 Hok1 [Hle1 _]. apply ret_spec. intros w2 Hok2 Hle2. split; [chain|done]. }
    intros [cp cv] w1 Hok1 [Hle1 (_ & w0 & Hok0 & Hle0 & Hle01 & Hp)].
    eapply spec_try; [done|by apply (resolve_spec sk own t cp w0)| |].
    2:{ intros e w2 Hok2 [Hle2 _]. apply ret_spec. intros w3 Hok3 Hle3. split; [chain|done]. }
    intros eff w2 Hok2 [Hle2 (h1 & _ & Hh1 & Heff)]. case_decide as Hloc.
    + eapply spec_try; [done|by apply response_spec| |].
      2:{ intros e w3 Hok3 [Hle3 _]. apply ret_spec. intros w4 Hok4 Hle4. split; [chain|done]. }
      intros resp w3 Hok3 [Hle3 Hresp]. apply wpo_now. intros w4 Hok4 Hle4.
      assert (forall w', rely own w2 w' ->
        was_effective (w_history w') t (cr_metadata_location resp)) as He.
      { intros w' Hle'. exists h1. split; [|by rewrite Hresp, <- Hloc].
        etrans; [done|]. chain. }
      eapply spec_bind; [done|eapply (marker_cas_spec sk own t k m); [done| |done|by destruct Hf|]|].
      * eapply knows_le; [done|chain].
      * intros _. eexists. split; [done|]. apply He. chain.
      * intros ? w5 Hok5 [Hle5 _]. eapply spec_bind; [done|by apply committed_receipt_spec|].
        intros ? w6 Hok6 Hle6. apply ret_spec. intros w7 Hok7 Hle7. split; [chain|]. apply He. chain.
    + apply wpo_now. intros w3 Hok3 Hle3. destruct (marker_is_stale _ _ _).
      2:{ apply ret_spec. intros w4 Hok4 Hle4. split; [chain|done]. }
      unfold try_commit at 1. rewrite try_lift.
      destruct (build_takeover_metadata_location _ _ _ _) as [loc|e] eqn:Hb.
      2:{ apply ret_spec. intros w4 Hok4 Hle4. split; [chain|done]. }
      apply wpo_now. intros w4 Hok4 Hle4. destruct Hf as [Hf1 Hf2].
      eapply spec_try; [done|eapply (marker_cas_spec sk own t k m); [done| |done|by split|]| |].
      * eapply knows_le; [done|chain].
      * intros Hcm. cbn in Hcm. congruence.
      * intros [v'|cur] w5 Hok5 [Hle5 Hr]; apply ret_spec; intros w6 Hok6 Hle6; (split; [chain|]); [|done].
        split; [eapply knows_le; [done|chain]|done|by split|].
        by eapply build_takeover_metadata_location_suffix.
      * intros e w5 Hok5 [Hle5 _]. apply ret_spec. intros w6 Hok6 Hle6. split; [chain|done].
  - destruct (Hs Est) as (loc & Hloc & He). unfold response_from_marker. rewrite Hloc. simpl default.
    eapply spec_try; [done|by apply response_spec| |].
    + intros resp w1 Hok1 [Hle1 Hresp]. apply ret_spec. intros w2 Hok2 Hle2. split; [chain|].
      rewrite Hresp. eapply was_effective_le; [done|chain].
    + intros e w1 Hok1 [Hle1 _]. apply ret_spec. intros w2 Hok2 Hle2. split; [chain|done].
  - by apply ret_spec.
Qed.

Lemma commit_loop_spec sk own n w :
  world_ok w -> spec sk own (commit_loop timeout c n) (fun r w' => rely own w w' /\ committed_ok r w') w.
Proof using PL ML TL DL Htenant Hworkspace hex_no_dot.
  revert w. induction n as [|n IH]; intros w Hw; simpl; [by apply ret_spec|].
  assert (forall w1, world_ok w1 -> rely own w w1 ->
    spec sk own (commit_loop timeout c n) (fun r w' => rely own w w' /\ committed_ok r w') w1) as Hnext.
  { intros w1 Hok1 Hle1. eapply spec_mono; [|by apply IH]. intros r w2 _ [Hle2 Hr]. split; [chain|done]. }
  assert (forall e w1, world_ok w1 -> rely own w w1 ->
    spec sk own (Ret (Err e)) (fun r w' => rely own w w' /\ committed_ok r w') w1) as Herr.
  { intros e w1 Hok1 Hle1. apply ret_spec. intros w2 Hok2 Hle2. split; [chain|done]. }
  eapply spec_try; [done|by apply load_pointer_spec| |]; [|intros e w1 Hok1 [Hle1 _]; by apply Herr].
  intros [p v] w1 Hok1 [Hle1 [Hk (w0 & Hok0 & Hle0 & Hle01 & Hp)]].
  destruct (validate_version p) as [msg|]; [by apply Herr|].
  eapply spec_try; [done|by apply handle_pending_spec| |];
    [|intros e w2 Hok2 [Hle2 _]; apply Herr; [done|chain]].
  intros [[|secs]|] w2 Hok2 [Hle2 Hn]; [apply Hnext; [done|chain]|apply Herr; [done|chain]|].
  assert (stored tenant workspace (replay (w_history w2)) (tp_current_metadata_location p)) as Hsp.
  { eapply (stored_mono _ _ (w_history w0)); [apply Hok2|chain|]. eapply pointer_stored; [apply Hok0|done]. }
  rewrite Htenant, Hworkspace.
  eapply spec_try; [done|by apply load_base_spec| |];
    [|intros e w3 Hok3 [Hle3 _]; apply Herr; [done|chain]].
  intros base w3 Hok3 [Hle3 Hbase]. unfold try_commit at 1. rewrite try_lift.
  destruct (build_metadata_location _ _ _) as [loc|e] eqn:Hloc; [|apply Herr; [done|chain]].
  apply wpo_now. intros w4 Hok4 Hle4.
  eapply spec_try; [done|by apply (claim_spec sk own t k)| |];
    [|intros e w5 Hok5 [Hle5 _]; apply Herr; [done|chain]].
  assert (forall m mv w5, world_ok w5 -> rely own w4 w5 -> holds_marker m mv w5 ->
    spec sk own (commit_claimed timeout c p v base m mv)
      (fun r w' => rely own w w' /\ committed_ok r w') w5) as Hgo.
  { intros m mv w5 Hok5 Hle5 Hm.
    eapply spec_mono; [|apply commit_claimed_spec; [done| |done| | |done]].
    - intros r w6 _ [Hle6 Hr]. split; [chain|done].
    - eapply knows_le; [done|chain].
    - eapply stored_mono; [apply Hok5| |done]. chain.
    - eapply (metadata_at_mono _ _ (w_history w3)); [apply Hok5|chain| |done].
      eapply stored_mono; [apply Hok3| |done]. chain. }
  intros [mv|m mv] w5 Hok5 [Hle5 Hr].
  - apply Hgo; [done..|]. split; [done|done|done|by eapply build_metadata_location_suffix].
  - destruct Hr as (Hkm & Hf & Hs). eapply spec_try; [done|by apply settle_existing_spec| |];
      [|intros e w6 Hok6 [Hle6 _]; apply Herr; [done|chain]].
    intros [resp| |m' mv'] w6 Hok6 [Hle6 Hr].
    + apply ret_spec. intros w7 Hok7 Hle7. split; [chain|]. eapply was_effective_le; [done|chain].
    + apply Hnext; [done|chain].
    + apply Hgo; [done|chain|done].
Qed.
End One.
End Safety.
