(* ===== verification/IcebergTxSafety.v ===== *)
(** Multi-table transactions keep the invariant and commit all their tables at once.

    The coordinator that created a transaction's record holds its token: nobody else
    commits the transaction, places its updates, or removes them while it is being
    prepared.  So at the write that commits the record every update is in place. *)

From S2P Require Import Prelude Storage Interleave Events Canonical Scoped IcebergTypes IcebergMeta IcebergStore IcebergCommit IcebergTx IcebergInvariant IcebergSafety.
From stdpp Require Import options.
Import Ownership.

Section TxSafety.
Context `{Hashes, Chrono, UuidCrate}.
Context `{PJ : Json IcebergTablePointer, MJ : Json IdempotencyMarker, TJ : Json TransactionRecord}.
Context `{DJ : Json TableMetadata}.
Context (tenant workspace : string) (config : CoordinatorConfig).

Abbreviation inv := (iceberg_inv tenant workspace).
Abbreviation world_ok := (world_ok inv).
Abbreviation rely := (rely others_may).
Abbreviation wp := (wpo inv tx_claimed others_may).
Abbreviation spec := (spec inv tx_claimed others_may).
Implicit Types (own : string -> Prop) (w : world) (h : list change).

(** ** The tables of a committed record *)

Definition visible_at h (outs : list TableCommitOutput) : Prop :=
  forall out, out ∈ outs ->
    effective (replay h) (to_table_uuid out) = Some (to_metadata_location out).

(** All at one moment. *)
Definition all_visible h (outs : list TableCommitOutput) : Prop :=
  exists h1, h1 `prefix_of` h /\ visible_at h1 outs.

Lemma all_visible_le w w' outs :
  all_visible (w_history w) outs -> world_le w w' -> all_visible (w_history w') outs.
Proof. intros (h1 & Hp & Hv) Hle. exists h1. split; [|done]. etrans; [done|apply Hle]. Qed.

Lemma commit_visible h T o r :
  from_slice (so_data o) = Some r -> tr_status r = TxCommitted -> commit_point h T r ->
  visible_at (h ++ [Wrote (transaction_record_path T) o]) (entry_output <$> tr_tables r).
Proof.
  intros Hr Hst [Hplace _ Hput] out (e & -> & He)%list_elem_of_fmap. simpl.
  destruct (Hput e He) as (o' & pd & Hin & Hh & Hloc).
  destruct (Hplace _ _ _ Hin Hh) as (p & Hp & Hpd). destruct Hh as (_ & _ & _ & <-).
  rewrite replay_snoc, (effective_pending _ _ p pd), decide_True, Hloc; [done| | |done].
  - unfold tx_status. rewrite record_of_written, Hr. simpl. congruence.
  - rewrite pointer_of_write; [done|]. apply not_eq_sym, pointer_not_transaction.
Qed.

Lemma committed_visible h T r :
  inv h -> uuid_canonical T = true -> record_of (replay h) T = Some r -> tr_status r = TxCommitted ->
  all_visible h (entry_output <$> tr_tables r).
Proof.
  intros Hi HT Hrec Hst. unfold record_of in Hrec.
  apply bind_Some in Hrec as (o & (h1 & h2 & -> & _)%replay_lookup_split & Hr).
  pose proof (Hi h1 _ h2 eq_refl) as Hl.
  apply (legal_record_inv _ _ _ _ T) in Hl as (r' & Hr' & _ & Hc); [|done..]. simplify_eq.
  destruct Hc as [[_ ?]|(r0 & _ & [_ Hcp])]; [congruence|].
  exists (h1 ++ [Wrote (transaction_record_path T) o]). split.
  - rewrite (cons_middle _ h1 h2), app_assoc. by apply prefix_app_r.
  - apply commit_visible; auto.
Qed.

(** ** What the owner of a transaction relies on *)

Section Owner.
Context (T : string) (HT : uuid_canonical T = true).

Lemma rely_preserves own (P : list change -> Prop) w w' :
  (forall h e, inv (h ++ [e]) -> others_may T h e -> P h -> P (h ++ [e])) ->
  own T -> world_ok w' -> rely own w w' -> P (w_history w) -> P (w_history w').
Proof using HT.
  intros Hstep HoT [_ Hi] [[_ _ [k E]] Hresp] HP. rewrite E in *.
  assert (forall k1 k2, k = k1 ++ k2 -> P (w_history w ++ k1)) as Hall.
  { intros k1. induction k1 as [|e k1 IH] using rev_ind; intros k2 ->; [by rewrite app_nil_r|].
    rewrite app_assoc. apply Hstep.
    - eapply iceberg_inv_prefix; [|exact Hi]. exists k2. by rewrite !app_assoc.
    - eapply (Hresp (w_history w ++ k1) e k2); [by rewrite <- !app_assoc|by apply prefix_app_r|done].
    - apply (IH (e :: k2)). by rewrite <- app_assoc. }
  apply (Hall k []). by rewrite app_nil_r.
Qed.

(** The record is there and not committed. *)
Definition live h : Prop := exists st, tx_status (replay h) T = Some st /\ st <> TxCommitted.

(** [placed] are the updates of the transaction: those ever written, all in place while
    it is being prepared. *)
Record mine h (placed : list (Uuid * PendingPointerUpdate)) : Prop := {
  mi_live : live h;
  mi_listed t o pd : Wrote (pointer_path t) o ∈ h -> holds T o pd -> (t, pd) ∈ placed;
  mi_written t pd : (t, pd) ∈ placed -> exists o, Wrote (pointer_path t) o ∈ h /\ holds T o pd;
  mi_placed t pd : (t, pd) ∈ placed -> tx_status (replay h) T = Some TxPreparing ->
    exists p, pointer_of (replay h) t = Some p /\ tp_pending p = Some pd
}.

(** A write that is not the record's keeps the status. *)
Lemma status_elsewhere h path o :
  path <> transaction_record_path T ->
  tx_status (replay (h ++ [Wrote path o])) T = tx_status (replay h) T.
Proof. intros Hne. rewrite replay_snoc. unfold tx_status. by rewrite record_of_write. Qed.

Lemma live_elsewhere h path o :
  path <> transaction_record_path T -> live h -> live (h ++ [Wrote path o]).
Proof. intros Hne (st & Hst & Hn). exists st. by rewrite status_elsewhere. Qed.

Lemma live_step h e : inv (h ++ [e]) -> others_may T h e -> live h -> live (h ++ [e]).
Proof using HT.
  intros [_ Hl]%iceberg_inv_snoc Hm Hlive. destruct e as [path o|path]; [|by apply legal_no_delete in Hl].
  destruct (decide (path = transaction_record_path T)) as [->|Hne]; [|by apply live_elsewhere].
  destruct Hlive as (st & Hst & _). destruct (Hm HT) as [Hrec _].
  destruct Hrec as (r & Hr & Ha); [done| |].
  { unfold tx_status, record_of in Hst. by destruct (replay h !! _). }
  exists TxAborted. split; [|done]. rewrite replay_snoc. unfold tx_status.
  rewrite record_of_written, Hr. simpl. congruence.
Qed.

Lemma mine_step placed h e :
  inv (h ++ [e]) -> others_may T h e -> mine h placed -> mine (h ++ [e]) placed.
Proof using HT.
  intros Hi Hm [Hlive Hlist Hwr Hpl]. pose proof Hi as [_ Hl]%iceberg_inv_snoc.
  split; [by apply live_step| | |].
  - intros t o pd [Hin|<-%list_elem_of_singleton]%elem_of_app Hh; [by eapply Hlist|].
    destruct (Hm HT) as [_ Hp]. by destruct (proj1 (Hp t eq_refl) pd).
  - intros t pd (o & Ho & Hh)%Hwr. exists o. set_solver.
  - intros t pd Hin Hst. assert (tx_status (replay h) T = Some TxPreparing) as Hst0.
    { destruct Hlive as (st & Hst0 & _).
      destruct (status_snoc _ _ _ _ _ _ Hi HT Hst0) as (st' & Hst' & Hor). destruct Hor; congruence. }
    destruct (Hpl t pd Hin Hst0) as (p & Hp & Hpd).
    destruct e as [path o|path]; [|by apply legal_no_delete in Hl]. rewrite replay_snoc.
    destruct (decide (path = pointer_path t)) as [->|Hne]; [|by exists p; rewrite pointer_of_write].
    destruct (Hm HT) as [_ Hptr]. destruct (Hptr t eq_refl) as [_ Hno].
    destruct (Hwr t pd Hin) as (o' & _ & (_ & _ & _ & Hid)). by destruct (Hno p pd Hp Hpd Hid).
Qed.

Lemma live_rely own w w' :
  own T -> world_ok w' -> rely own w w' -> live (w_history w) -> live (w_history w').
Proof using HT. apply rely_preserves, live_step. Qed.

Lemma mine_rely own placed w w' :
  own T -> world_ok w' -> rely own w w' -> mine (w_history w) placed -> mine (w_history w') placed.
Proof using HT. apply (rely_preserves own (fun h => mine h placed)), mine_step. Qed.

(** Placing one more update. *)
Lemma mine_place placed h t o p pd :
  mine h placed -> pointer_of (replay h) t = Some p -> tp_pending p = None ->
  from_slice (so_data o) = Some (with_pending p pd) -> pp_tx_id pd = T ->
  mine (h ++ [Wrote (pointer_path t) o]) (placed ++ [(t, pd)]).
Proof using HT.
  intros [Hlive Hlist Hwr Hpl] Hp Hn Ho Hid.
  assert (holds T o pd) as Hh by (by exists (with_pending p pd)).
  assert (pointer_path t <> transaction_record_path T) as Hne by apply pointer_not_transaction.
  split; [by apply live_elsewhere| | |].
  - intros t' o' pd' [Hin|E%list_elem_of_singleton]%elem_of_app Hh'.
    + apply elem_of_app. left. by eapply Hlist.
    + apply wrote_inj in E as [E ->]. apply pointer_path_inj in E as ->.
      destruct Hh' as (q & Hq & Hpd' & _). rewrite Ho in Hq. simplify_eq.
      apply elem_of_app. right. simpl in Hpd'. simplify_eq. by apply list_elem_of_singleton.
  - intros t' pd' [Hin|E%list_elem_of_singleton]%elem_of_app.
    + destruct (Hwr _ _ Hin) as (o' & Ho' & Hh'). exists o'. set_solver.
    + simplify_eq. exists o. set_solver.
  - intros t' pd' Hin. rewrite status_elsewhere by done. intros Hst. rewrite replay_snoc.
    destruct (decide (t' = t)) as [->|Ht].
    + exists (with_pending p pd). rewrite pointer_of_written. split; [done|].
      apply elem_of_app in Hin as [Hin|E%list_elem_of_singleton]; [|by simplify_eq].
      destruct (Hpl t pd' Hin Hst) as (p' & Hp' & Hpd'). congruence.
    + apply elem_of_app in Hin as [Hin|E%list_elem_of_singleton]; [|by simplify_eq].
      rewrite pointer_of_write by (by intros ?%pointer_path_inj). by apply Hpl.
Qed.

(** The record moves on, still being prepared. *)
Lemma mine_record placed h o r :
  mine h placed -> tx_status (replay h) T = Some TxPreparing ->
  from_slice (so_data o) = Some r -> tr_status r = TxPreparing ->
  mine (h ++ [Wrote (transaction_record_path T) o]) placed.
Proof using HT.
  intros [Hlive Hlist Hwr Hpl] Hst Hr Hrst.
  assert (tx_status (replay (h ++ [Wrote (transaction_record_path T) o])) T = Some TxPreparing) as Hst'.
  { rewrite replay_snoc. unfold tx_status. rewrite record_of_written, Hr. simpl. congruence. }
  split.
  - by exists TxPreparing.
  - intros t o' pd [Hin|E%list_elem_of_singleton]%elem_of_app Hh; [by eapply Hlist|].
    apply wrote_inj in E as [E _]. by apply pointer_not_transaction in E.
  - intros t pd (o' & Ho & Hh)%Hwr. exists o'. set_solver.
  - intros t pd Hin _. destruct (Hpl t pd Hin Hst) as (p & Hp & Hpd). exists p.
    rewrite replay_snoc, pointer_of_write; [done|]. apply not_eq_sym, pointer_not_transaction.
Qed.

(** Nobody placed anything for a transaction that has no record. *)
Lemma mine_new h o r :
  inv h -> replay h !! transaction_record_path T = None ->
  from_slice (so_data o) = Some r -> tr_status r = TxPreparing ->
  mine (h ++ [Wrote (transaction_record_path T) o]) [].
Proof using HT.
  intros Hi Hno Hr Hst. split.
  - exists TxPreparing. split; [|done]. rewrite replay_snoc. unfold tx_status.
    rewrite record_of_written, Hr. simpl. congruence.
  - intros t o' pd [Hin|E%list_elem_of_singleton]%elem_of_app Hh.
    + destruct (inv_holds _ _ _ _ _ _ _ Hi Hin Hh) as (_ & _ & h1 & h2 & st & -> & Hst1).
      unfold tx_status, record_of in Hst1.
      assert (is_Some (replay h1 !! transaction_record_path T)) as Hs.
      { by destruct (replay h1 !! _). }
      eapply (inv_stays _ _ h1) in Hs; [|exact Hi|by apply prefix_app_r].
      rewrite Hno in Hs. by destruct Hs.
    + apply wrote_inj in E as [E _]. by apply pointer_not_transaction in E.
  - by intros t pd ?%elem_of_nil.
  - by intros t pd ?%elem_of_nil.
Qed.
(** ** The owner's writes *)

Context `{PL : !JsonLaws IcebergTablePointer, ML : !JsonLaws IdempotencyMarker}.
Context `{TL : !JsonLaws TransactionRecord}.
Implicit Types (p q : IcebergTablePointer).

(** A write that respects the tokens of the others, if not one's own. *)
Lemma own_write_spec {A} `{HJ : Json A, !JsonLaws A} sk own verb what path (a : A) pre w :
  (forall w' o, world_ok w' -> rely own w w' -> (w_counter w' < i64_max)%Z ->
     precondition_failure (w_objects w' !! path) pre = None -> from_slice (so_data o) = Some a ->
     legal tenant workspace (w_history w') (Wrote path o) /\
     forall T', ~ own T' -> others_may T' (w_history w') (Wrote path o)) ->
  spec sk own (write_object verb what path a pre) (fun r w' =>
    match r with
    | Ok (WriteSuccess v) => wrote tenant workspace own path a pre w v w'
    | Ok (WritePreconditionFailed _) => rely own w w'
    | Err _ => rely own w w' \/ exists v, wrote tenant workspace own path a pre w v w'
    end) w.
Proof.
  intros Hlegal. unfold write_object. destruct (to_vec a) as [bytes|] eqn:Ea.
  2:{ intros w' Hok Hle. split; [done|by left]. }
  apply wpo_put.
  - intros w1 cur Hok1 Hle1 Hpre w' Hok' Hle'. split; [done|]. chain.
  - intros w1 Hok1 Hle1 w' Hok' Hle'. split; [done|]. left. chain.
  - intros w1 o Hok1 Hle1 Hc Hpre Hdata Hver.
    assert (from_slice (so_data o) = Some a) as Hread.
    { rewrite Hdata. by apply from_slice_to_vec. }
    destruct (Hlegal w1 o Hok1 Hle1 Hc Hpre Hread) as [Hl Ho].
    split_and!; [apply iceberg_inv_snoc; split; [apply Hok1|done]|done|].
    intros w2 Hok2 Hle2 Hh Hobj.
    assert (forall w', world_ok w' -> rely own w2 w' ->
      wrote tenant workspace own path a pre w (pretty (so_version o)) w') as Hw.
    { intros w' Hok' Hle'. exists w1, w2, o. by split_and!. }
    split.
    + exists own. split; [apply acquires_refl|]. intros w' Hok' Hle'. split; [done|]. by apply Hw.
    + intros w' Hok' Hle'. split; [done|]. right. eexists. by apply Hw.
Qed.

(** The owner rewrites a pointer that holds its update or none. *)
Lemma own_pointer_cas_spec sk own t v p q w :
  world_ok w -> own T -> live (w_history w) -> knows (pointer_path t) p v w ->
  (forall w', world_ok w' -> rely own w w' -> live (w_history w') ->
     pointer_of (replay (w_history w')) t = Some p ->
     pointer_step tenant workspace (replay (w_history w')) p q) ->
  (forall pd, tp_pending q = Some pd -> pp_tx_id pd = T) ->
  (forall pd, tp_pending p = Some pd -> pp_tx_id pd = T) ->
  spec sk own (pointer_compare_and_swap t v q) (fun r w' => live (w_history w') /\
    match r with
    | Ok (CasSuccess _) => exists w0 w1 o, world_ok w0 /\ world_ok w1 /\ rely own w w0 /\
        pointer_of (replay (w_history w0)) t = Some p /\
        w_history w1 = w_history w0 ++ [Wrote (pointer_path t) o] /\
        from_slice (so_data o) = Some q /\ rely own w1 w'
    | _ => True
    end) w.
Proof using PL ML TL HT.
  intros Hw HoT Hlive Hk Hstep Hq Hp.
  assert (forall w0 w1 w' o, world_ok w0 -> world_ok w' -> rely own w w0 ->
    w_history w1 = w_history w0 ++ [Wrote (pointer_path t) o] -> rely own w1 w' ->
    live (w_history w')) as Hlive'.
  { intros w0 w1 w' o Hok0 Hok' Hle0 Hh Hle'. eapply live_rely; [done..|]. rewrite Hh.
    apply live_elsewhere; [apply pointer_not_transaction|]. by eapply live_rely. }
  unfold pointer_compare_and_swap.
  eapply spec_try; [done|eapply (own_write_spec (A := IcebergTablePointer))| |].
  - intros w1 o Hok1 Hle1 Hc Hpre Ho.
    assert (pointer_of (replay (w_history w1)) t = Some p) as Hcur.
    { eapply knows_pointer; [done..| |done]. eapply knows_le; [done|chain]. }
    split.
    + eapply legal_pointer; [done..|]. apply Hstep; [done..|by eapply live_rely|done].
    + intros T' HT'. intros _. split; [by intros ?%pointer_not_transaction|].
      intros t' ->%pointer_path_inj. split.
      * intros pd (q' & Hq' & Hpd & <-). simplify_eq. by rewrite (Hq pd) in HT'.
      * intros p' pd Hp' Hpd <-. rewrite Hcur in Hp'. simplify_eq. by rewrite (Hp pd) in HT'.
  - intros [v'|cur] w1 Hok1 Hr; apply ret_spec; intros w2 Hok2 Hle2; cbn [cas_result].
    + destruct Hr as (w0 & w3 & o & Hok0 & Hok3 & Hle0 & Hle3 & Hh & [Hc Hpre] & Ho & _ & Hle1).
      split; [eapply Hlive'; [exact Hok0|done|done|exact Hh|chain]|].
      exists w0, w3, o. split_and!; [done..| |done|done|chain].
      eapply knows_pointer; [done|done| |exact Hpre]. eapply knows_le; [done|chain].
    + split; [|done]. eapply (live_rely own w); [done..|chain|done].
  - intros e w1 Hok1 Hr. apply ret_spec. intros w2 Hok2 Hle2. split; [|done].
    destruct Hr as [Hle|(v' & w0 & w3 & o & Hok0 & Hok3 & Hle0 & Hle3 & Hh & [Hc Hpre] & Ho & _ & Hle1)].
    + eapply (live_rely own w); [done..|chain|done].
    + eapply Hlive'; [exact Hok0|done|done|exact Hh|chain].
Qed.
(** ** Preparing *)

Lemma settle_pending_spec sk own t p v pd w :
  world_ok w -> knows (pointer_path t) p v w -> tp_pending p = Some pd ->
  spec sk own (settle_pending config t p v pd) (fun r w' => rely own w w' /\ is_ok r = false) w.
Proof using PL ML TL.
  intros Hw Hk Hpd. unfold settle_pending.
  destruct (knows_pending _ _ _ _ _ _ _ Hw Hk Hpd) as [HT' Hcl].
  assert (forall e w1, world_ok w1 -> rely own w w1 -> spec sk own (Ret (Err e))
    (fun (r : tresult PreparedTable) w' => rely own w w' /\ is_ok r = false) w1) as Herr.
  { intros e w1 Hok1 Hle1. apply ret_spec. intros w2 Hok2 Hle2. split; [chain|done]. }
  assert (forall e w1, world_ok w1 -> rely own w w1 ->
    tx_status (replay (w_history w1)) (pp_tx_id pd) = Some TxAborted ->
    spec sk own (_ ← pointer_compare_and_swap t v (without_pending p); Ret (Err e))
      (fun (r : tresult PreparedTable) w' => rely own w w' /\ is_ok r = false) w1) as Hclear.
  { intros e w1 Hok1 Hle1 Hst.
    eapply spec_bind; [done|eapply (clear_spec _ _ t p v pd); [done|done| |done]|].
    - eapply knows_le; [done|chain].
    - intros ? w2 Hok2 Hle2. apply Herr; [done|chain]. }
  eapply spec_try; [done|by eapply tx_load_spec| |]; [|intros e w1 Hok1 [Hle1 _]; by apply Herr].
  intros [[rec tv]|] w1 Hok1 [Hle1 Hr]; [|done].
  destruct Hr as (Hkr & Hid & w0 & Hok0 & Hle0 & Hle01 & Hrec).
  destruct (tr_status rec) eqn:Est.
  - apply wpo_now. intros w2 Hok2 Hle2. destruct (tx_is_stale _ _ _); [|apply Herr; [done|chain]].
    apply wpo_now. intros w3 Hok3 Hle3.
    eapply spec_try; [done|eapply (abort_spec _ _ sk own (pp_tx_id pd)); [done..|]| |].
    + eapply knows_le; [done|chain].
    + intros [v'|cur] w4 Hok4 [Hle4 Hst]; [apply Hclear|apply Herr]; (done || chain).
    + intros e w4 Hok4 [Hle4 _]. apply Herr; [done|chain].
  - apply wpo_now. intros w2 Hok2 Hle2.
    eapply spec_bind; [done|eapply (finalize_spec _ _ t p v pd); [done|done| |]|].
    + eapply knows_le; [done|chain].
    + rewrite <- Est. eapply (read_settled _ _ own _ _ w0); [done|done|chain|done|by rewrite Est].
    + intros ? w3 Hok3 Hle3. apply Herr; [done|chain].
  - apply Hclear; [done..|]. rewrite <- Est.
    eapply (read_settled _ _ own _ _ w0); [done..|by rewrite Est].
Qed.

Section Prepare.
Context (hex_no_dot : forall k, str_contains "." (sha256_hex k) = false).

Definition prepared_as (prep : PreparedTable) (tp : Uuid * PendingPointerUpdate) : Prop :=
  pt_table_uuid prep = tp.1 /\ pt_new_metadata_location prep = pp_metadata_location tp.2.

Lemma prepare_table_spec sk own input placed w :
  world_ok w -> own T -> mine (w_history w) placed ->
  spec sk own (prepare_table config input T tenant workspace) (fun r w' => live (w_history w') /\
    match r with
    | Ok prep => exists tp, mine (w_history w') (placed ++ [tp]) /\ prepared_as prep tp
    | Err _ => True
    end) w.
Proof using PL ML TL HT hex_no_dot.
  intros Hw HoT Hm. set (t := tc_table_uuid input).
  assert (forall w', world_ok w' -> rely own w w' -> live (w_history w')) as Hlive.
  { intros w' Hok' Hle'. by eapply live_rely, mi_live. }
  assert (forall e w1, world_ok w1 -> rely own w w1 -> spec sk own (Ret (Err e))
    (fun (r : tresult PreparedTable) w' => live (w_history w') /\
      match r with
      | Ok prep => exists tp, mine (w_history w') (placed ++ [tp]) /\ prepared_as prep tp
      | Err _ => True
      end) w1) as Herr.
  { intros e w1 Hok1 Hle1. apply ret_spec. intros w2 Hok2 Hle2. split; [|done].
    apply Hlive; [done|chain]. }
  unfold prepare_table. fold t.
  eapply spec_try; [done|by apply load_spec| |]; [|intros e w1 Hok1 [Hle1 _]; by apply Herr].
  intros [[p v]|] w1 Hok1 [Hle1 Hr]; [|by apply Herr]. destruct Hr as [Hk _].
  destruct (tp_pending p) as [pd|] eqn:Hpd.
  { eapply spec_mono; [|by eapply settle_pending_spec]. intros [a|e] w2 Hok2 [Hle2 Hr]; [done|].
    split; [|done]. apply Hlive; [done|chain]. }
  eapply spec_try; [done|by apply load_metadata_spec| |];
    [|intros e w2 Hok2 Hle2; apply Herr; [done|chain]].
  intros base w2 Hok2 Hle2. unfold try_tx at 1. rewrite try_lift.
  destruct (validate_requirements base _) as [[]|e]; [|apply Herr; [done|chain]].
  eapply spec_try; [done|by apply apply_updates_spec| |];
    [|intros e w3 Hok3 [Hle3 _]; apply Herr; [done|chain]].
  intros md w3 Hok3 [Hle3 _]. apply wpo_now. intros w4 Hok4 Hle4. cbv zeta.
  set (md' := finalize_metadata _ _ _ _ _). set (loc := tx_metadata_location _ _ _ _).
  unfold try_tx at 1. rewrite try_lift.
  destruct (resolve_metadata_path loc tenant workspace) as [path|e] eqn:Hpath;
    [|apply Herr; [done|chain]].
  destruct (to_vec md') as [bytes|]; [|apply Herr; [done|chain]].
  assert (~ protected path) as Hprot.
  { eapply metadata_not_protected; [done|apply tx_metadata_location_suffix|done]. }
  eapply spec_try; [done|by apply put_once_spec| |];
    [|intros e w5 Hok5 [Hle5 _]; apply Herr; [done|chain]].
  intros written w5 Hok5 [Hle5 Hwritten].
  assert (is_Some (w_objects w5 !! path)) as Hst.
  { destruct written; [|done]. destruct Hwritten as (o & Ho & _). by rewrite Ho. }
  apply wpo_now. intros w6 Hok6 Hle6.
  set (pd := mkPendingPointerUpdate _ _ _ _ _).
  eapply spec_try; [done|eapply (own_pointer_cas_spec sk own t v p (with_pending p pd))| |].
  - done.
  - done.
  - apply Hlive; [done|chain].
  - eapply knows_le; [done|chain].
  - intros w7 Hok7 Hle7 (st & Hst7 & Hne) Hp. eapply (step_prepare _ _ _ _ _ pd st); [done..|].
    apply (stored_mono _ _ (w_history w5)); [apply Hok7|chain|]. exists path.
    split_and!; [done| |done]. by rewrite <- (world_ok_objects tenant workspace).
  - intros pd' E. simpl in E. by injection E as <-.
  - intros pd' E. congruence.
  - intros [v'|cur] w7 Hok7 [Hlive7 Hr].
    + destruct Hr as (w8 & w9 & o & Hok8 & Hok9 & Hle8 & Hp & Hh & Ho & Hle9).
      apply ret_spec. intros w10 Hok10 Hle10. split; [by eapply live_rely|].
      exists (t, pd). split; [|done]. eapply (mine_rely own _ w9); [done|done|chain|].
      rewrite Hh. eapply mine_place; [|done..]. eapply (mine_rely own _ w); [done|done|chain|done].
    + apply ret_spec. intros w8 Hok8 Hle8. split; [|done]. by eapply live_rely.
  - intros e w7 Hok7 [Hlive7 _]. apply ret_spec. intros w8 Hok8 Hle8. split; [|done].
    by eapply live_rely.
Qed.

Lemma prepare_tables_spec sk own inputs prepared placed w :
  world_ok w -> own T -> mine (w_history w) placed -> Forall2 prepared_as prepared placed ->
  spec sk own (prepare_tables config inputs T tenant workspace prepared) (fun r w' =>
    live (w_history w') /\
    match r.2 with
    | Ok _ => exists placed', mine (w_history w') placed' /\ Forall2 prepared_as r.1 placed'
    | Err _ => True
    end) w.
Proof using PL ML TL HT hex_no_dot.
  revert prepared placed w. induction inputs as [|input inputs IH]; intros prepared placed w Hw HoT Hm Hf.
  - apply ret_spec. intros w' Hok' Hle'. assert (mine (w_history w') placed) as Hm' by (by eapply mine_rely).
    split; [apply Hm'|]. by exists placed.
  - cbn [prepare_tables]. eapply spec_bind; [done|by eapply prepare_table_spec|].
    intros [prep|e] w1 Hok1 [Hlive Hr].
    + destruct Hr as (tp & Hm1 & Hp). eapply IH; [done..|]. apply Forall2_app; [done|].
      constructor; [done|constructor].
    + apply ret_spec. intros w2 Hok2 Hle2. split; [by eapply live_rely|done].
Qed.
End Prepare.

Lemma barrier_spec sk own prepared tx w :
  world_ok w -> spec sk own (verify_commit_barrier prepared tx) (fun _ w' => rely own w w') w.
Proof.
  revert w. induction prepared as [|prep prepared IH]; intros w Hw; [by apply ret_spec|].
  cbn [verify_commit_barrier].
  assert (forall (e : MultiTableCommitError) w1, world_ok w1 -> rely own w w1 ->
    spec sk own (Ret (Err (A := unit) e)) (fun _ w' => rely own w w') w1) as Herr.
  { intros e w1 Hok1 Hle1. apply ret_spec. intros w2 Hok2 Hle2. chain. }
  eapply spec_try; [done|by apply load_spec| |]; [|intros e w1 Hok1 [Hle1 _]; by apply Herr].
  intros [[p v]|] w1 Hok1 [Hle1 _]; [|by apply Herr].
  destruct (tp_pending p) as [pd|]; [|by apply Herr].
  case_decide; [by apply Herr|]. case_decide; [by apply Herr|].
  eapply spec_mono; [|by apply IH]. intros r w2 Hok2 Hle2. chain.
Qed.
(** ** Cleaning up *)

Lemma clear_all_spec sk own prepared w :
  world_ok w -> own T -> live (w_history w) ->
  spec sk own (rewrite_pending T (fun _ p => without_pending p) prepared)
    (fun _ w' => live (w_history w')) w.
Proof using PL ML TL HT.
  revert w. induction prepared as [|prep prepared IH]; intros w Hw HoT Hlive.
  { apply ret_spec. intros w' Hok' Hle'. by eapply live_rely. }
  cbn [rewrite_pending]. eapply spec_bind; [done|by apply load_spec|].
  intros found w1 Hok1 [Hle1 Hr]. assert (live (w_history w1)) as Hlive1 by (by eapply live_rely).
  eapply (spec_bind _ _ _ _ _ _ _ (fun _ w' => live (w_history w'))); [done| |by intros; apply IH].
  assert (spec sk own (Ret tt) (fun _ w' => live (w_history w')) w1) as Hskip.
  { apply ret_spec. intros w2 Hok2 Hle2. by apply (live_rely own w1). }
  destruct found as [[[p v]|]|e]; [|done|done]. destruct Hr as [Hk _].
  destruct (tp_pending p) as [pd|] eqn:Hpd; cbn [option_bool]; [|done].
  case_bool_decide as Hid; [|done]. apply wpo_now. intros w2 Hok2 Hle2.
  eapply spec_bind; [done|eapply (own_pointer_cas_spec sk own (pt_table_uuid prep) v p)|].
  - done.
  - done.
  - by apply (live_rely own w1).
  - eapply knows_le; [done|chain].
  - intros w3 Hok3 Hle3 (st & Hst & Hne) Hp. eapply step_clear; [done|done|].
    rewrite Hid, Hst. congruence.
  - done.
  - intros pd' E. congruence.
  - intros ? w3 Hok3 [Hlive3 _]. apply ret_spec. intros w4 Hok4 Hle4. by apply (live_rely own w3).
Qed.

Lemma finalize_all_spec sk own source prepared w :
  world_ok w -> tx_status (replay (w_history w)) T = Some TxCommitted ->
  spec sk own (rewrite_pending T (fun now p => finalize_pending_with_source p source now) prepared)
    (fun _ w' => rely own w w') w.
Proof using PL ML TL HT.
  revert w. induction prepared as [|prep prepared IH]; intros w Hw Hst; [by apply ret_spec|].
  cbn [rewrite_pending]. eapply spec_bind; [done|by apply load_spec|].
  intros found w1 Hok1 [Hle1 Hr].
  eapply (spec_bind _ _ _ _ _ _ _ (fun _ w' => rely own w w')); [done| |].
  2:{ intros ? w2 Hok2 Hle2. eapply spec_mono; [|apply IH; [done|by eapply status_rely]].
      intros ? w3 Hok3 Hle3. chain. }
  assert (spec sk own (Ret tt) (fun _ w' => rely own w w') w1) as Hskip.
  { apply ret_spec. intros w2 Hok2 Hle2. chain. }
  destruct found as [[[p v]|]|e]; [|done|done]. destruct Hr as [Hk _].
  destruct (tp_pending p) as [pd|] eqn:Hpd; cbn [option_bool]; [|done].
  case_bool_decide as Hid; [|done]. apply wpo_now. intros w2 Hok2 Hle2.
  eapply spec_bind; [done|eapply (finalize_spec _ _ (pt_table_uuid prep) p v pd); [done|done| |]|].
  - eapply knows_le; [done|chain].
  - rewrite Hid. eapply (status_rely _ _ own w); [done|chain|done..].
  - intros ? w3 Hok3 Hle3. apply ret_spec. intros w4 Hok4 Hle4. chain.
Qed.

Lemma abort_transaction_spec sk own r0 r v prepared reason w :
  world_ok w -> own T -> live (w_history w) -> tr_tx_id r = T -> tr_status r0 = TxPreparing ->
  knows (transaction_record_path T) r0 v w ->
  spec sk own (abort_transaction r v prepared reason) (fun _ w' => live (w_history w')) w.
Proof using PL ML TL HT.
  intros Hw HoT Hlive Hid Hst Hk. apply wpo_now. intros w1 Hok1 Hle1.
  eapply spec_bind; [done|eapply (abort_spec _ _ sk own T); [done..|]|].
  - eapply knows_le; [done|chain].
  - intros ? w2 Hok2 [Hle2 _]. rewrite Hid. apply clear_all_spec; [done..|].
    eapply (live_rely own w); [done|done|chain|done].
Qed.

(** ** Committing *)

Lemma mine_commit_point h placed prepared r :
  mine h placed -> Forall2 prepared_as prepared placed ->
  tr_tables r = prepared_entry <$> prepared -> tx_status (replay h) T = Some TxPreparing ->
  commit_point h T r.
Proof using HT.
  intros [_ Hlist Hwr Hpl] Hf Ht Hst. split.
  - intros t o pd Hin Hh. apply (Hpl t); [by eapply Hlist|done].
  - intros t o pd Hin Hh. assert ((t, pd) ∈ placed) as Hp by (by eapply Hlist).
    apply list_elem_of_lookup in Hp as [i Hi].
    destruct (Forall2_lookup_r _ _ _ _ _ Hf Hi) as (prep & Hprep & [Et El]).
    exists (prepared_entry prep). split; [|done]. rewrite Ht. apply list_elem_of_fmap_2.
    by eapply list_elem_of_lookup_2.
  - intros e He. rewrite Ht in He. apply list_elem_of_fmap in He as (prep & -> & Hp).
    apply list_elem_of_lookup in Hp as [i Hi].
    destruct (Forall2_lookup_l _ _ _ _ _ Hf Hi) as ([t pd] & Htp & [Et El]). simpl in *.
    destruct (Hwr t pd) as (o & Ho & Hh); [by eapply list_elem_of_lookup_2|].
    exists o, pd. by rewrite Et.
Qed.

Lemma own_record_cas_spec sk own r r' v w :
  world_ok w -> own T -> tr_tx_id r' = T -> tr_status r = TxPreparing ->
  knows (transaction_record_path T) r v w ->
  (forall w', world_ok w' -> rely own w w' -> record_of (replay (w_history w')) T = Some r ->
     tr_status r' = TxCommitted -> commit_point (w_history w') T r') ->
  spec sk own (tx_compare_and_swap r' v) (fun res w' =>
    match res with
    | Ok (CasSuccess v') => knows (transaction_record_path T) r' v' w' /\
        exists w0 w1 o, world_ok w0 /\ world_ok w1 /\ rely own w w0 /\
          record_of (replay (w_history w0)) T = Some r /\
          w_history w1 = w_history w0 ++ [Wrote (transaction_record_path T) o] /\
          from_slice (so_data o) = Some r' /\ rely own w1 w'
    | Ok (CasConflict _) => rely own w w'
    | Err _ => True
    end) w.
Proof using PL ML TL HT.
  intros Hw HoT Hid Hst Hk Hcp. unfold tx_compare_and_swap. rewrite Hid.
  assert (forall w1, world_ok w1 -> rely own w w1 -> (w_counter w1 < i64_max)%Z ->
    precondition_failure (w_objects w1 !! transaction_record_path T) (MatchesVersion v) = None ->
    record_of (replay (w_history w1)) T = Some r) as Hcur.
  { intros w1 Hok1 Hle1 Hc Hpre. eapply knows_record; [done|done| |done].
    eapply knows_le; [done|chain]. }
  eapply spec_try; [done|eapply (own_write_spec (A := TransactionRecord))| |].
  - intros w1 o Hok1 Hle1 Hc Hpre Ho. pose proof (Hcur w1 Hok1 Hle1 Hc Hpre) as Hr. split.
    + eapply legal_record; [done..|]. split; [done|]. by apply Hcp.
    + intros T' HT' _. split; [|by intros t' E; apply eq_sym, pointer_not_transaction in E].
      intros ->%transaction_record_path_inj. done.
  - intros [v'|cur] w1 Hok1 Hr; apply ret_spec; intros w2 Hok2 Hle2; cbn [cas_result]; [|chain].
    split; [eapply knows_le; [by eapply wrote_knows|chain]|].
    destruct Hr as (w0 & w3 & o & Hok0 & Hok3 & Hle0 & Hle3 & Hh & [Hc Hpre] & Ho & _ & Hle1).
    exists w0, w3, o. split_and!; [done..|by apply Hcur|done|done|chain].
  - intros e w1 Hok1 Hr. by apply ret_spec.
Qed.
(** ** The whole transaction *)

Definition tx_ok (r : tresult MultiTableCommitResult) (w : world) : Prop :=
  match r with Ok res => all_visible (w_history w) (mr_tables res) | Err _ => True end.

Lemma read_committed own rec w1 w :
  world_ok w1 -> rely own w1 w -> record_of (replay (w_history w1)) T = Some rec ->
  tr_status rec = TxCommitted -> all_visible (w_history w) (mr_tables (committed_result rec)).
Proof using HT.
  intros Hok1 Hle Hrec Hst. eapply all_visible_le; [|by eapply rl_le].
  eapply committed_visible; [apply Hok1|done..].
Qed.

Lemma create_spec sk own r w :
  world_ok w -> tr_tx_id r = T -> tr_status r = TxPreparing ->
  wp sk own (tx_create r) (fun own' res w' =>
    match res with
    | Ok (CreateSuccess v) =>
        own' T /\ mine (w_history w') [] /\ knows (transaction_record_path T) r v w'
    | Ok (CreateExists r' _) =>
        exists w1, world_ok w1 /\ rely own w1 w' /\ record_of (replay (w_history w1)) T = Some r'
    | Err _ => True
    end) w.
Proof using PL ML TL HT.
  intros Hw Hid Hst. unfold tx_create. rewrite Hid. set (path := transaction_record_path T).
  apply wpo_try; [done|]. unfold write_object. destruct (to_vec r) as [bytes|] eqn:Eb; [|by intros].
  apply wpo_put; cbv beta.
  - intros w1 cur Hok1 Hle1 Hpre w2 Hok2 Hle2.
    assert (tx_claimed (w_history w2) T) as Hcl.
    { simpl in Hpre. destruct (w_objects w1 !! path) as [o|] eqn:Ho; [|done].
      exists o. eapply (written_le w1); [chain|]. apply stored_written; [apply Hok1|done]. }
    eapply spec_try; [done|by eapply tx_load_spec| |by intros].
    intros [[rec v]|] w3 Hok3 [Hle3 Hr] w4 Hok4 Hle4; [|done].
    destruct Hr as (_ & _ & w5 & Hok5 & Hle5 & Hle53 & Hrec). exists w5. split_and!; [done|chain|done].
  - by intros.
  - intros w1 o Hok1 Hle1 Hc Hpre Hdata Hver.
    assert (from_slice (so_data o) = Some r) as Hread by (rewrite Hdata; by apply from_slice_to_vec).
    assert (replay (w_history w1) !! path = None) as Hnone.
    { rewrite <- (world_ok_objects tenant workspace) by done. simpl in Hpre.
      by destruct (w_objects w1 !! path). }
    assert (~ tx_claimed (w_history w1) T) as Hfresh.
    { intros [o' Ho']. destruct (inv_written_stays _ _ _ _ _ (proj2 Hok1) Ho') as [? E].
      unfold path in Hnone. congruence. }
    split_and!.
    + apply iceberg_inv_snoc. split; [apply Hok1|]. by eapply legal_record_new.
    + intros T' _ _. split; [|by intros t' E; apply eq_sym, pointer_not_transaction in E].
      intros _ [? E]. congruence.
    + intros w2 Hok2 Hle2 Hh Hobj. split; [|by intros].
      exists (fun T' => own T' \/ T' = T). split.
      * split; [intros T' ?; by left|]. intros T' [?| ->]; [by left|right]. split; [done|].
        exists o. rewrite Hh. set_solver.
      * intros w3 Hok3 Hle3 w4 Hok4 Hle4. split_and!; [by right| |].
        -- eapply (mine_rely (fun T' => own T' \/ T' = T) _ w2); [by right|done|chain|]. rewrite Hh.
           eapply mine_new; [apply Hok1|done..].
        -- exists o, o. assert (Wrote path o ∈ w_history w4).
           { eapply (written_le w2); [chain|]. rewrite Hh. set_solver. }
           split_and!; [done..|lia|done].
Qed.

Section Run.
Context (c : TxCall) (Hid : tx_tx_id c = T).
Context (Htenant : tx_tenant c = tenant) (Hworkspace : tx_workspace c = workspace).
Context (hex_no_dot : forall k, str_contains "." (sha256_hex k) = false).

Lemma run_transaction_spec sk own r v w :
  world_ok w -> own T -> mine (w_history w) [] -> tr_tx_id r = T -> tr_status r = TxPreparing ->
  knows (transaction_record_path T) r v w ->
  spec sk own (run_transaction config c r v) tx_ok w.
Proof using PL ML TL HT Hid Htenant Hworkspace hex_no_dot.
  intros Hw HoT Hm Hrid Hrst Hk. unfold run_transaction. rewrite Hid, Htenant, Hworkspace.
  assert (forall e w1, spec sk own (Ret (Err e)) tx_ok w1) as Herr by (intros; by apply ret_spec).
  assert (forall r0 r' v' prepared reason e w1, world_ok w1 -> live (w_history w1) -> tr_tx_id r' = T ->
    tr_status r0 = TxPreparing -> knows (transaction_record_path T) r0 v' w1 ->
    spec sk own (_ ← abort_transaction r' v' prepared reason; Ret (Err e)) tx_ok w1) as Habort.
  { intros. eapply spec_bind; [done|by eapply abort_transaction_spec|]. intros. apply Herr. }
  eapply spec_bind; [done|apply spec_le; by eapply (prepare_tables_spec hex_no_dot)|].
  intros [prepared outcome] w1 Hok1 [[Hlive1 Hout] Hle1]. cbn [fst snd] in Hout.
  assert (knows (transaction_record_path T) r v w1) as Hk1 by (eapply knows_le; done).
  destruct outcome as [[]|e]; [|by eapply Habort]. destruct Hout as (placed & Hm1 & Hf).
  set (r1 := r <| tr_tables := prepared_entry <$> prepared |>).
  eapply spec_try; [done|apply (own_record_cas_spec sk own r r1)| |by intros; apply Herr]; try done.
  { intros ???? Hc. cbn in Hc. congruence. }
  intros [v1|cur] w2 Hok2 Hr2.
  2:{ eapply (Habort r); [done|by apply (live_rely own w1)|done|done|].
      eapply knows_le; [done|chain]. }
  destruct Hr2 as (Hk2 & w3 & w4 & o & Hok3 & Hok4 & Hle3 & Hrec3 & Hh4 & Ho & Hle4).
  assert (mine (w_history w2) placed) as Hm2.
  { eapply (mine_rely own _ w4); [done|done|chain|]. rewrite Hh4.
    eapply mine_record; [by apply (mine_rely own _ w1)| |done|done].
    unfold tx_status. rewrite Hrec3. cbn. by rewrite Hrst. }
  eapply spec_bind; [done|by apply barrier_spec|]. intros barrier w5 Hok5 Hle5.
  assert (mine (w_history w5) placed) as Hm5 by (by apply (mine_rely own _ w2)).
  assert (knows (transaction_record_path T) r1 v1 w5) as Hk5 by (eapply knows_le; [done|chain]).
  destruct barrier as [[]|e]; [|eapply (Habort r1); [done|apply Hm5|done..]].
  apply wpo_now. intros w6 Hok6 Hle6. set (r2 := tx_commit r1 _).
  eapply spec_try; [done|apply (own_record_cas_spec sk own r1 r2)| |by intros; apply Herr]; try done.
  { eapply knows_le; [done|chain]. }
  { intros w7 Hok7 Hle7 Hrec7 _. eapply mine_commit_point; [|exact Hf|done|].
    - eapply (mine_rely own _ w5); [done|done|chain|done].
    - unfold tx_status. rewrite Hrec7. cbn. by rewrite Hrst. }
  intros [v2|cur] w7 Hok7 Hr7.
  - destruct Hr7 as (Hk7 & w8 & w9 & o' & Hok8 & Hok9 & Hle8 & Hrec8 & Hh9 & Ho' & Hle9).
    assert (tx_status (replay (w_history w9)) T = Some TxCommitted) as Hcm.
    { rewrite Hh9, replay_snoc. unfold tx_status. by rewrite record_of_written, Ho'. }
    assert (all_visible (w_history w7) (prepared_output <$> prepared)) as Hvis.
    { exists (w_history w9). split; [chain|]. rewrite Hh9.
      assert (prepared_output <$> prepared = entry_output <$> tr_tables r2) as ->.
      { cbn. by rewrite <- list_fmap_compose. }
      apply commit_visible; [done|done|]. eapply mine_commit_point; [|exact Hf|done|].
      - eapply (mine_rely own _ w5); [done|done|chain|done].
      - unfold tx_status. rewrite Hrec8. cbn. by rewrite Hrst. }
    eapply spec_bind; [done|apply spec_le, finalize_all_spec; [done|]|].
    + by apply (status_rely tenant workspace own w9).
    + intros ? w10 Hok10 [_ Hle10]. apply ret_spec. intros w11 Hok11 Hle11.
      eapply all_visible_le; [exact Hvis|chain].
  - eapply spec_try; [done|apply tx_load_spec; [done|done|]| |by intros; apply Herr].
    { destruct Hk5 as (o1 & _ & _ & Ho1 & _). exists o1. by eapply written_le; [|done]; chain. }
    intros [[rec v3]|] w8 Hok8 [Hle8 Hr8]; [|done]. cbn [option_bool fst].
    case_bool_decide as Hst; [|apply Herr].
    destruct Hr8 as (_ & _ & w9 & Hok9 & Hle9 & _ & Hrec). exfalso.
    assert (live (w_history w9)) as (st & Hst9 & Hne).
    { eapply (live_rely own w5); [done|done|chain|apply Hm5]. }
    unfold tx_status in Hst9. rewrite Hrec in Hst9. cbn in Hst9. congruence.
Qed.

Lemma replay_transaction_spec sk own rec v w1 w :
  world_ok w -> world_ok w1 -> rely own w1 w -> record_of (replay (w_history w1)) T = Some rec ->
  tr_tx_id rec = T -> knows (transaction_record_path T) rec v w ->
  spec sk own (replay_transaction config c rec v) tx_ok w.
Proof using PL ML TL HT.
  intros Hw Hok1 Hle1 Hrec Hrid Hk. unfold replay_transaction.
  case_decide; [by apply ret_spec|]. destruct (tr_status rec) eqn:Est.
  - apply wpo_now. intros w2 Hok2 Hle2. destruct (tx_is_stale _ _ _); [|by apply ret_spec].
    apply wpo_now. intros w3 Hok3 Hle3.
    eapply spec_try; [done|eapply (abort_spec _ _ sk own T rec); [done..|]|by intros; apply ret_spec..].
    eapply knows_le; [done|chain].
  - apply ret_spec. intros w2 Hok2 Hle2. eapply (read_committed own _ w1); [done|chain|done..].
  - by apply ret_spec.
Qed.
End Run.
End Owner.

Lemma validate_uuidv7_canonical key u :
  validate_uuidv7 key = Ok u -> uuid_canonical key = true.
Proof.
  unfold validate_uuidv7. destruct (uuid_parse_str key) as [u'|]; [|done].
  case_bool_decide; [|done]. destruct (_ =? 7)%N; [|done]. case_bool_decide as E; [|done].
  intros _. rewrite <- E. apply uuid_text_canonical.
Qed.

Lemma tx_run_spec `{!JsonLaws IcebergTablePointer, !JsonLaws IdempotencyMarker}
    `{!JsonLaws TransactionRecord} sk own c w :
  (forall k, str_contains "." (sha256_hex k) = false) ->
  tx_tenant c = tenant -> tx_workspace c = workspace -> world_ok w ->
  wp sk own (tx_run config c) (fun _ r w' => tx_ok r w') w.
Proof.
  intros Hex Hten Hws Hw. unfold tx_run.
  destruct (validate_uuidv7 (tx_tx_id c)) as [u|e] eqn:HT; [|by intros].
  apply validate_uuidv7_canonical in HT. destruct (_ <? _)%nat; [by intros|].
  case_bool_decide; [by intros|]. set (T := tx_tx_id c) in *.
  eapply spec_try; [done|by apply load_spec| |by intros].
  intros [[rec v]|] w1 Hok1 [Hle1 Hr].
  - destruct Hr as [Hk (w2 & o & Hok2 & Hle2 & Hle21 & Ho & Hrec)].
    destruct (inv_record tenant workspace (w_history w2) T o) as (r & Hr & Hid);
      [apply Hok2|done|apply stored_written; [apply Hok2|done]|].
    rewrite Hrec in Hr. injection Hr as ->.
    eapply wpo_mono; [|eapply (replay_transaction_spec T HT c _ _ _ _ w2); [done|done|done| |done|done]].
    { by intros own' a w' _ _ [_ Ha]. }
    unfold record_of. rewrite <- (world_ok_objects tenant workspace) by done. by rewrite Ho.
  - apply wpo_now. intros w2 Hok2 Hle2. apply wpo_try; [done|].
    eapply wpo_mono; [|by apply (create_spec T HT)].
    intros own' [[v|rec v]|e] w3 Hok3 _ Hc; [| |by intros].
    + destruct Hc as (Hown & Hm & Hk).
      eapply wpo_mono; [|by eapply (run_transaction_spec T HT c eq_refl)].
      by intros own2 a w' _ _ [_ Ha].
    + destruct Hc as (w4 & Hok4 & Hle4 & Hrec). intros w5 Hok5 Hle5.
      unfold handle_existing_transaction. destruct (tr_status rec) eqn:Est; try done.
      apply (all_visible_le w3); [by apply (read_committed T HT own _ w4)|].
      apply (rl_le _ _ _ _ Hle5).
Qed.
End TxSafety.
