(* ===== verification/IcebergProps.v ===== *)
(** The Iceberg catalog under concurrency.

    Any number of single-table commits, multi-table transactions and readers run against
    one object store, interleaved call by call, with lost requests and lost responses.
    Their claims: readers see a linear history in which a transaction's tables change at
    once; what a client was told is so; a read returns what was current while it ran; and
    what is settled stays. *)

From S2P Require Import Prelude Storage Interleave Events Canonical Scoped IcebergTypes IcebergMeta IcebergStore IcebergMetaProps IcebergCommit IcebergTx IcebergInvariant IcebergSafety IcebergTxSafety Sample.
From stdpp Require Import options.
Import Ownership.

(** ** Processes *)

Inductive Process :=
  | PCommit (c : CommitCall)
  | PTransaction (c : TxCall)
  | PLoad (c : LoadTableCall).

Inductive Outcome :=
  | OCommit (r : result CommitError CommitTableResponse)
  | OTransaction (r : result MultiTableCommitError MultiTableCommitResult)
  | OLoad (r : iresult LoadTableResult).

Section Catalog.
Context `{Hashes, Chrono, DateFormat, ToValue, UuidCrate}.
Context `{PJ : Json IcebergTablePointer, MJ : Json IdempotencyMarker, TJ : Json TransactionRecord}.
Context `{DJ : Json TableMetadata, VJ : Json Value, RJ : Json PendingReceipt, CJ : Json CommittedReceipt}.
Context (tenant workspace : string) (timeout : Z) (coordinator : CoordinatorConfig).

Definition program (p : Process) : io Outcome :=
  match p with
  | PCommit c => r ← commit_table timeout c; Ret (OCommit r)
  | PTransaction c => r ← tx_run coordinator c; Ret (OTransaction r)
  | PLoad c => r ← load_table c; Ret (OLoad r)
  end.

(** The process works in this catalog's scope. *)
Definition in_scope (p : Process) : Prop :=
  match p with
  | PCommit c => cc_tenant c = tenant /\ cc_workspace c = workspace
  | PTransaction c => tx_tenant c = tenant /\ tx_workspace c = workspace
  | PLoad c => lt_tenant c = tenant /\ lt_workspace c = workspace
  end.

Definition start (ps : list Process) (w : world) : config Outcome := mkConfig (program <$> ps) w.

Abbreviation inv := (iceberg_inv tenant workspace).
Abbreviation world_ok := (world_ok inv).
Abbreviation rely := (rely others_may).
Abbreviation wp := (wpo inv tx_claimed others_may).
Abbreviation spec := (spec inv tx_claimed others_may).
Abbreviation metadata_at := (metadata_at tenant workspace).
Implicit Types (own : string -> Prop) (w : world) (h : list change).

(** What an answer says of the history between the start [h0] and the end [h]. *)
Definition answer_true (p : Process) h0 (r : Outcome) h : Prop :=
  match p, r with
  | PCommit c, OCommit (Ok response) =>
      was_effective h (cc_table_uuid c) (cr_metadata_location response)
  | PTransaction c, OTransaction (Ok result) => all_visible h (mr_tables result)
  | PLoad c, OLoad (Ok (Loaded location metadata _)) =>
      (exists h1, h0 `prefix_of` h1 /\ h1 `prefix_of` h /\
         effective (replay h1) (lt_table_uuid c) = Some location) /\
      exists md, metadata_at (replay h) location = Some md /\
        metadata = filter_snapshots (lt_snapshots c) md
  | PCommit _, OCommit _ | PTransaction _, OTransaction _ | PLoad _, OLoad _ => True
  | _, _ => False
  end.

Section Laws.
Context `{PL : !JsonLaws IcebergTablePointer, ML : !JsonLaws IdempotencyMarker}.
Context `{TL : !JsonLaws TransactionRecord, DL : !JsonLaws TableMetadata}.
(** A digest in hexadecimal has no dot. *)
Context (hex_no_dot : forall k, str_contains "." (sha256_hex k) = false).

Lemma load_table_spec sk own c w :
  in_scope (PLoad c) -> world_ok w ->
  spec sk own (load_table c) (fun r w' => answer_true (PLoad c) (w_history w) (OLoad r) (w_history w')) w.
Proof using PL ML TL.
  intros [Hten Hws] Hw. unfold load_table. set (t := lt_table_uuid c).
  assert (forall e w1, spec sk own (Ret (Err e))
    (fun r w' => answer_true (PLoad c) (w_history w) (OLoad r) (w_history w')) w1) as Herr.
  { intros e w1. by apply ret_spec. }
  apply wpo_head. intros w1 Hok1 Hle1. split; [|apply Herr].
  destruct (w_objects w1 !! pointer_path t) as [o1|]; [|apply Herr].
  cbn [fmap option_fmap option_map]. destruct (option_bool _ _); [by apply ret_spec|].
  apply wpo_get. intros w2 Hok2 Hle2. split; [|apply Herr]. unfold mb_get.
  destruct (mb_objects (w_backend w2) !! pointer_path t) as [o|] eqn:Ho; [|apply Herr].
  destruct (from_slice (so_data o)) as [p|] eqn:Hp; [|apply Herr].
  destruct (validate_version p); [apply Herr|].
  assert (pointer_of (replay (w_history w2)) t = Some p) as Hp2.
  { unfold pointer_of. rewrite <- (world_ok_objects tenant workspace) by done. unfold w_objects.
    by rewrite Ho. }
  eapply spec_try; [done|by apply (resolve_spec _ _ sk own t p w2)| |intros; apply Herr].
  intros eff w3 Hok3 [Hle3 (h1 & Hh1 & Hh1' & He)].
  unfold try_bind at 1. rewrite try_lift, Hten, Hws.
  destruct (resolve_metadata_path _ _ _) as [path|e] eqn:Hpath; [|apply Herr].
  assert (stored tenant workspace (replay (w_history w3)) (ep_metadata_location eff)) as Hst.
  { apply (stored_mono _ _ h1); [apply Hok3|done|]. apply (effective_stored _ _ _ t); [|done].
    eapply iceberg_inv_prefix; [done|apply Hok3]. }
  apply (read_stored_spec _ _ sk own (ep_metadata_location eff)); [done..|].
  intros bytes w4 Hok4 Hle4 Hmd. destruct (from_slice bytes) as [md|] eqn:Eb; [|apply Herr].
  apply ret_spec. intros w5 Hok5 Hle5. split; [|exists md; split; [by apply Hmd|done]].
  exists h1. split_and!; [|etrans; [done|chain]|done]. etrans; [|done]. chain.
Qed.

Lemma process_spec sk own p w :
  in_scope p -> world_ok w ->
  wp sk own (program p) (fun _ r w' => answer_true p (w_history w) r (w_history w')) w.
Proof using PL ML TL DL hex_no_dot.
  intros Hp Hw. destruct p as [c|c|c]; apply wpo_bind; try done.
  - destruct Hp. eapply wpo_mono; [|by apply (commit_loop_spec _ _ timeout c)].
    intros own' r w1 _ _ [_ [_ Hr]] w2 Hok2 Hle2. destruct r; [|done].
    eapply was_effective_le; [done|chain].
  - destruct Hp. eapply wpo_mono; [|by apply tx_run_spec].
    intros own' r w1 _ _ Hr w2 Hok2 Hle2. destruct r; [|done].
    eapply all_visible_le; [done|chain].
  - eapply wpo_mono; [|by apply load_table_spec].
    intros own' r w1 Hok1 _ [_ Hr] w2 Hok2 Hle2. destruct r as [[|location md etag]|]; [done| |done].
    destruct Hr as [(h1 & Hh0 & Hh1 & He) (md0 & Hmd & E)]. split.
    + exists h1. split_and!; [done| |done]. etrans; [done|chain].
    + exists md0. split; [|done]. eapply (metadata_at_mono _ _ (w_history w1)); [apply Hok2|chain| |done].
      apply (stored_mono _ _ h1); [apply Hok1|done|]. eapply effective_stored; [|done].
      eapply iceberg_inv_prefix; [done|apply Hok1].
Qed.

(** ** Every schedule *)

Section Schedules.
Context (ps : list Process) (w : world) (skew : nat -> Z).
Context (Hscope : Forall in_scope ps) (Hw : world_ok w).

Definition after (ts : list turn) : Interleave.config Outcome := run_schedule skew ts (start ps w).
Definition history (ts : list turn) : list change := w_history (cf_world (after ts)).

(** Fewer writes than version numbers. *)
Definition fits (ts : list turn) : Prop := (w_counter w + Z.of_nat (length ts) <= i64_max)%Z.

Lemma after_app ts ts' : after (ts ++ ts') = run_schedule skew ts' (after ts).
Proof. unfold after, run_schedule. by rewrite fold_left_app. Qed.

Lemma after_owned ts :
  fits ts ->
  (exists owns, owned inv tx_claimed others_may skew (fun _ _ _ _ => True) owns (after ts)) /\
  (w_counter (cf_world (after ts)) <= w_counter w + Z.of_nat (length ts))%Z.
Proof using PL ML TL DL hex_no_dot Hscope Hw.
  intros Hts. destruct (run_owned inv tx_claimed others_may tx_claimed_mono skew
    (fun _ _ _ _ => True) (fun _ _ => False) ts (start ps w)) as (Ho & _ & Hc); [|done|done].
  apply owned_start; [done|]. intros i p Hp. cbn in Hp. apply list_lookup_fmap_Some in Hp as (q & -> & Hq).
  eapply wpo_mono; [done|]. apply process_spec; [|done]. by eapply Forall_lookup_1 in Hscope.
Qed.

Lemma after_ok ts : fits ts -> world_ok (cf_world (after ts)).
Proof using PL ML TL DL hex_no_dot Hscope Hw.
  intros Hts. destruct (after_owned ts Hts) as [[owns Ho] _]. apply Ho.
Qed.

(** A process that has had no turn has not started. *)
Lemma not_started ts i p :
  ps !! i = Some p -> Forall (fun tn => tn_thread tn <> i) ts ->
  cf_threads (after ts) !! i = Some (program p).
Proof.
  intros Hp. induction ts as [|tn ts IH] using rev_ind; intros Hts.
  - cbn. by rewrite list_lookup_fmap, Hp.
  - apply Forall_app in Hts as [Hts [Hn _]%Forall_cons]. rewrite after_app. cbn. unfold config_step.
    destruct (cf_threads (after ts) !! tn_thread tn) as [[]|]; [by apply IH| |by apply IH].
    destruct (world_call _ _ _ _ _). cbn. rewrite list_lookup_insert_ne by done. by apply IH.
Qed.

(** The answer of a process that starts after [ts] and is done after [ts']. *)
Lemma answers ts ts' i p r :
  fits (ts ++ ts') -> ps !! i = Some p -> Forall (fun tn => tn_thread tn <> i) ts ->
  cf_threads (after (ts ++ ts')) !! i = Some (Ret r) ->
  answer_true p (history ts) r (history (ts ++ ts')).
Proof using PL ML TL DL hex_no_dot Hscope Hw.
  unfold fits. rewrite length_app. intros Hfit Hp Hts Hr.
  destruct (after_owned ts) as [[owns [Hok Hcl Hdis Hth]] Hc]; [unfold fits; lia|].
  set (Q := fun (j : nat) (_ : string -> Prop) (a : Outcome) (w' : world) =>
    j = i -> answer_true p (history ts) a (w_history w')).
  assert (owned inv tx_claimed others_may skew Q owns (after ts)) as Ho.
  { split; [done..|]. intros j q Hq. destruct (decide (j = i)) as [->|Hne].
    - rewrite (not_started ts i p) in Hq by done. injection Hq as <-.
      eapply wpo_mono; [|apply process_spec; [by eapply Forall_lookup_1 in Hscope|done]].
      by intros own a w' _ _ Ha _.
    - eapply wpo_mono; [|by apply Hth]. by intros ?????? E. }
  unfold history. rewrite after_app in *.
  destruct (run_owned inv tx_claimed others_may tx_claimed_mono skew Q owns ts' (after ts) Ho)
    as ([owns' Ho'] & _ & _); [lia|].
  by apply (owned_result _ _ _ _ _ _ _ _ _ Ho' Hr).
Qed.

Lemma after_le ts ts' :
  fits (ts ++ ts') -> world_le (cf_world (after ts)) (cf_world (after (ts ++ ts'))).
Proof using PL ML TL DL hex_no_dot Hscope Hw.
  unfold fits. rewrite length_app. intros Hfit.
  destruct (after_owned ts) as [[owns Ho] Hc]; [unfold fits; lia|]. rewrite after_app.
  by destruct (run_owned inv tx_claimed others_may tx_claimed_mono skew _ owns ts' (after ts) Ho)
    as (_ & ? & _); [lia|].
Qed.
(** C5: However commits, transactions and readers interleave, and whichever requests and
    responses are lost, every write changes what readers see in one of four ways: not at
    all; a table appears; a single-table commit moves one table from the location its
    pointer records as previous, which was the one readers saw, to metadata computed from
    that very metadata by an update whose requirements held there; or a transaction moves
    all the tables of its record at once and no other. *)
Theorem iceberg_visible ts h1 e h2 :
  fits ts -> history ts = h1 ++ e :: h2 ->
  w_objects (cf_world (after ts)) = replay (history ts) /\
  visible_step tenant workspace (replay h1) (replay (h1 ++ [e])) e.
Proof using PL ML TL DL hex_no_dot Hscope Hw.
  intros Hts Hh. pose proof (after_ok ts Hts) as Hok.
  split; [by apply (world_ok_objects tenant workspace)|].
  destruct Hok as [_ Hi]. fold (history ts) in Hi. rewrite Hh in Hi.
  apply visible_legal; [|by apply (Hi h1 e h2)].
  eapply iceberg_inv_prefix; [|exact Hi]. by exists (e :: h2).
Qed.


(** C12: Reads are linearizable.  The location [load_table] returns was the table's at
    some moment between the start of the call, after [ts], and its end, after [ts'], so
    that nothing that was visible before the call is missed; and the metadata it returns
    is the contents of the file at that location. *)
Theorem iceberg_read ts ts' i c location metadata etag :
  fits (ts ++ ts') -> ps !! i = Some (PLoad c) -> Forall (fun tn => tn_thread tn <> i) ts ->
  cf_threads (after (ts ++ ts')) !! i = Some (Ret (OLoad (Ok (Loaded location metadata etag)))) ->
  (exists h, history ts `prefix_of` h /\ h `prefix_of` history (ts ++ ts') /\
     effective (replay h) (lt_table_uuid c) = Some location) /\
  exists md, metadata_at (w_objects (cf_world (after (ts ++ ts')))) location = Some md /\
    metadata = filter_snapshots (lt_snapshots c) md.
Proof using PL ML TL DL hex_no_dot Hscope Hw.
  intros Hts Hp Hn Hr. rewrite (world_ok_objects tenant workspace) by (by apply after_ok).
  exact (answers ts ts' i _ _ Hts Hp Hn Hr).
Qed.

(** C32: What is settled stays.  From any moment of a schedule to any later one: a file is
    not changed or removed; a transaction that was committed or aborted stays so; an
    idempotency marker that was finalized is not touched again, and one that says
    committed names a location the table had; and the location of every table names a
    metadata file that is there. *)
Theorem iceberg_settled ts ts' :
  fits (ts ++ ts') ->
  let m := w_objects (cf_world (after ts)) in
  let m' := w_objects (cf_world (after (ts ++ ts'))) in
  (forall path o, ~ protected path -> m !! path = Some o -> m' !! path = Some o) /\
  (forall T st, uuid_canonical T = true -> st <> TxPreparing ->
     tx_status m T = Some st -> tx_status m' T = Some st) /\
  (forall t key marker, im_status marker <> MInProgress -> marker_of m t key = Some marker ->
     marker_of m' t key = Some marker) /\
  (forall t key marker, marker_of m t key = Some marker -> im_status marker = MCommitted ->
     exists location, im_response_metadata_location marker = Some location /\
       was_effective (history ts) t location) /\
  (forall t location, effective m t = Some location -> stored tenant workspace m location).
Proof using PL ML TL DL hex_no_dot Hscope Hw.
  intros Hts m m'. pose proof (wl_history _ _ (after_le ts ts' Hts)) as Hle.
  assert (fits ts) as Hts1 by (unfold fits in *; rewrite length_app in Hts; lia).
  pose proof (after_ok _ Hts) as Hok'. pose proof (after_ok _ Hts1) as Hok. unfold m, m'.
  rewrite !(world_ok_objects tenant workspace) by done. destruct Hok as [_ Hi], Hok' as [_ Hi'].
  split_and!.
  - intros. by eapply inv_file_same.
  - intros T st HT Hne Hst. destruct (status_mono _ _ _ _ _ _ Hi' Hle HT Hst) as (st' & ? & [?|?]); congruence.
  - intros. by eapply marker_settled.
  - intros t key marker Hm Hst. apply bind_Some in Hm as (o & Ho%replay_elem & Hm).
    destruct (inv_marker _ _ _ _ _ _ Hi Ho) as (marker' & Hm' & _ & Hs). simplify_eq. by apply Hs.
  - intros. by eapply effective_stored.
Qed.
End Schedules.
End Laws.
End Catalog.

(** ** A commit alone

    What the theorems above leave open: that there are commits.  A request that fits its
    table, sent with a fresh key while nobody else is at work, succeeds. *)

Section Alone.
Context (now : DateTime).

(** [b] with a new object. *)
Definition with_object (b : MemoryBackend) (path : string) (data : Bytes) : MemoryBackend :=
  let v := (mb_next_version b + 1)%Z in
  mkMemoryBackend (<[path := mkStoredObject data v now]> (mb_objects b)) v.

Lemma alone_bind {A B} (p : io A) (f : A -> io B) b a b' :
  run_alone p now b = (a, b') -> run_alone (p ≫= f) now b = run_alone (f a) now b'.
Proof. intros E. by rewrite run_alone_bind, E. Qed.

Lemma alone_try {E F A B} (conv : E -> F) (p : io (result E A)) (f : A -> io (result F B)) b a b' :
  run_alone p now b = (Ok a, b') -> run_alone (try_with conv p f) now b = run_alone (f a) now b'.
Proof. intros Ep. unfold try_with. by rewrite (alone_bind _ _ _ _ _ Ep). Qed.

Lemma alone_let {E A B} (p : io (result E A)) (f : A -> io (result E B)) b a b' :
  run_alone p now b = (Ok a, b') -> run_alone (try_bind p f) now b = run_alone (f a) now b'.
Proof. apply alone_try. Qed.

Lemma alone_now {A} (f : DateTime -> io A) b : run_alone (utc_now_io ≫= f) now b = run_alone (f now) now b.
Proof. done. Qed.

Lemma alone_get path b o :
  mb_objects b !! path = Some o -> run_alone (get_object path) now b = (Ok (so_data o), b).
Proof. intros Ho. cbn. unfold mb_get. by rewrite Ho. Qed.

Lemma alone_load {A} `{Json A} what path b o (a : A) :
  mb_objects b !! path = Some o -> from_slice (so_data o) = Some a ->
  run_alone (load_object what path) now b = (Ok (Some (a, pretty (so_version o))), b).
Proof.
  intros Ho Ha. unfold load_object. erewrite alone_try by (cbn; unfold mb_head; by rewrite Ho).
  cbn [fmap option_fmap option_map]. erewrite alone_try by by apply alone_get. by rewrite Ha.
Qed.

Lemma alone_put path data pre b :
  (mb_next_version b < i64_max)%Z -> precondition_failure (mb_objects b !! path) pre = None ->
  run_alone (put_object path data pre) now b =
    (Ok (WriteSuccess (pretty (mb_next_version b + 1)%Z)), with_object b path data).
Proof. intros Hb Hpre. cbn. unfold mb_put. by rewrite Hpre, i64_succ_small. Qed.

Lemma alone_write {A} `{Json A} verb what path (a : A) pre b bytes :
  to_vec a = Some bytes -> (mb_next_version b < i64_max)%Z ->
  precondition_failure (mb_objects b !! path) pre = None ->
  run_alone (write_object verb what path a pre) now b =
    (Ok (WriteSuccess (pretty (mb_next_version b + 1)%Z)), with_object b path bytes).
Proof.
  intros Ha Hb Hpre. unfold write_object. rewrite Ha.
  by erewrite alone_try by by apply alone_put.
Qed.

(** At most one write of a new object. *)
Definition extends (b b' : MemoryBackend) : Prop :=
  (mb_next_version b <= mb_next_version b' <= mb_next_version b + 1)%Z /\
  forall q o, mb_objects b !! q = Some o -> mb_objects b' !! q = Some o.

Lemma alone_put_new path data b :
  (mb_next_version b < i64_max)%Z ->
  exists r b', run_alone (put_object path data DoesNotExist) now b = (r, b') /\ extends b b'.
Proof.
  intros Hb. cbn. destruct (mb_put_cases b now path data DoesNotExist) as [(cur & _ & ->)|[Hpre ->]];
    do 2 eexists; (split; [done|]); split; cbn; [lia|done|rewrite i64_succ_small by lia; lia|].
  intros q o Hq. rewrite lookup_insert_ne; [done|]. intros ->. by rewrite Hq in Hpre.
Qed.

Section CommitAlone.
Context `{Hashes, Chrono, DateFormat, ToValue}.
Context `{PJ : Json IcebergTablePointer, MJ : Json IdempotencyMarker, TJ : Json TransactionRecord}.
Context `{DJ : Json TableMetadata, VJ : Json Value, RJ : Json PendingReceipt, CJ : Json CommittedReceipt}.
Context (timeout : Z) (c : CommitCall).

Abbreviation t := (cc_table_uuid c).
Abbreviation marker_object := (idempotency_marker_path t (hash_key (cc_idempotency_key c))).
Abbreviation base_at := (metadata_at (cc_tenant c) (cc_workspace c)).

(** The marker the first attempt claims. *)
Definition own_marker (p : IcebergTablePointer) (location : string) : IdempotencyMarker :=
  new_in_progress now (cc_ulids c (MAX_TAKEOVER_ATTEMPTS - 1)).1 (cc_idempotency_key c) t
    (cc_request_hash c) (tp_current_metadata_location p) location.

Definition new_metadata (p : IcebergTablePointer) (base md0 : TableMetadata) : TableMetadata :=
  finalize_metadata now md0 base p (i64_succ (tm_last_sequence_number base)).

(** The request fits the table: its pointer is free, its metadata is there and meets the
    requirements, the updates give [md0] and so a pointer [q] to [md] at [location]; the
    key and the location are fresh; what is written can be serialized. *)
Record fits_table (b : MemoryBackend) (p : IcebergTablePointer) (base md0 : TableMetadata)
    (location path : string) (q : IcebergTablePointer) (value : Value) : Prop := {
  ft_pointer : exists o, mb_objects b !! pointer_path t = Some o /\ from_slice (so_data o) = Some p /\
    (i64_min <= so_version o <= i64_max)%Z;
  ft_version : validate_version p = None;
  ft_free : tp_pending p = None;
  ft_base : base_at (mb_objects b) (tp_current_metadata_location p) = Some base;
  ft_key : mb_objects b !! marker_object = None;
  ft_location : build_metadata_location (tm_location base) (i64_succ (tm_last_sequence_number base))
    (hash_key (cc_idempotency_key c)) = Ok location;
  ft_path : resolve_metadata_path location (cc_tenant c) (cc_workspace c) = Ok path;
  ft_fresh : mb_objects b !! path = None;
  ft_requirements : validate_requirements base (ct_requirements (cc_request c)) = Ok tt;
  ft_updates : (run_alone (apply_updates base (ct_updates (cc_request c))) now b).1 = Ok md0;
  ft_refs : pointer_from_metadata now p (new_metadata p base md0) (own_marker p location) (cc_source c) = Ok q;
  ft_room : (0 <= mb_next_version b /\ mb_next_version b + 6 <= i64_max)%Z;
  ft_marker : is_Some (to_vec (own_marker p location));
  ft_committed : is_Some (to_vec (finalize_committed (own_marker p location) location now));
  ft_metadata : is_Some (to_vec (new_metadata p base md0));
  ft_new_pointer : is_Some (to_vec q);
  ft_value : to_value (new_metadata p base md0) = Some value
}.

Lemma apply_updates_alone us md : exists r, forall b', run_alone (apply_updates md us) now b' = (r, b').
Proof.
  revert md. induction us as [|u us IH]; intros md; [by eexists|]. cbn [apply_updates].
  destruct (apply_update now md u) as [md'|e] eqn:E.
  - destruct (IH md') as [r Hr]. exists r. intros b'. by rewrite alone_now, E.
  - exists (Err e). intros b'. by rewrite alone_now, E.
Qed.

Lemma pending_receipt_alone m k sid src b :
  (mb_next_version b < i64_max)%Z ->
  exists r b', run_alone (write_pending_receipt m k sid src) now b = (r, b') /\
    extends b b'.
Proof.
  intros Hb. unfold write_pending_receipt. rewrite alone_now. destruct (to_vec _) as [bytes|].
  - destruct (alone_put_new (pending_receipt_path now k) bytes b Hb) as (r & b' & E & Hs).
    eexists _, b'. split; [by rewrite (alone_bind _ _ _ _ _ E)|exact Hs].
  - eexists _, b. split; [done|]. split; [lia|done].
Qed.

Lemma committed_receipt_alone m loc prev sid src b :
  (mb_next_version b < i64_max)%Z ->
  exists r b', run_alone (write_committed_receipt m loc prev sid src) now b = (r, b') /\
    extends b b'.
Proof.
  intros Hb. unfold write_committed_receipt. rewrite !alone_now. destruct (to_vec _) as [bytes|].
  - destruct (alone_put_new (committed_receipt_path now (commit_key_from_metadata_location loc)) bytes b Hb)
      as (r & b' & E & Hs).
    eexists _, b'. split; [by rewrite (alone_bind _ _ _ _ _ E)|exact Hs].
  - eexists _, b. split; [done|]. split; [lia|done].
Qed.

Context `{PL : !JsonLaws IcebergTablePointer, ML : !JsonLaws IdempotencyMarker, DL : !JsonLaws TableMetadata}.
Context (hex_no_dot : forall k, str_contains "." (sha256_hex k) = false).

Lemma alone_cas {A} `{Json A} verb what path (a : A) b bytes o :
  to_vec a = Some bytes -> (mb_next_version b < i64_max)%Z -> mb_objects b !! path = Some o ->
  (i64_min <= so_version o <= i64_max)%Z ->
  run_alone (write_object verb what path a (MatchesVersion (pretty (so_version o)))) now b =
    (Ok (WriteSuccess (pretty (mb_next_version b + 1)%Z)), with_object b path bytes).
Proof.
  intros Ha Hb Ho Hv. apply alone_write; [done..|]. rewrite Ho. by apply version_token_matches.
Qed.

(** From the metadata file on: the pointer and the marker are as they were loaded. *)
Lemma publish_alone b p base md0 location q value op om :
  let md := new_metadata p base md0 in
  let m := own_marker p location in
  pointer_from_metadata now p md m (cc_source c) = Ok q -> to_value md = Some value ->
  is_Some (to_vec q) -> is_Some (to_vec (finalize_committed m location now)) ->
  mb_objects b !! pointer_path t = Some op -> (i64_min <= so_version op <= i64_max)%Z ->
  mb_objects b !! marker_object = Some om -> (i64_min <= so_version om <= i64_max)%Z ->
  (mb_next_version b + 3 <= i64_max)%Z ->
  exists b', run_alone (publish_commit timeout c p (pretty (so_version op)) m (pretty (so_version om)) md)
      now b = (Ok (mkCommitTableResponse location value), b') /\
    pointer_of (mb_objects b') t = Some q /\
    marker_of (mb_objects b') t (cc_idempotency_key c) = Some (finalize_committed m location now) /\
    forall path o, ~ protected path -> mb_objects b !! path = Some o -> mb_objects b' !! path = Some o.
Proof using PL ML.
  intros md m Hq Hvalue [qb Hqb] [fb Hfb] Hop Hvp Hom Hvm Hroom. unfold publish_commit.
  rewrite alone_now. unfold try_commit. rewrite try_lift, Hq. cbv beta iota.
  set (b1 := with_object b (pointer_path t) qb).
  erewrite alone_try.
  2:{ unfold pointer_compare_and_swap. erewrite alone_let by (apply alone_cas; [done|lia|done|done]). done. }
  cbn [cas_result]. fold b1.
  destruct (committed_receipt_alone m location (tp_previous_metadata_location p)
    (tm_current_snapshot_id md) (cc_source c) b1) as (r & b2 & E2 & Hv2 & Hkeep); [cbn; lia|].
  change (im_metadata_location m) with location. rewrite (alone_bind _ _ _ _ _ E2), alone_now.
  assert (mb_objects b2 !! marker_object = Some om) as Hom2.
  { apply Hkeep. unfold b1. cbn. rewrite lookup_insert_ne; [done|apply pointer_not_marker]. }
  set (b3 := with_object b2 marker_object fb).
  erewrite alone_let.
  2:{ unfold finalize_committed_marker, try_commit. erewrite alone_try.
      2:{ unfold marker_finalize. erewrite alone_let; [done|]. apply alone_cas; [done| |done|done].
          cbn in Hv2. lia. }
      done. }
  rewrite Hvalue. exists b3. split_and!; [done| | |].
  - unfold b3, pointer_of. cbn. rewrite lookup_insert_ne by (apply not_eq_sym, pointer_not_marker).
    rewrite (Hkeep _ (mkStoredObject qb (mb_next_version b + 1) now)); [cbn; by apply from_slice_to_vec|].
    unfold b1. cbn. by rewrite lookup_insert_eq.
  - unfold b3, marker_of. cbn. rewrite lookup_insert_eq. cbn. by apply from_slice_to_vec.
  - intros path o Hp Ho. unfold b3. cbn. rewrite lookup_insert_ne by (intros <-; by destruct Hp; constructor).
    apply Hkeep. unfold b1. cbn. rewrite lookup_insert_ne; [done|]. intros <-. by destruct Hp; constructor.
Qed.
(** With the marker claimed: [b] holds it, and the metadata file is not there yet. *)
Lemma commit_claimed_alone b0 b p base md0 location path q value op om :
  let md := new_metadata p base md0 in
  fits_table b0 p base md0 location path q value -> ~ protected path ->
  mb_objects b !! pointer_path t = Some op -> (i64_min <= so_version op <= i64_max)%Z ->
  mb_objects b !! marker_object = Some om -> (i64_min <= so_version om <= i64_max)%Z ->
  mb_objects b !! path = None -> (mb_next_version b + 5 <= i64_max)%Z ->
  exists b', run_alone (commit_claimed timeout c p (pretty (so_version op)) base (own_marker p location)
      (pretty (so_version om))) now b = (Ok (mkCommitTableResponse location value), b') /\
    pointer_of (mb_objects b') t = Some q /\
    marker_of (mb_objects b') t (cc_idempotency_key c)
      = Some (finalize_committed (own_marker p location) location now) /\
    base_at (mb_objects b') location = Some md.
Proof using PL ML DL.
  intros md Hf Hpath Hop Hvp Hom Hvm Hno Hroom. unfold commit_claimed. rewrite (ft_requirements _ _ _ _ _ _ _ _ Hf).
  destruct (apply_updates_alone (ct_updates (cc_request c)) base) as [r Hr].
  pose proof (ft_updates _ _ _ _ _ _ _ _ Hf) as Hu. rewrite Hr in Hu. cbn in Hu. subst r.
  rewrite (alone_bind _ _ _ _ _ (Hr b)), alone_now. unfold try_commit. rewrite try_lift.
  change (im_metadata_location (own_marker p location)) with location.
  rewrite (ft_path _ _ _ _ _ _ _ _ Hf). cbv beta iota. fold (new_metadata p base md0). fold md.
  destruct (ft_metadata _ _ _ _ _ _ _ _ Hf) as [mdb Hmdb]. fold md in Hmdb. rewrite Hmdb.
  rewrite (alone_bind _ _ _ _ _ (alone_put path mdb DoesNotExist b ltac:(lia) ltac:(by rewrite Hno))).
  destruct (pending_receipt_alone (own_marker p location) (commit_key_from_metadata_location location)
    (tm_current_snapshot_id md) (cc_source c) (with_object b path mdb)) as (r & b2 & E2 & Hv2 & Hkeep);
    [cbn; lia|].
  rewrite (alone_bind _ _ _ _ _ E2). cbn in Hv2.
  assert (forall path' o, protected path' -> mb_objects b !! path' = Some o -> mb_objects b2 !! path' = Some o)
    as Hprot.
  { intros path' o Hp Ho. apply Hkeep. cbn. rewrite lookup_insert_ne; [done|by intros ->]. }
  destruct (publish_alone b2 p base md0 location q value op om) as (b' & E & Hq & Hm & Hk).
  - exact (ft_refs _ _ _ _ _ _ _ _ Hf).
  - exact (ft_value _ _ _ _ _ _ _ _ Hf).
  - exact (ft_new_pointer _ _ _ _ _ _ _ _ Hf).
  - exact (ft_committed _ _ _ _ _ _ _ _ Hf).
  - apply Hprot; [constructor|done].
  - done.
  - apply Hprot; [constructor|done].
  - done.
  - lia.
  - exists b'. split_and!; [exact E|exact Hq|exact Hm|].
    unfold metadata_at. rewrite (ft_path _ _ _ _ _ _ _ _ Hf).
    rewrite (Hk path (mkStoredObject mdb (mb_next_version b + 1) now)); [cbn; by apply from_slice_to_vec|done|].
    apply Hkeep. cbn. by rewrite lookup_insert_eq.
Qed.

Lemma load_metadata_alone b location md :
  base_at (mb_objects b) location = Some md ->
  run_alone (load_metadata location (cc_tenant c) (cc_workspace c)) now b = (Ok md, b).
Proof using.
  unfold metadata_at. destruct (resolve_metadata_path _ _ _) as [path|] eqn:Hpath; [|done].
  intros (o & Ho & Hmd)%bind_Some. unfold load_metadata. unfold try_bind. rewrite try_lift, Hpath. cbv beta iota.
  erewrite alone_try by by apply alone_get. by rewrite Hmd.
Qed.

Lemma load_pointer_alone b o p :
  mb_objects b !! pointer_path t = Some o -> from_slice (so_data o) = Some p ->
  run_alone (load_pointer c) now b = (Ok (p, pretty (so_version o)), b).
Proof using. intros Ho Hp. unfold load_pointer. by erewrite alone_let by by apply alone_load. Qed.

(** C15: a commit that fits its table succeeds.  A request whose requirements the table's
    metadata meets and whose updates apply, sent under a fresh key while no transaction is
    pending and nobody else is at work, is answered with the location of the new
    metadata; the file is there with the updated metadata, the table's pointer names it,
    and the marker answers a retry with the same location. *)
Theorem commit_alone b p base md0 location path q value :
  fits_table b p base md0 location path q value ->
  exists b', run_alone (commit_table timeout c) now b = (Ok (mkCommitTableResponse location value), b') /\
    pointer_of (mb_objects b') t = Some q /\ tp_current_metadata_location q = location /\
    base_at (mb_objects b') location = Some (new_metadata p base md0) /\
    marker_of (mb_objects b') t (cc_idempotency_key c)
      = Some (finalize_committed (own_marker p location) location now).
Proof using PL ML DL hex_no_dot.
  intros Hf. pose proof Hf as [(op & Hop & Hp & Hvp) Hver Hfree Hbase Hkey Hloc Hres Hfresh _ _ Hq Hroom
    [mb Hmb] _ _ _ _].
  assert (~ protected path) as Hpath.
  { eapply metadata_not_protected; [done|by eapply build_metadata_location_suffix|done]. }
  unfold commit_table, MAX_TAKEOVER_ATTEMPTS. cbn [commit_loop]. unfold try_commit.
  rewrite (alone_try _ _ _ _ _ _ (load_pointer_alone _ _ _ Hop Hp)). cbv beta iota. rewrite Hver.
  unfold handle_pending_transaction at 1. rewrite Hfree.
  erewrite alone_let by done. cbv beta iota.
  rewrite (alone_try _ _ _ _ _ _ (load_metadata_alone _ _ _ Hbase)), try_lift, Hloc. cbv beta iota.
  rewrite alone_now. fold (own_marker p location).
  set (b1 := with_object b marker_object mb).
  assert (run_alone (claim (own_marker p location)) now b
    = (Ok (ClaimSuccess (pretty (mb_next_version b + 1)%Z)), b1)) as Hclaim.
  { unfold claim. erewrite alone_let.
    2:{ apply alone_write; [exact Hmb|lia|].
        change (marker_path (own_marker p location)) with marker_object. by rewrite Hkey. }
    exact eq_refl. }
  rewrite (alone_try _ _ _ _ _ _ Hclaim). cbv beta iota.
  destruct (commit_claimed_alone b b1 p base md0 location path q value op
    (mkStoredObject mb (mb_next_version b + 1) now) Hf Hpath) as (b' & E & Hq' & Hm & Hmd).
  - unfold b1. cbn. rewrite lookup_insert_ne; [done|apply not_eq_sym, pointer_not_marker].
  - done.
  - unfold b1. cbn. by rewrite lookup_insert_eq.
  - cbn. unfold i64_min, i64_max in *. lia.
  - unfold b1. cbn. rewrite lookup_insert_ne; [done|]. intros <-. destruct Hpath. constructor.
  - unfold b1. cbn. lia.
  - exists b'. split_and!; [exact E|exact Hq'| |exact Hmd|exact Hm].
    revert Hq. unfold pointer_from_metadata. destruct (pointer_refs _); [|done]. by intros [= <-].
Qed.
End CommitAlone.
End Alone.

(** ** A sample catalog

    Concrete values for the parameters of the model (a serializer for the values the
    samples use, UUIDs that are their text, toy digests) and a store with three tables,
    on which the witness lemmas run. *)

(** ** Serializers *)

(** A serializer through a countable code: a value is written when it is read back. *)
Definition checked_json {A B} `{EqDecision A, Countable B} (enc : A -> B) (dec : B -> option A) : Json A := {|
  to_vec a := if decide (dec (enc a) = Some a) then Some (bits (encode (enc a))) else None;
  from_slice b := p ← unbits b; code ← decode p; dec code
|}.

Lemma checked_json_laws {A B} `{EqDecision A, Countable B} (enc : A -> B) dec :
  @JsonLaws A (checked_json enc dec).
Proof.
  intros a b. simpl. case_decide as E; [|done]. intros [= <-]. rewrite unbits_bits. simpl.
  rewrite decode_encode. exact E.
Qed.

#[export] Instance snapshot_ref_type_eq_dec : EqDecision SnapshotRefType.
Proof. solve_decision. Defined.
#[export] Instance snapshot_ref_eq_dec : EqDecision SnapshotRef.
Proof. solve_decision. Defined.
#[export] Instance update_source_eq_dec : EqDecision UpdateSource.
Proof. solve_decision. Defined.
#[export] Instance pending_update_eq_dec : EqDecision PendingPointerUpdate.
Proof. solve_decision. Defined.
#[export] Instance pointer_eq_dec : EqDecision IcebergTablePointer.
Proof. solve_decision. Defined.
#[export] Instance error_detail_eq_dec : EqDecision IcebergErrorDetail.
Proof. solve_decision. Defined.
#[export] Instance error_response_eq_dec : EqDecision IcebergErrorResponse.
Proof. solve_decision. Defined.
#[export] Instance marker_eq_dec : EqDecision IdempotencyMarker.
Proof. solve_decision. Defined.
#[export] Instance table_entry_eq_dec : EqDecision TransactionTableEntry.
Proof. solve_decision. Defined.
#[export] Instance transaction_record_eq_dec : EqDecision TransactionRecord.
Proof. solve_decision. Defined.
#[export] Instance pending_receipt_eq_dec : EqDecision PendingReceipt.
Proof. solve_decision. Defined.
#[export] Instance committed_receipt_eq_dec : EqDecision CommittedReceipt.
Proof. solve_decision. Defined.

#[export] Instance sample_pointer_json : Json IcebergTablePointer :=
  checked_json (fun p =>
      (tp_version p, uuid_text (tp_table_uuid p), tp_current_metadata_location p,
       tp_last_sequence_number p, tp_previous_metadata_location p, tp_updated_at p,
       (fun u => (pp_tx_id u, pp_metadata_location u, pp_last_sequence_number u, pp_prepared_at u))
         <$> tp_pending p))
    (fun '(v, u, loc, n, prev, at_, pd) =>
      t ← uuid_of u;
      Some (mkIcebergTablePointer v t loc None ∅ n prev at_ SourceUnknown
        ((fun '(tx, l, n, at_) => mkPendingPointerUpdate tx l None n at_) <$> pd))).

#[export] Instance sample_marker_json : Json IdempotencyMarker :=
  checked_json (fun m =>
      (match im_status m with MInProgress => 0%Z | MCommitted => 1%Z | MFailed => 2%Z end,
       (im_idempotency_key m, im_idempotency_key_hash m, uuid_text (im_table_uuid m), im_request_hash m),
       (im_started_at m, im_committed_at m, im_failed_at m, im_error_http_status m),
       (fun r => (ed_message (er_error r), ed_error_type (er_error r), ed_code (er_error r)))
         <$> im_error_payload m,
       (im_event_id m, im_base_metadata_location m, im_metadata_location m,
        im_response_metadata_location m)))
    (fun '(st, (key, hash, u, req), (s, c, f, http), err, (ev, base, loc, resp)) =>
      t ← uuid_of u;
      Some (mkIdempotencyMarker (if (st =? 0)%Z then MInProgress else if (st =? 1)%Z then MCommitted else MFailed)
        key hash t req s c f http
        ((fun '(m, ty, code) => mkIcebergErrorResponse (mkIcebergErrorDetail m ty code)) <$> err)
        ev base loc resp)).

#[export] Instance sample_record_json : Json TransactionRecord :=
  checked_json (fun r =>
      (tr_tx_id r, tr_request_hash r,
       match tr_status r with TxPreparing => 0%Z | TxCommitted => 1%Z | TxAborted => 2%Z end,
       (fun e => (uuid_text (te_table_uuid e), te_namespace e, te_table_name e,
          te_base_pointer_version e, te_new_metadata_location e, te_new_last_sequence_number e))
         <$> tr_tables r,
       tr_started_at r, tr_committed_at r, tr_aborted_at r, tr_abort_reason r))
    (fun '(tx, req, st, es, s, c, a, why) =>
      entries ← mapM (fun '(u, ns, n, v, loc, sn) =>
        t ← uuid_of u; Some (mkTransactionTableEntry t ns n v loc None sn)) es;
      Some (mkTransactionRecord tx req
        (if (st =? 0)%Z then TxPreparing else if (st =? 1)%Z then TxCommitted else TxAborted)
        entries s c a why)).

#[export] Instance sample_pending_receipt_json : Json PendingReceipt :=
  checked_json (B := unit) (fun _ => tt) (fun _ => None).
#[export] Instance sample_committed_receipt_json : Json CommittedReceipt :=
  checked_json (B := unit) (fun _ => tt) (fun _ => None).

(** Metadata with sort orders, properties and a log, and nothing else. *)
Definition sample_metadata_code : Type :=
  (string * string) * (Z * Z * Z * Z) * list (string * Z) * gmap string string * list Z.

Definition encode_metadata (md : TableMetadata) : option sample_metadata_code :=
  match md with
  | mkTableMetadata 2 u location seq updated last_column current_schema [] None [] [] log props
      0 [] 0 refs 0 orders =>
      if decide (refs = ∅) then
        ids ← mapM (fun o => match o with mkSortOrder id [] => Some id | _ => None end) orders;
        Some ((uuid_text u, location), (seq, updated, last_column, current_schema),
          (fun e => (ml_metadata_file e, ml_timestamp_ms e)) <$> log, props, ids)
      else None
  | _ => None
  end.

Definition decode_metadata (c : sample_metadata_code) : option TableMetadata :=
  let '((u, location), (seq, updated, last_column, current_schema), log, props, ids) := c in
  t ← uuid_of u;
  Some (mkTableMetadata 2 t location seq updated last_column current_schema [] None [] []
    ((fun '(f, ts) => mkMetadataLogEntry f ts) <$> log) props 0 [] 0 ∅ 0
    ((fun id => mkSortOrder id []) <$> ids)).

Lemma uuid_of_text u : uuid_of (uuid_text u) = Some u.
Proof.
  unfold uuid_of. destruct (decide _) as [H|H].
  - f_equal. by apply uuid_eq.
  - destruct H. apply uuid_text_canonical.
Qed.

Lemma decode_encode_metadata md c : encode_metadata md = Some c -> decode_metadata c = Some md.
Proof.
  destruct md as [v u location seq updated lc cs schemas current snapshots slog log props ds specs lp refs
    dso orders].
  unfold encode_metadata. repeat case_match; try done. subst.
  intros (ids & Hids & [= <-])%bind_Some. unfold decode_metadata. rewrite uuid_of_text. simpl. do 2 f_equal.
  - clear. induction log as [|[] log IH]; [done|]. rewrite !fmap_cons. by f_equal.
  - clear -Hids. revert ids Hids. induction orders as [|[id fields] orders IH]; intros ids; cbn.
    + by intros [= <-].
    + destruct fields; [|done]. intros (id' & [= <-] & (ids' & Hids & [= <-])%bind_Some)%bind_Some.
      rewrite fmap_cons. f_equal. by apply IH.
Qed.

#[export] Instance sample_metadata_json : Json TableMetadata := {|
  to_vec md := (fun c => bits (encode c)) <$> encode_metadata md;
  from_slice b := p ← unbits b; code ← decode p; decode_metadata code
|}.

#[export] Instance sample_metadata_laws : JsonLaws TableMetadata.
Proof.
  intros md b. simpl. intros (c & Hc & ->)%fmap_Some. rewrite unbits_bits. simpl.
  rewrite decode_encode. simpl. by apply decode_encode_metadata.
Qed.

#[export] Instance sample_pointer_laws : JsonLaws IcebergTablePointer.
Proof. apply checked_json_laws. Qed.
#[export] Instance sample_marker_laws : JsonLaws IdempotencyMarker.
Proof. apply checked_json_laws. Qed.
#[export] Instance sample_record_laws : JsonLaws TransactionRecord.
Proof. apply checked_json_laws. Qed.

(** A response body is not written out. *)
#[export] Instance sample_value_json : Json Value := {| to_vec _ := None; from_slice _ := Some VNull |}.
#[export] Instance sample_to_value : ToValue := fun _ => Some VNull.

(** ** Crates *)

Fixpoint undot (s : string) : string :=
  match s with
  | EmptyString => EmptyString
  | String c s => String (if decide (c = ".")%char then "_"%char else c) (undot s)
  end.

#[export] Instance iceberg_hashes : Hashes := {|
  sha256 := fun x => x;
  hmac_sha256 := fun k x => k +:+ x;
  hex_encode := undot;
  base32_encode := fun x => x
|}.

Lemma sample_hex_no_dot k : str_contains "." (sha256_hex k) = false.
Proof.
  unfold sha256_hex. simpl. induction k as [|c k IH]; [done|]. cbn [undot str_contains].
  rewrite IH. case_decide; by case_bool_decide.
Qed.

#[export] Instance sample_date_format : DateFormat := fun _ => "2025-01-01".

#[export] Instance sample_uuid_crate : UuidCrate := {|
  uuid_parse_str := uuid_of;
  uuid_get_variant := fun _ => VariantRFC4122;
  uuid_version_num := fun _ => 7%N
|}.

(** ** Three tables *)

Definition table_a : Uuid := mkUuid "aaaaaaaa-0000-7000-8000-000000000000" eq_refl.
Definition table_b : Uuid := mkUuid "bbbbbbbb-0000-7000-8000-000000000000" eq_refl.
Definition table_c : Uuid := mkUuid "cccccccc-0000-7000-8000-000000000000" eq_refl.

Definition first_metadata (t : Uuid) (base : string) : TableMetadata :=
  mkTableMetadata 2 t base 0 0 0 0 [] None [] [] [] ∅ 0 [] 0 ∅ 0 [].
Definition first_location (base : string) : string := base +:+ "/metadata/0.metadata.json".

Definition object (v : Z) {A} `{Json A} (a : A) : StoredObject :=
  mkStoredObject (default "" (to_vec a)) v 0.

Definition sample_tables : list (Uuid * string) := [(table_a, "wh/a"); (table_b, "wh/b"); (table_c, "wh/c")].

(** A metadata file and a pointer to it for each table. *)
Fixpoint created (v : Z) (tables : list (Uuid * string)) : list change :=
  match tables with
  | [] => []
  | (t, base) :: tables =>
      Wrote (first_location base) (object v (first_metadata t base))
      :: Wrote (pointer_path t) (object (v + 1) (pointer_new t (first_location base) 0))
      :: created (v + 2) tables
  end.

Definition sample_history : list change := created 1 sample_tables.
Definition sample_world : world := mkWorld (mkMemoryBackend (replay sample_history) 6) sample_history 0.

Abbreviation sample_inv := (iceberg_inv "t" "w").

Lemma created_legal h v t base :
  let h1 := h ++ [Wrote (first_location base) (object v (first_metadata t base))] in
  sample_inv h -> ends_with ".metadata.json" (first_location base) ->
  resolve_metadata_path (first_location base) "t" "w" = Ok (first_location base) ->
  replay h !! first_location base = None -> replay h1 !! pointer_path t = None ->
  from_slice (so_data (object (v + 1) (pointer_new t (first_location base) 0)))
    = Some (pointer_new t (first_location base) 0) ->
  sample_inv (h1 ++ [Wrote (pointer_path t) (object (v + 1) (pointer_new t (first_location base) 0))]).
Proof.
  intros h1 Hi He Hr Hno Hno' Hp.
  assert (~ protected (first_location base)) as Hn.
  { eapply metadata_not_protected; [apply sample_hex_no_dot|done|done]. }
  apply iceberg_inv_snoc. split; [apply iceberg_inv_snoc; split; [done|by apply legal_other]|].
  eapply legal_pointer_new; [done|done|exact Hp|done|]. exists (first_location base).
  split_and!; [done| |done]. unfold h1. rewrite replay_snoc. rewrite lookup_insert_eq. by eexists.
Qed.

Lemma sample_world_ok : world_ok sample_inv sample_world.
Proof.
  assert (forall base, ends_with ".metadata.json" (first_location base)) as He.
  { intros base. unfold first_location. apply ends_with_app_r. by exists "/metadata/0". }
  split.
  - split; [done| | |by vm_compute].
    + apply (bool_decide_unpack _). vm_compute. exact I.
    + by_computation.
  - apply (created_legal (created 1 [(table_a, "wh/a"); (table_b, "wh/b")]) 5 table_c "wh/c");
      [|done|by vm_compute..].
    apply (created_legal (created 1 [(table_a, "wh/a")]) 3 table_b "wh/b"); [|done|by vm_compute..].
    apply (created_legal [] 1 table_a "wh/a"); [apply iceberg_inv_nil|done|by vm_compute..].
Qed.

(** ** Requests *)

(** A client that adds a sort order and a property. *)
Definition sample_request (key : string) (n : Z) : CommitTableRequest :=
  mkCommitTableRequest None [] [SetProperties {[ key := "x" ]}; AddSortOrder (mkSortOrder n [])].

Definition sample_commit (t : Uuid) (key : string) (n : Z) : CommitCall :=
  mkCommitCall t "ns" "tbl" (sample_request key n) ("hash-" +:+ key) key SourceUnknown "t" "w"
    (fun k => ("ulid" +:+ pretty k, "take" +:+ pretty k)).

Definition sample_tx : TxCall :=
  mkTxCall "dddddddd-0000-7000-8000-000000000000" "tx-hash"
    [mkTableCommitInput table_b "ns" "b" (sample_request "kb" 1);
     mkTableCommitInput table_c "ns" "c" (sample_request "kc" 1)] SourceUnknown "t" "w".

Definition sample_load (t : Uuid) (if_none_match : option string) : LoadTableCall :=
  mkLoadTableCall t "ns" "tbl" if_none_match None "t" "w".

Definition turns (i n : nat) : list turn := repeat (mkTurn i 1 NoFault) n.
(** A turn eleven minutes later. *)
Definition late_turn (i : nat) : turn := mkTurn i 660000000000 NoFault.

Definition returned {A} (p : io A) : option A := match p with Ret a => Some a | Call _ _ => None end.

(** ** A schedule

    A commit on one table and a transaction on two others take turns; then a client
    reads one of the two. *)
Module CatalogSample.
Definition processes : list Process :=
  [PCommit (sample_commit table_a "k1" 7); PTransaction sample_tx; PLoad (sample_load table_b None)].

Definition writers : list turn := concat (repeat (turns 0 1 ++ turns 1 1) 37).
Definition reader : list turn := turns 2 6.

Definition skew (i : nat) : Z := Z.of_nat i.
Abbreviation run := (after IN_PROGRESS_TIMEOUT coordinator_config_default processes sample_world skew).
Abbreviation run_history :=
  (history IN_PROGRESS_TIMEOUT coordinator_config_default processes sample_world skew).

Lemma processes_in_scope : Forall (in_scope "t" "w") processes.
Proof. by repeat constructor. Qed.

(** The [n]th write of a history. *)
Lemma write_at (h : list change) n path :
  match h !! n with Some (Wrote p _) => bool_decide (p = path) | _ => false end = true ->
  exists o, h = take n h ++ Wrote path o :: drop (S n) h.
Proof.
  destruct (h !! n) as [[p o|p]|] eqn:E; [|done|done]. intros ->%bool_decide_eq_true.
  exists o. by rewrite take_drop_middle.
Qed.

Definition tx_record : string := transaction_record_path (tx_tx_id sample_tx).

Lemma sample_fits : fits sample_world (writers ++ reader).
Proof. by vm_compute. Qed.
Lemma writers_fit : fits sample_world writers.
Proof. by vm_compute. Qed.

(** The write that commits the transaction. *)
Lemma visible_witness :
  exists h1 o h2, run_history writers = h1 ++ Wrote tx_record o :: h2 /\
    visible_step "t" "w" (replay h1) (replay (h1 ++ [Wrote tx_record o])) (Wrote tx_record o).
Proof.
  destruct (write_at (run_history writers) 16 tx_record) as [o Ho]; [by vm_compute|].
  exists (take 16 (run_history writers)), o, (drop 17 (run_history writers)). split; [exact Ho|].
  apply (iceberg_visible "t" "w" IN_PROGRESS_TIMEOUT coordinator_config_default sample_hex_no_dot
    processes sample_world skew processes_in_scope sample_world_ok writers _ _ _ writers_fit Ho).
Defined.

(** The result of a thread, evaluated. *)
Lemma returned_as {A} (ps : list (io A)) i r :
  (p ← ps !! i; returned p) = Some r -> ps !! i = Some (Ret r).
Proof. destruct (ps !! i) as [[]|]; simpl; congruence. Qed.

Definition tx_locations : list TableCommitOutput :=
  (fun t => mkTableCommitOutput t (tx_metadata_location
     (if decide (t = table_b) then "wh/b" else "wh/c") 1 (tx_tx_id sample_tx) t)) <$> [table_b; table_c].


Lemma loaded_as (ps : list (io Outcome)) i location :
  match p ← ps !! i; returned p with
  | Some (OLoad (Ok (Loaded l _ _))) => bool_decide (l = location)
  | _ => false
  end = true ->
  exists md etag, ps !! i = Some (Ret (OLoad (Ok (Loaded location md etag)))).
Proof.
  destruct (ps !! i) as [[[|? |[[|l md etag]|]]|]|]; simpl; try done.
  intros ->%bool_decide_eq_true. eauto.
Qed.

(** The reader sees the transaction. *)
Lemma read_witness :
  let location := tx_metadata_location "wh/b" 1 (tx_tx_id sample_tx) table_b in
  exists h metadata, run_history writers `prefix_of` h /\
    effective (replay h) table_b = Some location /\
    metadata_at "t" "w" (w_objects (cf_world (run (writers ++ reader)))) location = Some metadata.
Proof.
  intros location.
  destruct (loaded_as (cf_threads (run (writers ++ reader))) 2 location) as (md & etag & Hr); [by vm_compute|].
  destruct (iceberg_read "t" "w" IN_PROGRESS_TIMEOUT coordinator_config_default sample_hex_no_dot
    processes sample_world skew processes_in_scope sample_world_ok writers reader 2
    (sample_load table_b None) location md etag sample_fits eq_refl) as [(h & Hh & _ & He) (md0 & Hmd & _)].
  - apply (bool_decide_unpack _). by vm_compute.
  - exact Hr.
  - exists h, md0. exact (conj Hh (conj He Hmd)).
Defined.

Lemma committed_as (o : option IdempotencyMarker) :
  im_status <$> o = Some MCommitted -> exists m, o = Some m /\ im_status m <> MInProgress.
Proof. destruct o as [m|]; [|done]. intros [= E]. exists m. by rewrite E. Qed.

(** The commit's marker and the transaction's record are final once the writers are done. *)
Lemma settled_witness :
  tx_status (w_objects (cf_world (run (writers ++ reader)))) (tx_tx_id sample_tx) = Some TxCommitted /\
  is_Some (marker_of (w_objects (cf_world (run (writers ++ reader)))) table_a "k1").
Proof.
  destruct (iceberg_settled "t" "w" IN_PROGRESS_TIMEOUT coordinator_config_default sample_hex_no_dot
    processes sample_world skew processes_in_scope sample_world_ok writers reader sample_fits)
    as (_ & Htx & Hmarker & _).
  split; [apply Htx; by vm_compute|].
  destruct (committed_as (marker_of (w_objects (cf_world (run writers))) table_a "k1")) as (m & Hm & Hst).
  { vm_compute. reflexivity. }
  exists m. by apply Hmarker.
Defined.

(** The commit by itself. *)
Definition alone_base : TableMetadata := first_metadata table_a "wh/a".
Definition alone_pointer : IcebergTablePointer := pointer_new table_a (first_location "wh/a") 0.
Definition alone_updates : TableMetadata :=
  alone_base <| tm_properties := {[ "k1" := "x" ]} |> <| tm_sort_orders := [mkSortOrder 7 []] |>.
Definition alone_location : string := "wh/a/metadata/1-k1.metadata.json".
Definition alone_result : IcebergTablePointer :=
  mkIcebergTablePointer 1 table_a alone_location None ∅ 1 (Some (first_location "wh/a")) 5 SourceUnknown None.

Lemma commit_alone_witness :
  exists b', run_alone (commit_table IN_PROGRESS_TIMEOUT (sample_commit table_a "k1" 7)) 5 (w_backend sample_world)
      = (Ok (mkCommitTableResponse alone_location VNull), b') /\
    pointer_of (mb_objects b') table_a = Some alone_result.
Proof.
  destruct (commit_alone 5 IN_PROGRESS_TIMEOUT (sample_commit table_a "k1" 7) sample_hex_no_dot
    (w_backend sample_world) alone_pointer alone_base alone_updates alone_location alone_location
    alone_result VNull) as (b' & Hrun & Hq & _).
  - constructor.
    1:{ exists (object 2 alone_pointer). split_and!; [vm_compute; reflexivity|vm_compute; reflexivity|done|done]. }
    11:{ by vm_compute. }
    11-14: eexists; vm_compute; reflexivity.
    all: vm_compute; reflexivity.
  - exists b'. exact (conj Hrun Hq).
Defined.
End CatalogSample.

(** ** Runs that show the limits of the protocol

    Concrete schedules, evaluated: an update applied twice and an applied update reported
    as failed, both by the take-over of an idempotency marker; a transaction id answered
    with another request's result; a conditional read that misses a committed
    transaction; and two facts about the values themselves. *)

Abbreviation run ps :=
  (after IN_PROGRESS_TIMEOUT coordinator_config_default ps sample_world (fun _ => 0%Z)).
Abbreviation objects_of c := (w_objects (cf_world c)).

(** The location a finished commit was answered with. *)
Definition committed_location (o : option Outcome) : option string :=
  match o with Some (OCommit (Ok response)) => Some (cr_metadata_location response) | _ => None end.

Definition answer (c : config Outcome) (i : nat) : option Outcome :=
  p ← cf_threads c !! i; returned p.

Definition first_try : CommitCall := sample_commit table_a "k1" 7.
Definition other_commit : CommitCall := sample_commit table_a "k2" 9.

(** A client's commit moves the pointer and then stops before its marker is finalized;
    another commit follows; eleven minutes later the client retries with the same key.
    The retry takes the marker over and is answered with a new location, and sort order
    7, which the request adds, is in the table twice. *)
Lemma takeover_applies_twice :
  let ps := [PCommit first_try; PCommit other_commit; PCommit first_try] in
  let c1 := run ps (turns 0 14) in
  let c2 := run_schedule (fun _ => 0%Z) (turns 1 20 ++ late_turn 2 :: turns 2 24) c1 in
  let location := effective (objects_of c2) table_a in
  (effective (objects_of c1) table_a, location, committed_location (answer c2 2),
   tm_sort_orders <$> (location ≫= metadata_at "t" "w" (objects_of c2)))
  = (Some "wh/a/metadata/1-k1.metadata.json", Some "wh/a/metadata/3-k1-take2.metadata.json",
     Some "wh/a/metadata/3-k1-take2.metadata.json",
     Some [mkSortOrder 7 []; mkSortOrder 9 []; mkSortOrder 7 []]).
Proof. vm_compute. reflexivity. Qed.

(** A commit is slow; eleven minutes after it claimed its marker a retry takes the marker
    over; then the first one moves the pointer, and the retry finds that it moved and
    records the key as failed.  The table has the request's metadata, and from then on
    the key answers with a conflict. *)
Lemma takeover_reports_failure :
  let ps := [PCommit first_try; PCommit first_try] in
  let c := run ps (turns 0 5 ++ late_turn 1 :: turns 1 12 ++ turns 0 20 ++ turns 1 20) in
  (effective (objects_of c) table_a, im_status <$> marker_of (objects_of c) table_a "k1",
   answer c 0, committed_location (answer c 1))
  = (Some "wh/a/metadata/1-k1.metadata.json", Some MFailed,
     Some (OCommit (Err (CRetryAfter 600))), None).
Proof. vm_compute. reflexivity. Qed.

(** The tables a finished transaction was answered with. *)
Definition committed_tables (o : option Outcome) : option (list Uuid) :=
  match o with
  | Some (OTransaction (Ok r)) => Some (to_table_uuid <$> mr_tables r)
  | _ => None
  end.

(** Another request under the id of [sample_tx]: one other table. *)
Definition same_id : TxCall :=
  mkTxCall (tx_tx_id sample_tx) "other-hash"
    [mkTableCommitInput table_a "ns" "a" (sample_request "kz" 1)] SourceUnknown "t" "w".

(** Two requests race under one transaction id.  The one that finds the record when it
    creates its own is answered with the other's tables, although the request hashes
    differ and it asked for another table. *)
Lemma transaction_id_answers_other_request :
  let ps := [PTransaction sample_tx; PTransaction same_id] in
  let c := run ps (turns 1 1 ++ turns 0 38 ++ turns 1 6) in
  (committed_tables (answer c 1), effective (objects_of c) table_a)
  = (Some [table_b; table_c], Some (first_location "wh/a")).
Proof. vm_compute. reflexivity. Qed.

(** The second reader of [b] sent the ETag [9] that the first was given with the first
    metadata, and was told that nothing changed; but the location is another. *)
Definition missed_commit (c : config Outcome) : bool :=
  match answer c 1, answer c 2 with
  | Some (OLoad (Ok (Loaded location _ etag))), Some (OLoad (Ok NotModified)) =>
      bool_decide (location = first_location "wh/b") && bool_decide (normalize_etag etag = "9") &&
      negb (bool_decide (effective (objects_of c) table_b = Some location))
  | _, _ => false
  end.

(** A client reads a table while a transaction is pending on it and keeps the ETag.  Once
    the transaction has committed, the table's location is another, but until somebody
    finalizes the pointer a conditional read with that ETag says not modified. *)
Lemma conditional_read_misses_commit :
  missed_commit (run
    [PTransaction sample_tx; PLoad (sample_load table_b None); PLoad (sample_load table_b (Some "9"))]
    (turns 0 12 ++ turns 1 6 ++ turns 0 16 ++ turns 2 1)) = true.
Proof. vm_compute. reflexivity. Qed.

(** Finalizing an update that has no snapshot keeps the old one, and the refs. *)
Lemma finalize_keeps_snapshot p pd source now :
  tp_pending p = Some pd -> pp_snapshot_id pd = None ->
  tp_current_snapshot_id (finalize_pending_with_source p source now) = tp_current_snapshot_id p /\
  tp_refs (finalize_pending_with_source p source now) = tp_refs p.
Proof. intros Hpd Hs. unfold finalize_pending_with_source. by rewrite Hpd, Hs. Qed.

(** A table created with a partition spec starts with a last partition id below its
    partition fields'. *)
Lemma new_table_partition_ids now t location schema spec f order props :
  f ∈ ps_fields spec -> (0 < pf_field_id f)%Z ->
  ~ well_typed (new_table_metadata now t location schema (Some spec) order props).
Proof.
  intros Hf Hid Hwt. pose proof (wt_partitions _ Hwt spec f) as Hle. cbn in Hle.
  specialize (Hle ltac:(set_solver) Hf). lia.
Qed.
